(* ===== verification/_CoqProject ===== *)
-Q . S2P
Prelude.v
Order.v
Js.v
Encoding.v
Json.v
Cidr.v
Db.v
Vip.v
Acl.v
Routes.v
Revocation.v
Endpoints.v
Permit.v
Netmap.v
Enrol.v
Heartbeat.v
AuditChain.v
AuditFacts.v
Access.v
AclRoutes.v
RateLimit.v
Leader.v
Sessions.v
Totp.v
Vault.v
Mfa.v
Compartments.v
Governance.v
Orgs.v
OrgFacts.v
Federation.v
FederationFacts.v
Duress.v
Nuke.v
NukeFacts.v
Bytes.v
Replay.v
Wire.v
Primitives.v
Challenge.v
Noise.v
Ratchet.v
Onion.v
Netfilter.v
Dataplane.v
DataplaneFacts.v
Telemetry.v
TelemetryFacts.v
Bridge.v
BridgeFacts.v
Device.v
Manager.v
ManagerFacts.v
Delivery.v
NodeSamples.v
NodeApi.v
NodeApiFacts.v
