(* ===== verification/Prelude.v ===== *)
(** * Neronet: a verification library

    Neronet is a mesh VPN.  Its control plane ([src/console/backend], Node.js over
    PostgreSQL and Valkey) enrols nodes, compiles the policy each node enforces,
    hands every node a netmap of the peers it may reach, and serves the console
    in which tenants administer their part of the mesh.  The node
    ([src/cmd/sovereign-node] and [src/pkg], Go) proves its key, applies the netmap
    to its WireGuard device and its packet filter, and carries packets.  This
    library models the code that decides who reaches whom, who may sign in and what
    may be destroyed, on both sides, and proves what it promises.  Paths below are
    relative to [src/console/backend] unless they start with [pkg/] or [cmd/].

    ** Conventions

    A service is a Module; its operations are definitions with the names of the
    source, over [eff S A], a state and error monad: [S → outcome A * S].  A
    [throw] is [Throw status message], and what was written before it stays
    written unless the code runs in a transaction.  The store of most services
    is [Db.t], a record of tables, each a list of rows; a SQL statement is
    [where_], [update_where], [delete_where] or an append under the constraints
    of the table.  Only the PostgreSQL branch of the query helpers is modelled.
    Numbers are [Z] at their width where it matters ([Totp] wraps at 32 bits,
    [Js] has IEEE doubles, INTEGER columns refuse what does not fit); [nat] is a
    length or fuel.  Clock readings and random values are arguments.  Code that
    is not in the repository is a parameter or a class with the laws of its
    documentation: [Collation], [Locale], [ValkeyLaws], [Jwt], [Gcm], [Crypto] with
    [CryptoLaws], [WireGuard] with [WireGuardLaws], SHA-256, HMAC, bcrypt, JSONB and
    the REAL columns of PostgreSQL.  Each class has an instance in the library.  In
    the Go code a mutex makes its critical section one step; what runs between two
    locks is split into steps that interleave.

    ** Files

    Foundations: [Prelude] (monad, automation), [Order] ([Array.sort] and ORDER
    BY), [Js] (values, conversions, strings), [Encoding] (base64, hexadecimal),
    [Json] ([JSON.parse], [JSON.stringify]), [Cidr] (IPv4 ranges of
    [AclEngine], [RouteEngine] and [NetmapService]) and [Db] (schema of
    [db/migrations], statements, foreign keys).

    The data plane's policy:
    - [Vip]: [utils/crypto.js], allocation of overlay addresses, public keys.
    - [Acl]: [services/AclEngine.js]; Module [Acl] has rules, compilation and
      simulation, [PkgAcl] the packet filter of the node ([pkg/acl]).
    - [Routes]: [services/RouteEngine.js].
    - [Revocation]: [services/NodeCredentialService.js] (Module [Credentials]) and
      [services/RevocationEngine.js] (Module [Revocation]).
    - [Endpoints], [Permit], [Netmap]: [services/NetmapService.js], from the
      intake of endpoints to the assembled document.
    - [Enrol]: [services/PreAuthKeyService.js], [services/EnrollmentService.js] and
      [middleware/nodeAuth.js].
    - [Heartbeat]: [utils/posture.js] and [services/HeartbeatBuffer.js], a step
      relation of beats and flushes.
    - [Compartments]: [services/CompartmentService.js].

    The console:
    - [AuditChain], [AuditFacts]: [services/AuditChainService.js] and
      [utils/audit.js].
    - [Access], [AclRoutes]: the role, ownership and permission middleware and the
      handlers of [routes/acl.js].
    - [RateLimit]: [middleware/rateLimit.js], with the abstract contract
      [FixedWindow] that both of its stores refine.
    - [Leader]: [services/DistributedLeaderService.js], a step relation over all
      instances, their connections and the lock.
    - [Sessions]: [services/ConsoleSessionService.js], [ConsoleTokens.js],
      [SessionAuthority.js], [AccessTokenRevocation.js] and the triggers of
      migrations 039 and 040, over the tables of [Console].
    - [Totp], [Mfa]: [services/TotpService.js], [MfaPolicy.js] and
      [MfaSessionService.js].
    - [Vault], [Governance]: [services/CryptoShreddingService.js], first its key
      hierarchy, then legal holds, dual authorisation and the shred.
    - [Orgs], [OrgFacts]: [services/OrgService.js], the module switch of
      [services/ModuleLoader.js] and [routes/organizations.js].
    - [Federation], [FederationFacts]: [services/PeeringEngine.js] and
      [routes/peering.js].
    - [Duress]: [services/DuressService.js], the sign-in of [routes/auth.js] and the
      vault handlers of [routes/compartments.js].
    - [Nuke], [NukeFacts]: [modules/nuke], self-destruction and dead man's switches.
    - [NodeApi], [NodeApiFacts]: [routes/nodes.js], the creation of
      [routes/configs.js] and [utils/pagination.js].

    Between console and node:
    - [Challenge]: [services/ControlPlaneKeyService.js] and the client's side of the
      proof of possession in [pkg/control/client.go].
    - [Telemetry], [TelemetryFacts]: the device counters, from
      [cmd/sovereign-node/telemetry.go] to [services/NativeTelemetry.js].
    - [Bridge], [BridgeFacts]: [routes/goBridge.js], the handlers a node talks to.
    - [Delivery]: the document that [Netmap] builds, read by [Manager].

    The node:
    - [Bytes], [Primitives]: machine integers, and the cryptographic libraries.
    - [Wire], [Replay], [Noise], [Ratchet]: the frames, the anti-replay window, the
      handshake and the sessions of [pkg/crypto].
    - [Onion]: circuits of [pkg/routing].
    - [Netfilter], [Dataplane], [DataplaneFacts]: the packet filter of [pkg/acl] and
      the tunnel device of [pkg/dataplane].
    - [Device]: the peers and pre-shared keys of the WireGuard device.
    - [Manager], [ManagerFacts], [NodeSamples]: [cmd/sovereign-node/netmap.go], with
      the three goroutines that share it as a step function, and a sample node.

    Components meet where the code makes them meet: [Netmap] calls [Acl],
    [Routes], [Revocation] and [Endpoints]; [Mfa] runs [Sessions] inside its own
    transactions and opens secrets through [Vault]; [Governance] and [Duress]
    revoke through [Revocation] and share the state [Gov.t], which [Orgs] and [Nuke]
    extend; [Duress.login] composes [Mfa.signIn]; [Bridge] and [NodeApi] compose the
    services of the data plane over the store [Control.t]; [Manager] drives [Device]
    and [Netfilter].

    ** What the theorems show

    - Reachability.  A netmap and a compiled policy never name a node of another
      tenant, a quarantined one or one the policy refuses ([netmap_isolation],
      [compileFor_isolation]); the compiled entries, read by the node's own filter,
      decide as the rules do, alike at both ends, and as the simulator says
      ([compiled_policy_decides], [compiled_ends_agree],
      [simulate_agrees_with_compiled]); the permitted peers are exactly those with
      an accepted packet ([permittedPeerVIPs_exact]).
    - Enforcement.  A packet passes between two nodes exactly if the rules accept it
      ([mesh_policy_enforced]); a served document is read by the node, which then
      routes to no one the stored rows do not allow ([served_document_enforced]); a
      document is applied whole or not at all; a revoked peer stays out and a node
      out of touch closes, under every interleaving ([revoked_peer_stays_out],
      [stale_node_isolated]).
    - Channels.  Two nodes that complete a handshake read each other's packets, each
      once; the anti-replay window accepts exactly the fresh counters; a cell is
      delivered through a circuit; pre-shared keys of one epoch agree.
    - Compartments.  The tables stay well formed, a request is confined to its
      tenant, and below the root tier hidden compartments are neither changed nor
      visible.
    - Identity of nodes.  Credentials, single-use keys and challenges; a registration
      is sound and leaves the fleet alone; the node API changes only what its caller
      may change; a quarantine takes hold and its lifting ends it
      ([registration_sound], [node_requests_confined], [quarantine_isolates],
      [lift_restores]).
    - Sessions.  A refresh token is redeemed once, an ended sign-in stays ended, a
      challenge completes once and dies with the credentials it was checked
      against, and no session is given without the required second factor.
    - Secrets and destruction.  A sealed secret opens until its tenant is shredded
      and never after; destruction takes two people and no legal hold; a duress
      password destroys what it is meant to and no more; no switch fires early.
    - Organisations.  The last owner stays; an accepted peering was issued.
    - The ledger.  What was written verifies, and a checkpoint pins the history.
    - Distribution.  At most one leader among instances whose sessions live, and
      failover; a shared window admits a bounded number of requests; bytes of
      heartbeats are conserved by any interleaving of flushes; what a node reports
      is never refused as going backwards.

    Further theorems of each file (epochs that advance, deterministic documents,
    address allocation, intake of endpoints, permission matrix, round trips) are
    stated where they are proved.  Lemmas at the end of a file whose comment
    describes an unexpected behaviour are executions of the code that show it.

    ** Bounds and fuel

    The JSON parser takes the length of its text as fuel, enough because every
    call consumes a character.  The number and hexadecimal printers take a bound
    on the digits of their argument.  [Vault.getOrCreate] takes two attempts,
    enough because a lost insert means the row exists
    ([getOrCreateOrgDEK_total]).  The audit verifier takes the length of the ledger,
    the checksum of a packet as many rounds as its carries can last, [parseFloat] the
    length of its text.  Everything else is structural.  Interleaving is unbounded:
    step relations with [rtc] and runs over lists of events of any length.

    ** Not modelled

    Handlers that only render what a modelled service answers, and those of users
    and enrolment keys; risk scoring, which weighs trigonometric
    functions of floating-point numbers; metrics and exports; TLS, certificates and
    OIDC (libraries and network); canary documents; backups, files and subprocesses;
    process start-up; the SQLite branch, which is not taken; audit events of most
    services, which are written after the fact and never read back; events to open
    consoles.  Of the node: sockets, relays, NAT traversal and path selection, the
    local servers, the platform key stores and the assembly of the program; of the
    repository, the desktop and mobile programs and the command line.
    [sealLegacySecrets] and [compilePreview] are left out. *)

From Stdlib Require Export ZArith Lia Ascii.
From stdpp Require Export base tactics list sorting strings pretty gmap sets.

(** ** Scopes

    Integers are [Z] everywhere; [nat] appears only as a length or as fuel. *)
Declare Scope ctl_scope.
Delimit Scope ctl_scope with ctl.
Open Scope string_scope.
Open Scope list_scope.
Open Scope Z_scope.

(** ** Outcomes of fallible code

    [Throw status msg] is a JavaScript [throw] of an [Error] whose [status]
    property is [Some n], or absent for [None]. *)
Inductive outcome (A : Type) : Type :=
  | Ok (a : A)
  | Throw (status : option Z) (msg : string).
Arguments Ok {A} a.
Arguments Throw {A} status msg.

(** An effectful computation over a store [S].  The store survives a throw:
    what a statement wrote before the exception stays written, unless the code
    runs inside [atomically]. *)
Definition eff (S A : Type) : Type := S → outcome A * S.

Definition eff_ret {S A} (a : A) : eff S A := λ s, (Ok a, s).
Definition eff_bind {S A B} (m : eff S A) (k : A → eff S B) : eff S B :=
  λ s, match m s with
       | (Ok a, s') => k a s'
       | (Throw st msg, s') => (Throw st msg, s')
       end.
Definition throw {S A} (status : option Z) (msg : string) : eff S A :=
  λ s, (Throw status msg, s).
Definition get {S} : eff S S := λ s, (Ok s, s).
Definition put {S} (s : S) : eff S unit := λ _, (Ok tt, s).
Definition modify {S} (f : S → S) : eff S unit := λ s, (Ok tt, f s).

(** BEGIN ... COMMIT with ROLLBACK on a throw. *)
Definition atomically {S A} (m : eff S A) : eff S A :=
  λ s, match m s with
       | (Ok a, s') => (Ok a, s')
       | (Throw st msg, _) => (Throw st msg, s)
       end.

Notation "x <-! m ; k" := (eff_bind m (λ x, k))
  (at level 100, m at level 99, k at level 200, right associativity) : ctl_scope.
Notation "m ;! k" := (eff_bind m (λ _, k))
  (at level 100, k at level 200, right associativity) : ctl_scope.
Open Scope ctl_scope.

Lemma atomically_throw {S A} (m : eff S A) s st msg :
  (atomically m s).1 = Throw st msg → (atomically m s).2 = s.
Proof. unfold atomically. destruct (m s) as [[]]; simpl; congruence. Qed.

(** ** Automation *)

Create HintDb ctl discriminated.

(** Case analysis on the next [if] or [match] of the goal or of a hypothesis,
    keeping the equation. *)
Ltac break_if :=
  match goal with
  | |- context [if ?b then _ else _] => destruct b eqn:?
  | H : context [if ?b then _ else _] |- _ => destruct b eqn:?
  end.

Ltac break_match :=
  match goal with
  | |- context [match ?x with _ => _ end] =>
      lazymatch x with context [match _ with _ => _ end] => fail | _ => destruct x eqn:? end
  | H : context [match ?x with _ => _ end] |- _ =>
      lazymatch x with context [match _ with _ => _ end] => fail | _ => destruct x eqn:? end
  end.

(** Boolean tests of the code turned into the propositions they decide. *)
Ltac b2p :=
  repeat match goal with
  | H : (_ && _)%bool = true |- _ => apply andb_true_iff in H as [? ?]
  | H : (_ || _)%bool = false |- _ => apply orb_false_iff in H as [? ?]
  | H : (_ || _)%bool = true |- _ => apply orb_true_iff in H
  | H : (_ && _)%bool = false |- _ => apply andb_false_iff in H
  | H : negb _ = true |- _ => apply negb_true_iff in H
  | H : negb _ = false |- _ => apply negb_false_iff in H
  | H : (_ =? _)%Z = true |- _ => apply Z.eqb_eq in H
  | H : (_ =? _)%Z = false |- _ => apply Z.eqb_neq in H
  | H : (_ <=? _)%Z = true |- _ => apply Z.leb_le in H
  | H : (_ <=? _)%Z = false |- _ => apply Z.leb_gt in H
  | H : (_ <? _)%Z = true |- _ => apply Z.ltb_lt in H
  | H : (_ <? _)%Z = false |- _ => apply Z.ltb_ge in H
  | H : (_ =? _)%string = true |- _ => apply String.eqb_eq in H
  | H : (_ =? _)%string = false |- _ => apply String.eqb_neq in H
  | H : bool_decide _ = true |- _ => apply bool_decide_eq_true in H
  | H : bool_decide _ = false |- _ => apply bool_decide_eq_false in H
  end.

(** [lia] with division and remainder by constants. *)
Ltac dlia := Z.to_euclidean_division_equations; lia.

(** Inversion of a run of a sequence of effects. *)
Lemma eff_bind_ok {S A B} (m : eff S A) (k : A → eff S B) s b s' :
  eff_bind m k s = (Ok b, s') → ∃ a s1, m s = (Ok a, s1) ∧ k a s1 = (Ok b, s').
Proof. unfold eff_bind. destruct (m s) as [[a|] s1]; [eauto|congruence]. Qed.

Lemma eff_bind_throw {S A B} (m : eff S A) (k : A → eff S B) s st msg s' :
  eff_bind m k s = (Throw st msg, s') →
  m s = (Throw st msg, s') ∨ ∃ a s1, m s = (Ok a, s1) ∧ k a s1 = (Throw st msg, s').
Proof. unfold eff_bind. destruct (m s) as [[a|] s1]; [eauto|intros; left; congruence]. Qed.

Ltac run_inv :=
  repeat match goal with
  | H : eff_bind _ _ _ = (Ok _, _) |- _ => apply eff_bind_ok in H as (? & ? & ? & H)
  | H : eff_bind _ _ _ = (Throw _ _, _) |- _ => apply eff_bind_throw in H as [H|(? & ? & ? & H)]
  | H : eff_ret _ _ = _ |- _ => unfold eff_ret in H; simplify_eq
  | H : get _ = _ |- _ => unfold get in H; simplify_eq
  | H : modify _ _ = _ |- _ => unfold modify in H; simplify_eq
  | H : throw _ _ _ = _ |- _ => unfold throw in H; simplify_eq
  end.

(** Past the query that opens an operation. *)
Ltac read_store := unfold eff_bind at 1, get at 1; cbv beta iota.
(** The next test of an operation. *)
Ltac branch E := match goal with |- context [(if ?b then _ else _) _] => destruct b eqn:E end.
(** The same in the run [H] of an operation. *)
Ltac branch_in H := match type of H with (if ?b then _ else _) _ = _ => let E := fresh "E" in destruct b eqn:E end.

(** Bits that do not meet. *)
Lemma lor_low x k b : 0 <= k → 0 <= b < 2 ^ k → Z.lor (Z.shiftl x k) b = x * 2 ^ k + b.
Proof.
  intros Hk Hb. rewrite <- Z.shiftl_mul_pow2 by done.
  assert (Z.land (Z.shiftl x k) b = 0) as H0.
  { apply Z.bits_inj'. intros n Hn. rewrite Z.land_spec, Z.bits_0. destruct (Z.lt_ge_cases n k).
    - by rewrite Z.shiftl_spec_low.
    - rewrite <- (Z.mod_small b (2 ^ k)), Z.mod_pow2_bits_high by lia. by rewrite andb_false_r. }
  by rewrite <- Z.lxor_lor, <- Z.add_nocarry_lxor.
Qed.

(** A computation that only reads the store. *)
Definition reads {S A} (m : eff S A) : Prop := ∀ s, (m s).2 = s.

Lemma reads_run {S A} (m : eff S A) s o s' : reads m → m s = (o, s') → s' = s.
Proof. intros H E. specialize (H s). rewrite E in H. done. Qed.
#[export] Hint Unfold reads : ctl.

(** A computation whose effect on the store, whether it returns or throws, is a
    sequence of steps of [R]. *)
Definition within {S A} (R : relation S) (m : eff S A) : Prop := ∀ s, rtc R s (m s).2.

Section Within.
Context {S : Type} (R : relation S).

Lemma within_bind {A B} (m : eff S A) (k : A → eff S B) :
  within R m → (∀ a, within R (k a)) → within R (eff_bind m k).
Proof.
  intros Hm Hk s. unfold eff_bind. specialize (Hm s). destruct (m s) as [[a|] s1]; [|done].
  etrans; [exact Hm|apply Hk].
Qed.

(** The query that opens an operation. *)
Lemma within_get {A} (k : S → eff S A) : (∀ s, rtc R s (k s s).2) → within R (eff_bind get k).
Proof. intros H s. exact (H s). Qed.

Lemma within_reads {A} (m : eff S A) : reads m → within R m.
Proof. intros H s. rewrite H. apply rtc_refl. Qed.

Lemma within_ret {A} (a : A) : within R (eff_ret a).
Proof. intros s. apply rtc_refl. Qed.

Lemma within_throw {A} st msg : within R (throw st msg : eff S A).
Proof. intros s. apply rtc_refl. Qed.

Lemma within_modify (f : S → S) : (∀ s, R s (f s)) → within R (modify f).
Proof. intros H s. apply rtc_once, H. Qed.

Lemma within_weaken {A} (R' : relation S) (m : eff S A) : (∀ s s', R s s' → R' s s') → within R m → within R' m.
Proof. intros H Hm s. eapply rtc_subrel; [|apply Hm]. exact H. Qed.

(** What every step preserves, the computation preserves. *)
Lemma within_invariant {A} (P : S → Prop) (m : eff S A) s :
  (∀ s s', R s s' → P s → P s') → within R m → P s → P (m s).2.
Proof. intros H Hm. generalize (Hm s). generalize ((m s).2). induction 1; eauto. Qed.
End Within.

#[export] Hint Resolve within_bind within_ret within_throw : ctl.
