(* ===== verification/Order.v ===== *)
(** * Sorting

    [Array.prototype.sort] with a comparator, which is stable, and SQL's
    [ORDER BY].  A comparator answers a negative, zero or positive number, as
    in JavaScript.  [Comparator] states what a comparator promises; under it
    the result is a sorted permutation, and a comparator that separates the
    elements makes the result independent of the input order. *)

From S2P Require Import Prelude.

Section Sort.
Context {A : Type} (cmp : A → A → Z).

(** [x] goes before the first element it is smaller than. *)
Fixpoint insert_by (x : A) (l : list A) : list A :=
  match l with
  | [] => [x]
  | y :: r => if cmp x y <? 0 then x :: l else y :: insert_by x r
  end.

Definition js_sort (l : list A) : list A := fold_left (λ acc x, insert_by x acc) l [].
End Sort.

Class Comparator {A} (cmp : A → A → Z) : Prop := {
  cmp_swap : ∀ x y, cmp x y < 0 ↔ 0 < cmp y x;
  cmp_trans : ∀ x y z, cmp x y <= 0 → cmp y z <= 0 → cmp x z <= 0;
}.

(** Comparison of integers by subtraction. *)
Definition cmp_Z (a b : Z) : Z := a - b.
#[export] Instance cmp_Z_comparator : Comparator cmp_Z.
Proof. split; unfold cmp_Z; lia. Qed.

(** First key, then second key. *)
Definition cmp_lex {A} (c1 c2 : A → A → Z) (x y : A) : Z :=
  if c1 x y =? 0 then c2 x y else c1 x y.

Definition cmp_on {A B} (f : A → B) (c : B → B → Z) (x y : A) : Z := c (f x) (f y).

#[export] Instance cmp_on_comparator {A B} (f : A → B) c `{!Comparator c} : Comparator (cmp_on f c).
Proof. split; unfold cmp_on; intros; [apply cmp_swap|by eapply cmp_trans]. Qed.

Lemma cmp_zero_sym {A} (c : A → A → Z) `{!Comparator c} x y : c x y = 0 → c y x = 0.
Proof. intros E. pose proof (cmp_swap (cmp := c) x y). pose proof (cmp_swap (cmp := c) y x). lia. Qed.

#[export] Instance cmp_lex_comparator {A} (c1 c2 : A → A → Z) `{!Comparator c1, !Comparator c2} :
  Comparator (cmp_lex c1 c2).
Proof.
  split; unfold cmp_lex.
  - intros x y. pose proof (cmp_swap (cmp := c1) x y). pose proof (cmp_swap (cmp := c2) x y).
    pose proof (cmp_swap (cmp := c1) y x).
    destruct (Z.eqb_spec (c1 x y) 0), (Z.eqb_spec (c1 y x) 0); lia.
  - intros x y z. pose proof (cmp_trans (cmp := c1) x y z). pose proof (cmp_trans (cmp := c2) x y z).
    pose proof (cmp_trans (cmp := c1) z x y). pose proof (cmp_trans (cmp := c1) y z x).
    pose proof (cmp_swap (cmp := c1) x y). pose proof (cmp_swap (cmp := c1) y x).
    pose proof (cmp_swap (cmp := c1) x z). pose proof (cmp_swap (cmp := c1) z x).
    pose proof (cmp_swap (cmp := c1) z y). pose proof (cmp_swap (cmp := c1) y z).
    destruct (Z.eqb_spec (c1 x y) 0), (Z.eqb_spec (c1 y z) 0), (Z.eqb_spec (c1 x z) 0); lia.
Qed.

Section Facts.
Context {A : Type} (cmp : A → A → Z).

Lemma insert_by_perm x l : insert_by cmp x l ≡ₚ x :: l.
Proof.
  induction l as [|y r IH]; simpl; [done|]. destruct (cmp x y <? 0); [done|].
  rewrite IH. apply Permutation_swap.
Qed.

Lemma fold_insert_perm l acc : fold_left (λ acc x, insert_by cmp x acc) l acc ≡ₚ l ++ acc.
Proof.
  revert acc. induction l as [|x l IH]; simpl; intros acc; [done|].
  rewrite IH, insert_by_perm. by rewrite <- Permutation_middle.
Qed.

Lemma js_sort_perm l : js_sort cmp l ≡ₚ l.
Proof. unfold js_sort. rewrite fold_insert_perm. by rewrite app_nil_r. Qed.

Lemma elem_of_js_sort x l : x ∈ js_sort cmp l ↔ x ∈ l.
Proof. by rewrite js_sort_perm. Qed.

Context `{!Comparator cmp}.
Let le (x y : A) : Prop := cmp x y <= 0.

Lemma insert_by_sorted x l : StronglySorted le l → StronglySorted le (insert_by cmp x l).
Proof.
  induction 1 as [|y r Hs IH Hf]; simpl; [by repeat constructor|].
  destruct (cmp x y <? 0) eqn:E; b2p.
  - constructor; [by constructor|]. constructor; [unfold le; lia|].
    eapply Forall_impl; [exact Hf|]. unfold le. intros z Hz. eapply cmp_trans; [|exact Hz]. lia.
  - constructor; [done|]. rewrite insert_by_perm. constructor; [|done].
    unfold le. pose proof (cmp_swap (cmp := cmp) x y). pose proof (cmp_swap (cmp := cmp) y x). lia.
Qed.

Lemma js_sort_sorted l : StronglySorted le (js_sort cmp l).
Proof.
  unfold js_sort. assert (StronglySorted le []) as H by constructor. revert H.
  generalize (@nil A). induction l as [|x l IH]; simpl; intros acc H; [done|].
  by apply IH, insert_by_sorted.
Qed.

(** A comparator that separates the elements decides the order. *)
Lemma sorted_unique l l' :
  (∀ x y, x ∈ l → y ∈ l → cmp x y = 0 → x = y) →
  StronglySorted le l → StronglySorted le l' → l ≡ₚ l' → l = l'.
Proof.
  intros Hsep Hs. revert l' Hsep. induction Hs as [|x l Hs IH Hf]; intros l' Hsep Hs' Hp.
  - by apply Permutation_nil in Hp.
  - destruct l' as [|y l']; [by apply Permutation_nil_r in Hp|].
    inversion Hs' as [|? ? Hs'' Hf']; subst.
    assert (x = y) as ->.
    { assert (x ∈ y :: l') as Hx by (rewrite <- Hp; left).
      assert (y ∈ x :: l) as Hy by (rewrite Hp; left).
      apply elem_of_cons in Hx as [|Hx]; [done|]. apply elem_of_cons in Hy as [->|Hy]; [done|].
      rewrite Forall_forall in Hf, Hf'. specialize (Hf _ Hy). specialize (Hf' _ Hx).
      unfold le in *. pose proof (cmp_swap (cmp := cmp) x y). pose proof (cmp_swap (cmp := cmp) y x).
      apply Hsep; [left|by right|]. lia. }
    f_equal. apply IH; [|done|by apply Permutation_cons_inv in Hp].
    intros a b Ha Hb. apply Hsep; by right.
Qed.

Lemma js_sort_permutation l l' :
  (∀ x y, x ∈ l → y ∈ l → cmp x y = 0 → x = y) → l ≡ₚ l' → js_sort cmp l = js_sort cmp l'.
Proof.
  intros Hsep Hp. apply sorted_unique; try apply js_sort_sorted.
  - intros x y. rewrite !elem_of_js_sort. apply Hsep.
  - by rewrite !js_sort_perm.
Qed.

(** Sorting a sorted list changes nothing: the sort is stable. *)
Lemma insert_by_end x l : (∀ y, y ∈ l → cmp y x <= 0) → insert_by cmp x l = l ++ [x].
Proof.
  induction l as [|y l IH]; intros H; [done|]. cbn [insert_by].
  assert ((cmp x y <? 0) = false) as ->.
  { pose proof (H y ltac:(left)). pose proof (cmp_swap (cmp := cmp) x y). lia. }
  simpl. rewrite IH; [done|]. intros z Hz. apply H. by right.
Qed.

Lemma js_sort_id l : StronglySorted le l → js_sort cmp l = l.
Proof.
  intros Hs. unfold js_sort. assert (∀ acc, StronglySorted le (acc ++ l) →
    fold_left (λ acc x, insert_by cmp x acc) l acc = acc ++ l) as H; [|by apply (H [])].
  clear Hs. induction l as [|x l IH]; intros acc Ha; simpl; [by rewrite app_nil_r|].
  rewrite insert_by_end.
  - rewrite IH; rewrite <- app_assoc; done.
  - intros y Hy. apply (StronglySorted_app_1_elem_of le acc (x :: l) y x); [done|done|left].
Qed.
End Facts.
