(* ===== verification/Js.v ===== *)
(** * The JavaScript the backend is written in

    The part of the language and of its standard library the modelled sources
    use: strings, numbers with their conversions, and untyped values as
    [JSON.parse] produces them.

    A string is a sequence of code units below 256 (one [ascii] each); case
    mapping is that of the ASCII letters.  A number is an IEEE 754 double,
    kept exactly as [m * 2^e]; the sign of zero is not kept, no modelled code
    observes it.  An object is the list of its own fields in insertion order;
    it has no [toString] or [valueOf] of its own. *)

From S2P Require Import Prelude.

(** ** Strings *)

Definition code (c : ascii) : Z := Z.of_N (N_of_ascii c).

Definition is_digit (c : ascii) : bool := (48 <=? code c) && (code c <=? 57).
Definition is_lower (c : ascii) : bool := (97 <=? code c) && (code c <=? 122).
Definition is_upper (c : ascii) : bool := (65 <=? code c) && (code c <=? 90).

(** WhiteSpace and LineTerminator of the ECMAScript grammar below U+0100. *)
Definition is_space (c : ascii) : bool :=
  ((9 <=? code c) && (code c <=? 13)) || (code c =? 32) || (code c =? 160).

Definition upper_char (c : ascii) : ascii :=
  if is_lower c then ascii_of_N (Z.to_N (code c - 32)) else c.
Definition lower_char (c : ascii) : ascii :=
  if is_upper c then ascii_of_N (Z.to_N (code c + 32)) else c.

Fixpoint map_string (f : ascii → ascii) (s : string) : string :=
  match s with
  | EmptyString => EmptyString
  | String c s' => String (f c) (map_string f s')
  end.

Definition toUpperCase : string → string := map_string upper_char.
Definition toLowerCase : string → string := map_string lower_char.

Fixpoint all_chars (p : ascii → bool) (s : string) : bool :=
  match s with
  | EmptyString => true
  | String c s' => p c && all_chars p s'
  end.

Fixpoint trim_start (s : string) : string :=
  match s with
  | EmptyString => EmptyString
  | String c s' => if is_space c then trim_start s' else s
  end.

Fixpoint rev_string (s acc : string) : string :=
  match s with
  | EmptyString => acc
  | String c s' => rev_string s' (String c acc)
  end.

Definition js_rev (s : string) : string := rev_string s EmptyString.
Definition trim (s : string) : string := js_rev (trim_start (js_rev (trim_start s))).

Definition len (s : string) : Z := Z.of_nat (String.length s).

(** [s.slice(0, n)] and [s.slice(n)] for [n] at least 0. *)
Fixpoint take_string (n : nat) (s : string) : string :=
  match n, s with
  | S n', String c s' => String c (take_string n' s')
  | _, _ => EmptyString
  end.
Fixpoint drop_string (n : nat) (s : string) : string :=
  match n, s with
  | O, _ => s
  | S n', String _ s' => drop_string n' s'
  | S _, EmptyString => EmptyString
  end.

(** [s.split(c)] for a one-character separator. *)
Fixpoint split (sep : ascii) (s : string) : list string :=
  match s with
  | EmptyString => [EmptyString]
  | String c s' =>
      if Ascii.eqb c sep then EmptyString :: split sep s'
      else match split sep s' with
           | [] => [String c EmptyString]
           | w :: ws => String c w :: ws
           end
  end.

Definition join (sep : string) (ws : list string) : string := String.concat sep ws.

(** [s.lastIndexOf(c)], counted from 0, [-1] when absent. *)
Fixpoint last_index (c : ascii) (s : string) (i : Z) : Z :=
  match s with
  | EmptyString => -1
  | String d s' =>
      let r := last_index c s' (i + 1) in
      if r =? -1 then (if Ascii.eqb d c then i else -1) else r
  end.
Definition lastIndexOf (c : ascii) (s : string) : Z := last_index c s 0.

Definition includes_char (c : ascii) (s : string) : bool :=
  negb (all_chars (λ d, negb (Ascii.eqb d c)) s).

Definition startsWith (p s : string) : bool := String.prefix p s.

(** ** Numbers *)

(** [Fin m e] stands for [m * 2^e], with [m] odd, or [m = e = 0]. *)
Inductive num := NaN | Inf (neg : bool) | Fin (m e : Z).

#[export] Instance num_eq_dec : EqDecision num.
Proof. solve_decision. Defined.

Fixpoint strip2 (p : positive) (e : Z) : positive * Z :=
  match p with
  | xO q => strip2 q (e + 1)
  | _ => (p, e)
  end.

Definition mk_fin (m e : Z) : num :=
  match m with
  | Z0 => Fin 0 0
  | Zpos p => let '(q, e') := strip2 p e in Fin (Zpos q) e'
  | Zneg p => let '(q, e') := strip2 p e in Fin (Zneg q) e'
  end.

(** A number literal of the source: an integer below 2^53 in absolute value. *)
Definition of_Z (z : Z) : num := mk_fin z 0.

Definition isInteger (n : num) : bool :=
  match n with Fin _ e => 0 <=? e | _ => false end.
Definition isFinite (n : num) : bool :=
  match n with Fin _ _ => true | _ => false end.
Definition isNaN (n : num) : bool :=
  match n with NaN => true | _ => false end.

(** The integer a number is; the fraction is dropped (towards minus infinity). *)
Definition to_Z (n : num) : Z :=
  match n with Fin m e => Z.shiftl m e | _ => 0 end.

(** [a < b], false when either side is NaN. *)
Definition num_ltb (a b : num) : bool :=
  match a, b with
  | NaN, _ | _, NaN => false
  | Inf true, Inf true => false
  | Inf true, _ => true
  | _, Inf false => match a with Inf false => false | _ => true end
  | Inf false, _ => false
  | _, Inf true => false
  | Fin m e, Fin m' e' =>
      let k := Z.min e e' in Z.shiftl m (e - k) <? Z.shiftl m' (e' - k)
  end.
Definition num_eqb (a b : num) : bool :=
  match a with NaN => false | _ => bool_decide (a = b) end.
Definition num_leb (a b : num) : bool := num_ltb a b || num_eqb a b.

Definition num_truthy (n : num) : bool :=
  match n with NaN => false | Inf _ => true | Fin m _ => negb (m =? 0) end.

(** [n || d] on numbers. *)
Definition num_or (n d : num) : num := if num_truthy n then n else d.

(** The double nearest to [n / d], ties to even, for positive [n] and [d]. *)
Definition round_ratio (n d : Z) : num :=
  let e1 := Z.log2 n - Z.log2 d - 52 in
  let scale e := (if 0 <=? e then (n, d * 2 ^ e) else (n * 2 ^ (- e), d)) in
  let '(n1, d1) := scale e1 in
  let e2 := if n1 / d1 <? 2 ^ 52 then e1 - 1 else e1 in
  let e := Z.max e2 (-1074) in
  let '(n', d') := scale e in
  let q := n' / d' in
  let r := n' - q * d' in
  let q' := if 2 * r <? d' then q
            else if d' <? 2 * r then q + 1
            else if Z.even q then q else q + 1 in
  if (2 ^ 1024 <=? (if 0 <=? e then q' * 2 ^ e else q' / 2 ^ (- e)))
  then Inf false else mk_fin q' e.

Definition num_neg (n : num) : num :=
  match n with NaN => NaN | Inf b => Inf (negb b) | Fin m e => Fin (- m) e end.

Fixpoint take_digits (s : string) (acc k : Z) : Z * Z * string :=
  match s with
  | EmptyString => (acc, k, s)
  | String c s' =>
      if is_digit c then take_digits s' (acc * 10 + (code c - 48)) (k + 1) else (acc, k, s)
  end.

(** The value [acc * 10^x]. *)
Definition decimal (acc x : Z) : num :=
  if acc =? 0 then Fin 0 0
  else if 0 <=? x then round_ratio (acc * 10 ^ x) 1 else round_ratio acc (10 ^ (- x)).

(** [parseInt(s, 10)] as an integer, [None] for NaN: leading spaces, a sign, then
    the digits before the first other character. *)
Definition parseInt (s : string) : option Z :=
  let digits (neg : bool) t :=
    let '(acc, k, _) := take_digits t 0 0 in
    if k =? 0 then None else Some (if neg then - acc else acc) in
  match trim_start s with
  | String "-" t => digits true t
  | String "+" t => digits false t
  | t => digits false t
  end.

(** ExponentPart, from just after the mantissa; [None] is a syntax error. *)
Definition exponent_part (s : string) : option Z :=
  match s with
  | EmptyString => Some 0
  | String c s' =>
      if Ascii.eqb c "e" || Ascii.eqb c "E" then
        let '(sign, s'') :=
          match s' with
          | String c' r => if Ascii.eqb c' "-" then (-1, r) else if Ascii.eqb c' "+" then (1, r) else (1, s')
          | EmptyString => (1, s')
          end in
        let '(x, k, rest) := take_digits s'' 0 0 in
        if (k =? 0) || negb (rest =? "")%string then None else Some (sign * x)
      else None
  end.

(** StrUnsignedDecimalLiteral *)
Definition unsigned_decimal (s : string) : num :=
  if (s =? "Infinity")%string then Inf false else
  let '(i, ni, r) := take_digits s 0 0 in
  let '(a, nf, r') :=
    match r with
    | String c r1 => if Ascii.eqb c "." then take_digits r1 i 0 else (i, 0, r)
    | EmptyString => (i, 0, r)
    end in
  if ni + nf =? 0 then NaN else
  match exponent_part r' with
  | Some x => decimal a (x - nf)
  | None => NaN
  end.

Definition hex_value (c : ascii) : option Z :=
  if is_digit c then Some (code c - 48)
  else if (97 <=? code c) && (code c <=? 102) then Some (code c - 87)
  else if (65 <=? code c) && (code c <=? 70) then Some (code c - 55)
  else None.

(** Digits of a radix; [None] on an empty or ill-formed digit string. *)
Fixpoint radix_digits (radix : Z) (s : string) (acc : Z) : option Z :=
  match s with
  | EmptyString => Some acc
  | String c s' =>
      match hex_value c with
      | Some d => if d <? radix then radix_digits radix s' (acc * radix + d) else None
      | None => None
      end
  end.
Definition radix_literal (radix : Z) (s : string) : num :=
  if (s =? "")%string then NaN else
  match radix_digits radix s 0 with
  | Some z => if z =? 0 then Fin 0 0 else round_ratio z 1
  | None => NaN
  end.

(** [Number(s)] for a string: StringToNumber. *)
Definition string_to_number (s : string) : num :=
  match trim s with
  | EmptyString => Fin 0 0
  | String c s' as t =>
      if Ascii.eqb c "-" then num_neg (unsigned_decimal s')
      else if Ascii.eqb c "+" then unsigned_decimal s'
      else if Ascii.eqb c "0" then
        match s' with
        | String x r =>
            if Ascii.eqb x "x" || Ascii.eqb x "X" then radix_literal 16 r
            else if Ascii.eqb x "o" || Ascii.eqb x "O" then radix_literal 8 r
            else if Ascii.eqb x "b" || Ascii.eqb x "B" then radix_literal 2 r
            else unsigned_decimal t
        | EmptyString => unsigned_decimal t
        end
      else unsigned_decimal t
  end.

(** *** [String(n)]: Number::toString *)

Definition abs_ratio (m e : Z) : Z * Z :=
  if 0 <=? e then (Z.abs m * 2 ^ e, 1) else (Z.abs m, 2 ^ (- e)).

(** The [n] with [10^(n-1) <= a/b < 10^n], searched from a lower bound. *)
Fixpoint magnitude (fuel : nat) (a b n : Z) : Z :=
  match fuel with
  | O => n
  | S f =>
      if (if 0 <=? n then a <? b * 10 ^ n else a * 10 ^ (- n) <? b) then n
      else magnitude f a b (n + 1)
  end.

(** Shortest digit string that reads back as the number: [(s, k, n)] with
    [10^(k-1) <= s < 10^k]; a carry to [10^k] moves the decimal point. *)
Fixpoint shortest (fuel : nat) (a b n k : Z) (target : num) : Z * Z * Z :=
  let x := n - k in
  let '(p, q) := if 0 <=? x then (a, b * 10 ^ x) else (a * 10 ^ (- x), b) in
  let lo := p / q in
  match fuel with
  | O => (lo, k, n)
  | S f =>
      let good s := bool_decide (decimal s x = target) in
      if good lo && (negb (good (lo + 1)) || (2 * (p - lo * q) <=? q)) then (lo, k, n)
      else if good (lo + 1) then
        (if lo + 1 =? 10 ^ k then (1, 1, n + 1) else (lo + 1, k, n))
      else shortest f a b n (k + 1) target
  end.

Definition zeros (k : Z) : string := String.concat "" (replicate (Z.to_nat k) "0").

Definition number_to_string (v : num) : string :=
  match v with
  | NaN => "NaN"
  | Inf b => if b then "-Infinity" else "Infinity"
  | Fin m e =>
      if m =? 0 then "0" else
      let '(a, b) := abs_ratio m e in
      let '(s, k, n) := shortest 20 a b (magnitude 700 a b (if b <=? a then 0 else -330)) 1 (Fin (Z.abs m) e) in
      let digits := pretty s in
      let body :=
        if (k <=? n) && (n <=? 21) then digits +:+ zeros (n - k)
        else if (0 <? n) && (n <=? 21) then
          take_string (Z.to_nat n) digits +:+ "." +:+ drop_string (Z.to_nat n) digits
        else if (-6 <? n) && (n <=? 0) then "0." +:+ zeros (- n) +:+ digits
        else
          let x := n - 1 in
          let xs := (if 0 <=? x then "+" else "-") +:+ pretty (Z.abs x) in
          if k =? 1 then digits +:+ "e" +:+ xs
          else take_string 1 digits +:+ "." +:+ drop_string 1 digits +:+ "e" +:+ xs
      in if m <? 0 then "-" +:+ body else body
  end.

(** ** Values *)

#[warnings="-register-all"]
Inductive jsval :=
  | JUndef
  | JNull
  | JBool (b : bool)
  | JNum (n : num)
  | JStr (s : string)
  | JArr (l : list jsval)
  | JObj (fields : list (string * jsval)).

(** [v.k] on an object; any other value has no such own property. *)
Fixpoint assoc {A} (k : string) (l : list (string * A)) : option A :=
  match l with
  | [] => None
  | (k', a) :: l' => if (k =? k')%string then Some a else assoc k l'
  end.
Definition field (k : string) (v : jsval) : jsval :=
  match v with JObj fs => default JUndef (assoc k fs) | _ => JUndef end.

Definition truthy (v : jsval) : bool :=
  match v with
  | JUndef | JNull => false
  | JBool b => b
  | JNum n => num_truthy n
  | JStr s => negb (s =? "")%string
  | JArr _ | JObj _ => true
  end.

(** [a || b] *)
Definition js_or (a b : jsval) : jsval := if truthy a then a else b.

(** [String(v)] *)
Fixpoint js_String (v : jsval) : string :=
  match v with
  | JUndef => "undefined"
  | JNull => "null"
  | JBool b => if b then "true" else "false"
  | JNum n => number_to_string n
  | JStr s => s
  | JArr l =>
      join "," (map (λ w, match w with JUndef | JNull => "" | _ => js_String w end) l)
  | JObj _ => "[object Object]"
  end.

(** [Number(v)] *)
Definition js_Number (v : jsval) : num :=
  match v with
  | JUndef => NaN
  | JNull => Fin 0 0
  | JBool b => if b then Fin 1 0 else Fin 0 0
  | JNum n => n
  | JStr s => string_to_number s
  | JArr _ | JObj _ => string_to_number (js_String v)
  end.

Definition is_undef (v : jsval) : bool := match v with JUndef => true | _ => false end.
Definition is_object (v : jsval) : bool := match v with JObj _ | JArr _ => true | _ => false end.
Definition is_array (v : jsval) : bool := match v with JArr _ => true | _ => false end.

(** ** Lemmas on strings *)

Lemma split_nonempty sep s : split sep s ≠ [].
Proof. destruct s as [|c s]; simpl; [done|]. destruct (Ascii.eqb c sep); [done|]. by destruct (split sep s). Qed.

(** No separator inside: splitting gives the string back. *)
Lemma split_no_sep sep s : includes_char sep s = false → split sep s = [s].
Proof.
  unfold includes_char. rewrite negb_false_iff.
  induction s as [|c s IH]; simpl; [done|]. rewrite andb_true_iff, negb_true_iff. intros [-> H].
  by rewrite (IH H).
Qed.

Lemma split_app sep s t :
  includes_char sep s = false → split sep (s +:+ String sep t) = s :: split sep t.
Proof.
  unfold includes_char. rewrite negb_false_iff.
  induction s as [|c s IH]; simpl; [by rewrite Ascii.eqb_refl|].
  rewrite andb_true_iff, negb_true_iff. intros [-> H]. by rewrite (IH H).
Qed.

(** [ws.join(sep).split(sep)] is [ws] when no word holds the separator. *)
Lemma split_join sep w ws :
  Forall (λ x, includes_char sep x = false) (w :: ws) →
  split sep (join (String sep "") (w :: ws)) = w :: ws.
Proof.
  revert w. induction ws as [|v ws IH]; intros w Hf; inversion Hf as [|? ? Hw Hr]; subst.
  - by apply split_no_sep.
  - change (join _ (w :: v :: ws)) with (w +:+ (String sep (join (String sep "") (v :: ws)))).
    rewrite split_app by done. by rewrite IH.
Qed.

Lemma append_cons c s t : String c s +:+ t = String c (s +:+ t).
Proof. reflexivity. Qed.

Lemma append_nil_l s : "" +:+ s = s.
Proof. reflexivity. Qed.

Lemma append_nil_r s : s +:+ "" = s.
Proof. induction s as [|c s IH]; [done|]. by rewrite append_cons, IH. Qed.

Lemma append_assoc s t u : (s +:+ t) +:+ u = s +:+ (t +:+ u).
Proof. induction s as [|c s IH]; [done|]. by rewrite !append_cons, IH. Qed.

Lemma append_inj_l s t u : s +:+ t = s +:+ u → t = u.
Proof. induction s as [|c s IH]; [done|]. rewrite !append_cons. intros [= H]. by apply IH. Qed.

Lemma all_chars_app p s t : all_chars p (s +:+ t) = all_chars p s && all_chars p t.
Proof. induction s as [|d s IH]; [done|]. rewrite append_cons. simpl. by rewrite IH, andb_assoc. Qed.

Lemma includes_char_app c s t : includes_char c (s +:+ t) = includes_char c s || includes_char c t.
Proof. unfold includes_char. by rewrite all_chars_app, negb_andb. Qed.

(** Two strings glued with a separator neither left part holds are equal only
    piecewise. *)
Lemma append_sep_inj sep s t s' t' :
  includes_char sep s = false → includes_char sep s' = false →
  s +:+ String sep t = s' +:+ String sep t' → s = s' ∧ t = t'.
Proof.
  intros H H' E. assert (Hs := split_app sep s t H). rewrite E, (split_app sep s' t' H') in Hs.
  injection Hs as -> _. split; [done|]. apply append_inj_l in E. by injection E.
Qed.

(** Enumerations of small integers, for facts checked by computation. *)
Definition upto (n : nat) : list Z := Z.of_nat <$> seq 0 n.

Lemma upto_forall (P : Z → Prop) `{∀ z, Decision (P z)} n :
  forallb (λ z, bool_decide (P z)) (upto n) = true → ∀ z, 0 <= z < Z.of_nat n → P z.
Proof.
  intros Hb z Hz. rewrite forallb_forall in Hb. apply (bool_decide_eq_true_1 (P z)), Hb.
  unfold upto. apply in_map_iff. exists (Z.to_nat z). split; [lia|]. apply in_seq. lia.
Qed.

(** An octet printed in decimal reads back as itself, and has no separator. *)
Definition octet_text (z : Z) : Prop :=
  string_to_number (pretty z) = of_Z z
  ∧ includes_char "." (pretty z) = false ∧ includes_char "/" (pretty z) = false
  ∧ to_Z (of_Z z) = z ∧ isInteger (of_Z z) = true
  ∧ all_chars (λ c, negb (is_space c)) (pretty z) = true.

Lemma octet_roundtrip z : 0 <= z < 256 → octet_text z.
Proof. apply (upto_forall octet_text 256). vm_compute. reflexivity. Qed.

(** ** Trimming *)

Definition no_space (s : string) : bool := all_chars (λ c, negb (is_space c)) s.

Lemma rev_string_app s t acc : rev_string (s +:+ t) acc = rev_string t (rev_string s acc).
Proof. revert acc. induction s as [|c s IH]; intros acc; [done|]. rewrite append_cons. simpl. apply IH. Qed.

Lemma rev_string_acc s acc : rev_string s acc = js_rev s +:+ acc.
Proof.
  unfold js_rev. revert acc. induction s as [|c s IH]; intros acc; [done|].
  simpl. rewrite (IH (String c acc)), (IH (String c "")), append_assoc. done.
Qed.

Lemma js_rev_app s t : js_rev (s +:+ t) = js_rev t +:+ js_rev s.
Proof. unfold js_rev at 1. by rewrite rev_string_app, rev_string_acc. Qed.

Lemma js_rev_involutive s : js_rev (js_rev s) = s.
Proof.
  induction s as [|c s IH]; [done|].
  replace (String c s) with (String c "" +:+ s) at 1 by done.
  rewrite !js_rev_app, IH. done.
Qed.

Lemma all_chars_rev p s : all_chars p (js_rev s) = all_chars p s.
Proof.
  induction s as [|c s IH]; [done|]. replace (String c s) with (String c "" +:+ s) at 1 by done.
  rewrite js_rev_app, all_chars_app, IH. simpl. by rewrite andb_true_r, andb_comm.
Qed.

Lemma trim_start_no_space s : no_space s = true → trim_start s = s.
Proof. destruct s as [|c s]; [done|]. unfold no_space. simpl. by destruct (is_space c). Qed.

Lemma trim_no_space s : no_space s = true → trim s = s.
Proof.
  intros H. unfold trim. rewrite (trim_start_no_space s H), trim_start_no_space.
  - apply js_rev_involutive.
  - unfold no_space in *. by rewrite all_chars_rev.
Qed.

Lemma all_chars_join p sep ws :
  all_chars p sep = true → Forall (λ w, all_chars p w = true) ws → all_chars p (join sep ws) = true.
Proof.
  intros Hs Hf. induction Hf as [|w ws Hw Hf IH]; [done|]. destruct ws as [|v ws]; [done|].
  change (join sep (w :: v :: ws)) with (w +:+ (sep +:+ join sep (v :: ws))).
  rewrite !all_chars_app. by rewrite Hw, Hs, IH.
Qed.

(** ** Integers as numbers *)

Lemma strip2_spec p e q e' :
  strip2 p e = (q, e') → e <= e' ∧ Zpos p = Zpos q * 2 ^ (e' - e).
Proof.
  revert e. induction p as [p IH|p IH|]; simpl; intros e H.
  - injection H as <- <-. rewrite Z.sub_diag. lia.
  - apply IH in H as [He Hp]. split; [lia|].
    rewrite Pos2Z.inj_xO, Hp. replace (e' - e) with (1 + (e' - (e + 1))) by lia.
    rewrite Z.pow_add_r by lia. lia.
  - injection H as <- <-. rewrite Z.sub_diag. lia.
Qed.

Lemma of_Z_fin z : ∃ m e, of_Z z = Fin m e ∧ 0 <= e ∧ z = m * 2 ^ e ∧ (m = 0 ↔ z = 0).
Proof.
  unfold of_Z, mk_fin. destruct z as [|p|p].
  - exists 0, 0. by split_and!.
  - destruct (strip2 p 0) as [q e] eqn:E. apply strip2_spec in E as [He Hp].
    rewrite Z.sub_0_r in Hp. exists (Zpos q), e. split_and!; [done|lia|done|lia].
  - destruct (strip2 p 0) as [q e] eqn:E. apply strip2_spec in E as [He Hp].
    rewrite Z.sub_0_r in Hp. exists (Zneg q), e. split_and!; [done|lia| |lia].
    rewrite <- !Pos2Z.opp_pos, Hp. lia.
Qed.

Lemma to_Z_of_Z z : to_Z (of_Z z) = z.
Proof.
  destruct (of_Z_fin z) as (m & e & -> & He & Hz & _). simpl. by rewrite Z.shiftl_mul_pow2 by done.
Qed.

Lemma isInteger_of_Z z : isInteger (of_Z z) = true.
Proof. destruct (of_Z_fin z) as (m & e & -> & He & _). simpl. lia. Qed.

Lemma isFinite_of_Z z : isFinite (of_Z z) = true.
Proof. by destruct (of_Z_fin z) as (m & e & -> & _). Qed.

Lemma num_truthy_of_Z z : num_truthy (of_Z z) = negb (z =? 0).
Proof. destruct (of_Z_fin z) as (m & e & -> & _ & _ & H). simpl. lia. Qed.

Lemma num_or_of_Z z d : num_or (of_Z z) (of_Z d) = of_Z (if z =? 0 then d else z).
Proof. unfold num_or. rewrite num_truthy_of_Z. by destruct (z =? 0). Qed.

Lemma num_ltb_of_Z a b : num_ltb (of_Z a) (of_Z b) = (a <? b).
Proof.
  destruct (of_Z_fin a) as (m & e & -> & He & Ha & _).
  destruct (of_Z_fin b) as (m' & e' & -> & He' & Hb & _). simpl.
  set (k := Z.min e e'). rewrite !Z.shiftl_mul_pow2 by lia.
  assert (a = m * 2 ^ (e - k) * 2 ^ k) as ->.
  { rewrite <- Z.mul_assoc, <- Z.pow_add_r by lia. by replace (e - k + k) with e by lia. }
  assert (b = m' * 2 ^ (e' - k) * 2 ^ k) as ->.
  { rewrite <- Z.mul_assoc, <- Z.pow_add_r by lia. by replace (e' - k + k) with e' by lia. }
  assert (0 < 2 ^ k) by (apply Z.pow_pos_nonneg; lia).
  apply eq_true_iff_eq. rewrite !Z.ltb_lt. nia.
Qed.
