(* ===== verification/Encoding.v ===== *)
(** * Byte encodings of Node's [Buffer]: base64 and hexadecimal

    A buffer is a list of bytes, each an integer from 0 to 255.  The decoder
    reads the characters of both base64 alphabets and passes over every other
    one, which is how [Buffer.from(s, 'base64')] treats padding. *)

From S2P Require Import Prelude Js.

Definition is_byte (b : Z) : bool := (0 <=? b) && (b <? 256).

Definition b64_char (v : Z) : ascii :=
  ascii_of_N (Z.to_N
    (if v <? 26 then 65 + v else if v <? 52 then 97 + (v - 26)
     else if v <? 62 then 48 + (v - 52) else if v =? 62 then 43 else 47)).

Definition b64_value (c : ascii) : option Z :=
  if is_upper c then Some (code c - 65)
  else if is_lower c then Some (code c - 97 + 26)
  else if is_digit c then Some (code c - 48 + 52)
  else if (code c =? 43) || (code c =? 45) then Some 62
  else if (code c =? 47) || (code c =? 95) then Some 63
  else None.

Definition str1 (c : ascii) : string := String c EmptyString.

(** [Buffer.from(l).toString('base64')] *)
Fixpoint b64_encode (l : list Z) : string :=
  match l with
  | [] => ""
  | [a] => String (b64_char (a / 4)) (String (b64_char ((a mod 4) * 16)) "==")
  | [a; b] =>
      String (b64_char (a / 4)) (String (b64_char ((a mod 4) * 16 + b / 16))
        (String (b64_char ((b mod 16) * 4)) "="))
  | a :: b :: c :: r =>
      String (b64_char (a / 4)) (String (b64_char ((a mod 4) * 16 + b / 16))
        (String (b64_char ((b mod 16) * 4 + c / 64)) (String (b64_char (c mod 64)) (b64_encode r))))
  end.

Fixpoint chars (s : string) : list ascii :=
  match s with EmptyString => [] | String c s' => c :: chars s' end.

Fixpoint b64_group (l : list Z) : list Z :=
  match l with
  | a :: b :: c :: d :: r =>
      (a * 4 + b / 16) :: ((b mod 16) * 16 + c / 4) :: ((c mod 4) * 64 + d) :: b64_group r
  | [a; b; c] => [a * 4 + b / 16; (b mod 16) * 16 + c / 4]
  | [a; b] => [a * 4 + b / 16]
  | _ => []
  end.

(** [Buffer.from(s, 'base64')] *)
Definition b64_decode (s : string) : list Z := b64_group (omap b64_value (chars s)).

Definition hex_digit (v : Z) : ascii :=
  ascii_of_N (Z.to_N (if v <? 10 then 48 + v else 87 + v)).

(** [Buffer.from(l).toString('hex')] *)
Fixpoint hex_encode (l : list Z) : string :=
  match l with
  | [] => ""
  | b :: r => String (hex_digit (b / 16)) (String (hex_digit (b mod 16)) (hex_encode r))
  end.

Lemma b64_char_value v : 0 <= v < 64 → b64_value (b64_char v) = Some v.
Proof. apply (upto_forall (λ v, b64_value (b64_char v) = Some v) 64). vm_compute. reflexivity. Qed.

Lemma list3_ind {A} (P : list A → Prop) :
  P [] → (∀ a, P [a]) → (∀ a b, P [a; b]) → (∀ a b c r, P r → P (a :: b :: c :: r)) → ∀ l, P l.
Proof.
  intros H0 H1 H2 H3. fix IH 1. intros [|a [|b [|c r]]]; [done|apply H1|apply H2|apply H3, IH].
Qed.

Lemma b64_values_cons v s :
  0 <= v < 64 → omap b64_value (chars (String (b64_char v) s)) = v :: omap b64_value (chars s).
Proof. intros H. cbn [chars omap list_omap]. by rewrite b64_char_value. Qed.

(** Decoding undoes encoding on every byte string. *)
Lemma b64_roundtrip l : Forall (λ b, 0 <= b < 256) l → b64_decode (b64_encode l) = l.
Proof.
  unfold b64_decode.
  induction l as [|a|a b|a b c r IH] using list3_ind; intros Hf;
    repeat match goal with H : Forall _ (_ :: _) |- _ => inversion H; subst; clear H end;
    cbn [b64_encode]; rewrite ?b64_values_cons by dlia; [done| | |].
  - cbn. f_equal; dlia.
  - cbn. f_equal; [dlia|f_equal; dlia].
  - cbn [b64_group]. rewrite IH by done. f_equal; [dlia|]. f_equal; [dlia|f_equal; dlia].
Qed.

Lemma b64_encode_length l :
  len (b64_encode l) = 4 * ((Z.of_nat (length l) + 2) / 3).
Proof.
  unfold len. induction l as [|a|a b|a b c r IH] using list3_ind; [done|done|done|].
  cbn [b64_encode String.length length]. dlia.
Qed.

Lemma hex_digit_lower v : 0 <= v < 16 → lower_char (hex_digit v) = hex_digit v.
Proof. apply (upto_forall (λ v, lower_char (hex_digit v) = hex_digit v) 16). vm_compute. reflexivity. Qed.

Lemma hex_digit_value v : 0 <= v < 16 → hex_value (hex_digit v) = Some v.
Proof. apply (upto_forall (λ v, hex_value (hex_digit v) = Some v) 16). vm_compute. reflexivity. Qed.

Lemma hex_encode_inj l l' :
  Forall (λ b, 0 <= b < 256) l → Forall (λ b, 0 <= b < 256) l' →
  hex_encode l = hex_encode l' → l = l'.
Proof.
  intros H. revert l'. induction H as [|a l Ha H IH]; intros [|b l'] Hf'; [done|done|done|].
  inversion Hf'; subst. cbn [hex_encode]. intros [= E1 E2 E3].
  apply (f_equal hex_value) in E1, E2. rewrite !hex_digit_value in E1 by dlia.
  rewrite !hex_digit_value in E2 by dlia. injection E1 as E1. injection E2 as E2.
  f_equal; [dlia|]. by apply IH.
Qed.
