(* ===== verification/Json.v ===== *)
(** * [JSON.parse] and [JSON.stringify], and JSON columns

    The texts and values are those of [Js]: code units below 256, so an escape
    [\uXXXX] above 255 is outside the model and reads as a syntax error.  The
    parser is structural on a fuel; the length of the text is enough, since every
    recursive call consumes a character. *)

From S2P Require Import Prelude Js Encoding.

Definition is_json_space (c : ascii) : bool :=
  (code c =? 32) || (code c =? 9) || (code c =? 10) || (code c =? 13).

Fixpoint skip_ws (s : string) : string :=
  match s with
  | String c r => if is_json_space c then skip_ws r else s
  | EmptyString => s
  end.

(** [expect "true" s] is the rest of [s] after the word. *)
Fixpoint expect (w s : string) : option string :=
  match w, s with
  | EmptyString, _ => Some s
  | String c w', String d s' => if Ascii.eqb c d then expect w' s' else None
  | _, _ => None
  end.

Definition chr (z : Z) : ascii := ascii_of_N (Z.to_N z).

Definition hex4 (a b c d : ascii) : option Z :=
  a ← hex_value a; b ← hex_value b; c ← hex_value c; d ← hex_value d;
  Some (((a * 16 + b) * 16 + c) * 16 + d).

(** The single-character escapes. *)
Definition escape_of (c : ascii) : option ascii :=
  let z := code c in
  if z =? 34 then Some (chr 34) else if z =? 92 then Some (chr 92) else if z =? 47 then Some (chr 47)
  else if z =? 98 then Some (chr 8) else if z =? 102 then Some (chr 12) else if z =? 110 then Some (chr 10)
  else if z =? 114 then Some (chr 13) else if z =? 116 then Some (chr 9) else None.

(** The body of a string literal, after the opening quote. *)
Fixpoint parse_string (fuel : nat) (s : string) : option (string * string) :=
  match fuel, s with
  | S f, String c r =>
      if code c =? 34 then Some ("", r)
      else if code c =? 92 then
        match r with
        | String e r' =>
            if code e =? 117 then
              match r' with
              | String a (String b (String x (String y r''))) =>
                  u ← hex4 a b x y;
                  if u <? 256 then '(t, rest) ← parse_string f r''; Some (String (chr u) t, rest) else None
              | _ => None
              end
            else
              k ← escape_of e; '(t, rest) ← parse_string f r'; Some (String k t, rest)
        | EmptyString => None
        end
      else if code c <? 32 then None
      else '(t, rest) ← parse_string f r; Some (String c t, rest)
  | _, _ => None
  end.

Fixpoint span (p : ascii → bool) (s : string) : string * string :=
  match s with
  | String c r => if p c then let '(a, b) := span p r in (String c a, b) else ("", s)
  | EmptyString => ("", "")
  end.

(** The lexeme of a number: sign, integer part without a leading zero, fraction,
    exponent. *)
Definition number_lexeme (s : string) : option (string * string) :=
  let '(sign, s1) := match s with String c r => if code c =? 45 then ("-", r) else ("", s) | _ => ("", s) end in
  let '(int, s2) := span is_digit s1 in
  if (int =? "")%string || (startsWith "0" int && negb (len int =? 1)) then None else
  '(frac, s3) ← match s2 with
    | String c r =>
        if code c =? 46 then
          let '(ds, r') := span is_digit r in
          if (ds =? "")%string then None else Some ("." +:+ ds, r')
        else Some ("", s2)
    | _ => Some ("", s2)
    end;
  '(ex, s4) ← match s3 with
    | String c r =>
        if (code c =? 101) || (code c =? 69) then
          let '(sg, r1) := match r with
            | String c r' => if code c =? 43 then ("+", r') else if code c =? 45 then ("-", r') else ("", r)
            | _ => ("", r) end in
          let '(ds, r') := span is_digit r1 in
          if (ds =? "")%string then None else Some ("e" +:+ sg +:+ ds, r')
        else Some ("", s3)
    | _ => Some ("", s3)
    end;
  Some (sign +:+ int +:+ frac +:+ ex, s4).

(** A later member replaces an earlier one of the same name, in its place. *)
Fixpoint set_member (k : string) (v : jsval) (l : list (string * jsval)) : list (string * jsval) :=
  match l with
  | [] => [(k, v)]
  | (k', v') :: r => if (k' =? k)%string then (k, v) :: r else (k', v') :: set_member k v r
  end.

Fixpoint parse_value (fuel : nat) (s0 : string) : option (jsval * string) :=
  match fuel with
  | O => None
  | S f =>
      let s := skip_ws s0 in
      match s with
      | EmptyString => None
      | String c r =>
          if code c =? 123 then
            match skip_ws r with
            | String c' r' =>
                if code c' =? 125 then Some (JObj [], r') else parse_members f (skip_ws r) []
            | EmptyString => None
            end
          else if code c =? 91 then
            match skip_ws r with
            | String c' r' =>
                if code c' =? 93 then Some (JArr [], r') else parse_elements f r []
            | EmptyString => None
            end
          else if code c =? 34 then '(t, rest) ← parse_string f r; Some (JStr t, rest)
          else if code c =? 116 then rest ← expect "true" s; Some (JBool true, rest)
          else if code c =? 102 then rest ← expect "false" s; Some (JBool false, rest)
          else if code c =? 110 then rest ← expect "null" s; Some (JNull, rest)
          else '(lex, rest) ← number_lexeme s; Some (JNum (string_to_number lex), rest)
      end
  end
with parse_members (fuel : nat) (s : string) (acc : list (string * jsval)) : option (jsval * string) :=
  match fuel with
  | O => None
  | S f =>
      match s with
      | String c r =>
          if code c =? 34 then
            '(k, r1) ← parse_string f r;
            r2 ← expect ":" (skip_ws r1);
            '(v, r3) ← parse_value f r2;
            match skip_ws r3 with
            | String c' r4 =>
                if code c' =? 44 then parse_members f (skip_ws r4) (set_member k v acc)
                else if code c' =? 125 then Some (JObj (set_member k v acc), r4) else None
            | EmptyString => None
            end
          else None
      | EmptyString => None
      end
  end
with parse_elements (fuel : nat) (s : string) (acc : list jsval) : option (jsval * string) :=
  match fuel with
  | O => None
  | S f =>
      '(v, r1) ← parse_value f s;
      match skip_ws r1 with
      | String c' r2 =>
          if code c' =? 44 then parse_elements f r2 (acc ++ [v])
          else if code c' =? 93 then Some (JArr (acc ++ [v]), r2) else None
      | EmptyString => None
      end
  end.

(** [JSON.parse(s)]; [None] is a SyntaxError. *)
Definition JSON_parse (s : string) : option jsval :=
  '(v, rest) ← parse_value (S (2 * String.length s)) s;
  if (skip_ws rest =? "")%string then Some v else None.

(** ** [JSON.stringify] *)

Definition quote_char (c : ascii) : string :=
  let z := code c in
  if z =? 34 then String (chr 92) (str1 (chr 34))
  else if z =? 92 then String (chr 92) (str1 (chr 92))
  else if z =? 8 then "\b" else if z =? 12 then "\f" else if z =? 10 then "\n"
  else if z =? 13 then "\r" else if z =? 9 then "\t"
  else if z <? 32 then "\u00" +:+ String (hex_digit (z / 16)) (str1 (hex_digit (z mod 16)))
  else str1 c.

Fixpoint quote_body (s : string) : string :=
  match s with EmptyString => "" | String c r => quote_char c +:+ quote_body r end.

Definition quote (s : string) : string := str1 (chr 34) +:+ quote_body s +:+ str1 (chr 34).

(** [JSON.stringify(v)]; [None] stands for undefined. *)
Fixpoint JSON_stringify (v : jsval) : option string :=
  match v with
  | JUndef => None
  | JNull => Some "null"
  | JBool true => Some "true"
  | JBool false => Some "false"
  | JNum n => Some (if isFinite n then number_to_string n else "null")
  | JStr s => Some (quote s)
  | JArr l => Some ("[" +:+ join "," ((λ x, default "null" (JSON_stringify x)) <$> l) +:+ "]")
  | JObj l =>
      Some ("{" +:+ join "," (omap (λ '(k, x), (λ t, quote k +:+ ":" +:+ t) <$> JSON_stringify x) l) +:+ "}")
  end.

(** [JSON.stringify(v, keys)]: of every object, at every depth, the listed keys
    in the order of the list. *)
Fixpoint JSON_stringify_keys (keys : list string) (v : jsval) : option string :=
  match v with
  | JArr l => Some ("[" +:+ join "," ((λ x, default "null" (JSON_stringify_keys keys x)) <$> l) +:+ "]")
  | JObj l =>
      let texts := (λ '(k, x), (k, JSON_stringify_keys keys x)) <$> l in
      Some ("{" +:+ join "," (omap (λ k, t ← assoc k texts; (λ t, quote k +:+ ":" +:+ t) <$> t) keys) +:+ "}")
  | _ => JSON_stringify v
  end.

(** ** JSON columns: [parseJsonColumn] of [RouteEngine.js] and [NetmapService.js] *)

Definition parseJsonColumn (value fallback : jsval) : jsval :=
  match value with
  | JArr _ | JObj _ => value
  | JStr s =>
      match JSON_parse s with
      | Some JNull | Some JUndef | None => fallback
      | Some v => v
      end
  | _ => fallback
  end.

(** A document with every kind of value reads back as written. *)
Lemma json_sample :
  let v := JObj [("a", JArr [JNum (of_Z 1); JBool true; JNull]); ("b", JStr "x y"); ("c", JObj [])] in
  (t ← JSON_stringify v; JSON_parse t) = Some v.
Proof. vm_compute. reflexivity. Qed.

(** ** Quoted texts are self-delimiting *)

Definition dquote : ascii := chr 34.

Definition hex2 (a b : ascii) : option ascii := (λ z, chr z) <$> hex4 "0"%char "0"%char a b.

(** The first character a quoted body stands for, and the rest of the text. *)
Definition unquote1 (s : string) : option (ascii * string) :=
  match s with
  | EmptyString => None
  | String c r =>
      if code c =? 92 then
        match r with
        | String e r1 =>
            if (e =? "u")%char then
              match r1 with
              | String _ (String _ (String a (String b r2))) => (λ x, (x, r2)) <$> hex2 a b
              | _ => None
              end
            else if code e =? 34 then Some (chr 34, r1)
            else if code e =? 92 then Some (chr 92, r1)
            else (λ x, (x, r1)) <$> escape_of e
        | EmptyString => None
        end
      else if code c =? 34 then None
      else Some (c, r)
  end.

Lemma unquote1_char c s : unquote1 (quote_char c +:+ s) = Some (c, s).
Proof. destruct c as [[] [] [] [] [] [] [] []]; vm_compute; reflexivity. Qed.

Lemma unquote1_end s : unquote1 (String dquote s) = None.
Proof. reflexivity. Qed.

Lemma quote_body_inj s s' t t' :
  quote_body s +:+ String dquote t = quote_body s' +:+ String dquote t' → s = s' ∧ t = t'.
Proof.
  revert s'. induction s as [|c s IH]; intros [|c' s'] H.
  - by injection H.
  - apply (f_equal unquote1) in H. simpl quote_body in H.
    rewrite append_assoc, unquote1_char, append_nil_l, unquote1_end in H. discriminate.
  - apply (f_equal unquote1) in H. simpl quote_body in H.
    rewrite append_assoc, unquote1_char, append_nil_l, unquote1_end in H. discriminate.
  - apply (f_equal unquote1) in H. simpl quote_body in H. rewrite !append_assoc, !unquote1_char in H.
    assert (c = c' ∧ quote_body s +:+ String dquote t = quote_body s' +:+ String dquote t') as [-> H']
      by (by injection H).
    destruct (IH _ H') as [-> ->]. done.
Qed.

Lemma quote_inj s s' t t' : quote s +:+ t = quote s' +:+ t' → s = s' ∧ t = t'.
Proof.
  unfold quote. intros H. rewrite !append_assoc in H. apply append_inj_l in H.
  by apply quote_body_inj in H.
Qed.

Lemma quote_head s t : ∃ r, quote s +:+ t = String dquote r.
Proof. eexists. reflexivity. Qed.

Lemma join_cons2 sep x y ws : join sep (x :: y :: ws) = x +:+ sep +:+ join sep (y :: ws).
Proof. reflexivity. Qed.

(** ** Heads of texts *)

(** A text that opens with a digit or a minus sign, as numbers do. *)
Definition num_head (s : string) : Prop := ∃ c r, s = String c r ∧ (is_digit c = true ∨ c = "-"%char).

Lemma num_head_app s t : num_head s → num_head (s +:+ t).
Proof. intros (c & r & -> & H). by exists c, (r +:+ t). Qed.

Lemma num_head_take n s : num_head s → num_head (take_string (S n) s).
Proof. intros (c & r & -> & H). by exists c, (take_string n r). Qed.

Lemma pretty_go_head x s : num_head s ∨ (0 < x)%N → num_head (pretty_N_go x s).
Proof.
  revert s. induction (N.lt_wf_0 x) as [x _ IH]; intros s H.
  destruct (decide (x = 0)%N) as [->|Hx]; [rewrite pretty_N_go_0; destruct H; [done|lia]|].
  rewrite pretty_N_go_step by lia. apply IH; [apply N.div_lt; lia|]. left. eexists _, _. split; [done|]. left.
  unfold pretty_N_char. by repeat case_match.
Qed.

Lemma pretty_head (z : Z) : num_head (pretty z).
Proof.
  assert (∀ p : positive, num_head (pretty p)) as Hp.
  { intros p. unfold pretty, pretty_positive, pretty, pretty_N. case_decide; [done|]. apply pretty_go_head. right. lia. }
  destruct z as [|p|p]; [by exists "0"%char, ""; split; [|left]|apply Hp|].
  exists "-"%char, (pretty p). split; [done|by right].
Qed.

Lemma number_head n : isFinite n = true → num_head (number_to_string n).
Proof.
  destruct n as [| |m e]; try done. intros _. unfold number_to_string.
  destruct (m =? 0); [by exists "0"%char, ""; split; [|left]|]. destruct (abs_ratio m e) as [a b].
  destruct (shortest _ _ _ _ _ _) as [[s k] n]. cbv zeta.
  destruct (m <? 0); [eexists _, _; split; [reflexivity|by right]|].
  destruct (_ && _); [apply num_head_app, pretty_head|].
  destruct ((0 <? n) && _) eqn:E.
  { b2p. destruct (Z.to_nat n) eqn:En; [lia|]. apply num_head_app, num_head_take, pretty_head. }
  clear E. destruct (_ && _); [by exists "0"%char; eexists; split; [reflexivity|left]|].
  destruct (k =? 1); apply num_head_app; [apply pretty_head|apply num_head_take, pretty_head].
Qed.
