(* ===== verification/Cidr.v ===== *)
(** * IPv4 ranges

    [AclEngine.ipToInt], [parseCidr] and [cidrContains]; [RouteEngine]'s
    encoding of a network for the Go nodes and [NetmapService]'s decoding of
    it.  The theorems say that a parsed CIDR is the aligned block its prefix
    names, and that the encoding of a route covers the addresses of the CIDR
    that was stored. *)

From S2P Require Import Prelude Js Encoding.

Record range := mk_range { first : Z; last : Z }.

(** One iteration of the octet loop. *)
Definition octet_of (part : string) : option Z :=
  let octet := string_to_number part in
  if negb (isInteger octet) || (to_Z octet <? 0) || (255 <? to_Z octet) then None
  else Some (to_Z octet).

Fixpoint octets_value (parts : list string) (value : Z) : option Z :=
  match parts with
  | [] => Some value
  | part :: rest =>
      match octet_of part with
      | None => None
      | Some octet => octets_value rest (value * 256 + octet)
      end
  end.

Definition ipToInt (ip : string) : option Z :=
  let parts := split "." (trim ip) in
  if negb (length parts =? 4)%nat then None else octets_value parts 0.

(** The prefix length of a CIDR: the text after the first slash, 32 without. *)
Definition prefix_bits (rest : list string) : option Z :=
  let bits := match rest with [] => of_Z 32 | b :: _ => string_to_number b end in
  if negb (isInteger bits) || (to_Z bits <? 0) || (32 <? to_Z bits) then None
  else Some (to_Z bits).

Definition block (base bits : Z) : range :=
  let size := if bits =? 0 then 4294967296 else 2 ^ (32 - bits) in
  let first := base / size * size in
  mk_range first (first + size - 1).

Definition parseCidr (cidr : string) : option range :=
  let text := trim cidr in
  if (text =? "")%string || (text =? "any")%string || (text =? "*")%string
  then Some (mk_range 0 4294967295) else
  match split "/" text with
  | [] => None
  | addr :: rest =>
      match ipToInt addr with
      | None => None
      | Some base =>
          match prefix_bits rest with
          | None => None
          | Some bits => Some (block base bits)
          end
      end
  end.

Definition cidrContains (cidr ip : string) : bool :=
  match parseCidr cidr, ipToInt ip with
  | Some range, Some value => (first range <=? value) && (value <=? last range)
  | _, _ => false
  end.

(** ** RouteEngine: the wire form of a network *)

Fixpoint map_octets (parts : list string) : option (list Z) :=
  match parts with
  | [] => Some []
  | p :: rest =>
      match octet_of p, map_octets rest with
      | Some o, Some os => Some (o :: os)
      | _, _ => None
      end
  end.

(** [parseCidrParts]: the octets, all of them integers from 0 to 255, and the
    prefix length. *)
Definition parseCidrParts (cidr : string) : option (list Z * Z) :=
  match split "/" (trim cidr) with
  | [] => None
  | addr :: rest =>
      let parts := split "." addr in
      if negb (length parts =? 4)%nat then None else
      match map_octets parts with
      | None => None
      | Some octets =>
          match prefix_bits rest with
          | None => None
          | Some bits => Some (octets, bits)
          end
      end
  end.

Record go_net := mk_go_net { IP : string; Mask : string }.

(** The [i]-th byte of the mask of a prefix. *)
Definition mask_byte (bits i : Z) : Z :=
  let remaining := bits - i * 8 in
  if 8 <=? remaining then 255
  else if remaining <=? 0 then 0
  else Z.land (Z.shiftl 255 (8 - remaining)) 255.

Definition mask_bytes (bits : Z) : list Z := mask_byte bits <$> [0; 1; 2; 3].

Definition cidrToGoIPNet (cidr : string) : option go_net :=
  match parseCidrParts cidr with
  | None => None
  | Some (octets, bits) =>
      let mask := mask_bytes bits in
      let network := zip_with Z.land octets mask in
      Some (mk_go_net (join "." (pretty <$> network)) (b64_encode mask))
  end.

(** ** NetmapService: back to a CIDR *)

(** The inner loop over the bits of a byte, from bit [i] down to bit 0: how
    many ones were counted, and whether a zero ended the scan. *)
Fixpoint scan_bits (fuel : nat) (byte i bits : Z) : Z * bool :=
  match fuel with
  | O => (bits, false)
  | S f =>
      if Z.land (Z.shiftr byte i) 1 =? 0 then (bits, true)
      else scan_bits f byte (i - 1) (bits + 1)
  end.

Fixpoint scan_mask (mask : list Z) (bits : Z) : Z :=
  match mask with
  | [] => bits
  | byte :: rest =>
      let '(bits', stopped) := scan_bits 8 byte 7 bits in
      if stopped then bits' else scan_mask rest bits'
  end.

Definition goIPNetToCidr (network : go_net) : string :=
  IP network +:+ "/" +:+ pretty (scan_mask (b64_decode (Mask network)) 0).

(** ** Reference: an address and a prefix length as numbers *)

(** Two addresses agree on their first [bits] bits. *)
Definition same_prefix (bits a b : Z) : Prop := Z.shiftr a (32 - bits) = Z.shiftr b (32 - bits).

Definition dotted (a b c d : Z) : string := join "." (pretty <$> [a; b; c; d]).
Definition quad_value (a b c d : Z) : Z := ((a * 256 + b) * 256 + c) * 256 + d.

Definition octet (z : Z) : Prop := 0 <= z < 256.

(** ** Lemmas *)

Lemma octet_of_bounds p o : octet_of p = Some o → octet o.
Proof. unfold octet_of, octet. destruct (_ || _) eqn:E; [done|]. intros [= <-]. b2p. lia. Qed.

Lemma octets_value_bounds parts v r :
  0 <= v → octets_value parts v = Some r →
  v * 256 ^ Z.of_nat (length parts) <= r < (v + 1) * 256 ^ Z.of_nat (length parts).
Proof.
  revert v. induction parts as [|p ps IH]; cbn [octets_value length]; intros v Hv; [intros [= <-]; lia|].
  destruct (octet_of p) as [o|] eqn:Eo; [|done]. intros H. apply octet_of_bounds in Eo as Ho.
  unfold octet in Ho. apply IH in H; [|lia].
  rewrite Nat2Z.inj_succ, Z.pow_succ_r by lia.
  assert (0 < 256 ^ Z.of_nat (length ps)) by (apply Z.pow_pos_nonneg; lia). nia.
Qed.

Lemma ipToInt_bounds ip v : ipToInt ip = Some v → 0 <= v < 2 ^ 32.
Proof.
  unfold ipToInt. destruct (negb _) eqn:E; [done|]. b2p. apply Nat.eqb_eq in E.
  intros H%octets_value_bounds; [|lia]. rewrite E in H. lia.
Qed.

Lemma prefix_bits_bounds rest b : prefix_bits rest = Some b → 0 <= b <= 32.
Proof.
  unfold prefix_bits. generalize (match rest with [] => of_Z 32 | b0 :: _ => string_to_number b0 end).
  intros n. destruct (_ || _) eqn:E; [done|]. intros [= <-]. b2p. lia.
Qed.

Lemma block_size bits : 0 <= bits → (if bits =? 0 then 4294967296 else 2 ^ (32 - bits)) = 2 ^ (32 - bits).
Proof. destruct (Z.eqb_spec bits 0) as [->|]; reflexivity. Qed.

(** Membership in a block is agreement on the prefix. *)
Lemma block_spec base bits v :
  0 <= bits <= 32 →
  (first (block base bits) <= v <= last (block base bits) ↔ same_prefix bits v base).
Proof.
  intros Hb. unfold block, same_prefix. rewrite block_size by lia. simpl.
  rewrite !Z.shiftr_div_pow2 by lia.
  assert (0 < 2 ^ (32 - bits)) as Hp by (apply Z.pow_pos_nonneg; lia).
  set (s := 2 ^ (32 - bits)) in *.
  pose proof (Z.div_mod v s ltac:(lia)) as Dv. pose proof (Z.mod_pos_bound v s Hp) as Mv.
  split; intros H; [|nia].
  destruct (Z.lt_trichotomy (v / s) (base / s)) as [|[|]]; [nia|done|nia].
Qed.

(** *** Dotted quads *)

Lemma octet_of_pretty z : octet z → octet_of (pretty z) = Some z.
Proof.
  unfold octet. intros H. destruct (octet_roundtrip z H) as (E & _ & _ & Ez & Ei & _).
  unfold octet_of. rewrite E, Ei, Ez. simpl.
  destruct (z <? 0) eqn:?, (255 <? z) eqn:?; b2p; [lia|lia|lia|done].
Qed.

Lemma dotted_parts os :
  Forall octet os → Forall (λ x, includes_char "." x = false) (pretty <$> os)
  ∧ Forall (λ w, all_chars (λ c, negb (is_space c)) w = true) (pretty <$> os)
  ∧ Forall (λ x, includes_char "/" x = false) (pretty <$> os).
Proof.
  intros H. rewrite !Forall_fmap. split_and!; eapply Forall_impl; try exact H;
    intros z Hz; apply octet_roundtrip in Hz as (_&?&?&_&_&?); done.
Qed.

Lemma dotted_no_space a b c d :
  Forall octet [a; b; c; d] → no_space (dotted a b c d) = true.
Proof. intros H. apply all_chars_join; [done|]. by apply dotted_parts. Qed.

Lemma dotted_no_slash a b c d :
  Forall octet [a; b; c; d] → includes_char "/" (dotted a b c d) = false.
Proof.
  intros (_ & _ & H)%dotted_parts. unfold includes_char. rewrite negb_false_iff.
  apply all_chars_join; [done|]. eapply Forall_impl; [exact H|].
  intros x. unfold includes_char. by rewrite negb_false_iff.
Qed.

Lemma split_dotted a b c d :
  Forall octet [a; b; c; d] → split "." (dotted a b c d) = pretty <$> [a; b; c; d].
Proof. intros (H & _)%dotted_parts. apply (split_join "." (pretty a)). exact H. Qed.

Lemma ipToInt_dotted a b c d :
  Forall octet [a; b; c; d] → ipToInt (dotted a b c d) = Some (quad_value a b c d).
Proof.
  intros H. unfold ipToInt. rewrite trim_no_space by by apply dotted_no_space.
  rewrite split_dotted by done. cbn [length fmap list_fmap Nat.eqb negb octets_value].
  rewrite !Forall_cons in H. destruct H as (Ha & Hb & Hc & Hd & _).
  rewrite !octet_of_pretty by done. unfold quad_value. f_equal; lia.
Qed.

Lemma quad_value_inj a b c d a' b' c' d' :
  Forall octet [a; b; c; d] → Forall octet [a'; b'; c'; d'] →
  quad_value a b c d = quad_value a' b' c' d' → (a, b, c, d) = (a', b', c', d').
Proof.
  rewrite !Forall_cons. unfold octet, quad_value. intros (? & ? & ? & ? & _) (? & ? & ? & ? & _) ?.
  repeat f_equal; lia.
Qed.

Lemma bits_text b : 0 <= b <= 32 → prefix_bits [pretty b] = Some b ∧ no_space (pretty b) = true.
Proof.
  intros H. destruct (octet_roundtrip b ltac:(lia)) as (E & _ & _ & Ez & Ei & Es).
  split; [|exact Es]. unfold prefix_bits. rewrite E, Ei, Ez. simpl.
  destruct (b <? 0) eqn:?, (32 <? b) eqn:?; b2p; [lia|lia|lia|done].
Qed.

(** A CIDR written the usual way parses to its block. *)
Lemma parseCidr_dotted a b c d bits :
  Forall octet [a; b; c; d] → 0 <= bits <= 32 →
  parseCidr (dotted a b c d +:+ "/" +:+ pretty bits) = Some (block (quad_value a b c d) bits).
Proof.
  intros H Hb. destruct (bits_text bits Hb) as [Ep Es]. unfold parseCidr.
  rewrite trim_no_space.
  2: { unfold no_space. rewrite !all_chars_app. fold (no_space (dotted a b c d)).
       rewrite dotted_no_space by done. exact Es. }
  rewrite append_cons, append_nil_l, split_app by by apply dotted_no_slash.
  rewrite split_no_sep, ipToInt_dotted, Ep by (done || by apply octet_roundtrip; lia).
  assert (includes_char "/" (dotted a b c d +:+ String "/" (pretty bits)) = true) as Hs.
  { rewrite includes_char_app. by rewrite orb_true_r. }
  destruct (_ =? "")%string eqn:E1; [b2p; by rewrite E1 in Hs|].
  destruct (_ =? "any")%string eqn:E2; [b2p; by rewrite E2 in Hs|].
  destruct (_ =? "*")%string eqn:E3; [b2p; by rewrite E3 in Hs|]. done.
Qed.

(** *** Masks *)

Lemma scan_mask_bytes bits : 0 <= bits <= 32 → scan_mask (mask_bytes bits) 0 = bits.
Proof.
  intros H. apply (upto_forall (λ b, scan_mask (mask_bytes b) 0 = b) 33); [vm_compute; done|lia].
Qed.

Lemma mask_bytes_octets bits : 0 <= bits <= 32 → Forall octet (mask_bytes bits).
Proof.
  intros H. apply (upto_forall (λ b, Forall (λ z, 0 <= z < 256) (mask_bytes b)) 33); [vm_compute; done|lia].
Qed.

(** How many low bits of byte [i] the prefix leaves free. *)
Definition free_bits (bits i : Z) : Z := Z.max 0 (Z.min 8 (8 - (bits - i * 8))).

Lemma mask_byte_free bits i : mask_byte bits i = 256 - 2 ^ free_bits bits i.
Proof.
  unfold mask_byte, free_bits. destruct (8 <=? bits - i * 8) eqn:E1; b2p.
  { rewrite Z.max_l by lia. done. }
  destruct (bits - i * 8 <=? 0) eqn:E2; b2p; [by rewrite Z.min_l, Z.max_r by lia|].
  rewrite Z.min_r, Z.max_r by lia. set (r := bits - i * 8) in *.
  assert (r = 1 ∨ r = 2 ∨ r = 3 ∨ r = 4 ∨ r = 5 ∨ r = 6 ∨ r = 7) as Hr by lia.
  by destruct Hr as [->|[->|[->|[->|[->|[->| ->]]]]]].
Qed.

Lemma land_mask o k : octet o → 0 <= k <= 8 → Z.land o (256 - 2 ^ k) = o / 2 ^ k * 2 ^ k.
Proof.
  intros Ho Hk. apply (upto_forall (λ o, Forall (λ k, Z.land o (256 - 2 ^ k) = o / 2 ^ k * 2 ^ k) (upto 9)) 256)
    in Ho; [|vm_compute; done].
  rewrite Forall_forall in Ho. apply Ho, list_elem_of_fmap. exists (Z.to_nat k).
  split; [lia|]. apply elem_of_seq. lia.
Qed.

Lemma floor_low m o k : 0 <= k <= 8 → (m * 256 + o) / 2 ^ k * 2 ^ k = m * 256 + o / 2 ^ k * 2 ^ k.
Proof.
  intros Hk. replace (m * 256) with (m * 2 ^ (8 - k) * 2 ^ k).
  - rewrite Z.div_add_l by (apply Z.pow_nonzero; lia). lia.
  - rewrite <- Z.mul_assoc, <- Z.pow_add_r by lia. by replace (8 - k + k) with 8 by lia.
Qed.

Lemma floor_high m o k :
  octet o → 0 <= k → (m * 256 + o) / 2 ^ (8 + k) * 2 ^ (8 + k) = m / 2 ^ k * 2 ^ k * 256.
Proof.
  unfold octet. intros Ho Hk. rewrite Z.pow_add_r, <- Z.div_div by lia.
  change (2 ^ 8) with 256. rewrite Z.div_add_l, (Z.div_small o) by lia. rewrite Z.add_0_r. lia.
Qed.

Lemma floor_octet o k : octet o → 0 <= k → octet (o / 2 ^ k * 2 ^ k).
Proof.
  unfold octet. intros Ho Hk. assert (0 < 2 ^ k) by (apply Z.pow_pos_nonneg; lia).
  pose proof (Z.mul_div_le o (2 ^ k)). pose proof (Z.div_pos o (2 ^ k)). nia.
Qed.

Definition masked (bits a b c d : Z) : list Z := zip_with Z.land [a; b; c; d] (mask_bytes bits).

Lemma floor_whole o : octet o → o / 2 ^ 8 * 2 ^ 8 = 0.
Proof. intros Ho. by rewrite Z.div_small. Qed.

Lemma masked_floor bits a b c d :
  Forall octet [a; b; c; d] → 0 <= bits <= 32 →
  let f o i := o / 2 ^ free_bits bits i * 2 ^ free_bits bits i in
  quad_value (f a 0) (f b 1) (f c 2) (f d 3) = quad_value a b c d / 2 ^ (32 - bits) * 2 ^ (32 - bits).
Proof.
  rewrite !Forall_cons. intros (Ha & Hb & Hc & Hd & _) Hbits. unfold quad_value. cbv zeta.
  assert (∀ i x, 0 <= x <= 8 → (x = 0 → 8 <= bits - i * 8) → (x = 8 → bits - i * 8 <= 0) →
    (0 < x < 8 → x = 8 - (bits - i * 8)) → free_bits bits i = x) as F by (unfold free_bits; lia).
  assert (∀ o, o / 2 ^ 0 * 2 ^ 0 = o) as F0 by (intros o; rewrite Z.div_1_r; lia).
  destruct (Z_le_gt_dec 24 bits); [|destruct (Z_le_gt_dec 16 bits); [|destruct (Z_le_gt_dec 8 bits)]].
  - rewrite (F 0 0), (F 1 0), (F 2 0), (F 3 (32 - bits)), !F0 by lia. rewrite floor_low by lia. lia.
  - rewrite (F 0 0), (F 1 0), (F 2 (24 - bits)), (F 3 8), !F0, (floor_whole d Hd) by lia.
    replace (32 - bits) with (8 + (24 - bits)) by lia. rewrite floor_high, floor_low by (done || lia). lia.
  - rewrite (F 0 0), (F 1 (16 - bits)), (F 2 8), (F 3 8), !F0, (floor_whole d Hd), (floor_whole c Hc) by lia.
    replace (32 - bits) with (8 + (8 + (16 - bits))) by lia.
    rewrite !floor_high, floor_low by (done || lia). lia.
  - rewrite (F 0 (8 - bits)), (F 1 8), (F 2 8), (F 3 8), (floor_whole d Hd), (floor_whole c Hc), (floor_whole b Hb) by lia.
    replace (32 - bits) with (8 + (8 + (8 + (8 - bits)))) by lia.
    rewrite !floor_high by (done || lia). lia.
Qed.

(** Masking the octets is rounding the address down to its block. *)
Lemma masked_value bits a b c d :
  Forall octet [a; b; c; d] → 0 <= bits <= 32 →
  ∃ a' b' c' d', masked bits a b c d = [a'; b'; c'; d'] ∧ Forall octet [a'; b'; c'; d']
    ∧ quad_value a' b' c' d' = first (block (quad_value a b c d) bits).
Proof.
  intros H Hbits. unfold block. rewrite block_size by lia. simpl. rewrite <- masked_floor by done.
  rewrite !Forall_cons in H. destruct H as (Ha & Hb & Hc & Hd & _). unfold masked, mask_bytes.
  cbn [fmap list_fmap zip_with]. rewrite !mask_byte_free, !land_mask by (done || unfold free_bits; lia).
  eexists _, _, _, _. split; [done|]. split; [|done].
  rewrite !Forall_cons. split_and!; try apply floor_octet; done || unfold free_bits; lia.
Qed.

Lemma map_octets_spec parts os :
  map_octets parts = Some os → length os = length parts ∧ Forall octet os.
Proof.
  revert os. induction parts as [|p ps IH]; simpl; intros os; [intros [= <-]; done|].
  destruct (octet_of p) eqn:Eo; [|done]. destruct (map_octets ps); [|done]. intros [= <-].
  destruct (IH _ eq_refl). split; [simpl; lia|]. constructor; [by eapply octet_of_bounds|done].
Qed.

Lemma parseCidrParts_spec cidr os bits :
  parseCidrParts cidr = Some (os, bits) →
  ∃ a b c d, os = [a; b; c; d] ∧ Forall octet [a; b; c; d] ∧ 0 <= bits <= 32.
Proof.
  unfold parseCidrParts. destruct (split "/" _) as [|addr rest]; [done|].
  destruct (negb _) eqn:El; [done|]. b2p. apply Nat.eqb_eq in El.
  destruct (map_octets _) as [os'|] eqn:Eo; [|done].
  destruct (prefix_bits rest) eqn:Eb; [|done]. intros [= <- <-].
  apply map_octets_spec in Eo as [Hl Hf]. apply prefix_bits_bounds in Eb. rewrite El in Hl.
  destruct os' as [|a [|b [|c [|d [|]]]]]; try (exfalso; simpl in Hl; lia). by exists a, b, c, d.
Qed.

Lemma block_idem base bits :
  0 <= bits <= 32 → block (first (block base bits)) bits = block base bits.
Proof.
  intros H. unfold block. rewrite block_size by lia. simpl.
  rewrite Z.div_mul by (apply Z.pow_nonzero; lia). done.
Qed.

(** ** Theorems *)

(** A rule's CIDR matches an address exactly when the address parses and
    either the CIDR is the wildcard (empty, [any] or [*]) or its address and
    prefix length parse and the two addresses agree on their first [bits]
    bits. *)
Theorem cidrContains_prefix cidr ip :
  cidrContains cidr ip = true ↔
  ∃ v, ipToInt ip = Some v ∧
    (trim cidr ∈ [""; "any"; "*"] ∨
     (trim cidr ∉ [""; "any"; "*"]) ∧
     ∃ addr rest base bits, split "/" (trim cidr) = addr :: rest ∧
       ipToInt addr = Some base ∧ prefix_bits rest = Some bits ∧ same_prefix bits v base).
Proof.
  unfold cidrContains, parseCidr.
  assert (trim cidr ∈ [""; "any"; "*"] ↔
    ((trim cidr =? "") || (trim cidr =? "any") || (trim cidr =? "*"))%string = true) as Hw.
  { rewrite !orb_true_iff, !String.eqb_eq, !elem_of_cons, elem_of_nil. tauto. }
  setoid_rewrite Hw. clear Hw.
  destruct (_ || _) eqn:Ew.
  - split.
    + destruct (ipToInt ip) as [v|]; [|done]. intros _. exists v. tauto.
    + intros (v & Hv & _). rewrite Hv. apply ipToInt_bounds in Hv. simpl.
      apply andb_true_iff. rewrite !Z.leb_le. lia.
  - destruct (split "/" (trim cidr)) as [|addr rest] eqn:Es.
    { split; [done|]. intros (v & _ & [?|(_ & ? & ? & ? & ? & ? & _)]); done. }
    destruct (ipToInt addr) as [base|] eqn:Ea.
    2: { split; [done|]. intros (v & _ & [?|(_ & a & r & b & t & [= -> ->] & Hb & _)]); congruence. }
    destruct (prefix_bits rest) as [bits|] eqn:Eb.
    2: { split; [done|]. intros (v & _ & [?|(_ & a & r & b & t & [= -> ->] & _ & Hb & _)]); congruence. }
    pose proof (prefix_bits_bounds _ _ Eb) as Hb.
    split.
    + destruct (ipToInt ip) as [v|]; [|done]. rewrite andb_true_iff, !Z.leb_le.
      intros H. exists v. split; [done|]. right. split; [done|]. exists addr, rest, base, bits.
      rewrite <- block_spec by done. done.
    + intros (v & -> & [?|(_ & a & r & b & t & [= -> ->] & Hb1 & Hb2 & Hp)]); [done|].
      simplify_eq. rewrite <- block_spec in Hp by done. apply andb_true_iff. rewrite !Z.leb_le. done.
Qed.

(** A subnet route delivered to a node covers what was stored: whenever a
    route's CIDR is accepted, its encoding for Go, turned back into a CIDR for
    the netmap, is the dotted network address with the same prefix length and
    parses to exactly the aligned block of the stored address. *)
Theorem route_network_roundtrip cidr net :
  cidrToGoIPNet cidr = Some net →
  ∃ a b c d bits a' b' c' d',
    parseCidrParts cidr = Some ([a; b; c; d], bits) ∧
    goIPNetToCidr net = dotted a' b' c' d' +:+ "/" +:+ pretty bits ∧
    quad_value a' b' c' d' = first (block (quad_value a b c d) bits) ∧
    parseCidr (goIPNetToCidr net) = Some (block (quad_value a b c d) bits).
Proof.
  unfold cidrToGoIPNet. destruct (parseCidrParts cidr) as [[os bits]|] eqn:E; [|done].
  intros Hn. destruct (parseCidrParts_spec _ _ _ E) as (a & b & c & d & -> & Ho & Hb).
  destruct (masked_value bits a b c d Ho Hb) as (a' & b' & c' & d' & Em & Ho' & Ev).
  assert (goIPNetToCidr net = dotted a' b' c' d' +:+ "/" +:+ pretty bits) as Eg.
  { apply Some_inj in Hn as <-. unfold goIPNetToCidr. cbn [IP Mask].
    rewrite b64_roundtrip by by apply mask_bytes_octets.
    rewrite scan_mask_bytes by done. fold (masked bits a b c d). by rewrite Em. }
  exists a, b, c, d, bits, a', b', c', d'. rewrite Eg. split_and!; [done|done|done|].
  rewrite parseCidr_dotted by done. by rewrite Ev, block_idem.
Qed.

Lemma route_network_roundtrip_witness :
  ∃ net, cidrToGoIPNet "10.100.3.5/22" = Some net ∧
    parseCidr (goIPNetToCidr net) = Some (mk_range 174325760 174326783).
Proof.
  destruct (cidrToGoIPNet "10.100.3.5/22") as [net|] eqn:E; [|vm_compute in E; discriminate].
  exists net. split; [done|].
  destruct (route_network_roundtrip _ _ E) as (a & b & c & d & bits & ? & ? & ? & ? & Hp & _ & _ & ->).
  vm_compute in Hp. injection Hp as <- <- <- <- <-. reflexivity.
Defined.
