(* ===== verification/Db.v ===== *)
(** * The relational store

    The tables of [console/backend/db/migrations] the services read and write,
    as lists of rows in their physical order, and the SQL the services use on
    them.  Only the PostgreSQL branch of each [query] helper is modelled:
    [isPostgres()] of [db/index.js] answers [true].  Timestamps are
    milliseconds; [NOW()] is an argument of the operations that read it.

    [ORDER BY] on a text column depends on the collation of the database, which
    is not part of the sources: it is the class [Collation], whose laws hold of
    every deterministic PostgreSQL collation; [c_collation] is the "C" one. *)

From S2P Require Import Prelude Order Js.
From coqutil Require Export Datatypes.RecordSettersUsingExistingGetters.

(** ** Rows *)

Module Node.
Record t := mk {
  id : string; user_id : string; name : string; public_key : string;
  overlay_ipv4 : string; overlay_ipv6 : string; role : string;
  endpoints : jsval; is_healthy : bool; is_quarantined : bool;
  quarantine_reason : option string; last_heartbeat : option Z;
  latency_ms : num; tx_bytes : Z; rx_bytes : Z;
  cpu_usage_pct : num; memory_usage_pct : num; battery_pct : num;
  posture_checks : jsval; endpoints_bumped_at : option Z;
  organization_id : option string; compartment_id : option string;
  transport : string; stealth_config : jsval; daita_mode : string;
  dns_name : option string;
}.
End Node.

Module Rule.
Record t := mk {
  id : string; priority : Z; source_cidr : string; destination_cidr : string;
  protocol : string; port_start : Z; port_end : Z; action : string;
  description : string; enabled : bool; organization_id : option string;
}.
End Rule.

Module Org.
Record t := mk {
  id : string; slug : string; default_policy : string;
  search_domain : option string; destroyed_at : option Z;
  name : string; profile : string; max_netmap_staleness_seconds : Z;
  default_transport : string; default_stealth_config : jsval; default_daita_mode : string;
  created_at : Z;
}.

(** A row with the column defaults. *)
Definition plain (id slug default_policy : string) : t :=
  mk id slug default_policy None None slug "standard" 300 "wireguard" JNull "off" 0.
End Org.

Module Compartment.
Record t := mk {
  id : string; organization_id : string; name : string; slug : string;
  subnet_cidr : string; is_hidden : bool; created_at : Z;
}.
End Compartment.

Module Peering.
Record t := mk {
  id : string; organization_id : string;
  src_compartment_id : string; dst_compartment_id : string; policy : string;
  created_at : Z;
}.
End Peering.

Module Revoked.
Record t := mk {
  public_key_hex : string; node_id : option string; reason : string;
  revoked_by : option string; revoked_at : Z; expires_at : Z;
}.
End Revoked.

Module Credential.
Record t := mk {
  id : string; node_id : string; token_hash : string; expires_at : Z;
  last_used_at : option Z; revoked_at : option Z;
}.
End Credential.

Module PreAuthKey.
Record t := mk {
  id : string; key_hash : string; key_prefix : string; owner_id : string;
  organization_id : option string; allowed_role : option string;
  is_reusable : bool; used_count : Z; max_uses : option Z;
  expires_at : option Z; revoked_at : option Z; created_at : Z;
}.
End PreAuthKey.

Module Route.
Record t := mk {
  id : string; network_id : string; description : string; network_cidr : string;
  masquerade : bool; failover_mode : string; routing_peers : jsval;
  groups : jsval; enabled : bool; created_at : Z; updated_at : Z;
}.
End Route.

Module User.
Record t := mk {
  id : string; username : string; role : string; status : string;
  organization_id : option string;
}.
End User.

Module Membership.
Record t := mk { user_id : string; organization_id : string; role : string }.
End Membership.

Module Db.
Record t := mk {
  nodes : list Node.t; acl_rules : list Rule.t; organizations : list Org.t;
  compartments : list Compartment.t; compartment_peerings : list Peering.t;
  revoked_keys : list Revoked.t; node_credentials : list Credential.t;
  preauth_keys : list PreAuthKey.t; network_routes : list Route.t;
  users : list User.t; memberships : list Membership.t;
  mesh_epochs : gmap string Z;
}.
Definition empty : t := mk [] [] [] [] [] [] [] [] [] [] [] ∅.
End Db.

(** The PRIMARY KEY and UNIQUE constraints the services rely on. *)
Record unique_keys (d : Db.t) : Prop := {
  uk_node_id : NoDup (Node.id <$> Db.nodes d);
  uk_node_vip : NoDup (Node.overlay_ipv4 <$> Db.nodes d);
  uk_node_key : NoDup (Node.public_key <$> Db.nodes d);
  uk_rule_id : NoDup (Rule.id <$> Db.acl_rules d);
  uk_org_id : NoDup (Org.id <$> Db.organizations d);
  uk_compartment_id : NoDup (Compartment.id <$> Db.compartments d);
  uk_route_id : NoDup (Route.id <$> Db.network_routes d);
  uk_revoked : NoDup (Revoked.public_key_hex <$> Db.revoked_keys d);
}.

(** Two stores with the same rows, the tables possibly scanned in another
    order. *)
Record same_rows (d d' : Db.t) : Prop := {
  sr_nodes : Db.nodes d ≡ₚ Db.nodes d';
  sr_rules : Db.acl_rules d ≡ₚ Db.acl_rules d';
  sr_orgs : Db.organizations d ≡ₚ Db.organizations d';
  sr_compartments : Db.compartments d ≡ₚ Db.compartments d';
  sr_peerings : Db.compartment_peerings d ≡ₚ Db.compartment_peerings d';
  sr_revoked : Db.revoked_keys d ≡ₚ Db.revoked_keys d';
  sr_routes : Db.network_routes d ≡ₚ Db.network_routes d';
  sr_epochs : Db.mesh_epochs d = Db.mesh_epochs d';
}.

(** ** Statements *)

(** [SELECT ... WHERE p]. *)
Definition where_ {A} (p : A → bool) (l : list A) : list A := base.filter (λ x, p x = true) l.

(** [UPDATE ... SET f WHERE p]. *)
Definition update_where {A} (p : A → bool) (f : A → A) (l : list A) : list A :=
  (λ x, if p x then f x else x) <$> l.

(** [DELETE ... WHERE p]. *)
Definition delete_where {A} (p : A → bool) (l : list A) : list A := where_ (λ x, negb (p x)) l.

(** The first row, [rows[0]]. *)
Definition select1 {A} (p : A → bool) (l : list A) : option A := head (where_ p l).

(** [a = $1] on a nullable column: comparison with NULL is not true. *)
Definition opt_is (o : option string) (s : string) : bool :=
  match o with Some x => (x =? s)%string | None => false end.

Definition some_eqb (a b : option string) : bool :=
  match a, b with Some x, Some y => (x =? y)%string | _, _ => false end.

Definition coalesce {A} (o : option A) (d : A) : A := default d o.

(** An INTEGER parameter: the driver sends the number as text, and PostgreSQL
    refuses anything but an integer of 32 bits. *)
Definition pg_int (n : num) : option Z :=
  if isInteger n && (- 2 ^ 31 <=? to_Z n) && (to_Z n <? 2 ^ 31) then Some (to_Z n) else None.

(** A parameter bound to a VARCHAR(limit) column, for a scalar value: a NUL
    character and a value over the limit are refused, and NULL is refused by the
    NOT NULL columns this is used for. *)
Definition pg_text (limit : Z) (v : jsval) : option string :=
  let fits s :=
    if (len s <=? limit) && negb (includes_char "000" s) then Some s else None in
  match v with
  | JStr s => fits s
  | JNum n => fits (number_to_string n)
  | JBool true => fits "true" | JBool false => fits "false"
  | _ => None
  end.

(** A TEXT column holds up to 1 GB. *)
Definition text_limit : Z := 2 ^ 30.

(** An error of the database: no [status], so the error handler answers 500. *)
Definition db_error {S A} : eff S A := throw None "database error".

Definition or_db_error {S A} (o : option A) : eff S A :=
  match o with Some a => eff_ret a | None => db_error end.

Lemma or_db_error_ok {S A} (o : option A) (s : S) a s' : or_db_error o s = (Ok a, s') → o = Some a ∧ s' = s.
Proof. destruct o; unfold or_db_error, eff_ret, db_error, throw; intros; by simplify_eq. Qed.

Lemma or_db_error_throws {S A} (o : option A) (s : S) st m s' : or_db_error o s = (Throw st m, s') → st = None ∧ s' = s.
Proof. destruct o; unfold or_db_error, eff_ret, db_error, throw; intros; by simplify_eq. Qed.

(** *** Deletes and their foreign keys *)

(** DELETE FROM nodes, with the credentials the foreign key takes along. *)
Definition delete_nodes (p : Node.t → bool) (d : Db.t) : Db.t :=
  let gone := Node.id <$> where_ p (Db.nodes d) in
  d <| Db.nodes ::= delete_where p |>
    <| Db.node_credentials ::= delete_where (λ c, bool_decide (Credential.node_id c ∈ gone)) |>.

(** DELETE FROM compartments: peerings go, nodes keep no reference. *)
Definition delete_compartments (p : Compartment.t → bool) (d : Db.t) : Db.t :=
  let gone := Compartment.id <$> where_ p (Db.compartments d) in
  d <| Db.compartments ::= delete_where p |>
    <| Db.compartment_peerings ::= delete_where (λ x, bool_decide (Peering.src_compartment_id x ∈ gone) ||
                                                      bool_decide (Peering.dst_compartment_id x ∈ gone)) |>
    <| Db.nodes ::= update_where (λ n, match Node.compartment_id n with Some c => bool_decide (c ∈ gone) | None => false end)
                      (λ n, n <| Node.compartment_id := None |>) |>.

(** ** Collation *)

Class Collation := {
  collate : string → string → Z;
  collate_comparator :: Comparator collate;
  collate_zero : ∀ a b, collate a b = 0 ↔ a = b;
}.

Fixpoint c_collate (a b : string) : Z :=
  match a, b with
  | EmptyString, EmptyString => 0
  | EmptyString, _ => -1
  | _, EmptyString => 1
  | String c a', String d b' => if code c =? code d then c_collate a' b' else code c - code d
  end.

Lemma code_inj c d : code c = code d → c = d.
Proof.
  unfold code. intros H. apply N2Z.inj in H.
  rewrite <- (ascii_N_embedding c), <- (ascii_N_embedding d). by rewrite H.
Qed.

Lemma c_collate_zero a b : c_collate a b = 0 ↔ a = b.
Proof.
  revert b. induction a as [|c a IH]; intros [|d b]; simpl; try (split; [lia|congruence]); [done|].
  destruct (Z.eqb_spec (code c) (code d)) as [E|E].
  - apply code_inj in E as ->. rewrite IH. split; congruence.
  - split; [lia|congruence].
Qed.

#[export] Instance c_collate_comparator : Comparator c_collate.
Proof.
  split.
  - intros a. induction a as [|c a IH]; intros [|d b]; simpl; try lia.
    destruct (Z.eqb_spec (code c) (code d)) as [->|]; [rewrite Z.eqb_refl; apply IH|].
    destruct (Z.eqb_spec (code d) (code c)); lia.
  - intros a. induction a as [|c a IH]; intros [|d b] [|e f]; simpl; try lia.
    specialize (IH b f).
    destruct (Z.eqb_spec (code c) (code d)), (Z.eqb_spec (code d) (code e)),
      (Z.eqb_spec (code c) (code e)); lia.
Qed.

Definition c_collation : Collation :=
  {| collate := c_collate; collate_comparator := _; collate_zero := c_collate_zero |}.

(** ** Facts about the statements *)

Lemma elem_of_where {A} (p : A → bool) l x : x ∈ where_ p l ↔ p x = true ∧ x ∈ l.
Proof. unfold where_. by rewrite list_elem_of_filter. Qed.

Lemma where_perm {A} (p : A → bool) l l' : l ≡ₚ l' → where_ p l ≡ₚ where_ p l'.
Proof. unfold where_. by intros ->. Qed.

Lemma where_nil {A} (p : A → bool) : where_ p [] = [].
Proof. done. Qed.

Lemma where_cons {A} (p : A → bool) x l :
  where_ p (x :: l) = if p x then x :: where_ p l else where_ p l.
Proof. unfold where_. rewrite filter_cons. by destruct (p x). Qed.

Lemma where_app {A} (p : A → bool) l1 l2 : where_ p (l1 ++ l2) = where_ p l1 ++ where_ p l2.
Proof. apply filter_app. Qed.

Lemma where_where {A} (p q : A → bool) l : where_ p (where_ q l) = where_ (λ x, q x && p x) l.
Proof.
  induction l as [|x l IH]; [done|]. rewrite !where_cons.
  destruct (q x) eqn:?; simpl; rewrite ?where_cons, IH; by destruct (p x).
Qed.

Lemma where_ext {A} (p q : A → bool) l : (∀ x, x ∈ l → p x = q x) → where_ p l = where_ q l.
Proof.
  induction l as [|x l IH]; intros H; [done|]. rewrite !where_cons, (H x) by left.
  rewrite IH; [done|]. intros y Hy. apply H. by right.
Qed.

Lemma select1_elem {A} (p : A → bool) l x : select1 p l = Some x → p x = true ∧ x ∈ l.
Proof.
  unfold select1. intros H. apply elem_of_where. destruct (where_ p l); simplify_eq/=. left.
Qed.

Lemma select1_none {A} (p : A → bool) l : select1 p l = None ↔ ∀ x, x ∈ l → p x = false.
Proof.
  unfold select1. split.
  - intros H x Hx. destruct (p x) eqn:E; [|done].
    assert (x ∈ where_ p l) by (by apply elem_of_where). destruct (where_ p l); [set_solver|done].
  - intros H. destruct (where_ p l) as [|x r] eqn:E; [done|].
    assert (x ∈ where_ p l) as Hx by (rewrite E; left). apply elem_of_where in Hx as [Hp Hx].
    rewrite H in Hp; done.
Qed.

(** A row found by a column with distinct values is the only one. *)
Lemma select1_unique {A B} (f : A → B) (p : A → bool) l x :
  NoDup (f <$> l) → x ∈ l → p x = true → (∀ y, p y = true → f y = f x) → select1 p l = Some x.
Proof.
  induction l as [|y l IH]; intros Hn Hx Hp Hf; [set_solver|]. unfold select1. rewrite where_cons.
  apply NoDup_cons in Hn as [Hy Hn]. apply elem_of_cons in Hx as [<-|Hx]; [by rewrite Hp|].
  destruct (p y) eqn:E; [|by apply IH]. exfalso. apply Hy. rewrite (Hf y E).
  by apply list_elem_of_fmap_2.
Qed.

Lemma elem_of_update {A} (p : A → bool) f l x :
  x ∈ update_where p f l ↔ ∃ y, y ∈ l ∧ x = if p y then f y else y.
Proof. unfold update_where. rewrite list_elem_of_fmap. split; intros (y & ? & ?); eauto. Qed.

Lemma update_where_fmap {A B} (g : A → B) (p : A → bool) f l :
  (∀ x, g (f x) = g x) → g <$> update_where p f l = g <$> l.
Proof.
  intros H. unfold update_where. rewrite <- list_fmap_compose. apply list_fmap_ext.
  intros i x _. simpl. by destruct (p x).
Qed.

Lemma where_update_none {A} (p q : A → bool) f (l : list A) :
  (∀ x, x ∈ l → q x = true → p x = false ∧ p (f x) = false) → where_ p (update_where q f l) = where_ p l.
Proof.
  induction l as [|x l IH]; intros H; [done|]. unfold update_where. rewrite fmap_cons, !where_cons.
  fold (update_where q f l). rewrite IH by (intros y Hy; apply H; by right).
  destruct (q x) eqn:E; [|done]. destruct (H x) as [-> ->]; [left|done|done].
Qed.

Lemma where_delete_none {A} (p q : A → bool) (l : list A) :
  (∀ x, x ∈ l → q x = true → p x = false) → where_ p (delete_where q l) = where_ p l.
Proof.
  intros H. unfold delete_where. rewrite where_where. apply where_ext. intros x Hx.
  destruct (q x) eqn:E; [simpl; by rewrite H|done].
Qed.

Lemma elem_of_delete {A} (p : A → bool) l x : x ∈ delete_where p l ↔ x ∈ l ∧ p x = false.
Proof. unfold delete_where. rewrite elem_of_where, negb_true_iff. tauto. Qed.

Lemma where_NoDup {A B} (g : A → B) (p : A → bool) l : NoDup (g <$> l) → NoDup (g <$> where_ p l).
Proof.
  intros H. eapply sublist_NoDup; [exact H|]. apply fmap_sublist, sublist_filter.
Qed.

(** ** Order of the rows *)

Lemma NoDup_fmap_inj {A B} (g : A → B) l x y :
  NoDup (g <$> l) → x ∈ l → y ∈ l → g x = g y → x = y.
Proof.
  induction l as [|z l IH]; intros Hn Hx Hy E; [set_solver|]. apply NoDup_cons in Hn as [Hz Hn].
  apply elem_of_cons in Hx as [->|Hx]; apply elem_of_cons in Hy as [->|Hy]; auto.
  - destruct Hz. rewrite E. by apply list_elem_of_fmap_2.
  - destruct Hz. rewrite <- E. by apply list_elem_of_fmap_2.
Qed.

Lemma select1_perm {A B} (g : A → B) (p : A → bool) (b : B) l l' :
  NoDup (g <$> l) → (∀ x, p x = true → g x = b) → l ≡ₚ l' → select1 p l = select1 p l'.
Proof.
  intros Hn Hp Hl. destruct (select1 p l) as [x|] eqn:E.
  - apply select1_elem in E as [Ex Hx]. symmetry. apply (select1_unique g).
    + by rewrite <- Hl.
    + by rewrite <- Hl.
    + done.
    + intros y Hy. by rewrite (Hp x Ex), (Hp y Hy).
  - symmetry. apply select1_none. intros x Hx. rewrite <- Hl in Hx.
    by apply (proj1 (select1_none p l) E).
Qed.

Lemma existsb_perm {A} (p : A → bool) l l' : l ≡ₚ l' → existsb p l = existsb p l'.
Proof. induction 1; simpl; [done|by f_equal|by destruct (p x), (p y)|congruence]. Qed.

(** Sorting on a key with distinct values forgets the scan order. *)
Lemma sort_where_perm {A B} (g : A → B) (cmp : A → A → Z) `{!Comparator cmp} (p : A → bool) l l' :
  NoDup (g <$> l) → (∀ x y, x ∈ l → y ∈ l → cmp x y = 0 → g x = g y) → l ≡ₚ l' →
  js_sort cmp (where_ p l) = js_sort cmp (where_ p l').
Proof.
  intros Hn Hc Hl. apply js_sort_permutation; [done| |by apply where_perm].
  intros x y Hx Hy E. apply elem_of_where in Hx as [_ Hx]. apply elem_of_where in Hy as [_ Hy].
  apply (NoDup_fmap_inj g l); auto.
Qed.

Lemma where_ext_perm {A} (p q : A → bool) l l' :
  (∀ x, p x = q x) → l ≡ₚ l' → where_ p l ≡ₚ where_ q l'.
Proof. intros Hpq Hl. rewrite (where_perm p l l' Hl). by rewrite (where_ext p q l'). Qed.

(** The two tables a query joins, in any scan order. *)
#[export] Instance same_rows_sym : Symmetric same_rows.
Proof. intros d d' []. split; done. Qed.
