(* ===== verification/Vip.v ===== *)
(** * Overlay addresses and public keys: [utils/crypto.js]

    The allocation of overlay address pairs, from a counter
    ([allocateNextVip], the PostgreSQL sequence [overlay_vip_seq]) and from a
    scan ([allocateVipFromRows]), and the normalisation of stored public keys.
    An offset stands for one address pair; the offsets below 2^22 fill
    100.64.0.0/10. *)

From S2P Require Import Prelude Js Encoding Cidr Db.

Module Vip.

(** [n.toString(16)] of an integer with at most [fuel] digits. *)
Fixpoint to_hex (fuel : nat) (n : Z) : string :=
  match fuel with
  | O => ""
  | S f => if n <? 16 then str1 (hex_digit n) else to_hex f (n / 16) +:+ str1 (hex_digit (n mod 16))
  end.

(** 14 hexadecimal digits hold every integer a double holds exactly. *)
Definition toString16 (n : Z) : string := to_hex 14 n.

Record vip := mk_vip { overlayIpv4 : string; overlayIpv6 : string }.

Record candidate := mk_candidate { usable : bool; exhausted : bool; address : vip }.

Definition vip_o2 (offset : Z) : Z := 64 + offset / 65536.
Definition vip_o3 (offset : Z) : Z := offset mod 65536 / 256.
Definition vip_o4 (offset : Z) : Z := offset mod 256.

Definition vip_of (offset : Z) : vip :=
  mk_vip (dotted 100 (vip_o2 offset) (vip_o3 offset) (vip_o4 offset))
    ("fd7a:115c:a1e0::" +:+ toLowerCase (toString16 offset)).

Definition vipFromOffset (offset : Z) : candidate :=
  mk_candidate
    (negb (vip_o4 offset =? 0) && negb (vip_o4 offset =? 255) && (vip_o2 offset <? 128))
    (128 <=? vip_o2 offset) (vip_of offset).

(** ** Allocation by scanning *)

(** [r.overlay_ipv4 ? r.overlay_ipv4.trim() : null], null and empty dropped. *)
Definition used_set (f : string → string) (col : list (option string)) : list string :=
  where_ (λ s, negb (s =? "")%string)
    (omap (λ o, s ← o; if (s =? "")%string then None else Some (f s)) col).

Fixpoint alloc_loop (fuel : nat) (used4 used6 : list string) (offset : Z) : option vip :=
  match fuel with
  | O => None
  | S f =>
      if 4194300 <=? offset then None
      else if (vip_o4 offset =? 0) || (vip_o4 offset =? 255) then alloc_loop f used4 used6 (offset + 1)
      else if 128 <=? vip_o2 offset then None
      else
        let v := vip_of offset in
        if bool_decide (overlayIpv4 v ∉ used4) && bool_decide (overlayIpv6 v ∉ used6) then Some v
        else alloc_loop f used4 used6 (offset + 1)
  end.

Definition pool_exhausted : outcome vip :=
  Throw (Some 503) "overlay VIP pool exhausted: no free address in 100.64.0.0/10".

Definition allocateVipFromRows (existingVips : list (option string * option string)) : outcome vip :=
  let used4 := used_set trim (existingVips.*1) in
  let used6 := used_set (λ s, toLowerCase (trim s)) (existingVips.*2) in
  match alloc_loop (Z.to_nat 4194300) used4 used6 1 with
  | Some v => Ok v
  | None => pool_exhausted
  end.

(** ** Allocation from the counter *)

(** The sequence and the nodes it is checked against.  [nextval] is not rolled
    back, so the counter only grows. *)
Record allocator := mk_allocator { overlay_vip_seq : Z; allocated : list Node.t }.

Definition MAX_OFFSET_PROBES : nat := 256.

Definition nextval : eff allocator Z :=
  λ a, (Ok (overlay_vip_seq a), mk_allocator (overlay_vip_seq a + 1) (allocated a)).

Definition isVipTaken (c : vip) (nodes : list Node.t) : bool :=
  existsb (λ n, (Node.overlay_ipv4 n =? overlayIpv4 c)%string
                || (Node.overlay_ipv6 n =? overlayIpv6 c)%string) nodes.

Fixpoint probe_loop (probes : nat) : eff allocator vip :=
  match probes with
  | O => throw (Some 500) "overlay VIP allocator could not find a usable address"
  | S rest =>
      offset <-! nextval ;
      let c := vipFromOffset offset in
      if exhausted c then
        throw (Some 503) "overlay VIP pool exhausted: no free address in 100.64.0.0/10"
      else if negb (usable c) then probe_loop rest
      else
        a <-! get ;
        if isVipTaken (address c) (allocated a) then probe_loop rest else eff_ret (address c)
  end.

Definition allocateNextVip : eff allocator vip := probe_loop MAX_OFFSET_PROBES.

(** ** Public keys *)

Definition is_hex (c : ascii) : bool := match hex_value c with Some _ => true | None => false end.
Definition is_b64 (c : ascii) : bool :=
  is_upper c || is_lower c || is_digit c || (code c =? 43) || (code c =? 47).

(** The argument is [String(value || '')]. *)
Definition normalisePublicKeyHex (value : string) : option string :=
  let text := trim value in
  if (len text =? 64) && all_chars is_hex text then Some (toLowerCase text)
  else if (len text =? 44) && all_chars is_b64 (take_string 43 text) && (drop_string 43 text =? "=")%string
  then
    let raw := b64_decode text in
    if Z.of_nat (length raw) =? 32 then Some (hex_encode raw) else None
  else None.

End Vip.

(** ** Lemmas *)
Module VipFacts.
Import Vip.

Lemma radix_digits_app r s t acc :
  radix_digits r (s +:+ t) acc = match radix_digits r s acc with Some a => radix_digits r t a | None => None end.
Proof.
  revert acc. induction s as [|c s IH]; intros acc; [by rewrite append_nil_l|].
  rewrite append_cons. simpl. destruct (hex_value c); [|done]. by destruct (z <? r).
Qed.

Lemma to_hex_value fuel n :
  0 <= n < 16 ^ Z.of_nat fuel → radix_digits 16 (to_hex fuel n) 0 = Some n.
Proof.
  revert n. induction fuel as [|f IH]; intros n Hn; [simpl in *; f_equal; lia|].
  rewrite Nat2Z.inj_succ, Z.pow_succ_r in Hn by lia. cbn [to_hex].
  destruct (n <? 16) eqn:E; b2p.
  - unfold str1. cbn [radix_digits]. rewrite hex_digit_value by lia.
    assert ((n <? 16) = true) as -> by lia. done.
  - rewrite radix_digits_app, IH by dlia. unfold str1. cbn [radix_digits].
    rewrite hex_digit_value by dlia. assert ((n mod 16 <? 16) = true) as -> by dlia. f_equal. dlia.
Qed.

Lemma lower_app s t : toLowerCase (s +:+ t) = toLowerCase s +:+ toLowerCase t.
Proof. unfold toLowerCase. induction s as [|c s IH]; [by rewrite !append_nil_l|]. rewrite !append_cons. simpl. by rewrite append_cons, IH. Qed.

Lemma to_hex_lower fuel n : 0 <= n → toLowerCase (to_hex fuel n) = to_hex fuel n.
Proof.
  revert n. induction fuel as [|f IH]; intros n Hn; [done|]. cbn [to_hex].
  destruct (n <? 16) eqn:E; b2p.
  - unfold str1, toLowerCase. cbn [map_string]. by rewrite hex_digit_lower by lia.
  - rewrite lower_app, IH by dlia. unfold str1, toLowerCase. cbn [map_string].
    by rewrite hex_digit_lower by dlia.
Qed.

(** The offsets of the pool, 100.64.0.0/10. *)
Definition in_pool (offset : Z) : Prop := 0 <= offset < 2 ^ 22.

Lemma vip_octets offset : in_pool offset → Forall octet [100; vip_o2 offset; vip_o3 offset; vip_o4 offset].
Proof.
  unfold in_pool, vip_o2, vip_o3, vip_o4, octet. intros H. repeat constructor; dlia.
Qed.

Lemma vip_value offset :
  in_pool offset → ipToInt (overlayIpv4 (vip_of offset)) = Some (1681915904 + offset).
Proof.
  intros H. unfold vip_of. cbn [overlayIpv4]. rewrite ipToInt_dotted by (by apply vip_octets).
  f_equal. unfold quad_value, vip_o2, vip_o3, vip_o4, in_pool in *. dlia.
Qed.

Lemma vip_of_inj4 a b :
  in_pool a → in_pool b → overlayIpv4 (vip_of a) = overlayIpv4 (vip_of b) → a = b.
Proof.
  intros Ha Hb E. apply (f_equal ipToInt) in E. rewrite !vip_value in E by done. injection E. lia.
Qed.

Lemma vip_of_inj6 a b :
  in_pool a → in_pool b → overlayIpv6 (vip_of a) = overlayIpv6 (vip_of b) → a = b.
Proof.
  unfold in_pool, vip_of, toString16. intros Ha Hb E. cbn [overlayIpv6] in E.
  apply append_inj_l in E. rewrite !to_hex_lower in E by lia.
  apply (f_equal (λ s, radix_digits 16 s 0)) in E. rewrite !to_hex_value in E by (simpl; lia).
  congruence.
Qed.

Lemma exhausted_pool offset : 0 <= offset → exhausted (vipFromOffset offset) = false → in_pool offset.
Proof. unfold vipFromOffset, vip_o2, in_pool. simpl. intros H E. b2p. dlia. Qed.

Lemma vip_in_cidr offset :
  in_pool offset → cidrContains "100.64.0.0/10" (overlayIpv4 (vip_of offset)) = true.
Proof.
  intros H. unfold cidrContains. rewrite vip_value by done.
  assert (parseCidr "100.64.0.0/10" = Some (mk_range 1681915904 1686110207)) as -> by (vm_compute; reflexivity).
  cbn [first last]. unfold in_pool in H. lia.
Qed.

Lemma isVipTaken_false c nodes :
  isVipTaken c nodes = false ↔
  ∀ n, n ∈ nodes → Node.overlay_ipv4 n ≠ overlayIpv4 c ∧ Node.overlay_ipv6 n ≠ overlayIpv6 c.
Proof.
  unfold isVipTaken. rewrite <- not_true_iff_false, existsb_exists. setoid_rewrite orb_true_iff.
  setoid_rewrite String.eqb_eq. setoid_rewrite <- list_elem_of_In. split.
  - intros H n Hn. split; intros E; apply H; eauto.
  - intros H (n & Hn & [E|E]); by destruct (H n Hn).
Qed.
End VipFacts.

(** ** Theorems *)
Import Vip VipFacts.

(** An offset the allocator passes over. *)
Definition skipped (nodes : list Node.t) (offset : Z) : Prop :=
  in_pool offset ∧ (usable (vipFromOffset offset) = false ∨ isVipTaken (vip_of offset) nodes = true).

Definition skipped_range (nodes : list Node.t) (lo hi : Z) : Prop :=
  ∀ o, lo <= o < hi → skipped nodes o.

Lemma skipped_range_extend nodes lo hi :
  skipped nodes lo → skipped_range nodes (lo + 1) hi → skipped_range nodes lo hi.
Proof. intros H Hr o Ho. destruct (decide (o = lo)) as [->|]; [done|apply Hr; lia]. Qed.

(** What the loop did, in each of its three ends. *)
Definition probe_result (probes : Z) (a : allocator) (r : outcome vip) (a' : allocator) : Prop :=
  let lo := overlay_vip_seq a in
  allocated a' = allocated a ∧
  match r with
  | Ok v => ∃ offset, lo <= offset < lo + probes ∧ overlay_vip_seq a' = offset + 1 ∧ in_pool offset ∧
      v = vip_of offset ∧ usable (vipFromOffset offset) = true ∧
      isVipTaken v (allocated a) = false ∧ skipped_range (allocated a) lo offset
  | Throw st _ =>
      (st = Some 503 ∧ ∃ offset, lo <= offset < lo + probes ∧ overlay_vip_seq a' = offset + 1 ∧
         2 ^ 22 <= offset ∧ skipped_range (allocated a) lo offset) ∨
      (st = Some 500 ∧ overlay_vip_seq a' = lo + probes ∧ skipped_range (allocated a) lo (lo + probes))
  end.

Lemma probe_result_skip n a r a' :
  skipped (allocated a) (overlay_vip_seq a) →
  probe_result n (mk_allocator (overlay_vip_seq a + 1) (allocated a)) r a' →
  probe_result (n + 1) a r a'.
Proof.
  intros Hs [Ha H]. split; [exact Ha|]. simpl in H. destruct r as [v|st msg].
  - destruct H as (o & Ho & Hseq & Hp & Hv & Hu & Ht & Hr). exists o.
    split_and!; auto; try lia. by apply skipped_range_extend.
  - destruct H as [(-> & o & Ho & Hseq & Hp & Hr)|(-> & Hseq & Hr)]; [left|right].
    + split; [done|]. exists o. split_and!; auto; try lia. by apply skipped_range_extend.
    + split; [done|]. split; [lia|]. apply skipped_range_extend; [done|].
      by replace (overlay_vip_seq a + (n + 1)) with (overlay_vip_seq a + 1 + n) by lia.
Qed.

Lemma probe_loop_spec n a :
  0 <= overlay_vip_seq a → probe_result (Z.of_nat n) a (probe_loop n a).1 (probe_loop n a).2.
Proof.
  revert a. induction n as [|n IH]; intros a Ha.
  - split; [done|]. right. split; [done|]. split; [simpl; lia|]. intros o Ho. simpl in Ho. lia.
  - cbn [probe_loop]. unfold eff_bind, nextval. rewrite Nat2Z.inj_succ, <- Z.add_1_r.
    destruct (exhausted (vipFromOffset (overlay_vip_seq a))) eqn:Ee.
    + split; [done|]. left. split; [done|]. exists (overlay_vip_seq a).
      split; [lia|]. split; [done|]. split; [|intros o Ho; lia]. unfold vipFromOffset, vip_o2 in Ee. simpl in Ee. b2p. dlia.
    + apply exhausted_pool in Ee; [|done].
      pose proof (IH (mk_allocator (overlay_vip_seq a + 1) (allocated a)) ltac:(simpl; lia)) as IH'.
      destruct (usable (vipFromOffset (overlay_vip_seq a))) eqn:Eu; cbn [negb].
      * unfold get. destruct (isVipTaken _ _) eqn:Et.
        -- apply probe_result_skip; [|exact IH']. split; [done|by right].
        -- split; [done|]. exists (overlay_vip_seq a). split_and!; auto; try lia. intros o Ho. lia.
      * apply probe_result_skip; [|exact IH']. split; [done|by left].
Qed.

(** Allocation from the counter.  On success the address pair is that of
    the first offset from the counter that is usable and free: it lies in
    100.64.0.0/10, its last octet is neither 0 nor 255, and no node holds either
    half.  A 503 means the counter ran past the pool, a 500 that all 256 offsets
    it probed were unusable or taken; nothing else is thrown, and the counter
    always moves forward. *)
Theorem allocateNextVip_spec a :
  0 <= overlay_vip_seq a →
  let '(r, a') := allocateNextVip a in
  let lo := overlay_vip_seq a in
  lo < overlay_vip_seq a' <= lo + 256 ∧ allocated a' = allocated a ∧
  match r with
  | Ok v => ∃ offset, lo <= offset ∧ overlay_vip_seq a' = offset + 1 ∧ v = vip_of offset ∧
      cidrContains "100.64.0.0/10" (overlayIpv4 v) = true ∧ vip_o4 offset ≠ 0 ∧ vip_o4 offset ≠ 255 ∧
      (∀ n, n ∈ allocated a → Node.overlay_ipv4 n ≠ overlayIpv4 v ∧ Node.overlay_ipv6 n ≠ overlayIpv6 v) ∧
      skipped_range (allocated a) lo offset
  | Throw st _ =>
      (st = Some 503 ∧ 2 ^ 22 < overlay_vip_seq a') ∨
      (st = Some 500 ∧ skipped_range (allocated a) lo (lo + 256))
  end.
Proof.
  intros H. pose proof (probe_loop_spec MAX_OFFSET_PROBES a H) as Hs. unfold allocateNextVip.
  destruct (probe_loop MAX_OFFSET_PROBES a) as [r a']. cbn [fst snd] in Hs. destruct Hs as [Hal Hs].
  change (Z.of_nat MAX_OFFSET_PROBES) with 256 in Hs. destruct r as [v|st msg].
  - destruct Hs as (o & Ho & Hseq & Hp & -> & Hu & Ht & Hr). split; [lia|]. split; [done|].
    exists o. unfold vipFromOffset in Hu. simpl in Hu. b2p.
    split_and!; auto; try lia; [by apply vip_in_cidr|by apply isVipTaken_false].
  - destruct Hs as [(-> & o & Ho & Hseq & Hp & Hr)|(-> & Hseq & Hr)].
    + split; [lia|]. split; [done|]. left. split; [done|lia].
    + split; [lia|]. split; [done|]. by right.
Qed.

Lemma allocateNextVip_spec_witness :
  overlayIpv4 (vip_of 257) = "100.64.1.1" ∧ cidrContains "100.64.0.0/10" (overlayIpv4 (vip_of 257)) = true.
Proof.
  split; [vm_compute; reflexivity|].
  assert (allocateNextVip (mk_allocator 255 []) = (Ok (vip_of 257), mk_allocator 258 [])) as E
    by (vm_compute; reflexivity).
  assert (0 <= overlay_vip_seq (mk_allocator 255 [])) as H0 by (simpl; lia).
  generalize (allocateNextVip_spec (mk_allocator 255 []) H0). rewrite E.
  intros (_ & _ & o & _ & _ & _ & Hc & _). exact Hc.
Defined.

Lemma allocateNextVip_ok a v a' :
  0 <= overlay_vip_seq a → allocateNextVip a = (Ok v, a') →
  ∃ o, overlay_vip_seq a <= o ∧ overlay_vip_seq a' = o + 1 ∧ in_pool o ∧ v = vip_of o.
Proof.
  intros H. pose proof (probe_loop_spec MAX_OFFSET_PROBES a H) as Hs. unfold allocateNextVip.
  generalize dependent (probe_loop MAX_OFFSET_PROBES a). intros p Hs ->. destruct Hs as [_ Hs].
  cbn [fst] in Hs. destruct Hs as (o & Ho & Hseq & Hp & Hv & _). exists o. split; [lia|done].
Qed.

(** Two allocations never collide.  Whatever nodes are stored in between, and
    whether or not the first address was ever stored, an allocation that starts
    from a later counter gives another IPv4 and another IPv6 address. *)
Theorem allocations_distinct a b v w a' b' :
  0 <= overlay_vip_seq a → allocateNextVip a = (Ok v, a') →
  overlay_vip_seq a' <= overlay_vip_seq b → allocateNextVip b = (Ok w, b') →
  overlayIpv4 v ≠ overlayIpv4 w ∧ overlayIpv6 v ≠ overlayIpv6 w.
Proof.
  intros Ha Ea Hab Eb.
  destruct (allocateNextVip_ok a v a' Ha Ea) as (o & Ho & Hseq & Hp & ->).
  destruct (allocateNextVip_ok b w b' ltac:(lia) Eb) as (o' & Ho' & _ & Hp' & ->).
  split; intros E; [apply vip_of_inj4 in E|apply vip_of_inj6 in E]; try done; lia.
Qed.

Lemma allocations_distinct_witness :
  overlayIpv4 (vip_of 1) ≠ overlayIpv4 (vip_of 2) ∧ overlayIpv6 (vip_of 1) ≠ overlayIpv6 (vip_of 2).
Proof.
  apply (allocations_distinct (mk_allocator 1 []) (mk_allocator 2 []) (vip_of 1) (vip_of 2)
    (mk_allocator 2 []) (mk_allocator 3 [])); [simpl; lia|vm_compute; reflexivity|simpl; lia|
    vm_compute; reflexivity].
Defined.

(** The address pair of [offset] is one the scan may hand out. *)
Definition assignable (used4 used6 : list string) (offset : Z) : Prop :=
  vip_o4 offset ≠ 0 ∧ vip_o4 offset ≠ 255 ∧
  (overlayIpv4 (vip_of offset) ∉ used4) ∧ (overlayIpv6 (vip_of offset) ∉ used6).

Lemma alloc_loop_spec fuel used4 used6 offset :
  0 <= offset → 4194300 - offset <= Z.of_nat fuel →
  match alloc_loop fuel used4 used6 offset with
  | Some v => ∃ o, offset <= o < 4194300 ∧ v = vip_of o ∧ assignable used4 used6 o ∧
                   ∀ o', offset <= o' < o → ¬ assignable used4 used6 o'
  | None => ∀ o, offset <= o < 4194300 → ¬ assignable used4 used6 o
  end.
Proof.
  revert offset. induction fuel as [|f IH]; intros offset H0 Hf; cbn [alloc_loop].
  - intros o Ho. lia.
  - destruct (4194300 <=? offset) eqn:Eo; b2p; [intros o Ho; lia|].
    assert ((128 <=? vip_o2 offset) = false) as -> by (unfold vip_o2; dlia).
    specialize (IH (offset + 1) ltac:(lia) ltac:(lia)).
    assert (¬ assignable used4 used6 offset →
      match alloc_loop f used4 used6 (offset + 1) with
      | Some v => ∃ o, offset <= o < 4194300 ∧ v = vip_of o ∧ assignable used4 used6 o ∧
                       ∀ o', offset <= o' < o → ¬ assignable used4 used6 o'
      | None => ∀ o, offset <= o < 4194300 → ¬ assignable used4 used6 o
      end) as Hskip.
    { intros Hn. destruct (alloc_loop f used4 used6 (offset + 1)) as [v|].
      - destruct IH as (o & Ho & Hv & Ha & Hmin). exists o. split; [lia|]. split; [done|]. split; [done|].
        intros o' Ho'. destruct (decide (o' = offset)) as [->|]; [done|apply Hmin; lia].
      - intros o Ho. destruct (decide (o = offset)) as [->|]; [done|apply IH; lia]. }
    destruct ((vip_o4 offset =? 0) || (vip_o4 offset =? 255)) eqn:E4.
    + apply Hskip. intros (? & ? & _). b2p. destruct E4; b2p; lia.
    + b2p. destruct (bool_decide (_ ∉ used4) && _) eqn:Eu; b2p.
      * exists offset. split; [lia|]. split; [done|]. split; [by split_and!|]. intros o' Ho'. lia.
      * apply Hskip. intros (_ & _ & ? & ?). destruct Eu as [Eu|Eu]; b2p; done.
Qed.

(** Allocation by scanning returns the lowest free pair.  Against the
    addresses of the rows, trimmed and with the IPv6 half lower-cased, it gives
    the pair of the smallest offset from 1 whose last octet is neither 0 nor 255
    and whose two halves are both unused, and it throws 503 exactly when no
    offset of the pool is free; the loop always ends. *)
Theorem allocateVipFromRows_lowest rows :
  let used4 := used_set trim (rows.*1) in
  let used6 := used_set (λ s, toLowerCase (trim s)) (rows.*2) in
  match allocateVipFromRows rows with
  | Ok v => ∃ o, 1 <= o < 4194300 ∧ v = vip_of o ∧ assignable used4 used6 o ∧
                 ∀ o', 1 <= o' < o → ¬ assignable used4 used6 o'
  | Throw st _ => st = Some 503 ∧ ∀ o, 1 <= o < 4194300 → ¬ assignable used4 used6 o
  end.
Proof.
  unfold allocateVipFromRows. cbv zeta. set (used4 := used_set trim _). set (used6 := used_set _ (rows.*2)).
  pose proof (alloc_loop_spec (Z.to_nat 4194300) used4 used6 1 ltac:(lia)) as H.
  rewrite Z2Nat.id in H by lia. specialize (H ltac:(lia)).
  generalize dependent (alloc_loop (Z.to_nat 4194300) used4 used6 1). intros [v|] H; [exact H|].
  by split.
Qed.

(** ** Public keys *)

Definition is_key (k : list Z) : Prop := length k = 32%nat ∧ Forall (λ b, 0 <= b < 256) k.

Lemma hex_char_props v :
  0 <= v < 16 → is_hex (hex_digit v) = true ∧ is_space (hex_digit v) = false ∧
                lower_char (hex_digit v) = hex_digit v.
Proof.
  apply (upto_forall (λ v, is_hex (hex_digit v) = true ∧ is_space (hex_digit v) = false ∧
    lower_char (hex_digit v) = hex_digit v) 16). vm_compute. reflexivity.
Qed.

Lemma hex_encode_chars l :
  Forall (λ b, 0 <= b < 256) l →
  len (hex_encode l) = 2 * Z.of_nat (length l) ∧ all_chars is_hex (hex_encode l) = true ∧
  no_space (hex_encode l) = true ∧ toLowerCase (hex_encode l) = hex_encode l.
Proof.
  induction 1 as [|b l Hb Hl IH]; [done|]. destruct IH as (I1 & I2 & I3 & I4).
  destruct (hex_char_props (b / 16) ltac:(dlia)) as (A1 & A2 & A3).
  destruct (hex_char_props (b mod 16) ltac:(dlia)) as (B1 & B2 & B3).
  unfold len, no_space, toLowerCase in *. cbn [hex_encode String.length all_chars map_string length].
  rewrite A1, A2, A3, B1, B2, B3, I2, I3, I4. repeat split. lia.
Qed.

Lemma b64_char_props v :
  0 <= v < 64 → is_b64 (b64_char v) = true ∧ is_space (b64_char v) = false.
Proof.
  apply (upto_forall (λ v, is_b64 (b64_char v) = true ∧ is_space (b64_char v) = false) 64).
  vm_compute. reflexivity.
Qed.

(** The base64 text of a buffer, without its padding, is made of the alphabet. *)
Lemma b64_encode_chars l :
  Forall (λ b, 0 <= b < 256) l →
  no_space (b64_encode l) = true ∧
  (Z.of_nat (length l) mod 3 = 2 →
   ∃ t, b64_encode l = t +:+ "=" ∧ all_chars is_b64 t = true).
Proof.
  induction l as [|a|a b|a b c r IH] using list3_ind; intros H; repeat (apply Forall_cons in H as [? H]).
  - split; [done|]. intros E. vm_compute in E. discriminate E.
  - destruct (b64_char_props (a / 4) ltac:(dlia)) as [A1 A2].
    destruct (b64_char_props ((a mod 4) * 16) ltac:(dlia)) as [B1 B2].
    unfold no_space. cbn [b64_encode all_chars]. rewrite A2, B2. split; [done|]. intros E. vm_compute in E. discriminate E.
  - destruct (b64_char_props (a / 4) ltac:(dlia)) as [A1 A2].
    destruct (b64_char_props ((a mod 4) * 16 + b / 16) ltac:(dlia)) as [B1 B2].
    destruct (b64_char_props ((b mod 16) * 4) ltac:(dlia)) as [C1 C2].
    unfold no_space. cbn [b64_encode all_chars]. rewrite A2, B2, C2. split; [done|]. intros _.
    exists (String (b64_char (a / 4)) (String (b64_char ((a mod 4) * 16 + b / 16)) (str1 (b64_char ((b mod 16) * 4))))).
    split; [done|]. unfold str1. cbn [all_chars]. by rewrite A1, B1, C1.
  - destruct (IH H) as [I1 I2].
    destruct (b64_char_props (a / 4) ltac:(dlia)) as [A1 A2].
    destruct (b64_char_props ((a mod 4) * 16 + b / 16) ltac:(dlia)) as [B1 B2].
    destruct (b64_char_props ((b mod 16) * 4 + c / 64) ltac:(dlia)) as [C1 C2].
    destruct (b64_char_props (c mod 64) ltac:(dlia)) as [D1 D2].
    unfold no_space in *. cbn [b64_encode all_chars]. rewrite A2, B2, C2, D2, I1. split; [done|].
    cbn [length]. rewrite !Nat2Z.inj_succ. intros Hm. destruct I2 as (t & Et & Ht); [dlia|].
    exists (String (b64_char (a / 4)) (String (b64_char ((a mod 4) * 16 + b / 16))
      (String (b64_char ((b mod 16) * 4 + c / 64)) (String (b64_char (c mod 64)) t)))).
    rewrite !append_cons, Et. split; [done|]. cbn [all_chars]. by rewrite A1, B1, C1, D1, Ht.
Qed.

Lemma take_drop_app s t :
  take_string (String.length s) (s +:+ t) = s ∧ drop_string (String.length s) (s +:+ t) = t.
Proof.
  induction s as [|c s [IH1 IH2]]; [by rewrite append_nil_l; destruct t|].
  rewrite append_cons. cbn [String.length take_string drop_string]. by rewrite IH1, IH2.
Qed.

Lemma string_length_app s t : String.length (s +:+ t) = (String.length s + String.length t)%nat.
Proof. induction s as [|c s IH]; [by rewrite append_nil_l|]. rewrite append_cons. simpl. by rewrite IH. Qed.

Lemma normalise_hex k : is_key k → normalisePublicKeyHex (hex_encode k) = Some (hex_encode k).
Proof.
  intros [Hl Hf]. destruct (hex_encode_chars k Hf) as (E1 & E2 & E3 & E4).
  unfold normalisePublicKeyHex. rewrite trim_no_space, E1, Hl, E2, E4 by done. done.
Qed.

Lemma normalise_base64 k : is_key k → normalisePublicKeyHex (b64_encode k) = Some (hex_encode k).
Proof.
  intros [Hl Hf]. destruct (b64_encode_chars k Hf) as (E1 & E2).
  destruct E2 as (t & Et & Ht); [by rewrite Hl|].
  assert (len (b64_encode k) = 44) as El by (by rewrite b64_encode_length, Hl).
  assert (String.length t = 43%nat) as Hlt.
  { rewrite Et in El. unfold len in El. rewrite string_length_app in El. simpl in El. lia. }
  destruct (take_drop_app t "=") as [E3 E4]. rewrite Hlt in E3, E4.
  unfold normalisePublicKeyHex. rewrite trim_no_space, El by done. cbn [Z.eqb Pos.eqb andb].
  rewrite Et, E3, E4, Ht, <- Et, b64_roundtrip by done. cbn [andb String.eqb]. by rewrite Hl.
Qed.

(** The two encodings of a public key meet: hexadecimal as Go nodes register
    it and base64 as the console mints it both normalise to the same 64
    lower-case hexadecimal digits, different keys stay different, and
    normalising again changes nothing. *)
Theorem normalisePublicKeyHex_encodings k :
  is_key k →
  normalisePublicKeyHex (hex_encode k) = Some (hex_encode k) ∧
  normalisePublicKeyHex (b64_encode k) = Some (hex_encode k) ∧
  (∀ k', is_key k' → normalisePublicKeyHex (b64_encode k') = normalisePublicKeyHex (hex_encode k) → k' = k).
Proof.
  intros Hk. split; [by apply normalise_hex|]. split; [by apply normalise_base64|].
  intros k' Hk'. rewrite normalise_hex, normalise_base64 by done. intros [= E].
  by apply hex_encode_inj in E; [|apply Hk'|apply Hk].
Qed.

Lemma normalisePublicKeyHex_encodings_witness :
  normalisePublicKeyHex (b64_encode (replicate 32 7)) = Some (hex_encode (replicate 32 7)).
Proof.
  apply (normalisePublicKeyHex_encodings (replicate 32 7)). split; [reflexivity|].
  repeat constructor; lia.
Defined.
