(* ===== verification/Acl.v ===== *)
(** * Access control: [services/AclEngine.js]

    Rules are written against CIDRs; a node enforces entries that name one peer
    address each.  [Acl.compileFor] is the expansion, [Acl.simulatePacket] the
    console's simulator, [PkgAcl.evaluate] the node's own reading of the entries
    ([pkg/acl/netfilter.go]: the first entry that matches decides, and nothing
    matching is a denial).  Request bodies are those whose fields are scalars. *)

From S2P Require Import Prelude Order Js Cidr Db.

Module Entry.
Record port_range := mk_range { start : Z; end_ : Z }.
Record t := mk {
  allowed_peer_vip : string; protocol : string; port_ranges : list port_range;
  action : string; is_directional : bool; rule_id : option string;
}.
End Entry.

Module Policy.
Record t := mk {
  node_id : string; overlay_ipv4 : string;
  inbound_rules : list Entry.t; outbound_rules : list Entry.t; epoch : Z;
}.
End Policy.

Module Acl.
Definition DEFAULT_ORG : string := "org-default".

(** ** Epochs *)

Definition getEpoch (name : string) (d : Db.t) : Z := default 1 (Db.mesh_epochs d !! name).

Definition bump (name : string) (d : Db.t) : Db.t :=
  d <| Db.mesh_epochs ::= alter Z.succ name |>.

Definition bumpEpoch (name : string) : eff Db.t Z :=
  modify (bump name) ;!
  (if (name =? "netmap")%string then eff_ret tt else modify (bump "netmap")) ;!
  d <-! get ;
  eff_ret (getEpoch name d).

Definition bumpNetmap : eff Db.t Z := bumpEpoch "netmap".

(** ** Scope of a node *)

Definition org_of (n : Node.t) : string := coalesce (Node.organization_id n) DEFAULT_ORG.

Definition EFFECTIVE_COMPARTMENT (n : Node.t) : string :=
  coalesce (Node.compartment_id n) ("cmp-" +:+ org_of n).

Record scope := mk_scope {
  s_id : string; s_overlay_ipv4 : string; s_organization_id : string;
  s_compartment_id : string; s_default_policy : option string;
}.

(** The row the query builds for a node, with its organisation joined. *)
Definition scope_row (d : Db.t) (n : Node.t) : scope :=
  mk_scope (Node.id n) (Node.overlay_ipv4 n) (org_of n) (EFFECTIVE_COMPARTMENT n)
    (Org.default_policy <$> select1 (λ o, (Org.id o =? org_of n)%string) (Db.organizations d)).

Definition nodeScope (nodeId : string) (d : Db.t) : option scope :=
  scope_row d <$> select1 (λ n, (Node.id n =? nodeId)%string) (Db.nodes d).

Definition nodeOrganization (nodeId : string) (d : Db.t) : option string :=
  s_organization_id <$> nodeScope nodeId d.

(** An "allow" peering between two compartments, in either direction. *)
Definition peered (d : Db.t) (a b : string) : bool :=
  existsb (λ p, (Peering.policy p =? "allow")%string &&
    (((Peering.src_compartment_id p =? a)%string && (Peering.dst_compartment_id p =? b)%string)
     || ((Peering.dst_compartment_id p =? a)%string && (Peering.src_compartment_id p =? b)%string)))
    (Db.compartment_peerings d).

(** ** Rules *)

Definition enabled_rules (d : Db.t) : list Rule.t := where_ Rule.enabled (Db.acl_rules d).

Definition opensByDefault (rules : list Rule.t) (defaultPolicy : option string) : bool :=
  if negb (opt_is defaultPolicy "open") then false
  else negb (existsb (λ r, (toUpperCase (Rule.action r) =? "ACCEPT")%string) rules).

(** [.toUpperCase()] of a value that is not a string throws a TypeError. *)
Definition to_upper (v : jsval) : eff Db.t string :=
  match v with JStr s => eff_ret (toUpperCase s) | _ => throw None "TypeError" end.

Definition valid_cidr (v : jsval) : bool :=
  match parseCidr (js_String (js_or v (JStr ""))) with Some _ => true | None => false end.

Definition check_cidrs (vs : list jsval) : eff Db.t unit :=
  match where_ (λ v, negb (valid_cidr v)) vs with
  | v :: _ => throw (Some 400) ("invalid CIDR: " +:+ js_String v)
  | [] => eff_ret tt
  end.

(** The CHECK and FOREIGN KEY constraints of [acl_rules]. *)
Definition rule_row_ok (d : Db.t) (r : Rule.t) : bool :=
  bool_decide (Rule.protocol r ∈ ["TCP"; "UDP"; "ICMP"; "ALL"]) &&
  bool_decide (Rule.action r ∈ ["ACCEPT"; "DROP"]) &&
  match Rule.organization_id r with
  | Some o => existsb (λ x, (Org.id x =? o)%string) (Db.organizations d)
  | None => true
  end.

Definition insert_rule (r : Rule.t) : eff Db.t unit :=
  d <-! get ;
  if rule_row_ok d r && negb (existsb (λ x, (Rule.id x =? Rule.id r)%string) (Db.acl_rules d))
  then modify (λ d, d <| Db.acl_rules ::= λ l, l ++ [r] |>)
  else db_error.

(** [isFinite(Number(v)) ? Number(v) : 65535]. *)
Definition port_end_of (v : jsval) : num :=
  if isFinite (js_Number v) then js_Number v else of_Z 65535.

Definition createRule (random : string) (rule : jsval) (organizationId : option string) :
    eff Db.t string :=
  let id := js_or (field "id" rule) (JStr ("acl-" +:+ random)) in
  let priority := num_or (js_Number (field "priority" rule)) (of_Z 100) in
  let source := js_or (field "source_cidr" rule) (JStr "0.0.0.0/0") in
  let destination := js_or (field "destination_cidr" rule) (JStr "0.0.0.0/0") in
  protocol <-! to_upper (js_or (field "protocol" rule) (JStr "ALL")) ;
  let port_start := num_or (js_Number (field "port_start" rule)) (of_Z 0) in
  let port_end := port_end_of (field "port_end" rule) in
  action <-! to_upper (js_or (field "action" rule) (JStr "ACCEPT")) ;
  let description := js_or (field "description" rule) (JStr "") in
  check_cidrs [source; destination] ;!
  r <-! or_db_error (
    id ← pg_text 64 id; priority ← pg_int priority;
    source ← pg_text 64 source; destination ← pg_text 64 destination;
    port_start ← pg_int port_start; port_end ← pg_int port_end;
    description ← pg_text text_limit description;
    Some (Rule.mk id priority source destination protocol port_start port_end action
            description true organizationId)) ;
  insert_rule r ;!
  bumpEpoch "acl" ;!
  eff_ret (js_String id).

Definition deleteRule (id : string) : eff Db.t Z :=
  modify (λ d, d <| Db.acl_rules ::= delete_where (λ r, (Rule.id r =? id)%string) |>) ;!
  bumpEpoch "acl".

Definition find_rule (id : string) (d : Db.t) : option Rule.t :=
  select1 (λ r, (Rule.id r =? id)%string) (Db.acl_rules d).

(** [updates.f !== undefined ? updates.f : existing.f]. *)
Definition updated (f : string) (updates : jsval) (existing : jsval) : jsval :=
  if is_undef (field f updates) then existing else field f updates.

Definition updateRule (id : string) (updates : jsval) : eff Db.t (option Rule.t) :=
  d <-! get ;
  match find_rule id d with
  | None => eff_ret None
  | Some existing =>
      let num_field f (v : Z) := js_Number (updated f updates (JNum (of_Z v))) in
      let priority := num_field "priority" (Rule.priority existing) in
      let source := updated "source_cidr" updates (JStr (Rule.source_cidr existing)) in
      let destination := updated "destination_cidr" updates (JStr (Rule.destination_cidr existing)) in
      protocol <-! to_upper (updated "protocol" updates (JStr (Rule.protocol existing))) ;
      let port_start := num_field "port_start" (Rule.port_start existing) in
      let port_end := num_field "port_end" (Rule.port_end existing) in
      action <-! to_upper (updated "action" updates (JStr (Rule.action existing))) ;
      let description := updated "description" updates (JStr (Rule.description existing)) in
      let enabled := truthy (updated "enabled" updates (JBool (Rule.enabled existing))) in
      check_cidrs [source; destination] ;!
      r <-! or_db_error (
        priority ← pg_int priority;
        source ← pg_text 64 source; destination ← pg_text 64 destination;
        port_start ← pg_int port_start; port_end ← pg_int port_end;
        description ← pg_text text_limit description;
        Some (Rule.mk (Rule.id existing) priority source destination protocol port_start port_end
                action description enabled (Rule.organization_id existing))) ;
      if rule_row_ok d r then
        modify (λ d, d <| Db.acl_rules ::= update_where (λ x, (Rule.id x =? id)%string) (λ _, r) |>) ;!
        bumpEpoch "acl" ;!
        d' <-! get ;
        eff_ret (find_rule id d')
      else db_error
  end.

(** ** Compilation *)

Definition allowAll (peerVip : string) : Entry.t :=
  Entry.mk peerVip "ALL" [Entry.mk_range 0 65535] "ACCEPT" false None.

(** [Number(rule.port_end) || 65535]. *)
Definition compiled_range (r : Rule.t) : Entry.port_range :=
  Entry.mk_range (Rule.port_start r) (if Rule.port_end r =? 0 then 65535 else Rule.port_end r).

Definition compiled_entry (tagged : bool) (r : Rule.t) (vip : string) : Entry.t :=
  Entry.mk vip (Rule.protocol r) [compiled_range r] (Rule.action r) true
    (if tagged then Some (Rule.id r) else None).

(** One direction: the entries of a rule for the peers [covers] selects. *)
Definition expand (tagged : bool) (covers : Rule.t → string → bool) (rules : list Rule.t)
    (peers : list Node.t) : list Entry.t :=
  rules ≫= λ r, peers ≫= λ p,
    if covers r (Node.overlay_ipv4 p) then [compiled_entry tagged r (Node.overlay_ipv4 p)] else [].

Definition covers_outbound (self : string) (r : Rule.t) (peer : string) : bool :=
  cidrContains (Rule.source_cidr r) self && cidrContains (Rule.destination_cidr r) peer.
Definition covers_inbound (self : string) (r : Rule.t) (peer : string) : bool :=
  cidrContains (Rule.source_cidr r) peer && cidrContains (Rule.destination_cidr r) self.

Section WithCollation.
Context {Coll : Collation}.

(** [ORDER BY priority ASC, id ASC]. *)
Definition rule_order : Rule.t → Rule.t → Z :=
  cmp_lex (cmp_on Rule.priority cmp_Z) (cmp_on Rule.id collate).

(** [None]: called without an organisation. [Some None]: called with null. *)
Definition listRules (organizationId : option (option string)) (d : Db.t) : list Rule.t :=
  js_sort rule_order
    (where_ (λ r, Rule.enabled r &&
       match organizationId with
       | None => true
       | Some o => some_eqb (Rule.organization_id r) o ||
                   match Rule.organization_id r with None => true | Some _ => false end
       end) (Db.acl_rules d)).

(** The candidate peers: same organisation, not quarantined, in the same
    compartment or in one joined by an "allow" peering. *)
Definition is_peer (d : Db.t) (self : scope) (n : Node.t) : bool :=
  negb (Node.id n =? s_id self)%string && negb (Node.is_quarantined n) &&
  (org_of n =? s_organization_id self)%string &&
  ((EFFECTIVE_COMPARTMENT n =? s_compartment_id self)%string
   || peered d (s_compartment_id self) (EFFECTIVE_COMPARTMENT n)).

Definition policy_peers (d : Db.t) (self : scope) : list Node.t :=
  js_sort (cmp_on Node.id collate) (where_ (is_peer d self) (Db.nodes d)).

Definition candidate_order : Rule.t → Rule.t → Z :=
  cmp_on (λ r, if Rule.priority r =? 0 then 100 else Rule.priority r) cmp_Z.

Definition with_candidate (candidateRule : option Rule.t) (rules : list Rule.t) : list Rule.t :=
  match candidateRule with
  | None => rules
  | Some c =>
      let rules := where_ (λ r, negb (Rule.id r =? Rule.id c)%string) rules in
      js_sort candidate_order (if Rule.enabled c then rules ++ [c] else rules)
  end.

Definition compileFor (nodeId : string) (candidateRule : option Rule.t) (d : Db.t) :
    option Policy.t :=
  self ← nodeScope nodeId d;
  let peers := policy_peers d self in
  let vips := Node.overlay_ipv4 <$> peers in
  let rules := with_candidate candidateRule (listRules (Some (Some (s_organization_id self))) d) in
  let epoch := getEpoch "acl" d in
  let tagged := match candidateRule with Some _ => true | None => false end in
  let me := s_overlay_ipv4 self in
  match rules with
  | [] =>
      let open := opt_is (s_default_policy self) "open" in
      Some (Policy.mk (s_id self) me (if open then allowAll <$> vips else [])
              (if open then allowAll <$> vips else []) epoch)
  | _ =>
      let tail := if opensByDefault rules (s_default_policy self) then allowAll <$> vips else [] in
      Some (Policy.mk (s_id self) me (expand tagged (covers_inbound me) rules peers ++ tail)
              (expand tagged (covers_outbound me) rules peers ++ tail) epoch)
  end.

Definition compilePolicyFor (nodeId : string) (d : Db.t) : option Policy.t :=
  compileFor nodeId None d.

(** ** Simulation *)

Definition is_hidden_compartment (d : Db.t) (c : string) : bool :=
  existsb (λ x, (Compartment.id x =? c)%string && Compartment.is_hidden x) (Db.compartments d).

(** [organizationId || DEFAULT_ORG]. *)
Definition org_or_default (o : option (option string)) : string :=
  match o with Some (Some s) => if (s =? "")%string then DEFAULT_ORG else s | _ => DEFAULT_ORG end.

Definition compartmentsConnected (organizationId : option (option string))
    (vipA vipB accessTier : string) (d : Db.t) : option bool :=
  let org := org_or_default organizationId in
  let rows := where_ (λ n, (org_of n =? org)%string &&
    ((Node.overlay_ipv4 n =? vipA)%string || (Node.overlay_ipv4 n =? vipB)%string)) (Db.nodes d) in
  let visible n := (accessTier =? "root")%string ||
                   negb (is_hidden_compartment d (EFFECTIVE_COMPARTMENT n)) in
  let find vip := select1 (λ n, (Node.overlay_ipv4 n =? vip)%string && visible n) rows in
  a ← find vipA; b ← find vipB;
  let ca := EFFECTIVE_COMPARTMENT a in
  let cb := EFFECTIVE_COMPARTMENT b in
  Some (if (ca =? cb)%string then true else peered d ca cb).

Inductive sim_reason :=
  | NotConnected | Matched (r : Rule.t)
  | NoRulesOpen | NoRulesDeny | NoMatchOpen | NoMatchDeny.

Record sim_result := mk_sim {
  verdict : string; matched_rule : option Rule.t; reason : sim_reason;
  packet : string * string * string * num;
}.

(** The tests a rule passes to be the one that decides a packet. *)
Definition sim_matches (source_ip destination_ip proto : string) (portNum : num) (r : Rule.t) : bool :=
  let ruleProto := toUpperCase (if (Rule.protocol r =? "")%string then "ALL" else Rule.protocol r) in
  Rule.enabled r &&
  cidrContains (Rule.source_cidr r) source_ip &&
  cidrContains (Rule.destination_cidr r) destination_ip &&
  negb (negb (ruleProto =? "ALL")%string && negb (proto =? "ALL")%string &&
        negb (ruleProto =? proto)%string) &&
  negb (num_ltb portNum (of_Z (Rule.port_start r)) || num_ltb (of_Z (Rule.port_end r)) portNum).

Definition simulatePacket (source_ip destination_ip protocol : string) (port : num)
    (defaultPolicy : option string) (organizationId : option (option string))
    (accessTier : string) (d : Db.t) : sim_result :=
  let rules := listRules organizationId d in
  let proto := toUpperCase protocol in
  let portNum := num_or port (of_Z 0) in
  let pkt := (source_ip, destination_ip, proto, portNum) in
  match compartmentsConnected organizationId source_ip destination_ip accessTier d with
  | Some false => mk_sim "DROP" None NotConnected pkt
  | _ =>
      match select1 (sim_matches source_ip destination_ip proto portNum) rules with
      | Some r => mk_sim (Rule.action r) (Some r) (Matched r) pkt
      | None =>
          let open := opensByDefault rules defaultPolicy in
          mk_sim (if open then "ACCEPT" else "DROP") None
            (match rules with
             | [] => if open then NoRulesOpen else NoRulesDeny
             | _ => if open then NoMatchOpen else NoMatchDeny
             end) pkt
      end
  end.
End WithCollation.
End Acl.

(** ** What a node does with the entries: [pkg/acl/netfilter.go] *)
Module PkgAcl.
Definition range_matches (port : Z) (pr : Entry.port_range) : bool :=
  (Entry.start pr <=? port) && (port <=? Entry.end_ pr).

Definition entry_matches (vip proto : string) (port : Z) (e : Entry.t) : bool :=
  (Entry.allowed_peer_vip e =? vip)%string &&
  ((Entry.protocol e =? "ALL")%string || (Entry.protocol e =? proto)%string) &&
  existsb (range_matches port) (Entry.port_ranges e).

(** [true] when the packet is let through: the first match decides, and an
    action other than ACCEPT, or no match at all, refuses. *)
Fixpoint evaluate (rules : list Entry.t) (vip proto : string) (port : Z) : bool :=
  match rules with
  | [] => false
  | e :: rest =>
      if entry_matches vip proto port e then (Entry.action e =? "ACCEPT")%string
      else evaluate rest vip proto port
  end.
End PkgAcl.

(** ** Lemmas *)
Module AclFacts.
Import Acl PkgAcl.

Lemma getEpoch_bump_same name d :
  is_Some (Db.mesh_epochs d !! name) → getEpoch name (bump name d) = getEpoch name d + 1.
Proof. intros [v Hv]. unfold getEpoch, bump. cbn. rewrite lookup_alter_eq, Hv. simpl. lia. Qed.

Lemma getEpoch_bump_other name name' d :
  name ≠ name' → getEpoch name (bump name' d) = getEpoch name d.
Proof. intros H. unfold getEpoch, bump. cbn. by rewrite lookup_alter_ne. Qed.

Lemma bump_some name name' d :
  is_Some (Db.mesh_epochs d !! name) → is_Some (Db.mesh_epochs (bump name' d) !! name).
Proof.
  intros [v Hv]. unfold bump. cbn. destruct (decide (name' = name)) as [->|].
  - rewrite lookup_alter_eq, Hv. by eexists.
  - rewrite lookup_alter_ne by done. by eexists.
Qed.

Lemma bumpEpoch_run name d :
  bumpEpoch name d =
    let d' := if (name =? "netmap")%string then bump name d else bump "netmap" (bump name d) in
    (Ok (getEpoch name d'), d').
Proof. unfold bumpEpoch. by destruct (name =? "netmap")%string. Qed.

(** The two counters after a change of policy. *)
Definition advanced (name : string) (d d' : Db.t) : Prop :=
  getEpoch name d' = getEpoch name d + 1 ∧ getEpoch "netmap" d' = getEpoch "netmap" d + 1.

Definition epochs_seeded (d : Db.t) : Prop :=
  is_Some (Db.mesh_epochs d !! "acl") ∧ is_Some (Db.mesh_epochs d !! "routes") ∧
  is_Some (Db.mesh_epochs d !! "netmap").

Lemma bumpEpoch_advances name d :
  epochs_seeded d → name = "acl" ∨ name = "routes" → advanced name d (bumpEpoch name d).2.
Proof.
  intros (Ha & Hr & Hn) Hname. rewrite bumpEpoch_run.
  assert ((name =? "netmap")%string = false) as -> by (by destruct Hname as [->| ->]).
  assert (is_Some (Db.mesh_epochs d !! name)) by (by destruct Hname as [->| ->]).
  assert (name ≠ "netmap") by (by destruct Hname as [->| ->]).
  split; cbn [snd].
  - by rewrite getEpoch_bump_other, getEpoch_bump_same.
  - rewrite getEpoch_bump_same by (by apply bump_some). by rewrite getEpoch_bump_other.
Qed.

Lemma nodeScope_row d n :
  NoDup (Node.id <$> Db.nodes d) → n ∈ Db.nodes d → nodeScope (Node.id n) d = Some (scope_row d n).
Proof.
  intros Hn Hin. unfold nodeScope. rewrite (select1_unique Node.id _ _ n); auto.
  - apply String.eqb_refl.
  - intros y Hy. by b2p.
Qed.

Lemma nodeScope_inv id d s :
  nodeScope id d = Some s → ∃ n, n ∈ Db.nodes d ∧ Node.id n = id ∧ s = scope_row d n.
Proof.
  unfold nodeScope. intros H. apply fmap_Some in H as (n & H & ->).
  apply select1_elem in H as [Hid Hin]. b2p. eauto.
Qed.

Lemma peered_spec d a b :
  peered d a b = true ↔
  ∃ p, p ∈ Db.compartment_peerings d ∧ Peering.policy p = "allow" ∧
       ((Peering.src_compartment_id p = a ∧ Peering.dst_compartment_id p = b) ∨
        (Peering.src_compartment_id p = b ∧ Peering.dst_compartment_id p = a)).
Proof.
  unfold peered. rewrite existsb_exists. setoid_rewrite <- list_elem_of_In.
  split; intros (p & Hin & Hp); exists p; (split; [done|]).
  - apply andb_true_iff in Hp as [Hpol Hp]. apply orb_true_iff in Hp as [Hp|Hp]; b2p; tauto.
  - destruct Hp as (-> & [[-> ->]|[-> ->]]); rewrite !String.eqb_refl; simpl; [done|apply orb_true_r].
Qed.

Lemma peered_sym d a b : peered d a b = peered d b a.
Proof. apply eq_true_iff_eq. rewrite !peered_spec. firstorder. Qed.

(** Two nodes are candidate peers of one another. *)
Lemma is_peer_sym d a b :
  Node.is_quarantined a = false → is_peer d (scope_row d a) b = true →
  is_peer d (scope_row d b) a = true.
Proof.
  unfold is_peer. simpl. intros Hq H.
  rewrite Hq, (String.eqb_sym (Node.id a)), (String.eqb_sym (org_of a)),
    (String.eqb_sym (EFFECTIVE_COMPARTMENT a)), (peered_sym d (EFFECTIVE_COMPARTMENT b)).
  rewrite !andb_true_iff in H |- *. tauto.
Qed.

Lemma evaluate_app l1 l2 vip proto port :
  evaluate (l1 ++ l2) vip proto port =
  match select1 (entry_matches vip proto port) l1 with
  | Some e => (Entry.action e =? "ACCEPT")%string
  | None => evaluate l2 vip proto port
  end.
Proof.
  unfold select1. induction l1 as [|e l IH]; simpl; [done|]. rewrite where_cons.
  by destruct (entry_matches vip proto port e).
Qed.

Lemma select1_app {A} (p : A → bool) l1 l2 :
  select1 p (l1 ++ l2) = match select1 p l1 with Some x => Some x | None => select1 p l2 end.
Proof. unfold select1. rewrite where_app. by destruct (where_ p l1). Qed.

Lemma select1_cons {A} (p : A → bool) x l :
  select1 p (x :: l) = if p x then Some x else select1 p l.
Proof. unfold select1. rewrite where_cons. by destruct (p x). Qed.

(** *** The decision a rule list stands for *)

(** What a packet from [src] to [dst] meets, read off the rules: the first rule
    whose CIDRs, protocol and ports cover it, else the open default. *)
Definition rule_applies (src dst proto : string) (port : Z) (r : Rule.t) : bool :=
  cidrContains (Rule.source_cidr r) src && cidrContains (Rule.destination_cidr r) dst &&
  ((Rule.protocol r =? "ALL")%string || (Rule.protocol r =? proto)%string) &&
  range_matches port (compiled_range r).

Definition decide_packet (rules : list Rule.t) (defaultPolicy : option string)
    (src dst proto : string) (port : Z) : bool :=
  match select1 (rule_applies src dst proto port) rules with
  | Some r => (Rule.action r =? "ACCEPT")%string
  | None => opensByDefault rules defaultPolicy
  end.

Lemma select1_ext {A} (p q : A → bool) l : (∀ x, x ∈ l → p x = q x) → select1 p l = select1 q l.
Proof. intros H. unfold select1. by rewrite (where_ext p q). Qed.

Lemma select1_chunk tagged (covers : Rule.t → string → bool) r peers vip proto port :
  select1 (entry_matches vip proto port)
    (peers ≫= λ p, if covers r (Node.overlay_ipv4 p)
                   then [compiled_entry tagged r (Node.overlay_ipv4 p)] else []) =
  if bool_decide (vip ∈ Node.overlay_ipv4 <$> peers) &&
     (covers r vip && entry_matches vip proto port (compiled_entry tagged r vip))
  then Some (compiled_entry tagged r vip) else None.
Proof.
  induction peers as [|p peers IH]; [done|]. rewrite bind_cons, select1_app, IH, fmap_cons. clear IH.
  destruct (decide (Node.overlay_ipv4 p = vip)) as [<-|Hne].
  - rewrite (bool_decide_eq_true_2 (Node.overlay_ipv4 p ∈ Node.overlay_ipv4 p :: (Node.overlay_ipv4 <$> peers))) by left. simpl.
    destruct (covers r (Node.overlay_ipv4 p)); [|by rewrite andb_false_r].
    rewrite select1_cons. simpl. destruct (entry_matches _ _ _ _); [done|by rewrite andb_false_r].
  - rewrite (bool_decide_ext (vip ∈ Node.overlay_ipv4 p :: (Node.overlay_ipv4 <$> peers)) (vip ∈ Node.overlay_ipv4 <$> peers))
      by (rewrite elem_of_cons; split; [intros [E|E]; [by destruct Hne|done]|by right]).
    destruct (covers r (Node.overlay_ipv4 p)); [|done]. rewrite select1_cons.
    unfold entry_matches at 1. simpl. apply String.eqb_neq in Hne. by rewrite Hne.
Qed.

Lemma select1_expand tagged (covers : Rule.t → string → bool) rules peers vip proto port :
  vip ∈ Node.overlay_ipv4 <$> peers →
  select1 (entry_matches vip proto port) (expand tagged covers rules peers) =
  (λ r, compiled_entry tagged r vip) <$>
    select1 (λ r, covers r vip && entry_matches vip proto port (compiled_entry tagged r vip)) rules.
Proof.
  intros Hv. unfold expand. induction rules as [|r rules IH]; [done|].
  rewrite bind_cons, select1_app, select1_chunk, IH, select1_cons, bool_decide_eq_true_2 by done.
  by destruct (covers r vip && _).
Qed.

Lemma evaluate_allowAll vips vip proto port :
  vip ∈ vips → 0 <= port <= 65535 → evaluate (allowAll <$> vips) vip proto port = true.
Proof.
  intros Hv Hp. induction vips as [|v vips IH]; [set_solver|]. simpl.
  destruct (entry_matches vip proto port (allowAll v)) eqn:E; [done|].
  apply elem_of_cons in Hv as [<-|Hv]; [|auto].
  unfold entry_matches, range_matches in E. simpl in E. rewrite String.eqb_refl in E. simpl in E.
  rewrite orb_false_r, andb_false_iff, !Z.leb_gt in E. lia.
Qed.

(** Compiling and then reading the entries is deciding on the rules. *)
Lemma evaluate_compiled tagged (covers : Rule.t → string → bool) rules peers dp src dst vip proto port :
  vip ∈ Node.overlay_ipv4 <$> peers → 0 <= port <= 65535 →
  (∀ r, covers r vip = cidrContains (Rule.source_cidr r) src && cidrContains (Rule.destination_cidr r) dst) →
  evaluate (expand tagged covers rules peers ++
            if opensByDefault rules dp then allowAll <$> (Node.overlay_ipv4 <$> peers) else [])
    vip proto port = decide_packet rules dp src dst proto port.
Proof.
  intros Hv Hp Hc. rewrite evaluate_app, select1_expand by done. unfold decide_packet.
  rewrite (select1_ext _ (rule_applies src dst proto port)).
  - destruct (select1 _ rules); [done|]. destruct (opensByDefault rules dp); [|done].
    by apply evaluate_allowAll.
  - intros r _. unfold rule_applies, entry_matches. simpl.
    by rewrite Hc, String.eqb_refl, orb_false_r, <- !andb_assoc.
Qed.

Lemma elem_of_expand tagged (covers : Rule.t → string → bool) rules peers e :
  e ∈ expand tagged covers rules peers →
  ∃ p, p ∈ peers ∧ Entry.allowed_peer_vip e = Node.overlay_ipv4 p.
Proof.
  unfold expand. intros H. apply list_elem_of_bind in H as (r & H & _).
  apply list_elem_of_bind in H as (p & H & Hp). exists p. split; [done|].
  destruct (covers r _); [|set_solver]. by apply list_elem_of_singleton in H as ->.
Qed.

Section WithCollation.
Context {Coll : Collation}.

#[export] Instance rule_order_comparator : Comparator rule_order.
Proof. unfold rule_order. apply _. Qed.

Lemma rule_order_id x y : rule_order x y = 0 → Rule.id x = Rule.id y.
Proof.
  unfold rule_order, cmp_lex, cmp_on. destruct (Z.eqb_spec (cmp_Z (Rule.priority x) (Rule.priority y)) 0).
  - intros H. by apply collate_zero.
  - lia.
Qed.

(** One shape for the two branches of [compileFor]. *)
Lemma compileFor_shape nodeId cand d :
  compileFor nodeId cand d =
  self ← nodeScope nodeId d;
  let peers := policy_peers d self in
  let rules := with_candidate cand (listRules (Some (Some (s_organization_id self))) d) in
  let tail := if opensByDefault rules (s_default_policy self)
              then allowAll <$> (Node.overlay_ipv4 <$> peers) else [] in
  let tagged := match cand with Some _ => true | None => false end in
  let me := s_overlay_ipv4 self in
  Some (Policy.mk (s_id self) me (expand tagged (covers_inbound me) rules peers ++ tail)
          (expand tagged (covers_outbound me) rules peers ++ tail) (getEpoch "acl" d)).
Proof.
  unfold compileFor. destruct (nodeScope nodeId d) as [self|]; [|done]. simpl.
  destruct (with_candidate cand _); [|done]. unfold opensByDefault. simpl.
  by destruct (opt_is (s_default_policy self) "open").
Qed.

Lemma compileFor_entry nodeId cand d pol e :
  compileFor nodeId cand d = Some pol → e ∈ Policy.inbound_rules pol ++ Policy.outbound_rules pol →
  ∃ self p, nodeScope nodeId d = Some self ∧ p ∈ policy_peers d self ∧
            Entry.allowed_peer_vip e = Node.overlay_ipv4 p.
Proof.
  rewrite compileFor_shape. destruct (nodeScope nodeId d) as [self|]; [|done]. simpl.
  intros [= <-]. simpl. rewrite !elem_of_app. intros H. exists self.
  assert (∀ b : bool, e ∈ (if b then allowAll <$> (Node.overlay_ipv4 <$> policy_peers d self) else []) →
    ∃ p, p ∈ policy_peers d self ∧ Entry.allowed_peer_vip e = Node.overlay_ipv4 p) as Ht.
  { intros [] He; [|set_solver]. apply list_elem_of_fmap in He as (v & -> & Hv).
    apply list_elem_of_fmap in Hv as (p & -> & Hp). by exists p. }
  destruct H as [[H|H]|[H|H]]; [apply elem_of_expand in H| |apply elem_of_expand in H|];
    try apply Ht in H; destruct H as (p & Hp & He); eauto.
Qed.

Lemma elem_of_policy_peers d self p :
  p ∈ policy_peers d self ↔ p ∈ Db.nodes d ∧ is_peer d self p = true.
Proof. unfold policy_peers. rewrite elem_of_js_sort, elem_of_where. tauto. Qed.

Lemma elem_of_listRules o d r :
  r ∈ listRules o d → r ∈ Db.acl_rules d ∧ Rule.enabled r = true.
Proof. unfold listRules. rewrite elem_of_js_sort, elem_of_where. intros [H Hr]. by b2p. Qed.
End WithCollation.
End AclFacts.

(** ** The rule operations *)
Module RuleOps.
Import Acl AclFacts.

Lemma to_upper_reads v : reads (to_upper v).
Proof. intros s. by destruct v. Qed.
Lemma check_cidrs_reads vs : reads (check_cidrs vs).
Proof. intros s. unfold check_cidrs. by destruct (where_ _ vs). Qed.
Lemma or_db_error_reads {A} (o : option A) : reads (S := Db.t) (or_db_error o).
Proof. intros s. by destruct o. Qed.

Ltac reads_inv :=
  repeat match goal with
  | H : to_upper _ _ = _ |- _ => pose proof (reads_run _ _ _ _ (to_upper_reads _) H); clear H; simplify_eq
  | H : check_cidrs _ _ = _ |- _ =>
      pose proof (reads_run _ _ _ _ (check_cidrs_reads _) H); clear H; simplify_eq
  | H : or_db_error _ _ = (Throw _ _, _) |- _ =>
      pose proof (reads_run _ _ _ _ (or_db_error_reads _) H); clear H; simplify_eq
  end.

Lemma bumpEpoch_ok name d o d' : bumpEpoch name d = (o, d') → o = Ok (getEpoch name d') ∧ d' = (bumpEpoch name d).2.
Proof. rewrite bumpEpoch_run. simpl. by intros [= <- <-]. Qed.

Lemma bump_tables name d :
  Db.acl_rules (bumpEpoch name d).2 = Db.acl_rules d ∧ Db.nodes (bumpEpoch name d).2 = Db.nodes d ∧
  Db.network_routes (bumpEpoch name d).2 = Db.network_routes d ∧
  Db.revoked_keys (bumpEpoch name d).2 = Db.revoked_keys d ∧
  Db.node_credentials (bumpEpoch name d).2 = Db.node_credentials d ∧
  Db.organizations (bumpEpoch name d).2 = Db.organizations d.
Proof. rewrite bumpEpoch_run. simpl. by destruct (name =? "netmap")%string. Qed.

(** What a successful [insert_rule] did. *)
Lemma insert_rule_ok r d u d' :
  insert_rule r d = (Ok u, d') →
  d' = d <| Db.acl_rules ::= λ l, l ++ [r] |> ∧ rule_row_ok d r = true ∧
  ∀ x, x ∈ Db.acl_rules d → Rule.id x ≠ Rule.id r.
Proof.
  unfold insert_rule. intros H. run_inv.
  destruct (rule_row_ok _ r && _) eqn:E; [|unfold db_error in H; run_inv]. run_inv. b2p.
  split_and!; [done|done|]. intros y Hy Hid.
  match goal with H : existsb _ _ = false |- _ => rewrite <- not_true_iff_false, existsb_exists in H; apply H end.
  exists y. by rewrite <- list_elem_of_In, String.eqb_eq.
Qed.

Lemma insert_rule_throw r d st msg d' : insert_rule r d = (Throw st msg, d') → d' = d.
Proof.
  unfold insert_rule. intros H. run_inv. destruct (_ && _); [|unfold db_error in H]; by run_inv.
Qed.

Lemma pg_text_String limit v s : pg_text limit v = Some s → s = js_String v.
Proof.
  unfold pg_text. destruct v as [| |[]| | | |]; simpl; intros; repeat case_match; by simplify_eq.
Qed.

(** What a successful [createRule] did. *)
Lemma createRule_ok random body org d id d' :
  createRule random body org d = (Ok id, d') →
  ∃ r, Rule.id r = id ∧ Rule.enabled r = true ∧ Rule.organization_id r = org ∧
    rule_row_ok d r = true ∧ (∀ x, x ∈ Db.acl_rules d → Rule.id x ≠ id) ∧
    d' = (bumpEpoch "acl" (d <| Db.acl_rules ::= λ l, l ++ [r] |>)).2.
Proof.
  unfold createRule. intros H. run_inv. reads_inv.
  match goal with H : or_db_error _ _ = _ |- _ => apply or_db_error_ok in H as [Hr ->] end.
  match goal with H : insert_rule _ _ = _ |- _ => apply insert_rule_ok in H as (-> & Hok & Hnew) end.
  match goal with H : bumpEpoch _ _ = _ |- _ => apply bumpEpoch_ok in H as [_ ->] end.
  repeat (apply bind_Some in Hr as (? & ? & Hr)). injection Hr as <-. simpl in *.
  match goal with H : pg_text 64 (js_or (field "id" body) _) = Some ?s |- _ =>
    apply pg_text_String in H as ->
  end.
  eexists. split_and!; [| | | | |reflexivity]; done.
Qed.

Lemma createRule_throw random body org d st msg d' :
  createRule random body org d = (Throw st msg, d') → d' = d.
Proof.
  unfold createRule. intros H. run_inv; reads_inv; try done.
  match goal with H : or_db_error _ _ = _ |- _ => apply or_db_error_ok in H as [_ ->] end.
  by apply insert_rule_throw in H.
Qed.

(** What a successful [updateRule] did. *)
Lemma updateRule_ok id updates d row d' :
  updateRule id updates d = (Ok (Some row), d') →
  ∃ r, rule_row_ok d r = true ∧ Rule.id r = id ∧
    d' = (bumpEpoch "acl" (d <| Db.acl_rules ::= update_where (λ x, (Rule.id x =? id)%string) (λ _, r) |>)).2.
Proof.
  unfold updateRule. intros H. run_inv. destruct (find_rule id _) as [existing|] eqn:Ef; [|run_inv].
  unfold find_rule in Ef. apply select1_elem in Ef as [Hid _]. b2p.
  run_inv. reads_inv.
  match goal with H : or_db_error _ _ = _ |- _ => apply or_db_error_ok in H as [Hr ->] end.
  destruct (rule_row_ok _ _) eqn:Hok; [|unfold db_error in H; run_inv]. run_inv.
  match goal with H : bumpEpoch _ _ = _ |- _ => apply bumpEpoch_ok in H as [_ ->] end.
  repeat (apply bind_Some in Hr as (? & ? & Hr)). injection Hr as <-. simpl in *.
  eexists. split_and!; [exact Hok|done|reflexivity].
Qed.

Lemma updateRule_throw id updates d st msg d' :
  updateRule id updates d = (Throw st msg, d') → d' = d.
Proof.
  unfold updateRule. intros H. run_inv. destruct (find_rule id _) as [existing|]; [|run_inv].
  run_inv; reads_inv; try done.
  match goal with H : or_db_error _ _ = _ |- _ => apply or_db_error_ok in H as [_ ->] end.
  destruct (rule_row_ok _ _); [|unfold db_error in H]; by run_inv.
Qed.

Lemma advanced_frame name d d1 d2 :
  Db.mesh_epochs d = Db.mesh_epochs d1 → advanced name d1 d2 → advanced name d d2.
Proof. unfold advanced, getEpoch. by intros ->. Qed.

Lemma acl_bump_advances f d :
  epochs_seeded d → advanced "acl" d (bumpEpoch "acl" (d <| Db.acl_rules ::= f |>)).2.
Proof.
  intros H. apply (advanced_frame _ _ (d <| Db.acl_rules ::= f |>)); [done|].
  apply bumpEpoch_advances; [exact H|by left].
Qed.
End RuleOps.

(** ** A small fleet, for the witnesses *)
Module AclSample.
#[export] Existing Instance c_collation.

Definition node (id vip : string) (org compartment : option string) : Node.t :=
  Node.mk id "usr-1" id id vip "fd00::1" "HYBRID" (JArr []) true false None (Some 0) (of_Z 0) 0 0
    (of_Z 0) (of_Z 0) (of_Z 0) (JObj []) None org compartment "wireguard" JNull "off" None.

Definition rule (id : string) (priority : Z) (src dst proto : string) (lo hi : Z) (action : string) :=
  Rule.mk id priority src dst proto lo hi action "" true (Some "org-a").

Definition db : Db.t :=
  Db.empty
    <| Db.nodes := [node "n2" "100.64.0.2" (Some "org-a") None; node "n1" "100.64.0.1" (Some "org-a") None;
                    node "n3" "100.64.0.3" (Some "org-b") None] |>
    <| Db.organizations := [Org.plain "org-a" "a" "deny"; Org.plain "org-b" "b" "open"] |>
    <| Db.acl_rules := [rule "r2" 20 "0.0.0.0/0" "0.0.0.0/0" "ALL" 0 65535 "ACCEPT";
                        rule "r1" 10 "100.64.0.1/32" "100.64.0.2/32" "TCP" 22 22 "DROP"] |>
    <| Db.mesh_epochs := {[ "acl" := 1; "routes" := 1; "netmap" := 1 ]} |>.

Lemma db_unique : unique_keys db.
Proof. split; apply (bool_decide_unpack _); vm_compute; exact I. Defined.
(** The policy of n1, evaluated. *)
Definition policy : Policy.t :=
  Eval vm_compute in default (Policy.mk "" "" [] [] 0) (Acl.compileFor (Coll := c_collation) "n1" None db).
Lemma policy_compiled : Acl.compileFor (Coll := c_collation) "n1" None db = Some policy.
Proof. vm_compute. reflexivity. Defined.
Lemma db_seeded : AclFacts.epochs_seeded db.
Proof. repeat split; vm_compute; eauto. Defined.
End AclSample.

(** ** Theorems *)

Import Acl PkgAcl AclFacts.

(** C4. A compiled policy names only candidate peers: every entry, in either
    direction and with or without a candidate rule, carries the address of
    another node that is not quarantined, belongs to the same organisation and
    sits in the same compartment or in one joined to it by an "allow" peering. *)
Theorem compileFor_isolation {Coll : Collation} nodeId cand d pol e :
  compileFor nodeId cand d = Some pol →
  e ∈ Policy.inbound_rules pol ++ Policy.outbound_rules pol →
  ∃ self n, self ∈ Db.nodes d ∧ Node.id self = nodeId ∧ n ∈ Db.nodes d ∧
    Entry.allowed_peer_vip e = Node.overlay_ipv4 n ∧ Node.id n ≠ nodeId ∧
    Node.is_quarantined n = false ∧ org_of n = org_of self ∧
    (EFFECTIVE_COMPARTMENT n = EFFECTIVE_COMPARTMENT self ∨
     ∃ p, p ∈ Db.compartment_peerings d ∧ Peering.policy p = "allow" ∧
       (Peering.src_compartment_id p = EFFECTIVE_COMPARTMENT self ∧
        Peering.dst_compartment_id p = EFFECTIVE_COMPARTMENT n ∨
        Peering.src_compartment_id p = EFFECTIVE_COMPARTMENT n ∧
        Peering.dst_compartment_id p = EFFECTIVE_COMPARTMENT self)).
Proof.
  intros Hc He. destruct (compileFor_entry _ _ _ _ _ Hc He) as (s & n & Hs & Hn & Hv).
  apply nodeScope_inv in Hs as (self & Hself & <- & ->).
  apply elem_of_policy_peers in Hn as [Hn Hp]. unfold is_peer in Hp. simpl in Hp. b2p.
  exists self, n. split_and!; auto.
  match goal with H : _ ∨ _ |- _ => destruct H as [H|H] end.
  - left. by b2p.
  - right. by apply peered_spec.
Qed.

Lemma compileFor_isolation_witness : ∃ e n,
  e ∈ Policy.inbound_rules AclSample.policy ++ Policy.outbound_rules AclSample.policy ∧
  n ∈ Db.nodes AclSample.db ∧ Entry.allowed_peer_vip e = Node.overlay_ipv4 n.
Proof.
  eexists.
  destruct (compileFor_isolation (Coll := c_collation) "n1" None AclSample.db _ _ AclSample.policy_compiled
    (list_elem_of_here _ _)) as (s & n & _ & _ & Hn & Hv & _).
  exists n. split; [left|split; [exact Hn|exact Hv]].
Defined.

(** Compilation is faithful to the rules.  For a candidate peer [p] of the
    node [self], any protocol and any 16-bit port, a node that reads its
    compiled entries first-match-wins lets a packet out to [p] exactly when the
    first applicable rule accepts it, or none applies and the organisation is
    open by default; and lets a packet in from [p] exactly when the same holds
    of the reverse direction. *)
Theorem compiled_policy_decides {Coll : Collation} d cand self p proto port pol :
  NoDup (Node.id <$> Db.nodes d) → self ∈ Db.nodes d → p ∈ Db.nodes d →
  is_peer d (scope_row d self) p = true → 0 <= port <= 65535 →
  compileFor (Node.id self) cand d = Some pol →
  let rules := with_candidate cand (listRules (Some (Some (org_of self))) d) in
  let dp := s_default_policy (scope_row d self) in
  let me := Node.overlay_ipv4 self in
  let vip := Node.overlay_ipv4 p in
  evaluate (Policy.outbound_rules pol) vip proto port = decide_packet rules dp me vip proto port ∧
  evaluate (Policy.inbound_rules pol) vip proto port = decide_packet rules dp vip me proto port.
Proof.
  intros Hn Hs Hp Hpeer Hport. rewrite compileFor_shape, nodeScope_row by done. simpl.
  intros [= <-]. simpl.
  assert (Node.overlay_ipv4 p ∈ Node.overlay_ipv4 <$> policy_peers d (scope_row d self))
    by (by apply list_elem_of_fmap_2, elem_of_policy_peers).
  split; by apply evaluate_compiled.
Qed.

Lemma compiled_policy_decides_witness :
  evaluate (Policy.outbound_rules AclSample.policy) "100.64.0.2" "TCP" 22 = false ∧
  evaluate (Policy.outbound_rules AclSample.policy) "100.64.0.2" "TCP" 80 = true.
Proof.
  set (n1 := AclSample.node "n1" "100.64.0.1" (Some "org-a") None).
  set (n2 := AclSample.node "n2" "100.64.0.2" (Some "org-a") None).
  assert (n1 ∈ Db.nodes AclSample.db) as H1 by (right; left).
  assert (n2 ∈ Db.nodes AclSample.db) as H2 by left.
  pose proof (λ port Hp, compiled_policy_decides (Coll := c_collation) AclSample.db None n1 n2 "TCP" port
    AclSample.policy (uk_node_id _ AclSample.db_unique) H1 H2 eq_refl Hp AclSample.policy_compiled) as H.
  split.
  - destruct (H 22 ltac:(lia)) as [E _]. etransitivity; [exact E|]. vm_compute. reflexivity.
  - destruct (H 80 ltac:(lia)) as [E _]. etransitivity; [exact E|]. vm_compute. reflexivity.
Defined.

(** The two ends of a connection hold the same decision: for two nodes that
    are candidate peers and neither quarantined, the sender's compiled outbound
    entries let a packet out exactly when the receiver's compiled inbound entries
    let it in. *)
Theorem compiled_ends_agree {Coll : Collation} d a b proto port pa pb :
  unique_keys d → a ∈ Db.nodes d → b ∈ Db.nodes d → Node.is_quarantined a = false →
  is_peer d (scope_row d a) b = true → 0 <= port <= 65535 →
  compilePolicyFor (Node.id a) d = Some pa → compilePolicyFor (Node.id b) d = Some pb →
  evaluate (Policy.outbound_rules pa) (Node.overlay_ipv4 b) proto port =
  evaluate (Policy.inbound_rules pb) (Node.overlay_ipv4 a) proto port.
Proof.
  unfold compilePolicyFor. intros [Hn _ _ _ _ _ _ _] Ha Hb Hq Hpeer Hport.
  rewrite !compileFor_shape, !nodeScope_row by done. simpl. intros [= <-] [= <-]. simpl.
  assert (org_of a = org_of b) as Horg by (unfold is_peer in Hpeer; simpl in Hpeer; by b2p).
  rewrite Horg. erewrite !evaluate_compiled; [reflexivity| |done| |..]; try done.
  - apply list_elem_of_fmap_2, elem_of_policy_peers. split; [done|by apply is_peer_sym].
  - by apply list_elem_of_fmap_2, elem_of_policy_peers.
Qed.

Lemma compiled_ends_agree_witness : ∃ pa pb,
  evaluate (Policy.outbound_rules pa) "100.64.0.2" "TCP" 443 =
  evaluate (Policy.inbound_rules pb) "100.64.0.1" "TCP" 443 ∧
  compilePolicyFor (Coll := c_collation) "n1" AclSample.db = Some pa.
Proof.
  eexists _, _. split; [|apply AclSample.policy_compiled].
  apply (compiled_ends_agree (Coll := c_collation) AclSample.db
    (AclSample.node "n1" "100.64.0.1" (Some "org-a") None)
    (AclSample.node "n2" "100.64.0.2" (Some "org-a") None) "TCP" 443);
    [apply AclSample.db_unique|right; left|left|reflexivity|reflexivity|lia|apply AclSample.policy_compiled|
     vm_compute; reflexivity].
Defined.

(** The rows of [acl_rules] satisfy the CHECK constraints. *)
Definition rules_checked (d : Db.t) : Prop := ∀ r, r ∈ Db.acl_rules d → rule_row_ok d r = true.

Lemma not_separated {Coll : Collation} d a b org tier :
  unique_keys d → a ∈ Db.nodes d → b ∈ Db.nodes d → is_peer d (scope_row d a) b = true →
  compartmentsConnected org (Node.overlay_ipv4 a) (Node.overlay_ipv4 b) tier d ≠ Some false.
Proof.
  intros [_ Hv _ _ _ _ _ _] Ha Hb Hpeer. unfold compartmentsConnected.
  match goal with |- mbind _ ?s ≠ _ => destruct s as [a'|] eqn:Ea; cbn; [|congruence] end.
  match goal with |- mbind _ ?s ≠ _ => destruct s as [b'|] eqn:Eb; cbn; [|congruence] end.
  apply select1_elem in Ea as [Ea Ha']. apply select1_elem in Eb as [Eb Hb'].
  apply elem_of_where in Ha' as [_ Ha']. apply elem_of_where in Hb' as [_ Hb']. b2p.
  assert (a' = a) as -> by (by apply (NoDup_fmap_inj Node.overlay_ipv4 (Db.nodes d))).
  assert (b' = b) as -> by (by apply (NoDup_fmap_inj Node.overlay_ipv4 (Db.nodes d))).
  unfold is_peer in Hpeer. simpl in Hpeer. rewrite String.eqb_sym.
  destruct (EFFECTIVE_COMPARTMENT b =? EFFECTIVE_COMPARTMENT a)%string; [done|].
  simpl in Hpeer. b2p. congruence.
Qed.

(** The simulator's test of a rule is the compiled one when its last port is
    not zero. *)
Lemma sim_matches_applies d src dst proto port r :
  rule_row_ok d r = true → Rule.enabled r = true → Rule.port_end r ≠ 0 →
  proto ∈ ["TCP"; "UDP"; "ICMP"] →
  sim_matches src dst proto (of_Z port) r = rule_applies src dst proto port r.
Proof.
  intros Hok Hen Hend Hproto. unfold sim_matches, rule_applies, range_matches, compiled_range. simpl.
  rewrite Hen, !num_ltb_of_Z. apply Z.eqb_neq in Hend. rewrite Hend. simpl. f_equal; [f_equal|].
  - unfold rule_row_ok in Hok. b2p.
    rewrite !elem_of_cons, elem_of_nil in *. destruct_or?; simplify_eq;
      repeat match goal with H : _ = Rule.protocol r |- _ => rewrite <- H
                         | H : Rule.protocol r = _ |- _ => rewrite H end; done.
  - apply eq_true_iff_eq. rewrite negb_true_iff, orb_false_iff, andb_true_iff, !Z.ltb_ge, !Z.leb_le. done.
Qed.

(** The console's simulator tells the truth about the data plane.  For two
    nodes that are candidate peers, a concrete protocol and a 16-bit port, on
    rules that satisfy the table's constraints and whose last port is not zero,
    [simulatePacket] answers ACCEPT exactly when the sender's compiled policy,
    read first-match-wins, lets the packet out, whatever the caller's tier. *)
Theorem simulate_agrees_with_compiled {Coll : Collation} d a b proto port pol tier :
  unique_keys d → rules_checked d → (∀ r, r ∈ Db.acl_rules d → Rule.port_end r ≠ 0) →
  a ∈ Db.nodes d → b ∈ Db.nodes d → is_peer d (scope_row d a) b = true →
  proto ∈ ["TCP"; "UDP"; "ICMP"] → 0 <= port <= 65535 →
  compilePolicyFor (Node.id a) d = Some pol →
  verdict (simulatePacket (Node.overlay_ipv4 a) (Node.overlay_ipv4 b) proto (of_Z port)
    (s_default_policy (scope_row d a)) (Some (Some (org_of a))) tier d) = "ACCEPT" ↔
  evaluate (Policy.outbound_rules pol) (Node.overlay_ipv4 b) proto port = true.
Proof.
  intros Hu Hchk Hend Ha Hb Hpeer Hproto Hport. unfold compilePolicyFor.
  rewrite compileFor_shape, nodeScope_row by (auto; apply Hu). simpl. intros [= <-]. simpl.
  erewrite evaluate_compiled; [|by apply list_elem_of_fmap_2, elem_of_policy_peers|done|done].
  unfold simulatePacket, decide_packet.
  rewrite num_or_of_Z. replace (if port =? 0 then 0 else port) with port by (destruct (Z.eqb_spec port 0); lia).
  replace (toUpperCase proto) with proto
    by (rewrite !elem_of_cons, elem_of_nil in Hproto; by destruct_or?; subst).
  rewrite (select1_ext _ (rule_applies (Node.overlay_ipv4 a) (Node.overlay_ipv4 b) proto port)).
  2:{ intros r Hr. apply elem_of_listRules in Hr as [Hr Hen]. apply (sim_matches_applies d); auto. }
  pose proof (not_separated d a b (Some (Some (org_of a))) tier Hu Ha Hb Hpeer) as Hsep.
  destruct (compartmentsConnected _ _ _ _ _) as [[]|]; try done;
    (destruct (select1 _ _); simpl; [by rewrite String.eqb_eq|]);
    by destruct (opensByDefault _ _).
Qed.

Lemma simulate_agrees_with_compiled_witness : ∃ pol,
  verdict (simulatePacket (Coll := c_collation) "100.64.0.1" "100.64.0.2" "TCP" (of_Z 22) (Some "deny")
    (Some (Some "org-a")) "standard" AclSample.db) = "ACCEPT" ↔
  evaluate (Policy.outbound_rules pol) "100.64.0.2" "TCP" 22 = true.
Proof.
  eexists.
  apply (simulate_agrees_with_compiled (Coll := c_collation) AclSample.db
    (AclSample.node "n1" "100.64.0.1" (Some "org-a") None)
    (AclSample.node "n2" "100.64.0.2" (Some "org-a") None) "TCP" 22);
    [apply AclSample.db_unique| | |right; left|left|reflexivity|left|lia|apply AclSample.policy_compiled].
  - unfold rules_checked. rewrite <- Forall_forall. repeat (constructor; [vm_compute; reflexivity|]). constructor.
  - rewrite <- Forall_forall. repeat (constructor; [vm_compute; discriminate|]). constructor.
Defined.

(** A rule stored with last port 0 separates the two.  [createRule] and
    [updateRule] keep 0, the simulator reads it as the empty range above port 0,
    and [compileFor] reads it as 65535: the node accepts what the simulator says
    is dropped. *)
Theorem port_end_zero_opens_all_ports :
  let d := AclSample.db <| Db.acl_rules :=
    [AclSample.rule "r1" 10 "0.0.0.0/0" "0.0.0.0/0" "TCP" 0 0 "ACCEPT"] |> in
  verdict (simulatePacket (Coll := c_collation) "100.64.0.1" "100.64.0.2" "TCP" (of_Z 22) (Some "deny")
    (Some (Some "org-a")) "root" d) = "DROP" ∧
  ∃ pol, compilePolicyFor (Coll := c_collation) "n1" d = Some pol ∧
    evaluate (Policy.outbound_rules pol) "100.64.0.2" "TCP" 22 = true.
Proof. split; [reflexivity|]. eexists. split; reflexivity. Qed.

Import RuleOps.

(** Every change of the rules reaches the nodes: creating, updating or
    deleting a rule that succeeds advances the ACL epoch and the netmap version
    by one each; creating or updating one that throws, on any input, leaves the
    whole store as it was. *)
Theorem rule_change_advances_epochs d :
  epochs_seeded d →
  (∀ random body org id d', createRule random body org d = (Ok id, d') → advanced "acl" d d') ∧
  (∀ id updates row d', updateRule id updates d = (Ok (Some row), d') → advanced "acl" d d') ∧
  (∀ id, advanced "acl" d (deleteRule id d).2) ∧
  (∀ random body org st msg d', createRule random body org d = (Throw st msg, d') → d' = d) ∧
  (∀ id updates st msg d', updateRule id updates d = (Throw st msg, d') → d' = d).
Proof.
  intros Hs. split_and!.
  - intros * H. apply createRule_ok in H as (r & _ & _ & _ & _ & _ & ->). by apply acl_bump_advances.
  - intros * H. apply updateRule_ok in H as (r & _ & _ & ->). by apply acl_bump_advances.
  - intros id. unfold deleteRule, eff_bind, modify. by apply acl_bump_advances.
  - intros *. apply createRule_throw.
  - intros *. apply updateRule_throw.
Qed.

Lemma rule_change_advances_epochs_witness :
  advanced "acl" AclSample.db (deleteRule "r1" AclSample.db).2.
Proof. apply (rule_change_advances_epochs AclSample.db AclSample.db_seeded). Defined.

(** Creating a rule makes it apply: when [createRule] succeeds, the
    identifier is new, the rule is in the list compiled for the nodes of its
    organisation (of every organisation for a platform rule), every rule listed
    before is still listed, and the keys stay unique. *)
Theorem createRule_listed {Coll : Collation} random body org d id d' o :
  unique_keys d → createRule random body org d = (Ok id, d') → org = Some o ∨ org = None →
  (∃ r, r ∈ listRules (Some (Some o)) d' ∧ Rule.id r = id) ∧
  (∀ r, r ∈ listRules (Some (Some o)) d → r ∈ listRules (Some (Some o)) d' ∧ Rule.id r ≠ id) ∧
  unique_keys d'.
Proof.
  intros Hu H Ho. apply createRule_ok in H as (r & <- & Hen & Horg & _ & Hnew & ->).
  destruct (bump_tables "acl" (d <| Db.acl_rules ::= λ l, l ++ [r] |>)) as (Hr & Hn & Hnr & Hrk & _ & Ho').
  split_and!.
  - exists r. split; [|done]. unfold listRules. rewrite elem_of_js_sort, elem_of_where, Hr. cbn.
    rewrite Hen, Horg. split; [|apply elem_of_app; right; left]. destruct Ho as [->| ->]; simpl; [by rewrite String.eqb_refl|done].
  - intros x. unfold listRules. rewrite !elem_of_js_sort, !elem_of_where, Hr. cbn. intros [Hp Hx].
    split; [split; [done|apply elem_of_app; by left]|auto].
  - destruct Hu. rewrite bumpEpoch_run in *. split; cbn in *; try done.
    rewrite fmap_app. apply NoDup_app. split_and!; [done| |by repeat constructor; set_solver].
    intros i Hi Hi'. apply list_elem_of_fmap in Hi as (x & -> & Hx). simpl in Hi'.
    apply list_elem_of_singleton in Hi'. by eapply Hnew.
Qed.

Lemma createRule_listed_witness : ∃ r,
  r ∈ listRules (Coll := c_collation) (Some (Some "org-a"))
        (createRule "00" (JObj [("action", JStr "drop")]) (Some "org-a") AclSample.db).2 ∧
  Rule.id r = "acl-00".
Proof.
  apply (createRule_listed (Coll := c_collation) "00" (JObj [("action", JStr "drop")]) (Some "org-a")
    AclSample.db "acl-00" _ "org-a"); [apply AclSample.db_unique|vm_compute; reflexivity|left; reflexivity].
Defined.
