(* ===== verification/Routes.v ===== *)
(** * Subnet routes: [services/RouteEngine.js]

    Storage of routes and the set delivered to a node.  The gateways of a route
    are a JSON column; reading a property of a JSON null throws a TypeError, so
    [routesFor] answers an [outcome].  Timestamps are delivered as milliseconds
    ([None] for Go's zero time) instead of their ISO rendering. *)

From S2P Require Import Prelude Order Js Json Cidr Db Acl.

Module Routes.

Record gateway := mk_gateway {
  g_node_id : string; g_priority : num; g_is_healthy : bool;
  g_last_probe_at : option Z; g_latency_rtt_ms : num;
}.

Record delivered := mk_delivered {
  d_id : string; d_network_id : string; d_description : string; d_network_cidr : go_net;
  d_masquerade : bool; d_failover_mode : string; d_routing_peers : list gateway;
  d_groups : jsval; d_created_at : Z; d_updated_at : Z;
}.

(** [v.k]: a TypeError on null and undefined. *)
Definition get_prop (k : string) (v : jsval) : outcome jsval :=
  match v with
  | JNull | JUndef => Throw None "TypeError"
  | _ => Ok (field k v)
  end.

(** ** Storage *)

Definition createRoute (random : string) (now : Z) (route : jsval) : eff Db.t string :=
  let id := js_or (field "id" route) (JStr ("route-" +:+ random)) in
  let cidr := field "network_cidr" route in
  match cidrToGoIPNet (js_String (js_or cidr (JStr ""))) with
  | None => throw (Some 400) ("invalid CIDR: " +:+ js_String cidr)
  | Some _ =>
      failover <-! Acl.to_upper (js_or (field "failover_mode" route) (JStr "ACTIVE_PASSIVE")) ;
      let masquerade := match field "masquerade" route with JBool false => false | _ => true end in
      r <-! or_db_error (
        id ← pg_text 64 id;
        network_id ← pg_text 64 (js_or (field "network_id" route) (JStr "default"));
        description ← pg_text text_limit (js_or (field "description" route) (JStr ""));
        cidr ← pg_text 64 cidr;
        Some (Route.mk id network_id description cidr masquerade failover
                (js_or (field "routing_peers" route) (JArr []))
                (js_or (field "groups" route) (JArr [])) true now now)) ;
      d <-! get ;
      if bool_decide (Route.failover_mode r ∈ ["ACTIVE_PASSIVE"; "ACTIVE_ACTIVE_ECMP"]) &&
         negb (existsb (λ x, (Route.id x =? Route.id r)%string) (Db.network_routes d))
      then
        modify (λ d, d <| Db.network_routes ::= λ l, l ++ [r] |>) ;!
        Acl.bumpEpoch "routes" ;!
        eff_ret (js_String id)
      else db_error
  end.

Definition deleteRoute (id : string) : eff Db.t Z :=
  modify (λ d, d <| Db.network_routes ::= delete_where (λ r, (Route.id r =? id)%string) |>) ;!
  Acl.bumpEpoch "routes".

(** ** Delivery *)

(** The sign of [a.priority - b.priority]. *)
Definition cmp_num (a b : num) : Z := if num_ltb a b then -1 else if num_ltb b a then 1 else 0.

Definition node_of (d : Db.t) (v : jsval) : option Node.t :=
  match v with
  | JStr id => select1 (λ n, (Node.id n =? id)%string) (reverse (Db.nodes d))
  | _ => None
  end.

(** One entry of [routing_peers]; unknown nodes give nothing. *)
Definition gateway_of (d : Db.t) (index : Z) (spec : jsval) : outcome (option gateway) :=
  match get_prop "node_id" spec with
  | Throw st msg => Throw st msg
  | Ok node_id =>
      match node_of d node_id with
      | None => Ok None
      | Some n =>
          Ok (Some (mk_gateway (Node.id n)
            (num_or (js_Number (field "priority" spec)) (of_Z (index + 1)))
            (Node.is_healthy n && negb (Node.is_quarantined n))
            (Node.last_heartbeat n) (num_or (Node.latency_ms n) (of_Z 0))))
      end
  end.

Fixpoint gateways_of (d : Db.t) (index : Z) (specs : list jsval) : outcome (list gateway) :=
  match specs with
  | [] => Ok []
  | spec :: rest =>
      match gateway_of d index spec with
      | Throw st msg => Throw st msg
      | Ok g =>
          match gateways_of d (index + 1) rest with
          | Throw st msg => Throw st msg
          | Ok gs => Ok (match g with Some g => g :: gs | None => gs end)
          end
      end
  end.

Definition names_node (nodeId : string) (spec : jsval) : bool :=
  match field "node_id" spec with JStr id => (id =? nodeId)%string | _ => false end.

(** What a stored route becomes for a node; [Ok None] when it is passed over. *)
Definition deliver (d : Db.t) (nodeId : string) (row : Route.t) : outcome (option delivered) :=
  match cidrToGoIPNet (Route.network_cidr row) with
  | None => Ok None
  | Some network =>
      match parseJsonColumn (Route.routing_peers row) (JArr []) with
      | JArr specs =>
          match gateways_of d 0 specs with
          | Throw st msg => Throw st msg
          | Ok peers =>
              if negb (existsb g_is_healthy peers) then Ok None
              else if existsb (names_node nodeId) specs then Ok None
              else Ok (Some (mk_delivered (Route.id row) (Route.network_id row) (Route.description row)
                network (Route.masquerade row)
                (if (Route.failover_mode row =? "")%string then "ACTIVE_PASSIVE" else Route.failover_mode row)
                (js_sort (cmp_on g_priority cmp_num) peers)
                (parseJsonColumn (Route.groups row) (JArr []))
                (Route.created_at row) (Route.updated_at row)))
          end
      | _ => Throw None "TypeError"
      end
  end.

Fixpoint deliver_all (d : Db.t) (nodeId : string) (rows : list Route.t) : outcome (list delivered) :=
  match rows with
  | [] => Ok []
  | row :: rest =>
      match deliver d nodeId row with
      | Throw st msg => Throw st msg
      | Ok r =>
          match deliver_all d nodeId rest with
          | Throw st msg => Throw st msg
          | Ok rs => Ok (match r with Some r => r :: rs | None => rs end)
          end
      end
  end.

Section WithCollation.
Context {Coll : Collation}.

Definition route_order : Route.t → Route.t → Z :=
  cmp_lex (cmp_on Route.network_id collate) (cmp_on Route.id collate).

Definition listRoutes (d : Db.t) : list Route.t :=
  js_sort route_order (where_ Route.enabled (Db.network_routes d)).

Definition routesFor (nodeId : string) (d : Db.t) : outcome (list delivered) :=
  deliver_all d nodeId (listRoutes d).
End WithCollation.
End Routes.

(** ** Lemmas *)
Module RoutesFacts.
Import Routes.

(** A route whose gateways are a list of objects. *)
Definition well_formed (row : Route.t) : Prop :=
  ∃ specs, parseJsonColumn (Route.routing_peers row) (JArr []) = JArr specs ∧
           Forall (λ v, v ≠ JNull ∧ v ≠ JUndef) specs.

Lemma gateways_of_ok d i specs :
  Forall (λ v, v ≠ JNull ∧ v ≠ JUndef) specs → ∃ gs, gateways_of d i specs = Ok gs.
Proof.
  intros H. revert i. induction H as [|v l [Hn Hu] Hl IH]; intros i; [by eexists|]. cbn [gateways_of].
  assert (∃ g, gateway_of d i v = Ok g) as [g ->].
  { unfold gateway_of. assert (get_prop "node_id" v = Ok (field "node_id" v)) as -> by (by destruct v).
    destruct (node_of d (field "node_id" v)); by eexists. }
  destruct (IH (i + 1)) as [gs ->]. by eexists.
Qed.

Lemma deliver_ok d nodeId row : well_formed row → ∃ o, deliver d nodeId row = Ok o.
Proof.
  intros (specs & E & Hf). unfold deliver. destruct (cidrToGoIPNet _); [|by eexists].
  rewrite E. destruct (gateways_of_ok d 0 specs Hf) as [gs ->].
  destruct (negb _); [by eexists|]. destruct (existsb _ specs); by eexists.
Qed.

Lemma deliver_all_ok d nodeId rows : Forall well_formed rows → ∃ rs, deliver_all d nodeId rows = Ok rs.
Proof.
  induction 1 as [|row rows Hw Hf IH]; [by eexists|]. cbn [deliver_all].
  destruct (deliver_ok d nodeId row Hw) as [o ->]. destruct IH as [rs ->]. by eexists.
Qed.

Lemma deliver_all_elem d nodeId rows rs r :
  deliver_all d nodeId rows = Ok rs → r ∈ rs → ∃ row, row ∈ rows ∧ deliver d nodeId row = Ok (Some r).
Proof.
  revert rs. induction rows as [|row rows IH]; intros rs; cbn [deliver_all].
  - intros [= <-] H. by apply elem_of_nil in H.
  - destruct (deliver d nodeId row) as [o|] eqn:E; [|done].
    destruct (deliver_all d nodeId rows) as [rs'|] eqn:E'; [|done]. intros [= <-] H.
    assert ((∃ x, o = Some x ∧ r = x) ∨ r ∈ rs') as [(x & -> & ->)|Hr].
    { destruct o; [|by right]. apply elem_of_cons in H as [->|H]; [left; eauto|by right]. }
    + exists row. split; [left|done].
    + destruct (IH _ eq_refl Hr) as (row' & Hin & Hd). exists row'. split; [by right|done].
Qed.

Lemma gateway_of_some d i spec g :
  gateway_of d i spec = Ok (Some g) →
  ∃ n, n ∈ Db.nodes d ∧ field "node_id" spec = JStr (Node.id n) ∧ g_node_id g = Node.id n ∧
       g_is_healthy g = Node.is_healthy n && negb (Node.is_quarantined n).
Proof.
  unfold gateway_of. destruct (get_prop "node_id" spec) as [v|] eqn:E; [|done].
  destruct (node_of d v) as [n|] eqn:En; [|done]. intros [= <-].
  unfold node_of in En. destruct v; try done. apply select1_elem in En as [Hid Hn]. b2p. subst.
  exists n. rewrite elem_of_reverse in Hn. split_and!; auto.
  unfold get_prop in E. destruct spec; congruence.
Qed.

Lemma gateways_of_elem d i specs gs g :
  gateways_of d i specs = Ok gs → g ∈ gs →
  ∃ j spec, spec ∈ specs ∧ gateway_of d j spec = Ok (Some g).
Proof.
  revert i gs. induction specs as [|v l IH]; intros i gs; cbn [gateways_of].
  - intros [= <-] H. by apply elem_of_nil in H.
  - destruct (gateway_of d i v) as [o|] eqn:E; [|done].
    destruct (gateways_of d (i + 1) l) as [gs'|] eqn:E'; [|done]. intros [= <-] H.
    assert ((∃ x, o = Some x ∧ g = x) ∨ g ∈ gs') as [(x & -> & ->)|Hr].
    { destruct o; [|by right]. apply elem_of_cons in H as [->|H]; [left; eauto|by right]. }
    + exists i, v. split; [left|done].
    + destruct (IH _ _ E' Hr) as (j & spec & Hin & Hd). exists j, spec. split; [by right|done].
Qed.


Lemma stored_cidr_valid v c net :
  pg_text 64 v = Some c → cidrToGoIPNet (js_String (js_or v (JStr ""))) = Some net →
  cidrToGoIPNet c = Some net.
Proof.
  intros Hc%RuleOps.pg_text_String H. unfold js_or in H. destruct (truthy v); [by subst|].
  vm_compute in H. discriminate H.
Qed.

(** What a successful [createRoute] did. *)
Lemma createRoute_ok random now route d id d' :
  createRoute random now route d = (Ok id, d') →
  ∃ r, Route.enabled r = true ∧ cidrToGoIPNet (Route.network_cidr r) ≠ None ∧
    d' = (Acl.bumpEpoch "routes" (d <| Db.network_routes ::= λ l, l ++ [r] |>)).2.
Proof.
  intros H. unfold createRoute in H. destruct (cidrToGoIPNet _) as [net|] eqn:Ec; [|run_inv].
  run_inv. RuleOps.reads_inv.
  match goal with H : or_db_error _ _ = _ |- _ => apply or_db_error_ok in H as [Hr ->] end.
  destruct (bool_decide _ && _); [|unfold db_error in H; run_inv]. run_inv.
  match goal with H : Acl.bumpEpoch _ _ = _ |- _ => apply RuleOps.bumpEpoch_ok in H as [_ ->] end.
  repeat (apply bind_Some in Hr as (? & ? & Hr)). injection Hr as <-.
  eexists. split_and!; [| |reflexivity]; [done|]. cbn.
  match goal with H : pg_text 64 (field "network_cidr" route) = Some _ |- _ =>
    by rewrite (stored_cidr_valid _ _ _ H Ec) end.
Qed.
End RoutesFacts.

(** ** Theorems *)
Import Routes RoutesFacts.

(** What [routesFor] promises of a route [r] delivered to [nodeId]. *)
Definition delivered_ok (d : Db.t) (nodeId : string) (r : delivered) : Prop :=
  ∃ row, row ∈ Db.network_routes d ∧ Route.enabled row = true ∧ Route.id row = d_id r ∧
    cidrToGoIPNet (Route.network_cidr row) = Some (d_network_cidr r) ∧
    (∃ g, g ∈ d_routing_peers r ∧ g_is_healthy g = true) ∧
    ∀ g, g ∈ d_routing_peers r →
      g_node_id g ≠ nodeId ∧
      ∃ n, n ∈ Db.nodes d ∧ Node.id n = g_node_id g ∧
           g_is_healthy g = Node.is_healthy n && negb (Node.is_quarantined n).

Lemma deliver_delivered_ok {Coll : Collation} d nodeId row r :
  row ∈ listRoutes d → deliver d nodeId row = Ok (Some r) → delivered_ok d nodeId r.
Proof.
  unfold listRoutes. rewrite elem_of_js_sort, elem_of_where. intros [Hen Hin]. unfold deliver.
  destruct (cidrToGoIPNet (Route.network_cidr row)) as [net|] eqn:Ec; [|done].
  destruct (parseJsonColumn _ _) as [| | | | |specs|]; try done.
  destruct (gateways_of d 0 specs) as [gs|] eqn:Eg; [|done].
  destruct (existsb g_is_healthy gs) eqn:Eh; [|done]. simpl.
  destruct (existsb (names_node nodeId) specs) eqn:En; [done|]. intros [= <-].
  exists row. cbn. split_and!; auto.
  - apply existsb_exists in Eh as (g & Hg & Hh). exists g. by rewrite elem_of_js_sort, list_elem_of_In.
  - intros g. rewrite elem_of_js_sort. intros Hg.
    destruct (gateways_of_elem _ _ _ _ _ Eg Hg) as (j & spec & Hs & Ho).
    apply gateway_of_some in Ho as (n & Hn & Hf & Hid & Hh). split; [|eauto].
    intros E. rewrite <- not_true_iff_false in En. apply En, existsb_exists. exists spec.
    rewrite <- list_elem_of_In. split; [done|]. unfold names_node. rewrite Hf, <- Hid, E.
    apply String.eqb_refl.
Qed.

(** Delivered routes are usable.  When every enabled route stores its
    gateways as a list of objects, [routesFor] answers; and every route it
    delivers comes from an enabled row, is encoded as its masked network, has at
    least one healthy gateway, never has the receiving node among its gateways,
    and shows each gateway's health as the nodes table has it now, a quarantined
    node counting as unhealthy. *)
Theorem routesFor_delivers {Coll : Collation} d nodeId :
  (Forall well_formed (listRoutes d) → ∃ rs, routesFor nodeId d = Ok rs) ∧
  (∀ rs r, routesFor nodeId d = Ok rs → r ∈ rs → delivered_ok d nodeId r).
Proof.
  unfold routesFor. split; [apply deliver_all_ok|]. intros rs r Hrs Hr.
  destruct (deliver_all_elem _ _ _ _ _ Hrs Hr) as (row & Hrow & Hd). by eapply deliver_delivered_ok.
Qed.

(** Every change of the routes reaches the nodes: a route created, and a
    route deleted, advances the route epoch and the netmap version by one each;
    a creation that throws stores nothing. *)
Theorem route_change_advances_epochs d :
  AclFacts.epochs_seeded d →
  (∀ random now route id d', createRoute random now route d = (Ok id, d') →
     AclFacts.advanced "routes" d d' ∧
     ∃ r, Db.network_routes d' = Db.network_routes d ++ [r] ∧ Route.enabled r = true ∧
          cidrToGoIPNet (Route.network_cidr r) ≠ None) ∧
  (∀ random now route st msg d', createRoute random now route d = (Throw st msg, d') → d' = d) ∧
  (∀ id, AclFacts.advanced "routes" d (deleteRoute id d).2).
Proof.
  intros Hs. split_and!.
  - intros * H. apply createRoute_ok in H as (r & Hen & Hc & ->). split.
    + eapply RuleOps.advanced_frame; [|apply AclFacts.bumpEpoch_advances; [exact Hs|by right]]; reflexivity.
    + exists r. by destruct (RuleOps.bump_tables "routes" (d <| Db.network_routes ::= λ l, l ++ [r] |>))
        as (_ & _ & -> & _).
  - intros * H. unfold createRoute in H. destruct (cidrToGoIPNet _) eqn:Ec; [|by run_inv].
    run_inv; RuleOps.reads_inv; try done.
    match goal with H : or_db_error _ _ = _ |- _ => apply or_db_error_ok in H as [Hr ->] end.
    destruct (bool_decide _ && _); [|unfold db_error in H]; by run_inv.
  - intros id. unfold deleteRoute, eff_bind, modify.
    eapply RuleOps.advanced_frame; [|apply AclFacts.bumpEpoch_advances; [exact Hs|by right]]; reflexivity.
Qed.

Lemma route_change_advances_epochs_witness :
  AclFacts.advanced "routes" AclSample.db
    (createRoute "0" 0 (JObj [("network_cidr", JStr "10.0.0.0/24")]) AclSample.db).2.
Proof.
  destruct (createRoute "0" 0 (JObj [("network_cidr", JStr "10.0.0.0/24")]) AclSample.db) as [r d'] eqn:E.
  assert (r = Ok "route-0") as -> by (vm_compute in E; congruence).
  exact (proj1 (proj1 (route_change_advances_epochs AclSample.db AclSample.db_seeded) _ _ _ _ _ E)).
Defined.
