(* ===== verification/Revocation.v ===== *)
(** * Node credentials and key revocation

    [services/NodeCredentialService.js] and [services/RevocationEngine.js].  The
    digest of a token ([crypto.createHash('sha256')], in hexadecimal) is the
    parameter [sha256]; the theorems that need it assume no collision among the
    tokens at hand.  Random identifiers and the clock are arguments. *)

From S2P Require Import Prelude Order Js Encoding Cidr Db Vip Acl.
Import Vip.

Module Credentials.

Definition HOUR : Z := 3600 * 1000.
Definition TOKEN_PREFIX : string := "nnt1_".

Record minted := mk_minted { credentialId : string; credential : string; expiresAt : Z }.

(** The answer of [validateCredential]. *)
Inductive cred_result :=
  | Denied (status : Z) (error : string) (quarantined : bool)
  | Granted (node_id role userId credential_id : string) (expires : Z).

Section WithHash.
Context (sha256 : string → string).

Definition hashToken (rawToken : string) : string := sha256 (trim rawToken).

(** [rnd] and [rnd_id] are the hexadecimal texts of the random bytes. *)
Definition mintCredential (rnd rnd_id : string) (now : Z) (nodeId : string) (ttlHours : Z) :
    eff Db.t minted :=
  if (nodeId =? "")%string then throw None "nodeId is required to mint a credential" else
  let credential := TOKEN_PREFIX +:+ rnd in
  let tokenHash := hashToken credential in
  let credId := "nc_" +:+ rnd_id in
  let expires := now + ttlHours * HOUR in
  d <-! get ;
  if existsb (λ n, (Node.id n =? nodeId)%string) (Db.nodes d) &&
     negb (existsb (λ c, (Credential.id c =? credId)%string || (Credential.token_hash c =? tokenHash)%string)
             (Db.node_credentials d))
  then
    modify (λ d, d <| Db.node_credentials ::= λ l,
      l ++ [Credential.mk credId nodeId tokenHash expires None None] |>) ;!
    eff_ret (mk_minted credId credential expires)
  else db_error.

(** The join of a credential with its node. *)
Definition credential_rows (d : Db.t) (tokenHash : string) : list (Credential.t * Node.t) :=
  where_ (λ c, (Credential.token_hash c =? tokenHash)%string) (Db.node_credentials d) ≫= λ c,
  (λ n, (c, n)) <$> where_ (λ n, (Node.id n =? Credential.node_id c)%string) (Db.nodes d).

Definition touch (id : string) (now : Z) (d : Db.t) : Db.t :=
  d <| Db.node_credentials ::=
         update_where (λ c, (Credential.id c =? id)%string) (λ c, c <| Credential.last_used_at := Some now |>) |>.

(** [rawToken] is what the caller found in the header; the update of
    [last_used_at] is issued and not waited for. *)
Definition validateCredential (rawToken : jsval) (now : Z) : eff Db.t cred_result :=
  match rawToken with
  | JStr raw =>
      if (raw =? "")%string then eff_ret (Denied 401 "authorization bearer token required" false) else
      let tokenHash := hashToken (trim raw) in
      d <-! get ;
      match credential_rows d tokenHash with
      | [] => eff_ret (Denied 401 "invalid node credential" false)
      | (c, n) :: _ =>
          match Credential.revoked_at c with
          | Some _ => eff_ret (Denied 401 "node credential has been revoked" false)
          | None =>
              if Credential.expires_at c <? now then eff_ret (Denied 401 "node credential has expired" false)
              else if Node.is_quarantined n then eff_ret (Denied 403 "node is quarantined" true)
              else
                modify (touch (Credential.id c) now) ;!
                eff_ret (Granted (Credential.node_id c) (Node.role n) (Node.user_id n) (Credential.id c)
                           (Credential.expires_at c))
          end
      end
  | _ => eff_ret (Denied 401 "authorization bearer token required" false)
  end.

Definition revoke_rows (nodeId : string) (now : Z) : list Credential.t → list Credential.t :=
  update_where (λ c, (Credential.node_id c =? nodeId)%string &&
                     match Credential.revoked_at c with None => true | Some _ => false end)
    (λ c, c <| Credential.revoked_at := Some now |>).

Definition revokeNodeCredentials (nodeId : string) (now : Z) : eff Db.t Z :=
  if (nodeId =? "")%string then eff_ret 0 else
  d <-! get ;
  modify (λ d, d <| Db.node_credentials ::= revoke_rows nodeId now |>) ;!
  eff_ret (Z.of_nat (length (where_ (λ c, (Credential.node_id c =? nodeId)%string &&
    match Credential.revoked_at c with None => true | Some _ => false end) (Db.node_credentials d)))).

(** [None] is [{ rotated: false }]; every error is caught and reads so too. *)
Definition checkAndRotateCredential (rnd rnd_id : string) (now : Z) (credId nodeId : string)
    (remainingHoursThreshold : Z) : eff Db.t (option minted) :=
  λ d,
    match select1 (λ c, (Credential.id c =? credId)%string) (Db.node_credentials d) with
    | None => (Ok None, d)
    | Some c =>
        if Credential.expires_at c - now <? remainingHoursThreshold * HOUR then
          match mintCredential rnd rnd_id now nodeId 24 d with
          | (Throw _ _, d') => (Ok None, d')
          | (Ok m, d') =>
              (Ok (Some m),
               d' <| Db.node_credentials ::= update_where (λ c, (Credential.id c =? credId)%string)
                       (λ c, c <| Credential.revoked_at := Some now |>) |>)
          end
        else (Ok None, d)
    end.
End WithHash.
End Credentials.

Module Revocation.
Import Credentials.

(** [reason LIKE 'quarantine:%']. *)
Definition is_quarantine_reason (reason : string) : bool := startsWith "quarantine:" reason.

(** The row after [ON CONFLICT DO UPDATE]. *)
Definition merge_revocation (new old : Revoked.t) : Revoked.t :=
  old <| Revoked.reason :=
        (if is_quarantine_reason (Revoked.reason new) && negb (is_quarantine_reason (Revoked.reason old))
         then Revoked.reason old else Revoked.reason new) |>
      <| Revoked.revoked_by := Revoked.revoked_by new |>
      <| Revoked.revoked_at := Revoked.revoked_at new |>
      <| Revoked.expires_at := Revoked.expires_at new |>.

Definition upsert_revocation (new : Revoked.t) (l : list Revoked.t) : list Revoked.t :=
  if existsb (λ r, (Revoked.public_key_hex r =? Revoked.public_key_hex new)%string) l
  then update_where (λ r, (Revoked.public_key_hex r =? Revoked.public_key_hex new)%string) (merge_revocation new) l
  else l ++ [new].

Section WithRetention.
(** [SOVEREIGN_REVOCATION_RETENTION_HOURS], 24 unless configured. *)
Context (RETENTION_HOURS : Z).

Fixpoint revoke_credentials (ids : list string) (now : Z) : eff Db.t unit :=
  match ids with
  | [] => eff_ret tt
  | id :: rest => revokeNodeCredentials id now ;! revoke_credentials rest now
  end.

(** The loop over the rows: the keys revoked, in order.  A reason over the 64
    characters of its column is refused by the database. *)
Fixpoint revoke_rows_loop (rows : list Node.t) (reason : string) (actorId : option string) (now : Z) :
    eff Db.t (list string) :=
  match rows with
  | [] => eff_ret []
  | row :: rest =>
      match normalisePublicKeyHex (Node.public_key row) with
      | None => revoke_rows_loop rest reason actorId now
      | Some keyHex =>
          (if len reason <=? 64
           then modify (λ d, d <| Db.revoked_keys ::= upsert_revocation
             (Revoked.mk keyHex (Some (Node.id row)) reason actorId now (now + RETENTION_HOURS * HOUR)) |>)
           else db_error) ;!
          revoked <-! revoke_rows_loop rest reason actorId now ;
          eff_ret (keyHex :: revoked)
      end
  end.

(** [in_tx]: called with a client, inside somebody else's transaction. *)
Definition revokeNodeKeys (nodeIds : list string) (reason : string) (actorId : option string)
    (in_tx : bool) (now : Z) : eff Db.t (list string) :=
  let ids := where_ (λ i, negb (i =? "")%string) nodeIds in
  match ids with
  | [] => eff_ret []
  | _ =>
      d <-! get ;
      let rows := where_ (λ n, bool_decide (Node.id n ∈ ids)) (Db.nodes d) in
      revoke_credentials ids now ;!
      revoked <-! revoke_rows_loop rows reason actorId now ;
      match revoked with
      | [] => eff_ret []
      | _ =>
          (if in_tx then modify (λ d, Acl.bump "netmap" (Acl.bump "acl" d))
           else (Acl.bumpEpoch "acl" ;! eff_ret tt)) ;!
          eff_ret revoked
      end
  end.

Definition revokeUserNodes (userId reason : string) (actorId : option string) (now : Z) :
    eff Db.t (list string) :=
  d <-! get ;
  revokeNodeKeys (Node.id <$> where_ (λ n, (Node.user_id n =? userId)%string) (Db.nodes d)) reason actorId
    false now.

Definition isRevoked (publicKeyHex : string) (now : Z) (d : Db.t) : bool :=
  match normalisePublicKeyHex publicKeyHex with
  | None => false
  | Some keyHex =>
      existsb (λ r, (Revoked.public_key_hex r =? keyHex)%string && (now <? Revoked.expires_at r)) (Db.revoked_keys d)
  end.

Definition quarantine_entry (nodeId : string) (r : Revoked.t) : bool :=
  opt_is (Revoked.node_id r) nodeId && is_quarantine_reason (Revoked.reason r).

Definition liftQuarantineRevocation (nodeId : string) : eff Db.t (list string) :=
  d <-! get ;
  match where_ (quarantine_entry nodeId) (Db.revoked_keys d) with
  | [] => eff_ret []
  | rows =>
      modify (λ d, d <| Db.revoked_keys ::= delete_where (quarantine_entry nodeId) |>) ;!
      Acl.bumpEpoch "acl" ;!
      eff_ret (Revoked.public_key_hex <$> rows)
  end.

Definition activeRevocations (now : Z) (d : Db.t) : list string :=
  Revoked.public_key_hex <$>
    js_sort (λ a b, Revoked.revoked_at b - Revoked.revoked_at a)
      (where_ (λ r, now <? Revoked.expires_at r) (Db.revoked_keys d)).

Definition purgeExpired (now : Z) : eff Db.t unit :=
  modify (λ d, d <| Db.revoked_keys ::= delete_where (λ r, Revoked.expires_at r <=? now) |>).
End WithRetention.
End Revocation.

(** ** Lemmas *)
Module RevocationFacts.
Import Credentials Revocation.

(** Every credential of the node is revoked. *)
Definition credentials_revoked (id : string) (l : list Credential.t) : Prop :=
  ∀ c, c ∈ l → Credential.node_id c = id → Credential.revoked_at c ≠ None.

Lemma revoke_rows_elem nodeId now l c :
  c ∈ revoke_rows nodeId now l →
  ∃ c0, c0 ∈ l ∧ Credential.node_id c = Credential.node_id c0 ∧
        Credential.token_hash c = Credential.token_hash c0 ∧ Credential.id c = Credential.id c0 ∧
        (Credential.revoked_at c0 ≠ None → Credential.revoked_at c ≠ None) ∧
        (Credential.node_id c0 = nodeId → Credential.revoked_at c ≠ None).
Proof.
  unfold revoke_rows. intros H. apply elem_of_update in H as (c0 & Hin & ->). exists c0.
  destruct (Credential.node_id c0 =? nodeId)%string eqn:E; simpl;
    destruct (Credential.revoked_at c0) eqn:Er; cbn; b2p; split_and!; auto; congruence.
Qed.

Lemma revoke_rows_effective nodeId now l : credentials_revoked nodeId (revoke_rows nodeId now l).
Proof. intros c Hc Hid. apply revoke_rows_elem in Hc as (c0 & _ & E & _ & _ & _ & H). apply H. congruence. Qed.

Lemma revoke_rows_keeps nodeId now id l :
  credentials_revoked id l → credentials_revoked id (revoke_rows nodeId now l).
Proof.
  intros H c Hc Hid. apply revoke_rows_elem in Hc as (c0 & Hin & E & _ & _ & Hk & _).
  apply Hk, H; [done|congruence].
Qed.

(** The parts of the store a step over credentials or revocations leaves alone. *)
Definition same_fleet (d d' : Db.t) : Prop :=
  Db.nodes d' = Db.nodes d ∧ Db.mesh_epochs d' = Db.mesh_epochs d.

Lemma revoke_credentials_run ids now d :
  ∃ l, revoke_credentials ids now d = (Ok tt, d <| Db.node_credentials := l |>) ∧
    (∀ id, id ∈ ids → id ≠ "" → credentials_revoked id l) ∧
    (∀ id, credentials_revoked id (Db.node_credentials d) → credentials_revoked id l).
Proof.
  revert d. induction ids as [|i ids IH]; intros d.
  - exists (Db.node_credentials d). split; [by destruct d|]. split; [|done].
    intros id H. by apply elem_of_nil in H.
  - cbn [revoke_credentials]. unfold eff_bind, revokeNodeCredentials.
    destruct (i =? "")%string eqn:Ei; b2p.
    + destruct (IH d) as (l & E & H1 & H2). exists l. unfold eff_ret. split; [exact E|]. split; [|exact H2].
      intros id Hid Hne. apply elem_of_cons in Hid as [->|Hid]; [done|by apply H1].
    + unfold eff_bind, get, modify, eff_ret. set (d1 := d <| Db.node_credentials ::= revoke_rows i now |>).
      destruct (IH d1) as (l & E & H1 & H2). exists l. split; [exact E|]. split.
      * intros id Hid Hne. apply elem_of_cons in Hid as [->|Hid]; [|by apply H1].
        apply H2. apply revoke_rows_effective.
      * intros id Hid. apply H2. by apply revoke_rows_keeps.
Qed.

(** The key is on the list until [e] at least. *)
Definition on_list (key : string) (e : Z) (l : list Revoked.t) : Prop :=
  ∃ r, r ∈ l ∧ Revoked.public_key_hex r = key ∧ Revoked.expires_at r = e.

Lemma upsert_on_list new l : on_list (Revoked.public_key_hex new) (Revoked.expires_at new) (upsert_revocation new l).
Proof.
  unfold upsert_revocation. destruct (existsb _ l) eqn:E.
  - apply existsb_exists in E as (r & Hr & Hk). exists (merge_revocation new r).
    split; [|b2p; by split]. apply elem_of_update. exists r. rewrite list_elem_of_In. by rewrite Hk.
  - exists new. split; [|done]. apply elem_of_app. right. left.
Qed.

Lemma upsert_keeps_on_list new l key :
  on_list key (Revoked.expires_at new) l → on_list key (Revoked.expires_at new) (upsert_revocation new l).
Proof.
  intros (r & Hr & Hk & He). unfold upsert_revocation. destruct (existsb _ l).
  - destruct (Revoked.public_key_hex r =? Revoked.public_key_hex new)%string eqn:E.
    + exists (merge_revocation new r). split; [|by split]. apply elem_of_update. exists r. by rewrite E.
    + exists r. split; [|by split]. apply elem_of_update. exists r. by rewrite E.
  - exists r. split; [|by split]. apply elem_of_app. by left.
Qed.

(** The key is on the list for a reason other than a quarantine. *)
Definition held (key : string) (l : list Revoked.t) : Prop :=
  ∃ r, r ∈ l ∧ Revoked.public_key_hex r = key ∧ is_quarantine_reason (Revoked.reason r) = false.

Lemma upsert_keeps_held new l key :
  is_quarantine_reason (Revoked.reason new) = true → held key l → held key (upsert_revocation new l).
Proof.
  intros Hq (r & Hr & Hk & Hh). unfold upsert_revocation. destruct (existsb _ l).
  - destruct (Revoked.public_key_hex r =? Revoked.public_key_hex new)%string eqn:E.
    + exists (merge_revocation new r). split; [apply elem_of_update; exists r; by rewrite E|].
      split; [done|]. cbn. by rewrite Hq, Hh.
    + exists r. split; [apply elem_of_update; exists r; by rewrite E|done].
  - exists r. split; [apply elem_of_app; by left|done].
Qed.

Section Loop.
Context (RET : Z).

Lemma revoke_rows_loop_run rows reason actorId now d o d' :
  revoke_rows_loop RET rows reason actorId now d = (o, d') →
  ∃ l, d' = d <| Db.revoked_keys := l |> ∧
    (∀ key, on_list key (now + RET * HOUR) (Db.revoked_keys d) → on_list key (now + RET * HOUR) l) ∧
    (∀ key, is_quarantine_reason reason = true → held key (Db.revoked_keys d) → held key l) ∧
    (∀ ks, o = Ok ks → ∀ n key, n ∈ rows → normalisePublicKeyHex (Node.public_key n) = Some key →
       key ∈ ks ∧ on_list key (now + RET * HOUR) l).
Proof.
  revert d o d'. induction rows as [|row rows IH]; intros d o d'; cbn [revoke_rows_loop].
  - intros [= <- <-]. exists (Db.revoked_keys d). split_and!; auto; [by destruct d|].
    intros ks _ n key H. by apply elem_of_nil in H.
  - destruct (normalisePublicKeyHex (Node.public_key row)) as [k|] eqn:Ek.
    + destruct (len reason <=? 64).
      2:{ unfold eff_bind, db_error, throw. intros [= <- <-]. exists (Db.revoked_keys d).
          split_and!; auto; [by destruct d|done]. }
      unfold eff_bind at 1, modify.
      set (new := Revoked.mk k _ _ _ _ _). set (d1 := d <| Db.revoked_keys ::= upsert_revocation new |>).
      unfold eff_bind. destruct (revoke_rows_loop RET rows reason actorId now d1) as [o1 d2] eqn:E1.
      intros H. destruct (IH _ _ _ E1) as (l & -> & H1 & H2 & H3).
      assert (d' = d <| Db.revoked_keys := l |>) as -> by (destruct o1; by injection H).
      exists l. split; [done|]. split; [|split].
      * intros key Hk. apply H1. by apply (upsert_keeps_on_list new).
      * intros key Hq Hk. apply H2; [done|]. by apply upsert_keeps_held.
      * intros ks ->. destruct o1 as [ks1|]; [|done]. injection H as <-. intros n key Hn Hkey.
        apply elem_of_cons in Hn as [->|Hn].
        -- assert (key = k) as -> by congruence. split; [left|]. apply H1. apply (upsert_on_list new).
        -- destruct (H3 _ eq_refl n key Hn Hkey). split; [by right|done].
    + intros H. destruct (IH _ _ _ H) as (l & Hd & H1 & H2 & H3). exists l. split_and!; auto.
      intros ks Hks n key Hn Hkey. apply elem_of_cons in Hn as [->|Hn]; [congruence|eauto].
Qed.
End Loop.
End RevocationFacts.

(** ** Theorems *)
Import Credentials Revocation RevocationFacts.

Lemma credential_rows_elem d h c n :
  (c, n) ∈ credential_rows d h →
  c ∈ Db.node_credentials d ∧ Credential.token_hash c = h ∧ n ∈ Db.nodes d ∧ Node.id n = Credential.node_id c.
Proof.
  unfold credential_rows. intros H. apply list_elem_of_bind in H as (c' & H & Hc).
  apply list_elem_of_fmap in H as (n' & [= -> ->] & Hn).
  apply elem_of_where in Hc as [Hh Hc]. apply elem_of_where in Hn as [Hid Hn]. by b2p.
Qed.

Lemma validate_granted sha256 raw now d nid role uid cid e d' :
  validateCredential sha256 raw now d = (Ok (Granted nid role uid cid e), d') →
  ∃ text c n, raw = JStr text ∧ (c, n) ∈ credential_rows d (hashToken sha256 (trim text)) ∧
    Credential.revoked_at c = None ∧ now <= Credential.expires_at c ∧ Node.is_quarantined n = false ∧
    nid = Node.id n ∧ nid = Credential.node_id c ∧ role = Node.role n ∧ uid = Node.user_id n ∧
    cid = Credential.id c ∧ e = Credential.expires_at c.
Proof.
  unfold validateCredential. destruct raw as [| | | |text| |]; try done.
  destruct (text =? "")%string; [done|]. unfold eff_bind, get, eff_ret, modify.
  destruct (credential_rows _ _) as [|[c n] rest] eqn:Er; [done|].
  destruct (Credential.revoked_at c) eqn:Ev; [done|].
  destruct (Credential.expires_at c <? now) eqn:Ee; [done|].
  destruct (Node.is_quarantined n) eqn:Eq; [done|]. intros [= <- <- <- <- <- <-].
  assert ((c, n) ∈ credential_rows d (hashToken sha256 (trim text))) as Hin by (rewrite Er; left).
  destruct (credential_rows_elem _ _ _ _ Hin) as (_ & _ & _ & Hid). b2p.
  exists text, c, n. split_and!; auto.
Qed.

(** A granted credential is live.  When [validateCredential] grants a token,
    a stored credential carries the token's digest, is not revoked, has not
    expired, belongs to an existing node that is not quarantined, and the
    identity returned is that node's: nothing is granted on the caller's word. *)
Theorem validateCredential_sound sha256 raw now d nid role uid cid e d' :
  validateCredential sha256 raw now d = (Ok (Granted nid role uid cid e), d') →
  ∃ text c n, raw = JStr text ∧ c ∈ Db.node_credentials d ∧ n ∈ Db.nodes d ∧
    Credential.token_hash c = sha256 (trim (trim text)) ∧ Credential.revoked_at c = None ∧
    now <= Credential.expires_at c ∧ Credential.node_id c = nid ∧ Node.id n = nid ∧
    Node.is_quarantined n = false ∧ Node.role n = role ∧ Node.user_id n = uid ∧ Credential.id c = cid.
Proof.
  intros H. apply validate_granted in H as (text & c & n & -> & Hr & ? & ? & ? & -> & ? & -> & -> & -> & ->).
  apply credential_rows_elem in Hr as (Hc & Hh & Hn & Hid).
  exists text, c, n. split_and!; auto; congruence.
Qed.

(** A node with one credential, for the witnesses. *)
Definition sample_key : string := hex_encode (replicate 32 7).
Definition sample_db : Db.t :=
  AclSample.db
    <| Db.nodes ::= fmap (λ n, n <| Node.public_key := sample_key |>) |>
    <| Db.node_credentials := [Credential.mk "nc_1" "n1" "nnt1_ab" 100 None None] |>.

Lemma validateCredential_sound_witness : ∃ c,
  c ∈ Db.node_credentials sample_db ∧ Credential.token_hash c = trim (trim "nnt1_ab").
Proof.
  destruct (validateCredential_sound (λ s, s) (JStr "nnt1_ab") 50 sample_db "n1" "HYBRID" "usr-1" "nc_1" 100
    (touch "nc_1" 50 sample_db)) as (text & c & n & E & Hc & _ & Hh & _); [vm_compute; reflexivity|].
  exists c. injection E as <-. split; [exact Hc|exact Hh].
Defined.

(** What [revokeNodeKeys] leaves in the store, whatever its outcome. *)
Record revoked_state (RET : Z) (ids : list string) (reason : string) (now : Z) (d : Db.t)
    (o : outcome (list string)) (d' : Db.t) : Prop := {
  rs_nodes : Db.nodes d' = Db.nodes d;
  rs_held : ∀ key, is_quarantine_reason reason = true → held key (Db.revoked_keys d) →
    held key (Db.revoked_keys d');
  rs_credentials : ∀ id, id ∈ ids → id ≠ "" → credentials_revoked id (Db.node_credentials d');
  rs_keys : ∀ ks n key, o = Ok ks → n ∈ Db.nodes d → Node.id n ∈ ids → Node.id n ≠ "" →
    normalisePublicKeyHex (Node.public_key n) = Some key →
    key ∈ ks ∧ on_list key (now + RET * HOUR) (Db.revoked_keys d');
}.

(** The credential pass followed by the key pass. *)
Definition revoke_body (RET : Z) (live : list string) (reason : string) (actorId : option string) (now : Z) :
    eff Db.t (list string) :=
  d <-! get ;
  revoke_credentials live now ;!
  revoke_rows_loop RET (where_ (λ n, bool_decide (Node.id n ∈ live)) (Db.nodes d)) reason actorId now.

Lemma revoke_body_run RET ids live reason actorId now d o d' :
  (∀ id, id ∈ ids → id ≠ "" → id ∈ live) → revoke_body RET live reason actorId now d = (o, d') →
  Db.mesh_epochs d' = Db.mesh_epochs d ∧
  ∀ f, revoked_state RET ids reason now d o (d' <| Db.mesh_epochs ::= f |>).
Proof.
  intros Hlive. unfold revoke_body, get, eff_bind at 1. cbv beta.
  destruct (revoke_credentials_run live now d) as (lc & Ec & Hc & _).
  unfold eff_bind. rewrite Ec. intros H.
  destruct (revoke_rows_loop_run _ _ _ _ _ _ _ _ H) as (lr & -> & H1 & H2 & H3).
  split; [done|]. intros f. split; [done|exact H2|intros id Hid Hn; apply Hc; auto|].
  intros ks n key Hks Hn Hid Hne Hkey. apply (H3 ks Hks n key); [|done].
  apply elem_of_where. split; [|done]. apply bool_decide_eq_true. auto.
Qed.

Lemma revokeNodeKeys_body RET ids reason actorId in_tx now d :
  let live := where_ (λ i, negb (i =? "")%string) ids in
  revokeNodeKeys RET ids reason actorId in_tx now d =
  match live with
  | [] => (Ok [], d)
  | _ =>
      match revoke_body RET live reason actorId now d with
      | (Ok (k :: ks), d1) => (Ok (k :: ks), Acl.bump "netmap" (Acl.bump "acl" d1))
      | r => r
      end
  end.
Proof.
  cbv zeta. unfold revokeNodeKeys. destruct (where_ _ ids) as [|i l]; [done|].
  unfold revoke_body, eff_bind, get. cbv beta.
  destruct (revoke_credentials _ _ _) as [[u|] d1]; [|done].
  destruct (revoke_rows_loop _ _ _ _ _ _) as [[[|k ks]|] d2]; [done| |done].
  destruct in_tx; [done|]. by rewrite AclFacts.bumpEpoch_run.
Qed.

Lemma revokeNodeKeys_run RET ids reason actorId in_tx now d o d' :
  revokeNodeKeys RET ids reason actorId in_tx now d = (o, d') →
  revoked_state RET ids reason now d o d' ∧
  (∀ ks, o = Ok ks → ks ≠ [] → AclFacts.epochs_seeded d → AclFacts.advanced "acl" d d').
Proof.
  rewrite revokeNodeKeys_body. cbv zeta. set (live := where_ _ ids).
  assert (∀ id, id ∈ ids → id ≠ "" → id ∈ live) as Hlive.
  { intros id Hid Hne. apply elem_of_where. rewrite negb_true_iff, String.eqb_neq. done. }
  destruct live as [|i l] eqn:El.
  { intros [= <- <-]. split; [|by intros ks [= <-]]. split; [done|done| |].
    - intros id Hid Hn. specialize (Hlive _ Hid Hn). by apply elem_of_nil in Hlive.
    - intros ks n key [= <-] _ Hid Hn. specialize (Hlive _ Hid Hn). by apply elem_of_nil in Hlive. }
  rewrite <- El in *. destruct (revoke_body RET live reason actorId now d) as [o1 d1] eqn:Eb.
  destruct (revoke_body_run _ _ _ _ _ _ _ _ _ Hlive Eb) as [Hep Hst].
  assert (d1 <| Db.mesh_epochs ::= λ x, x |> = d1) as Hid by (by destruct d1).
  pose proof (Hst (λ x, x)) as Hst0. rewrite Hid in Hst0.
  destruct o1 as [[|k ks]|st msg]; intros [= <- <-].
  - split; [done|]. by intros ks [= <-].
  - split; [apply (Hst (λ m, alter Z.succ "netmap" (alter Z.succ "acl" m)))|]. intros _ _ _ Hs.
    apply (RuleOps.advanced_frame _ _ d1); [done|].
    pose proof (AclFacts.bumpEpoch_advances "acl" d1) as Ha. rewrite AclFacts.bumpEpoch_run in Ha.
    apply Ha; [|by left]. unfold AclFacts.epochs_seeded in *. by rewrite Hep.
  - split; [done|]. by intros ks [=].
Qed.

Lemma on_list_active key e t d :
  on_list key e (Db.revoked_keys d) → t < e → key ∈ activeRevocations t d.
Proof.
  intros (r & Hr & <- & <-) Ht. unfold activeRevocations.
  apply list_elem_of_fmap_2, elem_of_js_sort, elem_of_where. split; [lia|done].
Qed.

Lemma on_list_isRevoked raw key e t d :
  normalisePublicKeyHex raw = Some key → on_list key e (Db.revoked_keys d) → t < e → isRevoked raw t d = true.
Proof.
  intros Hk (r & Hr & E & <-) Ht. unfold isRevoked. rewrite Hk. apply existsb_exists. exists r.
  rewrite <- list_elem_of_In, E, String.eqb_refl. split; [done|]. simpl. lia.
Qed.

(** Revocation takes hold.  After [revokeNodeKeys] returns for a list of
    nodes, every one of them with a usable key is on the list delivered to the
    fleet, and refused by [isRevoked], for the whole retention window; no token
    of any of them is granted from then on; and when a key was revoked, the ACL
    epoch and the netmap version have both advanced. *)
Theorem revokeNodeKeys_effective RET sha256 ids reason actorId in_tx now d ks d' :
  revokeNodeKeys RET ids reason actorId in_tx now d = (Ok ks, d') →
  (∀ n key t, n ∈ Db.nodes d → Node.id n ∈ ids → Node.id n ≠ "" →
     normalisePublicKeyHex (Node.public_key n) = Some key → t < now + RET * HOUR →
     key ∈ ks ∧ key ∈ activeRevocations t d' ∧ isRevoked (Node.public_key n) t d' = true) ∧
  (∀ raw t nid role uid cid e d'', nid ≠ "" →
     validateCredential sha256 raw t d' = (Ok (Granted nid role uid cid e), d'') → nid ∉ ids) ∧
  (ks ≠ [] → AclFacts.epochs_seeded d → AclFacts.advanced "acl" d d').
Proof.
  intros H. destruct (revokeNodeKeys_run _ _ _ _ _ _ _ _ _ H) as [[_ _ Hc Hk] Ha]. split_and!; [| |by apply Ha].
  - intros n key t Hn Hid Hne Hkey Ht. destruct (Hk ks n key eq_refl Hn Hid Hne Hkey) as [Hin Hon].
    split; [done|]. split; [by eapply on_list_active|by eapply on_list_isRevoked].
  - intros raw t nid role uid cid e d'' Hne Hg Hin.
    apply validate_granted in Hg as (text & c & n & _ & Hr & Hv & _ & _ & _ & E & _).
    apply credential_rows_elem in Hr as (Hcin & _). by apply (Hc nid Hin Hne c Hcin).
Qed.

Lemma revokeNodeKeys_effective_witness :
  let d' := (revokeNodeKeys 24 ["n1"] "manual" None false 10 sample_db).2 in
  sample_key ∈ activeRevocations 11 d' ∧ isRevoked sample_key 11 d' = true.
Proof.
  destruct (revokeNodeKeys 24 ["n1"] "manual" None false 10 sample_db) as [o d'] eqn:E.
  assert (o = Ok [sample_key]) as ->
    by (apply (f_equal fst) in E; etransitivity; [symmetry; exact E|]; vm_compute; reflexivity).
  destruct (revokeNodeKeys_effective 24 (λ s, s) ["n1"] "manual" None false 10 sample_db _ d' E) as [H _].
  cbv zeta. cbn [snd].
  destruct (H ((AclSample.node "n1" "100.64.0.1" (Some "org-a") None) <| Node.public_key := sample_key |>) sample_key 11)
    as (_ & Ha & Hr);
    [right; left|left|discriminate|vm_compute; reflexivity|vm_compute; reflexivity|].
  split; [exact Ha|exact Hr].
Defined.

Lemma lift_run nodeId d o d' :
  liftQuarantineRevocation nodeId d = (o, d') →
  Db.revoked_keys d' = delete_where (quarantine_entry nodeId) (Db.revoked_keys d).
Proof.
  unfold liftQuarantineRevocation, eff_bind, get, modify. cbv beta.
  destruct (where_ (quarantine_entry nodeId) (Db.revoked_keys d)) as [|r rows] eqn:E.
  - intros [= <- <-]. unfold delete_where. clear - E. induction (Db.revoked_keys d) as [|x l IH]; [done|].
    rewrite where_cons in *. destruct (quarantine_entry nodeId x); [done|]. simpl. f_equal. by apply IH.
  - rewrite AclFacts.bumpEpoch_run. unfold eff_ret. by intros [= <- <-].
Qed.

(** Lifting a quarantine lifts nothing else.  A key on the list for any other
    reason stays on it through a quarantine of the same node, whatever the
    outcome of the call that writes it, and through the lifting of that
    quarantine; and after the lifting no entry of the node with a quarantine
    reason is left. *)
Theorem quarantine_lift_keeps_other_revocations RET ids reason actorId in_tx now d o d1 nodeId o' d2 key :
  is_quarantine_reason reason = true → held key (Db.revoked_keys d) →
  revokeNodeKeys RET ids reason actorId in_tx now d = (o, d1) →
  liftQuarantineRevocation nodeId d1 = (o', d2) →
  held key (Db.revoked_keys d2) ∧
  ∀ r, r ∈ Db.revoked_keys d2 → Revoked.node_id r = Some nodeId → is_quarantine_reason (Revoked.reason r) = false.
Proof.
  intros Hq Hh H1 H2. apply lift_run in H2.
  destruct (revokeNodeKeys_run _ _ _ _ _ _ _ _ _ H1) as [[_ Hheld _ _] _].
  destruct (Hheld key Hq Hh) as (r & Hr & Hk & Hnq). split.
  - exists r. rewrite H2. unfold delete_where. rewrite elem_of_where. unfold quarantine_entry. rewrite Hnq, andb_false_r.
    done.
  - intros r' Hr' Hid. rewrite H2 in Hr'. unfold delete_where in Hr'. rewrite elem_of_where in Hr'.
    unfold quarantine_entry in Hr'. rewrite Hid in Hr'. simpl in Hr'. rewrite String.eqb_refl in Hr'.
    destruct Hr' as [Hr' _]. by apply negb_true_iff in Hr'.
Qed.

Definition sample_held : Db.t :=
  sample_db <| Db.revoked_keys := [Revoked.mk sample_key (Some "n1") "manual" None 0 1000] |>.

Lemma quarantine_lift_keeps_other_revocations_witness :
  held sample_key (Db.revoked_keys (liftQuarantineRevocation "n1"
    (revokeNodeKeys 24 ["n1"] "quarantine:geo" None false 10 sample_held).2).2).
Proof.
  destruct (revokeNodeKeys 24 ["n1"] "quarantine:geo" None false 10 sample_held) as [o d1] eqn:E1.
  destruct (liftQuarantineRevocation "n1" d1) as [o' d2] eqn:E2.
  cbn [snd]. rewrite E2. cbn [snd].
  apply (quarantine_lift_keeps_other_revocations 24 ["n1"] "quarantine:geo" None false 10 sample_held o d1 "n1" o' d2
    sample_key); [reflexivity| |exact E1|exact E2].
  eexists. split; [left|]. split; reflexivity.
Defined.

Lemma where_none {A} (p : A → bool) l : (∀ x, x ∈ l → p x = false) → where_ p l = [].
Proof.
  intros H. destruct (where_ p l) as [|x r] eqn:E; [done|].
  assert (x ∈ where_ p l) as Hx by (rewrite E; left). apply elem_of_where in Hx as [Hp Hx].
  by rewrite H in Hp.
Qed.

Lemma where_single {A B} (f : A → B) (p : A → bool) l x :
  NoDup (f <$> l) → x ∈ l → p x = true → (∀ y, p y = true → f y = f x) → where_ p l = [x].
Proof.
  intros Hn Hx Hp Hf. induction l as [|y l IH]; [by apply elem_of_nil in Hx|].
  apply NoDup_cons in Hn as [Hy Hn]. rewrite where_cons. apply elem_of_cons in Hx as [<-|Hx].
  - rewrite Hp, where_none; [done|]. intros z Hz. apply not_true_is_false. intros Ez. apply Hy.
    rewrite <- (Hf z Ez). by apply list_elem_of_fmap_2.
  - destruct (p y) eqn:E; [|by apply IH]. destruct Hy. rewrite (Hf y E). by apply list_elem_of_fmap_2.
Qed.

(** What a successful mint did. *)
Lemma mint_ok sha256 rnd rnd_id now nodeId ttl d m d' :
  mintCredential sha256 rnd rnd_id now nodeId ttl d = (Ok m, d') →
  m = mk_minted ("nc_" +:+ rnd_id) (TOKEN_PREFIX +:+ rnd) (now + ttl * HOUR) ∧
  d' = d <| Db.node_credentials ::= λ l,
    l ++ [Credential.mk (credentialId m) nodeId (hashToken sha256 (credential m)) (expiresAt m) None None] |> ∧
  ∀ c, c ∈ Db.node_credentials d →
    Credential.id c ≠ credentialId m ∧ Credential.token_hash c ≠ hashToken sha256 (credential m).
Proof.
  unfold mintCredential. destruct (nodeId =? "")%string; [done|]. unfold eff_bind, get. cbv beta zeta.
  destruct (existsb _ (Db.nodes d) && negb (existsb _ _)) eqn:E; [|done].
  unfold modify, eff_ret. intros [= <- <-]. split; [done|]. split; [done|]. intros c Hc. b2p.
  match goal with H : existsb _ _ = false |- _ => rewrite <- not_true_iff_false, existsb_exists in H;
    split; intros Heq; apply H; exists c; rewrite <- list_elem_of_In end;
  (split; [done|]); rewrite orb_true_iff, !String.eqb_eq; tauto.
Qed.

(** A stored, live credential of a node that is not quarantined is granted. *)
Lemma validate_complete sha256 text now d c n :
  NoDup (Node.id <$> Db.nodes d) → n ∈ Db.nodes d → Node.id n = Credential.node_id c →
  text ≠ "" → where_ (λ c, (Credential.token_hash c =? hashToken sha256 (trim text))%string) (Db.node_credentials d) = [c] →
  Credential.revoked_at c = None → now <= Credential.expires_at c → Node.is_quarantined n = false →
  validateCredential sha256 (JStr text) now d =
    (Ok (Granted (Credential.node_id c) (Node.role n) (Node.user_id n) (Credential.id c) (Credential.expires_at c)),
     touch (Credential.id c) now d).
Proof.
  intros Hu Hn Hid Ht Hw Hr He Hq. unfold validateCredential. apply String.eqb_neq in Ht. rewrite Ht.
  unfold eff_bind, get, credential_rows. rewrite Hw. cbn [mbind list_bind].
  rewrite (where_single Node.id _ _ n); [|done|done|by rewrite Hid, String.eqb_refl|].
  2:{ intros y Hy. b2p. congruence. }
  cbn. rewrite Hr, Hq. assert ((Credential.expires_at c <? now) = false) as -> by lia. done.
Qed.

(** Rotation replaces a credential.  When [checkAndRotateCredential] rotates,
    the new token is granted, as the same node, for 24 hours from then on while
    the node is not quarantined; and no token is granted on the old credential
    any more. *)
Theorem rotation_replaces_credential sha256 rnd rnd_id now credId nodeId hours d m d' n t :
  checkAndRotateCredential sha256 rnd rnd_id now credId nodeId hours d = (Ok (Some m), d') →
  no_space rnd = true → NoDup (Node.id <$> Db.nodes d) →
  n ∈ Db.nodes d → Node.id n = nodeId → Node.is_quarantined n = false → t <= now + 24 * HOUR →
  validateCredential sha256 (JStr (credential m)) t d' =
    (Ok (Granted nodeId (Node.role n) (Node.user_id n) (credentialId m) (now + 24 * HOUR)),
     touch (credentialId m) t d') ∧
  ∀ raw t' nid role uid e d'',
    validateCredential sha256 raw t' d' ≠ (Ok (Granted nid role uid credId e), d'').
Proof.
  intros H Hsp Hu Hn Hid Hq Ht. unfold checkAndRotateCredential in H.
  destruct (select1 _ (Db.node_credentials d)) as [c0|] eqn:Es; [|done].
  destruct (_ <? _); [|done].
  destruct (mintCredential sha256 rnd rnd_id now nodeId 24 d) as [[m'|] d1] eqn:Em; [|done].
  injection H as <- <-. apply mint_ok in Em as (Hm & -> & Hfresh). subst m'. cbn [credentialId credential expiresAt] in *.
  apply select1_elem in Es as [Hc0 Hin]. b2p.
  destruct (Hfresh c0 Hin) as [Hne _].
  set (new := Credential.mk ("nc_" +:+ rnd_id) nodeId _ _ None None). split.
  - rewrite (validate_complete _ _ _ _ new n); cbn; auto.
    match goal with |- base.filter _ ?l = _ =>
      change (where_ (λ c, (Credential.token_hash c =? hashToken sha256 (trim (TOKEN_PREFIX +:+ rnd)))%string) l = [new])
    end.
    rewrite fmap_app, where_app. cbn [fmap list_fmap].
    assert ((Credential.id new =? credId)%string = false) as -> by (apply String.eqb_neq; cbn; congruence).
    rewrite where_cons, where_nil. cbn [Credential.token_hash new].
    assert (trim (TOKEN_PREFIX +:+ rnd) = TOKEN_PREFIX +:+ rnd) as ->
      by (apply trim_no_space; unfold no_space in *; by rewrite all_chars_app, Hsp).
    rewrite String.eqb_refl, where_none; [done|]. intros c Hc.
    apply list_elem_of_fmap in Hc as (c1 & -> & Hc1). apply String.eqb_neq.
    destruct (Hfresh c1 Hc1) as [_ Hh]. by destruct (_ =? credId)%string.
  - intros * Hg. apply validate_granted in Hg as (text & c & n' & _ & Hr & Hv & _ & _ & _ & _ & _ & _ & Hcid & _).
    apply credential_rows_elem in Hr as (Hcin & _). cbn in Hcin. apply elem_of_update in Hcin as (c1 & _ & ->).
    destruct (Credential.id c1 =? credId)%string eqn:E; [done|]. b2p. congruence.
Qed.

Lemma rotation_replaces_credential_witness : ∃ d',
  validateCredential (λ s, s) (JStr "nnt1_cd") 60 d' =
    (Ok (Granted "n1" "HYBRID" "usr-1" "nc_2" (50 + 24 * HOUR)), touch "nc_2" 60 d').
Proof.
  destruct (checkAndRotateCredential (λ s, s) "cd" "2" 50 "nc_1" "n1" 12 sample_db) as [o d'] eqn:E.
  exists d'.
  assert (o = Ok (Some (mk_minted "nc_2" "nnt1_cd" (50 + 24 * HOUR)))) as ->
    by (apply (f_equal fst) in E; etransitivity; [symmetry; exact E|]; vm_compute; reflexivity).
  destruct (rotation_replaces_credential (λ s, s) "cd" "2" 50 "nc_1" "n1" 12 sample_db _ d'
    ((AclSample.node "n1" "100.64.0.1" (Some "org-a") None) <| Node.public_key := sample_key |>) 60 E) as [H _];
    [reflexivity|apply (bool_decide_unpack _); vm_compute; exact I|right; left|reflexivity|reflexivity|
     vm_compute; discriminate|].
  exact H.
Defined.
