(* ===== verification/Endpoints.v ===== *)
(** * Endpoint intake: the first half of [services/NetmapService.js]

    What a node may report as its own addresses, and how the report is stored.
    [localeCompare] is the comparison of the runtime's locale, the class
    [Locale]. *)

From S2P Require Import Prelude Order Js Json Cidr Db Acl.

Class Locale := {
  localeCompare : string → string → Z;
  localeCompare_comparator :: Comparator localeCompare;
}.

Module Endpoints.

(** ** Configuration *)

Definition positiveInt (raw : jsval) (fallback : Z) : Z :=
  let n := js_Number raw in if isInteger n && (0 <? to_Z n) then to_Z n else fallback.
Definition nonNegativeInt (raw : jsval) (fallback : Z) : Z :=
  let n := js_Number raw in if isInteger n && (0 <=? to_Z n) then to_Z n else fallback.

Record config := mk_config {
  OVERLAY_MTU : Z; LISTEN_PORT : Z; KEEPALIVE_SECONDS : Z; MAX_STALENESS_SECONDS : Z;
  ENDPOINT_DEBOUNCE_SECONDS : Z;
}.

(** [env] is [process.env]. *)
Definition config_of (env : string → jsval) : config :=
  mk_config (positiveInt (env "SOVEREIGN_OVERLAY_MTU") 1380)
    (positiveInt (env "SOVEREIGN_WG_LISTEN_PORT") 51820)
    (nonNegativeInt (env "SOVEREIGN_NETMAP_KEEPALIVE_SECONDS") 25)
    (positiveInt (env "SOVEREIGN_MAX_NETMAP_STALENESS_SECONDS") 86400)
    (positiveInt (env "SOVEREIGN_ENDPOINT_DEBOUNCE_SECONDS") 30).

Definition MAX_ENDPOINTS : nat := 8.
Definition MAX_ENDPOINT_LENGTH : nat := 64.

(** ** Addresses *)

(** [/^\d{1,3}$/] and at most 255. *)
Definition octet3 (part : string) : option Z :=
  if (1 <=? len part) && (len part <=? 3) && all_chars is_digit part then
    let value := to_Z (string_to_number part) in
    if 255 <? value then None else Some value
  else None.

Fixpoint octets3 (parts : list string) : option (list Z) :=
  match parts with
  | [] => Some []
  | p :: rest => o ← octet3 p; os ← octets3 rest; Some (o :: os)
  end.

Definition parseIPv4 (text : string) : option (list Z) :=
  let parts := split "." text in
  if negb (Nat.eqb (length parts) 4) then None else octets3 parts.

Inductive classified := Bad (reason : string) | Good (family : Z) (addr : string).

Definition is_v6_char (c : ascii) : bool :=
  is_digit c || ((97 <=? code c) && (code c <=? 102)) || (code c =? 58).
Definition is_lower_hex (c : ascii) : bool := is_digit c || ((97 <=? code c) && (code c <=? 102)).

(** [/^fe[89ab][0-9a-f]:/] *)
Definition is_link_local6 (s : string) : bool :=
  match s with
  | String f (String e (String x (String y (String k _)))) =>
      (code f =? 102) && (code e =? 101) && bool_decide (code x ∈ [56; 57; 97; 98]) &&
      is_lower_hex y && (code k =? 58)
  | _ => false
  end.

Definition classifyAddress (text : jsval) : classified :=
  let raw := trim (js_String (js_or text (JStr ""))) in
  if (raw =? "")%string then Bad "empty" else
  match parseIPv4 raw with
  | Some octets =>
      match octets with
      | [a; b; _; _] =>
          if a =? 127 then Bad "loopback"
          else if (a =? 169) && (b =? 254) then Bad "link-local"
          else if forallb (λ o, o =? 0) octets then Bad "unspecified"
          else Good 4 (join "." (pretty <$> octets))
      | _ => Bad "malformed"
      end
  | None =>
      let lower := toLowerCase raw in
      if negb (all_chars is_v6_char lower) || negb (includes_char ":" lower) then Bad "malformed"
      else if (lower =? "::1")%string then Bad "loopback"
      else if (lower =? "::")%string then Bad "unspecified"
      else if is_link_local6 lower then Bad "link-local"
      else Good 6 lower
  end.

Definition renderEndpoint (family : Z) (addr : string) (port : Z) : string :=
  if family =? 6 then "[" +:+ addr +:+ "]:" +:+ pretty port else addr +:+ ":" +:+ pretty port.

(** ** Validation of a report *)

Record endpoint := mk_endpoint {
  ip_address : string; port : Z; protocol : string; is_stun_discovered : bool;
  family : Z; rendered : string;
}.

Definition PROTOCOLS : list string := ["udp"; "tcp"; "ws"; "http3"].

(** [s.replace(/^\[|\]$/g, '')] *)
Definition strip_brackets (s : string) : string :=
  let s1 := match s with String c r => if code c =? 91 then r else s | _ => s end in
  match js_rev s1 with String c r => if code c =? 93 then js_rev r else s1 | _ => s1 end.

(** What one entry gives before the duplicate test: an endpoint, or the entry and
    the reason it is rejected with. *)
Definition read_entry (entry : jsval) : (string * string) + (jsval * jsval * string * bool) :=
  let cut64 s := take_string MAX_ENDPOINT_LENGTH s in
  match entry with
  | JStr e =>
      let text := trim e in
      let cut := lastIndexOf ":" text in
      if cut <=? 0 then inl (cut64 text, "malformed")
      else inr (JStr (strip_brackets (take_string (Z.to_nat cut) text)),
                JStr (drop_string (Z.to_nat (cut + 1)) text), "udp", false)
  | JArr _ | JObj _ =>
      inr (field "ip_address" entry, field "port" entry,
           (if truthy (field "protocol" entry) then toLowerCase (js_String (field "protocol" entry)) else "udp"),
           truthy (field "is_stun_discovered" entry))
  | _ => inl (cut64 (js_String entry), "malformed")
  end.

Definition check_entry (entry : jsval) : (string * string) + endpoint :=
  let cut64 s := take_string MAX_ENDPOINT_LENGTH s in
  match read_entry entry with
  | inl r => inl r
  | inr (addressText, portValue, proto, isStun) =>
      match classifyAddress addressText with
      | Bad reason => inl (cut64 (js_String addressText), reason)
      | Good fam addr =>
          let p := js_Number portValue in
          if negb (isInteger p) || (to_Z p <? 1) || (65535 <? to_Z p)
          then inl (cut64 (addr +:+ ":" +:+ js_String portValue), "port")
          else if negb (bool_decide (proto ∈ PROTOCOLS))
          then inl (renderEndpoint fam addr (to_Z p), "protocol")
          else
            let r := renderEndpoint fam addr (to_Z p) in
            if Z.of_nat MAX_ENDPOINT_LENGTH <? len r then inl (cut64 r, "too long")
            else inr (mk_endpoint addr (to_Z p) proto isStun fam r)
      end
  end.

Definition endpoint_id (e : endpoint) : string := protocol e +:+ "|" +:+ rendered e.

(** The loop: accepted entries, rejections, and the keys already seen. *)
Fixpoint validate_loop (entries : list jsval) (seen : list string) :
    list endpoint * list (string * string) :=
  match entries with
  | [] => ([], [])
  | entry :: rest =>
      match check_entry entry with
      | inl r => let '(a, rej) := validate_loop rest seen in (a, r :: rej)
      | inr e =>
          if bool_decide (endpoint_id e ∈ seen) then validate_loop rest seen
          else let '(a, rej) := validate_loop rest (endpoint_id e :: seen) in (e :: a, rej)
      end
  end.

Record validated := mk_validated {
  endpoints : list endpoint; rejected : list (string * string); truncated : bool;
}.

(** ** Storage *)

Definition endpointKey (l : list endpoint) : string :=
  join "," ((λ e, ip_address e +:+ "|" +:+ pretty (port e) +:+ "|" +:+ protocol e +:+ "|"
                  +:+ (if is_stun_discovered e then "1" else "0")) <$> l).

Definition storedShape (l : list endpoint) : jsval :=
  JArr ((λ e, JObj [("ip_address", JStr (ip_address e)); ("port", JNum (of_Z (port e)));
                    ("protocol", JStr (protocol e)); ("is_stun_discovered", JBool (is_stun_discovered e))]) <$> l).

(** The row after either UPDATE. *)
Definition store_endpoints (l : list endpoint) (bump : bool) (now : Z) (n : Node.t) : Node.t :=
  let n := n <| Node.endpoints := storedShape l |> in
  if bump then n <| Node.endpoints_bumped_at := Some now |> else n.

Record recorded := mk_recorded {
  stored : bool; changed : bool; bumped : bool;
  rec_rejected : list (string * string); rec_truncated : bool;
}.

Section WithLocale.
Context {Loc : Locale}.

Definition endpoint_order (a b : endpoint) : Z :=
  if Bool.eqb (is_stun_discovered a) (is_stun_discovered b)
  then localeCompare (rendered a) (rendered b)
  else if is_stun_discovered a then -1 else 1.

Definition validateEndpoints (raw : jsval) : validated :=
  match raw with
  | JArr entries =>
      let '(accepted, rej) := validate_loop entries [] in
      let sorted := js_sort endpoint_order accepted in
      mk_validated (take MAX_ENDPOINTS sorted) rej (Nat.ltb MAX_ENDPOINTS (length sorted))
  | _ => mk_validated [] [] false
  end.

Definition recordEndpoints (cfg : config) (nodeId : string) (reported : jsval) (now : Z) :
    eff Db.t recorded :=
  let v := validateEndpoints reported in
  d <-! get ;
  match select1 (λ n, (Node.id n =? nodeId)%string) (Db.nodes d) with
  | None => eff_ret (mk_recorded false false false (rejected v) (truncated v))
  | Some row =>
      let previous := validateEndpoints (parseJsonColumn (Node.endpoints row) (JArr [])) in
      if (endpointKey (endpoints previous) =? endpointKey (endpoints v))%string
      then eff_ret (mk_recorded true false false (rejected v) (truncated v))
      else
        let bump := match Node.endpoints_bumped_at row with
                    | Some last => ENDPOINT_DEBOUNCE_SECONDS cfg * 1000 <=? now - last
                    | None => true
                    end in
        modify (λ d, d <| Db.nodes ::= update_where (λ n, (Node.id n =? nodeId)%string)
          (store_endpoints (endpoints v) bump now) |>) ;!
        (if bump then Acl.bumpNetmap ;! eff_ret tt else eff_ret tt) ;!
        eff_ret (mk_recorded true true bump (rejected v) (truncated v))
  end.
End WithLocale.
End Endpoints.

(** ** Lemmas *)
Module EndpointFacts.
Import Endpoints.

(** The decimal strings of one to three digits, enumerated. *)
Definition digits : list ascii := ["0"; "1"; "2"; "3"; "4"; "5"; "6"; "7"; "8"; "9"]%char.
Definition extend (l : list string) : list string := digits ≫= λ c, String c <$> l.
Definition digits1 : list string := extend [""].
Definition digits2 : list string := extend digits1.
Definition digits3 : list string := extend digits2.

Lemma is_digit_elem c : is_digit c = true → c ∈ digits.
Proof.
  intros H. apply (bool_decide_eq_true (c ∈ digits)). revert H.
  destruct c as [[] [] [] [] [] [] [] []]; vm_compute; congruence.
Qed.

Lemma extend_elem c s l : is_digit c = true → s ∈ l → String c s ∈ extend l.
Proof.
  intros Hc Hs. unfold extend. apply list_elem_of_bind. exists c.
  split; [by apply list_elem_of_fmap_2|by apply is_digit_elem].
Qed.

Lemma octet3_bounds p o : octet3 p = Some o → octet o.
Proof.
  assert (forallb (λ p, match octet3 p with Some o => (0 <=? o) && (o <? 256) | None => true end)
    (digits1 ++ digits2 ++ digits3) = true) as Hall by (vm_compute; reflexivity).
  intros H. assert (p ∈ digits1 ++ digits2 ++ digits3) as Hp.
  { unfold octet3 in H. destruct (_ && _) eqn:E; [|done]. b2p. rewrite !elem_of_app.
    destruct p as [|a [|b [|c [|e r]]]]; cbn [all_chars] in *; unfold len in *; cbn [String.length] in *;
      try lia; b2p.
    - left. apply extend_elem; [done|left].
    - right; left. apply extend_elem; [done|]. apply extend_elem; [done|left].
    - right; right. do 2 (apply extend_elem; [done|]). apply extend_elem; [done|left]. }
  rewrite forallb_forall in Hall. specialize (Hall p ltac:(by apply list_elem_of_In)).
  rewrite H in Hall. unfold octet. lia.
Qed.

Lemma octet3_pretty z : octet z → octet3 (pretty z) = Some z.
Proof.
  apply (upto_forall (λ z, octet3 (pretty z) = Some z) 256). vm_compute. reflexivity.
Qed.

Lemma octets3_bounds parts os : octets3 parts = Some os → Forall octet os ∧ length os = length parts.
Proof.
  revert os. induction parts as [|p parts IH]; intros os; cbn [octets3]; [by intros [= <-]|].
  destruct (octet3 p) as [o|] eqn:Eo; [|done]. cbn. destruct (octets3 parts) as [os'|]; [|done]. cbn.
  intros [= <-]. destruct (IH _ eq_refl) as [Hf Hl]. split; [|simpl; lia].
  constructor; [by eapply octet3_bounds|done].
Qed.

Lemma parseIPv4_four text os :
  parseIPv4 text = Some os → ∃ a b c d, os = [a; b; c; d] ∧ Forall octet os.
Proof.
  unfold parseIPv4. destruct (negb _) eqn:E; [done|]. intros H. apply octets3_bounds in H as [Hf Hl].
  apply negb_false_iff, Nat.eqb_eq in E. rewrite E in Hl.
  destruct os as [|a [|b [|c [|d [|e r]]]]]; try done. by exists a, b, c, d.
Qed.

Lemma parseIPv4_dotted a b c d :
  Forall octet [a; b; c; d] → parseIPv4 (dotted a b c d) = Some [a; b; c; d].
Proof.
  intros H. unfold parseIPv4. rewrite split_dotted by done. cbn [fmap list_fmap length Nat.eqb negb octets3].
  rewrite !Forall_cons in H. destruct H as (Ha & Hb & Hc & Hd & _). by rewrite !octet3_pretty by done.
Qed.

Lemma lower_char_idem c : lower_char (lower_char c) = lower_char c.
Proof. destruct c as [[] [] [] [] [] [] [] []]; vm_compute; reflexivity. Qed.

Lemma toLowerCase_idem s : toLowerCase (toLowerCase s) = toLowerCase s.
Proof. unfold toLowerCase. induction s as [|c s IH]; [done|]. cbn [map_string]. by rewrite lower_char_idem, IH. Qed.

Lemma v6_char_props c : is_v6_char c = true → is_space c = false ∧ Ascii.eqb c "." = false.
Proof. destruct c as [[] [] [] [] [] [] [] []]; vm_compute; done. Qed.

Lemma v6_no_space s : all_chars is_v6_char s = true → no_space s = true ∧ includes_char "." s = false.
Proof.
  unfold no_space, includes_char. induction s as [|c s IH]; [done|]. cbn [all_chars]. intros H. b2p.
  destruct (v6_char_props c ltac:(done)) as [-> ->]. simpl. by apply IH.
Qed.

Lemma js_or_text s d : (s =? "")%string = false → js_or (JStr s) d = JStr s.
Proof. intros H. unfold js_or, truthy. by rewrite H. Qed.

Lemma js_String_text s : js_String (JStr s) = s.
Proof. done. Qed.

(** An accepted address is read back as itself. *)
Lemma classify_stable raw fam addr :
  classifyAddress raw = Good fam addr → classifyAddress (JStr addr) = Good fam addr.
Proof.
  unfold classifyAddress at 1. set (t := trim _). destruct (t =? "")%string; [done|].
  destruct (parseIPv4 t) as [os|] eqn:Ep.
  - destruct (parseIPv4_four _ _ Ep) as (a & b & c & d & -> & Hf).
    destruct (a =? 127) eqn:E1; [done|]. destruct ((a =? 169) && (b =? 254)) eqn:E2; [done|].
    destruct (forallb (λ o, o =? 0) [a; b; c; d]) eqn:E3; [done|]. intros H.
    assert (fam = 4 ∧ addr = dotted a b c d) as [-> ->] by (by injection H). clear H.
    assert (dotted a b c d ≠ "") as Hne.
    { intros E. pose proof (parseIPv4_dotted a b c d Hf) as H. rewrite E in H. discriminate H. }
    apply String.eqb_neq in Hne. unfold classifyAddress. rewrite js_or_text by done. cbv zeta. rewrite js_String_text.
    rewrite trim_no_space by (by apply dotted_no_space). rewrite Hne, parseIPv4_dotted by done.
    by rewrite E1, E2, E3.
  - destruct (negb _ || negb _) eqn:E1; [done|]. destruct (_ =? "::1")%string eqn:E2; [done|].
    destruct (_ =? "::")%string eqn:E3; [done|]. destruct (is_link_local6 _) eqn:E4; [done|].
    intros [= <- <-]. rewrite orb_false_iff, !negb_false_iff in E1. destruct E1 as [Hv Hc].
    destruct (v6_no_space _ Hv) as [Hs Hd]. set (l := toLowerCase t) in *.
    assert (l ≠ "") as Hne by (intros E; by rewrite E in Hc).
    apply String.eqb_neq in Hne. unfold classifyAddress. rewrite js_or_text by done. cbv zeta. rewrite js_String_text.
    rewrite trim_no_space by done. rewrite Hne. unfold parseIPv4. rewrite split_no_sep by done. cbn [length Nat.eqb negb].
    assert (toLowerCase l = l) as -> by apply toLowerCase_idem. by rewrite Hv, Hc, E2, E3, E4.
Qed.
End EndpointFacts.

(** ** Theorems *)
Import Endpoints EndpointFacts.

(** What every kept endpoint satisfies. *)
Record endpoint_ok (e : endpoint) : Prop := {
  ep_address : ∃ raw, classifyAddress raw = Good (family e) (ip_address e);
  ep_port : 1 <= port e <= 65535;
  ep_protocol : protocol e ∈ PROTOCOLS;
  ep_rendered : rendered e = renderEndpoint (family e) (ip_address e) (port e);
  ep_length : len (rendered e) <= 64;
}.

Lemma check_entry_ok entry e : check_entry entry = inr e → endpoint_ok e.
Proof.
  unfold check_entry. destruct (read_entry entry) as [|[[[addr pv] proto] stun]]; [done|].
  destruct (classifyAddress addr) as [|fam a] eqn:Ec; [done|]. cbv zeta.
  destruct (negb _ || _ || _) eqn:Ep; [done|]. destruct (negb (bool_decide _)) eqn:Eq; [done|].
  destruct (_ <? len _) eqn:El; [done|]. intros [= <-]. b2p.
  split; cbn; eauto; lia.
Qed.

Definition stored_entry (e : endpoint) : jsval :=
  JObj [("ip_address", JStr (ip_address e)); ("port", JNum (of_Z (port e)));
        ("protocol", JStr (protocol e)); ("is_stun_discovered", JBool (is_stun_discovered e))].

(** A stored endpoint is accepted as itself. *)
Lemma check_stored e : endpoint_ok e → check_entry (stored_entry e) = inr e.
Proof.
  intros [[raw Ha] Hp Hproto Hr Hl]. unfold check_entry.
  assert (read_entry (stored_entry e) =
    inr (JStr (ip_address e), JNum (of_Z (port e)), protocol e, is_stun_discovered e)) as ->.
  { unfold PROTOCOLS in Hproto. rewrite !elem_of_cons, elem_of_nil in Hproto.
    destruct e as [? ? pr ? ? ?]. cbn [protocol] in *. destruct_or? Hproto; subst; done. }
  rewrite (classify_stable _ _ _ Ha). cbv zeta. cbn [js_Number]. rewrite isInteger_of_Z, to_Z_of_Z.
  assert ((port e <? 1) = false) as -> by lia. assert ((65535 <? port e) = false) as -> by lia.
  rewrite (bool_decide_eq_true_2 _ Hproto). cbn [negb orb]. rewrite <- Hr.
  assert ((Z.of_nat MAX_ENDPOINT_LENGTH <? len (rendered e)) = false) as ->
    by (change (Z.of_nat MAX_ENDPOINT_LENGTH) with 64; lia).
  by destruct e.
Qed.

Lemma validate_loop_ok entries seen :
  Forall endpoint_ok (validate_loop entries seen).1 ∧
  NoDup (endpoint_id <$> (validate_loop entries seen).1) ∧
  ∀ e, e ∈ (validate_loop entries seen).1 → endpoint_id e ∉ seen.
Proof.
  revert seen. induction entries as [|x l IH]; intros seen; cbn [validate_loop].
  - split; [constructor|]. split; [constructor|]. intros e H. by apply elem_of_nil in H.
  - destruct (check_entry x) as [r|e] eqn:E.
    + specialize (IH seen). by destruct (validate_loop l seen).
    + destruct (bool_decide (endpoint_id e ∈ seen)) eqn:Es; [apply IH|]. b2p.
      specialize (IH (endpoint_id e :: seen)). destruct (validate_loop l _) as [a rej].
      destruct IH as (H1 & H2 & H3). cbn [fst] in *. split; [|split].
      * constructor; [by eapply check_entry_ok|done].
      * cbn. constructor; [|done]. intros Hin. apply list_elem_of_fmap in Hin as (e' & He & Hin).
        apply (H3 e' Hin). rewrite He. left.
      * intros e' He'. apply elem_of_cons in He' as [->|He']; [done|].
        intros Hs. apply (H3 e' He'). by right.
Qed.

Lemma validate_loop_stored l seen :
  Forall endpoint_ok l → NoDup (endpoint_id <$> l) → (∀ e, e ∈ l → endpoint_id e ∉ seen) →
  validate_loop (stored_entry <$> l) seen = (l, []).
Proof.
  revert seen. induction l as [|e l IH]; intros seen Hok Hn Hs; [done|].
  apply Forall_cons in Hok as [He Hok]. rewrite fmap_cons in Hn. apply NoDup_cons in Hn as [Hne Hn].
  cbn [fmap list_fmap validate_loop]. rewrite check_stored by done.
  rewrite bool_decide_eq_false_2 by (apply Hs; left). fold (stored_entry <$> l). rewrite IH; [done|done|done|].
  intros e' He'. intros Hin. apply elem_of_cons in Hin as [E|Hin].
  - apply Hne. rewrite <- E. by apply list_elem_of_fmap_2.
  - apply (Hs e'); [by right|done].
Qed.

Section Theorems.
Context {Loc : Locale}.

#[export] Instance endpoint_order_comparator : Comparator endpoint_order.
Proof.
  split; unfold endpoint_order.
  - intros a b. pose proof (cmp_swap (cmp := localeCompare) (rendered a) (rendered b)).
    destruct (is_stun_discovered a), (is_stun_discovered b); cbn [Bool.eqb]; lia.
  - intros a b c. pose proof (cmp_trans (cmp := localeCompare) (rendered a) (rendered b) (rendered c)).
    destruct (is_stun_discovered a), (is_stun_discovered b), (is_stun_discovered c); cbn [Bool.eqb]; lia.
Qed.

(** The kept endpoints of any report: valid, distinct, in order, at most 8. *)
Lemma kept_facts raw :
  let l := endpoints (validateEndpoints raw) in
  Forall endpoint_ok l ∧ NoDup (endpoint_id <$> l) ∧
  StronglySorted (λ a b, endpoint_order a b <= 0) l ∧ (length l <= 8)%nat.
Proof.
  unfold validateEndpoints. destruct raw as [| | | | |l|]; try (cbn; repeat constructor; lia).
  pose proof (validate_loop_ok l []) as H. destruct (validate_loop l []) as [a rej]. cbn [fst endpoints] in *.
  destruct H as (Hok & Hn & _). set (s := js_sort endpoint_order a).
  assert (s ≡ₚ a) as Hp by apply js_sort_perm.
  assert (StronglySorted (λ a b, endpoint_order a b <= 0) s) as Hs by (apply js_sort_sorted; apply _).
  rewrite <- Hp in Hok. rewrite <- Hp in Hn. rewrite <- (take_drop MAX_ENDPOINTS s) in Hok, Hn, Hs.
  apply Forall_app in Hok as [Hok _]. rewrite fmap_app in Hn. apply NoDup_app in Hn as (Hn & _ & _).
  apply StronglySorted_app_1_l in Hs. split; [done|]. split; [done|]. split; [done|].
  rewrite length_take. unfold MAX_ENDPOINTS. lia.
Qed.

Lemma validate_stored raw :
  endpoints (validateEndpoints (storedShape (endpoints (validateEndpoints raw)))) =
  endpoints (validateEndpoints raw).
Proof.
  destruct (kept_facts raw) as (Hok & Hn & Hs & Hl). set (l := endpoints (validateEndpoints raw)) in *.
  unfold storedShape, validateEndpoints. change (fmap _ l) with (stored_entry <$> l).
  rewrite validate_loop_stored; [|done|done|intros e _ H; by apply elem_of_nil in H].
  cbn [endpoints]. rewrite js_sort_id; [|apply _|done]. apply take_ge. unfold MAX_ENDPOINTS. lia.
Qed.
End Theorems.

(** An address a peer may try: for IPv4, not loopback, link-local or
    unspecified; for IPv6, of the accepted characters and none of the spellings
    the code refuses. *)
Definition dialable (e : endpoint) : Prop :=
  (family e = 4 ∧ ∃ a b c d, Forall octet [a; b; c; d] ∧ ip_address e = dotted a b c d ∧
     a ≠ 127 ∧ ¬ (a = 169 ∧ b = 254) ∧ ¬ (a = 0 ∧ b = 0 ∧ c = 0 ∧ d = 0)) ∨
  (family e = 6 ∧ all_chars is_v6_char (ip_address e) = true ∧ includes_char ":" (ip_address e) = true ∧
     ip_address e ≠ "::1" ∧ ip_address e ≠ "::" ∧ is_link_local6 (ip_address e) = false).

Lemma classify_good raw fam addr :
  classifyAddress raw = Good fam addr →
  (fam = 4 ∧ ∃ a b c d, Forall octet [a; b; c; d] ∧ addr = dotted a b c d ∧
     a ≠ 127 ∧ ¬ (a = 169 ∧ b = 254) ∧ ¬ (a = 0 ∧ b = 0 ∧ c = 0 ∧ d = 0)) ∨
  (fam = 6 ∧ all_chars is_v6_char addr = true ∧ includes_char ":" addr = true ∧
     addr ≠ "::1" ∧ addr ≠ "::" ∧ is_link_local6 addr = false).
Proof.
  unfold classifyAddress. set (t := trim _). destruct (t =? "")%string; [done|].
  destruct (parseIPv4 t) as [os|] eqn:Ep.
  - destruct (parseIPv4_four _ _ Ep) as (a & b & c & d & -> & Hf).
    destruct (a =? 127) eqn:E1; [done|]. destruct ((a =? 169) && (b =? 254)) eqn:E2; [done|].
    destruct (forallb (λ o, o =? 0) [a; b; c; d]) eqn:E3; [done|]. intros H.
    assert (fam = 4 ∧ addr = dotted a b c d) as [-> ->] by (by injection H). clear H. left. split; [done|].
    exists a, b, c, d. split; [done|]. split; [done|]. cbn [forallb] in E3. lia.
  - destruct (negb _ || negb _) eqn:E1; [done|]. destruct (_ =? "::1")%string eqn:E2; [done|].
    destruct (_ =? "::")%string eqn:E3; [done|]. destruct (is_link_local6 _) eqn:E4; [done|].
    intros [= <- <-]. rewrite orb_false_iff, !negb_false_iff in E1. b2p. right. tauto.
Qed.

(** What is kept of a report can be dialled.  Whatever a node reports, at
    most 8 endpoints are kept, no two with the same protocol and address, and
    each has a port from 1 to 65535, one of the four transport protocols, a
    rendering "ip:port" of at most 64 characters, and an address that is not
    IPv4 loopback, link-local or unspecified nor one of the refused IPv6
    spellings; reading back what is stored keeps exactly the same list. *)
Theorem validateEndpoints_sound {Loc : Locale} raw :
  let l := endpoints (validateEndpoints raw) in
  (length l <= 8)%nat ∧ NoDup (endpoint_id <$> l) ∧
  (∀ e, e ∈ l → 1 <= port e <= 65535 ∧ protocol e ∈ PROTOCOLS ∧ dialable e ∧ len (rendered e) <= 64 ∧
     rendered e = renderEndpoint (family e) (ip_address e) (port e)) ∧
  endpoints (validateEndpoints (storedShape l)) = l.
Proof.
  cbv zeta. destruct (kept_facts raw) as (Hok & Hn & _ & Hl). split; [done|]. split; [done|].
  split; [|apply validate_stored]. intros e He. rewrite Forall_forall in Hok.
  destruct (Hok e He) as [[r Hr] Hp Hproto Hrend Hlen]. split; [done|]. split; [done|].
  split; [by apply (classify_good r)|done].
Qed.

(** Loopback written out in full is accepted.  The comment of
    [classifyAddress] promises the canonical IPv6 form only; the test is a set
    of characters, so the same address under another spelling passes. *)
Theorem loopback_long_form_accepted :
  classifyAddress (JStr "::1") = Bad "loopback" ∧
  classifyAddress (JStr "0:0:0:0:0:0:0:1") = Good 6 "0:0:0:0:0:0:0:1" ∧
  classifyAddress (JStr ":::") = Good 6 ":::".
Proof. vm_compute. done. Qed.

Lemma endpointKey_parse {Loc : Locale} raw :
  validateEndpoints (parseJsonColumn (storedShape (endpoints (validateEndpoints raw))) (JArr [])) =
  validateEndpoints (storedShape (endpoints (validateEndpoints raw))).
Proof. done. Qed.

Lemma select1_some {A} (p : A → bool) l x : x ∈ l → p x = true → ∃ y, select1 p l = Some y.
Proof.
  intros Hx Hp. destruct (select1 p l) as [y|] eqn:E; [by exists y|].
  rewrite (proj1 (select1_none p l) E x Hx) in Hp. done.
Qed.

(** The run of [recordEndpoints] on a known node. *)
Definition record_bump (cfg : config) (now : Z) (row : Node.t) : bool :=
  match Node.endpoints_bumped_at row with
  | Some last => ENDPOINT_DEBOUNCE_SECONDS cfg * 1000 <=? now - last
  | None => true
  end.

Lemma recordEndpoints_run {Loc : Locale} cfg nodeId reported now d row :
  select1 (λ n, (Node.id n =? nodeId)%string) (Db.nodes d) = Some row →
  let v := validateEndpoints reported in
  let previous := validateEndpoints (parseJsonColumn (Node.endpoints row) (JArr [])) in
  recordEndpoints cfg nodeId reported now d =
  if (endpointKey (endpoints previous) =? endpointKey (endpoints v))%string
  then (Ok (mk_recorded true false false (rejected v) (truncated v)), d)
  else
    let bump := record_bump cfg now row in
    let d1 := d <| Db.nodes ::= update_where (λ n, (Node.id n =? nodeId)%string)
          (store_endpoints (endpoints v) bump now) |> in
    (Ok (mk_recorded true true bump (rejected v) (truncated v)), if bump then Acl.bump "netmap" d1 else d1).
Proof.
  intros Hrow. cbv zeta. unfold recordEndpoints, eff_bind, get. cbv beta. rewrite Hrow.
  destruct (_ =? _)%string; [done|]. unfold modify. fold (record_bump cfg now row).
  destruct (record_bump cfg now row); [|done]. unfold Acl.bumpNetmap. by rewrite AclFacts.bumpEpoch_run.
Qed.

(** A report is recorded once.  Recording the same report again, at any later
    time, finds it unchanged, bumps nothing and leaves the store as it is; and
    whatever the debounce decided the first time, the row holds the reported
    endpoints. *)
Theorem recordEndpoints_idempotent {Loc : Locale} cfg nodeId reported now now' d r d1 r' d2 :
  recordEndpoints cfg nodeId reported now d = (Ok r, d1) → stored r = true →
  recordEndpoints cfg nodeId reported now' d1 = (Ok r', d2) →
  stored r' = true ∧ changed r' = false ∧ bumped r' = false ∧ d2 = d1 ∧
  (changed r = true → ∀ n, n ∈ Db.nodes d1 → Node.id n = nodeId →
     Node.endpoints n = storedShape (endpoints (validateEndpoints reported))).
Proof.
  intros H1 Hs H2. destruct (select1 (λ n, (Node.id n =? nodeId)%string) (Db.nodes d)) as [row|] eqn:Erow.
  2:{ unfold recordEndpoints, eff_bind, get in H1. rewrite Erow in H1. injection H1 as <- <-. done. }
  rewrite (recordEndpoints_run _ _ _ _ _ _ Erow) in H1. cbv zeta in H1.
  destruct (_ =? _)%string eqn:Ek.
  { injection H1 as <- <-. rewrite (recordEndpoints_run _ _ _ _ _ _ Erow), Ek in H2. injection H2 as <- <-. done. }
  injection H1 as <- <-. set (bump := record_bump cfg now row) in *.
  set (f := store_endpoints _ bump now) in *. set (d1 := if bump then _ else _) in *.
  assert (∀ n, n ∈ Db.nodes d1 → Node.id n = nodeId →
    Node.endpoints n = storedShape (endpoints (validateEndpoints reported))) as Hcol.
  { intros n Hn Hid. assert (n ∈ update_where (λ n, (Node.id n =? nodeId)%string) f (Db.nodes d)) as Hn'
      by (unfold d1 in Hn; by destruct bump).
    apply elem_of_update in Hn' as (m & Hm & ->). destruct (Node.id m =? nodeId)%string eqn:Em.
    - unfold f, store_endpoints. by destruct bump.
    - b2p. congruence. }
  assert (∃ row1, select1 (λ n, (Node.id n =? nodeId)%string) (Db.nodes d1) = Some row1) as [row1 Erow1].
  { apply select1_elem in Erow as [Hid Hin]. apply (select1_some _ _ (f row)).
    - assert (f row ∈ update_where (λ n, (Node.id n =? nodeId)%string) f (Db.nodes d)) as Hf
        by (apply elem_of_update; exists row; by rewrite Hid).
      unfold d1. by destruct bump.
    - unfold f, store_endpoints. by destruct bump. }
  rewrite (recordEndpoints_run _ _ _ _ _ _ Erow1) in H2. cbv zeta in H2.
  apply select1_elem in Erow1 as [Hid1 Hin1]. b2p.
  rewrite (Hcol row1 Hin1 Hid1), endpointKey_parse, validate_stored, String.eqb_refl in H2.
  injection H2 as <- <-. done.
Qed.

(** Comparison by code units, for the witnesses. *)
Definition c_locale : Locale := {| localeCompare := c_collate |}.

Definition sample_config : config := config_of (λ _, JUndef).
Definition sample_report : jsval := JArr [JStr "203.0.113.7:51820"; JStr "127.0.0.1:51820"; JStr "[fd00::2]:51820"].
Definition sample_recorded : recorded * Db.t :=
  Eval vm_compute in
    match recordEndpoints (Loc := c_locale) sample_config "n1" sample_report 0 AclSample.db with
    | (Ok r, d) => (r, d)
    | (Throw _ _, d) => (mk_recorded false false false [] false, d)
    end.

Lemma recordEndpoints_idempotent_witness : ∃ r',
  recordEndpoints (Loc := c_locale) sample_config "n1" sample_report 60000 sample_recorded.2 =
    (Ok r', sample_recorded.2) ∧ changed r' = false.
Proof.
  assert (recordEndpoints (Loc := c_locale) sample_config "n1" sample_report 0 AclSample.db =
    (Ok sample_recorded.1, sample_recorded.2)) as E by (vm_compute; reflexivity).
  destruct (recordEndpoints (Loc := c_locale) sample_config "n1" sample_report 60000 sample_recorded.2)
    as [[r'|st msg] d2] eqn:E2; [|vm_compute in E2; discriminate E2].
  exists r'.
  destruct (recordEndpoints_idempotent (Loc := c_locale) _ _ _ _ _ _ _ _ _ _ E (eq_refl true) E2)
    as (_ & Hc & _ & -> & _).
  split; [reflexivity|exact Hc].
Defined.

(** The netmap version moves at most once per node and window.  On a known
    node, [recordEndpoints] advances the version exactly when the endpoints
    changed and the last bump of this node is at least the debounce window old
    or absent; it then stamps the row with the time of the bump; otherwise no
    epoch moves. *)
Theorem recordEndpoints_debounced {Loc : Locale} cfg nodeId reported now d r d' :
  AclFacts.epochs_seeded d → NoDup (Node.id <$> Db.nodes d) →
  recordEndpoints cfg nodeId reported now d = (Ok r, d') →
  (bumped r = true → changed r = true ∧ Acl.getEpoch "netmap" d' = Acl.getEpoch "netmap" d + 1 ∧
     ∀ n, n ∈ Db.nodes d' → Node.id n = nodeId → Node.endpoints_bumped_at n = Some now) ∧
  (bumped r = false → Db.mesh_epochs d' = Db.mesh_epochs d) ∧
  (∀ n last, n ∈ Db.nodes d → Node.id n = nodeId → Node.endpoints_bumped_at n = Some last →
     now - last < ENDPOINT_DEBOUNCE_SECONDS cfg * 1000 → bumped r = false).
Proof.
  intros Hseed Hn H. destruct (select1 (λ n, (Node.id n =? nodeId)%string) (Db.nodes d)) as [row|] eqn:Erow.
  2:{ unfold recordEndpoints, eff_bind, get in H. rewrite Erow in H. injection H as <- <-. done. }
  rewrite (recordEndpoints_run _ _ _ _ _ _ Erow) in H. cbv zeta in H.
  destruct (_ =? _)%string; [injection H as <- <-; done|]. injection H as <- <-. cbn [bumped changed].
  apply select1_elem in Erow as [Hid Hin]. b2p. split_and!.
  - intros Hb. rewrite Hb. split; [done|]. split.
    + rewrite AclFacts.getEpoch_bump_same; [done|]. apply Hseed.
    + intros n Hn' Hid'. apply elem_of_update in Hn' as (m & Hm & ->).
      destruct (Node.id m =? nodeId)%string eqn:Em; [done|]. b2p. congruence.
  - intros Hb. by rewrite Hb.
  - intros n last Hn' Hid' Hl Hlt.
    assert (n = row) as -> by (apply (NoDup_fmap_inj Node.id (Db.nodes d)); congruence || done).
    unfold record_bump. rewrite Hl. lia.
Qed.

Lemma recordEndpoints_debounced_witness :
  changed sample_recorded.1 = true ∧
  Acl.getEpoch "netmap" sample_recorded.2 = Acl.getEpoch "netmap" AclSample.db + 1.
Proof.
  assert (recordEndpoints (Loc := c_locale) sample_config "n1" sample_report 0 AclSample.db =
    (Ok sample_recorded.1, sample_recorded.2)) as E by (vm_compute; reflexivity).
  destruct (recordEndpoints_debounced (Loc := c_locale) _ _ _ _ _ _ _ AclSample.db_seeded
    (uk_node_id _ AclSample.db_unique) E) as [H _].
  destruct (H eq_refl) as (Hc & He & _). split; [exact Hc|exact He].
Defined.
