(* ===== verification/Permit.v ===== *)
(** * Which peers a policy permits

    [permittedPeerVIPs] and [hasUncoveredPort] of [services/NetmapService.js]: a
    peer is named in a netmap when an ACCEPT entry survives the DROP entries that
    precede it.  The theorems tie this to how a node reads the same entries,
    [PkgAcl.evaluate]. *)

From S2P Require Import Prelude Js Db Acl.

Module Permit.

Definition CONCRETE_PROTOCOLS : list string := ["TCP"; "UDP"; "ICMP"].

Definition expandProtocol (protocol : string) : list string :=
  let name := toUpperCase (if (protocol =? "")%string then "ALL" else protocol) in
  if (name =? "ALL")%string then CONCRETE_PROTOCOLS else [name].

(** ** Ports left open *)

Definition interval : Type := Z * Z.

(** What one denied interval leaves of one remaining interval. *)
Definition subtract (denied : interval) (r : interval) : list interval :=
  let '(dStart, dEnd) := denied in
  let '(start, end_) := r in
  if (dEnd <? start) || (end_ <? dStart) then [r]
  else (if start <? dStart then [(start, dStart - 1)] else [])
       ++ (if dEnd <? end_ then [(dEnd + 1, end_)] else []).

Fixpoint subtract_all (denied remaining : list interval) : list interval :=
  match denied with
  | [] => remaining
  | d :: rest =>
      match remaining ≫= subtract d with
      | [] => []
      | next => subtract_all rest next
      end
  end.

Definition hasUncoveredPort (ranges denied : list interval) : bool :=
  existsb (λ r, match subtract_all denied [r] with [] => false | _ => true end) ranges.

(** ** Peers the policy permits *)

Definition entry_ranges (e : Entry.t) : list interval :=
  match Entry.port_ranges e with
  | [] => [(0, 65535)]
  | rs => (λ r, (Entry.start r, Entry.end_ r)) <$> rs
  end.

(** The intervals an earlier DROP has taken, per "vip|protocol". *)
Abbreviation denied_map := (gmap string (list interval)).

Definition protocol_key (vip protocol : string) : string := vip +:+ "|" +:+ protocol.

Definition permit_step (accept : bool) (vip : string) (ranges : list interval)
    (st : list string * denied_map) (protocol : string) : list string * denied_map :=
  let '(permitted, denied) := st in
  let key := protocol_key vip protocol in
  let taken := default [] (denied !! key) in
  if accept then ((if hasUncoveredPort ranges taken then vip :: permitted else permitted), denied)
  else (permitted, <[key := taken ++ ranges]> denied).

Definition permit_rule (st : list string * denied_map) (e : Entry.t) : list string * denied_map :=
  let vip := Entry.allowed_peer_vip e in
  if (vip =? "")%string then st else
  let accept := (toUpperCase (Entry.action e) =? "ACCEPT")%string in
  fold_left (permit_step accept vip (entry_ranges e)) (expandProtocol (Entry.protocol e)) st.

Definition permit_direction (permitted : list string) (rules : list Entry.t) : list string :=
  (fold_left permit_rule rules (permitted, ∅)).1.

Definition permittedPeerVIPs (policy : option Policy.t) : list string :=
  match policy with
  | None => []
  | Some p => permit_direction (permit_direction [] (Policy.inbound_rules p)) (Policy.outbound_rules p)
  end.

End Permit.

(** ** Lemmas *)
Module PermitFacts.
Import Permit PkgAcl.

Definition covers (x : Z) (i : interval) : Prop := i.1 <= x <= i.2.
Definition covered (x : Z) (l : list interval) : Prop := ∃ i, i ∈ l ∧ covers x i.
Definition proper (i : interval) : Prop := i.1 <= i.2.

Lemma covered_nil x : covered x [] ↔ False.
Proof. split; [|done]. intros (i & Hi & _). by apply elem_of_nil in Hi. Qed.

Lemma covered_cons x i l : covered x (i :: l) ↔ covers x i ∨ covered x l.
Proof.
  unfold covered. split.
  - intros (j & Hj & Hx). apply elem_of_cons in Hj as [->|Hj]; [by left|right; eauto].
  - intros [H|(j & Hj & Hx)]; [exists i|exists j]; (split; [|done]); [left|by right].
Qed.

Lemma covered_app x l1 l2 : covered x (l1 ++ l2) ↔ covered x l1 ∨ covered x l2.
Proof.
  induction l1 as [|i l1 IH]; simpl; [rewrite covered_nil; tauto|]. rewrite !covered_cons, IH. tauto.
Qed.

Lemma subtract_spec d r x : covered x (subtract d r) ↔ covers x r ∧ ¬ covers x d.
Proof.
  destruct d as [ds de], r as [s e]. unfold covered, covers, subtract. cbn [fst snd].
  destruct (de <? s) eqn:E1, (e <? ds) eqn:E2; cbn [orb]; b2p;
    try (split; [intros (i & Hi & Hx); apply list_elem_of_singleton in Hi as ->; cbn [fst snd] in *; lia|
                 intros H; exists (s, e); split; [left|cbn [fst snd]; lia]]).
  destruct (s <? ds) eqn:E3, (de <? e) eqn:E4; b2p; cbn [app].
  all: split; [intros (i & Hi & Hx); rewrite ?elem_of_cons, ?elem_of_nil in Hi; destruct_or? Hi; subst;
               cbn [fst snd] in *; try lia; done|].
  - intros H. destruct (decide (x < ds)); [exists (s, ds - 1)|exists (de + 1, e)];
      rewrite !elem_of_cons; cbn [fst snd]; (split; [tauto|lia]).
  - intros H. exists (s, ds - 1). rewrite !elem_of_cons. cbn [fst snd]. split; [tauto|lia].
  - intros H. exists (de + 1, e). rewrite !elem_of_cons. cbn [fst snd]. split; [tauto|lia].
  - intros H. lia.
Qed.

Lemma subtract_proper d r : proper r → Forall proper (subtract d r).
Proof.
  destruct d as [ds de], r as [s e]. unfold proper, subtract. cbn [fst snd]. intros H.
  destruct (de <? s) eqn:E1, (e <? ds) eqn:E2; cbn [orb]; b2p; try (repeat constructor; cbn; lia).
  destruct (s <? ds) eqn:E3, (de <? e) eqn:E4; b2p; repeat constructor; cbn; lia.
Qed.

Lemma covered_bind d l x : covered x (l ≫= subtract d) ↔ covered x l ∧ ¬ covers x d.
Proof.
  unfold covered at 1. split.
  - intros (i & Hi & Hx). apply list_elem_of_bind in Hi as (r & Hi & Hr).
    destruct (proj1 (subtract_spec d r x)) as [H1 H2]; [by exists i|]. split; [by exists r|done].
  - intros [(r & Hr & Hx) Hd]. destruct (proj2 (subtract_spec d r x)) as (i & Hi & Hxi); [done|].
    exists i. split; [|done]. apply list_elem_of_bind. by exists r.
Qed.

Lemma bind_proper d l : Forall proper l → Forall proper (l ≫= subtract d).
Proof.
  rewrite !Forall_forall. intros H i Hi. apply list_elem_of_bind in Hi as (r & Hi & Hr).
  pose proof (subtract_proper d r (H r Hr)) as Hp. rewrite Forall_forall in Hp. auto.
Qed.

Lemma subtract_all_nil denied : subtract_all denied [] = [].
Proof. by destruct denied. Qed.

Lemma subtract_all_cons d denied l : subtract_all (d :: denied) l = subtract_all denied (l ≫= subtract d).
Proof. cbn [subtract_all]. destruct (l ≫= subtract d) eqn:E; [by rewrite subtract_all_nil|done]. Qed.

Lemma subtract_all_spec denied l x :
  covered x (subtract_all denied l) ↔ covered x l ∧ ¬ covered x denied.
Proof.
  revert l. induction denied as [|d denied IH]; intros l.
  - cbn [subtract_all]. split; [|tauto]. intros H. split; [done|]. intros H'. by apply covered_nil in H'.
  - rewrite subtract_all_cons, IH, covered_bind, covered_cons. tauto.
Qed.

Lemma subtract_all_proper denied l : Forall proper l → Forall proper (subtract_all denied l).
Proof.
  revert l. induction denied as [|d denied IH]; intros l H; [done|].
  rewrite subtract_all_cons. by apply IH, bind_proper.
Qed.

Lemma proper_nonempty l : Forall proper l → (l ≠ [] ↔ ∃ x, covered x l).
Proof.
  intros H. split.
  - intros Hne. destruct l as [|i l]; [done|]. apply Forall_cons in H as [Hi _]. exists i.1, i.
    split; [left|]. unfold covers, proper in *. lia.
  - intros (x & i & Hi & _) ->. by apply elem_of_nil in Hi.
Qed.

Lemma hasUncoveredPort_iff ranges denied :
  Forall proper ranges →
  hasUncoveredPort ranges denied = true ↔ ∃ x, covered x ranges ∧ ¬ covered x denied.
Proof.
  intros Hp. unfold hasUncoveredPort. rewrite existsb_exists. setoid_rewrite <- list_elem_of_In.
  assert (∀ r, r ∈ ranges →
    (match subtract_all denied [r] with [] => false | _ => true end = true ↔
     ∃ x, covers x r ∧ ¬ covered x denied)) as Hr.
  { intros r Hr. rewrite Forall_forall in Hp.
    assert (Forall proper (subtract_all denied [r])) as Hpr
      by (apply subtract_all_proper; constructor; [by apply Hp|constructor]).
    transitivity (subtract_all denied [r] ≠ []); [by destruct (subtract_all denied [r])|].
    rewrite (proper_nonempty _ Hpr). setoid_rewrite subtract_all_spec. setoid_rewrite covered_cons.
    setoid_rewrite covered_nil. split; intros (x & Hx); exists x; tauto. }
  split.
  - intros (r & Hin & H). apply Hr in H as (x & Hx & Hn); [|done]. exists x. split; [by exists r|done].
  - intros (x & (r & Hin & Hx) & Hn). exists r. split; [done|]. apply Hr; eauto.
Qed.

(** *** First match and surviving ACCEPT *)

Definition accepts (e : Entry.t) : bool := (Entry.action e =? "ACCEPT")%string.

Lemma evaluate_true rules vip proto x :
  evaluate rules vip proto x = true ↔
  ∃ l1 e l2, rules = l1 ++ e :: l2 ∧ accepts e = true ∧ entry_matches vip proto x e = true ∧
    ∀ e', e' ∈ l1 → entry_matches vip proto x e' = true → accepts e' = true.
Proof.
  induction rules as [|e rules IH]; cbn [evaluate].
  - split; [done|]. by intros ([|] & e & l2 & H & _).
  - destruct (entry_matches vip proto x e) eqn:Em; fold (accepts e).
    + split.
      * intros Ha. exists [], e, rules. split_and!; auto. intros e' H. by apply elem_of_nil in H.
      * intros ([|e1 l1] & e' & l2 & H & Ha & _ & Hall); simplify_eq/=; [done|]. apply Hall; [left|done].
    + rewrite IH. split.
      * intros (l1 & e' & l2 & -> & Ha & Hm & Hall). exists (e :: l1), e', l2. split_and!; auto.
        intros e0 H0. apply elem_of_cons in H0 as [->|H0]; [congruence|auto].
      * intros ([|e1 l1] & e' & l2 & H & Ha & Hm & Hall); simplify_eq/=; [congruence|].
        exists l1, e', l2. split_and!; auto. intros e0 H0. apply Hall. by right.
Qed.

(** An entry as compilation builds it. *)
Record entry_ok (e : Entry.t) : Prop := {
  eo_vip : includes_char "|" (Entry.allowed_peer_vip e) = false;
  eo_vip_set : Entry.allowed_peer_vip e ≠ "";
  eo_protocol : Entry.protocol e ∈ ["TCP"; "UDP"; "ICMP"; "ALL"];
  eo_action : Entry.action e ∈ ["ACCEPT"; "DROP"];
  eo_ranges : Entry.port_ranges e ≠ [];
  eo_proper : Forall proper (entry_ranges e);
}.

Lemma expand_concrete e proto :
  entry_ok e → proto ∈ CONCRETE_PROTOCOLS →
  proto ∈ expandProtocol (Entry.protocol e) ↔ Entry.protocol e = "ALL" ∨ Entry.protocol e = proto.
Proof.
  intros [_ _ He _ _ _] Hp. unfold CONCRETE_PROTOCOLS in Hp.
  rewrite !elem_of_cons, elem_of_nil in He. rewrite !elem_of_cons, elem_of_nil in Hp.
  destruct_or? He; destruct_or? Hp; rewrite ?He, ?Hp; subst; vm_compute expandProtocol;
    rewrite !elem_of_cons, elem_of_nil; intuition congruence.
Qed.

Lemma expand_subset e proto :
  entry_ok e → proto ∈ expandProtocol (Entry.protocol e) → proto ∈ CONCRETE_PROTOCOLS.
Proof.
  intros [_ _ He _ _ _]. rewrite !elem_of_cons, elem_of_nil in He.
  destruct_or? He; rewrite He; vm_compute expandProtocol; unfold CONCRETE_PROTOCOLS;
    rewrite !elem_of_cons, elem_of_nil; intuition congruence.
Qed.

Lemma matches_covered e vip proto x :
  entry_ok e → proto ∈ CONCRETE_PROTOCOLS →
  entry_matches vip proto x e = true ↔
  Entry.allowed_peer_vip e = vip ∧ proto ∈ expandProtocol (Entry.protocol e) ∧ covered x (entry_ranges e).
Proof.
  intros He Hp. unfold entry_matches. rewrite !andb_true_iff, orb_true_iff, !String.eqb_eq, expand_concrete by done.
  assert (existsb (range_matches x) (Entry.port_ranges e) = true ↔ covered x (entry_ranges e)) as ->; [|tauto].
  unfold entry_ranges, covered, covers. pose proof (eo_ranges e He) as Hr.
  destruct (Entry.port_ranges e) as [|r rs]; [done|]. clear Hr. rewrite existsb_exists.
  setoid_rewrite <- list_elem_of_In. setoid_rewrite list_elem_of_fmap. unfold range_matches. split.
  - intros (q & Hq & Hx). exists (Entry.start q, Entry.end_ q). split; [eauto|]. cbn. lia.
  - intros (i & (q & -> & Hq) & Hx). exists q. split; [done|]. cbn in Hx. lia.
Qed.

(** Ports already denied to a peer and protocol. *)
Definition taken (m : denied_map) (vip proto : string) : list interval :=
  default [] (m !! protocol_key vip proto).

Lemma protocol_key_inj v p v' p' :
  includes_char "|" v = false → includes_char "|" v' = false →
  protocol_key v p = protocol_key v' p' → v = v' ∧ p = p'.
Proof. unfold protocol_key. rewrite !append_cons, !append_nil_l. intros H H' E. by apply append_sep_inj in E. Qed.

Lemma permit_accept_fold vip ranges ps perm m :
  (fold_left (permit_step true vip ranges) ps (perm, m)).2 = m ∧
  ∀ v, v ∈ (fold_left (permit_step true vip ranges) ps (perm, m)).1 ↔
       v ∈ perm ∨ (v = vip ∧ ∃ p, p ∈ ps ∧ hasUncoveredPort ranges (taken m vip p) = true).
Proof.
  revert perm. induction ps as [|p ps IH]; intros perm; cbn [fold_left].
  - split; [done|]. intros v. split; [by left|]. intros [H|(_ & p & Hp & _)]; [done|by apply elem_of_nil in Hp].
  - unfold permit_step at 2 4. cbn [fst snd]. fold (taken m vip p).
    destruct (IH (if hasUncoveredPort ranges (taken m vip p) then vip :: perm else perm)) as [H1 H2].
    split; [exact H1|]. intros v. rewrite H2. clear H1 H2 IH. setoid_rewrite elem_of_cons.
    destruct (hasUncoveredPort ranges (taken m vip p)) eqn:E.
    + rewrite elem_of_cons. split.
      * intros [[->|H]|(-> & q & Hq & Hh)]; [right|by left|right]; (split; [done|]); eauto.
      * intros [H|(-> & q & Hq & Hh)]; tauto.
    + split.
      * intros [H|(-> & q & Hq & Hh)]; [by left|right]. split; [done|]. eauto.
      * intros [H|(-> & q & [->|Hq] & Hh)]; [by left|congruence|right]. split; [done|]. eauto.
Qed.

Lemma taken_insert vip p l m v p' :
  includes_char "|" vip = false → includes_char "|" v = false →
  taken (<[protocol_key vip p := l]> m) v p' =
  if bool_decide (v = vip ∧ p' = p) then l else taken m v p'.
Proof.
  intros Hvip Hv. unfold taken. case_bool_decide as E.
  - destruct E as [-> ->]. by rewrite lookup_insert_eq.
  - rewrite lookup_insert_ne; [done|]. intros K. apply protocol_key_inj in K as [<- <-]; [|done|done]. by apply E.
Qed.

Lemma permit_drop_fold vip ranges ps perm m v p' x :
  includes_char "|" vip = false → includes_char "|" v = false →
  (fold_left (permit_step false vip ranges) ps (perm, m)).1 = perm ∧
  (covered x (taken (fold_left (permit_step false vip ranges) ps (perm, m)).2 v p') ↔
   covered x (taken m v p') ∨ (v = vip ∧ p' ∈ ps ∧ covered x ranges)).
Proof.
  intros Hvip Hv. revert m. induction ps as [|p ps IH]; intros m; cbn [fold_left].
  - split; [done|]. cbn [snd]. rewrite elem_of_nil. tauto.
  - unfold permit_step at 2 4. fold (taken m vip p).
    destruct (IH (<[protocol_key vip p := taken m vip p ++ ranges]> m)) as [H1 H2].
    split; [exact H1|]. rewrite H2, taken_insert, elem_of_cons by done. clear H1 H2 IH.
    case_bool_decide as E; [|tauto]. destruct E as [-> ->]. rewrite covered_app. tauto.
Qed.

Lemma upper_accepts e : entry_ok e → (toUpperCase (Entry.action e) =? "ACCEPT")%string = accepts e.
Proof.
  intros [_ _ _ Ha _ _]. unfold accepts. rewrite !elem_of_cons, elem_of_nil in Ha.
  destruct_or? Ha; rewrite Ha; done.
Qed.

(** An ACCEPT of the list that no DROP before it, in the list or in [m], takes
    the packet from. *)
Definition survives (m : denied_map) (rules : list Entry.t) (v proto : string) (x : Z) : Prop :=
  ¬ covered x (taken m v proto) ∧
  ∃ l1 e l2, rules = l1 ++ e :: l2 ∧ accepts e = true ∧ entry_matches v proto x e = true ∧
    ∀ e', e' ∈ l1 → entry_matches v proto x e' = true → accepts e' = true.

Lemma survives_cons_accept m e rules v proto x :
  accepts e = true →
  survives m (e :: rules) v proto x ↔
  (¬ covered x (taken m v proto) ∧ entry_matches v proto x e = true) ∨ survives m rules v proto x.
Proof.
  intros Ha. unfold survives. split.
  - intros (Hc & [|e1 l1] & e' & l2 & H & Ha' & Hm & Hall); simplify_eq/=; [by left|right].
    split; [done|]. exists l1, e', l2. split_and!; auto. intros e0 H0. apply Hall. by right.
  - intros [[Hc Hm]|(Hc & l1 & e' & l2 & -> & Ha' & Hm & Hall)]; (split; [done|]).
    + exists [], e, rules. split_and!; auto. intros e' H. by apply elem_of_nil in H.
    + exists (e :: l1), e', l2. split_and!; auto. intros e0 H0. apply elem_of_cons in H0 as [->|H0]; auto.
Qed.

Lemma survives_cons_drop m m' e rules v proto x :
  accepts e = false →
  (covered x (taken m' v proto) ↔ covered x (taken m v proto) ∨ entry_matches v proto x e = true) →
  survives m (e :: rules) v proto x ↔ survives m' rules v proto x.
Proof.
  intros Ha Hm'. unfold survives. rewrite Hm'. split.
  - intros (Hc & [|e1 l1] & e' & l2 & H & Ha' & Hm & Hall); simplify_eq/=; [congruence|]. split.
    + intros [?|He]; [done|]. rewrite (Hall e1 ltac:(left) He) in Ha. done.
    + exists l1, e', l2. split_and!; auto. intros e0 H0. apply Hall. by right.
  - intros (Hc & l1 & e' & l2 & -> & Ha' & Hm & Hall). split; [tauto|].
    exists (e :: l1), e', l2. split_and!; auto. intros e0 H0. apply elem_of_cons in H0 as [->|H0]; [tauto|auto].
Qed.

Lemma permit_rules_spec rules perm m v :
  Forall entry_ok rules → includes_char "|" v = false →
  v ∈ (fold_left permit_rule rules (perm, m)).1 ↔
  v ∈ perm ∨ ∃ proto x, proto ∈ CONCRETE_PROTOCOLS ∧ survives m rules v proto x.
Proof.
  intros Hok Hv. revert perm m. induction Hok as [|e rules He Hok IH]; intros perm m; cbn [fold_left].
  - split; [by left|]. intros [H|(p & x & _ & _ & [|] & e & l2 & E & _)]; done.
  - unfold permit_rule at 2. rewrite (proj2 (String.eqb_neq _ _) (eo_vip_set e He)), upper_accepts by done.
    destruct (accepts e) eqn:Ea.
    + destruct (permit_accept_fold (Entry.allowed_peer_vip e) (entry_ranges e)
        (expandProtocol (Entry.protocol e)) perm m) as [H1 H2].
      destruct (fold_left _ _ _) as [perm' m']. cbn [fst snd] in *. subst m'. rewrite IH, H2. clear H2 IH.
      setoid_rewrite (survives_cons_accept m e); [|done]. split.
      * intros [[H|(-> & p & Hp & Hu)]|(p & x & Hp & Hs)]; [by left| |right; eauto].
        apply hasUncoveredPort_iff in Hu as (x & Hx & Hn); [|apply He].
        assert (p ∈ CONCRETE_PROTOCOLS) as Hpc by (by eapply expand_subset).
        right. exists p, x. split; [done|]. left. split; [done|]. by apply matches_covered.
      * intros [H|(p & x & Hp & [[Hn Hm]|Hs])]; [by do 2 left| |right; eauto].
        apply matches_covered in Hm as (<- & Hpe & Hx); [|done|done]. left; right. split; [done|].
        exists p. split; [done|]. apply hasUncoveredPort_iff; [apply He|eauto].
    + pose proof (λ p x, permit_drop_fold (Entry.allowed_peer_vip e) (entry_ranges e)
        (expandProtocol (Entry.protocol e)) perm m v p x (eo_vip e He) Hv) as Hd.
      destruct (fold_left _ _ _) as [perm' m']. cbn [fst snd] in Hd.
      destruct (Hd "" 0) as [-> _]. rewrite IH. clear IH. split; (intros [H|(p & x & Hp & Hs)]; [by left|right]);
        exists p, x; (split; [done|]); revert Hs;
        apply (survives_cons_drop m m'); auto; rewrite (proj2 (Hd p x)), matches_covered by done;
        intuition congruence.
Qed.
End PermitFacts.

(** ** Theorems *)
Import Permit PermitFacts PkgAcl.

(** The interval arithmetic is exact: on ranges that are not inverted,
    [hasUncoveredPort] answers true exactly when some port lies in one of the
    ranges and in none of the denied intervals, whatever those are. *)
Theorem hasUncoveredPort_exact ranges denied :
  Forall (λ r, r.1 <= r.2) ranges →
  hasUncoveredPort ranges denied = true ↔
  ∃ x, (∃ r, r ∈ ranges ∧ r.1 <= x <= r.2) ∧ ∀ d, d ∈ denied → ¬ (d.1 <= x <= d.2).
Proof.
  intros H. rewrite hasUncoveredPort_iff by done. unfold covered, covers.
  split; intros (x & Hx & Hn); exists x; (split; [done|]).
  - intros d Hd Hc. apply Hn. eauto.
  - intros (d & Hd & Hc). by apply (Hn d).
Qed.

Lemma hasUncoveredPort_exact_witness :
  hasUncoveredPort [(20, 30)] [(0, 24); (26, 100)] = true.
Proof.
  apply (hasUncoveredPort_exact [(20, 30)] [(0, 24); (26, 100)]).
  - repeat constructor; simpl; lia.
  - exists 25. split; [exists (20, 30); split; [left|simpl; lia]|].
    intros d Hd. rewrite !elem_of_cons, elem_of_nil in Hd. destruct_or? Hd; subst; simpl; lia.
Defined.

(** A peer is named in the netmap exactly when some packet may pass.  For a
    policy whose entries are as compilation builds them, with ranges that are not
    inverted, an address is permitted exactly when there is a concrete protocol
    and a port for which the node, reading the inbound or the outbound entries
    first-match-wins, lets the packet through. *)
Theorem permittedPeerVIPs_exact pol v :
  Forall entry_ok (Policy.inbound_rules pol) → Forall entry_ok (Policy.outbound_rules pol) →
  includes_char "|" v = false →
  v ∈ permittedPeerVIPs (Some pol) ↔
  ∃ proto x, proto ∈ CONCRETE_PROTOCOLS ∧
    (evaluate (Policy.inbound_rules pol) v proto x = true ∨
     evaluate (Policy.outbound_rules pol) v proto x = true).
Proof.
  intros Hi Ho Hv. unfold permittedPeerVIPs, permit_direction. rewrite !permit_rules_spec by done.
  assert (∀ rules proto x, survives ∅ rules v proto x ↔ evaluate rules v proto x = true) as Hs.
  { intros. rewrite evaluate_true. unfold survives, taken. rewrite lookup_empty. cbn. rewrite covered_nil. tauto. }
  setoid_rewrite Hs. rewrite elem_of_nil. split.
  - intros [[[]|(p & x & Hp & H)]|(p & x & Hp & H)]; exists p, x; tauto.
  - intros (p & x & Hp & [H|H]); [left; right|right]; exists p, x; tauto.
Qed.

Lemma permittedPeerVIPs_exact_witness : "100.64.0.2" ∈ permittedPeerVIPs (Some AclSample.policy).
Proof.
  apply (permittedPeerVIPs_exact AclSample.policy "100.64.0.2").
  1,2: repeat constructor; try (vm_compute; reflexivity); try (vm_compute; discriminate);
    try (apply (bool_decide_unpack _); vm_compute; exact I).
  - vm_compute. reflexivity.
  - exists "TCP", 80. split; [left|]. right. vm_compute. reflexivity.
Defined.

(** An inverted range names a peer no packet may reach.  Nothing keeps
    [port_start] at most [port_end]; an ACCEPT rule with the two swapped matches
    no port, and still puts the peer in the permitted set. *)
Theorem inverted_range_permits_peer :
  let e := Entry.mk "100.64.0.2" "TCP" [Entry.mk_range 443 80] "ACCEPT" true None in
  let pol := Policy.mk "n1" "100.64.0.1" [] [e] 1 in
  "100.64.0.2" ∈ permittedPeerVIPs (Some pol) ∧
  ∀ proto x, evaluate (Policy.outbound_rules pol) "100.64.0.2" proto x = false.
Proof.
  split; [vm_compute; left|]. intros proto x. cbn [Policy.outbound_rules evaluate].
  unfold entry_matches, range_matches. cbn [Entry.port_ranges existsb Entry.start Entry.end_].
  assert ((443 <=? x) && (x <=? 80) = false) as -> by lia. by rewrite andb_false_r.
Qed.
