(* ===== verification/Netmap.v ===== *)
(** * The netmap: the second half of [services/NetmapService.js]

    One complete document per node: the peers the compiled policy permits, their
    keys and allowed addresses, the compiled policy, the routes and the revoked
    keys.  [Netmap.buildNetmap] is a function of the store and the clock; it
    throws only when [Routes.routesFor] does. *)

From S2P Require Import Prelude Order Js Encoding Json Cidr Db Vip Acl Routes Revocation Endpoints Permit.

Module Netmap.

(** ** Names *)

Definition is_slug_char (c : ascii) : bool := is_lower c || is_digit c.

(** [.replace(/[^a-z0-9]+/g, '-')]: a run of other characters is one dash. *)
Fixpoint dash_runs (in_run : bool) (s : string) : string :=
  match s with
  | EmptyString => ""
  | String c r =>
      if is_slug_char c then String c (dash_runs false r)
      else if in_run then dash_runs true r else String "-" (dash_runs true r)
  end.

(** [.replace(/(^-|-$)/g, '')] *)
Definition trim_dashes (s : string) : string :=
  let s1 := match s with String c r => if code c =? 45 then r else s | _ => s end in
  match js_rev s1 with String c r => if code c =? 45 then js_rev r else s1 | _ => s1 end.

Definition computeDNSName (name : string) (explicitDnsName : option string) (domain : string) : option string :=
  let derived :=
    if (name =? "")%string then None else
    let slug := trim_dashes (dash_runs false (toLowerCase name)) in
    if (slug =? "")%string then None
    else Some (if (domain =? "")%string then slug else slug +:+ "." +:+ domain) in
  match explicitDnsName with
  | Some n => if (n =? "")%string then derived else Some n
  | None => derived
  end.

(** ** Allowed addresses *)

Definition first_part (s : string) : string := default "" (head (split "/" s)).

Fixpoint cmp_octets (a b : list Z) : Z :=
  match a, b with
  | x :: a', y :: b' => if x =? y then cmp_octets a' b' else x - y
  | _, _ => 0
  end.

Section WithLocale.
Context {Loc : Locale}.

Definition allowed_order (a b : string) : Z :=
  match Endpoints.parseIPv4 (first_part a), Endpoints.parseIPv4 (first_part b) with
  | Some _, None => -1
  | None, Some _ => 1
  | Some x, Some y => if cmp_octets x y =? 0 then localeCompare a b else cmp_octets x y
  | None, None => localeCompare a b
  end.

Definition sortAllowedIPs (l : list string) : list string := js_sort allowed_order l.
End WithLocale.

(** ** The document *)

Record peer := mk_peer {
  p_node_id : string; p_public_key_hex : string; p_allowed_ips : list string;
  p_endpoints : list string; p_keepalive_seconds : Z;
  p_transport : option string; p_stealth : option jsval; p_daita_mode : option string;
  p_dns_name : option string; p_name : option string;
}.

Record self_info := mk_self {
  s_overlay_ipv4 : string; s_overlay_ipv6 : string; s_mtu : Z; s_listen_port : Z;
  s_transport : option string; s_stealth : option jsval; s_daita_mode : option string;
  s_dns_name : option string; s_name : option string;
}.

Record netmap := mk_netmap {
  version : Z; self : self_info; peers : list peer; acl : option Policy.t;
  routes : list Routes.delivered; revoked_keys : list string; search_domains : list string;
  max_staleness_seconds : Z;
}.

(** The optional members: [row.transport && row.transport !== 'wireguard']. *)
Definition unless (d s : string) : option string :=
  if (s =? "")%string || (s =? d)%string then None else Some s.
Definition stealth_of (v : jsval) : option jsval :=
  let s := parseJsonColumn v JNull in if truthy s then Some s else None.

(** [SELECT ... FROM nodes n LEFT JOIN organizations o ON n.organization_id = o.id]. *)
Definition joined_org (d : Db.t) (n : Node.t) : option Org.t :=
  o ← Node.organization_id n; select1 (λ x, (Org.id x =? o)%string) (Db.organizations d).

Definition non_empty (o : option string) : option string :=
  s ← o; if (s =? "")%string then None else Some s.

Definition search_domain_of (o : option Org.t) : string :=
  match non_empty (o ≫= Org.search_domain) with
  | Some s => s
  | None => match non_empty (Org.slug <$> o) with Some s => s +:+ ".neronet" | None => "mesh" end
  end.

(** The candidates: same organisation, healthy, not quarantined. *)
Definition candidate (nodeId org : string) (n : Node.t) : bool :=
  negb (Node.id n =? nodeId)%string && negb (Node.is_quarantined n) && Node.is_healthy n &&
  (Acl.org_of n =? org)%string.

(** The subnets of the routes whose first healthy gateway is the row and that no
    earlier peer, and no earlier route of this one, has claimed. *)
Fixpoint claim_subnets (rowId : string) (routes : list Routes.delivered) (claimed : list string) : list string :=
  match routes with
  | [] => []
  | r :: rest =>
      let cidr := goIPNetToCidr (Routes.d_network_cidr r) in
      if bool_decide (cidr ∈ claimed) then claim_subnets rowId rest claimed
      else match head (where_ Routes.g_is_healthy (Routes.d_routing_peers r)) with
           | Some g =>
               if (Routes.g_node_id g =? rowId)%string
               then cidr :: claim_subnets rowId rest (cidr :: claimed)
               else claim_subnets rowId rest claimed
           | None => claim_subnets rowId rest claimed
           end
  end.

Definition own_addresses (n : Node.t) : list string :=
  (if (Node.overlay_ipv4 n =? "")%string then [] else [Node.overlay_ipv4 n +:+ "/32"]) ++
  (if (Node.overlay_ipv6 n =? "")%string then [] else [Node.overlay_ipv6 n +:+ "/128"]).

(** The key of a row that may be a peer, or nothing. *)
Definition peer_key (permitted revoked : list string) (n : Node.t) : option string :=
  if negb (bool_decide (Node.overlay_ipv4 n ∈ permitted)) then None else
  match Vip.normalisePublicKeyHex (Node.public_key n) with
  | None => None
  | Some k => if bool_decide (toLowerCase k ∈ revoked) then None else Some k
  end.

Section Build.
Context {Coll : Collation} {Loc : Locale} (cfg : Endpoints.config).

Definition udp_endpoints (n : Node.t) : list string :=
  Endpoints.rendered <$> where_ (λ e, (Endpoints.protocol e =? "udp")%string)
    (Endpoints.endpoints (Endpoints.validateEndpoints (parseJsonColumn (Node.endpoints n) (JArr [])))).

Definition peer_entry (searchDomain keyHex : string) (subnets : list string) (n : Node.t) : peer :=
  mk_peer (Node.id n) (toLowerCase keyHex) (sortAllowedIPs (own_addresses n ++ subnets))
    (udp_endpoints n) (Endpoints.KEEPALIVE_SECONDS cfg)
    (unless "wireguard" (Node.transport n)) (stealth_of (Node.stealth_config n))
    (unless "off" (Node.daita_mode n))
    (computeDNSName (Node.name n) (Node.dns_name n) searchDomain)
    (non_empty (Some (Node.name n))).

(** The loop over the candidates, in order, with the subnets already claimed. *)
Fixpoint build_peers (searchDomain : string) (permitted revoked : list string)
    (routes : list Routes.delivered) (rows : list Node.t) (claimed : list string) : list peer :=
  match rows with
  | [] => []
  | n :: rest =>
      match peer_key permitted revoked n with
      | None => build_peers searchDomain permitted revoked routes rest claimed
      | Some k =>
          let subnets := claim_subnets (Node.id n) routes claimed in
          peer_entry searchDomain k subnets n
          :: build_peers searchDomain permitted revoked routes rest (subnets ++ claimed)
      end
  end.

Definition candidates (d : Db.t) (n : Node.t) : list Node.t :=
  if Node.is_quarantined n then []
  else js_sort (cmp_on Node.id localeCompare)
         (where_ (candidate (Node.id n)
            (match non_empty (Node.organization_id n) with Some o => o | None => "org-default" end))
            (Db.nodes d)).

Definition buildNetmap (nodeId : string) (now : Z) (d : Db.t) : outcome (option netmap) :=
  match select1 (λ n, (Node.id n =? nodeId)%string) (Db.nodes d) with
  | None => Ok None
  | Some me =>
      let searchDomain := search_domain_of (joined_org d me) in
      let version := Acl.getEpoch "netmap" d in
      let policy := Acl.compilePolicyFor nodeId d in
      let revokedKeys := Revocation.activeRevocations now d in
      match Routes.routesFor nodeId d with
      | Throw st msg => Throw st msg
      | Ok routeList =>
          let revoked := toLowerCase <$> revokedKeys in
          let permitted := Permit.permittedPeerVIPs policy in
          Ok (Some (mk_netmap version
            (mk_self (Node.overlay_ipv4 me) (Node.overlay_ipv6 me) (Endpoints.OVERLAY_MTU cfg)
               (Endpoints.LISTEN_PORT cfg) (unless "wireguard" (Node.transport me))
               (stealth_of (Node.stealth_config me)) (unless "off" (Node.daita_mode me))
               (computeDNSName (Node.name me) (Node.dns_name me) searchDomain) (non_empty (Some (Node.name me))))
            (build_peers searchDomain permitted revoked routeList (candidates d me) [])
            policy routeList (js_sort c_collate revokedKeys) [searchDomain; "mesh"; "neronet"]
            (Endpoints.MAX_STALENESS_SECONDS cfg)))
      end
  end.
End Build.
End Netmap.

(** ** Lemmas *)
Module NetmapFacts.
Import Netmap.

Lemma permit_steps_subset accept vip ranges ps st v :
  v ∈ (fold_left (Permit.permit_step accept vip ranges) ps st).1 → v ∈ st.1 ∨ v = vip.
Proof.
  revert st. induction ps as [|p ps IH]; intros [perm m]; cbn [fold_left]; [by left|].
  intros H. apply IH in H as [H|H]; [|by right]. unfold Permit.permit_step in H.
  destruct accept; cbn [fst] in H; [|by left]. destruct (Permit.hasUncoveredPort _ _); [|by left].
  apply elem_of_cons in H as [->|H]; [by right|by left].
Qed.

Lemma permit_rules_subset rules st v :
  v ∈ (fold_left Permit.permit_rule rules st).1 →
  v ∈ st.1 ∨ ∃ e, e ∈ rules ∧ Entry.allowed_peer_vip e = v.
Proof.
  revert st. induction rules as [|e rules IH]; intros st; cbn [fold_left]; [by left|].
  intros H. apply IH in H as [H|(e' & He & Hv)]; [|right; exists e'; split; [by right|done]].
  unfold Permit.permit_rule in H. destruct (_ =? "")%string; [by left|].
  apply permit_steps_subset in H as [H|H]; [by left|right]. exists e. split; [left|done].
Qed.

Lemma permitted_entry pol v :
  v ∈ Permit.permittedPeerVIPs (Some pol) →
  ∃ e, e ∈ Policy.inbound_rules pol ++ Policy.outbound_rules pol ∧ Entry.allowed_peer_vip e = v.
Proof.
  unfold Permit.permittedPeerVIPs, Permit.permit_direction. intros H.
  apply permit_rules_subset in H as [H|(e & He & Hv)].
  - apply permit_rules_subset in H as [H|(e & He & Hv)]; [by apply elem_of_nil in H|].
    exists e. rewrite elem_of_app. tauto.
  - exists e. rewrite elem_of_app. tauto.
Qed.

Lemma peer_key_some permitted revoked n k :
  peer_key permitted revoked n = Some k ↔
  Node.overlay_ipv4 n ∈ permitted ∧ Vip.normalisePublicKeyHex (Node.public_key n) = Some k ∧
  toLowerCase k ∉ revoked.
Proof.
  unfold peer_key. case_bool_decide as Hp; cbn [negb].
  - destruct (Vip.normalisePublicKeyHex _) as [k'|]; [|split; [done|by intros (_ & ? & _)]].
    case_bool_decide as Hr; split.
    + done.
    + intros (_ & [= ->] & Hn). done.
    + by intros [= ->].
    + by intros (_ & [= ->] & _).
  - split; [done|]. by intros (? & _).
Qed.

Section Facts.
Context {Coll : Collation} {Loc : Locale} (cfg : Endpoints.config).

Lemma build_peers_elem dom permitted revoked routes rows claimed p :
  p ∈ build_peers cfg dom permitted revoked routes rows claimed →
  ∃ n k subnets, n ∈ rows ∧ peer_key permitted revoked n = Some k ∧ p = peer_entry cfg dom k subnets n.
Proof.
  revert claimed. induction rows as [|n rows IH]; intros claimed; cbn [build_peers]; [by intros ?%elem_of_nil|].
  destruct (peer_key permitted revoked n) as [k|] eqn:Ek.
  - intros H. apply elem_of_cons in H as [->|H].
    + eexists n, k, _. split; [left|done].
    + apply IH in H as (n' & k' & s & Hn & Hk & ->). exists n', k', s. split; [by right|done].
  - intros H. apply IH in H as (n' & k' & s & Hn & Hk & ->). exists n', k', s. split; [by right|done].
Qed.

Lemma build_peers_complete dom permitted revoked routes rows claimed n k :
  n ∈ rows → peer_key permitted revoked n = Some k →
  ∃ p, p ∈ build_peers cfg dom permitted revoked routes rows claimed ∧
       p_node_id p = Node.id n ∧ p_public_key_hex p = toLowerCase k.
Proof.
  intros Hn Hk. revert claimed. induction rows as [|m rows IH]; intros claimed; [by apply elem_of_nil in Hn|].
  cbn [build_peers]. apply elem_of_cons in Hn as [<-|Hn].
  - rewrite Hk. eexists. split; [left|done].
  - destruct (peer_key permitted revoked m).
    + destruct (IH Hn ((claim_subnets (Node.id m) routes claimed) ++ claimed)) as (p & Hp & H).
      exists p. split; [by right|done].
    + apply IH. done.
Qed.

Lemma elem_of_candidates d me n :
  n ∈ candidates d me →
  Node.is_quarantined me = false ∧ n ∈ Db.nodes d ∧ Node.id n ≠ Node.id me ∧
  Node.is_quarantined n = false ∧ Node.is_healthy n = true.
Proof.
  unfold candidates. destruct (Node.is_quarantined me); [by intros ?%elem_of_nil|].
  rewrite elem_of_js_sort, elem_of_where. unfold candidate. intros [H Hn]. b2p. done.
Qed.

Lemma buildNetmap_inv nodeId now d nm :
  buildNetmap cfg nodeId now d = Ok (Some nm) →
  ∃ me pol rs, me ∈ Db.nodes d ∧ Node.id me = nodeId ∧
    Acl.compilePolicyFor nodeId d = Some pol ∧ acl nm = Some pol ∧
    Routes.routesFor nodeId d = Ok rs ∧ routes nm = rs ∧
    peers nm = build_peers cfg (search_domain_of (joined_org d me)) (Permit.permittedPeerVIPs (Some pol))
      (toLowerCase <$> Revocation.activeRevocations now d) rs (candidates d me) [].
Proof.
  unfold buildNetmap. destruct (select1 _ (Db.nodes d)) as [me|] eqn:Es; [|done].
  destruct (Routes.routesFor nodeId d) as [rs|] eqn:Er; [|done]. intros [= <-].
  pose proof Es as Es'. apply select1_elem in Es as [Hid Hme]. b2p.
  destruct (Acl.compilePolicyFor nodeId d) as [pol|] eqn:Ep.
  - exists me, pol, rs. cbn. done.
  - exfalso. unfold Acl.compilePolicyFor in Ep. rewrite AclFacts.compileFor_shape in Ep.
    unfold Acl.nodeScope in Ep. rewrite Es' in Ep. done.
Qed.
End Facts.
End NetmapFacts.

(** ** Determinism *)
Module Determinism.
Import Netmap NetmapFacts.

Section Perm.
Context {Coll : Collation} {Loc : Locale} (d d' : Db.t).
Hypothesis (Hu : unique_keys d) (Hs : same_rows d d').

Lemma node_by_id id :
  select1 (λ n, (Node.id n =? id)%string) (Db.nodes d) = select1 (λ n, (Node.id n =? id)%string) (Db.nodes d').
Proof.
  apply (select1_perm Node.id _ id); [apply Hu| |apply Hs]. intros x Hx. by b2p.
Qed.

Lemma org_by_id id :
  select1 (λ o, (Org.id o =? id)%string) (Db.organizations d) =
  select1 (λ o, (Org.id o =? id)%string) (Db.organizations d').
Proof.
  apply (select1_perm Org.id _ id); [apply Hu| |apply Hs]. intros x Hx. by b2p.
Qed.

Lemma nodeScope_perm id : Acl.nodeScope id d = Acl.nodeScope id d'.
Proof.
  unfold Acl.nodeScope. rewrite node_by_id. destruct (select1 _ _); [|done]. cbn. unfold Acl.scope_row.
  by rewrite org_by_id.
Qed.

Lemma is_peer_perm s n : Acl.is_peer d s n = Acl.is_peer d' s n.
Proof.
  unfold Acl.is_peer, Acl.peered. by rewrite (existsb_perm _ _ _ (sr_peerings _ _ Hs)).
Qed.

Lemma policy_peers_perm s : Acl.policy_peers d s = Acl.policy_peers d' s.
Proof.
  unfold Acl.policy_peers. rewrite (where_ext _ (Acl.is_peer d' s)) by (intros; apply is_peer_perm).
  apply (sort_where_perm Node.id); [apply _|apply Hu| |apply Hs].
  intros x y _ _ E. by apply collate_zero.
Qed.

Lemma listRules_perm o : Acl.listRules o d = Acl.listRules o d'.
Proof.
  unfold Acl.listRules. apply (sort_where_perm Rule.id); [apply _|apply Hu| |apply Hs].
  intros x y _ _. apply AclFacts.rule_order_id.
Qed.

Lemma compilePolicyFor_perm id : Acl.compilePolicyFor id d = Acl.compilePolicyFor id d'.
Proof.
  unfold Acl.compilePolicyFor, Acl.compileFor. rewrite nodeScope_perm.
  destruct (Acl.nodeScope id d') as [s|]; [|done]. cbn [mbind option_bind].
  rewrite policy_peers_perm, listRules_perm. unfold Acl.getEpoch. by rewrite (sr_epochs _ _ Hs).
Qed.

Lemma node_of_perm v : Routes.node_of d v = Routes.node_of d' v.
Proof.
  unfold Routes.node_of. destruct v; try done. apply (select1_perm Node.id _ s).
  - rewrite fmap_reverse. rewrite (reverse_Permutation (Node.id <$> Db.nodes d)). apply Hu.
  - intros x Hx. by b2p.
  - rewrite !reverse_Permutation. apply Hs.
Qed.

Lemma gateways_of_perm i specs : Routes.gateways_of d i specs = Routes.gateways_of d' i specs.
Proof.
  revert i. induction specs as [|v specs IH]; intros i; [done|]. cbn [Routes.gateways_of].
  assert (Routes.gateway_of d i v = Routes.gateway_of d' i v) as ->.
  { unfold Routes.gateway_of. destruct (Routes.get_prop "node_id" v); [|done]. by rewrite node_of_perm. }
  by rewrite IH.
Qed.

Lemma route_order_id x y : Routes.route_order x y = 0 → Route.id x = Route.id y.
Proof.
  unfold Routes.route_order, cmp_lex, cmp_on. destruct (Z.eqb_spec (collate (Route.network_id x) (Route.network_id y)) 0).
  - intros H. by apply collate_zero.
  - lia.
Qed.

#[local] Instance route_order_comparator : Comparator Routes.route_order.
Proof. unfold Routes.route_order. apply _. Qed.

Lemma routesFor_perm id : Routes.routesFor id d = Routes.routesFor id d'.
Proof.
  unfold Routes.routesFor.
  assert (Routes.listRoutes d = Routes.listRoutes d') as ->.
  { unfold Routes.listRoutes. apply (sort_where_perm Route.id); [apply _|apply Hu| |apply Hs].
    intros x y _ _. apply route_order_id. }
  induction (Routes.listRoutes d') as [|row rows IH]; [done|]. cbn [Routes.deliver_all].
  assert (Routes.deliver d id row = Routes.deliver d' id row) as ->.
  { unfold Routes.deliver. destruct (cidrToGoIPNet _); [|done]. destruct (parseJsonColumn _ _); try done.
    by rewrite gateways_of_perm. }
  by rewrite IH.
Qed.

Lemma activeRevocations_perm now :
  Revocation.activeRevocations now d ≡ₚ Revocation.activeRevocations now d'.
Proof.
  unfold Revocation.activeRevocations. apply fmap_Permutation. rewrite !js_sort_perm.
  apply where_perm, Hs.
Qed.

Lemma joined_org_perm n : joined_org d n = joined_org d' n.
Proof. unfold joined_org. destruct (Node.organization_id n); [|done]. apply org_by_id. Qed.
End Perm.

Lemma peer_key_perm permitted revoked revoked' n :
  revoked ≡ₚ revoked' → peer_key permitted revoked n = peer_key permitted revoked' n.
Proof.
  intros Hp. unfold peer_key. destruct (negb _); [done|]. destruct (Vip.normalisePublicKeyHex _) as [k|]; [|done].
  by rewrite (bool_decide_ext (toLowerCase k ∈ revoked) (toLowerCase k ∈ revoked')) by (by rewrite Hp).
Qed.

Lemma build_peers_perm {Loc : Locale} cfg dom permitted revoked revoked' routes rows claimed :
  revoked ≡ₚ revoked' →
  build_peers cfg dom permitted revoked routes rows claimed =
  build_peers cfg dom permitted revoked' routes rows claimed.
Proof.
  intros Hp. revert claimed. induction rows as [|n rows IH]; intros claimed; [done|]. cbn [build_peers].
  rewrite (peer_key_perm permitted revoked revoked') by done. destruct (peer_key _ _ n); by rewrite IH.
Qed.
End Determinism.

(** ** Subnets *)
Module Subnets.
Import Netmap.

(** The node a route sends its traffic through. *)
Definition gateway (r : Routes.delivered) : option string :=
  Routes.g_node_id <$> head (where_ Routes.g_is_healthy (Routes.d_routing_peers r)).

Lemma claim_subnets_spec rowId routes claimed :
  NoDup (claim_subnets rowId routes claimed) ∧
  ∀ c, c ∈ claim_subnets rowId routes claimed →
    (c ∉ claimed) ∧ ∃ r, r ∈ routes ∧ c = goIPNetToCidr (Routes.d_network_cidr r) ∧ gateway r = Some rowId.
Proof.
  revert claimed. induction routes as [|r routes IH]; intros claimed; cbn [claim_subnets].
  - split; [constructor|]. by intros c ?%elem_of_nil.
  - assert (∀ cl, (∀ c, c ∈ claim_subnets rowId routes cl →
        (c ∉ cl) ∧ ∃ r', r' ∈ routes ∧ c = goIPNetToCidr (Routes.d_network_cidr r') ∧ gateway r' = Some rowId) →
      ∀ c, c ∈ claim_subnets rowId routes cl →
        (c ∉ cl) ∧ ∃ r', r' ∈ r :: routes ∧ c = goIPNetToCidr (Routes.d_network_cidr r') ∧ gateway r' = Some rowId) as Hw.
    { intros cl H c Hc. destruct (H c Hc) as (Hn & r' & Hr & E). split; [done|]. exists r'. split; [by right|done]. }
    case_bool_decide as Hc; [destruct (IH claimed); auto|].
    destruct (head _) as [g|] eqn:Eg; [|destruct (IH claimed); auto].
    destruct (Routes.g_node_id g =? rowId)%string eqn:Ei; [|destruct (IH claimed); auto].
    b2p. set (cidr := goIPNetToCidr _) in *. destruct (IH (cidr :: claimed)) as [Hn Hin].
    split.
    + constructor; [|done]. intros H. destruct (Hin _ H) as [Hx _]. apply Hx. left.
    + intros c Hcin. apply elem_of_cons in Hcin as [->|Hcin].
      * split; [done|]. exists r. split; [left|]. split; [done|]. unfold gateway. rewrite Eg. by simplify_eq/=.
      * destruct (Hw _ Hin c Hcin) as [Hx Hr]. split; [|done]. intros H. apply Hx. by right.
Qed.

(** The subnets each peer claimed, peer by peer. *)
Definition claim_ok (routes : list Routes.delivered) (rows : list Node.t) (p : peer) (c : list string) : Prop :=
  ∃ n, n ∈ rows ∧ Node.id n = p_node_id p ∧ p_allowed_ips p ≡ₚ own_addresses n ++ c ∧
    ∀ cidr, cidr ∈ c → ∃ r, r ∈ routes ∧ cidr = goIPNetToCidr (Routes.d_network_cidr r) ∧
                             gateway r = Some (Node.id n).

Lemma claim_ok_cons routes n rows p c : claim_ok routes rows p c → claim_ok routes (n :: rows) p c.
Proof. intros (m & Hm & H). exists m. split; [by right|done]. Qed.

Lemma build_peers_claims {Loc : Locale} cfg dom permitted revoked routes rows claimed :
  ∃ claims, Forall2 (claim_ok routes rows) (build_peers cfg dom permitted revoked routes rows claimed) claims ∧
    NoDup (concat claims) ∧ ∀ c, c ∈ concat claims → c ∉ claimed.
Proof.
  revert claimed. induction rows as [|n rows IH]; intros claimed; cbn [build_peers].
  - exists []. split; [constructor|]. split; [constructor|]. by intros c ?%elem_of_nil.
  - destruct (peer_key permitted revoked n) as [k|].
    + destruct (IH (claim_subnets (Node.id n) routes claimed ++ claimed)) as (claims & Hf & Hn & Hd).
      destruct (claim_subnets_spec (Node.id n) routes claimed) as [Hcn Hcs].
      set (mine := claim_subnets _ _ _) in *. exists (mine :: claims). split; [|split].
      * constructor.
        -- exists n. split; [left|]. split; [done|]. split; [cbn; apply js_sort_perm|].
           intros cidr Hc. by destruct (Hcs cidr Hc).
        -- eapply Forall2_impl; [exact Hf|]. intros p c. apply claim_ok_cons.
      * cbn [concat]. apply NoDup_app. split; [done|]. split; [|done].
        intros c Hc Hc'. apply (Hd c Hc'). apply elem_of_app. by left.
      * cbn [concat]. intros c Hc. apply elem_of_app in Hc as [Hc|Hc]; [by apply Hcs|].
        intros H. apply (Hd c Hc). apply elem_of_app. by right.
    + destruct (IH claimed) as (claims & Hf & H). exists claims. split; [|done].
      eapply Forall2_impl; [exact Hf|]. intros p c. apply claim_ok_cons.
Qed.
End Subnets.

(** ** Theorems *)
Import Netmap NetmapFacts Determinism Subnets.

(** A peer of a netmap is a stored node that the policy counts as a peer. *)
Lemma netmap_peer {Coll : Collation} {Loc : Locale} cfg nodeId now d nm p :
  unique_keys d → buildNetmap cfg nodeId now d = Ok (Some nm) → p ∈ peers nm →
  ∃ me n pol k, me ∈ Db.nodes d ∧ Node.id me = nodeId ∧ Node.is_quarantined me = false ∧
    n ∈ Db.nodes d ∧ Node.id n = p_node_id p ∧ Node.id n ≠ nodeId ∧
    Node.is_healthy n = true ∧ Node.is_quarantined n = false ∧ Acl.is_peer d (Acl.scope_row d me) n = true ∧
    acl nm = Some pol ∧ Node.overlay_ipv4 n ∈ Permit.permittedPeerVIPs (Some pol) ∧
    Vip.normalisePublicKeyHex (Node.public_key n) = Some k ∧ p_public_key_hex p = toLowerCase k ∧
    toLowerCase k ∉ toLowerCase <$> Revocation.activeRevocations now d.
Proof.
  intros Hu Hb Hp. destruct (buildNetmap_inv _ _ _ _ _ Hb) as (me & pol & rs & Hme & Hid & Hpol & Hacl & _ & _ & Hpeers).
  rewrite Hpeers in Hp. apply build_peers_elem in Hp as (n & k & subnets & Hn & Hk & ->).
  apply elem_of_candidates in Hn as (Hqme & Hn & Hne & Hq & Hh).
  apply peer_key_some in Hk as (Hperm & Hk & Hrev).
  destruct (permitted_entry _ _ Hperm) as (e & He & Hv).
  destruct (AclFacts.compileFor_entry _ _ _ _ _ Hpol He) as (s & n' & Hs & Hn' & Hv').
  rewrite <- Hid, AclFacts.nodeScope_row in Hs by (auto; apply Hu). injection Hs as <-.
  apply AclFacts.elem_of_policy_peers in Hn' as [Hn' Hpeer].
  assert (n' = n) as -> by (apply (NoDup_fmap_inj Node.overlay_ipv4 (Db.nodes d)); [apply Hu|done|done|congruence]).
  exists me, n, pol, k. split_and!; auto; congruence.
Qed.

(** C1. A netmap names no node it must not.  Every peer of the document is
    another node, healthy and not quarantined, of the same organisation, in the
    same compartment or one joined by an "allow" peering, whose address the
    compiled policy permits, and whose key is stored, is the key sent, and is not
    on the list of active revocations; and the receiving node is itself not
    quarantined. *)
Theorem netmap_isolation {Coll : Collation} {Loc : Locale} cfg nodeId now d nm p :
  unique_keys d → buildNetmap cfg nodeId now d = Ok (Some nm) → p ∈ peers nm →
  ∃ me n pol k, me ∈ Db.nodes d ∧ Node.id me = nodeId ∧ Node.is_quarantined me = false ∧
    n ∈ Db.nodes d ∧ Node.id n = p_node_id p ∧ Node.id n ≠ nodeId ∧
    Node.is_healthy n = true ∧ Node.is_quarantined n = false ∧ Acl.org_of n = Acl.org_of me ∧
    (Acl.EFFECTIVE_COMPARTMENT n = Acl.EFFECTIVE_COMPARTMENT me ∨
     Acl.peered d (Acl.EFFECTIVE_COMPARTMENT me) (Acl.EFFECTIVE_COMPARTMENT n) = true) ∧
    acl nm = Some pol ∧ Node.overlay_ipv4 n ∈ Permit.permittedPeerVIPs (Some pol) ∧
    Vip.normalisePublicKeyHex (Node.public_key n) = Some k ∧ p_public_key_hex p = toLowerCase k ∧
    toLowerCase k ∉ toLowerCase <$> Revocation.activeRevocations now d.
Proof.
  intros Hu Hb Hp. destruct (netmap_peer cfg nodeId now d nm p Hu Hb Hp) as (me & n & pol & k & ? & ? & ? & ? & ? & ? & ? & ? & Hpeer & ? & ? & ? & ? & ?).
  unfold Acl.is_peer in Hpeer. cbn [Acl.s_id Acl.s_organization_id Acl.s_compartment_id Acl.scope_row] in Hpeer. b2p.
  exists me, n, pol, k. split_and!; auto; try congruence.
  match goal with H : _ ∨ _ |- _ => destruct H as [H|H]; [left; by b2p|by right] end.
Qed.

(** A netmap leaves no one out.  Every other node of the organisation that
    is healthy and not quarantined, whose address the policy permits and whose
    key is usable and not revoked, is a peer of the document of a node that is
    not quarantined; a quarantined node is given no peer at all. *)
Theorem netmap_complete {Coll : Collation} {Loc : Locale} cfg nodeId now d nm me :
  unique_keys d → me ∈ Db.nodes d → Node.id me = nodeId → Node.organization_id me ≠ Some "" →
  buildNetmap cfg nodeId now d = Ok (Some nm) →
  (Node.is_quarantined me = true → peers nm = []) ∧
  (Node.is_quarantined me = false → ∀ n k, n ∈ Db.nodes d → Node.id n ≠ nodeId →
     Acl.org_of n = Acl.org_of me → Node.is_healthy n = true → Node.is_quarantined n = false →
     Node.overlay_ipv4 n ∈ Permit.permittedPeerVIPs (acl nm) →
     Vip.normalisePublicKeyHex (Node.public_key n) = Some k →
     toLowerCase k ∉ toLowerCase <$> Revocation.activeRevocations now d →
     ∃ p, p ∈ peers nm ∧ p_node_id p = Node.id n ∧ p_public_key_hex p = toLowerCase k).
Proof.
  intros Hu Hme Hid Horg Hb.
  destruct (buildNetmap_inv _ _ _ _ _ Hb) as (me' & pol & rs & Hme' & Hid' & _ & Hacl & _ & _ & Hpeers).
  assert (me' = me) as -> by (apply (NoDup_fmap_inj Node.id (Db.nodes d)); [apply Hu|done|done|congruence]).
  rewrite Hpeers, Hacl. split.
  - intros Hq. unfold candidates. by rewrite Hq.
  - intros Hq n k Hn Hne Ho Hh Hqn Hperm Hk Hrev. apply build_peers_complete.
    + unfold candidates. rewrite Hq, elem_of_js_sort, elem_of_where. split; [|done]. unfold candidate.
      rewrite Hqn, Hh, Ho, !andb_true_iff, negb_true_iff, String.eqb_neq. split_and!; auto; [congruence|].
      apply String.eqb_eq. unfold Acl.org_of, coalesce, non_empty.
      destruct (Node.organization_id me) as [o|]; [|done]. cbn [mbind option_bind default from_option].
      destruct (o =? "")%string eqn:E; [b2p; congruence|done].
    + by apply peer_key_some.
Qed.

(** Each subnet has one gateway.  The addresses of a peer are its own two and
    the subnets it claimed; over all the peers of a document no subnet is claimed
    twice, and each is one of the delivered routes whose first healthy gateway,
    in priority order, is that peer. *)
Theorem netmap_subnets_claimed_once {Coll : Collation} {Loc : Locale} cfg nodeId now d nm :
  buildNetmap cfg nodeId now d = Ok (Some nm) →
  ∃ claims, Forall2 (claim_ok (routes nm) (Db.nodes d)) (peers nm) claims ∧ NoDup (concat claims).
Proof.
  intros Hb. destruct (buildNetmap_inv _ _ _ _ _ Hb) as (me & pol & rs & _ & _ & _ & _ & _ & -> & ->).
  edestruct (build_peers_claims cfg) as (claims & Hf & Hn & _). exists claims. split; [|exact Hn].
  eapply Forall2_impl; [exact Hf|]. intros p c (n & Hin & H). exists n. split; [|done].
  by apply elem_of_candidates in Hin as (_ & Hin & _).
Qed.

(** The document is a function of the data.  Two stores with the same rows,
    whatever order their tables are scanned in, give the same document, provided
    the locale tells the node identifiers apart. *)
Theorem buildNetmap_deterministic {Coll : Collation} {Loc : Locale} cfg nodeId now d d' :
  unique_keys d → same_rows d d' →
  (∀ a b, a ∈ Db.nodes d → b ∈ Db.nodes d → localeCompare (Node.id a) (Node.id b) = 0 → Node.id a = Node.id b) →
  buildNetmap cfg nodeId now d = buildNetmap cfg nodeId now d'.
Proof.
  intros Hu Hs Hloc. unfold buildNetmap. rewrite (node_by_id d d') by done.
  destruct (select1 _ (Db.nodes d')) as [me|]; [|done].
  rewrite (routesFor_perm d d'), (compilePolicyFor_perm d d'), (joined_org_perm d d') by done.
  destruct (Routes.routesFor nodeId d') as [rs|]; [|done]. do 2 f_equal.
  assert (candidates d me = candidates d' me) as ->.
  { unfold candidates. destruct (Node.is_quarantined me); [done|].
    apply (sort_where_perm Node.id); [apply _|apply Hu|exact Hloc|apply Hs]. }
  assert (Revocation.activeRevocations now d ≡ₚ Revocation.activeRevocations now d') as Hr
    by (by apply activeRevocations_perm).
  f_equal.
  - unfold Acl.getEpoch. by rewrite (sr_epochs _ _ Hs).
  - apply build_peers_perm. by apply fmap_Permutation.
  - apply js_sort_permutation; [apply _| |done]. intros x y _ _. apply c_collate_zero.
Qed.

(** ** A small fleet, for the witnesses *)
Module NetmapSample.
Definition key (b : Z) : string := hex_encode (replicate 32 b).

Definition node (id vip : string) (org : string) (b : Z) : Node.t :=
  (AclSample.node id vip (Some org) None) <| Node.public_key := key b |>.

Definition db : Db.t :=
  AclSample.db
    <| Db.nodes := [node "n2" "100.64.0.2" "org-a" 2; node "n1" "100.64.0.1" "org-a" 1;
                    node "n3" "100.64.0.3" "org-b" 3] |>
    <| Db.network_routes := [Route.mk "rt" "net" "" "10.1.2.3/24" true "ACTIVE_PASSIVE"
         (JArr [JObj [("node_id", JStr "n2")]]) (JArr []) true 0 0] |>.

Definition build (nodeId : string) (now : Z) (d : Db.t) : outcome (option netmap) :=
  buildNetmap (Coll := c_collation) (Loc := Endpoints.c_locale) Endpoints.sample_config nodeId now d.

Definition empty_netmap : netmap :=
  mk_netmap 0 (mk_self "" "" 0 0 None None None None None) [] None [] [] [] 0.

Definition netmap_of (o : outcome (option netmap)) : netmap :=
  match o with Ok (Some nm) => nm | _ => empty_netmap end.

Definition nm1 : netmap := Eval vm_compute in netmap_of (build "n1" 0 db).

Lemma nm1_built : build "n1" 0 db = Ok (Some nm1).
Proof. vm_compute. reflexivity. Defined.

Lemma sample_unique : unique_keys db.
Proof. split; apply (bool_decide_unpack _); vm_compute; exact I. Defined.
End NetmapSample.

Lemma netmap_isolation_witness : ∃ n,
  n ∈ Db.nodes NetmapSample.db ∧ Node.id n = "n2" ∧ Node.is_quarantined n = false.
Proof.
  assert (∃ p, p ∈ peers NetmapSample.nm1 ∧ p_node_id p = "n2") as (p & Hp & Hid)
    by (eexists; split; [left|reflexivity]).
  destruct (netmap_isolation (Coll := c_collation) (Loc := Endpoints.c_locale) _ _ _ _ _ p
    NetmapSample.sample_unique NetmapSample.nm1_built Hp) as (me & n & pol & k & _ & _ & _ & Hn & Hi & _ & _ & Hq & _).
  exists n. split; [exact Hn|]. split; [|exact Hq]. etransitivity; [exact Hi|exact Hid].
Defined.

Lemma netmap_complete_witness : ∃ p, p ∈ peers NetmapSample.nm1 ∧ p_node_id p = "n2".
Proof.
  destruct (netmap_complete (Coll := c_collation) (Loc := Endpoints.c_locale) Endpoints.sample_config "n1" 0
    NetmapSample.db NetmapSample.nm1 (NetmapSample.node "n1" "100.64.0.1" "org-a" 1)
    NetmapSample.sample_unique ltac:(right; left) eq_refl ltac:(discriminate) NetmapSample.nm1_built) as [_ H].
  destruct (H eq_refl (NetmapSample.node "n2" "100.64.0.2" "org-a" 2) (NetmapSample.key 2)) as (p & Hp & Hid & _);
    [left|discriminate|reflexivity|reflexivity|reflexivity| |vm_compute; reflexivity|
     vm_compute; apply not_elem_of_nil|exists p; split; [exact Hp|exact Hid]].
  apply (bool_decide_unpack _). vm_compute. exact I.
Defined.

Lemma netmap_subnets_claimed_once_witness : ∃ claims,
  Forall2 (claim_ok (routes NetmapSample.nm1) (Db.nodes NetmapSample.db)) (peers NetmapSample.nm1) claims ∧
  NoDup (concat claims).
Proof.
  exact (netmap_subnets_claimed_once (Coll := c_collation) (Loc := Endpoints.c_locale) _ _ _ _ _ NetmapSample.nm1_built).
Defined.

Lemma buildNetmap_deterministic_witness :
  NetmapSample.build "n1" 0 NetmapSample.db =
  NetmapSample.build "n1" 0 (NetmapSample.db <| Db.nodes ::= reverse |>).
Proof.
  apply (buildNetmap_deterministic (Coll := c_collation) (Loc := Endpoints.c_locale) _ "n1" 0 NetmapSample.db).
  - exact NetmapSample.sample_unique.
  - split; try reflexivity. symmetry. apply reverse_Permutation.
  - intros a b _ _ H. apply c_collate_zero. exact H.
Defined.

(** The version can under-signal.  When a revocation runs out, the document
    of a node changes (the peer is named again) with nothing written to the
    store, so under one and the same version; the header of the service says an
    unchanged version means an unchanged document. *)
Theorem netmap_version_under_signals :
  let d := NetmapSample.db <| Db.revoked_keys :=
    [Revoked.mk (NetmapSample.key 2) (Some "n2") "manual" None 0 1000] |> in
  let before := NetmapSample.netmap_of (NetmapSample.build "n1" 999 d) in
  let after := NetmapSample.netmap_of (NetmapSample.build "n1" 1000 d) in
  version before = version after ∧ peers before = [] ∧ p_node_id <$> peers after = ["n2"].
Proof. vm_compute. done. Qed.

(** Routes cross organisations.  [routesFor] is not scoped: a node is sent a
    route whose only gateway is a node of another organisation, with that node's
    identifier and its subnet, although the peer list itself never names it. *)
Theorem netmap_routes_cross_organisations :
  let d := NetmapSample.db <| Db.network_routes := [Route.mk "rt" "net" "" "10.9.0.0/16" true "ACTIVE_PASSIVE"
         (JArr [JObj [("node_id", JStr "n3")]]) (JArr []) true 0 0] |> in
  let nm := NetmapSample.netmap_of (NetmapSample.build "n1" 0 d) in
  (λ r, Routes.g_node_id <$> Routes.d_routing_peers r) <$> routes nm = [["n3"]] ∧
  p_node_id <$> peers nm = ["n2"].
Proof. vm_compute. done. Qed.
