(* ===== verification/Enrol.v ===== *)
(** * Enrolment secrets and node authentication

    [services/PreAuthKeyService.js], [authorizeOwner] of
    [services/EnrollmentService.js], and [middleware/nodeAuth.js].  The digest is
    a parameter, as in [Revocation]; every read of a key row is [FOR UPDATE]
    inside a transaction, so concurrent uses of a key are sequences of uses. *)

From S2P Require Import Prelude Js Db Acl Revocation.

Module PreAuth.

Definition SECRET_PREFIX : string := "nnk1_".

Inductive pak_result :=
  | PakDenied (status : Z) (error : string)
  | PakOk (key : PreAuthKey.t).

Section WithHash.
Context (sha256 : string → string).

Definition hashSecret (secret : string) : string := sha256 (trim secret).

(** [maxUses ? Number(maxUses) : null] for a reusable key, 1 otherwise. *)
Definition effective_max_uses (isReusable : bool) (maxUses : jsval) : option num :=
  if isReusable then (if truthy maxUses then Some (js_Number maxUses) else None) else Some (of_Z 1).

Definition max_uses_column (isReusable : bool) (maxUses : jsval) : option (option Z) :=
  match effective_max_uses isReusable maxUses with
  | Some n => Some <$> pg_int n
  | None => Some None
  end.

Definition createPreAuthKey (rnd rnd_id : string) (now : Z) (ownerId : string)
    (organizationId allowedRole : option string) (isReusable : bool) (maxUses : jsval)
    (expiresInHours : Z) : eff Db.t (string * PreAuthKey.t) :=
  if (ownerId =? "")%string then throw None "ownerId is required to create a pre-auth key" else
  let secret := SECRET_PREFIX +:+ rnd in
  let keyHash := hashSecret secret in
  let keyId := "pak_" +:+ rnd_id in
  let expiresAt := if expiresInHours =? 0 then None else Some (now + expiresInHours * Credentials.HOUR) in
  let orgId := match organizationId with
               | Some o => if (o =? "")%string then "org-default" else o
               | None => "org-default" end in
  let role := r ← allowedRole; if (r =? "")%string then None else Some r in
  max_uses <-! or_db_error (max_uses_column isReusable maxUses) ;
  d <-! get ;
  let row := PreAuthKey.mk keyId keyHash (take_string 10 secret) ownerId (Some orgId) role isReusable 0
               max_uses expiresAt None now in
  if existsb (λ u, (User.id u =? ownerId)%string) (Db.users d) &&
     existsb (λ o, (Org.id o =? orgId)%string) (Db.organizations d) &&
     negb (existsb (λ k, (PreAuthKey.id k =? keyId)%string || (PreAuthKey.key_hash k =? keyHash)%string)
             (Db.preauth_keys d))
  then
    modify (λ d, d <| Db.preauth_keys ::= λ l, l ++ [row] |>) ;!
    eff_ret (secret, row)
  else db_error.

Definition some_text (o : option string) : option string :=
  s ← o; if (s =? "")%string then None else Some s.

Definition increment (id : string) : list PreAuthKey.t → list PreAuthKey.t :=
  update_where (λ k, (PreAuthKey.id k =? id)%string) (λ k, k <| PreAuthKey.used_count ::= Z.succ |>).

(** [key.max_uses || 1]. *)
Definition use_limit (key : PreAuthKey.t) : Z :=
  match PreAuthKey.max_uses key with Some n => if n =? 0 then 1 else n | None => 1 end.

Definition role_mismatch (key : PreAuthKey.t) (requestedRole : option string) : bool :=
  match some_text (PreAuthKey.allowed_role key), some_text requestedRole with
  | Some a, Some r => negb (a =? r)%string
  | _, _ => false
  end.

Definition validateAndConsumePreAuthKey (secret : jsval) (requestedRole targetOwnerId : option string)
    (now : Z) : eff Db.t pak_result :=
  match secret with
  | JStr text =>
      if (text =? "")%string then eff_ret (PakDenied 401 "pre-auth key is required") else
      d <-! get ;
      match select1 (λ k, (PreAuthKey.key_hash k =? hashSecret text)%string) (Db.preauth_keys d) with
      | None => eff_ret (PakDenied 401 "invalid pre-auth key")
      | Some key =>
          if match PreAuthKey.revoked_at key with Some _ => true | None => false end
          then eff_ret (PakDenied 401 "pre-auth key has been revoked")
          else if match PreAuthKey.expires_at key with Some e => e <? now | None => false end
          then eff_ret (PakDenied 401 "pre-auth key has expired")
          else if negb (PreAuthKey.is_reusable key) && (use_limit key <=? PreAuthKey.used_count key)
          then eff_ret (PakDenied 401 "single-use pre-auth key has already been consumed")
          else if role_mismatch key requestedRole
          then eff_ret (PakDenied 403 ("pre-auth key restricts enrolment to role '" +:+
                 coalesce (PreAuthKey.allowed_role key) "" +:+ "', cannot enrol as '" +:+
                 coalesce requestedRole "" +:+ "'"))
          else if match some_text targetOwnerId with
                  | Some o => negb (PreAuthKey.owner_id key =? o)%string
                  | None => false
                  end
          then eff_ret (PakDenied 403 "pre-auth key owner does not match existing node owner")
          else
            modify (λ d, d <| Db.preauth_keys ::= increment (PreAuthKey.id key) |>) ;!
            eff_ret (PakOk key)
      end
  | _ => eff_ret (PakDenied 401 "pre-auth key is required")
  end.

(** The rows a caller may see or revoke. *)
Definition in_scope (userId : string) (isSuperAdmin : bool) (orgId : option string) (k : PreAuthKey.t) : bool :=
  isSuperAdmin ||
  match some_text orgId with
  | Some o => opt_is (PreAuthKey.organization_id k) o
  | None => (PreAuthKey.owner_id k =? userId)%string
  end.

Definition listPreAuthKeys (userId : string) (isSuperAdmin : bool) (orgId : option string) (d : Db.t) :
    list PreAuthKey.t :=
  Order.js_sort (λ a b, PreAuthKey.created_at b - PreAuthKey.created_at a)
    (where_ (in_scope userId isSuperAdmin orgId) (Db.preauth_keys d)).

Definition revokePreAuthKey (keyId userId : string) (isSuperAdmin : bool) (orgId : option string) (now : Z) :
    eff Db.t bool :=
  d <-! get ;
  let p k := (PreAuthKey.id k =? keyId)%string && in_scope userId isSuperAdmin orgId k in
  modify (λ d, d <| Db.preauth_keys ::= update_where p (λ k, k <| PreAuthKey.revoked_at := Some now |>) |>) ;!
  eff_ret (existsb p (Db.preauth_keys d)).

(** Errors are logged, not thrown. *)
Definition ensureBootstrapKey (bootstrapSecret adminUserId : string) (now : Z) : eff Db.t unit :=
  if (bootstrapSecret =? "")%string || (adminUserId =? "")%string then eff_ret tt else
  let secret := trim bootstrapSecret in
  let keyHash := hashSecret secret in
  d <-! get ;
  if existsb (λ k, (PreAuthKey.key_hash k =? keyHash)%string) (Db.preauth_keys d) then eff_ret tt
  else if existsb (λ u, (User.id u =? adminUserId)%string) (Db.users d) &&
          negb (existsb (λ k, (PreAuthKey.id k =? "pak_bootstrap_admin")%string) (Db.preauth_keys d))
  then modify (λ d, d <| Db.preauth_keys ::= λ l, l ++ [PreAuthKey.mk "pak_bootstrap_admin" keyHash
         (take_string 10 secret) adminUserId None None true 0 None None None now] |>)
  else eff_ret tt.
End WithHash.
End PreAuth.

Module Enrollment.

Record authorized := mk_authorized { a_user : User.t; a_organization_id : string; a_org_role : string }.

Definition denied {A} (status : Z) (message : string) : outcome A := Throw (Some status) message.

Definition membership_of (d : Db.t) (userId org : string) : option Membership.t :=
  select1 (λ m, (Membership.user_id m =? userId)%string && (Membership.organization_id m =? org)%string)
    (Db.memberships d).

(** [a || b] on nullable text. *)
Definition text_or (o : option string) (d : string) : string :=
  match o with Some s => if (s =? "")%string then d else s | None => d end.

Definition authorizeOwner (ownerId organizationId : string) (consoleActor : bool) (d : Db.t) : outcome authorized :=
  match select1 (λ o, (Org.id o =? organizationId)%string) (Db.organizations d) with
  | None => denied 403 "Organization is not available for enrollment"
  | Some org =>
      match Org.destroyed_at org with
      | Some _ => denied 403 "Organization is not available for enrollment"
      | None =>
          match select1 (λ u, (User.id u =? ownerId)%string) (Db.users d) with
          | None => denied 403 "Enrollment owner is not active"
          | Some user =>
              if negb (User.status user =? "active")%string then denied 403 "Enrollment owner is not active" else
              let membership := membership_of d ownerId organizationId in
              let own := text_or (User.organization_id user) "org-default" in
              let foreign := negb (own =? organizationId)%string in
              let is_member := match membership with Some _ => true | None => false end in
              let super := (User.role user =? "super-admin")%string in
              if negb super && (if consoleActor then foreign else foreign && negb is_member)
              then denied 403 "Enrollment owner does not belong to this organization" else
              let orgRole := if super then "owner"
                             else text_or (Membership.role <$> membership) (User.role user) in
              if consoleActor && ((orgRole =? "auditor")%string || (orgRole =? "viewer")%string)
              then denied 403 "Forbidden: read-only role cannot create nodes"
              else Ok (mk_authorized user organizationId orgRole)
          end
      end
  end.

Definition authorizeConsole (actorId : string) (organizationIdAtIssue : option string) (d : Db.t) :
    outcome authorized :=
  authorizeOwner actorId (text_or organizationIdAtIssue "org-default") true d.
End Enrollment.

Module NodeAuth.
Import Credentials.

Record request := mk_request {
  authorization : option string; body : jsval; params : jsval; query : jsval;
}.

Inductive auth_result :=
  | AuthDenied (status : Z) (error : string)
  | AuthNode (node_id credentialId : string)
  | AuthLegacy.

(** The token of an [Authorization: Bearer] header, or the empty string. *)
Definition header_bearer (r : request) : string :=
  let h := trim (match authorization r with Some s => s | None => "" end) in
  if startsWith "bearer " (toLowerCase h) then trim (drop_string 7 h) else "".

(** [String(v).trim()] of a truthy member of the body, else what is there. *)
Definition or_member (bearer : string) (k : string) (r : request) : string :=
  if (bearer =? "")%string && truthy (body r) && truthy (field k (body r))
  then trim (js_String (field k (body r))) else bearer.

Definition bearerOf (r : request) : string :=
  or_member (or_member (header_bearer r) "credential" r) "auth_token" r.

(** [v.node_id ? String(v.node_id).trim() : null]. *)
Definition declared_in (v : jsval) : string :=
  if truthy v && truthy (field "node_id" v) then trim (js_String (field "node_id" v)) else "".

(** [a || b] on texts, the empty text standing for null too. *)
Definition or_text (a b : string) : string := if (a =? "")%string then b else a.

Definition matchesFleetToken (bearer expected : string) : bool := (bearer =? expected)%string.

Section WithHash.
Context (sha256 : string → string).

Definition requireNodeCredential (r : request) (now : Z) : eff Db.t auth_result :=
  let bearer := or_member (header_bearer r) "credential" r in
  if (bearer =? "")%string
  then eff_ret (AuthDenied 401 "node credential required (Authorization: Bearer <token>)") else
  result <-! validateCredential sha256 (JStr bearer) now ;
  match result with
  | Denied status error _ => eff_ret (AuthDenied status error)
  | Granted nid _ _ credId _ =>
      let declared := or_text (or_text (declared_in (body r)) (declared_in (params r))) (declared_in (query r)) in
      if negb (declared =? "")%string && negb (declared =? nid)%string
      then eff_ret (AuthDenied 403 "forbidden: credential belongs to another node")
      else eff_ret (AuthNode nid credId)
  end.

(** [token] is [SOVEREIGN_REGISTRATION_TOKEN]; the empty text when unset. *)
Definition checkNodeAuth (token : string) (IS_PRODUCTION allowFleetToken : bool) (r : request) (now : Z) :
    eff Db.t auth_result :=
  let bearer := bearerOf r in
  if startsWith "nnt1_" bearer then
    result <-! validateCredential sha256 (JStr bearer) now ;
    match result with
    | Denied status error _ => eff_ret (AuthDenied status error)
    | Granted nid _ _ credId _ =>
        let declared := or_text (declared_in (body r)) (declared_in (query r)) in
        if negb (declared =? "")%string && negb (declared =? nid)%string
        then eff_ret (AuthDenied 403 "forbidden: credential belongs to another node")
        else eff_ret (AuthNode nid credId)
    end
  else if (token =? "")%string then
    eff_ret (if IS_PRODUCTION then AuthDenied 401 "node credential required (Authorization: Bearer <token>)"
             else AuthLegacy)
  else if (bearer =? "")%string then eff_ret (AuthDenied 401 "node credential required")
  else if negb allowFleetToken || negb (matchesFleetToken bearer token)
  then eff_ret (AuthDenied 401 "node credential required")
  else eff_ret AuthLegacy.

Definition checkEnrolmentToken (token : string) (IS_PRODUCTION : bool) (r : request) : auth_result :=
  let refused := AuthDenied 401 "a pre-auth key or the enrolment token is required" in
  if (token =? "")%string then (if IS_PRODUCTION then refused else AuthLegacy)
  else
    let bearer := bearerOf r in
    if (bearer =? "")%string || negb (matchesFleetToken bearer token) then refused else AuthLegacy.
End WithHash.
End NodeAuth.

Module PreAuthFacts.
Import PreAuth.
Section WithHash.
Context (sha256 : string → string).

(** What an admitted caller has shown. *)
Definition admits (key : PreAuthKey.t) (requestedRole targetOwnerId : option string) (now : Z) : Prop :=
  PreAuthKey.revoked_at key = None ∧
  (∀ e, PreAuthKey.expires_at key = Some e → now ≤ e) ∧
  (PreAuthKey.is_reusable key = true ∨ PreAuthKey.used_count key < use_limit key) ∧
  role_mismatch key requestedRole = false ∧
  (∀ o, some_text targetOwnerId = Some o → PreAuthKey.owner_id key = o).

Lemma consume_ok secret role owner now d key d' :
  validateAndConsumePreAuthKey sha256 secret role owner now d = (Ok (PakOk key), d') →
  ∃ text, secret = JStr text ∧ text ≠ "" ∧
    select1 (λ k, (PreAuthKey.key_hash k =? hashSecret sha256 text)%string) (Db.preauth_keys d) = Some key ∧
    admits key role owner now ∧
    d' = d <| Db.preauth_keys ::= increment (PreAuthKey.id key) |>.
Proof.
  unfold validateAndConsumePreAuthKey. destruct secret as [| | | |text| |]; try discriminate.
  destruct (text =? "")%string eqn:Et; [discriminate|]. intros H. run_inv.
  destruct (select1 _ _) as [k|] eqn:Ek; [|discriminate].
  destruct (PreAuthKey.revoked_at k) eqn:Er; [discriminate|].
  destruct (match PreAuthKey.expires_at k with Some e => e <? now | None => false end) eqn:Ee; [discriminate|].
  destruct (negb _ && _) eqn:Eu; [discriminate|].
  destruct (role_mismatch k role) eqn:Em; [discriminate|].
  destruct (match some_text owner with Some o => _ | None => _ end) eqn:Eo; [discriminate|].
  run_inv. b2p. exists text. split; [done|]. split; [done|]. split; [done|]. split; [|done].
  split; [done|]. split; [intros e He; rewrite He in Ee; b2p; lia|].
  split; [destruct Eu; b2p; [by left|right; lia]|]. split; [done|].
  intros o Ho. rewrite Ho in Eo. by b2p.
Qed.

Lemma consume_denied secret role owner now d st e d' :
  validateAndConsumePreAuthKey sha256 secret role owner now d = (Ok (PakDenied st e), d') → d' = d.
Proof.
  unfold validateAndConsumePreAuthKey, eff_bind, get, eff_ret, modify. intros H.
  repeat case_match; simplify_eq; done.
Qed.

(** *** Histories of the key table *)

Inductive op :=
  | Consume (secret : jsval) (role owner : option string) (now : Z)
  | Create (rnd rnd_id : string) (now : Z) (owner : string) (org role : option string)
      (reusable : bool) (maxUses : jsval) (hours : Z)
  | Revoke (keyId userId : string) (super : bool) (org : option string) (now : Z)
  | Bootstrap (secret admin : string) (now : Z).

(** The store after an operation, and the key it admitted a node with. *)
Definition step (o : op) (d : Db.t) : Db.t * option string :=
  match o with
  | Consume s r w now =>
      match validateAndConsumePreAuthKey sha256 s r w now d with
      | (Ok (PakOk k), d') => (d', Some (PreAuthKey.id k))
      | (_, d') => (d', None)
      end
  | Create rnd rid now w org role re mx h => ((createPreAuthKey sha256 rnd rid now w org role re mx h d).2, None)
  | Revoke k u s org now => ((revokePreAuthKey k u s org now d).2, None)
  | Bootstrap s a now => ((ensureBootstrapKey sha256 s a now d).2, None)
  end.

Fixpoint admissions (ops : list op) (d : Db.t) : list string :=
  match ops with
  | [] => []
  | o :: ops => let '(d', a) := step o d in
                match a with Some k => k :: admissions ops d' | None => admissions ops d' end
  end.

Definition admitted_by (i : string) (ops : list op) (d : Db.t) : Z :=
  Z.of_nat (length (where_ (String.eqb i) (admissions ops d))).

(** The row of key [i] is single-use, allows [l] uses and has seen [c]. *)
Definition tracked (i : string) (l c : Z) (d : Db.t) : Prop :=
  NoDup (PreAuthKey.id <$> Db.preauth_keys d) ∧
  ∃ k, k ∈ Db.preauth_keys d ∧ PreAuthKey.id k = i ∧ PreAuthKey.is_reusable k = false ∧
       use_limit k = l ∧ PreAuthKey.used_count k = c.

Lemma tracked_update i l c d (p : PreAuthKey.t → bool) f :
  (∀ k, PreAuthKey.id (f k) = PreAuthKey.id k) →
  (∀ k, PreAuthKey.is_reusable (f k) = PreAuthKey.is_reusable k) →
  (∀ k, use_limit (f k) = use_limit k) →
  (∀ k, PreAuthKey.id k = i → p k = true → PreAuthKey.used_count (f k) = PreAuthKey.used_count k) →
  tracked i l c d → tracked i l c (d <| Db.preauth_keys ::= update_where p f |>).
Proof.
  intros Hi Hr Hl Hu (Hn & k & Hk & <- & Hre & <- & <-). split.
  - simpl. by rewrite update_where_fmap.
  - exists (if p k then f k else k). split; [apply elem_of_update; eauto|].
    destruct (p k) eqn:E; [|done]. split_and!; auto. congruence.
Qed.

Lemma tracked_insert i l c d row :
  existsb (λ k, (PreAuthKey.id k =? PreAuthKey.id row)%string) (Db.preauth_keys d) = false →
  tracked i l c d → tracked i l c (d <| Db.preauth_keys ::= λ l, l ++ [row] |>).
Proof.
  intros He (Hn & k & Hk & Hrest). split.
  - simpl. rewrite fmap_app. apply NoDup_app. split; [done|]. split; [|apply NoDup_singleton].
    intros x (y & -> & Hy)%list_elem_of_fmap Hx. apply list_elem_of_singleton in Hx.
    rewrite <- not_true_iff_false, existsb_exists in He. apply He. exists y.
    split; [by apply list_elem_of_In|by apply String.eqb_eq].
  - exists k. split; [|done]. simpl. apply elem_of_app. by left.
Qed.

Lemma step_create_tracked rnd rid now w org role re mx h d i l c :
  tracked i l c d → tracked i l c (createPreAuthKey sha256 rnd rid now w org role re mx h d).2.
Proof.
  intros H. unfold createPreAuthKey. destruct (w =? "")%string; [done|].
  cbv zeta. unfold eff_bind at 1, or_db_error. destruct (max_uses_column re mx); [|exact H].
  unfold eff_ret at 1, eff_bind at 1, get. break_if; [|done]. unfold eff_bind, modify, eff_ret.
  apply tracked_insert; [|done]. b2p. match goal with H : existsb _ _ = false |- _ => rename H into He end.
  rewrite <- not_true_iff_false, existsb_exists in He |- *. intros (k & Hk & E). apply He.
  exists k. split; [done|]. simpl in E. by rewrite E.
Qed.

Lemma step_bootstrap_tracked s a now d i l c :
  tracked i l c d → tracked i l c (ensureBootstrapKey sha256 s a now d).2.
Proof.
  intros H. unfold ensureBootstrapKey. break_if; [done|]. unfold eff_bind, get.
  destruct (existsb _ _); [done|]. break_if; [|done]. unfold modify. b2p. by apply tracked_insert.
Qed.

Lemma step_revoke_tracked k u s org now d i l c :
  tracked i l c d → tracked i l c (revokePreAuthKey k u s org now d).2.
Proof. intros H. unfold revokePreAuthKey, eff_bind, get, modify, eff_ret. by apply tracked_update. Qed.

Lemma increment_tracked i l c d :
  tracked i l c d → tracked i l (c + 1) (d <| Db.preauth_keys ::= increment i |>).
Proof.
  intros (Hn & k & Hk & Hi & Hr & Hl & Hc). split.
  - simpl. unfold increment. by rewrite update_where_fmap.
  - exists (k <| PreAuthKey.used_count ::= Z.succ |>). split; [|simpl; split_and!; auto; lia].
    apply elem_of_update. exists k. split; [done|]. by rewrite Hi, String.eqb_refl.
Qed.

(** An admission by the tracked key was below the limit and is counted; any
    other step leaves its row as it was. *)
Lemma step_tracked o d d' a i l c :
  step o d = (d', a) → tracked i l c d →
  (a = Some i ∧ c < l ∧ tracked i l (c + 1) d') ∨ (a ≠ Some i ∧ tracked i l c d').
Proof.
  destruct o as [s r w now|rnd rid now w org role re mx h|k u s org now|s ad now]; unfold step; intros E H.
  2: { simplify_eq. right. split; [done|]. by apply step_create_tracked. }
  2: { simplify_eq. right. split; [done|]. by apply step_revoke_tracked. }
  2: { simplify_eq. right. split; [done|]. by apply step_bootstrap_tracked. }
  destruct (validateAndConsumePreAuthKey _ _ _ _ _ _) as [[[st e|key]|st e] d1] eqn:V; simplify_eq.
  - apply consume_denied in V as ->. by right.
  - apply consume_ok in V as (t & _ & _ & Hs & Had & ->). apply select1_elem in Hs as [_ Hin].
    destruct (decide (PreAuthKey.id key = i)) as [<-|Hne].
    + left. split; [done|]. split; [|by apply increment_tracked].
      destruct H as (Hn & k & Hk & Hi & Hr & <- & <-). assert (k = key) as -> by (by eapply NoDup_fmap_inj).
      destruct Had as (_ & _ & [?|?] & _); [congruence|done].
    + right. split; [congruence|]. apply tracked_update; try done. intros k <- Hp. by b2p.
  - unfold validateAndConsumePreAuthKey, eff_bind, get, eff_ret, modify in V. repeat case_match; simplify_eq.
Qed.

Lemma admitted_by_bound i l ops d c :
  tracked i l c d → admitted_by i ops d ≤ Z.max 0 (l - c).
Proof.
  revert d c. induction ops as [|o ops IH]; intros d c H; [unfold admitted_by; simpl; lia|].
  unfold admitted_by. simpl. destruct (step o d) as [d' a] eqn:E.
  destruct (step_tracked _ _ _ _ _ _ _ E H) as [(-> & Hc & H')|[Ha H']]; specialize (IH _ _ H').
  - rewrite where_cons, String.eqb_refl. simpl. unfold admitted_by in IH. lia.
  - destruct a as [k|]; [|done]. rewrite where_cons.
    destruct (i =? k)%string eqn:Ek; [b2p; congruence|done].
Qed.

Lemma create_ok rnd rid now w org role re mx h d secret row d' :
  createPreAuthKey sha256 rnd rid now w org role re mx h d = (Ok (secret, row), d') →
  secret = SECRET_PREFIX +:+ rnd ∧ d' = d <| Db.preauth_keys ::= λ l, l ++ [row] |> ∧
  max_uses_column re mx = Some (PreAuthKey.max_uses row) ∧
  PreAuthKey.key_hash row = hashSecret sha256 secret ∧ PreAuthKey.is_reusable row = re ∧
  PreAuthKey.used_count row = 0 ∧ PreAuthKey.revoked_at row = None ∧ PreAuthKey.owner_id row = w ∧
  existsb (λ k, (PreAuthKey.id k =? PreAuthKey.id row)%string ||
                (PreAuthKey.key_hash k =? PreAuthKey.key_hash row)%string) (Db.preauth_keys d) = false.
Proof.
  unfold createPreAuthKey. destruct (w =? "")%string; [discriminate|]. cbv zeta.
  unfold eff_bind at 1, or_db_error. destruct (max_uses_column re mx) as [m|]; [|discriminate].
  unfold eff_ret at 1, eff_bind at 1, get. break_if; [|discriminate].
  unfold eff_bind, modify, eff_ret. intros H. injection H as <- <- <-. b2p. by split_and!.
Qed.

Lemma consume_runs text role owner now d key :
  text ≠ "" →
  select1 (λ k, (PreAuthKey.key_hash k =? hashSecret sha256 text)%string) (Db.preauth_keys d) = Some key →
  admits key role owner now →
  validateAndConsumePreAuthKey sha256 (JStr text) role owner now d =
    (Ok (PakOk key), d <| Db.preauth_keys ::= increment (PreAuthKey.id key) |>).
Proof.
  intros Ht Hs (Hr & He & Hu & Hm & Ho). unfold validateAndConsumePreAuthKey.
  apply String.eqb_neq in Ht as ->. unfold eff_bind, get. rewrite Hs, Hr, Hm.
  assert (match PreAuthKey.expires_at key with Some e => e <? now | None => false end = false) as ->.
  { destruct (PreAuthKey.expires_at key) as [e|]; [|done]. apply Z.ltb_ge, He, eq_refl. }
  assert (negb (PreAuthKey.is_reusable key) && (use_limit key <=? PreAuthKey.used_count key) = false) as ->.
  { destruct Hu as [->|Hu]; [done|]. apply andb_false_iff. right. lia. }
  destruct (some_text owner) as [o|]; [|done]. rewrite (Ho o eq_refl), String.eqb_refl. done.
Qed.

Lemma select1_fresh d row :
  existsb (λ k, (PreAuthKey.id k =? PreAuthKey.id row)%string ||
                (PreAuthKey.key_hash k =? PreAuthKey.key_hash row)%string) (Db.preauth_keys d) = false →
  select1 (λ k, (PreAuthKey.key_hash k =? PreAuthKey.key_hash row)%string) (Db.preauth_keys d ++ [row]) = Some row.
Proof.
  intros H. unfold select1. rewrite where_app, where_cons, String.eqb_refl.
  enough (select1 (λ k, (PreAuthKey.key_hash k =? PreAuthKey.key_hash row)%string) (Db.preauth_keys d) = None) as E.
  { unfold select1 in E. by destruct (where_ _ (Db.preauth_keys d)). }
  apply select1_none. intros k Hk. apply not_true_iff_false. intros E. apply not_true_iff_false in H. apply H.
  apply existsb_exists. exists k. split; [by apply list_elem_of_In|]. by rewrite E, orb_true_r.
Qed.

(** C13. A single-use key admits one node.  The secret returned by
    [createPreAuthKey] for a key that is not reusable is accepted by the next
    [validateAndConsumePreAuthKey] that meets its expiry, role and owner
    conditions; and over any later sequence of uses, creations, revocations and
    bootstrap registrations, with whatever secrets and at whatever times, the
    key admits at most one node. *)
Theorem single_use_key_admits_once rnd rid now w org role mx h d secret row d' :
  NoDup (PreAuthKey.id <$> Db.preauth_keys d) →
  createPreAuthKey sha256 rnd rid now w org role false mx h d = (Ok (secret, row), d') →
  (∀ r o now', (∀ e, PreAuthKey.expires_at row = Some e → now' ≤ e) → role_mismatch row r = false →
    (∀ x, some_text o = Some x → x = w) →
    (validateAndConsumePreAuthKey sha256 (JStr secret) r o now' d').1 = Ok (PakOk row)) ∧
  (∀ ops, admitted_by (PreAuthKey.id row) ops d' ≤ 1).
Proof.
  intros Hn H. apply create_ok in H as (-> & -> & Hm & Hh & Hre & Hu & Hv & Ho & Hex).
  assert (use_limit row = 1) as Hl.
  { unfold use_limit. unfold max_uses_column in Hm. simpl in Hm. by injection Hm as <-. }
  split.
  - intros r o now' He Hr Hown. rewrite (consume_runs _ _ _ _ _ row); [done|done| |].
    + rewrite <- Hh. by apply select1_fresh.
    + split; [done|]. split; [done|]. split; [right; lia|]. split; [done|]. intros x Hx. rewrite Ho. by rewrite (Hown x Hx).
  - intros ops. etransitivity; [apply (admitted_by_bound _ 1 _ _ 0)|lia]. split.
    + simpl. rewrite fmap_app. apply NoDup_app. split; [done|]. split; [|apply NoDup_singleton].
      intros x (y & -> & Hy)%list_elem_of_fmap Hx%list_elem_of_singleton.
      apply not_true_iff_false in Hex. apply Hex, existsb_exists. exists y.
      split; [by apply list_elem_of_In|]. by rewrite Hx, String.eqb_refl.
    + exists row. split_and!; try done. simpl. apply elem_of_app. right. left.
Qed.

(** What a use of a pre-auth key requires and changes.  An admission means
    the secret is a non-empty text whose digest a stored key carries, the key is
    neither revoked nor expired, is reusable or below its limit, and matches the
    requested role and the owner of the node where those are given; the key's
    counter rises by one and no other row changes.  A refusal changes nothing. *)
Theorem preauth_use_sound secret role owner now d res d' :
  validateAndConsumePreAuthKey sha256 secret role owner now d = (Ok res, d') →
  match res with
  | PakOk key =>
      ∃ text, secret = JStr text ∧ text ≠ "" ∧ key ∈ Db.preauth_keys d ∧
        PreAuthKey.key_hash key = sha256 (trim text) ∧ admits key role owner now ∧
        d' = d <| Db.preauth_keys ::= update_where (λ k, (PreAuthKey.id k =? PreAuthKey.id key)%string)
                    (λ k, k <| PreAuthKey.used_count ::= Z.succ |>) |>
  | PakDenied status _ => d' = d ∧ (status = 401 ∨ status = 403)
  end.
Proof.
  destruct res as [st e|key]; intros H.
  - split; [by eapply consume_denied|].
    unfold validateAndConsumePreAuthKey, eff_bind, get, eff_ret, modify in H.
    repeat case_match; simplify_eq; auto.
  - apply consume_ok in H as (text & -> & Ht & Hs & Ha & ->). apply select1_elem in Hs as [Hh Hk]. b2p.
    exists text. by split_and!.
Qed.
End WithHash.

(** One tenant, its administrator, no key yet. *)
Definition sample_db : Db.t := Eval vm_compute in
  Db.empty <| Db.organizations := [Org.plain "org-default" "default" "open"] |>
           <| Db.users := [User.mk "usr-1" "ann" "admin" "active" (Some "org-default")] |>.

Definition sample_key (reusable : bool) (maxUses : option Z) : PreAuthKey.t :=
  PreAuthKey.mk "pak_1" "nnk1_ab" "nnk1_ab" "usr-1" (Some "org-default") None reusable 0 maxUses
    (Some (24 * Credentials.HOUR)) None 0.

Lemma single_use_key_admits_once_witness :
  (∃ d', (validateAndConsumePreAuthKey (λ s, s) (JStr "nnk1_ab") None None 5 d').1 =
           Ok (PakOk (sample_key false (Some 1)))) ∧
  (∀ ops, admitted_by (λ s, s) "pak_1" ops
            (sample_db <| Db.preauth_keys := [sample_key false (Some 1)] |>) ≤ 1).
Proof.
  destruct (single_use_key_admits_once (λ s, s) "ab" "1" 0 "usr-1" None None JNull 24 sample_db "nnk1_ab"
    (sample_key false (Some 1)) (sample_db <| Db.preauth_keys := [sample_key false (Some 1)] |>)) as [H1 H2].
  - constructor.
  - vm_compute. reflexivity.
  - split; [|exact H2]. exists (sample_db <| Db.preauth_keys := [sample_key false (Some 1)] |>).
    apply H1; [intros e [= <-]; vm_compute; discriminate|reflexivity|discriminate].
Defined.

Lemma preauth_use_sound_witness :
  ∃ text, JStr " nnk1_ab " = JStr text ∧ "nnk1_ab" = trim text.
Proof.
  destruct (preauth_use_sound (λ s, s) (JStr " nnk1_ab ") None None 5
    (sample_db <| Db.preauth_keys := [sample_key false (Some 1)] |>) (PakOk (sample_key false (Some 1)))
    (sample_db <| Db.preauth_keys := [(sample_key false (Some 1)) <| PreAuthKey.used_count := 1 |>] |>))
    as (text & E & _ & _ & Hh & _); [vm_compute; reflexivity|].
  exists text. split; [exact E|exact Hh].
Defined.

(** A reusable key created with [maxUses = 1] admits any number of nodes: the
    limit is stored, and compared only for keys that are not reusable. *)
Example reusable_key_ignores_max_uses :
  let d := (createPreAuthKey (λ s, s) "ab" "1" 0 "usr-1" None None true (JNum (of_Z 1)) 24 sample_db).2 in
  Db.preauth_keys d = [sample_key true (Some 1)] ∧
  admitted_by (λ s, s) "pak_1" (replicate 3 (Consume (JStr "nnk1_ab") None None 5)) d = 3.
Proof. vm_compute. done. Qed.
End PreAuthFacts.

Module EnrollmentFacts.
Import Enrollment.

Lemma select1_by {A} (f : A → string) l k x :
  select1 (λ y, (f y =? k)%string) l = Some x → x ∈ l ∧ f x = k.
Proof. intros [H ?]%select1_elem. by b2p. Qed.

(** Who may own a node enrolled into a tenant. *)
Definition may_enrol (d : Db.t) (org : string) (consoleActor : bool) (u : User.t) (orgRole : string) : Prop :=
  let membership := membership_of d (User.id u) org in
  User.status u = "active" ∧
  (User.role u = "super-admin" ∧ orgRole = "owner" ∨
   User.role u ≠ "super-admin" ∧ orgRole = text_or (Membership.role <$> membership) (User.role u) ∧
   (text_or (User.organization_id u) "org-default" = org ∨ consoleActor = false ∧ is_Some membership)) ∧
  (consoleActor = true → orgRole ≠ "auditor" ∧ orgRole ≠ "viewer").

(** Enrolment authority.  [authorizeOwner] accepts exactly when the tenant
    exists and is not destroyed and the owner is an active account that is a
    super-admin, or belongs to the tenant (for a key's owner a membership is
    enough, for a console actor it is not), and whose role there, for a console
    actor, is not a read-only one.  Every refusal is a 403. *)
Theorem authorizeOwner_spec ownerId org consoleActor d :
  match authorizeOwner ownerId org consoleActor d with
  | Ok a =>
      User.id (a_user a) = ownerId ∧ a_user a ∈ Db.users d ∧ a_organization_id a = org ∧
      (∃ o, o ∈ Db.organizations d ∧ Org.id o = org ∧ Org.destroyed_at o = None) ∧
      may_enrol d org consoleActor (a_user a) (a_org_role a)
  | Throw status _ =>
      status = Some 403 ∧
      ∀ o u r, select1 (λ o, (Org.id o =? org)%string) (Db.organizations d) = Some o →
        Org.destroyed_at o = None → select1 (λ u, (User.id u =? ownerId)%string) (Db.users d) = Some u →
        ~ may_enrol d org consoleActor u r
  end.
Proof.
  unfold authorizeOwner.
  destruct (select1 (λ o, (Org.id o =? org)%string) _) as [o|] eqn:Eo; [|split; [done|]; congruence].
  destruct (Org.destroyed_at o) eqn:Ed; [split; [done|]; congruence|].
  destruct (select1 (λ u, (User.id u =? ownerId)%string) _) as [u|] eqn:Eu; [|split; [done|]; congruence].
  destruct (select1_by _ _ _ _ Eo) as [Ho Hoid]. destruct (select1_by _ _ _ _ Eu) as [Hu Huid]. subst ownerId.
  destruct (User.status u =? "active")%string eqn:Es; simpl.
  2: { split; [done|]. intros ? ? ? _ _ [= <-] [H _]. b2p. done. }
  unfold may_enrol. destruct (User.role u =? "super-admin")%string eqn:Er; simpl.
  - b2p. rewrite andb_false_r. simpl. split_and!; eauto.
  - destruct (negb (text_or (User.organization_id u) "org-default" =? org)%string) eqn:Ef; b2p.
    + destruct consoleActor, (membership_of d (User.id u) org) as [mm|] eqn:Em; simpl.
      all: try (split; [done|]; intros ? ? ? _ _ [= <-] (_ & [[? _]|(_ & _ & [?|[? Hm]])] & _);
                [done|done| try done; rewrite Em in Hm; by destruct Hm]).
      rewrite Em. split_and!; eauto. right. split_and!; eauto.
    + assert ((if consoleActor then false else false &&
                 negb match membership_of d (User.id u) org with Some _ => true | None => false end)
                = false) as -> by by destruct consoleActor.
      match goal with |- context [consoleActor && ?b] => destruct (consoleActor && b) eqn:Ec end.
      * split; [done|]. intros ? ? r _ _ [= <-] (_ & [[? _]|(_ & -> & _)] & Hro); [done|].
        b2p. destruct (Hro ltac:(done)) as [Ha Hv]. intuition; by b2p.
      * split_and!; simpl; eauto. intros ->. simpl in Ec. by b2p.
Qed.
End EnrollmentFacts.

Module NodeAuthFacts.
Import Credentials NodeAuth.
Section WithHash.
Context (sha256 : string → string).

(** A live credential of node [nid] whose digest is that of [bearer]. *)
Definition live_credential (bearer nid : string) (now : Z) (d : Db.t) : Prop :=
  ∃ c n, c ∈ Db.node_credentials d ∧ n ∈ Db.nodes d ∧ Credential.token_hash c = hashToken sha256 (trim bearer) ∧
    Credential.node_id c = nid ∧ Node.id n = nid ∧ Credential.revoked_at c = None ∧
    now <= Credential.expires_at c ∧ Node.is_quarantined n = false.

Lemma granted_live bearer now d nid role uid cid e d' :
  validateCredential sha256 (JStr bearer) now d = (Ok (Granted nid role uid cid e), d') →
  live_credential bearer nid now d.
Proof.
  intros H. apply validate_granted in H as (t & c & n & [= <-] & Hin & ? & ? & ? & ? & ? & _).
  apply credential_rows_elem in Hin as (? & ? & ? & ?). exists c, n. split_and!; auto; congruence.
Qed.

Lemma declared_matches declared nid :
  negb (declared =? "")%string && negb (declared =? nid)%string = false → declared = "" ∨ declared = nid.
Proof. intros H. b2p. destruct H; b2p; auto. Qed.

(** Node requests speak for the node of their credential.  When
    [checkNodeAuth] attaches a node to a request, the bearer is a live credential
    of that node (stored, not revoked, not expired, the node not quarantined),
    and the identity the body declares, or the query when the body declares
    none, is that node's.  In production a request passes without a node only
    on an endpoint that allows the fleet token, with that token as bearer. *)
Theorem checkNodeAuth_sound token prod allow r now d res d' :
  checkNodeAuth sha256 token prod allow r now d = (Ok res, d') →
  match res with
  | AuthNode nid _ =>
      live_credential (bearerOf r) nid now d ∧
      (declared_in (body r) = nid ∨
       declared_in (body r) = "" ∧ (declared_in (query r) = "" ∨ declared_in (query r) = nid))
  | AuthLegacy =>
      prod = false ∧ token = "" ∨ allow = true ∧ token ≠ "" ∧ bearerOf r = token
  | AuthDenied status _ => status = 401 ∨ status = 403
  end.
Proof.
  unfold checkNodeAuth. destruct (startsWith "nnt1_" (bearerOf r)) eqn:Eb.
  - intros H. apply eff_bind_ok in H as (v & d1 & Hv & H). destruct v as [st e q|nid ro u ci ex].
    + unfold eff_ret in H. simplify_eq. unfold validateCredential, eff_bind, get, eff_ret, modify in Hv.
      repeat case_match; simplify_eq; auto.
    + destruct (negb _ && _) eqn:Ed; unfold eff_ret in H; simplify_eq; [by right|].
      split; [by eapply granted_live|]. apply declared_matches in Ed. unfold or_text in Ed.
      destruct (declared_in (body r) =? "")%string eqn:E; b2p; [by right|]. destruct Ed; auto. done.
  - intros H. destruct (token =? "")%string eqn:Et.
    { destruct prod; unfold eff_ret in H; simplify_eq; b2p; auto. }
    destruct (bearerOf r =? "")%string; [unfold eff_ret in H; simplify_eq; auto|].
    destruct (negb allow || _) eqn:Ea; unfold eff_ret in H; simplify_eq; [auto|].
    right. unfold matchesFleetToken in Ea. b2p. by split_and!.
Qed.
End WithHash.

Definition sample_db : Db.t := Eval vm_compute in Revocation.sample_db.

Lemma checkNodeAuth_sound_witness :
  live_credential (λ s, s) "nnt1_ab" "n1" 50 sample_db.
Proof.
  refine (proj1 (checkNodeAuth_sound (λ s, s) "fleet" true false
    (mk_request (Some "Bearer nnt1_ab") (JObj [("node_id", JStr "n1")]) JUndef (JObj [])) 50 sample_db
    (AuthNode "n1" "nc_1") (touch "nc_1" 50 sample_db) _)).
  vm_compute. reflexivity.
Defined.

(** The comment above the check asks that a [node_id] in the body, the
    parameters or the query match the credential; a matching body hides a
    different query. *)
Example query_identity_unchecked :
  (requireNodeCredential (λ s, s)
     (mk_request (Some "Bearer nnt1_ab") (JObj [("node_id", JStr "n1")]) JUndef (JObj [("node_id", JStr "n2")]))
     50 sample_db).1 = Ok (AuthNode "n1" "nc_1").
Proof. vm_compute. reflexivity. Qed.
End NodeAuthFacts.
