(* ===== verification/Heartbeat.v ===== *)
(** * Posture documents and the heartbeat buffer

    [utils/posture.js] and [services/HeartbeatBuffer.js].  Beats are counted in
    Valkey (a hash per node and the set of nodes with pending work) and moved to
    the [nodes] table by [flush]: claim a batch with SPOP, read the hashes, write
    them in one transaction, delete the hashes.  Beats of other requests
    interleave with those four steps, so the flusher is a step relation.

    A buffered timestamp is an instant in milliseconds ([toISOString] loses
    nothing); the REAL columns hold the number written, unrounded. *)

From S2P Require Import Prelude Js Json Db Acl.

Module Posture.

Definition REQUIRED_CHECKS : list string := ["disk_encrypted"; "firewall_active"].
Definition STATUS_VERIFIED_COMPLIANT : string := "verified_compliant".
Definition STATUS_NON_COMPLIANT : string := "non_compliant".
Definition STATUS_UNVERIFIED : string := "unverified".
Definition MAX_MEASURED_STRING : nat := 128.

Definition measuredString (value : jsval) : jsval :=
  match value with
  | JStr s => let trimmed := trim s in
              if (trimmed =? "")%string then JNull else JStr (take_string MAX_MEASURED_STRING trimmed)
  | _ => JNull
  end.

Definition measuredBoolean (value : jsval) : jsval :=
  match value with JBool b => JBool b | _ => JNull end.

(** What [new Date(text)] gives: the UTC year and the ISO text of the instant, or
    [None] for an invalid date.  The texts a [Date] accepts beyond the ISO format
    are left to the engine by the language. *)
Definition date_reader : Type := string → option (Z * string).

Section WithDates.
Context (new_Date : date_reader).

Definition measuredAt (value : jsval) (receivedAt : string) : jsval :=
  match value with
  | JStr s => match new_Date s with
              | Some (year, iso) => if 1 <? year then JStr iso else JStr receivedAt
              | None => JStr receivedAt
              end
  | _ => JStr receivedAt
  end.

(** [None] is null: the beat carried no attestation. *)
Definition buildPostureDocument (attestation : jsval) (receivedAt : string) : option jsval :=
  match attestation with
  | JObj _ => Some (JObj [
      ("os_name", measuredString (field "os_name" attestation));
      ("os_version", measuredString (field "os_version" attestation));
      ("client_version", measuredString (field "client_version" attestation));
      ("disk_encrypted", measuredBoolean (field "disk_encrypted" attestation));
      ("firewall_active", measuredBoolean (field "firewall_active" attestation));
      ("is_rootless", measuredBoolean (field "is_rootless" attestation));
      ("measured_at", measuredAt (field "timestamp_utc" attestation) receivedAt)])
  | _ => None
  end.
End WithDates.

Fixpoint derive_loop (checks : list string) (posture : jsval) (allKnownAndPassing : bool) : string :=
  match checks with
  | [] => if allKnownAndPassing then STATUS_VERIFIED_COMPLIANT else STATUS_UNVERIFIED
  | check :: rest =>
      match field check posture with
      | JBool false => STATUS_NON_COMPLIANT
      | JBool true => derive_loop rest posture allKnownAndPassing
      | _ => derive_loop rest posture false
      end
  end.

Definition derivePostureStatus (posture : jsval) : string :=
  match posture with
  | JObj _ => derive_loop REQUIRED_CHECKS posture true
  | _ => STATUS_UNVERIFIED
  end.

Definition measured (attestation : jsval) (check : string) (b : bool) : Prop :=
  field check attestation = JBool b.

(** Compliance is measured, never assumed.  For the document built from any
    attestation, the status is [verified_compliant] exactly when the node sent
    real booleans, both true, for disk encryption and firewall; it is
    [non_compliant] exactly when it sent a real [false] for one of them; in every
    other case (absent, null, the text "true", the number 1) it is [unverified].
    A beat without an attestation yields no document. *)
Theorem posture_status_measured new_Date attestation receivedAt :
  match buildPostureDocument new_Date attestation receivedAt with
  | None => ∀ fields, attestation ≠ JObj fields
  | Some doc =>
      let s := derivePostureStatus doc in
      (s = STATUS_VERIFIED_COMPLIANT ↔
         measured attestation "disk_encrypted" true ∧ measured attestation "firewall_active" true) ∧
      (s = STATUS_NON_COMPLIANT ↔
         measured attestation "disk_encrypted" false ∨ measured attestation "firewall_active" false) ∧
      (s = STATUS_VERIFIED_COMPLIANT ∨ s = STATUS_NON_COMPLIANT ∨ s = STATUS_UNVERIFIED)
  end.
Proof.
  unfold measured. destruct attestation as [| | | | | |fs]; simpl; try (intros; discriminate).
  generalize (default JUndef (assoc "disk_encrypted" fs)) (default JUndef (assoc "firewall_active" fs)).
  intros d f. unfold derivePostureStatus. simpl.
  destruct d as [| |[]| | | |]; simpl; destruct f as [| |[]| | | |]; simpl;
    split_and!; intuition (try discriminate; eauto).
Qed.
End Posture.

Module Heartbeat.

Definition ENTRY_TTL_SECONDS : Z := 600.
Definition FLUSH_BATCH : nat := 500.

(** What the handler passes to [record]. *)
Record metrics := mk_metrics {
  txBytes : num; rxBytes : num; cpuPct : option num; memMb : option num;
  batteryPct : option num; rttMs : option num; posture : option jsval;
}.

(** The hash of a node; its text fields are kept as texts, the two counters as
    the integers they denote. *)
Record entry := mk_entry {
  tx_bytes : Z; rx_bytes : Z; cpu_usage_pct : string; memory_usage_pct : string;
  battery_pct : string; latency_ms : string; last_heartbeat : Z; posture_checks : option string;
}.

Record valkey := mk_valkey { hashes : gmap string entry; pending : gset string }.

Definition int64 (z : Z) : bool := (- 2 ^ 63 <=? z) && (z <? 2 ^ 63).

(** [Math.trunc(n || 0)] as the argument of HINCRBY, which refuses what is not a
    64-bit integer. *)
Definition Math_trunc (n : num) : option Z :=
  match n with
  | NaN => Some 0
  | Inf _ => None
  | Fin m e => let z := Z.quot (m * 2 ^ Z.max 0 e) (2 ^ Z.max 0 (- e)) in if int64 z then Some z else None
  end.

(** A refused or overflowing HINCRBY leaves the field; the rest of the MULTI
    runs all the same. *)
Definition hincrby (old : Z) (n : num) : Z :=
  match Math_trunc n with
  | Some z => if int64 (old + z) then old + z else old
  | None => old
  end.

Definition gauge (o : option num) : string := number_to_string (default (of_Z 0) o).

Definition beat (m : metrics) (now : Z) (old : option entry) : entry :=
  mk_entry (hincrby (from_option tx_bytes 0 old) (txBytes m)) (hincrby (from_option rx_bytes 0 old) (rxBytes m))
    (gauge (cpuPct m)) (gauge (memMb m)) (gauge (batteryPct m)) (gauge (rttMs m)) now
    (match p ← posture m; JSON_stringify p with
     | Some t => Some t
     | None => old ≫= posture_checks
     end).

(** The MULTI of [record], atomic. *)
Definition record (nodeId : string) (m : metrics) (now : Z) (v : valkey) : valkey :=
  mk_valkey (<[nodeId := beat m now (hashes v !! nodeId)]> (hashes v)) ({[nodeId]} ∪ pending v).

(** *** Reads *)

Definition readLive (nodeIds : list string) (v : valkey) : gmap string entry :=
  list_to_map (omap (λ id, pair id <$> hashes v !! id) nodeIds).

(** [Number(text)] of a 64-bit integer's decimal text. *)
Definition Number_int (z : Z) : num :=
  if Z.abs z <=? 2 ^ 53 then of_Z z
  else let n := round_ratio (Z.abs z) 1 in if z <? 0 then num_neg n else n.
Definition buffered_bytes (z : Z) : Z := to_Z (Number_int z).

Definition applyLive (row : Node.t) (live : option entry) : Node.t :=
  match live with
  | None => row
  | Some l =>
      row <| Node.tx_bytes ::= λ b, buffered_bytes (buffered_bytes b + buffered_bytes (tx_bytes l)) |>
          <| Node.rx_bytes ::= λ b, buffered_bytes (buffered_bytes b + buffered_bytes (rx_bytes l)) |>
          <| Node.cpu_usage_pct := string_to_number (cpu_usage_pct l) |>
          <| Node.memory_usage_pct := string_to_number (memory_usage_pct l) |>
          <| Node.battery_pct := string_to_number (battery_pct l) |>
          <| Node.latency_ms := string_to_number (latency_ms l) |>
          <| Node.posture_checks ::= λ p, from_option JStr p (posture_checks l) |>
          <| Node.last_heartbeat := Some (last_heartbeat l) |>
  end.

(** *** Flushing *)

(** The document a beat carried, as JSON, if it is an object. *)
Definition bufferedPosture (e : entry) : option string :=
  raw ← posture_checks e;
  if (raw =? "")%string then None else
  match JSON_parse raw with
  | Some (JObj fs) => JSON_stringify (JObj fs)
  | _ => None
  end.

(** [Number(text || 0)]. *)
Definition gauge_value (s : string) : num := if (s =? "")%string then of_Z 0 else string_to_number s.

Definition persist_row (e : entry) (n : Node.t) : Node.t :=
  n <| Node.tx_bytes ::= λ b, b + buffered_bytes (tx_bytes e) |>
    <| Node.rx_bytes ::= λ b, b + buffered_bytes (rx_bytes e) |>
    <| Node.cpu_usage_pct := gauge_value (cpu_usage_pct e) |>
    <| Node.memory_usage_pct := gauge_value (memory_usage_pct e) |>
    <| Node.battery_pct := gauge_value (battery_pct e) |>
    <| Node.latency_ms := gauge_value (latency_ms e) |>
    <| Node.posture_checks ::= λ p, default p (bufferedPosture e ≫= JSON_parse) |>
    <| Node.is_healthy := true |>
    <| Node.last_heartbeat := Some (last_heartbeat e) |>.

(** One UPDATE; a counter that leaves the BIGINT range is an error. *)
Definition persist_one (u : string * entry) (rows : list Node.t) : option (list Node.t) :=
  let rows' := update_where (λ n, (Node.id n =? u.1)%string) (persist_row u.2) rows in
  if forallb (λ n, int64 (Node.tx_bytes n) && int64 (Node.rx_bytes n)) rows' then Some rows' else None.

Fixpoint persist (updates : list (string * entry)) (rows : list Node.t) : option (list Node.t) :=
  match updates with
  | [] => Some rows
  | u :: us => rows' ← persist_one u rows; persist us rows'
  end.

(** The claimed nodes that have a hash. *)
Definition updates_of (ids : list string) (results : gmap string entry) : list (string * entry) :=
  omap (λ id, pair id <$> results !! id) ids.

(** Where the flusher is: between its awaits. *)
Inductive phase :=
  | Idle
  | Claimed (ids : list string)
  | HasRead (ids : list string) (results : gmap string entry)
  | Persisted (ids : list string) (results : gmap string entry).

Record state := mk_state { cache : valkey; nodes : list Node.t; at_ : phase }.

(** SPOP: any [FLUSH_BATCH] members, or all of them. *)
Definition spop_result (ids : list string) (s : gset string) : Prop :=
  NoDup ids ∧ list_to_set ids ⊆ s ∧ length ids = Nat.min FLUSH_BATCH (size s).

Definition claim (ids : list string) (v : valkey) : valkey :=
  mk_valkey (hashes v) (pending v ∖ list_to_set ids).

Definition put_back (ids : list string) (v : valkey) : valkey :=
  mk_valkey (hashes v) (list_to_set ids ∪ pending v).

Definition cleanup (ids : list string) (v : valkey) : valkey :=
  mk_valkey (foldr delete (hashes v) ids) (pending v).

Inductive event :=
  | Beat (nodeId : string) (m : metrics) (now : Z)
  | Expire (nodeId : string)
  | Claim (ids : list string)
  | ReadHashes
  | PersistOk
  | PersistFailed
  | Cleanup.

(** One atomic action of a request, of the cache or of the flusher. *)
Inductive step : state → event → state → Prop :=
  | step_beat id m now v rows p :
      step (mk_state v rows p) (Beat id m now) (mk_state (record id m now v) rows p)
  | step_expire id v rows p :
      step (mk_state v rows p) (Expire id) (mk_state (mk_valkey (delete id (hashes v)) (pending v)) rows p)
  | step_claim ids v rows :
      spop_result ids (pending v) → ids ≠ [] →
      step (mk_state v rows Idle) (Claim ids) (mk_state (claim ids v) rows (Claimed ids))
  | step_read ids v rows :
      step (mk_state v rows (Claimed ids)) ReadHashes (mk_state v rows (HasRead ids (hashes v)))
  | step_persist ids r v rows rows' :
      persist (updates_of ids r) rows = Some rows' →
      step (mk_state v rows (HasRead ids r)) PersistOk (mk_state v rows' (Persisted ids r))
  | step_persist_failed ids r v rows :
      step (mk_state v rows (HasRead ids r)) PersistFailed (mk_state (put_back ids v) rows Idle)
  | step_cleanup ids r v rows :
      step (mk_state v rows (Persisted ids r)) Cleanup (mk_state (cleanup ids v) rows Idle).

Inductive steps : state → list event → state → Prop :=
  | steps_nil s : steps s [] s
  | steps_cons s e s1 es s2 : step s e s1 → steps s1 es s2 → steps s (e :: es) s2.

End Heartbeat.

Module HeartbeatFacts.
Import Heartbeat.

(** The two counters, treated alike. *)
Inductive counter := Tx | Rx.
Definition in_entry (c : counter) (e : entry) : Z := match c with Tx => tx_bytes e | Rx => rx_bytes e end.
Definition in_row (c : counter) (n : Node.t) : Z :=
  match c with Tx => Node.tx_bytes n | Rx => Node.rx_bytes n end.
Definition in_beat (c : counter) (m : metrics) : num := match c with Tx => txBytes m | Rx => rxBytes m end.

Definition buffered (c : counter) (id : string) (h : gmap string entry) : Z := from_option (in_entry c) 0 (h !! id).
Definition stored (c : counter) (id : string) (rows : list Node.t) : Z :=
  from_option (in_row c) 0 (select1 (λ n, (Node.id n =? id)%string) rows).

(** Bytes of [id] that are both in the table and still in the cache. *)
Definition in_flight (c : counter) (id : string) (p : phase) : Z :=
  match p with
  | Persisted ids r => if decide (id ∈ ids) then buffered c id r else 0
  | _ => 0
  end.

(** All the bytes of [id] the system still accounts for. *)
Definition total (c : counter) (id : string) (s : state) : Z :=
  stored c id (nodes s) + buffered c id (hashes (cache s)) - in_flight c id (at_ s).

Definition beat_bytes (c : counter) (m : metrics) : Z := default 0 (Math_trunc (in_beat c m)).

(** Bytes the beats of [id] reported. *)
Fixpoint sent (c : counter) (id : string) (es : list event) : Z :=
  match es with
  | [] => 0
  | Beat i m _ :: es => (if (i =? id)%string then beat_bytes c m else 0) + sent c id es
  | _ :: es => sent c id es
  end.

(** [id] is being flushed: its hash was read and not yet deleted. *)
Definition in_window (id : string) (p : phase) : bool :=
  match p with
  | HasRead ids _ | Persisted ids _ => bool_decide (id ∈ ids)
  | _ => false
  end.

(** No beat of [id] lands between the read and the deletion of its hash, and the
    hash does not expire. *)
Definition undisturbed (id : string) (p : phase) (e : event) : Prop :=
  match e with
  | Beat i _ _ => i = id → in_window id p = false
  | Expire i => i ≠ id
  | _ => True
  end.

Inductive quiet (id : string) : state → list event → state → Prop :=
  | quiet_nil s : quiet id s [] s
  | quiet_cons s e s1 es s2 :
      step s e s1 → undisturbed id (at_ s) e → quiet id s1 es s2 → quiet id s (e :: es) s2.

(** Every report is a non-negative 64-bit count. *)
Definition counts (c : counter) (id : string) (e : event) : Prop :=
  match e with
  | Beat i m _ => i = id → ∃ z, Math_trunc (in_beat c m) = Some z ∧ 0 <= z
  | _ => True
  end.

(** What holds between events: the copy the flusher holds is the hash, the
    row is there, the counter is exact in a double. *)
Record ledger (c : counter) (id : string) (bound : Z) (s : state) : Prop := {
  l_row : ∃ n, n ∈ nodes s ∧ Node.id n = id;
  l_ids : NoDup (Node.id <$> nodes s);
  l_batch : match at_ s with Claimed ids | HasRead ids _ | Persisted ids _ => NoDup ids | Idle => True end;
  l_copy : match at_ s with
           | HasRead ids r | Persisted ids r => id ∈ ids → r !! id = hashes (cache s) !! id
           | _ => True
           end;
  l_buffered : 0 <= buffered c id (hashes (cache s)) <= bound;
}.

Lemma buffered_bytes_exact z : 0 <= z <= 2 ^ 53 → buffered_bytes z = z.
Proof.
  intros H. unfold buffered_bytes, Number_int. rewrite Z.abs_eq by lia.
  destruct (Z.leb_spec z (2 ^ 53)); [apply to_Z_of_Z|lia].
Qed.

Lemma hincrby_exact old n z :
  Math_trunc n = Some z → 0 <= z → 0 <= old → old + z <= 2 ^ 53 → hincrby old n = old + z.
Proof.
  intros E ? ? ?. unfold hincrby. rewrite E. unfold int64.
  destruct (Z.leb_spec (- 2 ^ 63) (old + z)); [|lia]. destruct (Z.ltb_spec (old + z) (2 ^ 63)); [done|lia].
Qed.

Lemma in_entry_beat c m now old :
  in_entry c (beat m now old) = hincrby (from_option (in_entry c) 0 old) (in_beat c m).
Proof. destruct c, old; done. Qed.

Lemma in_row_persist c e n : in_row c (persist_row e n) = in_row c n + buffered_bytes (in_entry c e).
Proof. by destruct c. Qed.

Lemma persist_one_rows u rows rows' :
  persist_one u rows = Some rows' →
  rows' = update_where (λ n, (Node.id n =? u.1)%string) (persist_row u.2) rows.
Proof. unfold persist_one. intros. case_match; by simplify_eq. Qed.

Lemma stored_unique c id rows n :
  NoDup (Node.id <$> rows) → n ∈ rows → Node.id n = id → stored c id rows = in_row c n.
Proof.
  intros Hn Hin <-. unfold stored. erewrite (select1_unique Node.id); eauto; [apply String.eqb_refl|].
  intros y Hy. by b2p.
Qed.

Lemma stored_persist_one c id u rows rows' n :
  NoDup (Node.id <$> rows) → n ∈ rows → Node.id n = id → persist_one u rows = Some rows' →
  NoDup (Node.id <$> rows') ∧ (∃ n', n' ∈ rows' ∧ Node.id n' = id) ∧
  stored c id rows' = stored c id rows + (if decide (u.1 = id) then buffered_bytes (in_entry c u.2) else 0).
Proof.
  intros Hn Hin Hid ->%persist_one_rows.
  assert (NoDup (Node.id <$> update_where (λ n, (Node.id n =? u.1)%string) (persist_row u.2) rows)) as Hn'
    by (by rewrite update_where_fmap).
  set (n' := if (Node.id n =? u.1)%string then persist_row u.2 n else n).
  assert (n' ∈ update_where (λ n, (Node.id n =? u.1)%string) (persist_row u.2) rows) as Hin'
    by (apply elem_of_update; eauto).
  assert (Node.id n' = id) as Hid' by (unfold n'; by case_match).
  split; [done|]. split; [eauto|].
  rewrite (stored_unique c id _ n'), (stored_unique c id _ n) by done. unfold n'.
  destruct (String.eqb_spec (Node.id n) u.1) as [E|E].
  - rewrite decide_True by congruence. apply in_row_persist.
  - rewrite decide_False by congruence. lia.
Qed.

Lemma stored_persist c id ids r rows rows' n :
  NoDup ids → NoDup (Node.id <$> rows) → n ∈ rows → Node.id n = id →
  persist (updates_of ids r) rows = Some rows' →
  NoDup (Node.id <$> rows') ∧ (∃ n', n' ∈ rows' ∧ Node.id n' = id) ∧
  stored c id rows' =
    stored c id rows + (if decide (id ∈ ids) then buffered_bytes (buffered c id r) else 0).
Proof.
  revert rows n. induction ids as [|i ids IH]; intros rows n Hnd Hn Hin Hid Hp.
  { simpl in Hp. simplify_eq. rewrite decide_False by apply not_elem_of_nil. split_and!; eauto. lia. }
  apply NoDup_cons in Hnd as [Hi Hnd]. unfold updates_of in Hp. simpl in Hp.
  destruct (r !! i) as [e|] eqn:Er; simpl in Hp.
  - destruct (persist_one (i, e) rows) as [rows1|] eqn:E1; [|done]. simpl in Hp.
    destruct (stored_persist_one c id _ _ _ _ Hn Hin Hid E1) as (Hn1 & (n1 & Hin1 & Hid1) & Hs1). simpl in Hs1.
    destruct (IH rows1 n1 Hnd Hn1 Hin1 Hid1 Hp) as (? & ? & Hs). split; [done|]. split; [done|].
    rewrite Hs, Hs1. destruct (decide (i = id)) as [->|Hne].
    + rewrite (decide_False (P := id ∈ ids)), decide_True by (done || left).
      unfold buffered. rewrite Er. simpl. lia.
    + destruct (decide (id ∈ ids)).
      * rewrite decide_True by (by right). lia.
      * rewrite decide_False by (rewrite elem_of_cons; intros [?|?]; congruence). lia.
  - destruct (IH rows n Hnd Hn Hin Hid Hp) as (? & ? & Hs). split; [done|]. split; [done|]. rewrite Hs.
    destruct (decide (i = id)) as [->|Hne].
    + rewrite (decide_False (P := id ∈ ids)), decide_True by (done || left).
      unfold buffered. rewrite Er. simpl. rewrite buffered_bytes_exact; lia.
    + destruct (decide (id ∈ ids)).
      * rewrite decide_True by (by right). lia.
      * rewrite decide_False by (rewrite elem_of_cons; intros [?|?]; congruence). lia.
Qed.

Lemma lookup_cleanup id ids (h : gmap string entry) :
  foldr delete h ids !! id = if decide (id ∈ ids) then None else h !! id.
Proof.
  induction ids as [|i ids IH]; [done|].
  change (foldr delete h (i :: ids)) with (delete i (foldr delete h ids)).
  destruct (decide (i = id)) as [->|Hne].
  - rewrite lookup_delete_eq, decide_True by left. done.
  - rewrite lookup_delete_ne, IH by done.
    destruct (decide (id ∈ ids)); [rewrite decide_True by (by right)|
      rewrite decide_False by (rewrite elem_of_cons; intros [?|?]; congruence)]; done.
Qed.

Lemma lookup_beat_ne i id m now v : i ≠ id → hashes (record i m now v) !! id = hashes v !! id.
Proof. intros. simpl. by rewrite lookup_insert_ne. Qed.

Lemma buffered_lookup c id (h h' : gmap string entry) : h !! id = h' !! id → buffered c id h = buffered c id h'.
Proof. unfold buffered. by intros ->. Qed.

(** A beat of another node. *)
Lemma ledger_frame c id b v v' rows p :
  hashes v' !! id = hashes v !! id → ledger c id b (mk_state v rows p) →
  ledger c id b (mk_state v' rows p) ∧
  total c id (mk_state v' rows p) = total c id (mk_state v rows p).
Proof.
  intros E [Hr Hi Hb Hc Hu]. unfold total. simpl in *. rewrite (buffered_lookup c id _ _ E).
  split; [|done]. split; simpl; auto; [destruct p; rewrite ?E; done|by rewrite (buffered_lookup c id _ _ E)].
Qed.

Lemma ledger_beat c id b v rows p m now z :
  Math_trunc (in_beat c m) = Some z → 0 <= z → b + z <= 2 ^ 53 → in_window id p = false →
  ledger c id b (mk_state v rows p) →
  ledger c id (b + z) (mk_state (record id m now v) rows p) ∧
  total c id (mk_state (record id m now v) rows p) = total c id (mk_state v rows p) + z.
Proof.
  intros Ez Hz Hb Hw [Hr Hi Hba Hc Hu]. simpl in *.
  assert (buffered c id (hashes (record id m now v)) = buffered c id (hashes v) + z) as E.
  { unfold buffered at 1. simpl. rewrite lookup_insert_eq. simpl. rewrite in_entry_beat.
    apply hincrby_exact; try done; fold (buffered c id (hashes v)); lia. }
  unfold total. simpl in E |- *. rewrite E. split; [|lia]. split; simpl; auto; [|rewrite E; lia].
  destruct p; simpl in Hw; try done; apply bool_decide_eq_false in Hw; done.
Qed.

Lemma ledger_persist c id b v rows rows' ids r :
  b <= 2 ^ 53 → persist (updates_of ids r) rows = Some rows' →
  ledger c id b (mk_state v rows (HasRead ids r)) →
  ledger c id b (mk_state v rows' (Persisted ids r)) ∧
  total c id (mk_state v rows' (Persisted ids r)) = total c id (mk_state v rows (HasRead ids r)).
Proof.
  intros Hb Hp [(n & Hin & Hid) Hi Hba Hc Hu]. simpl in *.
  destruct (stored_persist c id _ _ _ _ _ Hba Hi Hin Hid Hp) as (Hn' & Hr' & Hs).
  split; [by split|]. unfold total, in_flight. simpl. rewrite Hs.
  destruct (decide (id ∈ ids)) as [Hd|]; [|lia]. rewrite (buffered_lookup c id r _ (Hc Hd)) at 1.
  rewrite buffered_bytes_exact by lia. rewrite (buffered_lookup c id r _ (Hc Hd)). lia.
Qed.

Lemma ledger_cleanup c id b v rows ids r :
  ledger c id b (mk_state v rows (Persisted ids r)) →
  ledger c id b (mk_state (cleanup ids v) rows Idle) ∧
  total c id (mk_state (cleanup ids v) rows Idle) = total c id (mk_state v rows (Persisted ids r)).
Proof.
  intros [Hr Hi Hba Hc Hu]. simpl in *.
  assert (buffered c id (foldr delete (hashes v) ids) =
          if decide (id ∈ ids) then 0 else buffered c id (hashes v)) as E
    by (unfold buffered; rewrite lookup_cleanup; by destruct (decide (id ∈ ids))).
  split; [split; simpl; auto; rewrite E; destruct (decide (id ∈ ids)); lia|].
  unfold total, in_flight. simpl. rewrite E. destruct (decide (id ∈ ids)) as [Hd|]; [|lia].
  rewrite (buffered_lookup c id r _ (Hc Hd)). lia.
Qed.

Lemma step_ledger c id b s e s1 :
  step s e s1 → undisturbed id (at_ s) e → counts c id e → 0 <= sent c id [e] → b + sent c id [e] <= 2 ^ 53 →
  ledger c id b s → ledger c id (b + sent c id [e]) s1 ∧ total c id s1 = total c id s + sent c id [e].
Proof.
  intros Hs Hun Hco H0 Hb L. destruct Hs as [i m now v rows p|i v rows p|ids v rows Hsp _|ids v rows|
    ids r v rows rows' Hp|ids r v rows|ids r v rows]; simpl in *; rewrite ?Z.add_0_r in *.
  - destruct (String.eqb_spec i id) as [->|Hne].
    + destruct (Hco eq_refl) as (z & Ez & Hz). unfold beat_bytes in *. rewrite Ez in *. simpl in *.
      apply ledger_beat; auto.
    + rewrite !Z.add_0_r. apply ledger_frame; [by apply lookup_beat_ne|done].
  - apply ledger_frame; [|done]. simpl. by apply lookup_delete_ne.
  - destruct Hsp as [Hnd _]. destruct L as [? ? _ _ ?]. by split; [split|].
  - destruct L as [? ? ? _ ?]. by split; [split|].
  - by apply ledger_persist.
  - destruct L as [? ? _ _ ?]. by split; [split|].
  - by apply ledger_cleanup.
Qed.

Lemma sent_cons c id e es : sent c id (e :: es) = sent c id [e] + sent c id es.
Proof. destruct e; simpl; lia. Qed.

Lemma sent_nonneg c id es : Forall (counts c id) es → 0 <= sent c id es.
Proof.
  induction 1 as [|e es He _ IH]; [done|]. rewrite sent_cons. enough (0 <= sent c id [e]) by lia.
  destruct e; simpl in *; try lia. destruct (String.eqb_spec nodeId id) as [E|]; [|lia].
  destruct (He E) as (z & Ez & ?). unfold beat_bytes. rewrite Ez. simpl. lia.
Qed.

Lemma quiet_ledger c id s es s' b :
  quiet id s es s' → Forall (counts c id) es → b + sent c id es <= 2 ^ 53 → ledger c id b s →
  ledger c id (b + sent c id es) s' ∧ total c id s' = total c id s + sent c id es.
Proof.
  intros Hq. revert b. induction Hq as [s|s e s1 es s2 Hs Hun _ IH]; intros b Hc Hb L.
  - simpl. rewrite !Z.add_0_r. done.
  - apply Forall_cons in Hc as [He Hc]. rewrite sent_cons in *.
    pose proof (sent_nonneg c id es Hc). assert (0 <= sent c id [e]) by (apply sent_nonneg; by constructor).
    destruct (step_ledger c id b s e s1) as [L1 T1]; auto; [lia|].
    destruct (IH (b + sent c id [e])) as [L2 T2]; auto; [lia|].
    rewrite Z.add_assoc. split; [done|lia].
Qed.

(** C25. Heartbeat bytes are conserved.  Start with the flusher idle, and follow
    any interleaving of beats (of any nodes), batch claims, reads, database
    writes that succeed or fail, and deletions.  As long as no beat of the node
    arrives between the read and the deletion of its hash and the hash does not
    expire, then whenever the flusher is idle again the node's stored and buffered
    bytes add up to what they were plus all the bytes its beats reported: failed
    writes lose nothing and no beat is counted twice. *)
Theorem heartbeat_bytes_conserved c id v rows es v' rows' :
  quiet id (mk_state v rows Idle) es (mk_state v' rows' Idle) →
  NoDup (Node.id <$> rows) → (∃ n, n ∈ rows ∧ Node.id n = id) → Forall (counts c id) es →
  0 <= buffered c id (hashes v) → buffered c id (hashes v) + sent c id es <= 2 ^ 53 →
  stored c id rows' + buffered c id (hashes v') =
    stored c id rows + buffered c id (hashes v) + sent c id es.
Proof.
  intros Hq Hn Hr Hc H0 Hb.
  destruct (quiet_ledger c id _ _ _ (buffered c id (hashes v)) Hq Hc Hb) as [_ T].
  - split; simpl; auto. lia.
  - unfold total in T. simpl in T. lia.
Qed.

(** *** Concrete runs *)

Definition sample_rows : list Node.t := Eval vm_compute in Db.nodes AclSample.db.
Definition sample_beat (bytes : Z) : metrics :=
  mk_metrics (of_Z bytes) (of_Z 0) None None None None None.
Definition empty_valkey : valkey := mk_valkey ∅ ∅.

(** The cache and the table after one beat of 100 bytes is flushed. *)
Definition beat100 : entry := Eval vm_compute in beat (sample_beat 100) 7 None.
Definition rows100 : list Node.t := Eval vm_compute in default [] (persist [("n1", beat100)] sample_rows).
Definition cached100 : valkey := mk_valkey {["n1" := beat100]} {["n1"]}.
Definition claimed100 : valkey := mk_valkey {["n1" := beat100]} ∅.

Lemma record100 : record "n1" (sample_beat 100) 7 empty_valkey = cached100.
Proof. vm_compute. reflexivity. Qed.

Lemma claim100 : claim ["n1"] cached100 = claimed100.
Proof. vm_compute. reflexivity. Qed.

Lemma spop100 : spop_result ["n1"] (pending cached100).
Proof.
  split; [apply NoDup_singleton|]. split; [|by vm_compute].
  unfold pending, cached100. set_solver.
Qed.

Lemma persist100 : persist (updates_of ["n1"] {["n1" := beat100]}) sample_rows = Some rows100.
Proof. vm_compute. reflexivity. Qed.

(** A beat, a flush whose write fails, and a flush that succeeds. *)
Lemma sample_quiet :
  quiet "n1" (mk_state empty_valkey sample_rows Idle)
    [Beat "n1" (sample_beat 100) 7; Claim ["n1"]; ReadHashes; PersistFailed;
     Claim ["n1"]; ReadHashes; PersistOk; Cleanup]
    (mk_state (mk_valkey ∅ ∅) rows100 Idle).
Proof.
  econstructor; [apply step_beat|by intros|rewrite record100].
  econstructor; [by apply step_claim; [apply spop100|]|done|rewrite claim100].
  econstructor; [apply step_read|done|]. econstructor; [apply step_persist_failed|done|].
  assert (put_back ["n1"] claimed100 = cached100) as -> by (vm_compute; reflexivity).
  econstructor; [by apply step_claim; [apply spop100|]|done|rewrite claim100].
  econstructor; [apply step_read|done|]. econstructor; [apply step_persist, persist100|done|].
  econstructor; [apply step_cleanup|done|].
  assert (cleanup ["n1"] claimed100 = mk_valkey ∅ ∅) as -> by (vm_compute; reflexivity). constructor.
Qed.

Lemma heartbeat_bytes_conserved_witness :
  stored Tx "n1" rows100 + buffered Tx "n1" ∅ = stored Tx "n1" sample_rows + buffered Tx "n1" ∅ + 100.
Proof.
  apply (heartbeat_bytes_conserved Tx "n1" empty_valkey sample_rows _ (mk_valkey ∅ ∅) rows100 sample_quiet).
  - apply (bool_decide_unpack _). vm_compute. exact I.
  - eexists. split; [apply list_elem_of_further, list_elem_of_here|by vm_compute].
  - repeat constructor; intros _; exists 100; by vm_compute.
  - by vm_compute.
  - by vm_compute.
Defined.

(** The comment over [flush] says the order of its steps keeps a beat that
    arrives between the read and the delete.  It does not: a beat of 7 bytes
    that lands there is deleted with the hash. *)
Example beat_during_flush_is_lost : ∃ v,
  steps (mk_state empty_valkey sample_rows Idle)
    [Beat "n1" (sample_beat 100) 7; Claim ["n1"]; ReadHashes; PersistOk; Beat "n1" (sample_beat 7) 8; Cleanup]
    (mk_state v rows100 Idle) ∧
  stored Tx "n1" rows100 + buffered Tx "n1" (hashes v) = stored Tx "n1" sample_rows + 100.
Proof.
  eexists. split.
  - econstructor; [apply step_beat|rewrite record100].
    econstructor; [by apply step_claim; [apply spop100|]|rewrite claim100].
    econstructor; [apply step_read|]. econstructor; [apply step_persist, persist100|].
    econstructor; [apply step_beat|]. econstructor; [apply step_cleanup|]. constructor.
  - vm_compute. reflexivity.
Qed.
End HeartbeatFacts.
