(* ===== verification/AuditChain.v ===== *)
(** * The tamper-evident audit ledger

    [services/AuditChainService.js] and [utils/audit.js].  HMAC-SHA256, Ed25519
    and PostgreSQL's JSONB type are parameters: [hmac secret text] is the
    hexadecimal MAC, [to_jsonb] is the cast of a text to JSONB and [decode] is
    what the driver gives JavaScript for a JSONB value.  A TIMESTAMPTZ column is
    represented by its UTC text with six decimals, which is what verification
    reads.  The texts of the verification messages are not kept. *)

From S2P Require Import Prelude Order Js Json Db.

Module Audit.

Record crypto := mk_crypto {
  hmac : string → string → string;
  ed_sign : string → string;
  ed_verify : string → string → string → bool;
  public_key : string;
}.

(** What [config/env.js] and the environment give the service. *)
Record settings := mk_settings {
  AUDIT_HMAC_SECRET : string; JWT_SECRET : string;
  env_accept_legacy : option string; env_accept_legacy_canonical : option string;
}.

Definition GENESIS_HASH : string := String.concat "" (replicate 64 "0").

Definition text_or (o : option string) (d : string) : string :=
  match o with Some s => if (s =? "")%string then d else s | None => d end.

Definition acceptLegacy (cfg : settings) : bool :=
  negb (toLowerCase (text_or (env_accept_legacy cfg) "true") =? "false")%string.
Definition acceptLegacyCanonical (cfg : settings) : bool :=
  negb (toLowerCase (text_or (env_accept_legacy_canonical cfg) "true") =? "false")%string.

Definition keyIdFor (cr : crypto) (secret : string) : string :=
  take_string 16 (hmac cr secret "neronet-audit-hmac-key-id-v1").

(** ** Canonical texts *)

(** JSON with object keys sorted at every depth. *)
Fixpoint canonicalJson (value : jsval) : string :=
  match value with
  | JArr l => "[" +:+ join "," ((λ x, match x with JUndef => "" | _ => canonicalJson x end) <$> l) +:+ "]"
  | JObj l =>
      "{" +:+ join "," ((λ '(k, t), quote k +:+ ":" +:+ t) <$>
                js_sort (cmp_on fst c_collate) ((λ '(k, x), (k, canonicalJson x)) <$> l)) +:+ "}"
  | _ => default "undefined" (JSON_stringify value)
  end.

Definition metadataObject (value : jsval) : outcome jsval :=
  match value with
  | JStr s => Ok (default value (JSON_parse s))
  | _ => match JSON_stringify (js_or value (JObj [])) ≫= JSON_parse with
         | Some v => Ok v
         | None => Throw None "SyntaxError"
         end
  end.

(** [JSON.stringify(v, keys)]: only the named members, in the order of [keys],
    at every depth. *)
Fixpoint stringify_keys (keys : list string) (v : jsval) : option string :=
  match v with
  | JArr l => Some ("[" +:+ join "," ((λ x, default "null" (stringify_keys keys x)) <$> l) +:+ "]")
  | JObj l =>
      let texts := omap (λ '(k, x), (λ t, (k, t)) <$> stringify_keys keys x) l in
      Some ("{" +:+ join "," (omap (λ k, (λ t, quote k +:+ ":" +:+ t) <$> assoc k texts) keys) +:+ "}")
  | _ => JSON_stringify v
  end.

Definition object_keys (v : jsval) : list string :=
  match v with
  | JObj l => l.*1
  | JArr l => (λ i, pretty (Z.of_nat i)) <$> seq 0 (length l)
  | _ => []
  end.

Section Ledger.
Context {J : Type} `{!EqDecision J}.

Record event := mk_event {
  id : Z; sequence_num : option Z; prev_hash : option string; entry_hash : option string;
  event_type : string; severity : string; actor_user_id : option string;
  actor_username : option string; target_id : option string; target_type : option string;
  message : string; ip_address : option string; user_agent : option string;
  metadata_json : J; created_at : string; hmac_key_id : option string;
  canonical_version : Z; canonical_metadata_json : option string;
}.

Record checkpoint := mk_checkpoint {
  last_event_id : Z; last_sequence_num : Z; checkpoint_hash : string;
  signature : string; cp_public_key : string;
}.

Record ledger := mk_ledger { events : list event; checkpoints : list checkpoint; id_seq : Z }.

Context (to_jsonb : string → option J) (decode : J → jsval) (cr : crypto).

(** [String(v)] of a nullable column. *)
Definition String_null (o : option string) : string := match o with Some s => s | None => "null" end.
Definition String_int (o : option Z) : string := match o with Some z => pretty z | None => "null" end.
Definition nullable (o : option string) : jsval := match o with Some s => JStr s | None => JNull end.

(** A nullable text is falsy when null or empty. *)
Definition falsy (o : option string) : bool :=
  match o with Some s => (s =? "")%string | None => true end.

(** [new Date(...).toISOString()] of a column: milliseconds. *)
Definition iso_ms (t : string) : string := take_string 23 t +:+ "Z".
(** [.replace(/\.(\d{3})Z$/, '.$1000Z')] of an ISO text. *)
Definition iso_us (t : string) : string := take_string 23 t +:+ "000Z".

Definition v2_fields (e : event) (metadata : string) : list jsval :=
  [JStr "neronet.audit.event"; JNum (of_Z 2); JStr (pretty (id e)); JStr (String_int (sequence_num e));
   JStr (String_null (prev_hash e)); JStr (event_type e); JStr (severity e);
   nullable (actor_user_id e); nullable (actor_username e); nullable (target_id e); nullable (target_type e);
   JStr (message e); nullable (ip_address e); nullable (user_agent e); JStr (created_at e); JStr metadata;
   JStr (String_null (hmac_key_id e))].

Definition legacy_metadata (v : jsval) : string :=
  match v with
  | JStr s => s
  | _ => let o := js_or v (JObj []) in
         default "undefined" (stringify_keys (js_sort c_collate (object_keys o)) o)
  end.

Definition v1_fields (e : event) (metadataStr : string) : list string :=
  [String_int (sequence_num e); String_null (prev_hash e); event_type e; severity e;
   default "" (actor_user_id e); default "" (actor_username e); default "" (target_id e);
   default "" (target_type e); message e; default "" (ip_address e); iso_ms (created_at e); metadataStr]
  ++ (if falsy (hmac_key_id e) then [] else [String_null (hmac_key_id e)]).

Definition canonicalizeEvent (e : event) : outcome string :=
  if canonical_version e =? 2 then
    if falsy (hmac_key_id e)
    then Throw None "Canonical audit v2 requires a stored identifier and HMAC key identity" else
    match canonical_metadata_json e with
    | None => Throw None "Canonical audit v2 requires its authenticated metadata text"
    | Some metadata => Ok (canonicalJson (JArr (v2_fields e metadata)))
    end
  else if canonical_version e =? 1 then
    if falsy (hmac_key_id e) then Ok (join "|" (v1_fields e (legacy_metadata (decode (metadata_json e)))))
    else match metadataObject (decode (metadata_json e)) with
         | Ok v => Ok (join "|" (v1_fields e (canonicalJson v)))
         | Throw st m => Throw st m
         end
  else Throw None "Unsupported audit canonical version".

Definition computeEventHash (e : event) (secret : string) : outcome string :=
  match canonicalizeEvent e with
  | Ok canonical => Ok (hmac cr secret canonical)
  | Throw st m => Throw st m
  end.

(** ** Appending *)

(** The rows of the chain, [ORDER BY sequence_num ASC]. *)
Definition seq_of (e : event) : Z := default 0 (sequence_num e).
Definition chained (l : ledger) : list event :=
  js_sort (cmp_on seq_of cmp_Z) (where_ (λ e, match sequence_num e with Some _ => true | None => false end) (events l)).

(** [ORDER BY sequence_num DESC LIMIT 1]. *)
Definition head_event (l : ledger) : option event := last (chained l).

Record new_event := mk_new_event {
  n_eventType : string; n_severity : string; n_actorUserId : option string;
  n_actorUsername : option string; n_targetId : option string; n_targetType : option string;
  n_message : string; n_ipAddress : option string; n_userAgent : option string; n_metadata : jsval;
}.

Definition VALID_SEVERITIES : list string := ["info"; "warn"; "error"; "critical"].

(** The CHECK and VARCHAR(n) constraints of the table. *)
Definition fits (n : Z) (o : option string) : bool := match o with Some s => len s <=? n | None => true end.
Definition insertable (e : event) : bool :=
  bool_decide (severity e ∈ VALID_SEVERITIES) && (len (event_type e) <=? 64) &&
  fits 64 (actor_user_id e) && fits 64 (actor_username e) && fits 64 (target_id e) &&
  fits 64 (target_type e) && fits 45 (ip_address e).

Definition event_record (cfg : settings) (n : new_event) (now : string) (eid seq : Z) (prev : string)
    (metadata : string) (stored : J) : event :=
  mk_event eid (Some seq) (Some prev) None (n_eventType n) (n_severity n) (n_actorUserId n)
    (n_actorUsername n) (n_targetId n) (n_targetType n) (n_message n) (n_ipAddress n) (n_userAgent n)
    stored (iso_us now) (Some (keyIdFor cr (AUDIT_HMAC_SECRET cfg))) 2 (Some metadata).

Definition with_hash (e : event) (h : string) : event :=
  mk_event (id e) (sequence_num e) (prev_hash e) (Some h) (event_type e) (severity e) (actor_user_id e)
    (actor_username e) (target_id e) (target_type e) (message e) (ip_address e) (user_agent e)
    (metadata_json e) (created_at e) (hmac_key_id e) (canonical_version e) (canonical_metadata_json e).

(** [now] is [new Date().toISOString()].  The identifier is drawn from a
    sequence, which a rollback does not return.  A metadata value that
    JSONB refuses fails the INSERT. *)
Definition appendEvent (cfg : settings) (n : new_event) (now : string) : eff ledger event :=
  l <-! get ;
  let '(nextSeq, prevHash) :=
    match head_event l with
    | Some e => (seq_of e + 1, text_or (entry_hash e) GENESIS_HASH)
    | None => (1, GENESIS_HASH)
    end in
  let eid := id_seq l + 1 in
  put (mk_ledger (events l) (checkpoints l) eid) ;!
  match metadataObject (n_metadata n) with
  | Throw st m => throw st m
  | Ok v =>
      let metadata := canonicalJson v in
      stored <-! or_db_error (to_jsonb metadata) ;
      let record := event_record cfg n now eid nextSeq prevHash metadata stored in
      match computeEventHash record (AUDIT_HMAC_SECRET cfg) with
      | Throw st m => throw st m
      | Ok entryHash =>
          let row := with_hash record entryHash in
          if insertable row && negb (existsb (λ e, (id e =? eid) || bool_decide (sequence_num e = Some nextSeq)) (events l))
          then put (mk_ledger (events l ++ [row]) (checkpoints l) eid) ;! eff_ret row
          else db_error
      end
  end.

(** ** Verifying *)

Inductive report :=
  | Broken (broken_at_sequence : Z) (broken_event_id : option Z) (reason : string)
  | Valid (events_count : Z) (last_sequence : Z) (head_hash : option string)
      (legacy_events legacy_canonical_events canonical_v2_events : Z) (integrity_profile : string)
      (checkpoints_verified checkpoints_unverifiable : Z).

(** The variables of the loop over the rows. *)
Record scan := mk_scan {
  expectedPrevHash : option string; expectedSeq : Z; seenCurrent : bool; seenV2 : bool;
  legacyEvents : Z; legacyCanonicalEvents : Z; canonicalV2Events : Z;
  authenticatedMetadata : list (Z * Z * string);
}.

(** What a row's version allows, before its key is looked at. *)
Definition check_version (cfg : settings) (row : event) : option string :=
  let version := canonical_version row in
  if negb ((version =? 1) || (version =? 2)) then Some "UNKNOWN_CANONICAL_VERSION"
  else if version =? 1 then
    (if negb (acceptLegacyCanonical cfg) then Some "LEGACY_CANONICAL_FORMAT" else None)
  else if falsy (hmac_key_id row) then Some "UNKNOWN_KEY"
  else match canonical_metadata_json row with None => Some "HASH_TAMPERED" | Some _ => None end.

(** The key that must have hashed a row, or why there is none. *)
Definition row_key (cfg : settings) (secret : string) (legacyAllowed seenCurrent : bool) (row : event) :
    string + string :=
  if falsy (hmac_key_id row) then
    if negb legacyAllowed || seenCurrent || (JWT_SECRET cfg =? "")%string
    then inl "LEGACY_KEY" else inr (JWT_SECRET cfg)
  else if bool_decide (hmac_key_id row = Some (keyIdFor cr secret)) then inr secret
  else inl "UNKNOWN_KEY".

(** One turn of the loop: a verdict, or the variables for the next row. *)
Definition check_row (cfg : settings) (secret : string) (legacyAllowed : bool) (v : scan) (row : event) :
    outcome (report + scan) :=
  let seq := seq_of row in
  let is_v2 := canonical_version row =? 2 in
  let seenV2' := seenV2 v || is_v2 in
  let fail reason := Ok (inl (Broken seq (Some (id row)) reason)) in
  if negb (seq =? expectedSeq v) then Ok (inl (Broken (expectedSeq v) (Some (id row)) "GAP_IN_SEQUENCE"))
  else if negb (bool_decide (prev_hash row = expectedPrevHash v)) then fail "PREV_HASH_MISMATCH"
  else match check_version cfg row with
  | Some reason => fail reason
  | None =>
      match row_key cfg secret legacyAllowed (seenCurrent v) row with
      | inl reason => fail reason
      | inr key =>
          if negb is_v2 && seenV2' then fail "CANONICAL_DOWNGRADE" else
          match computeEventHash row key with
          | Throw st m => Throw st m
          | Ok computed =>
              if negb (bool_decide (entry_hash row = Some computed)) then fail "HASH_TAMPERED" else
              Ok (inr (mk_scan (entry_hash row) (expectedSeq v + 1)
                         (seenCurrent v || negb (falsy (hmac_key_id row))) seenV2'
                         (legacyEvents v + (if falsy (hmac_key_id row) then 1 else 0))
                         (legacyCanonicalEvents v + (if is_v2 then 0 else 1))
                         (canonicalV2Events v + (if is_v2 then 1 else 0))
                         (authenticatedMetadata v ++
                            (if is_v2 then [(id row, seq, default "" (canonical_metadata_json row))] else []))))
          end
      end
  end.

Fixpoint check_rows (cfg : settings) (secret : string) (legacyAllowed : bool) (v : scan) (rows : list event) :
    outcome (report + scan) :=
  match rows with
  | [] => Ok (inr v)
  | row :: rest =>
      match check_row cfg secret legacyAllowed v row with
      | Ok (inr v') => check_rows cfg secret legacyAllowed v' rest
      | stop => stop
      end
  end.

(** [metadata_json IS NOT DISTINCT FROM text::jsonb] of the row with this id;
    a text JSONB refuses fails the query of its whole batch. *)
Definition metadata_matches (l : ledger) (a : Z * Z * string) : option bool :=
  let '(eid, _, text) := a in
  j ← to_jsonb text;
  Some (match select1 (λ e, id e =? eid) (events l) with
        | Some e => bool_decide (metadata_json e = j)
        | None => false
        end).

Definition METADATA_BATCH : nat := 1000.

Definition check_batch (l : ledger) (batch : list (Z * Z * string)) : outcome (option report) :=
  if existsb (λ a, match metadata_matches l a with None => true | Some _ => false end) batch
  then Throw None "database error"
  else Ok (match select1 (λ a, negb (default false (metadata_matches l a))) batch with
           | Some (eid, seq, _) => Some (Broken seq (Some eid) "HASH_TAMPERED")
           | None => None
           end).

(** [fuel] bounds the number of batches; the length of the list is enough. *)
Fixpoint check_metadata (fuel : nat) (l : ledger) (rest : list (Z * Z * string)) : outcome (option report) :=
  match fuel, rest with
  | S fuel', _ :: _ =>
      match check_batch l (firstn METADATA_BATCH rest) with
      | Ok None => check_metadata fuel' l (skipn METADATA_BATCH rest)
      | stop => stop
      end
  | _, _ => Ok None
  end.

Definition signed_text (event_id seq : Z) (hash : string) : string :=
  pretty event_id +:+ "|" +:+ pretty seq +:+ "|" +:+ hash.

Definition verifyCheckpoint (cp : checkpoint) (publicKeyPem : option string) : bool :=
  ed_verify cr (signed_text (last_event_id cp) (last_sequence_num cp) (checkpoint_hash cp))
    (default (public_key cr) publicKeyPem) (signature cp).

(** The signed checkpoints of the range, in order: a verdict, or how many were
    verified and how many could not be. *)
Fixpoint check_checkpoints (rows : list event) (lastSeq : Z) (toSequence : option Z) (cps : list checkpoint)
    (verified unverifiable : Z) : report + (Z * Z) :=
  match cps with
  | [] => inr (verified, unverifiable)
  | cp :: rest =>
      let cpSeq := last_sequence_num cp in
      if match toSequence with Some t => t <? cpSeq | None => false end
      then check_checkpoints rows lastSeq toSequence rest verified unverifiable
      else if negb (verifyCheckpoint cp None)
      then check_checkpoints rows lastSeq toSequence rest verified (unverifiable + 1)
      else if lastSeq <? cpSeq then inl (Broken (lastSeq + 1) None "TRUNCATED")
      else
        let row := select1 (λ e, seq_of e =? cpSeq) rows in
        if match row with
           | Some e => (id e =? last_event_id cp) && bool_decide (entry_hash e = Some (checkpoint_hash cp))
           | None => false
           end
        then check_checkpoints rows lastSeq toSequence rest (verified + 1) unverifiable
        else inl (Broken cpSeq (id <$> row) "CHECKPOINT_MISMATCH")
  end.

Definition in_range (fromSequence : Z) (toSequence : option Z) (e : event) : bool :=
  (fromSequence <=? seq_of e) && match toSequence with Some t => seq_of e <=? t | None => true end.

(** [verifySnapshot] after its prefix check: [anchor] is the hash the range
    starts from, [prefix] the counts (legacy-canonical, v2) of the prefix. *)
Definition verify_range (cfg : settings) (l : ledger) (fromSequence : Z) (toSequence : option Z)
    (secret : string) (anchor : option string) (prefix : option (Z * Z)) : outcome report :=
  let rows := where_ (in_range fromSequence toSequence) (chained l) in
  let legacyAllowed := acceptLegacy cfg && (fromSequence =? 1) in
  let start := mk_scan anchor fromSequence false
                 (match prefix with Some (_, v2) => negb (v2 =? 0) | None => false end) 0 0 0 [] in
  match check_rows cfg secret legacyAllowed start rows with
  | Throw st m => Throw st m
  | Ok (inl r) => Ok r
  | Ok (inr v) =>
      match check_metadata (length (authenticatedMetadata v)) l (authenticatedMetadata v) with
      | Throw st m => Throw st m
      | Ok (Some r) => Ok r
      | Ok None =>
          let lastSeq := match last rows with Some e => seq_of e | None => fromSequence - 1 end in
          let cps := js_sort (cmp_on last_sequence_num cmp_Z)
                       (where_ (λ cp, fromSequence <=? last_sequence_num cp) (checkpoints l)) in
          match check_checkpoints rows lastSeq toSequence cps 0 0 with
          | inl r => Ok r
          | inr (verified, unverifiable) =>
              match last rows with
              | None => Ok (Valid 0 lastSeq None 0 0 0 "empty" verified unverifiable)
              | Some e =>
                  let partial := negb (legacyCanonicalEvents v =? 0) ||
                                 match prefix with Some (lc, _) => negb (lc =? 0) | None => false end in
                  Ok (Valid (Z.of_nat (length rows)) lastSeq (entry_hash e) (legacyEvents v)
                        (legacyCanonicalEvents v) (canonicalV2Events v)
                        (if partial then "legacy-partial" else "canonical-v2") verified unverifiable)
              end
          end
      end
  end.

(** A range that does not start at 1 has its whole prefix verified first. *)
Definition verifySnapshot (isolation read_only : string) (cfg : settings) (l : ledger) (fromSequence : Z)
    (toSequence : option Z) (secret : string) : outcome report :=
  if negb (bool_decide (isolation ∈ ["repeatable read"; "serializable"])) || negb (read_only =? "on")%string
  then Throw None "Audit verification requires a caller-owned repeatable read, read-only snapshot"
  else if 1 <? fromSequence then
    match verify_range cfg l 1 (Some (fromSequence - 1)) secret (Some GENESIS_HASH) None with
    | Throw st m => Throw st m
    | Ok (Broken s i r) => Ok (Broken s i r)
    | Ok (Valid _ _ _ _ lc v2 _ _ _) =>
        match select1 (λ e, bool_decide (sequence_num e = Some (fromSequence - 1))) (events l) with
        | None => Ok (Broken (fromSequence - 1) None "GAP_IN_SEQUENCE")
        | Some e => verify_range cfg l fromSequence toSequence secret (entry_hash e) (Some (lc, v2))
        end
    end
  else verify_range cfg l fromSequence toSequence secret (Some GENESIS_HASH) None.

Definition verifyChain (cfg : settings) (l : ledger) (fromSequence : Z) (toSequence : option Z)
    (secret : string) : outcome report :=
  verifySnapshot "repeatable read" "on" cfg l fromSequence toSequence secret.

Definition createCheckpoint : eff ledger checkpoint :=
  l <-! get ;
  match head_event l with
  | None => throw None "Cannot create checkpoint: audit log is empty"
  | Some last =>
      match entry_hash last with
      | None => db_error
      | Some h =>
          let cp := mk_checkpoint (id last) (seq_of last) h
                      (ed_sign cr (signed_text (id last) (seq_of last) h)) (public_key cr) in
          put (mk_ledger (events l) (checkpoints l ++ [cp]) (id_seq l)) ;! eff_ret cp
      end
  end.
End Ledger.
End Audit.

(** ** [utils/audit.js] *)

Module AuditLog.
Import Audit.

Definition SEVERITY_ALIASES : list (string * string) :=
  [("warning", "warn"); ("err", "error"); ("fatal", "critical"); ("debug", "info"); ("notice", "info")].

Definition normaliseSeverity (value : jsval) : string :=
  let lower := toLowerCase (js_String (js_or value (JStr "info"))) in
  if bool_decide (lower ∈ VALID_SEVERITIES) then lower
  else default "info" (assoc lower SEVERITY_ALIASES).

Section Log.
Context {J : Type} `{!EqDecision J} (to_jsonb : string → option J) (decode : J → jsval) (cr : crypto).

Record audit_state := mk_audit_state { log : @ledger J; failedWrites : Z; lastFailure : option string }.

(** A write that fails is counted and reported, never thrown. *)
Definition writeAuditEvent (cfg : settings) (n : new_event) (severity : jsval) (now : string) :
    eff audit_state (option event) :=
  λ s,
    let n' := mk_new_event (n_eventType n) (normaliseSeverity severity) (n_actorUserId n) (n_actorUsername n)
                (n_targetId n) (n_targetType n) (n_message n) (n_ipAddress n) (n_userAgent n) (n_metadata n) in
    match appendEvent to_jsonb decode cr cfg n' now (log s) with
    | (Ok row, l) => (Ok (Some row), mk_audit_state l (failedWrites s) (lastFailure s))
    | (Throw _ m, l) => (Ok None, mk_audit_state l (failedWrites s + 1) (Some m))
    end.

Definition auditHealth (s : audit_state) : string := if failedWrites s =? 0 then "ok" else "degraded".
End Log.
End AuditLog.
