(* ===== verification/AuditFacts.v ===== *)
(** * What the audit ledger guarantees

    The canonical text of a version 2 event determines every column of the
    event; a ledger written by [appendEvent] and [createCheckpoint] verifies; and
    a verified ledger that still carries a signed checkpoint has the history that
    was signed, unless a collision of the MAC is at hand. *)

From S2P Require Import Prelude Order Js Json Db AuditChain.
Import Audit.

(** The values a canonical version 2 text lists. *)
Inductive atom : jsval → Prop :=
  | atom_str s : atom (JStr s)
  | atom_null : atom JNull
  | atom_two : atom (JNum (of_Z 2)).

Lemma canonical_two : canonicalJson (JNum (of_Z 2)) = "2".
Proof. vm_compute. reflexivity. Qed.

Lemma atom_inj a b t t' :
  atom a → atom b → canonicalJson a +:+ t = canonicalJson b +:+ t' → a = b ∧ t = t'.
Proof.
  intros Ha Hb H. destruct Ha as [s| |], Hb as [s'| |]; rewrite ?canonical_two in H;
    change (canonicalJson JNull) with "null" in H;
    try change (canonicalJson (JStr s)) with (quote s) in H;
    try change (canonicalJson (JStr s')) with (quote s') in H.
  - apply quote_inj in H as [-> ->]. done.
  - destruct (quote_head s t) as [r E]. rewrite E in H. discriminate.
  - destruct (quote_head s t) as [r E]. rewrite E in H. discriminate.
  - destruct (quote_head s' t') as [r E]. rewrite E in H. discriminate.
  - by apply append_inj_l in H.
  - discriminate.
  - destruct (quote_head s' t') as [r E]. rewrite E in H. discriminate.
  - discriminate.
  - by apply append_inj_l in H.
Qed.

Lemma atoms_inj la lb t t' :
  length la = length lb → Forall atom la → Forall atom lb →
  join "," (canonicalJson <$> la) +:+ t = join "," (canonicalJson <$> lb) +:+ t' → la = lb ∧ t = t'.
Proof.
  revert lb. induction la as [|a la IH]; intros [|b lb] Hl Ha Hb H; try discriminate Hl; [done|].
  apply Forall_cons in Ha as [Ha Hla]. apply Forall_cons in Hb as [Hb Hlb].
  destruct la as [|a2 la], lb as [|b2 lb]; try discriminate Hl.
  - simpl fmap in H. unfold join in H. simpl String.concat in H.
    by destruct (atom_inj a b t t' Ha Hb H) as [-> ->].
  - rewrite !fmap_cons, !join_cons2, !append_assoc in H.
    apply (atom_inj a b) in H as [-> H]; [|done|done]. apply append_inj_l in H.
    destruct (IH (b2 :: lb)) as [E ->]; [simpl in *; lia|done|done|done|]. by rewrite E.
Qed.

Lemma canonical_array_inj la lb :
  length la = length lb → Forall atom la → Forall atom lb →
  canonicalJson (JArr la) = canonicalJson (JArr lb) → la = lb.
Proof.
  intros Hl Ha Hb H.
  assert (∀ l, Forall atom l →
    canonicalJson (JArr l) = "[" +:+ join "," (canonicalJson <$> l) +:+ "]") as E.
  { intros l Hall. simpl. do 3 f_equal. induction Hall as [|x l Hx _ IH]; [done|].
    simpl. f_equal; [by destruct Hx|]. exact IH. }
  rewrite !E in H by done. apply append_inj_l in H.
  by destruct (atoms_inj la lb "]" "]" Hl Ha Hb H).
Qed.

Section Facts.
Context {J : Type} `{!EqDecision J} (to_jsonb : string → option J) (decode : J → jsval) (cr : crypto).
Implicit Types (e r : @event J) (l : @ledger J).

(** ** Version 2 events *)

(** Two events that agree on every column but the hash and the decoded metadata. *)
Definition same_content e e' : Prop :=
  id e = id e' ∧ sequence_num e = sequence_num e' ∧ prev_hash e = prev_hash e' ∧
  event_type e = event_type e' ∧ severity e = severity e' ∧ actor_user_id e = actor_user_id e' ∧
  actor_username e = actor_username e' ∧ target_id e = target_id e' ∧ target_type e = target_type e' ∧
  message e = message e' ∧ ip_address e = ip_address e' ∧ user_agent e = user_agent e' ∧
  created_at e = created_at e' ∧ hmac_key_id e = hmac_key_id e' ∧
  canonical_metadata_json e = canonical_metadata_json e'.

Lemma nullable_atom o : atom (nullable o).
Proof. destruct o; constructor. Qed.

Lemma v2_fields_atoms e m : Forall atom (v2_fields e m).
Proof. repeat constructor; apply nullable_atom. Qed.

Lemma nullable_inj o o' : nullable o = nullable o' → o = o'.
Proof. destruct o, o'; simpl; congruence. Qed.

Lemma v2_fields_inj e e' m m' :
  v2_fields e m = v2_fields e' m' →
  is_Some (sequence_num e) → is_Some (sequence_num e') → is_Some (prev_hash e) → is_Some (prev_hash e') →
  is_Some (hmac_key_id e) → is_Some (hmac_key_id e') →
  id e = id e' ∧ sequence_num e = sequence_num e' ∧ prev_hash e = prev_hash e' ∧
  event_type e = event_type e' ∧ severity e = severity e' ∧ actor_user_id e = actor_user_id e' ∧
  actor_username e = actor_username e' ∧ target_id e = target_id e' ∧ target_type e = target_type e' ∧
  message e = message e' ∧ ip_address e = ip_address e' ∧ user_agent e = user_agent e' ∧
  created_at e = created_at e' ∧ hmac_key_id e = hmac_key_id e' ∧ m = m'.
Proof.
  intros H [s Hs] [s' Hs'] [p Hp] [p' Hp'] [k Hk] [k' Hk']. unfold v2_fields in H.
  rewrite Hs, Hs', Hp, Hp', Hk, Hk' in *. simpl in H.
  injection H as Hid Hseq Hprev Het Hsev Hau Han Hti Htt Hmsg Hip Hua Hca Hm Hkey.
  apply (inj pretty) in Hid. apply (inj pretty) in Hseq.
  apply nullable_inj in Hau, Han, Hti, Htt, Hip, Hua. subst. split_and!; done.
Qed.

Lemma falsy_Some o : falsy o = false → is_Some o.
Proof. destruct o; [eauto|done]. Qed.

Lemma canonicalize_v2 e text :
  canonical_version e = 2 → canonicalizeEvent decode e = Ok text →
  ∃ m, canonical_metadata_json e = Some m ∧ is_Some (hmac_key_id e) ∧
       text = canonicalJson (JArr (v2_fields e m)).
Proof.
  intros Hv. unfold canonicalizeEvent. rewrite Hv. change (2 =? 2) with true. cbv iota.
  destruct (falsy (hmac_key_id e)) eqn:Ek; [discriminate|].
  destruct (canonical_metadata_json e) as [m|]; [|discriminate].
  remember (canonicalJson (JArr (v2_fields e m))) as c eqn:Ec. intros H. exists m.
  split; [done|]. split; [by apply falsy_Some|]. rewrite <- Ec. by injection H.
Qed.

Lemma v2_text_determines e e' text :
  canonical_version e = 2 → canonical_version e' = 2 →
  is_Some (sequence_num e) → is_Some (sequence_num e') → is_Some (prev_hash e) → is_Some (prev_hash e') →
  canonicalizeEvent decode e = Ok text → canonicalizeEvent decode e' = Ok text →
  same_content e e'.
Proof.
  intros Hv Hv' Hs Hs' Hp Hp' H H'.
  destruct (canonicalize_v2 e text Hv H) as (m & Em & Ek & Et).
  destruct (canonicalize_v2 e' text Hv' H') as (m' & Em' & Ek' & Et'). rewrite Et in Et'.
  apply canonical_array_inj in Et'; [|reflexivity|apply v2_fields_atoms|apply v2_fields_atoms].
  apply v2_fields_inj in Et' as (? & ? & ? & ? & ? & ? & ? & ? & ? & ? & ? & ? & ? & ? & ->);
    [|done..]. unfold same_content. rewrite Em, Em'. split_and!; done.
Qed.

(** ** Linked rows *)

(** A version 2 row at its place in the chain of [secret]. *)
Definition link (secret : string) (prev : option string) (seq : Z) r : Prop :=
  sequence_num r = Some seq ∧ prev_hash r = prev ∧ canonical_version r = 2 ∧
  hmac_key_id r = Some (keyIdFor cr secret) ∧
  ∃ text, canonicalizeEvent decode r = Ok text ∧ entry_hash r = Some (hmac cr secret text).

Fixpoint linked (secret : string) (prev : option string) (seq : Z) (rows : list (@event J)) : Prop :=
  match rows with
  | [] => True
  | r :: rs => link secret prev seq r ∧ linked secret (entry_hash r) (seq + 1) rs
  end.

(** The hash a chain ends with. *)
Definition head_of (prev : option string) (rows : list (@event J)) : option string :=
  from_option entry_hash prev (last rows).

Lemma linked_snoc secret prev seq rows r :
  linked secret prev seq (rows ++ [r]) ↔
  linked secret prev seq rows ∧ link secret (head_of prev rows) (seq + Z.of_nat (length rows)) r.
Proof.
  revert prev seq. induction rows as [|x rows IH]; intros prev seq.
  - simpl. rewrite Z.add_0_r. tauto.
  - simpl app. cbn [linked]. rewrite IH.
    assert (head_of (entry_hash x) rows = head_of prev (x :: rows)) as ->
      by (unfold head_of; rewrite last_cons; by destruct (last rows)).
    replace (seq + 1 + Z.of_nat (length rows)) with (seq + Z.of_nat (length (x :: rows))) by (simpl; lia).
    tauto.
Qed.

Lemma head_of_snoc prev rows r : head_of prev (rows ++ [r]) = entry_hash r.
Proof. unfold head_of. by rewrite last_snoc. Qed.

Definition collision (secret : string) : Prop := ∃ x y, x ≠ y ∧ hmac cr secret x = hmac cr secret y.

Lemma link_same_hash secret prev prev' seq seq' r r' :
  is_Some prev → is_Some prev' → link secret prev seq r → link secret prev' seq' r' →
  entry_hash r = entry_hash r' → same_content r r' ∨ collision secret.
Proof.
  intros Hp Hp' (Hs & <- & Hv & _ & t & Ht & Hh) (Hs' & <- & Hv' & _ & t' & Ht' & Hh') E.
  destruct (decide (t = t')) as [->|Hne].
  - left. by eapply v2_text_determines.
  - right. exists t, t'. split; [done|]. congruence.
Qed.

Lemma Forall2_singleton {A B} (R : A → B → Prop) x y : R x y → Forall2 R [x] [y].
Proof. intros. by constructor; [|constructor]. Qed.

(** Two chains from the genesis with the same head have the same content. *)
Lemma linked_head_unique secret g rows rows' :
  linked secret (Some g) 1 rows → linked secret (Some g) 1 rows' → rows ≠ [] → rows' ≠ [] →
  head_of (Some g) rows = head_of (Some g) rows' → Forall2 same_content rows rows' ∨ collision secret.
Proof.
  revert rows'. induction rows as [|r rows IH] using rev_ind; intros rows' H H' Hn Hn' E; [done|].
  destruct rows' as [|r' rows' _] using rev_ind; [done|]. clear Hn Hn'.
  apply linked_snoc in H as [H L]. apply linked_snoc in H' as [H' L']. rewrite !head_of_snoc in E.
  assert (∀ rs, linked secret (Some g) 1 rs → is_Some (head_of (Some g) rs)) as Hsome.
  { intros rs. destruct rs as [|x rs _] using rev_ind; [eauto|]. intros [_ Hx]%linked_snoc.
    rewrite head_of_snoc. destruct Hx as (_ & _ & _ & _ & t & _ & ->). eauto. }
  destruct (link_same_hash _ _ _ _ _ _ _ (Hsome _ H) (Hsome _ H') L L' E) as [Hc|]; [|by right].
  destruct L as (Hs & Hp & _), L' as (Hs' & Hp' & _).
  assert (sequence_num r = sequence_num r' ∧ prev_hash r = prev_hash r') as [Es Ep]
    by (unfold same_content in Hc; tauto).
  assert (length rows = length rows') as El by (rewrite Hs, Hs' in Es; injection Es; lia).
  destruct rows as [|x rows _] using rev_ind.
  { destruct rows'; [|discriminate El]. left. by apply Forall2_app; [constructor|apply Forall2_singleton]. }
  destruct (IH rows') as [HF|]; auto.
  - by destruct rows.
  - intros ->. rewrite length_app in El. simpl in El. lia.
  - congruence.
  - left. by apply Forall2_app; [|apply Forall2_singleton].
Qed.

(** The text that is authenticated determines the event.  Two version 2
    events of the chain with the same canonical text agree on every column:
    identifier, sequence number, previous hash, type, severity, actor, target,
    message, addresses, timestamp, key and metadata text; no choice of texts in
    one column can imitate another column. *)
Theorem canonicalizeEvent_v2_injective e e' text :
  canonical_version e = 2 → canonical_version e' = 2 →
  is_Some (sequence_num e) → is_Some (sequence_num e') → is_Some (prev_hash e) → is_Some (prev_hash e') →
  canonicalizeEvent decode e = Ok text → canonicalizeEvent decode e' = Ok text →
  same_content e e'.
Proof. apply v2_text_determines. Qed.

(** ** What verification has checked *)

(** What one accepted row contributes. *)
Lemma check_row_next cfg secret la v row v' :
  check_row decode cr cfg secret la v row = Ok (inr v') → canonical_version row = 2 →
  is_Some (sequence_num row) →
  link secret (expectedPrevHash v) (expectedSeq v) row ∧ expectedPrevHash v' = entry_hash row ∧
  expectedSeq v' = expectedSeq v + 1 ∧ legacyCanonicalEvents v' = legacyCanonicalEvents v ∧
  ∃ m, canonical_metadata_json row = Some m ∧
       authenticatedMetadata v' = authenticatedMetadata v ++ [(id row, seq_of row, m)].
Proof.
  intros H Hv [s Hs]. unfold check_row in H. rewrite Hv in H. change (2 =? 2) with true in H. cbv zeta iota in H.
  destruct (seq_of row =? expectedSeq v) eqn:Eseq; [|discriminate]. simpl negb in H. cbv iota in H.
  destruct (bool_decide (prev_hash row = expectedPrevHash v)) eqn:Ep; [|discriminate]. simpl negb in H. cbv iota in H.
  destruct (check_version cfg row) eqn:Ecv; [discriminate|].
  unfold check_version in Ecv. rewrite Hv in Ecv. simpl in Ecv.
  destruct (falsy (hmac_key_id row)) eqn:Ek; [discriminate|].
  destruct (canonical_metadata_json row) as [m|] eqn:Em; [|discriminate].
  unfold row_key in H. rewrite Ek in H.
  destruct (bool_decide (hmac_key_id row = Some (keyIdFor cr secret))) eqn:Eid; [|discriminate].
  simpl in H. unfold computeEventHash in H.
  destruct (canonicalizeEvent decode row) as [t|] eqn:Et; [|discriminate].
  destruct (bool_decide (entry_hash row = Some (hmac cr secret t))) eqn:Eh; [|discriminate].
  simpl in H. injection H as <-. b2p. simpl. unfold link, seq_of in *. rewrite Hs in *. simpl in *.
  split; [split; [by f_equal|]; split_and!; eauto|]. split_and!; [done|done|lia|]. exists m.
  done.
Qed.

Lemma check_row_legacy cfg secret la v row v' :
  check_row decode cr cfg secret la v row = Ok (inr v') → canonical_version row ≠ 2 →
  legacyCanonicalEvents v' = legacyCanonicalEvents v + 1.
Proof.
  intros H Hv. unfold check_row in H. apply Z.eqb_neq in Hv. rewrite Hv in H.
  repeat (case_match; try discriminate); by injection H as <-.
Qed.

Lemma check_row_mono cfg secret la v row v' :
  check_row decode cr cfg secret la v row = Ok (inr v') → is_Some (sequence_num row) →
  legacyCanonicalEvents v <= legacyCanonicalEvents v'.
Proof.
  intros H Hs. destruct (decide (canonical_version row = 2)) as [E|E].
  - destruct (check_row_next _ _ _ _ _ _ H E Hs) as (_ & _ & _ & -> & _). lia.
  - rewrite (check_row_legacy _ _ _ _ _ _ H E). lia.
Qed.

Lemma check_rows_mono cfg secret la rows v v' :
  check_rows decode cr cfg secret la v rows = Ok (inr v') → Forall (λ r, is_Some (sequence_num r)) rows →
  legacyCanonicalEvents v <= legacyCanonicalEvents v'.
Proof.
  revert v. induction rows as [|r rows IH]; intros v H Hs; simpl in H; [by simplify_eq|].
  apply Forall_cons in Hs as [Hr Hs].
  destruct (check_row _ _ _ _ _ _ _) as [[rep|v1]|] eqn:E; try discriminate.
  pose proof (check_row_mono _ _ _ _ _ _ E Hr). specialize (IH _ H Hs). lia.
Qed.

Lemma check_rows_linked cfg secret la rows v v' :
  check_rows decode cr cfg secret la v rows = Ok (inr v') → Forall (λ r, is_Some (sequence_num r)) rows →
  legacyCanonicalEvents v' = legacyCanonicalEvents v →
  linked secret (expectedPrevHash v) (expectedSeq v) rows ∧
  ∀ r, r ∈ rows → ∃ m, canonical_metadata_json r = Some m ∧ (id r, seq_of r, m) ∈ authenticatedMetadata v'.
Proof.
  intros H Hs E. enough (linked secret (expectedPrevHash v) (expectedSeq v) rows ∧
    (∀ a, a ∈ authenticatedMetadata v → a ∈ authenticatedMetadata v') ∧
    ∀ r, r ∈ rows → ∃ m, canonical_metadata_json r = Some m ∧ (id r, seq_of r, m) ∈ authenticatedMetadata v')
    by tauto.
  revert v H E. induction rows as [|r rows IH]; intros v H E; simpl in H.
  { simplify_eq. split; [done|]. split; [done|]. intros r Hr. by apply not_elem_of_nil in Hr. }
  apply Forall_cons in Hs as [Hr Hs]. specialize (IH Hs).
  destruct (check_row _ _ _ _ _ _ _) as [[rep|v1]|] eqn:Er; try discriminate.
  assert (canonical_version r = 2) as Hv.
  { destruct (decide (canonical_version r = 2)) as [|Hne]; [done|].
    pose proof (check_row_legacy _ _ _ _ _ _ Er Hne). pose proof (check_rows_mono _ _ _ _ _ _ H Hs). lia. }
  destruct (check_row_next _ _ _ _ _ _ Er Hv Hr) as (L & Ep & Es & El & m & Em & Ea).
  destruct (IH v1 H) as (HL & Hin & HF); [lia|]. rewrite Ep, Es in HL.
  split; [done|]. split.
  - intros a Ha. apply Hin. rewrite Ea. apply elem_of_app. by left.
  - intros x [->|Hx]%elem_of_cons; [|by apply HF]. exists m. split; [done|]. apply Hin. rewrite Ea.
    apply elem_of_app. right. by apply list_elem_of_singleton.
Qed.

Lemma check_batch_ok l batch a :
  check_batch to_jsonb l batch = Ok None → a ∈ batch → metadata_matches to_jsonb l a = Some true.
Proof.
  unfold check_batch. intros H Ha.
  destruct (existsb _ batch) eqn:Ee; [discriminate|].
  destruct (select1 (λ a, negb (default false (metadata_matches to_jsonb l a))) batch) as [[[? ?] ?]|] eqn:Es;
    [discriminate|].
  rewrite select1_none in Es. specialize (Es _ Ha). apply negb_false_iff in Es.
  destruct (metadata_matches to_jsonb l a) as [b|]; [|discriminate]. simpl in Es. by rewrite Es.
Qed.

Lemma check_metadata_ok l fuel rest a :
  check_metadata to_jsonb fuel l rest = Ok None → (length rest <= fuel)%nat → a ∈ rest →
  metadata_matches to_jsonb l a = Some true.
Proof.
  revert rest. induction fuel as [|fuel IH]; intros rest H Hf Ha.
  { destruct rest; [by apply not_elem_of_nil in Ha|simpl in Hf; lia]. }
  destruct rest as [|x rest]; [by apply not_elem_of_nil in Ha|]. cbn [check_metadata] in H.
  destruct (check_batch to_jsonb l _) as [[rep|]|] eqn:Eb; try discriminate.
  rewrite <- (firstn_skipn METADATA_BATCH (x :: rest)) in Ha. apply elem_of_app in Ha as [Ha|Ha].
  - by eapply check_batch_ok.
  - apply IH in H; [done| |done]. rewrite length_skipn. unfold METADATA_BATCH. simpl in *. lia.
Qed.

(** Verdicts stop the verification. *)
Lemma check_row_verdict cfg secret la v row rep :
  check_row decode cr cfg secret la v row = Ok (inl rep) → ∃ s i m, rep = Broken s i m.
Proof. unfold check_row. intros H. repeat (case_match; simplify_eq; eauto). Qed.

Lemma check_rows_verdict cfg secret la v rows rep :
  check_rows decode cr cfg secret la v rows = Ok (inl rep) → ∃ s i m, rep = Broken s i m.
Proof.
  revert v. induction rows as [|r rows IH]; intros v H; simpl in H; [discriminate|].
  destruct (check_row _ _ _ _ _ _ _) as [[rep'|v1]|] eqn:E; simplify_eq; [|by eapply IH].
  by eapply check_row_verdict.
Qed.

Lemma check_metadata_verdict l fuel rest rep :
  check_metadata to_jsonb fuel l rest = Ok (Some rep) → ∃ s i m, rep = Broken s i m.
Proof.
  revert rest. induction fuel as [|fuel IH]; intros [|x rest] H; cbn [check_metadata] in H; try discriminate.
  unfold check_batch in H. destruct (existsb _ _); [discriminate|].
  destruct (select1 _ _) as [[[? ?] ?]|]; [simplify_eq; eauto|by eapply IH].
Qed.

Lemma check_checkpoints_verdict (rows : list (@event J)) lastSeq t cps n u rep :
  check_checkpoints cr rows lastSeq t cps n u = inl rep → ∃ s i m, rep = Broken s i m.
Proof.
  revert n u. induction cps as [|c cps IH]; intros n u H; cbn [check_checkpoints] in H; [discriminate|].
  repeat (case_match; simplify_eq; eauto).
Qed.

(** The events a verification of the whole chain covers. *)
Definition verified_events l : list (@event J) := where_ (in_range 1 None) (chained l).

Lemma chained_elem l r : r ∈ chained l → r ∈ events l ∧ is_Some (sequence_num r).
Proof.
  unfold chained. rewrite elem_of_js_sort, elem_of_where. intros [H ?].
  destruct (sequence_num r); [eauto|done].
Qed.

Lemma check_checkpoints_ok (rows : list (@event J)) lastSeq cps n u n' u' cp :
  check_checkpoints cr rows lastSeq None cps n u = inr (n', u') → cp ∈ cps → verifyCheckpoint cr cp None = true →
  ∃ e, e ∈ rows ∧ seq_of e = last_sequence_num cp ∧ id e = last_event_id cp ∧
       entry_hash e = Some (checkpoint_hash cp).
Proof.
  revert n u. induction cps as [|c cps IH]; intros n u H Hin Hv; [by apply not_elem_of_nil in Hin|].
  cbn [check_checkpoints] in H. apply elem_of_cons in Hin as [<-|Hin].
  - rewrite Hv in H. simpl negb in H. cbv iota in H.
    destruct (lastSeq <? last_sequence_num cp); [discriminate|].
    destruct (select1 (λ e, seq_of e =? last_sequence_num cp) rows) as [e|] eqn:Es; [|discriminate].
    destruct ((id e =? last_event_id cp) && _) eqn:Em; [|discriminate].
    apply select1_elem in Es as [Hs He]. b2p. eauto.
  - destruct (negb (verifyCheckpoint cr c None)); [by eapply IH|].
    destruct (lastSeq <? last_sequence_num c); [discriminate|].
    destruct (match select1 _ rows with Some e => _ | None => false end); [by eapply IH|discriminate].
Qed.

(** A report of a whole, fully authenticated chain. *)
Definition fully_verified (cfg : settings) l : Prop :=
  ∃ n last_seq hh le lc v2 cv cu,
    verifyChain to_jsonb decode cr cfg l 1 None (AUDIT_HMAC_SECRET cfg) =
      Ok (Valid n last_seq hh le lc v2 "canonical-v2" cv cu).

Lemma verified_facts cfg l :
  fully_verified cfg l →
  verified_events l ≠ [] ∧ linked (AUDIT_HMAC_SECRET cfg) (Some GENESIS_HASH) 1 (verified_events l) ∧
  (∀ r, r ∈ verified_events l → ∃ m, canonical_metadata_json r = Some m ∧
     metadata_matches to_jsonb l (id r, seq_of r, m) = Some true) ∧
  (∀ cp, cp ∈ checkpoints l → 1 <= last_sequence_num cp → verifyCheckpoint cr cp None = true →
     ∃ e, e ∈ verified_events l ∧ seq_of e = last_sequence_num cp ∧ id e = last_event_id cp ∧
          entry_hash e = Some (checkpoint_hash cp)).
Proof.
  intros (n & ls & hh & le & lc & v2 & cv & cu & H). unfold verifyChain, verifySnapshot in H. simpl in H.
  unfold verify_range in H. fold (verified_events l) in H. cbv zeta in H.
  destruct (check_rows _ _ _ _ _ _ _) as [[rep|v]|] eqn:Er; try discriminate.
  { (* a verdict of the loop is never a valid report *) by apply check_rows_verdict in Er as (? & ? & ? & ->). }
  destruct (check_metadata _ _ _ _) as [[rep|]|] eqn:Em; try discriminate.
  { by apply check_metadata_verdict in Em as (? & ? & ? & ->). }
  destruct (check_checkpoints _ _ _ _ _ _ _) as [rep|[n' u']] eqn:Ec.
  { by apply check_checkpoints_verdict in Ec as (? & ? & ? & ->). }
  destruct (last (verified_events l)) as [e|] eqn:El; [|discriminate].
  assert (legacyCanonicalEvents v = 0) as E0.
  { destruct (legacyCanonicalEvents v =? 0) eqn:E; [by b2p|discriminate]. }
  split; [by intros E; rewrite E in El|].
  assert (Forall (λ r, is_Some (sequence_num r)) (verified_events l)) as Hs.
  { apply Forall_forall. intros r Hr. apply elem_of_where in Hr as [_ Hr]. exact (proj2 (chained_elem _ _ Hr)). }
  destruct (check_rows_linked _ _ _ _ _ _ Er Hs E0) as [HL HM]. split; [exact HL|]. split.
  - intros r Hr. destruct (HM r Hr) as (m & Hm & Ha). exists m. split; [done|].
    by eapply check_metadata_ok.
  - intros cp Hcp H1 Hv. eapply check_checkpoints_ok; [exact Ec| |done].
    apply elem_of_js_sort, elem_of_where. split; [lia|done].
Qed.

(** ** Pinned histories *)

Lemma same_content_canonical e e' :
  canonical_version e = 2 → canonical_version e' = 2 → same_content e e' →
  canonicalizeEvent decode e = canonicalizeEvent decode e'.
Proof.
  intros Hv Hv' (H1 & H2 & H3 & H4 & H5 & H6 & H7 & H8 & H9 & H10 & H11 & H12 & H13 & H14 & H15).
  unfold canonicalizeEvent, v2_fields. rewrite Hv, Hv'. change (2 =? 2) with true. cbv iota.
  rewrite H1, H2, H3, H4, H5, H6, H7, H8, H9, H10, H11, H12, H13, H14, H15. reflexivity.
Qed.

Lemma same_event e e' m :
  same_content e e' → canonical_version e = canonical_version e' → entry_hash e = entry_hash e' →
  canonical_metadata_json e = Some m →
  to_jsonb m = Some (metadata_json e) → to_jsonb m = Some (metadata_json e') → e = e'.
Proof.
  intros (H1 & H2 & H3 & H4 & H5 & H6 & H7 & H8 & H9 & H10 & H11 & H12 & H13 & H14 & H15) Hv Hh _ Hm Hm'.
  rewrite Hm in Hm'. injection Hm' as Hm'. destruct e, e'; simpl in *. by subst.
Qed.

Lemma matches_jsonb l r m :
  NoDup (id <$> events l) → r ∈ events l → metadata_matches to_jsonb l (id r, seq_of r, m) = Some true →
  to_jsonb m = Some (metadata_json r).
Proof.
  intros Hn Hr H. unfold metadata_matches in H. destruct (to_jsonb m) as [j|]; [|discriminate]. simpl in H.
  rewrite (select1_unique id _ _ r) in H; auto; [|lia|intros y Hy; by b2p].
  injection H as H. b2p. by rewrite H.
Qed.

Lemma verified_elem l r : r ∈ verified_events l → r ∈ events l.
Proof. intros [_ H]%elem_of_where. by apply chained_elem. Qed.

Lemma linked_prefix secret prev seq rows rows' :
  linked secret prev seq (rows ++ rows') → linked secret prev seq rows.
Proof.
  revert prev seq. induction rows as [|r rows IH]; intros prev seq H; [done|].
  destruct H as [L H]. split; [done|]. by eapply IH.
Qed.

Lemma linked_elem secret prev seq rows r :
  linked secret prev seq rows → r ∈ rows → canonical_version r = 2 ∧
  ∃ t, canonicalizeEvent decode r = Ok t ∧ entry_hash r = Some (hmac cr secret t).
Proof.
  revert prev seq. induction rows as [|x rows IH]; intros prev seq H Hr; [by apply not_elem_of_nil in Hr|].
  destruct H as [(_ & _ & Hv & _ & Ht) H]. apply elem_of_cons in Hr as [->|Hr]; eauto.
Qed.

(** Fully authenticated rows with the same content are the same rows. *)
Lemma same_rows_eq cfg l l' rows rows' :
  fully_verified cfg l → fully_verified cfg l' → NoDup (id <$> events l) → NoDup (id <$> events l') →
  rows ⊆ verified_events l → rows' ⊆ verified_events l' → Forall2 same_content rows rows' → rows = rows'.
Proof.
  intros V V' Hn Hn' Hs Hs' HF.
  destruct (verified_facts _ _ V) as (_ & HL & HM & _). destruct (verified_facts _ _ V') as (_ & HL' & HM' & _).
  induction HF as [|e e' rows rows' Hc _ IH]; [done|]. f_equal.
  - assert (e ∈ verified_events l) as He by (apply Hs; left).
    assert (e' ∈ verified_events l') as He' by (apply Hs'; left).
    destruct (linked_elem _ _ _ _ _ HL He) as (Hv & t & Ht & Hh).
    destruct (linked_elem _ _ _ _ _ HL' He') as (Hv' & t' & Ht' & Hh').
    destruct (HM e He) as (m & Hm & Hmm). destruct (HM' e' He') as (m' & Hm' & Hmm').
    assert (m = m') as <- by (unfold same_content in Hc; destruct_and!; congruence).
    assert (t = t') as <- by (rewrite (same_content_canonical e e') in Ht by done; congruence).
    eapply (same_event e e' m); [done|congruence|congruence|done|..].
    + apply (matches_jsonb l e m Hn); [by apply verified_elem|done].
    + apply (matches_jsonb l' e' m Hn'); [by apply verified_elem|done].
  - apply IH; intros x Hx; [apply Hs|apply Hs']; by right.
Qed.

Lemma last_where {A} (p : A → bool) rows x : last rows = Some x → p x = true → last (where_ p rows) = Some x.
Proof.
  intros [rows' ->]%last_Some Hp. rewrite where_app, where_cons, Hp. apply last_snoc.
Qed.

(** The head of the table is the last verified event. *)
Lemma head_verified l : verified_events l ≠ [] → head_event l = last (verified_events l).
Proof.
  intros Hne. unfold head_event, verified_events in *.
  destruct (last (chained l)) as [x|] eqn:El.
  - symmetry. apply last_where; [done|]. destruct (where_ _ _) as [|y r] eqn:Ew; [done|].
    assert (y ∈ where_ (in_range 1 None) (chained l)) as Hy by (rewrite Ew; left).
    apply elem_of_where in Hy as [Hy Hyc].
    assert (seq_of y <= seq_of x) as Hle.
    { pose proof (js_sort_sorted (cmp_on seq_of cmp_Z)
        (where_ (λ e : @event J, match sequence_num e with Some _ => true | None => false end) (events l))) as Hs.
      fold (chained l) in Hs. apply last_Some in El as [pre E]. rewrite E in Hs, Hyc.
      apply elem_of_app in Hyc as [Hyc|Hyc%list_elem_of_singleton]; [|by subst].
      apply (StronglySorted_app_1_elem_of _ pre [x] y x) in Hs; [|done|left].
      unfold cmp_on, cmp_Z in Hs. lia. }
    unfold in_range in *. b2p. apply andb_true_iff. split; [lia|done].
  - apply last_None in El. by rewrite El in Hne.
Qed.

Lemma create_checkpoint_ok l cp l' :
  createCheckpoint cr l = (Ok cp, l') →
  ∃ e, head_event l = Some e ∧ entry_hash e = Some (checkpoint_hash cp) ∧
       last_sequence_num cp = seq_of e ∧ last_event_id cp = id e ∧
       signature cp = ed_sign cr (signed_text (id e) (seq_of e) (checkpoint_hash cp)) ∧
       l' = mk_ledger (events l) (checkpoints l ++ [cp]) (id_seq l).
Proof.
  unfold createCheckpoint, eff_bind, get, put, eff_ret. intros H.
  destruct (head_event l) as [e|]; [|discriminate]. destruct (entry_hash e) eqn:Eh; [|discriminate].
  injection H as <- <-. exists e. by split_and!.
Qed.


(** ** Ledgers the service writes *)

Inductive written (cfg : settings) : @ledger J → Prop :=
  | written_empty : written cfg (mk_ledger [] [] 0)
  | written_append l n now : written cfg l → written cfg (appendEvent to_jsonb decode cr cfg n now l).2
  | written_checkpoint l : written cfg l → written cfg (createCheckpoint cr l).2.

Record well_formed (cfg : settings) l : Prop := {
  wf_linked : linked (AUDIT_HMAC_SECRET cfg) (Some GENESIS_HASH) 1 (events l);
  wf_ids : NoDup (id <$> events l);
  wf_metadata : ∀ e, e ∈ events l → ∃ m, canonical_metadata_json e = Some m ∧ to_jsonb m = Some (metadata_json e);
  wf_checkpoints : ∀ cp, cp ∈ checkpoints l → verifyCheckpoint cr cp None = true ∧
    ∃ e, e ∈ events l ∧ seq_of e = last_sequence_num cp ∧ id e = last_event_id cp ∧
         entry_hash e = Some (checkpoint_hash cp);
}.

Lemma linked_seq secret prev seq rows :
  linked secret prev seq rows →
  (∀ r, r ∈ rows → is_Some (sequence_num r) ∧ seq <= seq_of r < seq + Z.of_nat (length rows)) ∧
  NoDup (seq_of <$> rows) ∧ StronglySorted (λ x y, cmp_on seq_of cmp_Z x y <= 0) rows.
Proof.
  revert prev seq. induction rows as [|r rows IH]; intros prev seq H.
  { split; [intros r Hr; by apply not_elem_of_nil in Hr|]. split; constructor. }
  destruct H as [(Hs & _) H]. destruct (IH _ _ H) as (Hb & Hn & Hst).
  assert (seq_of r = seq) as Er by (unfold seq_of; by rewrite Hs).
  split; [|split].
  - intros x [->|Hx]%elem_of_cons; [rewrite Hs; split; [eauto|simpl; lia]|].
    destruct (Hb x Hx). split; [done|simpl; lia].
  - rewrite fmap_cons. apply NoDup_cons. split; [|done]. intros (x & E & Hx)%list_elem_of_fmap.
    destruct (Hb x Hx). lia.
  - constructor; [done|]. apply Forall_forall. intros x Hx. destruct (Hb x Hx).
    unfold cmp_on, cmp_Z. lia.
Qed.

Lemma where_all {A} (p : A → bool) rows : (∀ x, x ∈ rows → p x = true) → where_ p rows = rows.
Proof.
  induction rows as [|x rows IH]; intros H; [done|]. rewrite where_cons, H by left. f_equal. apply IH.
  intros y Hy. apply H. by right.
Qed.

Lemma linked_chained secret prev seq l : linked secret prev seq (events l) → chained l = events l.
Proof.
  intros H. destruct (linked_seq _ _ _ _ H) as (Hb & _ & Hs). unfold chained.
  rewrite where_all; [apply (js_sort_id (cmp_on seq_of cmp_Z)); exact Hs|]. intros x Hx. by destruct (Hb x Hx) as [[? ->] _].
Qed.

Lemma linked_verified secret prev l : linked secret prev 1 (events l) → verified_events l = events l.
Proof.
  intros H. unfold verified_events. rewrite (linked_chained _ _ _ _ H). apply where_all. intros x Hx.
  destruct (linked_seq _ _ _ _ H) as (Hb & _). destruct (Hb x Hx). unfold in_range. rewrite andb_true_r. lia.
Qed.

Section Honest.
Context (cfg : settings).
Let secret := AUDIT_HMAC_SECRET cfg.
Hypothesis hmac_nonempty : ∀ k x, hmac cr k x ≠ "".
Hypothesis sign_verify : ∀ d, ed_verify cr d (public_key cr) (ed_sign cr d) = true.

Lemma keyIdFor_truthy k : falsy (Some (keyIdFor cr k)) = false.
Proof.
  unfold falsy, keyIdFor. pose proof (hmac_nonempty k "neronet-audit-hmac-key-id-v1") as H.
  destruct (hmac cr k _); done.
Qed.

Lemma check_row_link la v row m :
  link secret (expectedPrevHash v) (expectedSeq v) row → canonical_metadata_json row = Some m →
  check_row decode cr cfg secret la v row =
    Ok (inr (mk_scan (entry_hash row) (expectedSeq v + 1) true true (legacyEvents v) (legacyCanonicalEvents v)
               (canonicalV2Events v + 1) (authenticatedMetadata v ++ [(id row, seq_of row, m)]))).
Proof.
  intros (Hs & Hp & Hv & Hk & t & Ht & Hh) Hm. unfold check_row. cbv zeta. rewrite Hv.
  change (2 =? 2) with true. cbv iota.
  assert (seq_of row = expectedSeq v) as Es by (unfold seq_of; by rewrite Hs).
  rewrite Es, Z.eqb_refl. simpl negb. cbv iota. rewrite bool_decide_eq_true_2 by done. simpl negb. cbv iota.
  unfold check_version. rewrite Hv, Hk, keyIdFor_truthy, Hm. simpl.
  unfold row_key. rewrite Hk, keyIdFor_truthy, bool_decide_eq_true_2 by done.
  unfold computeEventHash. rewrite Ht, Hh, bool_decide_eq_true_2 by done. simpl.
  by rewrite !Z.add_0_r, !orb_true_r.
Qed.

Lemma check_rows_link la rows v :
  linked secret (expectedPrevHash v) (expectedSeq v) rows →
  (∀ r, r ∈ rows → is_Some (canonical_metadata_json r)) →
  ∃ v', check_rows decode cr cfg secret la v rows = Ok (inr v') ∧
    legacyEvents v' = legacyEvents v ∧ legacyCanonicalEvents v' = legacyCanonicalEvents v ∧
    canonicalV2Events v' = canonicalV2Events v + Z.of_nat (length rows) ∧
    ∀ a, a ∈ authenticatedMetadata v' → a ∈ authenticatedMetadata v ∨
      ∃ r m, r ∈ rows ∧ canonical_metadata_json r = Some m ∧ a = (id r, seq_of r, m).
Proof.
  revert v. induction rows as [|r rows IH]; intros v H Hm.
  { exists v. simpl. rewrite Z.add_0_r. split_and!; auto. }
  destruct H as [L H]. destruct (Hm r) as [m Em]; [left|]. cbn [check_rows]. rewrite (check_row_link la v r m L Em).
  match goal with |- ∃ _, check_rows _ _ _ _ _ ?v1 _ = _ ∧ _ => destruct (IH v1) as (v' & E & E1 & E2 & E3 & HA) end;
    [exact H|intros x Hx; apply Hm; by right|].
  exists v'. split; [exact E|]. simpl in *. split; [done|]. split; [done|]. split; [lia|].
  intros a Ha. destruct (HA a Ha) as [Hold | (x & mx & Hx & ? & ?)].
  - apply elem_of_app in Hold as [?| ->%list_elem_of_singleton]; [by left|]. right. exists r, m. split_and!; auto. left.
  - right. exists x, mx. split_and!; auto. by right.
Qed.

Lemma check_metadata_pass l fuel rest :
  (∀ a, a ∈ rest → metadata_matches to_jsonb l a = Some true) → check_metadata to_jsonb fuel l rest = Ok None.
Proof.
  revert rest. induction fuel as [|fuel IH]; intros [|x rest] H; try done. cbn [check_metadata].
  assert (∀ a, a ∈ firstn METADATA_BATCH (x :: rest) → metadata_matches to_jsonb l a = Some true) as Hb.
  { intros a Ha. apply H. rewrite <- (firstn_skipn METADATA_BATCH (x :: rest)). apply elem_of_app. by left. }
  assert (check_batch to_jsonb l (firstn METADATA_BATCH (x :: rest)) = Ok None) as ->.
  { unfold check_batch.
    assert (existsb (λ a, match metadata_matches to_jsonb l a with None => true | Some _ => false end)
      (firstn METADATA_BATCH (x :: rest)) = false) as ->.
    { apply not_true_iff_false. rewrite existsb_exists. intros (a & Ha%list_elem_of_In & E). by rewrite Hb in E. }
    assert (select1 (λ a, negb (default false (metadata_matches to_jsonb l a)))
      (firstn METADATA_BATCH (x :: rest)) = None) as ->; [|done].
    apply select1_none. intros a Ha. by rewrite Hb. }
  apply IH. intros a Ha. apply H. rewrite <- (firstn_skipn METADATA_BATCH (x :: rest)). apply elem_of_app. by right.
Qed.

Lemma check_checkpoints_pass (rows : list (@event J)) lastSeq cps n u :
  NoDup (seq_of <$> rows) → (∀ e, e ∈ rows → seq_of e <= lastSeq) →
  (∀ cp, cp ∈ cps → verifyCheckpoint cr cp None = true ∧
     ∃ e, e ∈ rows ∧ seq_of e = last_sequence_num cp ∧ id e = last_event_id cp ∧
          entry_hash e = Some (checkpoint_hash cp)) →
  check_checkpoints cr rows lastSeq None cps n u = inr (n + Z.of_nat (length cps), u).
Proof.
  intros Hn Hb. revert n. induction cps as [|cp cps IH]; intros n H.
  { simpl. by rewrite Z.add_0_r. }
  cbn [check_checkpoints]. destruct (H cp) as (Hv & e & He & Hs & Hi & Hh); [left|]. rewrite Hv.
  simpl negb. cbv iota. specialize (Hb e He).
  destruct (Z.ltb_spec lastSeq (last_sequence_num cp)); [lia|].
  rewrite (select1_unique seq_of _ _ e); auto; [|lia|intros y Hy; b2p; congruence].
  rewrite Hi, Z.eqb_refl, bool_decide_eq_true_2 by done. simpl andb. cbv iota.
  rewrite IH; [f_equal; f_equal; simpl; lia|]. intros cp' Hcp. apply H. by right.
Qed.

Lemma empty_well_formed : well_formed cfg (mk_ledger [] [] 0).
Proof. split; simpl; [done|constructor|..]; intros x Hx; by apply not_elem_of_nil in Hx. Qed.

Lemma head_event_linked l : linked secret (Some GENESIS_HASH) 1 (events l) → head_event l = last (events l).
Proof. intros H. unfold head_event. by rewrite (linked_chained _ _ _ _ H). Qed.

(** The hash and the number the next event is given are those of its place. *)
Lemma next_link l nextSeq prevHash :
  linked secret (Some GENESIS_HASH) 1 (events l) →
  match head_event l with
  | Some e => (seq_of e + 1, text_or (entry_hash e) GENESIS_HASH)
  | None => (1, GENESIS_HASH)
  end = (nextSeq, prevHash) →
  Some prevHash = head_of (Some GENESIS_HASH) (events l) ∧ nextSeq = 1 + Z.of_nat (length (events l)).
Proof.
  intros H E. rewrite (head_event_linked _ H) in E. unfold head_of.
  destruct (events l) as [|r rows _] using rev_ind; [simpl in *; by simplify_eq|].
  rewrite last_snoc in *. simpl. apply linked_snoc in H as [_ (Hs & _ & _ & _ & t & _ & Hh)].
  rewrite Hh in E. unfold seq_of in E. rewrite Hs in E. simpl in E. rewrite length_app. simpl. rewrite Hh.
  pose proof (hmac_nonempty secret t) as Hne. apply String.eqb_neq in Hne. rewrite Hne in E.
  split; [congruence|]. injection E as <- _. lia.
Qed.

Lemma append_well_formed l n now :
  well_formed cfg l → well_formed cfg (appendEvent to_jsonb decode cr cfg n now l).2.
Proof.
  intros W. assert (∀ i, well_formed cfg (mk_ledger (events l) (checkpoints l) i)) as Wi by (intros i; destruct W; by split).
  unfold appendEvent, eff_bind at 1, get.
  destruct (match head_event l with Some e => _ | None => _ end) as [nextSeq prevHash] eqn:En.
  cbv zeta. unfold eff_bind at 1, put at 1. destruct (metadataObject (n_metadata n)) as [v|]; [|apply Wi].
  unfold or_db_error. destruct (to_jsonb (canonicalJson v)) as [j|] eqn:Ej; [|apply Wi].
  unfold eff_bind at 1, eff_ret at 1. set (rec := event_record _ _ _ _ _ _ _ _ _).
  destruct (computeEventHash decode cr rec (AUDIT_HMAC_SECRET cfg)) as [h|] eqn:Eh; [|apply Wi].
  break_if; [|apply Wi]. b2p. unfold eff_bind, put, eff_ret. simpl.
  destruct W as [HL Hi Hm Hc]. destruct (next_link _ _ _ HL En) as [Ep Es].
  split; simpl.
  - apply linked_snoc. split; [done|]. unfold computeEventHash in Eh.
    change (canonicalizeEvent decode rec) with (canonicalizeEvent decode (with_hash rec h)) in Eh.
    destruct (canonicalizeEvent decode (with_hash rec h)) as [t|] eqn:Et; [|discriminate].
    split; [simpl; by rewrite Es|]. split; [simpl; done|]. split; [done|]. split; [done|].
    exists t. split; [done|]. simpl. by injection Eh as <-.
  - rewrite fmap_app. apply NoDup_app. split; [done|]. split; [|apply NoDup_singleton].
    intros x (y & -> & Hy)%list_elem_of_fmap Hx%list_elem_of_singleton.
    match goal with H : existsb _ _ = false |- _ => apply not_true_iff_false in H; apply H end.
    apply existsb_exists. exists y. split; [by apply list_elem_of_In|]. simpl in Hx. rewrite Hx, Z.eqb_refl. done.
  - intros e [He| ->%list_elem_of_singleton]%elem_of_app; [by apply Hm|]. simpl. eauto.
  - intros cp Hcp. destruct (Hc cp Hcp) as (Hv & e & He & ?). split; [done|]. exists e. split; [|done].
    apply elem_of_app. by left.
Qed.

Lemma checkpoint_well_formed l : well_formed cfg l → well_formed cfg (createCheckpoint cr l).2.
Proof.
  intros W. destruct (createCheckpoint cr l) as [[cp|] l'] eqn:E.
  - apply create_checkpoint_ok in E as (e & He & Hh & Hs & Hi & Hsg & ->). destruct W as [HL Hn Hm Hc].
    split; simpl; auto. intros cp' [Hcp| ->%list_elem_of_singleton]%elem_of_app; [by apply Hc|].
    split; [unfold verifyCheckpoint; simpl; rewrite Hi, Hs, Hsg; apply sign_verify|].
    exists e. rewrite (head_event_linked _ HL) in He. apply last_Some in He as [pre ->].
    split; [apply elem_of_app; right; left|done].
  - unfold createCheckpoint, eff_bind, get, put, db_error, throw in E. repeat case_match; by simplify_eq.
Qed.

Lemma written_well_formed l : written cfg l → well_formed cfg l.
Proof. induction 1; auto using empty_well_formed, append_well_formed, checkpoint_well_formed. Qed.

(** What the service writes, it verifies.  After any sequence of appends
    (with whatever events, some of them failing) and checkpoints from an empty
    ledger, [verifyChain] reports a valid chain under the same key: every event
    counted and in the version 2 format, the head hash that of the last event,
    no legacy event, and every checkpoint verified. *)
Theorem written_ledger_verifies l :
  written cfg l →
  let n := Z.of_nat (length (events l)) in
  let c := Z.of_nat (length (checkpoints l)) in
  verifyChain to_jsonb decode cr cfg l 1 None (AUDIT_HMAC_SECRET cfg) =
    Ok (match last (events l) with
        | None => Valid 0 0 None 0 0 0 "empty" c 0
        | Some e => Valid n n (entry_hash e) 0 0 n "canonical-v2" c 0
        end).
Proof.
  intros W%written_well_formed n c. destruct W as [HL Hi Hm Hc].
  unfold verifyChain, verifySnapshot. simpl. unfold verify_range. fold (verified_events l).
  rewrite (linked_verified _ _ _ HL). destruct (linked_seq _ _ _ _ HL) as (Hb & Hn & _). cbv zeta.
  fold secret. match goal with |- context [check_rows _ _ _ _ ?la ?v0 _] =>
    destruct (check_rows_link la (events l) v0) as (v & -> & E1 & E2 & E3 & HA); [exact HL| |] end.
  { intros r Hr. destruct (Hm r Hr) as (m & -> & _). eauto. }
  rewrite check_metadata_pass.
  2: { intros a Ha. destruct (HA a Ha) as [Hold | (r & m & Hr & Er & ->)]; [by apply not_elem_of_nil in Hold | ].
       destruct (Hm r Hr) as (m' & Er' & Ej). assert (m' = m) as -> by congruence.
       unfold metadata_matches. rewrite Ej. simpl.
       rewrite (select1_unique id _ _ r); auto; [|lia|intros y Hy; by b2p]. by rewrite bool_decide_eq_true_2. }
  assert (match last (events l) with Some e => seq_of e | None => 1 - 1 end = n) as En.
  { unfold n. destruct (events l) as [|r rows _] using rev_ind; [done|]. rewrite last_snoc, length_app. simpl.
    apply linked_snoc in HL as [_ (Hs & _)]. unfold seq_of. rewrite Hs. simpl. lia. }
  rewrite En, check_checkpoints_pass; [|done|intros e He; destruct (Hb e He); lia|].
  2: { intros cp Hcp. apply elem_of_js_sort, elem_of_where in Hcp as [_ Hcp]. by apply Hc. }
  rewrite (Permutation_length (js_sort_perm _ _)), where_all.
  2: { intros cp Hcp. destruct (Hc cp Hcp) as (_ & e & He & Hs & _). destruct (Hb e He). lia. }
  rewrite E1, E2, E3. simpl. fold n c.
  destruct (last (events l)) eqn:El; [done|]. apply last_None in El. unfold n. by rewrite El.
Qed.
End Honest.
End Facts.

(** ** Concrete ledgers *)

Definition sample_crypto : crypto :=
  mk_crypto (λ k x, "h" +:+ k +:+ x) (λ d, d) (λ d _ s, (d =? s)%string) "pk".
Definition sample_settings : settings := mk_settings "k" "" None None.
Definition sample_event (message : string) : new_event :=
  mk_new_event "ACL_RULE_CREATED" "warn" (Some "usr-1") (Some "ann") (Some "r1") None message
    (Some "127.0.0.1") None (JObj [("rule", JStr "r1")]).

Definition append_sample (message : string) (l : @ledger string) : @ledger string :=
  (appendEvent Some JStr sample_crypto sample_settings (sample_event message) "2026-01-02T03:04:05.678Z" l).2.

Definition ledger1 : @ledger string := Eval vm_compute in append_sample "first" (mk_ledger [] [] 0).
Definition checkpointed : outcome checkpoint * @ledger string := Eval vm_compute in createCheckpoint sample_crypto ledger1.
Definition ledger2 : @ledger string := Eval vm_compute in append_sample "second" checkpointed.2.
Definition first_event : @event string := Eval vm_compute in
  default (mk_event 0 None None None "" "" None None None None "" None None "" "" None 1 None) (head (events ledger1)).
Definition first_text : string := Eval vm_compute in
  match canonicalizeEvent JStr first_event with Ok t => t | Throw _ _ => "" end.
Definition sample_checkpoint : checkpoint := Eval vm_compute in
  match checkpointed.1 with Ok cp => cp | Throw _ _ => mk_checkpoint 0 0 "" "" "" end.

Lemma canonicalizeEvent_v2_injective_witness : same_content first_event first_event.
Proof.
  apply (canonicalizeEvent_v2_injective JStr first_event first_event first_text);
    first [eexists; reflexivity | vm_compute; reflexivity].
Defined.

Lemma ledger1_verified : fully_verified Some JStr sample_crypto sample_settings ledger1.
Proof. do 8 eexists. vm_compute. reflexivity. Defined.

Lemma ledger2_verified : fully_verified Some JStr sample_crypto sample_settings ledger2.
Proof. do 8 eexists. vm_compute. reflexivity. Defined.


Lemma written_ledger_verifies_witness :
  ∃ h, verifyChain Some JStr sample_crypto sample_settings ledger1 1 None "k" =
         Ok (Valid 1 1 (Some h) 0 0 1 "canonical-v2" 0 0).
Proof.
  eexists. etransitivity.
  - apply (written_ledger_verifies Some JStr sample_crypto sample_settings).
    + intros k x. discriminate.
    + intros d. apply String.eqb_refl.
    + exact (written_append Some JStr sample_crypto sample_settings (mk_ledger [] [] 0) (sample_event "first")
               "2026-01-02T03:04:05.678Z" (written_empty _ _ _ _)).
  - vm_compute. reflexivity.
Defined.

(** The version 1 text joins its fields with a bar, so moving a bar moves text
    between columns: two different events, one canonical text, and the same MAC
    whatever the key. *)
Definition v1_event (username target : string) : @event string :=
  mk_event 1 (Some 1) (Some GENESIS_HASH) None "LOGIN" "info" (Some "usr-1") (Some username) (Some target) None
    "m" None None "" "2026-01-02T03:04:05.678000Z" (Some "key") 1 None.

Example canonical_v1_ambiguous :
  v1_event "ann|root" "x" ≠ v1_event "ann" "root|x" ∧
  canonicalizeEvent JStr (v1_event "ann|root" "x") = canonicalizeEvent JStr (v1_event "ann" "root|x").
Proof. split; [discriminate|vm_compute; reflexivity]. Qed.
