(* ===== verification/Access.v ===== *)
(** * Who may do what on the console

    [middleware/rbac.js], [middleware/ownership.js],
    [middleware/permissionMatrix.js], the role guards of [middleware/auth.js], and
    the handlers of [routes/acl.js] behind them.  A middleware either passes the
    request on or answers it; what it attaches to the request is returned. *)

From S2P Require Import Prelude Order Js Json Cidr Db Acl AuditChain.

(** The principal [authenticateToken] attaches to a request. *)
Module Principal.
Record t := mk {
  id : string; username : string; role : string; organization_id : option string;
  org_role : option string; compartment_access : option string; access_tier : option string;
}.
End Principal.

(** What a handler or middleware answers. *)
Inductive verdict (A : Type) : Type :=
  | Next (a : A)
  | Answer (status : Z) (error : string).
Arguments Next {A} a.
Arguments Answer {A} status error.

(** [a || b] on nullable text. *)
Definition or_else (a b : option string) : option string :=
  match a with Some s => if (s =? "")%string then b else a | None => b end.
Definition or_text (a : option string) (d : string) : string := default d (or_else a (Some d)).

Definition MUTATING : list string := ["POST"; "PUT"; "DELETE"; "PATCH"].
Definition is_mutating (method : string) : bool := bool_decide (method ∈ MUTATING).
Definition is_read_only (role : string) : bool := (role =? "auditor")%string || (role =? "viewer")%string.

Module Rbac.

(** [req.user.org_role || req.user.role]. *)
Definition effective_role (u : Principal.t) : string := or_text (Principal.org_role u) (Principal.role u).

Definition is_super (u : Principal.t) : bool := (Principal.role u =? "super-admin")%string.

Definition resolveUserOrg (user : option Principal.t) (d : Db.t) : option Principal.t :=
  u ← user;
  Some (
    if (Principal.id u =? "")%string then u
    else match or_else (Principal.organization_id u) None, or_else (Principal.org_role u) None with
    | Some _, Some _ => u
    | own, _ =>
        let stored := select1 (λ x, (User.id x =? Principal.id u)%string) (Db.users d) ≫= User.organization_id in
        let org := or_text own (or_text stored "org-default") in
        let role := match select1 (λ m, (Membership.user_id m =? Principal.id u)%string &&
                                        (Membership.organization_id m =? org)%string) (Db.memberships d) with
                    | Some m => Membership.role m
                    | None => if is_super u then "owner" else "member"
                    end in
        u <| Principal.organization_id := Some org |> <| Principal.org_role := Some role |>
    end).

Definition requireRole (roles : list string) (user : option Principal.t) : verdict unit :=
  match user with
  | None => Answer 401 "Authentication required"
  | Some u =>
      if is_super u then Next tt
      else if negb (bool_decide (effective_role u ∈ roles))
      then Answer 403 "Forbidden: insufficient role permissions" else Next tt
  end.

Definition requireOrgRole (roles : list string) (user : option Principal.t) : verdict unit :=
  match user with
  | None => Answer 401 "Authentication required"
  | Some u =>
      if is_super u then Next tt
      else if negb (bool_decide (effective_role u ∈ roles))
      then Answer 403 "Forbidden: insufficient organizational role permissions" else Next tt
  end.

Definition requireNotAuditor (method : string) (user : option Principal.t) : verdict unit :=
  match user with
  | None => Answer 401 "Authentication required"
  | Some u =>
      if is_read_only (effective_role u) && is_mutating method
      then Answer 403 "Forbidden: read-only role cannot perform mutating operations" else Next tt
  end.

Definition requireSuperAdmin (user : option Principal.t) : verdict unit :=
  match user with
  | None => Answer 401 "Authentication required"
  | Some u => if is_super u then Next tt else Answer 403 "Forbidden: platform super-admin role required"
  end.
End Rbac.

(** The guards of [middleware/auth.js], on the platform role alone. *)
Module AuthGuards.
Definition requireRole (roles : list string) (user : option Principal.t) : verdict unit :=
  match user with
  | None => Answer 401 "Authentication required"
  | Some u => if negb (bool_decide (Principal.role u ∈ roles))
              then Answer 403 "Forbidden: insufficient role permissions" else Next tt
  end.

(** [id] and [userId] are the route parameters. *)
Definition requireSelfOrAdmin (id userId : option string) (user : option Principal.t) : verdict unit :=
  match user with
  | None => Answer 401 "Authentication required"
  | Some u =>
      let targetId := match or_else id None with Some t => Some t | None => userId end in
      if Rbac.is_super u || opt_is targetId (Principal.id u) then Next tt
      else Answer 403 "Forbidden: cannot access another user resource"
  end.
End AuthGuards.

Module Ownership.
Import Rbac.

(** The row of the addressed table, as the query selects it. *)
Record owned := mk_owned { owner : option string; organization_id : option string }.

Definition ELEVATED : list string := ["owner"; "admin"; "network_admin"; "auditor"].

(** [rows id] is the addressed table; the result is what is attached to the
    request. *)
Definition requireOwnership (rows : string → option owned) (param : string) (id : option string)
    (method : string) (u : Principal.t) : verdict owned :=
  match or_else id None with
  | None => Answer 400 ("missing " +:+ param)
  | Some id =>
      match rows id with
      | None => Answer 404 "not found"
      | Some row =>
          if is_super u then Next row else
          let rowOrg := or_else (organization_id row) None in
          let userOrg := or_else (Principal.organization_id u) None in
          let both := match rowOrg, userOrg with Some _, Some _ => true | _, _ => false end in
          if both && negb (bool_decide (rowOrg = userOrg)) then Answer 404 "not found" else
          let orgRole := effective_role u in
          if both && bool_decide (rowOrg = userOrg) && bool_decide (orgRole ∈ ELEVATED) then
            if is_read_only orgRole && is_mutating method
            then Answer 403 "Forbidden: read-only role cannot mutate resource" else Next row
          else if negb (opt_is (owner row) (Principal.id u)) then Answer 404 "not found"
          else Next row
      end
  end.

Definition node_row (d : Db.t) (id : string) : option owned :=
  (λ n, mk_owned (Some (Node.user_id n)) (Node.organization_id n)) <$>
    select1 (λ n, (Node.id n =? id)%string) (Db.nodes d).

Definition requireNodeOwnership (d : Db.t) (id : option string) (method : string) (u : Principal.t) :
    verdict owned := requireOwnership (node_row d) "id" id method u.

(** Tenants cannot see each other's rows, nor tell that they exist.  A
    caller who is not a super-admin passes the ownership guard only for a row of
    their own organisation, or for their own row when the row or the caller has
    no organisation; a row of another organisation is answered exactly as a row
    that does not exist, whatever the method; and a caller whose role is auditor
    never mutates a row of their organisation. *)
Theorem ownership_isolation (rows : string → option owned) param id method u :
  is_super u = false →
  (∀ row, requireOwnership rows param (Some id) method u = Next row →
     rows id = Some row ∧
     (or_else (organization_id row) None = or_else (Principal.organization_id u) None ∨
      owner row = Some (Principal.id u) ∧
      (or_else (organization_id row) None = None ∨ or_else (Principal.organization_id u) None = None))) ∧
  (∀ row a b, rows id = Some row → or_else (organization_id row) None = Some a →
     or_else (Principal.organization_id u) None = Some b → a ≠ b →
     requireOwnership rows param (Some id) method u = requireOwnership (λ _, None) param (Some id) method u) ∧
  (∀ row a, rows id = Some row → or_else (organization_id row) None = Some a →
     or_else (Principal.organization_id u) None = Some a → effective_role u = "auditor" →
     is_mutating method = true → ∃ st e, requireOwnership rows param (Some id) method u = Answer st e).
Proof.
  intros Hsup. unfold requireOwnership. simpl. destruct (id =? "")%string.
  { split; [intros ?; discriminate|]. split; [done|eauto]. }
  split; [|split].
  - intros row H. destruct (rows id) as [row'|]; [|discriminate]. rewrite Hsup in H.
    destruct (or_else (organization_id row') None) as [a|] eqn:Ero,
      (or_else (Principal.organization_id u) None) as [b|] eqn:Euo; simpl in H.
    + destruct (bool_decide (Some a = Some b)) eqn:E; [|discriminate]. b2p. simpl in H.
      repeat case_match; simplify_eq; rewrite Ero; auto.
    + destruct (opt_is (owner row') (Principal.id u)) eqn:Eo; [|discriminate]. simpl in H. simplify_eq.
      split; [done|]. right. unfold opt_is in Eo. destruct (owner row); b2p; [|done]. split; [by f_equal|by right].
    + destruct (opt_is (owner row') (Principal.id u)) eqn:Eo; [|discriminate]. simpl in H. simplify_eq.
      split; [done|]. right. unfold opt_is in Eo. destruct (owner row); b2p; [|done]. split; [by f_equal|by left].
    + destruct (opt_is (owner row') (Principal.id u)) eqn:Eo; [|discriminate]. simpl in H. simplify_eq.
      split; [done|]. left. by rewrite Ero.
  - intros row a b -> -> -> Hne. rewrite Hsup. rewrite bool_decide_eq_false_2 by congruence. done.
  - intros row a -> -> -> Hr Hm. rewrite Hsup, Hr, Hm. rewrite bool_decide_eq_true_2 by done. simpl. eauto.
Qed.

Definition sample_user (role : string) : Principal.t :=
  Principal.mk "usr-2" "bob" "user" (Some "org-a") (Some role) None None.

Lemma ownership_isolation_witness :
  requireOwnership (λ _, Some (mk_owned (Some "usr-1") (Some "org-b"))) "id" (Some "n3") "GET" (sample_user "admin") =
  requireOwnership (λ _, None) "id" (Some "n3") "GET" (sample_user "admin").
Proof.
  destruct (ownership_isolation (λ _, Some (mk_owned (Some "usr-1") (Some "org-b"))) "id" "n3" "GET"
    (sample_user "admin") eq_refl) as (_ & H & _).
  apply (H (mk_owned (Some "usr-1") (Some "org-b")) "org-b" "org-a"); [reflexivity|reflexivity|reflexivity|discriminate].
Defined.

(** The read-only branch is guarded by a list that does not hold [viewer]: a
    viewer deletes a node they own. *)
Example viewer_mutates_own_row :
  requireOwnership (λ _, Some (mk_owned (Some "usr-2") (Some "org-a"))) "id" (Some "n1") "DELETE" (sample_user "viewer")
    = Next (mk_owned (Some "usr-2") (Some "org-a")).
Proof. reflexivity. Qed.
End Ownership.

Module PermissionMatrix.
Import Rbac.

Record entry := mk_entry { method : string; path : string; roles : list string; rule : string }.

Definition PERMISSION_MATRIX : list entry := [
  mk_entry "GET" "/api/health"
    ["*"] "public";
  mk_entry "GET" "/api/status"
    ["*"] "public";
  mk_entry "GET" "/api/version"
    ["*"] "public";
  mk_entry "POST" "/api/auth/register"
    ["*"] "public";
  mk_entry "POST" "/api/auth/login"
    ["*"] "public";
  mk_entry "POST" "/api/auth/mfa/setup"
    ["super-admin"; "owner"; "admin"; "network_admin"; "auditor"; "member"; "user"] "self";
  mk_entry "POST" "/api/auth/mfa/verify"
    ["*"] "public";
  mk_entry "POST" "/api/auth/refresh"
    ["*"] "public";
  mk_entry "GET" "/api/auth/me"
    ["super-admin"; "owner"; "admin"; "network_admin"; "auditor"; "member"; "user"] "self";
  mk_entry "POST" "/api/auth/logout"
    ["super-admin"; "owner"; "admin"; "network_admin"; "auditor"; "member"; "user"] "self";
  mk_entry "POST" "/api/auth/setup-passwords"
    ["super-admin"; "owner"; "admin"; "network_admin"; "auditor"; "member"; "user"] "self";
  mk_entry "GET" "/api/users"
    ["super-admin"; "owner"; "admin"] "org";
  mk_entry "POST" "/api/users"
    ["super-admin"; "owner"; "admin"] "org";
  mk_entry "GET" "/api/users/:id"
    ["super-admin"; "owner"; "admin"; "network_admin"; "auditor"; "member"; "user"] "self";
  mk_entry "PUT" "/api/users/:id"
    ["super-admin"; "owner"; "admin"; "network_admin"; "auditor"; "member"; "user"] "self";
  mk_entry "DELETE" "/api/users/:id"
    ["super-admin"; "owner"] "org";
  mk_entry "GET" "/api/users/:id/quota"
    ["super-admin"; "owner"; "admin"; "network_admin"; "auditor"; "member"; "user"] "self";
  mk_entry "GET" "/api/organizations"
    ["super-admin"; "owner"; "admin"; "network_admin"; "auditor"; "member"; "user"] "org";
  mk_entry "POST" "/api/organizations"
    ["super-admin"] "platform";
  mk_entry "GET" "/api/organizations/:id"
    ["super-admin"; "owner"; "admin"; "network_admin"; "auditor"; "member"; "user"] "org";
  mk_entry "PUT" "/api/organizations/:id"
    ["super-admin"; "owner"; "admin"] "org";
  mk_entry "DELETE" "/api/organizations/:id"
    ["super-admin"; "owner"] "org";
  mk_entry "GET" "/api/organizations/:id/members"
    ["super-admin"; "owner"; "admin"; "network_admin"; "auditor"; "member"; "user"] "org";
  mk_entry "POST" "/api/organizations/:id/members"
    ["super-admin"; "owner"; "admin"] "org";
  mk_entry "PUT" "/api/organizations/:id/members/:userId"
    ["super-admin"; "owner"] "org";
  mk_entry "DELETE" "/api/organizations/:id/members/:userId"
    ["super-admin"; "owner"; "admin"] "org";
  mk_entry "GET" "/api/nodes"
    ["super-admin"; "owner"; "admin"; "network_admin"; "auditor"; "member"; "user"] "org";
  mk_entry "POST" "/api/nodes"
    ["super-admin"; "owner"; "admin"; "network_admin"; "member"; "user"] "org";
  mk_entry "GET" "/api/nodes/:id"
    ["super-admin"; "owner"; "admin"; "network_admin"; "auditor"; "member"; "user"] "own-node";
  mk_entry "PUT" "/api/nodes/:id"
    ["super-admin"; "owner"; "admin"; "network_admin"; "member"; "user"] "own-node";
  mk_entry "DELETE" "/api/nodes/:id"
    ["super-admin"; "owner"; "admin"] "own-node";
  mk_entry "POST" "/api/nodes/:id/quarantine"
    ["super-admin"; "owner"; "admin"] "own-node";
  mk_entry "POST" "/api/nodes/:id/release"
    ["super-admin"; "owner"; "admin"] "own-node";
  mk_entry "GET" "/api/preauth-keys"
    ["super-admin"; "owner"; "admin"; "network_admin"; "auditor"] "org";
  mk_entry "POST" "/api/preauth-keys"
    ["super-admin"; "owner"; "admin"; "network_admin"] "org";
  mk_entry "DELETE" "/api/preauth-keys/:id"
    ["super-admin"; "owner"; "admin"; "network_admin"] "org";
  mk_entry "GET" "/api/acl"
    ["super-admin"; "owner"; "admin"; "network_admin"; "auditor"] "org";
  mk_entry "POST" "/api/acl"
    ["super-admin"; "owner"; "admin"; "network_admin"] "org";
  mk_entry "DELETE" "/api/acl/:id"
    ["super-admin"; "owner"; "admin"; "network_admin"] "org";
  mk_entry "GET" "/api/risk"
    ["super-admin"; "owner"; "admin"; "network_admin"; "auditor"] "org";
  mk_entry "GET" "/api/risk/fleet"
    ["super-admin"; "owner"; "admin"; "network_admin"; "auditor"] "org";
  mk_entry "GET" "/api/stats"
    ["super-admin"; "owner"; "admin"; "network_admin"; "auditor"] "org";
  mk_entry "GET" "/api/audit"
    ["super-admin"; "owner"; "admin"; "auditor"] "org";
  mk_entry "GET" "/api/nuke/state"
    ["super-admin"; "owner"] "org";
  mk_entry "POST" "/api/nuke/arm"
    ["super-admin"; "owner"] "org";
  mk_entry "POST" "/api/nuke/disarm"
    ["super-admin"; "owner"] "org";
  mk_entry "POST" "/api/nuke/trigger"
    ["super-admin"; "owner"] "org"
].

(** The regular expression made from a template: a [:name] segment stands for
    any non-empty text without a slash, any other segment for itself. *)
Definition segment_matches (t s : string) : bool :=
  if startsWith ":" t then negb (s =? "")%string else (t =? s)%string.

Fixpoint segments_match (ts ss : list string) : bool :=
  match ts, ss with
  | [], [] => true
  | t :: ts', s :: ss' => segment_matches t s && segments_match ts' ss'
  | _, _ => false
  end.

Definition template_matches (template path : string) : bool :=
  segments_match (split "/"%char template) (split "/"%char path).

Definition findPermissionRule (m p : string) : option entry :=
  let normMethod := toUpperCase m in
  select1 (λ e, (method e =? normMethod)%string && template_matches (path e) p) PERMISSION_MATRIX.

Definition permissionMatrixMiddleware (m p : string) (user : option Principal.t) : verdict unit :=
  if startsWith "/v4/control" p || startsWith "/.well-known" p then Next tt else
  match findPermissionRule m p with
  | None => Next tt
  | Some r =>
      if (rule r =? "public")%string then Next tt else
      match user with
      | None => Answer 401 "Authentication required"
      | Some u =>
          if is_super u then Next tt else
          let userRole := or_text (or_else (Principal.org_role u) (Some (Principal.role u))) "user" in
          if negb (bool_decide ("*" ∈ roles r)) && negb (bool_decide (userRole ∈ roles r))
          then Answer 403 "Forbidden: insufficient role permissions"
          else if is_read_only userRole && is_mutating m
          then Answer 403 "Forbidden: read-only role cannot mutate resources"
          else Next tt
      end
  end.

(** Two templates that some path could match both. *)
Definition segments_overlap (t t' : string) : bool :=
  startsWith ":" t || startsWith ":" t' || (t =? t')%string.
Fixpoint templates_overlap (ts ts' : list string) : bool :=
  match ts, ts' with
  | [], [] => true
  | t :: ts, t' :: ts' => segments_overlap t t' && templates_overlap ts ts'
  | _, _ => false
  end.

Lemma overlap_complete ts ts' ss :
  segments_match ts ss = true → segments_match ts' ss = true → templates_overlap ts ts' = true.
Proof.
  revert ts ts'. induction ss as [|s ss IH]; intros [|t ts] [|t' ts'] H H'; try done. simpl in *. b2p.
  apply andb_true_iff. split; [|by apply IH]. unfold segment_matches, segments_overlap in *.
  destruct (startsWith ":" t), (startsWith ":" t'); simpl in *; try done. b2p. subst. apply String.eqb_refl.
Qed.

(** No two entries of the table compete for a request. *)
Fixpoint no_overlap (l : list entry) : bool :=
  match l with
  | [] => true
  | e :: l' => forallb (λ e', negb ((method e =? method e')%string &&
                 templates_overlap (split "/"%char (path e)) (split "/"%char (path e')))) l' && no_overlap l'
  end.

Lemma matrix_no_overlap : no_overlap PERMISSION_MATRIX = true.
Proof. vm_compute. reflexivity. Qed.

Lemma no_overlap_unique l m p e :
  no_overlap l = true → e ∈ l → method e = m → template_matches (path e) p = true →
  select1 (λ e, (method e =? m)%string && template_matches (path e) p) l = Some e.
Proof.
  induction l as [|x l IH]; intros Hn He Hm Hp; [by apply not_elem_of_nil in He|].
  simpl in Hn. b2p. unfold select1. rewrite where_cons. apply elem_of_cons in He as [<-|He].
  { by rewrite Hm, String.eqb_refl, Hp. }
  destruct ((method x =? m)%string && template_matches (path x) p) eqn:Ex; [|by apply IH].
  exfalso. b2p. rewrite forallb_forall in H. specialize (H e (proj1 (list_elem_of_In _ _) He)).
  apply negb_true_iff in H. unfold template_matches in *.
  rewrite (overlap_complete _ _ _ H2 Hp) in H. rewrite H1, Hm, String.eqb_refl in H. discriminate.
Qed.

(** What an entry grants. *)
Definition granted (e : entry) (m : string) (user : option Principal.t) : Prop :=
  rule e = "public" ∨
  ∃ u, user = Some u ∧
    (is_super u = true ∨
     let r := or_text (or_else (Principal.org_role u) (Some (Principal.role u))) "user" in
     ("*" ∈ roles e ∨ r ∈ roles e) ∧ (is_read_only r = true → is_mutating m = false)).

(** The permission matrix means what it lists.  For every entry of the table
    and every request on that entry's method and path template (outside the two
    node prefixes), the middleware lets the request through exactly when the
    entry is public, or the caller is a super-admin, or the caller's role is
    listed and is not a read-only role asking to mutate.  The order of the table
    does not matter: no request matches two entries. *)
Theorem permission_matrix_decides e m p user :
  e ∈ PERMISSION_MATRIX → method e = toUpperCase m → template_matches (path e) p = true →
  startsWith "/v4/control" p = false → startsWith "/.well-known" p = false →
  permissionMatrixMiddleware m p user = Next tt ↔ granted e m user.
Proof.
  intros He Hm Hp H1 H2. unfold permissionMatrixMiddleware, findPermissionRule. rewrite H1, H2. cbv zeta. simpl orb.
  cbv iota. rewrite (no_overlap_unique _ _ _ _ matrix_no_overlap He Hm Hp). unfold granted.
  destruct (String.eqb_spec (rule e) "public") as [E|E]; [tauto|].
  destruct user as [u|].
  2: { split; [discriminate|]. intros [?|(u & ? & _)]; done. }
  destruct (is_super u) eqn:Es.
  { split; [|done]. intros _. right. eauto. }
  cbv zeta. set (r := or_text _ _).
  split.
  - intros H. right. exists u. split; [done|]. right.
    destruct (negb (bool_decide ("*" ∈ roles e)) && negb (bool_decide (r ∈ roles e))) eqn:Er; [discriminate|].
    destruct (is_read_only r && is_mutating m) eqn:Em; [discriminate|]. split.
    + b2p. destruct Er; b2p; auto.
    + intros Hr. change (is_read_only r = true) in Hr. by rewrite Hr in Em.
  - intros [?|(u' & [= <-] & [?|[Hr Hm']])]; [done|congruence|].
    fold r in Hr, Hm'.
    assert (negb (bool_decide ("*" ∈ roles e)) && negb (bool_decide (r ∈ roles e)) = false) as ->.
    { destruct Hr as [Hr|Hr]; rewrite (bool_decide_eq_true_2 _ Hr); [done|apply andb_false_r]. }
    destruct (is_read_only r); [rewrite Hm' by done|]; done.
Qed.

Lemma permission_matrix_decides_witness :
  permissionMatrixMiddleware "DELETE" "/api/nodes/n1" (Some (Ownership.sample_user "viewer")) = Next tt ↔
  granted (mk_entry "DELETE" "/api/nodes/:id" ["super-admin"; "owner"; "admin"] "own-node") "DELETE"
    (Some (Ownership.sample_user "viewer")).
Proof.
  apply permission_matrix_decides; [|reflexivity|vm_compute; reflexivity|reflexivity|reflexivity].
  unfold PERMISSION_MATRIX. repeat (first [apply list_elem_of_here | apply list_elem_of_further]).
Defined.

(** A route the table does not list is passed on to the router, although the
    comment beside the branch says default-deny. *)
Example unlisted_route_passes :
  permissionMatrixMiddleware "DELETE" "/api/geofencing/zones/z1" None = Next tt.
Proof. vm_compute. reflexivity. Qed.
End PermissionMatrix.
