(* ===== verification/AclRoutes.v ===== *)
(** * The handlers of [routes/acl.js]

    Each handler with its guards, its statements and its audit record.  The store
    of a handler is the database and the audit ledger.  [req.user] comes from
    [authenticateToken] and [resolveUserOrg]. *)

From S2P Require Import Prelude Order Js Json Cidr Db Acl AuditChain AuditFacts Access.
Import Audit AuditLog.

Module AclRoutes.
Section Handlers.
Context {J : Type} `{!EqDecision J} (to_jsonb : string → option J) (decode : J → jsval) (cr : crypto)
  (cfg : settings) {Coll : Collation}.

Record world := mk_world { db : Db.t; audit : @audit_state J }.

Definition on_db {A} (m : eff Db.t A) : eff world A :=
  λ w, let '(o, d) := m (db w) in (o, mk_world d (audit w)).

Definition logAuditEvent (n : new_event) (severity : jsval) (now : string) : eff world (option event) :=
  λ w, let '(o, a) := writeAuditEvent to_jsonb decode cr cfg n severity now (audit w) in (o, mk_world (db w) a).

(** A request after authentication. *)
Record request := mk_request { user : Principal.t; body : jsval; ip : option string }.

Definition acl_event (r : request) (eventType targetId targetType message : string) : new_event :=
  mk_new_event eventType "warn" (Some (Principal.id (user r))) (Some (Principal.username (user r)))
    (Some targetId) (Some targetType) message (Some (default "127.0.0.1" (ip r))) None (JObj []).

Definition requireAclAdmin (r : request) : verdict unit :=
  AuthGuards.requireRole ["super-admin"; "admin"] (Some (user r)).

Definition isSuperAdmin (r : request) : bool := Rbac.is_super (user r).
Definition orgOf (r : request) : string := or_text (Principal.organization_id (user r)) "org-default".
Definition accessTierOf (r : request) : string :=
  or_text (Principal.compartment_access (user r)) (or_text (Principal.access_tier (user r)) "standard").

Definition rulesVisibleTo (r : request) (d : Db.t) : list Rule.t :=
  if isSuperAdmin r then Acl.listRules None d else Acl.listRules (Some (Some (orgOf r))) d.

Definition policyIsOpen (r : request) (rules : list Rule.t) (d : Db.t) : bool :=
  match rules with
  | _ :: _ => false
  | [] => match select1 (λ o, (Org.id o =? orgOf r)%string) (Db.organizations d) with
          | Some o => (Org.default_policy o =? "open")%string
          | None => false
          end
  end.

Definition READ_ALL_ROLES : list string := ["owner"; "admin"; "network_admin"; "auditor"].

(** [COALESCE(c.is_hidden, FALSE)] of a node's effective compartment. *)
Definition node_hidden (d : Db.t) (n : Node.t) : bool :=
  Acl.is_hidden_compartment d (Acl.EFFECTIVE_COMPARTMENT n).

Definition readableNode (r : request) (nodeId : string) (adminView : bool) (d : Db.t) : option Node.t :=
  n ← select1 (λ n, (Node.id n =? nodeId)%string) (Db.nodes d);
  if node_hidden d n && negb (accessTierOf r =? "root")%string then None
  else if isSuperAdmin r then Some n
  else if negb (Acl.org_of n =? orgOf r)%string then None
  else if adminView || bool_decide (default "" (Principal.org_role (user r)) ∈ READ_ALL_ROLES) then Some n
  else if (Node.user_id n =? Principal.id (user r))%string then Some n else None.

Definition hidden_vips (org : option string) (d : Db.t) : list string :=
  Node.overlay_ipv4 <$> where_ (λ n, node_hidden d n && bool_decide (Some (Acl.org_of n) = org)) (Db.nodes d).

Definition withoutHiddenPeers (r : request) (policy : Policy.t) (d : Db.t) : Policy.t :=
  if (accessTierOf r =? "root")%string then policy else
  let hidden := hidden_vips (Acl.nodeOrganization (Policy.node_id policy) d) d in
  let keep (e : Entry.t) := negb (bool_decide (Entry.allowed_peer_vip e ∈ hidden)) in
  policy <| Policy.inbound_rules ::= where_ keep |> <| Policy.outbound_rules ::= where_ keep |>.

Definition findManageableRule (r : request) (id : string) (d : Db.t) : option Rule.t :=
  rule ← select1 (λ x, (Rule.id x =? id)%string) (Acl.listRules None d);
  if isSuperAdmin r then Some rule
  else if opt_is (Rule.organization_id rule) (orgOf r) then Some rule else None.

(** *** GET /rules *)
Definition get_rules (r : request) (d : Db.t) : list Rule.t * Z * bool * Z :=
  let rules := rulesVisibleTo r d in
  (rules, Acl.getEpoch "acl" d, policyIsOpen r rules d, Z.of_nat (length rules)).

(** *** POST /rules

    A platform rule (no organisation) is the super-admin's default; a truthy
    [organization_id] in the body reaches the column as its text. *)
Definition post_rule (random : string) (r : request) (now : string) : eff world (verdict (option Rule.t * Z)) :=
  match requireAclAdmin r with
  | Answer st e => eff_ret (Answer st e)
  | Next _ =>
      let b := js_or (body r) (JObj []) in
      let organizationId :=
        if isSuperAdmin r
        then (if truthy (field "organization_id" b) then Some (js_String (field "organization_id" b)) else None)
        else Some (orgOf r) in
      id <-! on_db (Acl.createRule random b organizationId) ;
      w <-! get ;
      let created := select1 (λ x, (Rule.id x =? id)%string) (Acl.listRules None (db w)) in
      let shown (f : Rule.t → string) := from_option f "undefined" created in
      logAuditEvent (acl_event r "ACL_RULE_CREATED" id "acl_rule"
        ("ACL rule " +:+ id +:+ " created: " +:+ shown Rule.source_cidr +:+ " -> " +:+ shown Rule.destination_cidr
         +:+ " " +:+ shown Rule.action)) (JStr "warn") now ;!
      w <-! get ;
      eff_ret (Next (created, Acl.getEpoch "acl" (db w)))
  end.

Definition no_rule {A} (id : string) : eff world (verdict A) := eff_ret (Answer 404 ("no ACL rule " +:+ id)).

(** *** PUT /rules/:id *)
Definition put_rule (id : string) (r : request) (now : string) : eff world (verdict (Rule.t * Z)) :=
  match requireAclAdmin r with
  | Answer st e => eff_ret (Answer st e)
  | Next _ =>
      w <-! get ;
      match findManageableRule r id (db w) with
      | None => no_rule id
      | Some _ =>
          updated <-! on_db (Acl.updateRule id (js_or (body r) (JObj []))) ;
          match updated with
          | None => no_rule id
          | Some u =>
              logAuditEvent (acl_event r "ACL_RULE_UPDATED" id "acl_rule"
                ("ACL rule " +:+ id +:+ " updated: " +:+ Rule.source_cidr u +:+ " -> " +:+ Rule.destination_cidr u
                 +:+ " " +:+ Rule.action u)) (JStr "warn") now ;!
              w <-! get ;
              eff_ret (Next (u, Acl.getEpoch "acl" (db w)))
          end
      end
  end.

(** *** DELETE /rules/:id *)
Definition delete_rule (id : string) (r : request) (now : string) : eff world (verdict (string * Z * bool)) :=
  match requireAclAdmin r with
  | Answer st e => eff_ret (Answer st e)
  | Next _ =>
      w <-! get ;
      match findManageableRule r id (db w) with
      | None => no_rule id
      | Some _ =>
          on_db (Acl.deleteRule id) ;!
          logAuditEvent (acl_event r "ACL_RULE_DELETED" id "acl_rule" ("ACL rule " +:+ id +:+ " deleted"))
            (JStr "warn") now ;!
          w <-! get ;
          eff_ret (Next (id, Acl.getEpoch "acl" (db w), policyIsOpen r (rulesVisibleTo r (db w)) (db w)))
      end
  end.

(** *** GET and PUT /default-policy *)
Definition get_default_policy (r : request) (d : Db.t) : string * string :=
  (orgOf r, match select1 (λ o, (Org.id o =? orgOf r)%string) (Db.organizations d) with
            | Some o => or_text (Some (Org.default_policy o)) "deny"
            | None => "deny"
            end).

Definition put_default_policy (r : request) (now : string) : eff world (verdict (string * string * Z)) :=
  match requireAclAdmin r with
  | Answer st e => eff_ret (Answer st e)
  | Next _ =>
      match field "default_policy" (js_or (body r) (JObj [])) with
      | JStr p =>
          if bool_decide (p ∈ ["open"; "deny"]) then
            let orgId := orgOf r in
            on_db (modify (λ d, d <| Db.organizations ::= update_where (λ o, (Org.id o =? orgId)%string)
                                        (λ o, o <| Org.default_policy := p |>) |>)) ;!
            on_db (Acl.bumpEpoch "acl") ;!
            logAuditEvent (acl_event r "ACL_DEFAULT_POLICY_CHANGED" orgId "organization"
              ("Organization " +:+ orgId +:+ " default policy changed to " +:+ p)) (JStr "warn") now ;!
            w <-! get ;
            eff_ret (Next (orgId, p, Acl.getEpoch "acl" (db w)))
          else eff_ret (Answer 400 ("default_policy must be either " +:+ quote "open" +:+ " or " +:+ quote "deny"))
      | _ => eff_ret (Answer 400 ("default_policy must be either " +:+ quote "open" +:+ " or " +:+ quote "deny"))
      end
  end.

(** *** POST /simulate, with texts for the addresses and the protocol *)
Definition simulate (r : request) (d : Db.t) : verdict Acl.sim_result :=
  let b := js_or (body r) (JObj []) in
  if negb (truthy (field "source_ip" b)) || negb (truthy (field "destination_ip" b))
  then Answer 400 "source_ip and destination_ip are required"
  else
    let port := field "port" b in
    Next (Acl.simulatePacket (js_String (field "source_ip" b)) (js_String (field "destination_ip" b))
            (js_String (js_or (field "protocol" b) (JStr "ALL")))
            (if is_undef port then of_Z 0 else js_Number port)
            (Some (get_default_policy r d).2) (Some (Some (orgOf r))) (accessTierOf r) d).

(** *** GET /compiled/:nodeId *)
Definition compiled (nodeId : string) (r : request) (d : Db.t) : verdict Policy.t :=
  let notFound := Answer 404 ("no node " +:+ nodeId) in
  match readableNode r nodeId false d with
  | None => notFound
  | Some _ =>
      match Acl.compilePolicyFor nodeId d with
      | None => notFound
      | Some policy => Next (withoutHiddenPeers r policy d)
      end
  end.
End Handlers.
End AclRoutes.

Module AclRoutesFacts.
Import AclRoutes Acl AclFacts RuleOps.
Section Facts.
Context {J : Type} `{!EqDecision J} (to_jsonb : string → option J) (decode : J → jsval) (cr : crypto)
  (cfg : settings) {Coll : Collation}.
Implicit Types (r : request) (w : @world J) (d : Db.t).

(** The rules of the other tenants, and of the platform. *)
Definition foreign_rules (org : string) (d : Db.t) : list Rule.t :=
  where_ (λ x, negb (opt_is (Rule.organization_id x) org)) (Db.acl_rules d).

Lemma logAudit_db n sev now w o w' :
  logAuditEvent to_jsonb decode cr cfg n sev now w = (o, w') → db w' = db w.
Proof.
  unfold logAuditEvent. destruct (writeAuditEvent _ _ _ _ _ _ _ _) as [o' a]. intros [= _ <-]. done.
Qed.

Lemma on_db_run {A} (m : eff Db.t A) w o w' :
  on_db m w = (o, w') → ∃ d', m (db w) = (o, d') ∧ db w' = d'.
Proof. unfold on_db. destruct (m (db w)) as [o' d']. intros [= -> <-]. eauto. Qed.

Lemma bump_rules name d : Db.acl_rules (bumpEpoch name d).2 = Db.acl_rules d.
Proof. apply bump_tables. Qed.

Lemma bump_orgs name d : Db.organizations (bumpEpoch name d).2 = Db.organizations d.
Proof. apply bump_tables. Qed.

Lemma foreign_bump org name d : foreign_rules org (bumpEpoch name d).2 = foreign_rules org d.
Proof. unfold foreign_rules. by rewrite bump_rules. Qed.

Lemma createRule_foreign random b org d o d' :
  createRule random b (Some org) d = (o, d') → foreign_rules org d' = foreign_rules org d.
Proof.
  destruct o as [id|st m]; intros H.
  - apply createRule_ok in H as (x & _ & _ & Ho & _ & _ & ->). rewrite foreign_bump. unfold foreign_rules. simpl.
    rewrite where_app, where_cons, Ho. simpl. rewrite String.eqb_refl. apply app_nil_r.
  - by apply createRule_throw in H as ->.
Qed.

(** The rewritten row keeps its tenant. *)
Lemma updateRule_row id b d res d' :
  updateRule id b d = (Ok res, d') →
  d' = d ∨ ∃ e x, find_rule id d = Some e ∧ Rule.organization_id x = Rule.organization_id e ∧
    d' = (bumpEpoch "acl" (d <| Db.acl_rules ::= update_where (λ y, (Rule.id y =? id)%string) (λ _, x) |>)).2.
Proof.
  unfold updateRule. intros H. run_inv. destruct (find_rule id _) as [existing|] eqn:Ef; [|run_inv; by left].
  right. run_inv. reads_inv.
  match goal with H : or_db_error _ _ = _ |- _ => apply or_db_error_ok in H as [Hr ->] end.
  destruct (rule_row_ok _ _); [|unfold db_error in H; run_inv]. run_inv.
  match goal with H : bumpEpoch _ _ = _ |- _ => apply bumpEpoch_ok in H as [_ ->] end.
  repeat (apply bind_Some in Hr as (? & ? & Hr)). injection Hr as <-. simpl in *.
  eexists _, _. split_and!; [reflexivity| |reflexivity]. done.
Qed.

(** A manageable rule is the one with its id, and the caller's own. *)
Lemma manageable_own r id d rule x :
  unique_keys d → isSuperAdmin r = false → findManageableRule r id d = Some rule →
  x ∈ Db.acl_rules d → Rule.id x = id → opt_is (Rule.organization_id x) (orgOf r) = true.
Proof.
  intros Hu Hs H Hx Hid. unfold findManageableRule in H. apply bind_Some in H as (y & Hy & H). rewrite Hs in H.
  apply select1_elem in Hy as [Hyi Hy]. apply elem_of_listRules in Hy as [Hy _]. b2p.
  assert (x = y) as -> by (eapply (NoDup_fmap_inj Rule.id); [apply Hu|..]; congruence || done).
  by destruct (opt_is (Rule.organization_id y) (orgOf r)).
Qed.

Lemma updateRule_foreign r id b d rule res d' :
  unique_keys d → isSuperAdmin r = false → findManageableRule r id d = Some rule →
  updateRule id b d = (res, d') → foreign_rules (orgOf r) d' = foreign_rules (orgOf r) d.
Proof.
  intros Hu Hs Hm H. destruct res as [res|st m]; [|by apply updateRule_throw in H as ->].
  apply updateRule_row in H as [->|(e & x & He & Ho & ->)]; [done|]. rewrite foreign_bump. unfold foreign_rules. simpl.
  unfold find_rule in He. apply select1_elem in He as [Hei He]. b2p.
  apply where_update_none. intros y Hy Hyi. b2p. rewrite Ho.
  rewrite (manageable_own r id d rule y), (manageable_own r id d rule e) by done. done.
Qed.

Lemma deleteRule_foreign r id d rule o d' :
  unique_keys d → isSuperAdmin r = false → findManageableRule r id d = Some rule →
  deleteRule id d = (o, d') → foreign_rules (orgOf r) d' = foreign_rules (orgOf r) d.
Proof.
  intros Hu Hs Hm H. unfold deleteRule, eff_bind at 1, modify in H. apply bumpEpoch_ok in H as [_ ->].
  rewrite foreign_bump. unfold foreign_rules. simpl. apply where_delete_none. intros y Hy Hyi. b2p.
  rewrite (manageable_own r id d rule y) by done. done.
Qed.

(** The state-changing requests on the rules and on the default policy. *)
Inductive acl_write :=
  | PostRule (random : string)
  | PutRule (id : string)
  | DeleteRule (id : string)
  | PutDefaultPolicy.

Definition acl_effect (a : acl_write) (r : request) (now : string) (w : @world J) : @world J :=
  match a with
  | PostRule random => (post_rule to_jsonb decode cr cfg random r now w).2
  | PutRule id => (put_rule to_jsonb decode cr cfg id r now w).2
  | DeleteRule id => (delete_rule to_jsonb decode cr cfg id r now w).2
  | PutDefaultPolicy => (put_default_policy to_jsonb decode cr cfg r now w).2
  end.

Ltac world_step :=
  repeat match goal with
  | |- context [eff_bind ?m ?k ?w] =>
      unfold eff_bind at 1; destruct (m w) as [[?|? ?] ?w] eqn:?
  | H : on_db _ _ = (_, _) |- _ => apply on_db_run in H as (? & H & ?)
  | H : logAuditEvent _ _ _ _ _ _ _ _ = (_, _) |- _ => apply logAudit_db in H
  | H : get _ = _ |- _ => unfold get in H; simplify_eq
  end.

Lemma post_rule_foreign random r now w :
  isSuperAdmin r = false →
  foreign_rules (orgOf r) (db (acl_effect (PostRule random) r now w)) = foreign_rules (orgOf r) (db w).
Proof.
  intros Hs. simpl. unfold post_rule. destruct (requireAclAdmin r); [|done]. rewrite Hs.
  world_step; simpl; try match goal with H : createRule _ _ _ _ = _ |- _ => apply createRule_foreign in H end;
    congruence.
Qed.

Lemma put_rule_foreign id r now w :
  unique_keys (db w) → isSuperAdmin r = false →
  foreign_rules (orgOf r) (db (acl_effect (PutRule id) r now w)) = foreign_rules (orgOf r) (db w).
Proof.
  intros Hu Hs. simpl. unfold put_rule. destruct (requireAclAdmin r); [|done].
  unfold eff_bind at 1, get. destruct (findManageableRule r id (db w)) as [rule|] eqn:Hm; [|done].
  unfold eff_bind at 1. destruct (on_db _ w) as [[[row|]|st m] w1] eqn:E; apply on_db_run in E as (d1 & E & <-);
    eapply updateRule_foreign in E; try done.
  world_step; simpl; congruence.
Qed.

Lemma delete_rule_foreign id r now w :
  unique_keys (db w) → isSuperAdmin r = false →
  foreign_rules (orgOf r) (db (acl_effect (DeleteRule id) r now w)) = foreign_rules (orgOf r) (db w).
Proof.
  intros Hu Hs. simpl. unfold delete_rule. destruct (requireAclAdmin r); [|done].
  unfold eff_bind at 1, get. destruct (findManageableRule r id (db w)) as [rule|] eqn:Hm; [|done].
  world_step; simpl; match goal with H : deleteRule _ _ = _ |- _ => eapply deleteRule_foreign in H; [|done..] end;
    congruence.
Qed.

(** The default-policy request leaves every rule, and every tenant but the
    caller's, as they were. *)
Lemma default_policy_frame r now w :
  let w' := acl_effect PutDefaultPolicy r now w in
  Db.acl_rules (db w') = Db.acl_rules (db w) ∧
  ∀ o, Org.id o ≠ orgOf r → o ∈ Db.organizations (db w') ↔ o ∈ Db.organizations (db w).
Proof.
  simpl. unfold put_default_policy. destruct (requireAclAdmin r); [|done].
  destruct (field _ _) as [| | | |p| |]; try done. destruct (bool_decide _); [|done].
  set (f := update_where (λ o, (Org.id o =? orgOf r)%string) (λ o, o <| Org.default_policy := p |>)).
  assert (∀ o, Org.id o ≠ orgOf r → o ∈ f (Db.organizations (db w)) ↔ o ∈ Db.organizations (db w)) as Hf.
  { intros o Ho. unfold f. rewrite elem_of_update. split.
    - intros (y & Hy & ->). by destruct (String.eqb_spec (Org.id y) (orgOf r)).
    - intros Hy. exists o. split; [done|]. by apply String.eqb_neq in Ho as ->. }
  match goal with |- context [db (?x.2)] =>
    assert (db (x.2) = bump "netmap" (bump "acl" ((db w) <| Db.organizations ::= f |>))) as -> end.
  { unfold eff_bind at 1, on_db at 1, modify. simpl.
    unfold eff_bind at 1, on_db at 1. rewrite bumpEpoch_run. simpl.
    unfold eff_bind at 1. destruct (logAuditEvent _ _ _ _ _ _ _ _) as [[e|st m] w'] eqn:E; by apply logAudit_db in E. }
  by split.
Qed.

(** An ACL administrator writes only in their own tenant.  For a caller who
    is not a super-admin, no request that creates, updates or deletes a rule or
    sets the default policy, whatever its body or the rule it names and whether
    it succeeds or fails, changes a rule of another organisation or of the
    platform, or the settings of another organisation. *)
Theorem acl_admin_confined a r now w :
  unique_keys (db w) → isSuperAdmin r = false →
  let w' := acl_effect a r now w in
  foreign_rules (orgOf r) (db w') = foreign_rules (orgOf r) (db w) ∧
  (a = PutDefaultPolicy →
   ∀ o, Org.id o ≠ orgOf r → o ∈ Db.organizations (db w') ↔ o ∈ Db.organizations (db w)).
Proof.
  intros Hu Hs. destruct a as [random|id|id|].
  - split; [by apply post_rule_foreign|discriminate].
  - split; [by apply put_rule_foreign|discriminate].
  - split; [by apply delete_rule_foreign|discriminate].
  - destruct (default_policy_frame r now w) as [H1 H2]. split; [unfold foreign_rules; by rewrite H1|intros _; exact H2].
Qed.

(** Hidden compartments stay hidden.  Whatever node a caller below the root
    tier asks the compiled policy of, the answer is never that of a hidden node,
    and no entry of it carries the address of a hidden node, even when an allow
    peering makes the hidden node a legitimate peer. *)
Theorem hidden_nodes_invisible nodeId r d pol :
  unique_keys d → accessTierOf r ≠ "root" → compiled nodeId r d = Next pol →
  (∀ n, n ∈ Db.nodes d → Node.id n = nodeId → node_hidden d n = false) ∧
  (∀ h e, h ∈ Db.nodes d → node_hidden d h = true →
     e ∈ Policy.inbound_rules pol ++ Policy.outbound_rules pol → Entry.allowed_peer_vip e ≠ Node.overlay_ipv4 h).
Proof.
  intros Hu Ht H. unfold compiled in H.
  destruct (readableNode r nodeId false d) as [n|] eqn:En; [|discriminate].
  destruct (compilePolicyFor nodeId d) as [p|] eqn:Ep; [|discriminate]. injection H as <-.
  unfold readableNode in En. apply bind_Some in En as (n' & Hsel & Hn). rewrite (proj2 (String.eqb_neq _ _) Ht), andb_true_r in Hn.
  pose proof (select1_elem _ _ _ Hsel) as [Hid Hin]. b2p. split.
  - intros x Hx Hxi. assert (x = n') as -> by (eapply (NoDup_fmap_inj Node.id); [apply Hu|..]; congruence || done).
    by destruct (node_hidden d n').
  - intros h e Hh Hhid He Heq. unfold withoutHiddenPeers in He.
    rewrite (proj2 (String.eqb_neq _ _) Ht) in He. simpl in He.
    rewrite <- where_app in He. apply elem_of_where in He as [Hk He]. b2p. apply Hk. clear Hk.
    unfold compilePolicyFor in Ep. pose proof (compileFor_entry _ _ _ _ _ Ep He) as (s & q & Hs & Hq & Hv).
    assert (Policy.node_id p = nodeId) as Hpn.
    { rewrite compileFor_shape, Hs in Ep. simpl in Ep. injection Ep as <-. simpl.
      by apply nodeScope_inv in Hs as (? & _ & <- & ->). }
    rewrite Hpn. unfold hidden_vips, nodeOrganization. rewrite Hs. simpl.
    apply elem_of_policy_peers in Hq as [Hqn Hqp].
    assert (q = h) as -> by (eapply (NoDup_fmap_inj Node.overlay_ipv4); [apply Hu|..]; congruence || done).
    rewrite Hv. apply list_elem_of_fmap. exists h. split; [done|]. apply elem_of_where. split; [|done].
    rewrite Hhid. unfold is_peer in Hqp. b2p. apply bool_decide_eq_true. congruence.
Qed.
End Facts.

(** *** Concrete requests *)

#[local] Existing Instance c_collation.

Definition sample_world (d : Db.t) : @world string := mk_world d (mk_audit_state (mk_ledger [] [] 0) 0 None).

Definition sample_request (role org : string) (b : jsval) : request :=
  mk_request (Principal.mk "usr-9" "eve" role (Some org) (Some "admin") None None) b None.

Definition sample_db : Db.t := Eval vm_compute in AclSample.db.

Lemma acl_admin_confined_witness :
  foreign_rules "org-b" (db (acl_effect Some JStr sample_crypto sample_settings (DeleteRule "r1")
    (sample_request "admin" "org-b" JUndef) "2026-01-02T03:04:05.678Z" (sample_world sample_db))) =
  foreign_rules "org-b" sample_db.
Proof.
  refine (proj1 (acl_admin_confined Some JStr sample_crypto sample_settings (DeleteRule "r1")
    (sample_request "admin" "org-b" JUndef) "2026-01-02T03:04:05.678Z" (sample_world sample_db) _ _)).
  - exact AclSample.db_unique.
  - vm_compute. reflexivity.
Defined.

(** n2 sits in a hidden compartment that an allow peering joins to n1's. *)
Definition hidden_db : Db.t := Eval vm_compute in
  AclSample.db
    <| Db.nodes ::= fmap (λ n, if (Node.id n =? "n2")%string then n <| Node.compartment_id := Some "cmp-h" |> else n) |>
    <| Db.compartments := [Compartment.mk "cmp-h" "org-a" "dark" "dark" "100.64.9.0/24" true 0] |>
    <| Db.compartment_peerings := [Peering.mk "p1" "org-a" "cmp-org-a" "cmp-h" "allow" 0] |>.

Definition hidden_policy : Policy.t := Eval vm_compute in
  match compiled (Coll := c_collation) "n1" (sample_request "admin" "org-a" JUndef) hidden_db with
  | Next p => p | Answer _ _ => Policy.mk "" "" [] [] 0 end.

Lemma hidden_nodes_invisible_witness :
  Forall (λ e, Entry.allowed_peer_vip e ≠ "100.64.0.2")
    (Policy.inbound_rules hidden_policy ++ Policy.outbound_rules hidden_policy).
Proof.
  apply Forall_forall. intros e He.
  refine (proj2 (hidden_nodes_invisible (Coll := c_collation) "n1" (sample_request "admin" "org-a" JUndef) hidden_db
    hidden_policy _ _ _) (AclSample.node "n2" "100.64.0.2" (Some "org-a") (Some "cmp-h")) e _ _ He).
  - split; apply (bool_decide_unpack _); vm_compute; exact I.
  - vm_compute. discriminate.
  - vm_compute. reflexivity.
  - vm_compute. left.
  - vm_compute. reflexivity.
Defined.

(** The rule a request names is looked up among the enabled ones: once a rule is
    disabled, not even a super-admin can enable, change or delete it. *)
Example disabled_rule_unmanageable :
  let d := sample_db <| Db.acl_rules ::= fmap (λ x, x <| Rule.enabled := false |>) |> in
  (put_rule Some JStr sample_crypto sample_settings (Coll := c_collation) "r1"
     (sample_request "super-admin" "org-a" (JObj [("enabled", JBool true)])) "" (sample_world d)).1
    = Ok (Answer 404 "no ACL rule r1") ∧
  (delete_rule Some JStr sample_crypto sample_settings (Coll := c_collation) "r1"
     (sample_request "super-admin" "org-a" JUndef) "" (sample_world d)).1
    = Ok (Answer 404 "no ACL rule r1").
Proof. vm_compute. split; reflexivity. Qed.
End AclRoutesFacts.
