(* ===== verification/RateLimit.v ===== *)
(** * Request rate limiting

    [middleware/rateLimit.js]: the in-process counters, the counters shared by
    all control-plane instances through Valkey, the middleware and the limiters
    built from it.  Valkey is a parameter: [incr], [pexpire] and [pttl] are
    commands over an opaque server, [ValkeyLaws] is what their documentation
    promises, a command that fails may or may not have been executed, and the
    server's clock moves between commands.  [Date.now] is an argument.

    [FixedWindow] is the abstract contract, a sequence of windows per key that
    start at least [windowMs] apart and count from one.  [LocalFacts] and
    [SharedFacts] show that both stores implement it, the second one for any
    number of instances whose commands interleave. *)

From S2P Require Import Prelude Order Js Db.

Module RateLimit.

(** ** Requests *)

Record request := mk_request {
  ip : option string;
  remoteAddress : option string;
  authorization : option string;
  body : jsval;
  user_id : option string;
  domain : option string
}.

(** [a || b] on texts that may be absent; the empty text is falsy. *)
Definition or_text (a b : option string) : option string :=
  match a with
  | Some s => if (s =? "")%string then b else a
  | None => b
  end.

Definition clientIp (req : request) : option string :=
  or_text (ip req) (or_text (remoteAddress req) None).

(** ** In-process counters *)

Record entry := mk_entry { count : Z; resetAt : Z }.
Record local := mk_local { localCounters : gmap string entry; lastSweep : Z }.

Definition expired (now : Z) (e : entry) : bool := resetAt e <=? now.

Definition sweepLocalCounters (now : Z) (s : local) : local :=
  if now - lastSweep s <? 60000 then s
  else mk_local (base.filter (λ kv, expired now kv.2 = false) (localCounters s)) now.

Definition hitLocal (key : string) (windowMs now : Z) (s : local) : entry * local :=
  let s := sweepLocalCounters now s in
  let fresh := mk_entry 1 (now + windowMs) in
  match localCounters s !! key with
  | Some e =>
      if expired now e then (fresh, mk_local (<[key := fresh]> (localCounters s)) (lastSweep s))
      else
        let e' := mk_entry (count e + 1) (resetAt e) in
        (e', mk_local (<[key := e']> (localCounters s)) (lastSweep s))
  | None => (fresh, mk_local (<[key := fresh]> (localCounters s)) (lastSweep s))
  end.

(** ** Valkey *)

Class Valkey (V : Type) := {
  incr : string → eff V Z;
  pexpire : string → Z → eff V unit;
  pttl : string → eff V Z
}.

(** A stored counter with its expiry, as seen at time [now]. *)
Definition seen (now : Z) (o : option (Z * option Z)) : option (Z * option Z) :=
  match o with
  | Some (_, Some at_) => if at_ <=? now then None else o
  | _ => o
  end.

Definition incremented (o : option (Z * option Z)) : Z * option Z :=
  match o with Some (c, e) => (c + 1, e) | None => (1, None) end.

Definition with_expiry (at_ : Z) (o : option (Z * option Z)) : option (Z * option Z) :=
  match o with Some (c, _) => Some (c, Some at_) | None => None end.

Definition ttl_of (now : Z) (o : option (Z * option Z)) : Z :=
  match o with
  | Some (_, Some at_) => at_ - now
  | Some (_, None) => -1
  | None => -2
  end.

Definition failed {A} (r : outcome A) : Prop := match r with Ok _ => False | Throw _ _ => True end.

(** The documented behaviour of the three commands.  The last field of each
    law is the case of a command that was not executed. *)
Class ValkeyLaws (V : Type) `{!Valkey V} := {
  clock : V → Z;
  stored : V → string → option (Z * option Z);
  incr_law k v r v' : incr k v = (r, v') →
    clock v ≤ clock v' ∧
    (∀ k', k' ≠ k → seen (clock v') (stored v' k') = seen (clock v') (stored v k')) ∧
    let old := seen (clock v') (stored v k) in
    (stored v' k = Some (incremented old) ∧ (failed r ∨ r = Ok (incremented old).1)) ∨
    (seen (clock v') (stored v' k) = old ∧ failed r);
  pexpire_law k ms v r v' : pexpire k ms v = (r, v') → 0 < ms →
    clock v ≤ clock v' ∧
    (∀ k', k' ≠ k → seen (clock v') (stored v' k') = seen (clock v') (stored v k')) ∧
    let old := seen (clock v') (stored v k) in
    seen (clock v') (stored v' k) = with_expiry (clock v' + ms) old ∨
    (seen (clock v') (stored v' k) = old ∧ failed r);
  pttl_law k v r v' : pttl k v = (r, v') →
    clock v ≤ clock v' ∧
    (∀ k', seen (clock v') (stored v' k') = seen (clock v') (stored v k')) ∧
    (failed r ∨ r = Ok (ttl_of (clock v') (seen (clock v') (stored v k))))
}.

Section Shared.
Context {V : Type} `{!Valkey V}.

Definition hitValkey (key : string) (windowMs now : Z) : eff V entry :=
  count <-! incr key ;
  (if count =? 1 then pexpire key windowMs else eff_ret tt) ;!
  ttl <-! pttl key ;
  ttl <-! (if ttl <? 0 then pexpire key windowMs ;! eff_ret windowMs else eff_ret ttl) ;
  eff_ret (mk_entry count (now + ttl)).

(** ** The middleware *)

Record options := mk_options {
  name : string;
  limit : num;
  windowMs : Z;
  keyFn : request → option string;
  message : option string
}.

Record refusal := mk_refusal { status : Z; error : string; retry_after_seconds : option Z }.
Record response := mk_response { headers : list (string * string); outcome_ : option refusal }.

(** [Math.ceil(ms / 1000)] *)
Definition ceil_seconds (ms : Z) : Z := - ((- ms) / 1000).

(** [Math.max(0, limit - count)] *)
Definition remaining (limit : num) (count : Z) : num :=
  match limit with
  | NaN => NaN
  | Inf b => if b then of_Z 0 else Inf false
  | Fin m e =>
      if num_ltb (of_Z count) limit then
        (if 0 <=? e then round_ratio (Z.shiftl m e - count) 1
         else round_ratio (m - count * 2 ^ (- e)) (2 ^ (- e)))
      else of_Z 0
  end.

Definition bucket (namespace : string) (o : options) (scope : string) : string :=
  (if (namespace =? "")%string then "" else namespace +:+ ":") +:+
  "ratelimit:" +:+ name o +:+ ":" +:+ scope.

(** What the middleware answers once the request is counted. *)
Definition decide_hit (o : options) (now : Z) (st : entry) : response :=
  let reset := ceil_seconds (resetAt st - now) in
  let hs := [("RateLimit-Limit", number_to_string (limit o));
             ("RateLimit-Remaining", number_to_string (remaining (limit o) (count st)));
             ("RateLimit-Reset", pretty reset)] in
  if num_ltb (limit o) (of_Z (count st)) then
    let retryAfter := Z.max 1 reset in
    mk_response (hs ++ [("Retry-After", pretty retryAfter)])
      (Some (mk_refusal 429 (default "too many requests" (or_text (message o) None)) (Some retryAfter)))
  else mk_response hs None.

(** [None] in [outcome_] is [next()].  [client] is whether a Valkey client is
    configured. *)
Definition rateLimitMiddleware (disabled client : bool) (namespace : string) (o : options)
    (req : request) (now : Z) (s : local * V) : response * (local * V) :=
  if disabled then (mk_response [] None, s) else
  match or_text (keyFn o req) None with
  | None =>
      (mk_response [] (Some (mk_refusal 400 "request could not be attributed for rate limiting" None)), s)
  | Some scope =>
      let key := bucket namespace o scope in
      let counted :=
        if client then
          match hitValkey key (windowMs o) now s.2 with
          | (Ok st, v) => (st, (s.1, v))
          | (Throw _ _, v) => let '(st, l) := hitLocal key (windowMs o) now s.1 in (st, (l, v))
          end
        else let '(st, l) := hitLocal key (windowMs o) now s.1 in (st, (l, s.2)) in
      (decide_hit o now counted.1, counted.2)
  end.

End Shared.

(** ** The limiters *)

Section Limiters.
Context (sha256 : string → string).

Definition loginKey (req : request) : option string :=
  match clientIp req with
  | None => None
  | Some a =>
      let username := take_string 64 (toLowerCase (js_String (js_or (field "username" (body req)) (JStr "")))) in
      Some (a +:+ "|" +:+ username)
  end.

Definition nodeIdentity (req : request) : option string :=
  let header := default "" (authorization req) in
  let bearer := if startsWith "Bearer " header then trim (drop_string 7 header) else "" in
  let nodeId := take_string 64 (js_String (js_or (field "node_id" (body req)) (JStr ""))) in
  if (bearer =? "")%string then
    match clientIp req with Some a => Some ("ip:" +:+ a) | None => None end
  else Some ("cred:" +:+ take_string 32 (sha256 bearer) +:+ ":" +:+ nodeId).

Definition gatewayDomain (req : request) : option string :=
  Some (take_string 253 (toLowerCase (trim (default "" (domain req))))).

Definition userKey (req : request) : option string :=
  match or_text (user_id req) None with
  | Some u => Some ("user:" +:+ u)
  | None => None
  end.

Definition gatewayAddressKey (req : request) : option string :=
  match clientIp req, or_text (gatewayDomain req) None with
  | Some a, Some d => Some (d +:+ "|" +:+ a)
  | _, _ => None
  end.

(** [req.user?.id ? `user:...` : clientIp(req)] *)
Definition actorKey (req : request) : option string :=
  match userKey req with Some k => Some k | None => clientIp req end.

(** [Number(process.env.X || d)] *)
Definition env_limit (v : option string) (d : Z) : num :=
  match or_text v None with Some s => string_to_number s | None => of_Z d end.

Definition loginLimiter : options :=
  mk_options "login" (of_Z 8) (15 * 60000) loginKey
    (Some "too many sign-in attempts; wait before trying again").
Definition registerLimiter : options :=
  mk_options "register" (of_Z 10) (60 * 60000) clientIp
    (Some "too many account registrations from this address").
Definition enrolmentLimiter : options :=
  mk_options "enrolment" (of_Z 60) 60000 clientIp (Some "too many node enrolment attempts").
Definition nodeTrafficLimiter (perMin : option string) : options :=
  mk_options "node-traffic" (env_limit perMin 120) 60000 nodeIdentity
    (Some "too many control requests from this node").
Definition nodeAddressCeiling (perMin : option string) : options :=
  mk_options "node-address" (env_limit perMin 6000) 60000 clientIp
    (Some "too many control requests from this address").
Definition dmsUnlockLimiter : options :=
  mk_options "dms-unlock" (of_Z 5) (15 * 60000) userKey
    (Some "too many dead man switch unlock attempts; wait before trying again").
Definition gatewayAuthAddressLimiter : options :=
  mk_options "gateway-auth-address" (of_Z 10) (15 * 60000) gatewayAddressKey
    (Some "too many gateway authentication attempts").
Definition gatewayAuthDomainLimiter : options :=
  mk_options "gateway-auth-domain" (of_Z 100) (60 * 60000) gatewayDomain
    (Some "too many gateway authentication attempts for this domain").
Definition apiLimiter : options := mk_options "api" (of_Z 600) 60000 actorKey None.
Definition writeLimiter : options :=
  mk_options "write" (of_Z 120) 60000 actorKey (Some "too many write requests").

(** The limiters a request for [path] below the prefix passes, in order.
    [under mount path] is Express's match of a mounted path, a prefix match. *)
Definition mountNodeControlLimits (under : string → string → bool)
    (perNode perAddress : option string) (path : string) : list options :=
  (if under "/challenge" path || under "/register" path then [enrolmentLimiter] else []) ++
  [nodeAddressCeiling perAddress] ++
  (if (path =? "/challenge")%string || (path =? "/register")%string then []
   else [nodeTrafficLimiter perNode]).

End Limiters.

End RateLimit.

(** ** The contract *)

Module FixedWindow.

(** A window: its number, when it opened, the time of its last hit and the hits
    counted so far. *)
Record window := mk_window { gen : nat; start : Z; last : Z; hits : Z }.

(** A counted hit: the window it fell into, when, and the count it was given. *)
Record event := mk_event { in_ : nat; at_ : Z; nth : Z }.

(** The runs of one key, newest hit first. *)
Inductive runs (windowMs : Z) : option window → list event → Prop :=
  | runs_none : runs windowMs None []
  | runs_first t : runs windowMs (Some (mk_window 0 t t 1)) [mk_event 0 t 1]
  | runs_more w t evs : runs windowMs (Some w) evs → last w <= t →
      runs windowMs (Some (mk_window (gen w) (start w) t (hits w + 1)))
        (mk_event (gen w) t (hits w + 1) :: evs)
  | runs_roll w t evs : runs windowMs (Some w) evs → last w <= t → start w + windowMs <= t →
      runs windowMs (Some (mk_window (S (gen w)) t t 1)) (mk_event (S (gen w)) t 1 :: evs).

Definition tag (e : event) : nat * Z := (in_ e, nth e).

(** A hit at [t] that got count [c] is let through by the limit, and falls into
    the interval of one window's length from [from]. *)
Definition admitted (from windowMs limit t c : Z) : bool :=
  (from <=? t) && (t <? from + windowMs) && (c <=? limit).

Definition within (from windowMs limit : Z) (e : event) : bool :=
  admitted from windowMs limit (at_ e) (nth e).

(** What a run knows of each of its hits, and of each two of them. *)
Definition placed (windowMs : Z) (w : window) (e : event) : Prop :=
  (in_ e <= gen w)%nat ∧ 1 <= nth e ∧ at_ e <= last w ∧
  (in_ e = gen w → nth e <= hits w) ∧
  ((in_ e < gen w)%nat → at_ e <= start w) ∧
  ((S (in_ e) < gen w)%nat → at_ e + windowMs <= start w).

Definition apart (windowMs : Z) (e e' : event) : Prop :=
  (S (in_ e) < in_ e')%nat → at_ e + windowMs <= at_ e'.

Record sound (windowMs : Z) (w : window) (evs : list event) : Prop := {
  snd_placed : Forall (placed windowMs w) evs;
  snd_apart : ∀ e e', e ∈ evs → e' ∈ evs → apart windowMs e e';
  snd_tags : NoDup (tag <$> evs);
  snd_last : start w <= last w;
  snd_hits : 1 <= hits w
}.

Lemma sound_cons W w w' e evs :
  0 < W → sound W w evs → start w' <= last w' → 1 <= hits w' →
  in_ e = gen w' → nth e = hits w' → at_ e = last w' →
  (∀ d, placed W w d → placed W w' d ∧ tag d ≠ tag e) →
  sound W w' (e :: evs).
Proof.
  intros HW [Hp Ha Ht Hl Hh] Hsl Hh' Hg Hn Hat Hstep.
  rewrite Forall_forall in Hp.
  assert (placed W w' e) as He by (unfold placed; rewrite Hg, Hn, Hat; lia).
  assert (∀ d, d ∈ evs → placed W w' d) as Hd by (intros d Hin; apply Hstep; auto).
  split; [| | |done..].
  - rewrite Forall_forall. intros d [->|Hin]%elem_of_cons; auto.
  - intros d d' [->|Hin]%elem_of_cons [->|Hin']%elem_of_cons; unfold apart.
    + lia.
    + specialize (Hd _ Hin'). unfold placed in Hd. lia.
    + specialize (Hd _ Hin). unfold placed in Hd. rewrite Hg, Hat. lia.
    + by apply Ha.
  - rewrite fmap_cons. constructor; [|done].
    intros (d & Heq & Hin)%list_elem_of_fmap. by destruct (Hstep d (Hp _ Hin)) as [_ []].
Qed.

Lemma runs_sound W w evs : 0 < W → runs W (Some w) evs → sound W w evs.
Proof.
  intros HW. remember (Some w) as o eqn:Ho. intros H. revert w Ho.
  induction H as [|t|w0 t evs H IH Hle|w0 t evs H IH Hle Hroll]; intros w Ho; simplify_eq.
  - split; simpl; try lia.
    + repeat constructor; simpl; lia.
    + intros e e' ->%list_elem_of_singleton ->%list_elem_of_singleton. unfold apart. lia.
    + apply NoDup_singleton.
  - specialize (IH w0 eq_refl). destruct IH as [? ? ? Hl Hh] eqn:E.
    eapply (sound_cons W w0); simpl; try done; try lia.
    intros d Hd. unfold placed in *. simpl. split; [lia|].
    unfold tag. simpl. intros ?; simplify_eq. lia.
  - specialize (IH w0 eq_refl). destruct IH as [? ? ? Hl Hh] eqn:E.
    eapply (sound_cons W w0); simpl; try done; try lia.
    intros d Hd. unfold placed in *. simpl. split; [lia|].
    unfold tag. simpl. intros ?; simplify_eq. lia.
Qed.

(** Tags of two neighbouring windows, numbered from one. *)
Definition slots (g limit : nat) : list (nat * Z) :=
  ((λ i, (g, Z.of_nat i)) <$> seq 1 limit) ++ ((λ i, (S g, Z.of_nat i)) <$> seq 1 limit).

Lemma slots_length g limit : List.length (slots g limit) = (2 * limit)%nat.
Proof. unfold slots. rewrite length_app, !length_fmap, length_seq. lia. Qed.

Lemma slots_elem g limit g' c :
  g' = g ∨ g' = S g → 1 <= c <= Z.of_nat limit → (g', c) ∈ slots g limit.
Proof.
  intros Hg Hc. unfold slots. apply elem_of_app.
  destruct Hg as [->| ->]; [left|right]; apply list_elem_of_fmap;
    exists (Z.to_nat c); (split; [f_equal; lia|apply elem_of_seq; lia]).
Qed.

Lemma min_gen (l : list event) :
  l ≠ [] → ∃ e, e ∈ l ∧ ∀ e', e' ∈ l → (in_ e <= in_ e')%nat.
Proof.
  induction l as [|e l IH]; [done|]. intros _. destruct l as [|e1 l].
  { exists e. split; [constructor|]. by intros e' ->%list_elem_of_singleton. }
  destruct IH as (m & Hm & Hmin); [done|].
  destruct (decide (in_ e <= in_ m)%nat) as [Hle|Hgt].
  - exists e. split; [constructor|]. intros e' [->|He']%elem_of_cons; [done|].
    specialize (Hmin _ He'). lia.
  - exists m. split; [by constructor|]. intros e' [->|He']%elem_of_cons; [lia|auto].
Qed.

(** Hits counted up to the limit, in any interval of one window's length. *)
Lemma runs_budget W o evs from limit :
  0 < W → runs W o evs →
  (List.length (where_ (within from W (Z.of_nat limit)) evs) <= 2 * limit)%nat.
Proof.
  intros HW H. destruct o as [w|]; [|inversion H; subst; simpl; lia].
  destruct (runs_sound W w evs HW H) as [Hp Ha Ht _ _].
  set (l := where_ _ evs).
  destruct (decide (l = [])) as [->|Hne]; [simpl; lia|].
  destruct (min_gen l Hne) as (m & Hm & Hmin).
  rewrite <- (length_fmap tag l), <- (slots_length (in_ m) limit).
  apply submseteq_length, NoDup_submseteq.
  - by apply where_NoDup.
  - intros [g c] (e & Heq & He)%list_elem_of_fmap. unfold tag in Heq. simplify_eq.
    pose proof He as Hin. apply elem_of_where in He as [Hw He].
    apply elem_of_where in Hm as [Hwm Hm].
    unfold within, admitted in *. b2p.
    specialize (Ha m e Hm He). unfold apart in Ha. specialize (Hmin e Hin).
    rewrite Forall_forall in Hp. specialize (Hp e He). unfold placed in Hp.
    apply slots_elem; lia.
Qed.

End FixedWindow.

(** ** The in-process counters implement the contract *)

Module LocalFacts.
Import RateLimit FixedWindow.

(** A call of [hitLocal]. *)
Record call := mk_call { key : string; width : Z; now : Z }.

Fixpoint run_local (calls : list call) (s : local) : list (call * entry) * local :=
  match calls with
  | [] => ([], s)
  | c :: cs =>
      let '(e, s1) := hitLocal (key c) (width c) (now c) s in
      let '(es, s2) := run_local cs s1 in ((c, e) :: es, s2)
  end.

(** The reference: the same counters, never swept. *)
Definition hit_reference (c : call) (m : gmap string entry) : entry :=
  match m !! key c with
  | Some e => if expired (now c) e then mk_entry 1 (now c + width c) else mk_entry (count e + 1) (resetAt e)
  | None => mk_entry 1 (now c + width c)
  end.

Fixpoint run_reference (calls : list call) (m : gmap string entry) : list (call * entry) :=
  match calls with
  | [] => []
  | c :: cs => let e := hit_reference c m in (c, e) :: run_reference cs (<[key c := e]> m)
  end.

Definition live (now : Z) (o : option entry) : option entry :=
  match o with Some e => if expired now e then None else Some e | None => None end.

Definition agree (now : Z) (s : local) (m : gmap string entry) : Prop :=
  ∀ k, live now (localCounters s !! k) = live now (m !! k).

(** Calls whose clock readings never go back, from [t] on. *)
Fixpoint in_order (t : Z) (calls : list call) : Prop :=
  match calls with [] => True | c :: cs => t <= now c ∧ in_order (now c) cs end.

Lemma live_later t t' o o' : t <= t' → live t o = live t o' → live t' o = live t' o'.
Proof.
  intros Ht. unfold live, expired. destruct o, o'; repeat case_match; b2p; simpl; intros; simplify_eq; try done; lia.
Qed.

Lemma live_sweep t s k :
  live t (localCounters (sweepLocalCounters t s) !! k) = live t (localCounters s !! k).
Proof.
  unfold sweepLocalCounters. case_match; [done|]. simpl.
  destruct (localCounters s !! k) as [e|] eqn:E.
  - destruct (expired t e) eqn:X.
    + rewrite (proj2 (map_lookup_filter_None _ _ _)); [simpl; by rewrite X|].
      right. intros e' ?. simplify_eq. simpl. by rewrite X.
    + by rewrite (proj2 (map_lookup_filter_Some _ _ _ e)).
  - rewrite (proj2 (map_lookup_filter_None _ _ _)); [done|by left].
Qed.

Lemma hitLocal_live k w t s :
  hitLocal k w t s =
  let e := match live t (localCounters s !! k) with
           | Some e => mk_entry (count e + 1) (resetAt e)
           | None => mk_entry 1 (t + w)
           end in
  let s' := sweepLocalCounters t s in
  (e, mk_local (<[k := e]> (localCounters s')) (lastSweep s')).
Proof.
  rewrite <- (live_sweep t s k). unfold hitLocal, live.
  destruct (localCounters (sweepLocalCounters t s) !! k); [|done]. by destruct (expired t _).
Qed.

Lemma hit_reference_live c m :
  hit_reference c m =
  match live (now c) (m !! key c) with
  | Some e => mk_entry (count e + 1) (resetAt e)
  | None => mk_entry 1 (now c + width c)
  end.
Proof. unfold hit_reference, live. destruct (m !! key c); [|done]. by destruct (expired _ _). Qed.

Lemma run_local_reference calls t s m :
  in_order t calls → agree t s m → (run_local calls s).1 = run_reference calls m.
Proof.
  revert t s m. induction calls as [|c cs IH]; intros t s m Hord Hag; [done|].
  destruct Hord as [Ht Hord]. cbn [run_local run_reference].
  rewrite hitLocal_live, hit_reference_live. cbv zeta.
  rewrite (live_later _ _ _ _ Ht (Hag (key c))).
  set (e := match live (now c) (m !! key c) with Some _ => _ | None => _ end).
  set (s1 := mk_local _ _).
  assert (agree (now c) s1 (<[key c := e]> m)) as Hag1.
  { intros k. subst s1. simpl. destruct (decide (k = key c)) as [->|Hk].
    - by rewrite !lookup_insert_eq.
    - rewrite !lookup_insert_ne, live_sweep by done. by apply (live_later t). }
  rewrite <- (IH _ _ _ Hord Hag1). by destruct (run_local cs s1).
Qed.

(** A process that has just started. *)
Definition started (t : Z) : local := mk_local ∅ t.

Lemma started_agrees t t0 : agree t (started t0) ∅.
Proof. intros k. simpl. by rewrite lookup_empty. Qed.

(** C36. The in-process counters, swept lazily, refine counters that are never
    swept: over any sequence of hits whose clock readings do not go back, each
    hit is given the same count and the same reset time. *)
Theorem hitLocal_refines calls t :
  in_order t calls → (run_local calls (started t)).1 = run_reference calls ∅.
Proof. intros H. by apply (run_local_reference _ t), started_agrees. Qed.

Definition hit_event (g : nat) (ce : call * entry) : event := mk_event g (now ce.1) (count ce.2).

(** The hits of one key, and the run of the contract they make. *)
Definition of_key (k : string) (l : list (call * entry)) : list (call * entry) :=
  where_ (λ ce, (key ce.1 =? k)%string) l.

Definition matches (k : string) (W t : Z) (m : gmap string entry) (o : option window) : Prop :=
  match m !! k with
  | None => o = None
  | Some e => ∃ w, o = Some w ∧ hits w = count e ∧ start w + W = resetAt e ∧ last w <= t
  end.

Lemma hit_reference_runs c m W t o evs :
  width c = W → t <= now c → runs W o evs → matches (key c) W t m o →
  ∃ g o', runs W o' (mk_event g (now c) (count (hit_reference c m)) :: evs) ∧
    matches (key c) W (now c) (<[key c := hit_reference c m]> m) o'.
Proof.
  intros HW Ht Hr Hm. unfold hit_reference, matches in *. rewrite lookup_insert_eq.
  destruct (m !! key c) as [e|].
  - destruct Hm as (w & -> & Hh & Hs & Hl). destruct (expired (now c) e) eqn:X; unfold expired in X; b2p; simpl.
    + exists (S (gen w)), (Some (mk_window (S (gen w)) (now c) (now c) 1)).
      split; [apply runs_roll; [done|lia..]|]. eexists; split_and!; [done|simpl; lia..].
    + exists (gen w), (Some (mk_window (gen w) (start w) (now c) (hits w + 1))).
      rewrite <- Hh. split; [apply runs_more; [done|lia]|]. eexists; split_and!; [done|simpl; lia..].
  - subst o. inversion Hr; subst evs. exists 0%nat, (Some (mk_window 0 (now c) (now c) 1)).
    split; [apply runs_first|]. eexists; split_and!; [done|simpl; lia..].
Qed.

Lemma matches_other k c W t m o e :
  key c ≠ k → t <= now c → matches k W t m o → matches k W (now c) (<[key c := e]> m) o.
Proof.
  intros Hk Ht. unfold matches. rewrite lookup_insert_ne by done. destruct (m !! k); [|done].
  intros (w & ? & ? & ? & ?). exists w. split_and!; [done..|lia].
Qed.

Definition timed (e : event) : Z * Z := (at_ e, nth e).

Lemma run_reference_runs k W calls t m o evs :
  Forall (λ c, key c = k → width c = W) calls → in_order t calls →
  runs W o evs → matches k W t m o →
  ∃ o' evs', runs W o' (evs' ++ evs) ∧
    reverse (timed <$> evs') = (λ ce, (now ce.1, count ce.2)) <$> of_key k (run_reference calls m).
Proof.
  revert t m o evs. induction calls as [|c cs IH]; intros t m o evs HW Hord Hr Hm.
  { by exists o, []. }
  inversion HW as [|? ? Hc Hcs]; subst. destruct Hord as [Ht Hord].
  cbn [run_reference]. unfold of_key in *. rewrite where_cons. simpl.
  destruct (key c =? k)%string eqn:Hk; b2p.
  - subst k. destruct (hit_reference_runs c m W t o evs) as (g & o1 & Hr1 & Hm1); auto.
    destruct (IH _ _ _ _ Hcs Hord Hr1 Hm1) as (o2 & evs2 & Hr2 & Heq).
    exists o2, (evs2 ++ [mk_event g (now c) (count (hit_reference c m))]).
    rewrite <- app_assoc. split; [done|].
    by rewrite fmap_app, reverse_app, Heq.
  - destruct (IH (now c) (<[key c := hit_reference c m]> m) o evs) as (o2 & evs2 & Hr2 & Heq);
      [done..| |eauto]. by eapply matches_other.
Qed.

Lemma timed_budget W o evs (l : list (Z * Z)) from limit :
  0 < W → runs W o evs → reverse (timed <$> evs) = l →
  (List.length (where_ (λ tc, admitted from W (Z.of_nat limit) tc.1 tc.2) l) <= 2 * limit)%nat.
Proof.
  intros HW Hr <-. pose proof (runs_budget W o evs from limit HW Hr) as H.
  etrans; [|exact H]. clear. induction evs as [|e evs IH]; [done|].
  rewrite fmap_cons, reverse_cons, where_app, length_app, where_cons. simpl.
  rewrite where_cons, where_nil. unfold within at 1. simpl.
  destruct (admitted _ _ _ _ _); simpl; lia.
Qed.

(** The hits of a key that get a count within the limit. *)
Lemma local_hits_budget k W calls t from limit :
  0 < W → Forall (λ c, key c = k → width c = W) calls → in_order t calls →
  (List.length (where_ (λ ce, admitted from W (Z.of_nat limit) (now ce.1) (count ce.2))
     (of_key k (run_local calls (started t)).1)) <= 2 * limit)%nat.
Proof.
  intros HW HF Hord. rewrite (run_local_reference _ t _ ∅ Hord) by apply started_agrees.
  destruct (run_reference_runs k W calls t ∅ None []) as (o & evs & Hr & Heq); [done..|constructor| |].
  { unfold matches. by rewrite lookup_empty. }
  rewrite app_nil_r in Hr. pose proof (timed_budget W o evs _ from limit HW Hr Heq) as H.
  etrans; [|exact H]. clear. set (l := of_key _ _). clearbody l.
  induction l as [|ce l IH]; [done|]. rewrite fmap_cons, !where_cons. simpl. case_match; simpl; lia.
Qed.

Definition burst : list call := [mk_call "a" 1000 0; mk_call "b" 1000 1; mk_call "a" 1000 1500].

Lemma hitLocal_refines_witness : (run_local burst (started 0)).1 = run_reference burst ∅.
Proof. apply (hitLocal_refines burst 0). simpl. lia. Defined.

End LocalFacts.

(** ** The shared counters implement the contract *)

Module SharedFacts.
Import RateLimit FixedWindow LocalFacts.

(** Where a request is inside [hitValkey]: the next command it issues. *)
Inductive phase :=
  | AtIncr
  | AtExpire (count : Z)
  | AtTtl (count : Z)
  | AtRepair (count : Z)
  | Counted (count ttl : Z)
  | Failed.

Section System.
Context {V : Type} `{!Valkey V}.

(** One command. *)
Definition issue (key : string) (windowMs : Z) (p : phase) : eff V phase :=
  match p with
  | AtIncr => c <-! incr key ; eff_ret (if c =? 1 then AtExpire c else AtTtl c)
  | AtExpire c => pexpire key windowMs ;! eff_ret (AtTtl c)
  | AtTtl c => ttl <-! pttl key ; eff_ret (if ttl <? 0 then AtRepair c else Counted c ttl)
  | AtRepair c => pexpire key windowMs ;! eff_ret (Counted c windowMs)
  | Counted _ _ | Failed => eff_ret p
  end.

Fixpoint issue_all (n : nat) (key : string) (windowMs : Z) (p : phase) : eff V phase :=
  match n with
  | O => eff_ret p
  | S n => p' <-! issue key windowMs p ; issue_all n key windowMs p'
  end.

Definition counted_entry (now : Z) (p : phase) : entry :=
  match p with Counted c ttl => mk_entry c (now + ttl) | _ => mk_entry 0 now end.

(** [hitValkey] is its commands in sequence, at most four of them. *)
Lemma hitValkey_phases key W now v :
  hitValkey key W now v = (p <-! issue_all 4 key W AtIncr ; eff_ret (counted_entry now p)) v.
Proof.
  unfold hitValkey, issue_all, eff_bind, eff_ret. simpl. unfold eff_bind, eff_ret.
  destruct (incr key v) as [[c|] v1]; [|done].
  destruct (c =? 1); simpl; unfold eff_bind, eff_ret.
  - destruct (pexpire key W v1) as [[[]|] v2]; [|done]. simpl. unfold eff_bind, eff_ret.
    destruct (pttl key v2) as [[ttl|] v3]; [|done].
    destruct (ttl <? 0); simpl; [|done]. unfold eff_bind, eff_ret. by destruct (pexpire key W v3) as [[[]|] v4].
  - destruct (pttl key v1) as [[ttl|] v3]; [|done].
    destruct (ttl <? 0); simpl; [|done]. unfold eff_bind, eff_ret. by destruct (pexpire key W v3) as [[[]|] v4].
Qed.

Context `{!ValkeyLaws V} (windowOf : string → Z).

(** The server, the requests of all instances with their keys and phases, and
    the increments the server executed: key, time and resulting count. *)
Record system := mk_system {
  server : V;
  requests : list (string * phase);
  increments : list (string * (Z * Z))
}.

Definition view (v : V) (k : string) : option (Z * option Z) := seen (clock v) (stored v k).

Definition next (r : outcome phase) : phase := match r with Ok p => p | Throw _ _ => Failed end.

(** The increment a command made, if it made one. *)
Definition logged (k : string) (p : phase) (v v' : V) : list (string * (Z * Z)) :=
  match p, view v' k with
  | AtIncr, Some (c, e) =>
      if bool_decide (seen (clock v') (stored v k) = Some (c, e)) then [] else [(k, (clock v', c))]
  | _, _ => []
  end.

Inductive step : system → system → Prop :=
  | arrive v rs l k : step (mk_system v rs l) (mk_system v (rs ++ [(k, AtIncr)]) l)
  | command v rs l i k p r v' :
      rs !! i = Some (k, p) → issue k (windowOf k) p v = (r, v') →
      step (mk_system v rs l) (mk_system v' (<[i := (k, next r)]> rs) (l ++ logged k p v v'))
  | elapse v v' rs l :
      clock v <= clock v' → (∀ k, view v' k = seen (clock v') (stored v k)) →
      step (mk_system v rs l) (mk_system v' rs l).

Definition fresh_server (v : V) : Prop := ∀ k, stored v k = None.

Definition reachable (st : system) : Prop :=
  ∃ v, fresh_server v ∧ rtc step (mk_system v [] []) st.

Definition increments_of (k : string) (l : list (string * (Z * Z))) : list (Z * Z) :=
  snd <$> where_ (λ e, (e.1 =? k)%string) l.

(** The stored counter of a key is the open window of its run. *)
Definition tracks (W now : Z) (o : option (Z * option Z)) (w : option window) : Prop :=
  match w with
  | None => o = None
  | Some w => last w <= now ∧ start w <= last w ∧
      match o with
      | None => start w + W <= now
      | Some (c, e) => hits w = c ∧ ∀ x, e = Some x → start w + W <= x
      end
  end.

Definition counting (st : system) : Prop :=
  ∀ k, ∃ w evs, runs (windowOf k) w evs ∧
    reverse (timed <$> evs) = increments_of k (increments st) ∧
    tracks (windowOf k) (clock (server st)) (view (server st) k) w.

Lemma seen_seen t t' o : t <= t' → seen t' (seen t o) = seen t' o.
Proof.
  intros Ht. destruct o as [[c [x|]]|]; [|done..]. simpl. destruct (x <=? t) eqn:E; [|done].
  b2p. simpl. by rewrite (proj2 (Z.leb_le _ _)) by lia.
Qed.

Lemma tracks_later W t t' o w :
  t <= t' → tracks W t o w → tracks W t' (seen t' o) w.
Proof.
  intros Ht. destruct w as [w|]; simpl; [|by intros ->].
  intros (Hl & Hs & Ho). split_and!; [lia|done|].
  destruct o as [[c [x|]]|]; simpl; [|naive_solver..|lia].
  destruct Ho as [Hc Hx]. specialize (Hx x eq_refl). destruct (x <=? t') eqn:E; b2p; [lia|naive_solver].
Qed.

Lemma tracks_view W v v' k w :
  clock v <= clock v' → tracks W (clock v) (view v k) w →
  tracks W (clock v') (seen (clock v') (stored v k)) w.
Proof.
  intros Ht H. apply (tracks_later _ _ _ _ _ Ht) in H. unfold view in H. by rewrite seen_seen in H.
Qed.

(** An executed INCR is a step of the contract. *)
Lemma tracks_incr W t o w evs :
  runs W w evs → tracks W t o w →
  ∃ g w', runs W w' (mk_event g t (incremented o).1 :: evs) ∧
    tracks W t (Some (incremented o)) w'.
Proof.
  intros Hr. destruct w as [w|]; simpl.
  - intros (Hl & Hs & Ho). destruct o as [[c e]|]; simpl.
    + destruct Ho as [Hc He]. exists (gen w), (Some (mk_window (gen w) (start w) t (hits w + 1))).
      rewrite <- Hc. split; [by apply runs_more|]. simpl. split_and!; [lia..|done].
    + exists (S (gen w)), (Some (mk_window (S (gen w)) t t 1)).
      split; [by apply runs_roll|]. simpl. split_and!; [lia..|done].
  - intros ->. inversion Hr; subst. exists 0%nat, (Some (mk_window 0 t t 1)).
    split; [apply runs_first|]. simpl. split_and!; [lia..|done].
Qed.

Lemma tracks_expiry W t o w : tracks W t o w → tracks W t (with_expiry (t + W) o) w.
Proof.
  destruct w as [w|]; simpl; [|by intros ->]. intros (Hl & Hs & Ho). split_and!; [done..|].
  destruct o as [[c e]|]; simpl; [|done]. split; [tauto|]. intros x [= <-]. lia.
Qed.

Lemma increments_of_app k l l' : increments_of k (l ++ l') = increments_of k l ++ increments_of k l'.
Proof. unfold increments_of. by rewrite where_app, fmap_app. Qed.

Lemma logged_other k k' p v v' : k' ≠ k → increments_of k' (logged k p v v') = [].
Proof.
  intros Hk. unfold logged, increments_of. destruct p; try done. destruct (view v' k) as [[c e]|]; [|done].
  case_bool_decide; [done|]. rewrite where_cons, where_nil. simpl.
  by rewrite (proj2 (String.eqb_neq k k')).
Qed.

Lemma bind_ret_state {A B} (m : eff V A) (f : A → B) v r v' :
  (a <-! m ; eff_ret (f a)) v = (r, v') → ∃ r0, m v = (r0, v').
Proof. unfold eff_bind, eff_ret. destruct (m v) as [[]]; intros; simplify_eq; eauto. Qed.

(** What a command does to the key it addresses and to the others. *)
Lemma issue_effect k W p v r v' :
  0 < W → issue k W p v = (r, v') →
  clock v <= clock v' ∧
  (∀ k', k' ≠ k → view v' k' = seen (clock v') (stored v k')) ∧
  let old := seen (clock v') (stored v k) in
  (view v' k = old ∧ logged k p v v' = []) ∨
  (view v' k = Some (incremented old) ∧ logged k p v v' = [(k, (clock v', (incremented old).1))]) ∨
  (view v' k = with_expiry (clock v' + W) old ∧ logged k p v v' = []).
Proof.
  intros HW H. unfold view. destruct p; simpl in H.
  - apply bind_ret_state in H as [r0 H0].
    destruct (incr_law _ _ _ _ H0) as (Ht & Hoth & Hk). split_and!; [done..|].
    simpl in Hk. simpl. unfold logged, view.
    set (old := seen (clock v') (stored v k)) in *.
    destruct Hk as [[Hs _]|[Hs _]].
    + right; left. rewrite Hs.
      assert (seen (clock v') (Some (incremented old)) = Some (incremented old)) as Hi.
      { subst old. destruct (stored v k) as [[c [x|]]|]; simpl; [|done..].
        destruct (x <=? clock v') eqn:E; simpl; by rewrite ?E. }
      rewrite Hi. split; [done|]. destruct (incremented old) as [c e] eqn:Ei.
      rewrite bool_decide_false; [done|]. intros Ho. rewrite Ho in Ei. simpl in Ei. simplify_eq. lia.
    + left. rewrite Hs. split; [done|]. destruct old as [[c e]|]; [|done]. by rewrite bool_decide_true.
  - apply bind_ret_state in H as [r0 H0].
    destruct (pexpire_law _ _ _ _ _ H0 HW) as (Ht & Hoth & Hk). split_and!; [done..|].
    destruct Hk as [Hk|[Hk _]]; [right; right|left]; done.
  - apply bind_ret_state in H as [r0 H0].
    destruct (pttl_law _ _ _ _ H0) as (Ht & Hoth & _). split_and!; [done|auto|]. left. simpl. auto.
  - apply bind_ret_state in H as [r0 H0].
    destruct (pexpire_law _ _ _ _ _ H0 HW) as (Ht & Hoth & Hk). split_and!; [done..|].
    destruct Hk as [Hk|[Hk _]]; [right; right|left]; done.
  - unfold eff_ret in H. simplify_eq. split_and!; [lia|done|]. by left.
  - unfold eff_ret in H. simplify_eq. split_and!; [lia|done|]. by left.
Qed.

Lemma counting_step st st' :
  (∀ k, 0 < windowOf k) → step st st' → counting st → counting st'.
Proof.
  intros HW Hst Hc k. destruct Hst as [v rs l k0|v rs l i k0 p r v' Hi Hrun|v v' rs l Ht Hv];
    destruct (Hc k) as (w & evs & Hr & He & Htr); simpl in *.
  - by exists w, evs.
  - destruct (issue_effect _ _ _ _ _ _ (HW k0) Hrun) as (Ht & Hoth & Hk).
    apply (tracks_view _ _ _ _ _ Ht) in Htr. rewrite increments_of_app.
    destruct (decide (k = k0)) as [->|Hne].
    + destruct Hk as [[Hk Hl]|[[Hk Hl]|[Hk Hl]]]; rewrite Hl, Hk.
      * exists w, evs. by rewrite app_nil_r.
      * destruct (tracks_incr _ _ _ _ _ Hr Htr) as (g & w' & Hr' & Htr').
        exists w', (mk_event g (clock v') (incremented (seen (clock v') (stored v k0))).1 :: evs).
        split; [done|]. split; [|done]. rewrite fmap_cons, reverse_cons, He. f_equal.
        unfold increments_of. rewrite where_cons, where_nil. simpl. by rewrite String.eqb_refl.
      * exists w, evs. rewrite app_nil_r. split_and!; [done..|]. by apply tracks_expiry.
    + rewrite logged_other, app_nil_r, Hoth by done. by exists w, evs.
  - exists w, evs. rewrite Hv. split_and!; [done..|]. by apply (tracks_view _ v).
Qed.

Lemma counting_reachable st : (∀ k, 0 < windowOf k) → reachable st → counting st.
Proof.
  intros HW (v & Hv & Hst).
  assert (counting (mk_system v [] [])) as H0.
  { intros k. exists None, []. split_and!; [constructor|done|]. simpl. unfold view. by rewrite Hv. }
  remember (mk_system v [] []) as s0 eqn:Hs0. clear Hs0.
  induction Hst; eauto using counting_step.
Qed.

(** However many instances share the Valkey server and however their
    commands interleave, fail or are lost half-way, in any interval of one
    window's length the server gives a key at most twice the limit of counts
    within the limit. *)
Theorem shared_budget st k from limit :
  (∀ k, 0 < windowOf k) → reachable st →
  (List.length (where_ (λ tc, admitted from (windowOf k) (Z.of_nat limit) tc.1 tc.2)
     (increments_of k (increments st))) <= 2 * limit)%nat.
Proof.
  intros HW Hst. destruct (counting_reachable st HW Hst k) as (w & evs & Hr & He & _).
  by eapply timed_budget.
Qed.

(** No counter outlives the moment it is counted in by more than its window. *)
Definition bounded (v : V) : Prop :=
  ∀ k c x, view v k = Some (c, Some x) → x <= clock v + windowOf k.

Lemma seen_some t o c x : seen t o = Some (c, Some x) → o = Some (c, Some x) ∧ t < x.
Proof. destruct o as [[c' [x'|]]|]; simpl; [|congruence..]. destruct (x' <=? t) eqn:E; intros; simplify_eq. b2p. done. Qed.

Lemma seen_view v v' k c x :
  clock v <= clock v' → seen (clock v') (stored v k) = Some (c, Some x) → view v k = Some (c, Some x).
Proof.
  intros Ht [Hs Hx]%seen_some. unfold view. rewrite Hs. simpl.
  by rewrite (proj2 (Z.leb_gt _ _)) by lia.
Qed.

Lemma bounded_issue k p v r v' :
  (∀ k, 0 < windowOf k) → issue k (windowOf k) p v = (r, v') → bounded v → bounded v'.
Proof.
  intros HW Hrun Hb k' c x. destruct (issue_effect _ _ _ _ _ _ (HW k) Hrun) as (Ht & Hoth & Hk).
  assert (∀ c, seen (clock v') (stored v k') = Some (c, Some x) → x <= clock v' + windowOf k') as Hold.
  { intros c' Hs. apply (seen_view _ _ _ _ _ Ht), Hb in Hs. lia. }
  destruct (decide (k' = k)) as [->|Hne]; [|rewrite Hoth by done; apply Hold].
  destruct Hk as [[-> _]|[[-> _]|[-> _]]]; [apply Hold|..];
    destruct (seen (clock v') (stored v k)) as [[c' e']|] eqn:E; simpl; intros; simplify_eq; [by eapply Hold|lia].
Qed.

Lemma bounded_reachable st : (∀ k, 0 < windowOf k) → reachable st → bounded (server st).
Proof.
  intros HW (v & Hv & Hst).
  assert (bounded (server (mk_system v [] []))) as H0.
  { intros k c x. simpl. unfold view. by rewrite Hv. }
  remember (mk_system v [] []) as s0 eqn:Hs0. clear Hs0.
  induction Hst as [|s1 s2 s3 Hstep _ IH]; [done|]. apply IH. clear IH.
  destruct Hstep as [| |v1 v2 rs l Ht Hvw]; simpl in *; [done|by eapply bounded_issue|].
  intros k c x. rewrite Hvw. intros Hs. apply (seen_view _ _ _ _ _ Ht), H0 in Hs. lia.
Qed.

(** Commands a request still has to issue. *)
Definition left (p : phase) : nat :=
  match p with AtIncr => 4 | AtExpire _ => 3 | AtTtl _ => 2 | AtRepair _ => 1 | _ => 0 end.

(** A counted request leaves its counter with an expiry. *)
Definition settled (k : string) (p : phase) (v : V) : Prop :=
  match p with
  | Counted _ ttl => ttl <= windowOf k ∧ ∀ c, view v k ≠ Some (c, None)
  | Failed => False
  | _ => True
  end.

Lemma issue_settled k p v p' v' :
  (∀ k, 0 < windowOf k) → bounded v → settled k p v → issue k (windowOf k) p v = (Ok p', v') →
  settled k p' v' ∧ (left p' <= pred (left p))%nat.
Proof.
  intros HW Hb Hp Hrun. destruct p; simpl in *; run_inv; try done.
  - destruct (_ =? 1); simpl; split; [done|lia|done|lia].
  - match goal with H : pttl _ _ = _ |- _ => rename H into Hq end.
    destruct (pttl_law _ _ _ _ Hq) as (Ht & Hv & [[]|[= Hx]]).
    destruct (_ <? 0) eqn:E; simpl; b2p; [split; [done|lia]|]. split; [|lia]. unfold view. rewrite Hv.
    destruct (seen _ (stored v k)) as [[c e]|] eqn:Es; [|simpl in *; split; [lia|done]].
    destruct e as [y|]; [|simpl in *; lia].
    pose proof (seen_view _ _ _ _ _ Ht Es) as Hs. apply Hb in Hs. simpl in *. split; [lia|congruence].
  - match goal with H : pexpire _ _ _ = _ |- _ => rename H into Hq end.
    destruct (pexpire_law _ _ _ _ _ Hq (HW k)) as (Ht & _ & [Hv|[_ []]]).
    simpl. split; [|lia]. split; [lia|]. unfold view. rewrite Hv.
    destruct (seen (clock v') (stored v k)) as [[]|]; simpl; intros ? [=].
Qed.

Lemma issue_all_settled n k p v p' v' :
  (∀ k, 0 < windowOf k) → bounded v → settled k p v → issue_all n k (windowOf k) p v = (Ok p', v') →
  bounded v' ∧ settled k p' v' ∧ (left p' <= left p - n)%nat.
Proof.
  intros HW. revert p v. induction n as [|n IH]; intros p v Hb Hp Hrun; simpl in Hrun; run_inv.
  - split_and!; [done..|lia].
  - match goal with H : issue _ _ _ _ = _ |- _ => rename H into Hq end.
    destruct (issue_settled _ _ _ _ _ HW Hb Hp Hq) as [Hp1 Hl1].
    pose proof (bounded_issue _ _ _ _ _ HW Hq Hb) as Hb1.
    destruct (IH _ _ Hb1 Hp1 Hrun) as (? & ? & ?). split_and!; [done..|lia].
Qed.

(** Nobody is locked out: whatever crashed or interleaved before, a counted
    request leaves its counter with an expiry, the reset time it is told is at
    most one window away, and once a window has passed without a request the
    counter is gone. *)
Theorem shared_no_lockout st k now e v' v'' :
  (∀ k, 0 < windowOf k) → reachable st →
  hitValkey k (windowOf k) now (server st) = (Ok e, v') →
  clock v' + windowOf k <= clock v'' → view v'' k = seen (clock v'') (stored v' k) →
  resetAt e <= now + windowOf k ∧ view v'' k = None.
Proof.
  intros HW Hst Hrun Ht Hv. rewrite hitValkey_phases in Hrun. run_inv.
  match goal with H : issue_all _ _ _ _ _ = _ |- _ => rename H into Hq end.
  destruct (issue_all_settled 4 k AtIncr _ _ _ HW (bounded_reachable _ HW Hst) I Hq) as (Hb & Hs & Hl).
  destruct x; simpl in *; try lia; try done. destruct Hs as [Httl Hne]. split; [lia|].
  rewrite Hv. destruct (stored v' k) as [[c' [x|]]|] eqn:E; simpl; [| |done].
  - case_match eqn:Hx; [done|]. b2p. exfalso.
    assert (x <= clock v' + windowOf k); [|lia].
    apply (Hb k c'). unfold view. rewrite E. simpl. by rewrite (proj2 (Z.leb_gt _ _)) by (specialize (HW k); lia).
  - destruct (Hne c'). unfold view. by rewrite E.
Qed.

End System.
(** A Valkey server as a map from keys to counters. *)
Definition memory : Type := Z * gmap string (Z * option Z).

#[export] Instance memory_valkey : Valkey memory := {
  incr k v :=
    let new := incremented (seen v.1 (v.2 !! k)) in (Ok new.1, (v.1, <[k := new]> v.2));
  pexpire k ms v :=
    (Ok tt, (v.1, match with_expiry (v.1 + ms) (seen v.1 (v.2 !! k)) with
                  | Some o => <[k := o]> v.2
                  | None => v.2
                  end));
  pttl k v := (Ok (ttl_of v.1 (seen v.1 (v.2 !! k))), v)
}.

#[export] Program Instance memory_laws : ValkeyLaws memory := {
  clock v := v.1;
  stored v k := v.2 !! k
}.
Next Obligation.
  intros k [t m] r v' [= <- <-]. simpl. split_and!; [lia|by intros; rewrite lookup_insert_ne|].
  left. by rewrite lookup_insert_eq; auto.
Qed.
Next Obligation.
  intros k ms [t m] r v' [= <- <-] Hms. simpl. split_and!; [lia|..].
  - intros k' Hk. destruct (with_expiry _ _); [by rewrite lookup_insert_ne|done].
  - left. destruct (seen t (m !! k)) as [[c e]|] eqn:E; simpl; [|done].
    rewrite lookup_insert_eq. simpl. by rewrite (proj2 (Z.leb_gt _ _)) by lia.
Qed.
Next Obligation. intros k [t m] r v' [= <- <-]. simpl. split_and!; [lia|done|by right]. Qed.

Definition minute (_ : string) : Z := 60000.
Definition empty_memory : memory := (0, ∅).

(** Two instances race on one key: both increment before either sets the
    expiry. *)
Definition raced : system (V := memory) :=
  mk_system (0, {["k" := (2, None)]}) [("k", AtExpire 1); ("k", AtTtl 2)] [("k", (0, 1)); ("k", (0, 2))].

Lemma raced_reachable : reachable minute raced.
Proof.
  exists empty_memory. split; [done|].
  eapply rtc_l; [apply (arrive _ _ _ _ "k")|].
  eapply rtc_l; [apply (arrive _ _ _ _ "k")|].
  eapply rtc_l; [by apply (command _ _ _ _ 0 "k" AtIncr)|].
  eapply rtc_l; [by apply (command _ _ _ _ 1 "k" AtIncr)|].
  apply rtc_refl.
Qed.

Lemma shared_budget_witness :
  (List.length (where_ (λ tc, admitted 0 (minute "k") (Z.of_nat 1) tc.1 tc.2)
     (increments_of "k" (increments raced))) <= 2 * 1)%nat.
Proof. apply (shared_budget minute raced "k" 0 1); [done|exact raced_reachable]. Defined.

Definition raced_hit : outcome entry * memory :=
  Eval vm_compute in hitValkey "k" (minute "k") 5 (server raced).
Definition raced_after : memory := Eval vm_compute in raced_hit.2.

Lemma shared_no_lockout_witness :
  ∃ e, hitValkey "k" (minute "k") 5 (server raced) = (Ok e, raced_after) ∧
    resetAt e <= 5 + minute "k" ∧ view ((60000, raced_after.2) : memory) "k" = None.
Proof.
  exists (mk_entry 3 60005).
  assert (hitValkey "k" (minute "k") 5 (server raced) = (Ok (mk_entry 3 60005), raced_after)) as Hrun
    by (vm_compute; reflexivity).
  split; [exact Hrun|].
  apply (shared_no_lockout minute raced "k" 5 _ raced_after ((60000, raced_after.2) : memory));
    [done|exact raced_reachable|exact Hrun|vm_compute; congruence|vm_compute; reflexivity].
Defined.

End SharedFacts.

(** ** The middleware *)

Module MiddlewareFacts.
Import RateLimit FixedWindow LocalFacts SharedFacts.

Section Served.
Context {V : Type} `{!Valkey V} (namespace : string) (o : options).

(** Requests served one after the other by one instance without Valkey. *)
Fixpoint serve (reqs : list (request * Z)) (s : local * V) : list (request * Z * response) :=
  match reqs with
  | [] => []
  | (req, t) :: rest =>
      let '(resp, s') := rateLimitMiddleware false false namespace o req t s in
      (req, t, resp) :: serve rest s'
  end.

Definition scope_of (req : request) : option string := or_text (keyFn o req) None.

(** A request of [scope] that was let through in the interval. *)
Definition passed (scope : string) (from : Z) (x : request * Z * response) : bool :=
  bool_decide (scope_of x.1.1 = Some scope) && (from <=? x.1.2) && (x.1.2 <? from + windowMs o) &&
  bool_decide (outcome_ x.2 = None).

Definition calls_of (reqs : list (request * Z)) : list call :=
  omap (λ rt, match scope_of rt.1 with
              | Some scope => Some (mk_call (bucket namespace o scope) (windowMs o) rt.2)
              | None => None
              end) reqs.

Fixpoint arriving (t : Z) (reqs : list (request * Z)) : Prop :=
  match reqs with [] => True | (_, t') :: rest => t <= t' ∧ arriving t' rest end.

Lemma in_order_later t t' calls : t <= t' → in_order t' calls → in_order t calls.
Proof. destruct calls; [done|]. simpl. intros ? [? ?]. split; [lia|done]. Qed.

Lemma calls_in_order t reqs : arriving t reqs → in_order t (calls_of reqs).
Proof.
  revert t. induction reqs as [|[req t'] reqs IH]; intros t; [done|]. intros [Ht Hrest].
  apply IH in Hrest. unfold calls_of in *. simpl. destruct (scope_of req); simpl; [done|].
  by eapply in_order_later.
Qed.

Lemma calls_window k reqs : Forall (λ c, key c = k → width c = windowMs o) (calls_of reqs).
Proof.
  induction reqs as [|[req t] reqs IH]; [constructor|]. unfold calls_of in *. simpl.
  destruct (scope_of req); simpl; [by constructor|done].
Qed.

Lemma decide_hit_passes t e n :
  limit o = of_Z n → outcome_ (decide_hit o t e) = None → (count e <=? n) = true.
Proof.
  intros Hl. unfold decide_hit. rewrite Hl, num_ltb_of_Z. destruct (n <? count e) eqn:E; simpl; [done|].
  b2p. intros _. by apply Z.leb_le.
Qed.

Lemma served_are_hits scope from n reqs s v :
  limit o = of_Z n →
  (List.length (where_ (passed scope from) (serve reqs (s, v))) <=
   List.length (where_ (λ ce, admitted from (windowMs o) n (now ce.1) (count ce.2))
     (of_key (bucket namespace o scope) (run_local (calls_of reqs) s).1)))%nat.
Proof.
  intros Hl. revert s. induction reqs as [|[req t] reqs IH]; intros s; [done|].
  cbn [serve]. unfold rateLimitMiddleware, calls_of in *. simpl.
  destruct (scope_of req) as [sc|] eqn:Hsc; unfold scope_of in Hsc; rewrite Hsc.
  - simpl. destruct (hitLocal (bucket namespace o sc) (windowMs o) t s) as [e s1]. simpl.
    specialize (IH s1). destruct (run_local _ s1) as [es s2]. simpl in *.
    unfold of_key in *. rewrite !where_cons. simpl.
    destruct (passed scope from (req, t, decide_hit o t e)) eqn:Hp.
    + unfold passed in Hp. simpl in Hp. b2p. unfold scope_of in *.
      assert (sc = scope) as -> by congruence. rewrite String.eqb_refl, where_cons. simpl.
      assert (admitted from (windowMs o) n t (count e) = true) as ->; [|simpl; lia].
      unfold admitted. rewrite (decide_hit_passes t e n) by done.
      by rewrite !(proj2 (Z.leb_le _ _)), (proj2 (Z.ltb_lt _ _)) by lia.
    + destruct (_ =? _)%string; [|done]. rewrite where_cons. case_match; simpl; lia.
  - rewrite where_cons. unfold passed at 1. simpl. rewrite andb_false_r. apply IH.
Qed.

End Served.

(** An instance without Valkey lets at most twice the limit of requests of
    one scope through in any interval of one window's length, whatever other
    requests it serves in between. *)
Theorem middleware_budget {V : Type} `{!Valkey V} namespace o scope from n reqs t (v : V) :
  limit o = of_Z (Z.of_nat n) → 0 < windowMs o → arriving t reqs →
  (List.length (where_ (passed o scope from) (serve namespace o reqs (started t, v))) <= 2 * n)%nat.
Proof.
  intros Hl HW Hord. etrans; [by apply (served_are_hits namespace o scope from)|].
  apply (local_hits_budget _ _ _ _ from n HW (calls_window _ _ _ _)).
  by apply calls_in_order.
Qed.

(** A request from a fixed address. *)
Definition from_address : request := mk_request (Some "192.0.2.7") None None JUndef None None.

Definition two_requests : list (request * Z) := [(from_address, 1); (from_address, 2)].

Lemma middleware_budget_witness :
  (List.length (where_ (passed enrolmentLimiter "192.0.2.7" 0)
     (serve "" enrolmentLimiter two_requests (started 0, empty_memory))) <= 2 * 60)%nat.
Proof. apply (middleware_budget "" enrolmentLimiter "192.0.2.7" 0 60); [done|done|simpl; lia]. Defined.

(** A limit that is not a number refuses nothing: [count > NaN] is false.  The
    two limits of node traffic are read from the environment with [Number]. *)
Lemma nan_limit_never_refuses sha256 s now e :
  string_to_number s = NaN → s ≠ "" →
  outcome_ (decide_hit (nodeTrafficLimiter sha256 (Some s)) now e) = None.
Proof.
  intros Hs Hne. unfold decide_hit, nodeTrafficLimiter, env_limit. simpl.
  rewrite (proj2 (String.eqb_neq s "")) by done. by rewrite Hs.
Qed.

End MiddlewareFacts.
