(* ===== verification/Leader.v ===== *)
(** * Leader election between control-plane instances

    [services/DistributedLeaderService.js].  Any number of instances compete for
    one session-level advisory lock of PostgreSQL.  The code between two awaits
    runs without interruption, so each definition of [Leader] is such a stretch
    of one method, and [Leader.step] interleaves the stretches of all instances
    with the replies of the server, the loss of replies, connection errors and
    sessions ended by the server.

    An instance has at most one live lease: a lease is made only by an election
    cycle that found none, and cycles do not overlap.  [adopted] is whether
    [this._lease] points to it.  The server side is the documented behaviour of
    [pg_try_advisory_lock] and [pg_advisory_unlock]: owned by a session,
    reentrant, and dropped when the session ends.  A session whose client was
    told to end it may live on at the server.  Event emission, logging and the
    timestamps of [getStatus] are left out; [client.end] does not reject, and the
    health check [SELECT 1] returns a row or is rejected. *)

From stdpp Require Import functions.
From coqutil Require Import Datatypes.RecordSettersUsingExistingGetters.
From S2P Require Import Prelude.

Module Leader.

Definition LOCK_CLASS_ID : Z := 1313165886.
Definition LOCK_OBJ_ID : Z := 1279607108.

(** How far [_releaseLease] has come: the unlock query is sent, its reply is on
    the way, or the client is being ended. *)
Inductive releasing := NotReleasing | Unlocking | Unlocked | Ending.

Record lease := mk_lease {
  session : nat;
  adopted : bool;
  locked : bool;
  failed : bool;
  release : releasing
}.

(** Where [_runElectionCycle] awaits, with the version it was called with. *)
Inductive cycle :=
  | NoCycle
  | HealthCheck (version : Z)
  | Connecting (version : Z)
  | Locking (version : Z)
  | LockReply (version : Z) (acquired : bool)
  | AwaitRelease.

(** Where [stepDown] awaits. *)
Inductive stepping := NotStepping | Draining | ReleasingLease.

Record instance := mk_instance {
  isLeader : bool;
  running : bool;
  electionVersion : Z;
  pauseUntil : Z;
  held : option lease;
  cyclePromise : cycle;
  stepDownPromise : stepping;
  stopPromise : bool;
  inFlight : gset string
}.

Definition constructed : instance := mk_instance false false 0 0 None NoCycle NotStepping false ∅.

(** What a stretch of code did with its session: returned it to the pool
    ([client.release(false)]) or dropped it ([client.release(true)]). *)
Inductive handover := Nothing | GaveBack (s : nat) | Dropped (s : nat).

Definition reaction : Type := instance * handover.

Definition this_lease (x : instance) : option lease :=
  match held x with Some l => if adopted l then Some l else None | None => None end.

(** The [finally] of [_releaseLease] up to its next await, or to its end. *)
Definition release_finally (l : lease) : option lease * handover :=
  let l := l <| locked := false |> in
  if failed l then (Some (l <| release := Ending |>), Nothing)
  else (None, GaveBack (session l)).

Definition releaseLease (l : lease) : option lease * handover :=
  match release l with
  | NotReleasing =>
      if locked l && negb (failed l) then (Some (l <| release := Unlocking |>), Nothing)
      else release_finally l
  | _ => (Some l, Nothing)
  end.

Definition with_release (x : instance) (r : option lease * handover) : reaction :=
  (x <| held := r.1 |>, r.2).

Definition depose (x : instance) : instance :=
  x <| electionVersion ::= Z.add 1 |> <| isLeader := false |>.

Definition handleClientFailure (l : lease) (x : instance) : reaction :=
  let l := l <| failed := true |> in
  with_release (if adopted l then depose x else x) (releaseLease l).

Definition canElect (version : Z) (l : lease) (x : instance) : bool :=
  running x && (version =? electionVersion x) && negb (failed l).

(** [_electionCycle], up to the first await of [_runElectionCycle]. *)
Definition electionCycle (now : Z) (x : instance) : instance :=
  if negb (running x) then x else
  match stepDownPromise x with
  | NotStepping =>
      if match this_lease x with
         | Some l => match release l with NotReleasing => false | _ => true end
         | None => false
         end then x
      else if negb (pauseUntil x =? 0) && (now <? pauseUntil x) then x
      else match cyclePromise x with
           | NoCycle =>
               let version := electionVersion x in
               x <| cyclePromise :=
                 match this_lease x with
                 | Some _ => if isLeader x then HealthCheck version else Locking version
                 | None => Connecting version
                 end |>
           | _ => x
           end
  | _ => x
  end.

(** A start that finds a stop in progress waits for it and starts then. *)
Definition start (now : Z) (x : instance) : instance :=
  if stopPromise x then x
  else if running x then x
  else electionCycle now (x <| running := true |>).

Definition stepDown (pauseReelectionMs now : Z) (x : instance) : instance :=
  let x := depose x in
  let x := if 0 <? pauseReelectionMs then x <| pauseUntil := now + pauseReelectionMs |> else x in
  match stepDownPromise x with
  | NotStepping => x <| stepDownPromise := Draining |>
  | _ => x
  end.

Definition stop (x : instance) : instance :=
  let x := x <| running := false |> in
  if stopPromise x then x else (stepDown 0 0 x) <| stopPromise := true |>.

(** [stepDown] after [await this._cyclePromise], and at its end. *)
Definition stepped_down (x : instance) : instance :=
  x <| stepDownPromise := NotStepping |> <| stopPromise := false |>.

Definition stepDown_drained (x : instance) : reaction :=
  match stepDownPromise x, cyclePromise x with
  | Draining, NoCycle =>
      match this_lease x with
      | Some l => with_release (x <| stepDownPromise := ReleasingLease |>) (releaseLease l)
      | None => (stepped_down x, Nothing)
      end
  | _, _ => (x, Nothing)
  end.

Definition stepDown_released (x : instance) : instance :=
  match stepDownPromise x, held x with
  | ReleasingLease, None => stepped_down x
  | _, _ => x
  end.

(** [_runElectionCycle] after each of its awaits. *)
Definition health_reply (x : instance) : instance :=
  match cyclePromise x with HealthCheck _ => x <| cyclePromise := NoCycle |> | _ => x end.

Definition connected (s : nat) (version : Z) (x : instance) : reaction :=
  let l := mk_lease s false false false NotReleasing in
  if canElect version l x then
    (x <| held := Some (l <| adopted := true |>) |> <| cyclePromise := Locking version |>, Nothing)
  else with_release (x <| cyclePromise := AwaitRelease |>) (releaseLease l).

Definition connect_failed (x : instance) : instance :=
  match cyclePromise x with Connecting _ => x <| cyclePromise := NoCycle |> | _ => x end.

Definition lock_reply (x : instance) : reaction :=
  match cyclePromise x, held x with
  | LockReply version acquired, Some l =>
      let l := l <| locked := acquired |> in
      if canElect version l x then
        if acquired then
          (x <| isLeader := true |> <| held := Some l |> <| cyclePromise := NoCycle |>, Nothing)
        else with_release (x <| isLeader := false |> <| cyclePromise := AwaitRelease |>) (releaseLease l)
      else with_release (x <| cyclePromise := AwaitRelease |>) (releaseLease l)
  | LockReply _ _, None => (x <| cyclePromise := NoCycle |>, Nothing)
  | _, _ => (x, Nothing)
  end.

(** The [catch] of the cycle, for a query of the lease that was rejected. *)
Definition query_failed (x : instance) : reaction :=
  match cyclePromise x with
  | HealthCheck _ | Locking _ | LockReply _ _ =>
      match held x with
      | Some l => handleClientFailure l (x <| cyclePromise := AwaitRelease |>)
      | None => (x <| cyclePromise := NoCycle |>, Nothing)
      end
  | _ => (x, Nothing)
  end.

Definition release_awaited (x : instance) : instance :=
  match cyclePromise x, held x with
  | AwaitRelease, None => x <| cyclePromise := NoCycle |>
  | _, _ => x
  end.

(** The error listener of the dedicated client. *)
Definition client_error (x : instance) : reaction :=
  match this_lease x with Some l => handleClientFailure l x | None => (x, Nothing) end.

(** [_releaseLease] after the unlock query and after [client.end]. *)
Definition unlock_reply (x : instance) : reaction :=
  match held x with
  | Some l => match release l with Unlocked => with_release x (release_finally l) | _ => (x, Nothing) end
  | None => (x, Nothing)
  end.

Definition unlock_failed (x : instance) : reaction :=
  match held x with
  | Some l =>
      match release l with
      | Unlocking | Unlocked => with_release x (release_finally (l <| failed := true |>))
      | _ => (x, Nothing)
      end
  | None => (x, Nothing)
  end.

Definition client_ended (x : instance) : reaction :=
  match held x with
  | Some l => match release l with Ending => (x <| held := None |>, Dropped (session l)) | _ => (x, Nothing) end
  | None => (x, Nothing)
  end.

(** [executeAsLeader], up to the call of the job and after it. *)
Inductive refusal := NOT_LEADER | IN_FLIGHT.

Definition executeAsLeader (jobName : string) (x : instance) : option refusal * instance :=
  if negb (isLeader x) then (Some NOT_LEADER, x)
  else if bool_decide (jobName ∈ inFlight x) then (Some IN_FLIGHT, x)
  else (None, x <| inFlight := {[jobName]} ∪ inFlight x |>).

Definition job_finished (jobName : string) (x : instance) : instance :=
  x <| inFlight := inFlight x ∖ {[jobName]} |>.

(** ** The server *)

(** Who holds the advisory lock, and how many times. *)
Definition holding : Type := option (nat * nat).

Definition pg_try_advisory_lock (s : nat) (h : holding) : bool * holding :=
  match h with
  | None => (true, Some (s, 1%nat))
  | Some (s', n) => if bool_decide (s' = s) then (true, Some (s, S n)) else (false, h)
  end.

Definition pg_advisory_unlock (s : nat) (h : holding) : holding :=
  match h with
  | Some (s', S n) =>
      if bool_decide (s' = s) then match n with O => None | S _ => Some (s, n) end else h
  | _ => h
  end.

Definition end_session (s : nat) (h : holding) : holding :=
  match h with
  | Some (s', _) => if bool_decide (s' = s) then None else h
  | None => None
  end.

(** ** The system *)

Record state := mk_state {
  insts : nat → instance;
  holder : holding;
  ended : gset nat;
  idle : gset nat;
  dropped : gset nat;
  next_session : nat
}.

(** A stretch of code of one instance that needs nothing of the server. *)
Inductive stretch : (instance → reaction) → Prop :=
  | do_start now : stretch (λ x, (start now x, Nothing))
  | do_timer now : stretch (λ x, (electionCycle now x, Nothing))
  | do_stop : stretch (λ x, (stop x, Nothing))
  | do_stepDown ms now : stretch (λ x, (stepDown ms now x, Nothing))
  | do_drained : stretch stepDown_drained
  | do_released : stretch (λ x, (stepDown_released x, Nothing))
  | do_health_reply : stretch (λ x, (health_reply x, Nothing))
  | do_connect_failed : stretch (λ x, (connect_failed x, Nothing))
  | do_lock_reply : stretch lock_reply
  | do_query_failed : stretch query_failed
  | do_release_awaited : stretch (λ x, (release_awaited x, Nothing))
  | do_client_error : stretch client_error
  | do_unlock_reply : stretch unlock_reply
  | do_unlock_failed : stretch unlock_failed
  | do_client_ended : stretch client_ended
  | do_job job : stretch (λ x, ((executeAsLeader job x).2, Nothing))
  | do_job_finished job : stretch (λ x, (job_finished job x, Nothing)).

Definition react (i : nat) (r : reaction) (st : state) : state :=
  let st := st <| insts ::= <[i := r.1]> |> in
  match r.2 with
  | Nothing => st
  | GaveBack s => st <| idle ::= union {[s]} |>
  | Dropped s => st <| dropped ::= union {[s]} |>
  end.

(** A session the client has given up may still execute a lock query it was
    sent before. *)
Definition abandoned (st : state) (s : nat) : Prop :=
  (s ∈ dropped st) ∨ ∃ i l, held (insts st i) = Some l ∧ release l = Ending ∧ session l = s.

Inductive step : state → state → Prop :=
  | local_step i f st : stretch f → step st (react i (f (insts st i)) st)
  | connect_pooled i s v st :
      cyclePromise (insts st i) = Connecting v → s ∈ idle st →
      step st (react i (connected s v (insts st i)) (st <| idle ::= λ l, l ∖ {[s]} |>))
  | connect_new i v st :
      cyclePromise (insts st i) = Connecting v →
      step st (react i (connected (next_session st) v (insts st i))
        (st <| next_session ::= S |>))
  | lock_executed i v l st :
      cyclePromise (insts st i) = Locking v → held (insts st i) = Some l → session l ∉ ended st →
      let r := pg_try_advisory_lock (session l) (holder st) in
      step st (st <| holder ::= λ h, (pg_try_advisory_lock (session l) h).2 |>
                  <| insts ::= <[i := (insts st i) <| cyclePromise := LockReply v r.1 |>]> |>)
  | unlock_executed i l st :
      held (insts st i) = Some l → release l = Unlocking → session l ∉ ended st →
      step st (st <| holder ::= pg_advisory_unlock (session l) |>
                  <| insts ::= <[i := (insts st i) <| held := Some (l <| release := Unlocked |>) |>]> |>)
  | lock_executed_late s st :
      abandoned st s → s ∉ ended st →
      step st (st <| holder ::= λ h, (pg_try_advisory_lock s h).2 |>)
  | session_ended s st :
      (s < next_session st)%nat →
      step st (st <| ended ::= union {[s]} |> <| holder ::= end_session s |>).

Definition initial : state := mk_state (λ _, constructed) None ∅ ∅ ∅ 0.

Definition reachable : state → Prop := rtc step initial.

End Leader.

Module LeaderFacts.
Import Leader.
#[local] Set Warnings "-clear-no-such-hyp".

Definition owner (h : holding) : option nat := fst <$> h.

(** The session of a lease holds the lock once, or the server has ended it. *)
Definition secured (h : holding) (dead : gset nat) (s : nat) : Prop :=
  h = Some (s, 1%nat) ∨ s ∈ dead.

(** The states a live lease can be in. *)
Definition lease_ok (h : holding) (dead : gset nat) (x : instance) (l : lease) : Prop :=
  match release l with
  | NotReleasing =>
      failed l = false ∧
      match cyclePromise x with
      | Locking _ | LockReply _ false => locked l = false ∧ owner h ≠ Some (session l)
      | LockReply _ true => locked l = false ∧ secured h dead (session l)
      | NoCycle | HealthCheck _ =>
          locked l = true ∧ secured h dead (session l) ∧
          (isLeader x = true ∨ stepDownPromise x ≠ NotStepping)
      | _ => False
      end
  | Unlocking =>
      isLeader x = false ∧ secured h dead (session l) ∧
      match cyclePromise x with NoCycle | AwaitRelease => True | _ => False end
  | Unlocked =>
      isLeader x = false ∧ owner h ≠ Some (session l) ∧
      match cyclePromise x with NoCycle | AwaitRelease => True | _ => False end
  | Ending => isLeader x = false ∧ failed l = true
  end.

Definition version_of (c : cycle) : option Z :=
  match c with
  | HealthCheck v | Connecting v | Locking v | LockReply v _ => Some v
  | _ => None
  end.

Record ok (h : holding) (dead : gset nat) (x : instance) : Prop := {
  ok_leader : isLeader x = true →
    running x = true ∧ stepDownPromise x = NotStepping ∧
    match held x with Some l => locked l = true | None => False end;
  ok_version v : version_of (cyclePromise x) = Some v →
    v <= electionVersion x ∧ (stepDownPromise x ≠ NotStepping → v < electionVersion x);
  ok_connecting v : cyclePromise x = Connecting v → held x = None;
  ok_held l : held x = Some l → adopted l = true ∧ lease_ok h dead x l;
  ok_stop : stopPromise x = true → stepDownPromise x ≠ NotStepping
}.

(** What becomes of the session of an instance in one stretch. *)
Definition handed (h : holding) (x x' : instance) (o : handover) : Prop :=
  match o with
  | Nothing => ∀ l', held x' = Some l' → ∃ l, held x = Some l ∧ session l = session l'
  | GaveBack s => held x' = None ∧ ∃ l, held x = Some l ∧ session l = s ∧ owner h ≠ Some s
  | Dropped s => held x' = None ∧ ∃ l, held x = Some l ∧ session l = s
  end.

Lemma constructed_ok h dead : ok h dead constructed.
Proof. split; simpl; intros; simplify_eq; done. Qed.

(** A stretch keeps the invariant of its instance. *)
Definition keeps (h : holding) (dead : gset nat) (x : instance) (r : reaction) : Prop :=
  ok h dead r.1 ∧ handed h x r.1 r.2.

Lemma same_ok h dead x : ok h dead x → keeps h dead x (x, Nothing).
Proof. intros H. split; [done|]. simpl. eauto. Qed.

Definition versions (x : instance) : Prop :=
  (stopPromise x = true → stepDownPromise x ≠ NotStepping) ∧
  ∀ v, version_of (cyclePromise x) = Some v →
    v <= electionVersion x ∧ (stepDownPromise x ≠ NotStepping → v < electionVersion x).

Definition quiet (c : cycle) : Prop :=
  match c with NoCycle | AwaitRelease => True | _ => False end.

(** A lease that may be handed to [_releaseLease]. *)
Definition releasable (h : holding) (dead : gset nat) (x : instance) (l : lease) : Prop :=
  match release l with
  | NotReleasing =>
      failed l = true ∨
      quiet (cyclePromise x) ∧ if locked l then secured h dead (session l) else owner h ≠ Some (session l)
  | Unlocking => quiet (cyclePromise x) ∧ secured h dead (session l)
  | Unlocked => quiet (cyclePromise x) ∧ owner h ≠ Some (session l)
  | Ending => failed l = true
  end.

Definition outcome_of (h : holding) (s0 : nat) (x' : instance) (o : handover) : Prop :=
  match o with
  | Nothing => ∀ l', held x' = Some l' → session l' = s0
  | GaveBack s => held x' = None ∧ s = s0 ∧ owner h ≠ Some s
  | Dropped _ => False
  end.

Lemma outcome_handed h x l x' o : held x = Some l → outcome_of h (session l) x' o → handed h x x' o.
Proof.
  destruct o; simpl; intros Hx H; [|destruct H as (? & -> & ?); eauto 6|done].
  intros l' Hl'. exists l. rewrite (H l' Hl'). done.
Qed.

(** An instance that does not lead and whose lease is being released. *)
Lemma ok_not_leading h dead x :
  isLeader x = false → versions x → (∀ v, cyclePromise x = Connecting v → held x = None) →
  (∀ l, held x = Some l → adopted l = true ∧ release l ≠ NotReleasing ∧ releasable h dead x l) →
  ok h dead x.
Proof.
  intros Hl [Hst Hv] Hc Hh. split; [congruence|done|done| |done].
  intros l El. destruct (Hh l El) as (Ha & Hr & Hb). split; [done|].
  unfold lease_ok, releasable in *. rewrite Hl. destruct (release l); [done|tauto..].
Qed.

Lemma finally_ok h dead x l :
  isLeader x = false → versions x → (∀ v, cyclePromise x ≠ Connecting v) → adopted l = true →
  failed l = true ∨ owner h ≠ Some (session l) →
  let r := with_release x (release_finally l) in ok h dead r.1 ∧ outcome_of h (session l) r.1 r.2.
Proof.
  intros Hld Hv Hc Had Hr. unfold release_finally. simpl. destruct (failed l) eqn:Ef; simpl.
  - split; [apply ok_not_leading; simpl; [done|exact Hv|by intros v ?%Hc|]|]; intros ? [= <-]; simpl; [|done].
    unfold releasable. simpl. auto.
  - split; [apply ok_not_leading; simpl; [done|exact Hv|by intros v ?%Hc|]; intros ? [=]|]. destruct Hr; [done|]. auto.
Qed.

Lemma unlocking_ok h dead x l :
  isLeader x = false → versions x → (∀ v, cyclePromise x ≠ Connecting v) → adopted l = true →
  release l ≠ NotReleasing → releasable h dead x l →
  ok h dead (x <| held := Some l |>) ∧ outcome_of h (session l) (x <| held := Some l |>) Nothing.
Proof.
  intros Hld Hv Hc Had Hr Hl. split; [apply ok_not_leading; simpl; [done|exact Hv|by intros v ?%Hc|]|];
    intros ? [= <-]; [auto|done].
Qed.

Lemma release_ok h dead x l :
  isLeader x = false → versions x → (∀ v, cyclePromise x ≠ Connecting v) →
  adopted l = true → releasable h dead x l →
  let r := with_release x (releaseLease l) in ok h dead r.1 ∧ outcome_of h (session l) r.1 r.2.
Proof.
  intros Hld Hv Hc Had Hr. unfold releaseLease.
  destruct (release l) eqn:Er; try (apply unlocking_ok; auto; congruence).
  unfold releasable in Hr. rewrite Er in Hr.
  destruct (locked l && negb (failed l)) eqn:E; b2p.
  - destruct l as [s ad lk fl rl]. simpl in *. subst.
    apply (unlocking_ok h dead x (mk_lease s true true false Unlocking)); try done.
    unfold releasable. simpl. by destruct Hr.
  - apply finally_ok; try done. destruct Hr as [Hf|[_ Hs]]; [by left|].
    destruct E as [E|E]; [rewrite E in Hs; auto|b2p; by left].
Qed.

(** ** The stretches *)

Lemma ok_versions h dead x : ok h dead x → versions x.
Proof. intros H. split; apply H. Qed.

Lemma ok_releasable h dead x l :
  ok h dead x → held x = Some l → release l ≠ NotReleasing → releasable h dead x l.
Proof.
  intros [_ _ _ H _] Hl Hr. destruct (H l Hl) as [_ Hk]. unfold lease_ok, releasable, quiet in *.
  destruct (release l); [done|tauto..].
Qed.

(** A lease marked as failed can always be released. *)
Lemma failure_keeps h dead x x1 l :
  ok h dead x → held x = Some l → versions x1 → (∀ v, cyclePromise x1 ≠ Connecting v) →
  (quiet (cyclePromise x) → quiet (cyclePromise x1)) →
  keeps h dead x (handleClientFailure l x1).
Proof.
  intros Hok Hl Hv Hc Hq. destruct (ok_held _ _ _ Hok l Hl) as [Ha _].
  pose proof (ok_releasable h dead x l Hok Hl) as Hr.
  unfold handleClientFailure. destruct l as [s ad lk fl rl]. simpl in *. subst ad.
  destruct (release_ok h dead (depose x1) (mk_lease s true lk true rl)) as [H1 H2]; simpl; try done.
  - destruct Hv as [Hst Hv]. split; [done|]. intros v Hv'. unfold depose in *. simpl in *.
    destruct (Hv v Hv'). split; intros; lia.
  - unfold releasable in *. simpl in *. destruct rl; [by left|..|done];
      (destruct Hr as [? ?]; [done|]; auto).
  - split; [done|]. by eapply outcome_handed.
Qed.

Lemma client_error_keeps h dead x : ok h dead x → keeps h dead x (client_error x).
Proof.
  intros Hok. unfold client_error, this_lease. destruct (held x) as [l|] eqn:El; [|by apply same_ok].
  destruct (adopted l); [|by apply same_ok].
  apply failure_keeps; auto; [by eapply ok_versions|]. intros v Hc. apply (ok_connecting _ _ _ Hok) in Hc. congruence.
Qed.

Lemma query_failed_keeps h dead x : ok h dead x → keeps h dead x (query_failed x).
Proof.
  intros Hok. pose proof (same_ok _ _ _ Hok) as Hs. unfold query_failed.
  destruct (cyclePromise x) eqn:Ec; try done;
    (destruct (held x) as [l|] eqn:El;
      [apply failure_keeps; simpl; rewrite ?Ec; try done; (split; [apply Hok|done])|]);
    (split; [|intros l'; simpl; congruence]; destruct Hok as [H1 H2 H3 H4 H5]; split; simpl; rewrite ?El; try done).
  all: by rewrite El in H1.
Qed.

Lemma no_lease_not_leading h dead x : ok h dead x → held x = None → isLeader x = false.
Proof. intros [H _ _ _ _] El. rewrite El in H. destruct (isLeader x); [|done]. by destruct H as (? & ? & ?). Qed.

(** An instance without a lease, between cycles. *)
Lemma idle_ok h dead x :
  (stopPromise x = true → stepDownPromise x ≠ NotStepping) →
  isLeader x = false → held x = None → cyclePromise x = NoCycle → ok h dead x.
Proof. intros Hst Hl El Ec. split; rewrite ?Hl, ?El, ?Ec; done. Qed.

Lemma release_awaited_keeps h dead x : ok h dead x → keeps h dead x (release_awaited x, Nothing).
Proof.
  intros Hok. pose proof (same_ok _ _ _ Hok) as Hs. unfold release_awaited.
  destruct (cyclePromise x) eqn:Ec; try done. destruct (held x) eqn:El; [done|].
  split; [|intros l'; simpl; congruence]. apply idle_ok; simpl; auto; [apply Hok|by eapply no_lease_not_leading].
Qed.

Lemma connect_failed_keeps h dead x : ok h dead x → keeps h dead x (connect_failed x, Nothing).
Proof.
  intros Hok. pose proof (same_ok _ _ _ Hok) as Hs. unfold connect_failed.
  destruct (cyclePromise x) eqn:Ec; try done. pose proof (ok_connecting _ _ _ Hok _ Ec) as El.
  split; [|intros l'; simpl; congruence]. apply idle_ok; simpl; auto; [apply Hok|by eapply no_lease_not_leading].
Qed.

Lemma health_reply_keeps h dead x : ok h dead x → keeps h dead x (health_reply x, Nothing).
Proof.
  intros Hok. pose proof (same_ok _ _ _ Hok) as Hs. unfold health_reply.
  destruct (cyclePromise x) eqn:Ec; try done. split; [|intros l'; simpl; eauto].
  destruct Hok as [H1 H2 H3 H4 H5]. split; simpl; try done. intros l El. destruct (H4 l El) as [Ha Hk].
  split; [done|]. unfold lease_ok in *. rewrite Ec in Hk. simpl. destruct (release l); tauto.
Qed.

Lemma lock_reply_keeps h dead x : ok h dead x → keeps h dead x (lock_reply x).
Proof.
  intros Hok. pose proof (same_ok _ _ _ Hok) as Hs. unfold lock_reply.
  destruct (cyclePromise x) as [| | | |v a|] eqn:Ec; try done.
  destruct (held x) as [l|] eqn:El.
  2:{ split; [|intros l'; simpl; congruence]. apply idle_ok; simpl; auto; [apply Hok|by eapply no_lease_not_leading]. }
  destruct (ok_held _ _ _ Hok l El) as [Ha Hk].
  assert (isLeader x = false) as Hld.
  { destruct (isLeader x) eqn:Ei; [|done]. destruct (ok_leader _ _ _ Hok Ei) as (_ & _ & Hlk).
    rewrite El in Hlk. unfold lease_ok in Hk. rewrite Ec, Ei in Hk.
    destruct (release l); [destruct a|..]; destruct_and?; congruence. }
  assert (versions (x <| cyclePromise := AwaitRelease |>)) as Hv by (split; [apply Hok|done]).
  destruct l as [s ad lk fl rl]. simpl in *. subst ad.
  destruct (canElect v _ x) eqn:Ece; [destruct a|].
  - unfold canElect in Ece. simpl in Ece. b2p. subst fl.
    destruct (ok_version _ _ _ Hok v) as [_ Hst]; [by rewrite Ec|].
    assert (stepDownPromise x = NotStepping) as Hns.
    { destruct (stepDownPromise x); [done|..]; (assert (v < electionVersion x) by auto; lia). }
    unfold lease_ok in Hk. simpl in Hk. rewrite Ec in Hk.
    destruct rl; destruct_and?; try done. split; [|intros l' [= <-]; eauto].
    split; simpl; try done; [|apply Hok]. intros l' [= <-]. simpl. unfold lease_ok. simpl. auto 6.
  - unfold lease_ok in Hk. simpl in Hk. rewrite Ec in Hk.
    destruct (release_ok h dead (x <| isLeader := false |> <| cyclePromise := AwaitRelease |>)
      (mk_lease s true false fl rl)) as [H1 H2]; simpl; try done.
    { unfold releasable. simpl. destruct rl; destruct_and?; try done. right. auto. }
    split; [done|]. by eapply outcome_handed.
  - unfold lease_ok in Hk. simpl in Hk. rewrite Ec in Hk.
    destruct (release_ok h dead (x <| cyclePromise := AwaitRelease |>)
      (mk_lease s true a fl rl)) as [H1 H2]; simpl; try done.
    { unfold releasable. simpl. destruct rl; destruct_and?; try done. right. split; [done|].
      by destruct a; destruct_and?. }
    split; [done|]. by eapply outcome_handed.
Qed.

Lemma not_connecting h dead x l : ok h dead x → held x = Some l → ∀ v, cyclePromise x ≠ Connecting v.
Proof. intros Hok El v Hc%(ok_connecting _ _ _ Hok). congruence. Qed.

Lemma finally_keeps h dead x l b :
  ok h dead x → held x = Some l → isLeader x = false → b = true ∨ failed l = true ∨ owner h ≠ Some (session l) →
  keeps h dead x (with_release x (release_finally (if b then l <| failed := true |> else l))).
Proof.
  intros Hok El Hld Hb. destruct (ok_held _ _ _ Hok l El) as [Ha _].
  destruct (finally_ok h dead x (if b then l <| failed := true |> else l)) as [H1 H2]; try done.
  - by eapply ok_versions.
  - by eapply not_connecting.
  - by destruct b, l.
  - destruct b; [by left|]. destruct Hb as [?|Hb]; done.
  - split; [done|]. eapply outcome_handed; [done|]. by destruct b, l.
Qed.

Lemma unlock_reply_keeps h dead x : ok h dead x → keeps h dead x (unlock_reply x).
Proof.
  intros Hok. pose proof (same_ok _ _ _ Hok) as Hs. unfold unlock_reply.
  destruct (held x) as [l|] eqn:El; [|done]. destruct (release l) eqn:Er; try done.
  destruct (ok_held _ _ _ Hok l El) as [Ha Hk]. unfold lease_ok in Hk. rewrite Er in Hk. destruct_and?.
  apply (finally_keeps _ _ _ l false); auto.
Qed.

Lemma unlock_failed_keeps h dead x : ok h dead x → keeps h dead x (unlock_failed x).
Proof.
  intros Hok. pose proof (same_ok _ _ _ Hok) as Hs. unfold unlock_failed.
  destruct (held x) as [l|] eqn:El; [|done].
  destruct (ok_held _ _ _ Hok l El) as [Ha Hk]. unfold lease_ok in Hk.
  destruct (release l) eqn:Er; try done; destruct_and?; apply (finally_keeps _ _ _ l true); auto.
Qed.

Lemma client_ended_keeps h dead x : ok h dead x → keeps h dead x (client_ended x).
Proof.
  intros Hok. pose proof (same_ok _ _ _ Hok) as Hs. unfold client_ended.
  destruct (held x) as [l|] eqn:El; [|done]. destruct (release l) eqn:Er; try done.
  destruct (ok_held _ _ _ Hok l El) as [Ha Hk]. unfold lease_ok in Hk. rewrite Er in Hk. destruct_and?.
  split; [|simpl; eauto]. destruct Hok as [H1 H2 H3 H4 H5]. split; simpl; try done. congruence.
Qed.

Lemma stepped_down_ok h dead x :
  ok h dead x → held x = None → ok h dead (stepped_down x).
Proof.
  intros Hok El. pose proof (no_lease_not_leading _ _ _ Hok El) as Hld. destruct Hok as [H1 H2 H3 H4 H5].
  split; simpl; try congruence; [intros v Hv; destruct (H2 v Hv); auto|done].
Qed.

Lemma drained_keeps h dead x : ok h dead x → keeps h dead x (stepDown_drained x).
Proof.
  intros Hok. pose proof (same_ok _ _ _ Hok) as Hs. unfold stepDown_drained, this_lease.
  destruct (stepDownPromise x) eqn:Esd; try done. destruct (cyclePromise x) eqn:Ec; try done.
  destruct (held x) as [l|] eqn:El.
  2:{ split; [by apply stepped_down_ok|intros l'; simpl; congruence]. }
  destruct (ok_held _ _ _ Hok l El) as [Ha Hk]. rewrite Ha.
  assert (isLeader x = false) as Hld.
  { destruct (isLeader x) eqn:Ei; [|done]. destruct (ok_leader _ _ _ Hok Ei). destruct_and?. congruence. }
  destruct (release_ok h dead (x <| stepDownPromise := ReleasingLease |>) l) as [H1 H2]; simpl; try done.
  - split; [done|]. intros v. simpl. by rewrite Ec.
  - intros v. simpl. congruence.
  - unfold lease_ok, releasable in *. simpl. rewrite Ec in *.
    destruct (release l); [|tauto..]. right. destruct Hk as (_ & Hlk & Hk & _). by rewrite Hlk.
  - split; [done|]. by eapply outcome_handed.
Qed.

Lemma stepDown_released_keeps h dead x : ok h dead x → keeps h dead x (stepDown_released x, Nothing).
Proof.
  intros Hok. pose proof (same_ok _ _ _ Hok) as Hs. unfold stepDown_released.
  destruct (stepDownPromise x) eqn:Esd; try done. destruct (held x) as [l|] eqn:El; [done|].
  split; [by apply stepped_down_ok|intros l'; simpl; congruence].
Qed.

Lemma depose_stepping_ok h dead x d :
  ok h dead x → d ≠ NotStepping → ok h dead ((depose x) <| stepDownPromise := d |>).
Proof.
  intros [H1 H2 H3 H4 H5] Hd. unfold depose. split; simpl; try done.
  - intros v Hv. destruct (H2 v Hv). split; intros; lia.
  - intros l El. destruct (H4 l El) as [Ha Hk]. split; [done|]. unfold lease_ok in *. simpl.
    destruct (release l); [|tauto..]. destruct (cyclePromise x); tauto.
Qed.

Lemma ok_fields h dead x x' :
  ok h dead x → isLeader x' = isLeader x → (isLeader x = true → running x' = true) → electionVersion x' = electionVersion x →
  held x' = held x → cyclePromise x' = cyclePromise x → stepDownPromise x' = stepDownPromise x →
  (stopPromise x' = true → stepDownPromise x ≠ NotStepping) → ok h dead x'.
Proof.
  intros [H1 H2 H3 H4 H5] E1 E2 E3 E4 E5 E6 E7. split; unfold lease_ok; rewrite ?E1, ?E3, ?E4, ?E5, ?E6; auto.
  intros Hl. destruct (H1 Hl) as (? & ? & ?). auto.
Qed.

(** The promise of the step-down in progress, after [stepDown]. *)
Definition stepping_on (d : stepping) : stepping :=
  match d with NotStepping => Draining | _ => d end.

Lemma stepDown_fields ms now x :
  let x' := stepDown ms now x in
  isLeader x' = false ∧ running x' = running x ∧ electionVersion x' = 1 + electionVersion x ∧
  held x' = held x ∧ cyclePromise x' = cyclePromise x ∧
  stepDownPromise x' = stepping_on (stepDownPromise x) ∧ stopPromise x' = stopPromise x.
Proof.
  destruct x as [ld rn ver pz hl cy sd st jobs]. unfold stepDown, depose. simpl.
  destruct (0 <? ms); simpl; destruct sd; simpl; auto 10.
Qed.

Lemma stepDown_ok h dead x x' :
  ok h dead x → isLeader x' = false → electionVersion x' = 1 + electionVersion x → held x' = held x →
  cyclePromise x' = cyclePromise x → stepDownPromise x' = stepping_on (stepDownPromise x) →
  keeps h dead x (x', Nothing).
Proof.
  intros Hok El Ev Eh Ec Esd. split; [|intros l'; simpl; rewrite Eh; eauto].
  assert (stepping_on (stepDownPromise x) ≠ NotStepping) as Hd by by destruct (stepDownPromise x).
  apply (ok_fields h dead ((depose x) <| stepDownPromise := stepping_on (stepDownPromise x) |>));
    [by apply depose_stepping_ok|done..].
Qed.

Lemma stepDown_keeps h dead ms now x : ok h dead x → keeps h dead x (stepDown ms now x, Nothing).
Proof. intros Hok. destruct (stepDown_fields ms now x) as (? & ? & ? & ? & ? & ? & ?). by apply stepDown_ok. Qed.

Lemma stop_keeps h dead x : ok h dead x → keeps h dead x (stop x, Nothing).
Proof.
  intros Hok. unfold stop. simpl. destruct (stopPromise x) eqn:Est.
  - pose proof (ok_stop _ _ _ Hok Est) as Hsd. split; [|intros l'; simpl; eauto].
    apply (ok_fields h dead x); try done. intros Hl. destruct (ok_leader _ _ _ Hok Hl) as (_ & ? & _). done.
  - destruct (stepDown_fields 0 0 (x <| running := false |>)) as (? & ? & ? & ? & ? & ? & ?). by apply stepDown_ok.
Qed.

Lemma electionCycle_keeps h dead now x : ok h dead x → keeps h dead x (electionCycle now x, Nothing).
Proof.
  intros Hok. pose proof (same_ok _ _ _ Hok) as Hs. unfold electionCycle, this_lease.
  destruct (running x) eqn:Er; [|done]. simpl. destruct (stepDownPromise x) eqn:Esd; try done.
  destruct (held x) as [l|] eqn:El.
  - destruct (ok_held _ _ _ Hok l El) as [Ha Hk]. rewrite Ha. unfold lease_ok in Hk. rewrite Esd in Hk.
    destruct (release l) eqn:Erl; try done. destruct (_ && _); [done|].
    destruct (cyclePromise x) eqn:Ec; try done. destruct Hk as (Hf & Hlk & Hsec & [Hld|Hns]); [|done].
    rewrite Hld. split; [|intros l'; simpl; eauto].
    destruct Hok as [H1 H2 H3 H4 H5]. split; simpl; try done.
    + intros v [= <-]. split; [lia|done].
    + intros l' El'. assert (l' = l) as -> by congruence. split; [done|].
      unfold lease_ok. simpl. rewrite Erl. auto.
  - destruct (_ && _); [done|]. destruct (cyclePromise x) eqn:Ec; try done.
    split; [|intros l'; simpl; eauto]. pose proof (no_lease_not_leading _ _ _ Hok El) as Hld.
    destruct Hok as [H1 H2 H3 H4 H5]. split; simpl; try congruence; [|done].
    intros v [= <-]. split; [lia|done].
Qed.

Lemma start_keeps h dead now x : ok h dead x → keeps h dead x (start now x, Nothing).
Proof.
  intros Hok. pose proof (same_ok _ _ _ Hok) as Hs. unfold start.
  destruct (stopPromise x) eqn:Est; [done|]. destruct (running x) eqn:Er; [done|].
  assert (ok h dead (x <| running := true |>)) as H.
  { apply (ok_fields h dead x); try done. simpl. congruence. }
  apply (electionCycle_keeps h dead now) in H as [H1 H2]. split; [done|]. exact H2.
Qed.

Lemma jobs_keeps h dead x js : ok h dead x → keeps h dead x (x <| inFlight := js |>, Nothing).
Proof.
  intros Hok. split; [|intros l'; simpl; eauto]. apply (ok_fields h dead x); try done; [|apply Hok].
  intros Hl. by destruct (ok_leader _ _ _ Hok Hl).
Qed.

Lemma stretch_keeps h dead f x : stretch f → ok h dead x → keeps h dead x (f x).
Proof.
  intros [] Hok; auto using start_keeps, electionCycle_keeps, stop_keeps, stepDown_keeps, drained_keeps,
    stepDown_released_keeps, health_reply_keeps, connect_failed_keeps, lock_reply_keeps, query_failed_keeps,
    release_awaited_keeps, client_error_keeps, unlock_reply_keeps, unlock_failed_keeps, client_ended_keeps.
  - unfold executeAsLeader. pose proof (same_ok _ _ _ Hok). repeat case_match; simpl; auto using jobs_keeps.
  - by apply jobs_keeps.
Qed.

(** ** The whole system *)

(** A change of the lock or of the set of ended sessions, as seen by an instance. *)
Definition unaffected (h h' : holding) (dead dead' : gset nat) (s : nat) : Prop :=
  (secured h dead s → secured h' dead' s) ∧ (owner h ≠ Some s → owner h' ≠ Some s).

Lemma ok_holder h h' dead dead' x :
  (∀ l, held x = Some l → release l ≠ Ending → unaffected h h' dead dead' (session l)) →
  ok h dead x → ok h' dead' x.
Proof.
  intros Hu [H1 H2 H3 H4 H5]. split; auto. intros l El. destruct (H4 l El) as [Ha Hk]. split; [done|].
  specialize (Hu l El). unfold lease_ok in *. destruct (release l); [|..|done];
    (destruct Hu as [Hs Ho]; [done|]).
  - destruct (cyclePromise x) as [| | | |? []|]; tauto.
  - tauto.
  - tauto.
Qed.

Lemma try_lock_others s s' h dead :
  s' ≠ s → unaffected h (pg_try_advisory_lock s h).2 dead dead s'.
Proof.
  intros Hne. unfold unaffected, secured, pg_try_advisory_lock, owner.
  destruct h as [[s0 n]|]; simpl; [case_bool_decide; subst; simpl|]; (split; [intros [?|?]; [simplify_eq; auto|auto]|congruence]).
Qed.

Lemma unlock_others s s' h dead : s' ≠ s → unaffected h (pg_advisory_unlock s h) dead dead s'.
Proof.
  intros Hne. unfold unaffected, secured, pg_advisory_unlock, owner.
  destruct h as [[s0 [|[|n]]]|]; simpl; try done; case_bool_decide; subst; simpl; (split; [intros [?|?]; [simplify_eq; auto|auto]|congruence]).
Qed.

Lemma end_session_unaffected s s' h dead :
  unaffected h (end_session s h) dead ({[s]} ∪ dead) s'.
Proof.
  unfold unaffected, secured, end_session, owner. split.
  - destruct (decide (s' = s)) as [->|Hne]; [right; set_solver|].
    intros [->|Hd]; [|right; set_solver]. left. by rewrite bool_decide_false.
  - destruct h as [[s0 n]|]; simpl; [|done]. by case_bool_decide.
Qed.

Record inv (st : state) : Prop := {
  inv_ok i : ok (holder st) (ended st) (insts st i);
  inv_distinct i j l l' : held (insts st i) = Some l → held (insts st j) = Some l' →
    session l = session l' → i = j;
  inv_leased i l : held (insts st i) = Some l →
    (session l ∉ idle st ∪ dropped st) ∧ (session l < next_session st)%nat;
  inv_pool s : s ∈ (idle st ∪ dropped st) → (s < next_session st)%nat;
  inv_apart : idle st ## dropped st;
  inv_holder s n : holder st = Some (s, n) →
    (s ∉ idle st) ∧ (s < next_session st)%nat ∧ (s ∉ ended st);
  inv_ended s : s ∈ ended st → (s < next_session st)%nat
}.

Lemma initial_inv : inv initial.
Proof. split; simpl; try done; try (intros; apply constructed_ok); set_solver. Qed.

Lemma lookup_insts (f : nat → instance) i j x : (<[i := x]> f) j = if decide (i = j) then x else f j.
Proof. destruct (decide (i = j)) as [->|]; [apply fn_lookup_insert|by apply fn_lookup_insert_ne]. Qed.

(** One instance reacts: it keeps, gives back or drops its session, or holds a
    session [s] nobody else has. *)
Lemma react_inv st i r :
  inv st → ok (holder st) (ended st) r.1 →
  (∀ l, held r.1 = Some l →
    (session l ∉ idle st ∪ dropped st) ∧ (session l < next_session st)%nat ∧
    ∀ j l', j ≠ i → held (insts st j) = Some l' → session l' ≠ session l) →
  (∀ s, r.2 = GaveBack s ∨ r.2 = Dropped s →
    held r.1 = None ∧ (s ∉ idle st ∪ dropped st) ∧ (s < next_session st)%nat ∧
    ∀ j l', j ≠ i → held (insts st j) = Some l' → session l' ≠ s) →
  (∀ s, r.2 = GaveBack s → owner (holder st) ≠ Some s) →
  inv (react i r st).
Proof.
  intros [I1 I2 I3 I4 I5 I6 I7] Hok Hl Hh Hg. destruct r as [x o]. unfold react. simpl in *.
  assert (∀ j, ok (holder st) (ended st) ((<[i:=x]> (insts st)) j)) as J1.
  { intros j. rewrite lookup_insts. by case_decide. }
  assert (∀ j k l l', held ((<[i:=x]> (insts st)) j) = Some l → held ((<[i:=x]> (insts st)) k) = Some l' →
    session l = session l' → j = k) as J2.
  { intros j k l l'. rewrite !lookup_insts. do 2 case_decide; subst; try done; intros E1 E2 Es.
    - destruct (Hl _ E1) as (_ & _ & Hn). by destruct (Hn k l').
    - destruct (Hl _ E2) as (_ & _ & Hn). by destruct (Hn j l).
    - by eapply I2. }
  assert (∀ j l, held ((<[i:=x]> (insts st)) j) = Some l →
    (session l ∉ idle st ∪ dropped st) ∧ (session l < next_session st)%nat ∧
    ∀ s, o = GaveBack s ∨ o = Dropped s → session l ≠ s) as J3.
  { intros j l. rewrite lookup_insts. case_decide; subst; intros E.
    - destruct (Hl _ E) as (? & ? & _). split_and!; [done..|]. intros s Ho. destruct (Hh s Ho). congruence.
    - destruct (I3 _ _ E). split_and!; [done..|]. intros s (_ & _ & _ & Hn)%Hh. by eapply Hn. }
  destruct o as [|s|s]; simpl.
  - split; simpl; try done. intros j l (? & ? & _)%J3. done.
  - destruct (Hh s) as (_ & Hni & Hlt & _); [by left|]. specialize (Hg s eq_refl).
    split; simpl; try done.
    + intros j l (? & ? & Hn)%J3. specialize (Hn s (or_introl eq_refl)). set_solver.
    + intros s'. rewrite !elem_of_union, elem_of_singleton. intros [[->|]|]; [done|apply I4; set_solver..].
    + set_solver.
    + intros s' n E. destruct (I6 s' n E) as (? & ? & ?). split_and!; [|done..].
      rewrite E in Hg. simpl in Hg. set_solver.
  - destruct (Hh s) as (_ & Hni & Hlt & _); [by right|]. split; simpl; try done.
    + intros j l (? & ? & Hn)%J3. specialize (Hn s (or_intror eq_refl)). set_solver.
    + intros s'. rewrite !elem_of_union, elem_of_singleton. intros [|[->|]]; [apply I4; set_solver|done|apply I4; set_solver].
    + set_solver.
Qed.

Lemma handed_react st i r :
  inv st → keeps (holder st) (ended st) (insts st i) r → inv (react i r st).
Proof.
  intros I [Hok Hh]. destruct r as [x o]. unfold handed in Hh. simpl in *.
  assert (∀ l0, held (insts st i) = Some l0 → ∀ j l', j ≠ i → held (insts st j) = Some l' → session l' ≠ session l0)
    as Hoth.
  { intros l0 E0 j l' Hj E' Es. apply Hj. by eapply (inv_distinct _ I). }
  apply react_inv; simpl; try done.
  - intros l El. destruct o; [|destruct Hh; congruence..].
    destruct (Hh l El) as (l0 & E0 & <-). destruct (inv_leased _ I _ _ E0). split_and!; [done..|by apply Hoth].
  - intros s [->| ->]; destruct Hh as [Hn (l0 & E0 & Hs)].
    + destruct Hs as [<- _]. destruct (inv_leased _ I _ _ E0). split_and!; [done..|by apply Hoth].
    + subst s. destruct (inv_leased _ I _ _ E0). split_and!; [done..|by apply Hoth].
  - intros s ->. by destruct Hh as [_ (l0 & E0 & _ & ?)].
Qed.

(** A session nobody has: not leased, not in the pool, not dropped. *)
Definition free (st : state) (s : nat) : Prop :=
  (s ∉ idle st ∪ dropped st) ∧ (s < next_session st)%nat ∧ owner (holder st) ≠ Some s ∧
  ∀ j l, held (insts st j) = Some l → session l ≠ s.

Lemma connected_inv st i s v :
  inv st → cyclePromise (insts st i) = Connecting v → free st s →
  inv (react i (connected s v (insts st i)) st).
Proof.
  intros I Ec (Hni & Hlt & Hown & Hoth). pose proof (inv_ok _ I i) as Hok.
  pose proof (ok_connecting _ _ _ Hok _ Ec) as El. pose proof (no_lease_not_leading _ _ _ Hok El) as Hld.
  unfold connected. destruct (canElect _ _ _).
  - apply react_inv; simpl; try done.
    + destruct Hok as [H1 H2 H3 H4 H5]. split; simpl; try done; [congruence|intros v' [= <-]; apply H2; by rewrite Ec|].
      intros l [= <-]. simpl. split; [done|]. unfold lease_ok. simpl. split_and!; done.
    + intros l [= <-]. simpl. split_and!; [done..|]. intros j l' _. apply Hoth.
    + intros s' [|]; done.
  - apply react_inv; simpl; try done.
    + apply ok_not_leading; simpl; try done. split; [apply Hok|done].
    + intros s' [[= <-]|]; [|done]. split_and!; [done..|]. intros j l' _. apply Hoth.
    + intros s' [= <-]. done.
Qed.

Lemma with_pool_inv st s : inv st → s ∈ idle st → inv (st <| idle ::= λ l, l ∖ {[s]} |>).
Proof.
  intros [I1 I2 I3 I4 I5 I6 I7] Hs. split; simpl; try done.
  - intros i l [? ?]%I3. split; [set_solver|done].
  - intros s' ?. apply I4. set_solver.
  - set_solver.
  - intros s' n (? & ? & ?)%I6. split_and!; [set_solver|done..].
Qed.

Lemma with_session_inv st : inv st → inv (st <| next_session ::= S |>).
Proof.
  intros [I1 I2 I3 I4 I5 I6 I7]. split; simpl; try done.
  - intros i l [? ?]%I3. split; [done|lia].
  - intros s' ?%I4. lia.
  - intros s' n (? & ? & ?)%I6. split_and!; [done|lia|done].
  - intros s' ?%I7. lia.
Qed.

Lemma pooled_free st s : inv st → s ∈ idle st → free (st <| idle ::= λ l, l ∖ {[s]} |>) s.
Proof.
  intros I Hs. split_and!; simpl.
  - pose proof (inv_apart _ I). set_solver.
  - apply (inv_pool _ I). set_solver.
  - intros Ho. unfold owner in Ho. destruct (holder st) as [[s' n]|] eqn:E; simpl in Ho; [|done].
    simplify_eq. destruct (inv_holder _ I _ _ E). done.
  - intros j l [Hn _]%(inv_leased _ I) <-. set_solver.
Qed.

Lemma new_free st : inv st → free (st <| next_session ::= S |>) (next_session st).
Proof.
  intros I. split_and!; simpl; [|lia|..].
  - intros H%(inv_pool _ I). lia.
  - intros Ho. unfold owner in Ho. destruct (holder st) as [[s' n]|] eqn:E; simpl in Ho; [|done].
    simplify_eq. destruct (inv_holder _ I _ _ E) as (_ & ? & _). lia.
  - intros j l [_ Hn]%(inv_leased _ I). lia.
Qed.

(** The server changes the lock or ends a session, and one instance may learn of it. *)
Lemma server_inv st f h' dead' :
  inv st →
  (∀ j, ok h' dead' (f j) ∧
    ∀ l', held (f j) = Some l' → ∃ l, held (insts st j) = Some l ∧ session l = session l') →
  (∀ s n, h' = Some (s, n) → (s ∉ idle st) ∧ (s < next_session st)%nat ∧ (s ∉ dead')) →
  (∀ s, s ∈ dead' → (s < next_session st)%nat) →
  inv (mk_state f h' dead' (idle st) (dropped st) (next_session st)).
Proof.
  intros [I1 I2 I3 I4 I5 I6 I7] Hf Hh Hd. split; simpl; try done.
  - intros j. apply Hf.
  - intros i j l l' Ei Ej Es. apply Hf in Ei as (l1 & E1 & S1). apply Hf in Ej as (l2 & E2 & S2).
    apply (I2 i j l1 l2); [done..|congruence].
  - intros i l Ei. apply Hf in Ei as (l1 & E1 & <-). by apply I3 in E1.
Qed.

Lemma try_lock_holder st s s' n :
  inv st → (s ∉ idle st) → (s < next_session st)%nat → (s ∉ ended st) →
  (pg_try_advisory_lock s (holder st)).2 = Some (s', n) →
  (s' ∉ idle st) ∧ (s' < next_session st)%nat ∧ (s' ∉ ended st).
Proof.
  intros I Hi Hlt He. unfold pg_try_advisory_lock. destruct (holder st) as [[s0 m]|] eqn:E; simpl.
  - case_bool_decide; simpl; intros; simplify_eq; [done|]. by apply (inv_holder _ I _ _ E).
  - intros; simplify_eq. done.
Qed.

Lemma lock_executed_inv st i v l :
  inv st → cyclePromise (insts st i) = Locking v → held (insts st i) = Some l → (session l ∉ ended st) →
  let r := pg_try_advisory_lock (session l) (holder st) in
  inv (mk_state (<[i := (insts st i) <| cyclePromise := LockReply v r.1 |>]> (insts st)) r.2 (ended st)
    (idle st) (dropped st) (next_session st)).
Proof.
  intros I Ec El He r. destruct (inv_leased _ I i l El) as [Hni Hlt].
  apply server_inv; [done| |intros s n; apply try_lock_holder; [done|set_solver|done..]|apply I].
  intros j. rewrite lookup_insts. case_decide as Hj; [subst j|].
  - split; [|simpl; eauto]. destruct (inv_ok _ I i) as [H1 H2 H3 H4 H5].
    destruct (H4 l El) as [Ha Hk]. split; simpl; try done.
    + intros v' [= <-]. apply H2. by rewrite Ec.
    + intros l' El'. assert (l' = l) as -> by congruence. split; [done|].
      unfold lease_ok in *. simpl. rewrite Ec in Hk. subst r.
      destruct (release l); destruct_and?; try done. unfold pg_try_advisory_lock, secured, owner in *.
      destruct (holder st) as [[s0 n]|]; simpl in *; [|auto].
      rewrite bool_decide_false by congruence. simpl. auto.
  - split; [|eauto]. apply (ok_holder (holder st) _ (ended st)); [|apply I]. intros l' El' _.
    apply try_lock_others. intros Es. by destruct (Hj (inv_distinct _ I _ _ _ _ El El' (eq_sym Es))).
Qed.

Lemma unlock_executed_inv st i l :
  inv st → held (insts st i) = Some l → release l = Unlocking → (session l ∉ ended st) →
  inv (mk_state (<[i := (insts st i) <| held := Some (l <| release := Unlocked |>) |>]> (insts st))
    (pg_advisory_unlock (session l) (holder st)) (ended st) (idle st) (dropped st) (next_session st)).
Proof.
  intros I El Er He. destruct (inv_ok _ I i) as [H1 H2 H3 H4 H5]. destruct (H4 l El) as [Ha Hk].
  unfold lease_ok in Hk. rewrite Er in Hk. destruct Hk as (Hld & [Hh|Hd] & Hq); [|done].
  assert (pg_advisory_unlock (session l) (holder st) = None) as Hnone.
  { rewrite Hh. simpl. by rewrite bool_decide_true. }
  apply server_inv; [done| |rewrite Hnone; done|apply I].
  intros j. rewrite lookup_insts. case_decide as Hj; [subst j|].
  - split; [|intros l' [= <-]; exists l; by destruct l]. rewrite Hnone. destruct l as [s ad lk fl rl]. simpl in *.
    split; simpl; try done; [congruence|..].
    + intros v Hc. apply H3 in Hc. congruence.
    + intros l' [= <-]. simpl. split; [done|]. unfold lease_ok. simpl. done.
  - split; [|eauto]. apply (ok_holder (holder st) _ (ended st)); [|apply I]. intros l' El' _.
    apply unlock_others. intros Es. by destruct (Hj (inv_distinct _ I _ _ _ _ El El' (eq_sym Es))).
Qed.

Lemma lock_late_inv st s :
  inv st → abandoned st s → (s ∉ ended st) →
  inv (st <| holder ::= λ h, (pg_try_advisory_lock s h).2 |>).
Proof.
  intros I Hs He.
  assert ((s ∉ idle st) ∧ (s < next_session st)%nat ∧
    ∀ j l, held (insts st j) = Some l → release l ≠ Ending → session l ≠ s) as (Hi & Hlt & Hoth).
  { destruct Hs as [Hd|(i & l & El & Er & <-)].
    - split_and!; [pose proof (inv_apart _ I); set_solver|apply (inv_pool _ I); set_solver|].
      intros j l [Hn _]%(inv_leased _ I) _ <-. set_solver.
    - destruct (inv_leased _ I _ _ El). split_and!; [set_solver|done|].
      intros j l' El' Er' Es. assert (i = j) as -> by (by eapply (inv_distinct _ I)). congruence. }
  apply (server_inv st (insts st)); [done| |intros s' n; by apply try_lock_holder|apply I].
  intros j. split; [|eauto]. apply (ok_holder (holder st) _ (ended st)); [|apply I].
  intros l El Er. by apply try_lock_others, (Hoth j).
Qed.

Lemma session_ended_inv st s :
  inv st → (s < next_session st)%nat → inv (st <| ended ::= union {[s]} |> <| holder ::= end_session s |>).
Proof.
  intros I Hs. apply (server_inv st (insts st) (end_session s (holder st)) ({[s]} ∪ ended st)); [done|..].
  - intros j. split; [|eauto]. apply (ok_holder (holder st) _ (ended st)); [|apply I].
    intros l El _. apply end_session_unaffected.
  - unfold end_session. intros s' n. destruct (holder st) as [[s0 m]|] eqn:E; [|intros [=]].
    destruct (inv_holder _ I _ _ E) as (? & ? & ?). case_bool_decide; intros; simplify_eq.
    split_and!; [done..|set_solver].
  - intros s'. rewrite elem_of_union, elem_of_singleton. intros [->|]; [done|by apply (inv_ended _ I)].
Qed.

Lemma step_inv st st' : step st st' → inv st → inv st'.
Proof.
  intros [i f st0 Hf|i s v st0 Ec Hs|i v st0 Ec|i v l st0 Ec El He r|i l st0 El Er He|s st0 Hs He|s st0 Hs] I.
  - apply handed_react; [done|]. apply stretch_keeps; [done|apply I].
  - exact (connected_inv (st0 <| idle ::= λ l, l ∖ {[s]} |>) i s v (with_pool_inv _ _ I Hs) Ec (pooled_free _ _ I Hs)).
  - exact (connected_inv (st0 <| next_session ::= S |>) i _ v (with_session_inv _ I) Ec (new_free _ I)).
  - exact (lock_executed_inv st0 i v l I Ec El He).
  - exact (unlock_executed_inv st0 i l I El Er He).
  - by apply lock_late_inv.
  - by apply session_ended_inv.
Qed.

Lemma reachable_inv st : reachable st → inv st.
Proof.
  unfold reachable. intros H. assert (inv initial) as H0 by apply initial_inv.
  induction H; eauto using step_inv.
Qed.

(** What a leader has. *)
Lemma leader_lease st i :
  inv st → isLeader (insts st i) = true →
  ∃ l, held (insts st i) = Some l ∧ secured (holder st) (ended st) (session l).
Proof.
  intros I Hi. pose proof (inv_ok _ I i) as Hok. destruct (ok_leader _ _ _ Hok Hi) as (_ & Hns & Hl).
  destruct (held (insts st i)) as [l|] eqn:El; [|done]. exists l. split; [done|].
  destruct (ok_held _ _ _ Hok l El) as [_ Hk]. unfold lease_ok in Hk. rewrite Hi, Hns in Hk.
  destruct (release l); [destruct (cyclePromise _) as [| | | |? []|]|..]; destruct_and?; first [done|congruence].
Qed.

(** C9. At most one leader: in every interleaving of instances, server replies,
    lost replies and ended sessions, two instances that believe to lead, with
    sessions the server has not ended, are the same instance. *)
Theorem leader_unique st i j l l' :
  reachable st →
  isLeader (insts st i) = true → held (insts st i) = Some l → (session l ∉ ended st) →
  isLeader (insts st j) = true → held (insts st j) = Some l' → (session l' ∉ ended st) →
  i = j.
Proof.
  intros I%reachable_inv Hi El He Hj El' He'.
  destruct (leader_lease _ _ I Hi) as (l1 & E1 & [H1|]); [|congruence].
  destruct (leader_lease _ _ I Hj) as (l2 & E2 & [H2|]); [|congruence].
  apply (inv_distinct _ I i j l1 l2); congruence.
Qed.

(** No advisory lock leaks into the pool: the session that holds it is never
    an idle pool session, so no unrelated borrower can come to own it. *)
Theorem pool_never_holds_lock st s :
  reachable st → s ∈ idle st → owner (holder st) ≠ Some s.
Proof.
  intros I%reachable_inv Hs Ho. unfold owner in Ho.
  destruct (holder st) as [[s' n]|] eqn:E; simpl in Ho; [|done]. simplify_eq.
  by destruct (inv_holder _ I _ _ E).
Qed.

(** ** Stopping *)

(** A stopped instance, once its step-down is over, has no cycle and no lease. *)
Definition parked (x : instance) : Prop :=
  (stepDownPromise x = ReleasingLease → cyclePromise x = NoCycle) ∧
  (running x = false → stepDownPromise x = NotStepping → cyclePromise x = NoCycle ∧ held x = None).

Lemma parked_same x x' :
  parked x → running x' = running x → stepDownPromise x' = stepDownPromise x →
  (cyclePromise x = NoCycle → cyclePromise x' = NoCycle ∧ (held x = None → held x' = None)) → parked x'.
Proof.
  intros [P1 P2] Er Es Hc. split; rewrite ?Er, ?Es.
  - intros H. by apply Hc, P1.
  - intros H1 H2. destruct (P2 H1 H2) as [E1 E2]. destruct (Hc E1). auto.
Qed.

Lemma release_fields x r :
  let x' := (with_release x r).1 in
  running x' = running x ∧ stepDownPromise x' = stepDownPromise x ∧ cyclePromise x' = cyclePromise x.
Proof. done. Qed.

Lemma failure_fields l x :
  let x' := (handleClientFailure l x).1 in
  running x' = running x ∧ stepDownPromise x' = stepDownPromise x ∧ cyclePromise x' = cyclePromise x.
Proof. unfold handleClientFailure. by destruct (adopted _). Qed.

Lemma electionCycle_parked now x : parked x → parked (electionCycle now x).
Proof.
  intros Hp. unfold electionCycle. destruct (running x) eqn:Er; [|done]. simpl.
  destruct (stepDownPromise x) eqn:Es; try done.
  destruct (match this_lease x with Some _ => _ | None => _ end); [done|]. destruct (_ && _); [done|].
  destruct (cyclePromise x) eqn:Ec; try done. split; simpl; congruence.
Qed.

Lemma stretch_parked h dead f x : stretch f → ok h dead x → parked x → parked (f x).1.
Proof.
  intros Hf Hok Hp. destruct Hf; simpl.
  - unfold start. destruct (stopPromise x) eqn:Est; [done|]. destruct (running x) eqn:Er; [done|].
    apply electionCycle_parked. destruct Hp as [P1 P2]. by split.
  - by apply electionCycle_parked.
  - unfold stop. simpl. destruct (stopPromise x) eqn:Est.
    + pose proof (ok_stop _ _ _ Hok Est). destruct Hp as [P1 P2]. split; simpl; [done|]. by intros _ ?.
    + destruct (stepDown_fields 0 0 (x <| running := false |>)) as (? & ? & ? & ? & Ec & Esd & ?).
      destruct Hp as [P1 P2]. simpl in *. split; simpl; rewrite Esd, ?Ec; destruct (stepDownPromise x); try done; auto.
  - destruct (stepDown_fields ms now x) as (? & Er & ? & ? & Ec & Esd & ?).
    destruct Hp as [P1 P2]. simpl in *. split; rewrite Esd, ?Ec; destruct (stepDownPromise x); try done; auto.
  - unfold stepDown_drained. destruct (stepDownPromise x) eqn:Es; try done.
    destruct (cyclePromise x) eqn:Ec; try done. unfold this_lease.
    destruct (held x) as [l|] eqn:El; [rewrite (proj1 (ok_held _ _ _ Hok l El))|]; (split; simpl; [done|]).
    + done.
    + auto.
  - unfold stepDown_released. destruct (stepDownPromise x) eqn:Es; try done.
    destruct (held x) eqn:El; [done|]. destruct Hp as [P1 P2]. split; simpl; [done|]. auto.
  - unfold health_reply. destruct (cyclePromise x) eqn:Ec; try done. by apply (parked_same x); rewrite ?Ec.
  - unfold connect_failed. destruct (cyclePromise x) eqn:Ec; try done. by apply (parked_same x); rewrite ?Ec.
  - unfold lock_reply. destruct (cyclePromise x) eqn:Ec; try done.
    repeat case_match; simpl; by apply (parked_same x); rewrite ?Ec.
  - unfold query_failed. destruct (cyclePromise x) eqn:Ec; try done; (destruct (held x) as [l|] eqn:El;
      [destruct (failure_fields l (x <| cyclePromise := AwaitRelease |>)) as (? & ? & ?)|]; by apply (parked_same x); rewrite ?Ec).
  - unfold release_awaited. destruct (cyclePromise x) eqn:Ec; try done. case_match; [done|].
    by apply (parked_same x); rewrite ?Ec.
  - unfold client_error, this_lease. destruct (held x) as [l|] eqn:El; [|done]. destruct (adopted l); [|done].
    destruct (failure_fields l x) as (? & ? & Ec). apply (parked_same x); rewrite ?Ec, ?El; done.
  - unfold unlock_reply. destruct (held x) as [l|] eqn:El; [|done]. case_match; try done.
    by apply (parked_same x); rewrite ?El.
  - unfold unlock_failed. destruct (held x) as [l|] eqn:El; [|done]. case_match; try done;
    (by apply (parked_same x); rewrite ?El).
  - unfold client_ended. destruct (held x) as [l|] eqn:El; [|done]. case_match; try done.
    by apply (parked_same x).
  - unfold executeAsLeader. by repeat case_match.
  - by apply (parked_same x).
Qed.

Lemma connected_parked s v x : cyclePromise x = Connecting v → parked x → parked (connected s v x).1.
Proof.
  intros Ec Hp. unfold connected. destruct (canElect _ _ _); apply (parked_same x); try done; rewrite Ec; done.
Qed.

Lemma reachable_parked st : reachable st → ∀ i, parked (insts st i).
Proof.
  unfold reachable. intros H. assert (inv initial ∧ ∀ i, parked (insts initial i)) as H0.
  { split; [apply initial_inv|]. done. }
  induction H as [|st1 st2 st3 Hst _ IH]; [apply H0|]. apply IH. clear IH. destruct H0 as [I Hp].
  split; [by eapply step_inv|].
  destruct Hst as [j f st0 Hf|j s v st0 Ec Hs|j v st0 Ec|j v l st0 Ec El He r|j l st0 El Er He|s st0 Hs He|s st0 Hs];
    intros i; simpl; try apply Hp.
  - assert (insts (react j (f (insts st0 j)) st0) = <[j := (f (insts st0 j)).1]> (insts st0)) as ->
      by (unfold react; by destruct (f (insts st0 j)) as [? []]).
    rewrite lookup_insts. case_decide; [|done]. eapply stretch_parked; [done|apply I|done].
  - match goal with |- context [react j ?r ?s0] => assert (insts (react j r s0) = <[j := r.1]> (insts st0)) as ->
      by (unfold react; by destruct r as [? []]) end.
    rewrite lookup_insts. case_decide; [|done]. by apply connected_parked.
  - match goal with |- context [react j ?r ?s0] => assert (insts (react j r s0) = <[j := r.1]> (insts st0)) as ->
      by (unfold react; by destruct r as [? []]) end.
    rewrite lookup_insts. case_decide; [|done]. by apply connected_parked.
  - rewrite lookup_insts. case_decide; [|done]. apply (parked_same (insts st0 j)); try done. by rewrite Ec.
  - rewrite lookup_insts. case_decide; [|done]. apply (parked_same (insts st0 j)); try done. by rewrite El.
Qed.

(** After [stop] has completed, the instance does not lead, runs no election
    cycle and keeps no session: a late connection or lock reply cannot publish a
    leader. *)
Theorem stopped_is_released st i :
  reachable st → running (insts st i) = false → stepDownPromise (insts st i) = NotStepping →
  isLeader (insts st i) = false ∧ cyclePromise (insts st i) = NoCycle ∧ held (insts st i) = None.
Proof.
  intros Hr Hrun Hsd. destruct (reachable_parked _ Hr i) as [_ Hp]. destruct (Hp Hrun Hsd) as [Ec El].
  split; [|done]. apply (no_lease_not_leading (holder st) (ended st)); [|done]. by apply reachable_inv.
Qed.

(** ** Progress *)

(** One undisturbed election: the timer fires, a new session connects, the server
    grants the lock, the reply is handled. *)
Definition fired (i : nat) (now : Z) (st : state) : state :=
  react i (electionCycle now (insts st i), Nothing) st.
Definition joined (i : nat) (st : state) : state :=
  react i (connected (next_session st) (electionVersion (insts st i)) (insts st i))
    (st <| next_session ::= S |>).
Definition granted (i s : nat) (st : state) : state :=
  st <| holder ::= λ h, (pg_try_advisory_lock s h).2 |>
     <| insts ::= <[i := (insts st i) <| cyclePromise :=
          LockReply (electionVersion (insts st i)) (pg_try_advisory_lock s (holder st)).1 |>]> |>.
Definition informed (i : nat) (st : state) : state := react i (lock_reply (insts st i)) st.

Definition elect (i : nat) (now : Z) (st : state) : state :=
  informed i (granted i (next_session st) (joined i (fired i now st))).

(** An instance that waits for its next election. *)
Definition waiting (now : Z) (x : instance) : Prop :=
  running x = true ∧ stepDownPromise x = NotStepping ∧ cyclePromise x = NoCycle ∧ held x = None ∧
  pauseUntil x <= now.

Lemma waiting_fires now x :
  waiting now x → electionCycle now x = x <| cyclePromise := Connecting (electionVersion x) |>.
Proof.
  intros (Hr & Hs & Hc & Hh & Hp). unfold electionCycle, this_lease. rewrite Hr, Hs, Hc, Hh. simpl.
  by rewrite (proj2 (Z.ltb_ge _ _)), andb_false_r by lia.
Qed.

Lemma fired_step i now st : step st (fired i now st).
Proof. apply (local_step i _ st (do_timer now)). Qed.

Lemma joined_step i st :
  cyclePromise (insts st i) = Connecting (electionVersion (insts st i)) → step st (joined i st).
Proof. apply connect_new. Qed.

Lemma granted_step i l st :
  cyclePromise (insts st i) = Locking (electionVersion (insts st i)) → held (insts st i) = Some l →
  (session l ∉ ended st) → step st (granted i (session l) st).
Proof. apply lock_executed. Qed.

Lemma informed_step i st : step st (informed i st).
Proof. apply (local_step i _ st do_lock_reply). Qed.

Lemma elect_run st i now :
  inv st → waiting now (insts st i) → holder st = None →
  rtc step st (elect i now st) ∧ isLeader (insts (elect i now st) i) = true.
Proof.
  intros I Hw Hh. pose proof (waiting_fires _ _ Hw) as Hf. destruct Hw as (Hr & Hs & Hc & Hl & Hp).
  set (x := insts st i) in *. set (st1 := fired i now st).
  set (x1 := x <| cyclePromise := Connecting (electionVersion x) |>) in *.
  assert (insts st1 i = x1) as E1.
  { subst st1. unfold fired, react. simpl. by rewrite lookup_insts, decide_True. }
  set (l := mk_lease (next_session st) true false false NotReleasing).
  set (x2 := x1 <| held := Some l |> <| cyclePromise := Locking (electionVersion x) |>).
  set (st2 := joined i st1).
  assert (insts st2 i = x2 ∧ holder st2 = None ∧ ended st2 = ended st) as (E2 & H2 & D2).
  { subst st2. unfold joined, connected, canElect. rewrite E1. simpl. rewrite Hr, Z.eqb_refl. simpl.
    unfold react. simpl. by rewrite lookup_insts, decide_True. }
  set (st3 := granted i (next_session st) st2).
  assert (insts st3 i = x2 <| cyclePromise := LockReply (electionVersion x) true |>) as E3.
  { subst st3. unfold granted. simpl. by rewrite lookup_insts, decide_True, H2, E2. }
  split.
  - apply (rtc_l _ _ st1); [apply fired_step|]. apply (rtc_l _ _ st2); [apply joined_step; by rewrite E1|].
    apply (rtc_l _ _ st3); [apply (granted_step i l st2); [by rewrite E2..|]|apply rtc_once, informed_step].
    rewrite D2. intros Hd%(inv_ended _ I). simpl in Hd. lia.
  - change (elect i now st) with (informed i st3). unfold informed, react. rewrite E3.
    unfold lock_reply, canElect. simpl. rewrite Hr, Z.eqb_refl. simpl. by rewrite lookup_insts, decide_True.
Qed.


(** ** Runs *)

Definition begun (i : nat) (st : state) : state := react i (start 0 (insts st i), Nothing) st.

Lemma begun_step i st : step st (begun i st).
Proof. apply (local_step i _ st (do_start 0)). Qed.

(** Instance 0 starts and is elected. *)
Definition elected : state := informed 0 (granted 0 0 (joined 0 (begun 0 initial))).

Ltac by_run := vm_compute; reflexivity.

Lemma elected_reachable : reachable elected.
Proof.
  unfold reachable. eapply rtc_l; [apply (begun_step 0)|]. eapply rtc_l; [apply (joined_step 0); by_run|].
  eapply rtc_l; [apply (granted_step 0 (mk_lease 0 true false false NotReleasing)); [by_run..|set_solver]|].
  eapply rtc_l; [apply (informed_step 0)|]. apply rtc_refl.
Qed.

Definition leading : lease := mk_lease 0 true true false NotReleasing.

Lemma leader_unique_witness : isLeader (insts elected 0) = true ∧ (0 = 0)%nat.
Proof.
  split; [by_run|].
  apply (leader_unique elected 0 0 leading leading elected_reachable); try by_run; vm_compute; congruence.
Defined.

(** Instance 0 loses: another instance starts, asks for the lock and is refused. *)
Definition refused : state := informed 1 (granted 1 1 (joined 1 (begun 1 elected))).

Lemma refused_reachable : reachable refused.
Proof.
  unfold reachable. etrans; [apply elected_reachable|].
  eapply rtc_l; [apply (begun_step 1)|]. eapply rtc_l; [apply (joined_step 1); by_run|].
  eapply rtc_l; [apply (granted_step 1 (mk_lease 1 true false false NotReleasing)); [by_run..|set_solver]|].
  eapply rtc_l; [apply (informed_step 1)|]. apply rtc_refl.
Qed.

Lemma pool_never_holds_lock_witness : (1%nat ∈ idle refused) ∧ owner (holder refused) ≠ Some 1%nat.
Proof.
  assert (1%nat ∈ idle refused) as H by (apply (bool_decide_unpack _); vm_compute; exact I).
  split; [exact H|]. apply (pool_never_holds_lock refused 1 refused_reachable H).
Defined.

Lemma stopped_is_released_witness : held (insts initial 0) = None.
Proof. apply (stopped_is_released initial 0); [apply rtc_refl|by_run|by_run]. Defined.

(** The server ends the session of the leader. *)
Definition lost : state := elected <| ended ::= union {[0%nat]} |> <| holder ::= end_session 0 |>.

Lemma lost_reachable : reachable lost.
Proof. unfold reachable. eapply rtc_r; [apply elected_reachable|]. apply session_ended. vm_compute. lia. Qed.

(** A second instance that has started and failed to connect waits for the lock. *)
Definition standby : state := react 1 (connect_failed (insts (begun 1 lost) 1), Nothing) (begun 1 lost).

Lemma standby_reachable : reachable standby.
Proof.
  unfold reachable. etrans; [apply lost_reachable|].
  eapply rtc_l; [apply (begun_step 1)|]. apply rtc_once, (local_step 1 _ _ do_connect_failed).
Qed.


(** Until its client notices, the leader whose session the server has ended goes
    on leading beside its successor. *)
Lemma two_leaders_after_session_loss :
  ∃ st, reachable st ∧ isLeader (insts st 0) = true ∧ isLeader (insts st 1) = true.
Proof.
  exists (elect 1 0 standby). split_and!; [|by_run..]. unfold reachable.
  etrans; [apply standby_reachable|]. apply elect_run; [apply reachable_inv, standby_reachable| |by_run].
  split_and!; try by_run. vm_compute. congruence.
Qed.

(** A leader with a running job steps down and another instance takes over. *)
Definition do_ (i : nat) (f : instance → reaction) (st : state) : state := react i (f (insts st i)) st.

Lemma do_step i f st : stretch f → step st (do_ i f st).
Proof. apply local_step. Qed.

Definition working : state := do_ 0 (λ x, ((executeAsLeader "flush" x).2, Nothing)) elected.
Definition stepping_down : state := do_ 0 (λ x, (stepDown 0 0 x, Nothing)) working.
Definition resigned : state := do_ 0 stepDown_drained stepping_down.
Definition unlocking : lease := mk_lease 0 true true false Unlocking.
Definition unlocked : state :=
  resigned <| holder ::= pg_advisory_unlock (session unlocking) |>
    <| insts ::= <[0%nat := (insts resigned 0) <| held := Some (unlocking <| release := Unlocked |>) |>]> |>.
Definition vacated : state := do_ 0 unlock_reply unlocked.
Definition contender : state := begun 1 vacated.
Definition taken_over : state := do_ 1 (λ x, (connect_failed x, Nothing)) contender.
Definition overlapping : state :=
  do_ 1 (λ x, ((executeAsLeader "flush" x).2, Nothing)) (elect 1 0 taken_over).

Lemma unlocked_step : step resigned unlocked.
Proof.
  apply (unlock_executed 0 unlocking resigned); [by_run|by_run|].
  apply (bool_decide_unpack _). vm_compute. exact I.
Qed.

Lemma taken_over_reachable : reachable taken_over.
Proof.
  unfold reachable. transitivity elected; [exact elected_reachable|].
  apply (rtc_l _ _ working); [exact (do_step 0 _ _ (do_job "flush"))|].
  apply (rtc_l _ _ stepping_down); [exact (do_step 0 _ _ (do_stepDown 0 0))|].
  apply (rtc_l _ _ resigned); [exact (do_step 0 _ _ do_drained)|].
  apply (rtc_l _ _ unlocked); [exact unlocked_step|].
  apply (rtc_l _ _ vacated); [exact (do_step 0 _ _ do_unlock_reply)|].
  apply (rtc_l _ _ contender); [exact (begun_step 1 vacated)|].
  apply rtc_once. exact (do_step 1 _ _ do_connect_failed).
Qed.

(** A step-down does not wait for jobs: the same job then runs on two instances. *)
Lemma job_overlaps_after_step_down :
  reachable overlapping ∧ "flush" ∈ inFlight (insts overlapping 0) ∧ "flush" ∈ inFlight (insts overlapping 1).
Proof.
  split; [|by split; apply (bool_decide_unpack _); vm_compute]. unfold reachable.
  apply (rtc_r _ (elect 1 0 taken_over)); [|exact (do_step 1 _ _ (do_job "flush"))].
  transitivity taken_over; [exact taken_over_reachable|].
  apply elect_run; [apply reachable_inv, taken_over_reachable| |by_run].
  split_and!; try by_run. vm_compute. congruence.
Qed.

End LeaderFacts.
