(* ===== verification/Sessions.v ===== *)
(** * Console sessions

    [services/ConsoleSessionService.js], [services/ConsoleTokens.js],
    [services/SessionAuthority.js], [services/AccessTokenRevocation.js] and the
    triggers of migrations 039 and 040.  A session family is one sign-in with all
    the refresh tokens rotated from it.

    [jsonwebtoken] is the class [Jwt]: signing gives a text that decodes to the
    signed claims, and a verified token decodes to the claims returned and has
    not expired.  SHA-256 is a parameter, the random identifiers of a call are
    its argument [fresh], and times are milliseconds.  A transaction holds the
    row locks of the account and of the family, so each operation is one step.
    [iat] and the client address of a stored token are left out. *)

From S2P Require Import Prelude Order Js Db.

(** ** Rows *)

Module Account.
Record t := mk {
  id : string; username : string; role : string; status : string;
  organization_id : option string;
  password_hash : option string; password_hash_root : option string;
  password_hash_stealth_wipe : option string; password_hash_nuclear_wipe : option string;
  console_auth_epoch : Z;
  totp_enabled : bool; totp_secret : option string; totp_recovery_codes : list string;
  totp_pending_secret : option string; totp_pending_recovery_codes : option (list string);
  totp_pending_proof_id : option string; totp_pending_proof_type : option string;
  totp_pending_expires_at : option Z; totp_pending_auth_epoch : option Z;
}.
End Account.

Module Family.
Record t := mk {
  id : string; user_id : string; issued_organization_id : string; expires_at : Z;
  revoked_at : option Z; revocation_reason : option string;
  root_grant_id : option string; root_grant_expires_at : option Z; root_organization_id : option string;
}.
End Family.

Module Refresh.
Record t := mk {
  id : string; user_id : string; token_hash : string; expires_at : Z;
  revoked : bool; revoked_at : option Z; session_id : option string;
}.
End Refresh.

Module Challenge.
Record t := mk {
  id : string; user_id : string; token_hash : string; issued_organization_id : string;
  issued_auth_epoch : Z; access_tier : string; expires_at : Z; consumed_at : option Z;
}.
End Challenge.

Module Console.
Record t := mk {
  users : list Account.t; families : list Family.t; refresh_tokens : list Refresh.t;
  access_token_revocations : list string; challenges : list Challenge.t;
  memberships : list Membership.t;
}.
End Console.

(** ** Tokens *)

Record claims := mk_claims {
  sub : option string; cid : option string; c_username : option string; c_role : option string;
  c_organization_id : option string; c_compartment_access : option string;
  sid : option string; c_root_grant_id : option string; jti : option string; type_ : option string;
  exp : option Z
}.

Class Jwt := {
  sign : string → claims → string;
  verify : string → string → Z → option claims;
  decode : string → option claims;
  decode_sign secret c : decode (sign secret c) = Some c;
  verify_decode secret t now c : verify secret t now = Some c →
    decode t = Some c ∧ ∀ e, exp c = Some e → now < e
}.

Module Sessions.

Record settings := mk_settings {
  JWT_SECRET : string; REFRESH_SECRET : string; access_ttl : Z; refresh_ttl : Z
}.

Record fresh := mk_fresh {
  family_id : string; grant_id : string; token_id : string;
  jti_initial : string; jti_access : string; jti_refresh : string
}.

Section Service.
Context {J : Jwt} (sha256 : string → string) (cfg : settings).

Definition seconds (ms : Z) : Z := ms / 1000.

(** [jwt.decode(t).exp] *)
Definition exp_of (t : string) : Z := match decode t with Some c => default 0 (exp c) | None => 0 end.

Definition org_default : string := "org-default".
Definition organization (u : Account.t) : string :=
  match Account.organization_id u with
  | Some o => if (o =? "")%string then org_default else o
  | None => org_default
  end.

Definition is_hex (c : ascii) : bool :=
  is_digit c || ((97 <=? code c) && (code c <=? 102)) || ((65 <=? code c) && (code c <=? 70)).

(** The UUID pattern. *)
Definition validSessionId (s : string) : bool :=
  match split "-"%char s with
  | [a; b; c; d; e] =>
      (len a =? 8) && (len b =? 4) && (len c =? 4) && (len d =? 4) && (len e =? 12) &&
      all_chars is_hex (a +:+ b +:+ c +:+ d +:+ e)
  | _ => false
  end.

(** A UUID column compares without regard to case. *)
Definition uuid_is (id s : string) : bool := (toLowerCase id =? toLowerCase s)%string.

Definition deny {A} (msg : string) : eff Console.t A := throw (Some 401) msg.

(** An error that carries no status is a failure of the database. *)
Definition transaction {A} (work : eff Console.t A) : eff Console.t A :=
  λ s, match work s with
       | (Ok a, s') => (Ok a, s')
       | (Throw (Some st) m, _) => (Throw (Some st) m, s)
       | (Throw None _, _) => (Throw (Some 503) "Session authority unavailable", s)
       end.

Definition currentUser (userId : string) : eff Console.t Account.t :=
  d <-! get ;
  match select1 (λ u, (Account.id u =? userId)%string) (Console.users d) with
  | Some u => if (Account.status u =? "active")%string then eff_ret u
              else deny "Account inactive or suspended"
  | None => deny "Account inactive or suspended"
  end.

Definition lockFamily (userId sessionId : string) (now : Z) : eff Console.t Family.t :=
  if negb (validSessionId sessionId) then deny "Fresh sign-in required" else
  d <-! get ;
  match select1 (λ f, uuid_is (Family.id f) sessionId && (Family.user_id f =? userId)%string) (Console.families d) with
  | Some f =>
      if bool_decide (is_Some (Family.revoked_at f)) || (Family.expires_at f <=? now)
      then deny "Session expired or revoked" else eff_ret f
  | None => deny "Session expired or revoked"
  end.

(** *** Tokens of a principal *)

Record principal_ := mk_principal {
  p_id : string; p_username : string; p_role : string; p_organization_id : string;
  p_compartment_access : string; p_sid : string; p_root_grant_id : option string
}.

Definition principal (u : Account.t) (family : string) (grant : option string) (root : bool) : principal_ :=
  mk_principal (Account.id u) (Account.username u) (Account.role u) (organization u)
    (if root then "root" else "standard") family (if root then grant else None).

Definition claims_of (p : principal_) (jti : string) (exp : Z) : claims :=
  mk_claims (Some (p_id p)) (Some (p_id p)) (Some (p_username p)) (Some (p_role p)) (Some (p_organization_id p))
    (Some (p_compartment_access p)) (Some (p_sid p)) (p_root_grant_id p) (Some jti) None (Some exp).

Definition signToken (p : principal_) (jti : string) (now : Z) : string :=
  sign (JWT_SECRET cfg) (claims_of p jti (seconds now + access_ttl cfg)).
Definition signRefreshToken (p : principal_) (jti : string) (now : Z) : string :=
  sign (REFRESH_SECRET cfg) (claims_of p jti (seconds now + refresh_ttl cfg)).
Definition signRefreshTokenUntil (p : principal_) (jti : string) (expiresAt : Z) : string :=
  sign (REFRESH_SECRET cfg) (claims_of p jti (seconds expiresAt)).

Record session := mk_session { token : string; refreshToken : string; s_user : principal_ }.

Definition insert_refresh (r : Refresh.t) : eff Console.t unit :=
  d <-! get ;
  if existsb (λ x, (Refresh.id x =? Refresh.id r)%string || (Refresh.token_hash x =? Refresh.token_hash r)%string)
       (Console.refresh_tokens d)
  then db_error
  else modify (λ d, d <| Console.refresh_tokens ::= λ l, l ++ [r] |>).

Definition update_families (p : Family.t → bool) (f : Family.t → Family.t) : eff Console.t unit :=
  modify (λ d, d <| Console.families ::= update_where p f |>).

Definition revoke_tokens (now : Z) (p : Refresh.t → bool) : eff Console.t unit :=
  modify (λ d, d <| Console.refresh_tokens ::=
    update_where p (λ r, r <| Refresh.revoked := true |> <| Refresh.revoked_at := Some now |>) |>).

Definition persistPair (u : Account.t) (family : string) (expires : Z) (grant : option string) (root : bool)
    (fr : fresh) (now : Z) : eff Console.t session :=
  let payload := principal u family grant root in
  if seconds expires - seconds now <=? 0 then deny "Session expired" else
  let token := signToken payload (jti_access fr) now in
  let refreshToken := signRefreshTokenUntil payload (jti_refresh fr) expires in
  insert_refresh (Refresh.mk ("tok-" +:+ token_id fr) (Account.id u) (sha256 refreshToken)
    (exp_of refreshToken * 1000) false None (Some family)) ;!
  (if root then
     update_families (λ f, (Family.id f =? family)%string)
       (λ f, f <| Family.root_grant_expires_at := Some (Z.min (exp_of token * 1000) expires) |>)
   else eff_ret tt) ;!
  eff_ret (mk_session token refreshToken payload).

(** *** Operations *)

Record verified := mk_verified {
  v_id : string; v_organization_id : option string; v_password_hash_root : option string;
  v_compartment_access : string
}.

Definition issueSessionWithClient (v : verified) (fr : fresh) (now : Z) : eff Console.t session :=
  u <-! currentUser (v_id v) ;
  let org := organization u in
  let root := (v_compartment_access v =? "root")%string &&
    (match v_organization_id v with Some o => if (o =? "")%string then org_default else o | None => org_default end =? org)%string &&
    bool_decide (v_password_hash_root v = Account.password_hash_root u) in
  let grant := if root then Some (grant_id fr) else None in
  let initialRefresh := signRefreshToken (principal u (family_id fr) grant root) (jti_initial fr) now in
  let expires := exp_of initialRefresh * 1000 in
  d <-! get ;
  (if existsb (λ f, uuid_is (Family.id f) (family_id fr)) (Console.families d) then db_error
   else modify (λ d, d <| Console.families ::= λ l, l ++
     [Family.mk (family_id fr) (Account.id u) org expires None None grant
        (if root then Some expires else None) (if root then Some org else None)] |>)) ;!
  persistPair u (family_id fr) expires grant root fr now.

Definition issueSession (v : verified) (fr : fresh) (now : Z) : eff Console.t session :=
  transaction (issueSessionWithClient v fr now).

Definition revokeFamily (userId sessionId reason : string) (now : Z) : eff Console.t unit :=
  update_families (λ f, uuid_is (Family.id f) sessionId && (Family.user_id f =? userId)%string)
    (λ f, f <| Family.revoked_at := Some now |> <| Family.revocation_reason := Some reason |>) ;!
  revoke_tokens now (λ r, match Refresh.session_id r with Some x => uuid_is x sessionId | None => false end &&
                          (Refresh.user_id r =? userId)%string).

Inductive rotation := Rotated (s : session) | Replayed (userId : string).

Definition is_revoked (r : Refresh.t) : bool := Refresh.revoked r || bool_decide (is_Some (Refresh.revoked_at r)).

(** [decoded.sub || decoded.id] *)
Definition subject (c : claims) : option string :=
  match sub c with
  | Some s => if (s =? "")%string then cid c else sub c
  | None => cid c
  end.

Definition clear_grant (f : Family.t) : Family.t :=
  f <| Family.root_grant_id := None |> <| Family.root_grant_expires_at := None |>
    <| Family.root_organization_id := None |>.

(** The transaction of [rotateSession]. *)
Definition rotate_tx (userId s refreshToken : string) (fr : fresh) (now : Z) : eff Console.t rotation :=
  u <-! currentUser userId ;
  family <-! lockFamily userId s now ;
  d <-! get ;
  match select1 (λ r, (Refresh.user_id r =? userId)%string && opt_is (Refresh.session_id r) (Family.id family) &&
                      (Refresh.token_hash r =? sha256 refreshToken)%string) (Console.refresh_tokens d) with
  | None => deny "Refresh token not recognized"
  | Some credential =>
      if is_revoked credential then
        revokeFamily userId (Family.id family) "refresh_replay" now ;!
        eff_ret (Replayed userId)
      else if Refresh.expires_at credential <=? now then deny "Refresh token expired"
      else
        let consumed r := (Refresh.id r =? Refresh.id credential)%string && negb (is_revoked r) in
        let rowCount := Z.of_nat (length (where_ consumed (Console.refresh_tokens d))) in
        revoke_tokens now consumed ;!
        if negb (rowCount =? 1) then deny "Refresh token already used" else
        update_families (λ f, (Family.id f =? Family.id family)%string) clear_grant ;!
        p <-! persistPair u (Family.id family) (Family.expires_at family) None false fr now ;
        eff_ret (Rotated p)
  end.

Definition rotateSession (c : claims) (refreshToken : string) (fr : fresh) (now : Z) : eff Console.t rotation :=
  match sid c, subject c with
  | Some s, Some userId =>
      if negb (validSessionId s) then deny "Fresh sign-in required"
      else transaction (rotate_tx userId s refreshToken fr now)
  | _, _ => deny "Fresh sign-in required"
  end.

Definition changeRootGrantWithClient (userId sessionId : string) (root : bool)
    (verifiedRootHash organizationIdAtIssue : option string) (fr : fresh) (now : Z) : eff Console.t session :=
  u <-! currentUser userId ;
  family <-! lockFamily userId sessionId now ;
  let unverified := match verifiedRootHash with Some h => (h =? "")%string | None => true end in
  if root && (unverified || negb (bool_decide (Account.password_hash_root u = verifiedRootHash)) ||
              negb (opt_is organizationIdAtIssue (organization u)))
  then deny "Fresh vault password verification required" else
  let grant := if root then Some (grant_id fr) else None in
  update_families (λ f, (Family.id f =? Family.id family)%string)
    (λ f, f <| Family.root_grant_id := grant |>
            <| Family.root_grant_expires_at := if root then Some (Family.expires_at family) else None |>
            <| Family.root_organization_id := if root then Some (organization u) else None |>) ;!
  revoke_tokens now (λ r, opt_is (Refresh.session_id r) (Family.id family) && (Refresh.user_id r =? userId)%string) ;!
  persistPair u (Family.id family) (Family.expires_at family) grant root fr now.

Definition changeRootGrant (userId sessionId : string) (root : bool)
    (verifiedRootHash organizationIdAtIssue : option string) (fr : fresh) (now : Z) : eff Console.t session :=
  transaction (changeRootGrantWithClient userId sessionId root verifiedRootHash organizationIdAtIssue fr now).

(** *** Triggers on the users table *)

Definition clear_pending (u : Account.t) : Account.t :=
  u <| Account.totp_pending_secret := None |> <| Account.totp_pending_recovery_codes := None |>
    <| Account.totp_pending_proof_id := None |> <| Account.totp_pending_proof_type := None |>
    <| Account.totp_pending_expires_at := None |> <| Account.totp_pending_auth_epoch := None |>.

Definition authentication_changed (old new : Account.t) : bool :=
  negb (bool_decide (Account.password_hash new = Account.password_hash old) &&
        bool_decide (Account.password_hash_root new = Account.password_hash_root old) &&
        bool_decide (Account.password_hash_stealth_wipe new = Account.password_hash_stealth_wipe old) &&
        bool_decide (Account.password_hash_nuclear_wipe new = Account.password_hash_nuclear_wipe old) &&
        (coalesce (Account.organization_id new) org_default =? coalesce (Account.organization_id old) org_default)%string &&
        (Account.status new =? Account.status old)%string &&
        (Account.role new =? Account.role old)%string &&
        bool_decide (Account.totp_secret new = Account.totp_secret old) &&
        bool_decide (Account.totp_enabled new = Account.totp_enabled old)).

(** BEFORE UPDATE; [None] is the exception. *)
Definition advance_console_auth_epoch (old new : Account.t) : option Account.t :=
  if authentication_changed old new then
    Some (clear_pending (new <| Account.console_auth_epoch := Account.console_auth_epoch old + 1 |>))
  else if Account.console_auth_epoch new <? Account.console_auth_epoch old then None
  else Some new.

(** The condition of the AFTER UPDATE trigger. *)
Definition identity_changed (old new : Account.t) : bool :=
  negb ((coalesce (Account.organization_id new) org_default =? coalesce (Account.organization_id old) org_default)%string &&
        bool_decide (Account.password_hash_root new = Account.password_hash_root old)).

Definition invalidate_console_root_grants (old new : Account.t) (fam : Family.t) : bool :=
  identity_changed old new && (Family.user_id fam =? Account.id new)%string &&
  bool_decide (is_Some (Family.root_grant_id fam)).

(** UPDATE users SET ... WHERE id = userId *)
Definition update_user (userId : string) (f : Account.t → Account.t) : eff Console.t unit :=
  d <-! get ;
  match select1 (λ u, (Account.id u =? userId)%string) (Console.users d) with
  | None => eff_ret tt
  | Some old =>
      match advance_console_auth_epoch old (f old) with
      | None => db_error
      | Some new =>
          modify (λ d, d <| Console.users ::= update_where (λ u, (Account.id u =? userId)%string) (λ _, new) |>
                         <| Console.families ::= update_where (invalidate_console_root_grants old new) clear_grant |>)
      end
  end.

(** *** Ending sessions *)

Definition revokeUserSessions (userId : string) (now : Z) : eff Console.t Z :=
  transaction (
    d <-! get ;
    match select1 (λ u, (Account.id u =? userId)%string) (Console.users d) with
    | None => throw (Some 404) "User not found"
    | Some _ =>
        update_user userId (λ u, clear_pending (u <| Account.console_auth_epoch ::= Z.add 1 |>)) ;!
        update_families (λ f, (Family.user_id f =? userId)%string)
          (λ f, f <| Family.revoked_at := Some (coalesce (Family.revoked_at f) now) |>
                  <| Family.revocation_reason := Some (coalesce (Family.revocation_reason f) "account_revocation") |>) ;!
        let open r := (Refresh.user_id r =? userId)%string && negb (Refresh.revoked r) in
        revoke_tokens now open ;!
        eff_ret (Z.of_nat (length (where_ open (Console.refresh_tokens d))))
    end).

Definition logout_tx (token userId sessionId : string) (now : Z) : eff Console.t unit :=
  currentUser userId ;!
  lockFamily userId sessionId now ;!
  modify (λ d, d <| Console.access_token_revocations ::= λ l,
            if bool_decide (sha256 token ∈ l) then l else l ++ [sha256 token] |>) ;!
  revokeFamily userId sessionId "logout" now.

Definition revokeAccessTokenAndRefresh (token userId sessionId : string) (now : Z) : eff Console.t unit :=
  λ s, match transaction (logout_tx token userId sessionId now) s with
       | (Ok a, s') => (Ok a, s')
       | (Throw st m, s') =>
           if bool_decide (st = Some 401) then (Throw st m, s')
           else (Throw (Some 503) "Session revocation unavailable", s')
       end.

(** *** Admission of an access token *)

Record authority := mk_authority {
  a_id : string; a_username : string; a_role : string; a_organization_id : string; a_org_role : string;
  a_compartment_access : string; organizationIdAtIssue : string; sessionId : string;
  accessTokenExpiresAt : option Z; expiresAt : Z
}.

(** [a || b] on a nullable text *)
Definition or_else (o : option string) (d : string) : string :=
  match o with Some s => if (s =? "")%string then d else s | None => d end.

Definition org_role_of (u : Account.t) (org : string) (d : Console.t) : string :=
  or_else (Membership.role <$> select1 (λ m, (Membership.user_id m =? Account.id u)%string &&
      (Membership.organization_id m =? org)%string) (Console.memberships d))
    (if (Account.role u =? "super-admin")%string then "owner" else "member").

Definition revoked_token (token : string) (d : Console.t) : bool :=
  bool_decide (sha256 token ∈ Console.access_token_revocations d) ||
  existsb (λ r, ((Refresh.token_hash r =? sha256 token)%string || (Refresh.token_hash r =? token)%string) && is_revoked r)
    (Console.refresh_tokens d).

(** The grant a token carries opens the hidden compartments. *)
Definition grant_holds (c : claims) (org : string) (f : Family.t) (now : Z) : bool :=
  (or_else (c_organization_id c) org_default =? org)%string &&
  opt_is (c_compartment_access c) "root" &&
  match c_root_grant_id c with
  | Some g => negb (g =? "")%string && opt_is (Family.root_grant_id f) g
  | None => false
  end &&
  match Family.root_grant_expires_at f with Some e => now <? e | None => false end &&
  opt_is (Family.root_organization_id f) org.

Definition resolveAccessToken (blacklisted : string → bool) (token : string) (now : Z) : eff Console.t authority :=
  match verify (JWT_SECRET cfg) token (seconds now) with
  | None => deny "Invalid or expired token"
  | Some c =>
      if opt_is (type_ c) "mfa_pending" then deny "MFA verification required" else
      match or_else (subject c) "", sid c with
      | id, Some s =>
          if (id =? "")%string || negb (validSessionId s) then deny "Invalid or expired token" else
          if blacklisted token then deny "Token has been revoked" else
          d <-! get ;
          match select1 (λ u, (Account.id u =? id)%string) (Console.users d),
                select1 (λ f, uuid_is (Family.id f) s && (Family.user_id f =? id)%string) (Console.families d) with
          | Some u, Some f =>
              let org := coalesce (Account.organization_id u) org_default in
              if bool_decide (is_Some (Family.revoked_at f)) || (Family.expires_at f <=? now)
              then deny "Session expired or revoked" else
              if negb (Account.status u =? "active")%string then throw (Some 403) "Active account required" else
              if revoked_token token d then deny "Token has been revoked" else
              let tokenEnd := (λ e, e * 1000) <$> exp c in
              eff_ret (mk_authority (Account.id u) (Account.username u) (Account.role u) org (org_role_of u org d)
                (if grant_holds c org f now then "root" else "standard")
                (or_else (c_organization_id c) org_default) s tokenEnd
                (match tokenEnd with Some e => Z.min e (Family.expires_at f) | None => Family.expires_at f end))
          | _, _ => deny "Account or session no longer exists"
          end
      | _, None => deny "Invalid or expired token"
      end
  end.

(** *** Everything that changes the tables *)

Inductive step : Console.t → Console.t → Prop :=
  | step_issue v fr now d : step d (issueSession v fr now d).2
  | step_rotate c t fr now d : step d (rotateSession c t fr now d).2
  | step_grant userId s root h o fr now d : step d (changeRootGrant userId s root h o fr now d).2
  | step_revoke_user userId now d : step d (revokeUserSessions userId now d).2
  | step_logout t userId s now d : step d (revokeAccessTokenAndRefresh t userId s now d).2
  | step_update_user userId f d : (∀ u, Account.id (f u) = Account.id u) → step d (transaction (update_user userId f) d).2.

End Service.
End Sessions.

(** ** Families and their refresh tokens *)

Module SessionFacts.
Import Sessions.
Section Facts.
Context {J : Jwt} (sha256 : string → string) (cfg : settings).

Definition family_key (f : Family.t) : string * string * Z := (Family.id f, Family.user_id f, Family.expires_at f).
Definition token_key (r : Refresh.t) : string * string * string * Z * option string :=
  (Refresh.id r, Refresh.user_id r, Refresh.token_hash r, Refresh.expires_at r, Refresh.session_id r).

Definition live (r : Refresh.t) : Prop := is_revoked r = false.

(** The well-formedness of the two tables: identifiers and hashes are unique, a
    family has at most one token that can still be redeemed, and a token belongs
    to the account of its family and does not outlive it. *)
Record ok (d : Console.t) : Prop := {
  ok_families : NoDup ((λ f, toLowerCase (Family.id f)) <$> Console.families d);
  ok_ids : NoDup (Refresh.id <$> Console.refresh_tokens d);
  ok_hashes : NoDup (Refresh.token_hash <$> Console.refresh_tokens d);
  ok_live r r' s : r ∈ Console.refresh_tokens d → r' ∈ Console.refresh_tokens d →
    Refresh.session_id r = Some s → Refresh.session_id r' = Some s → live r → live r' → r = r';
  ok_home r s : r ∈ Console.refresh_tokens d → Refresh.session_id r = Some s →
    ∃ e, (s, Refresh.user_id r, e) ∈ family_key <$> Console.families d ∧ Refresh.expires_at r <= e
}.

(** Nothing is forgotten: families and tokens stay, keep their keys, and once
    revoked stay revoked. *)
Record evolves (d d' : Console.t) : Prop := {
  ev_families f : f ∈ Console.families d → ∃ f', f' ∈ Console.families d' ∧ family_key f' = family_key f ∧
    (is_Some (Family.revoked_at f) → is_Some (Family.revoked_at f'));
  ev_tokens r : r ∈ Console.refresh_tokens d → ∃ r', r' ∈ Console.refresh_tokens d' ∧ token_key r' = token_key r ∧
    (is_revoked r = true → is_revoked r' = true);
  ev_revocations h : h ∈ Console.access_token_revocations d → h ∈ Console.access_token_revocations d'
}.

#[local] Instance evolves_preorder : PreOrder evolves.
Proof.
  split.
  - intros d. split; eauto.
  - intros d1 d2 d3 [F1 T1 R1] [F2 T2 R2]. split; [| |auto].
    + intros f (f1 & H1 & K1 & V1)%F1. destruct (F2 f1 H1) as (f2 & H2 & K2 & V2).
      exists f2. split_and!; [done|congruence|auto].
    + intros r (r1 & H1 & K1 & V1)%T1. destruct (T2 r1 H1) as (r2 & H2 & K2 & V2).
      exists r2. split_and!; [done|congruence|auto].
Qed.

(** An effect that, when it succeeds, keeps the tables well formed and forgets
    nothing. *)
Definition keeps {A} (m : eff Console.t A) : Prop :=
  ∀ d a d', m d = (Ok a, d') → ok d → ok d' ∧ evolves d d'.

Lemma keeps_bind {A B} (m : eff Console.t A) (k : A → eff Console.t B) :
  keeps m → (∀ a, keeps (k a)) → keeps (eff_bind m k).
Proof.
  intros Hm Hk d b d' Hrun Hok. run_inv. destruct (Hm _ _ _ H Hok) as [H1 E1].
  destruct (Hk _ _ _ _ Hrun H1) as [H2 E2]. split; [done|by etrans].
Qed.

Lemma keeps_reads {A} (m : eff Console.t A) : reads m → keeps m.
Proof. intros Hr d a d' Hrun Hok. rewrite (reads_run _ _ _ _ Hr Hrun). by split. Qed.

Lemma keeps_throw {A} st msg : keeps (A := A) (throw st msg).
Proof. by intros d a d' [=]. Qed.

(** A transaction that fails changes nothing. *)
Lemma transaction_keeps {A} (m : eff Console.t A) d :
  keeps m → ok d → ok (transaction m d).2 ∧ evolves d (transaction m d).2.
Proof.
  intros Hm Hok. unfold transaction. destruct (m d) as [[a|st msg] d'] eqn:E; [by eapply Hm|].
  by destruct st.
Qed.

Lemma families_ids (l l' : list Family.t) :
  family_key <$> l' = family_key <$> l →
  (λ f, toLowerCase (Family.id f)) <$> l' = (λ f, toLowerCase (Family.id f)) <$> l.
Proof.
  intros H. assert ((λ k : string * string * Z, toLowerCase k.1.1) <$> (family_key <$> l') =
    (λ k : string * string * Z, toLowerCase k.1.1) <$> (family_key <$> l)) as H' by by rewrite H.
  by rewrite <- !list_fmap_compose in H'.
Qed.

(** Families are updated in place. *)
Lemma families_updated p f d d' :
  Console.families d' = update_where p f (Console.families d) →
  Console.refresh_tokens d' = Console.refresh_tokens d →
  (∀ h, h ∈ Console.access_token_revocations d → h ∈ Console.access_token_revocations d') →
  (∀ x, family_key (f x) = family_key x) →
  (∀ x, is_Some (Family.revoked_at x) → is_Some (Family.revoked_at (f x))) →
  ok d → ok d' ∧ evolves d d'.
Proof.
  intros Ef Et Hh Hk Hr [O1 O2 O3 O4 O5].
  assert (family_key <$> Console.families d' = family_key <$> Console.families d) as Hkeys.
  { rewrite Ef. by apply update_where_fmap. }
  split.
  - split; rewrite ?Et; try done.
    + by rewrite (families_ids _ _ Hkeys).
    + intros r s. rewrite Hkeys. apply O5.
  - split; rewrite ?Et; [|eauto..]. intros x Hx.
    exists (if p x then f x else x). split_and!.
    + rewrite Ef. apply elem_of_update. eauto.
    + by destruct (p x).
    + destruct (p x); auto.
Qed.

Lemma update_families_keeps p f :
  (∀ x, family_key (f x) = family_key x) →
  (∀ x, is_Some (Family.revoked_at x) → is_Some (Family.revoked_at (f x))) →
  keeps (update_families p f).
Proof.
  intros Hk Hr d a d' Hrun Hok. unfold update_families, modify in Hrun. injection Hrun as _ <-.
  by eapply (families_updated p f).
Qed.

Lemma is_revoked_set r t : is_revoked (r <| Refresh.revoked := true |> <| Refresh.revoked_at := Some t |>) = true.
Proof. done. Qed.

Lemma revoke_tokens_keeps now p : keeps (revoke_tokens now p).
Proof.
  intros d a d' Hrun [O1 O2 O3 O4 O5]. unfold revoke_tokens in Hrun. run_inv. simpl.
  set (g := λ r, r <| Refresh.revoked := true |> <| Refresh.revoked_at := Some now |>).
  assert (∀ r, r ∈ update_where p g (Console.refresh_tokens d) →
    ∃ y, y ∈ Console.refresh_tokens d ∧ token_key r = token_key y ∧ (live r → r = y)) as Hback.
  { intros r (y & Hy & ->)%elem_of_update. exists y. split; [done|]. by destruct (p y). }
  split.
  - split; simpl; try done.
    + by rewrite update_where_fmap.
    + by rewrite update_where_fmap.
    + intros r r' s (y & Hy & Ky & Ly)%Hback (y' & Hy' & Ky' & Ly')%Hback Hs Hs' Hl Hl'.
      assert (r = y) as -> by auto. assert (r' = y') as -> by auto. by eapply O4.
    + intros r s (y & Hy & Ky & _)%Hback Hs. unfold token_key in Ky. simplify_eq.
      destruct (O5 y s Hy) as (e & ? & ?); [congruence|]. exists e. split; congruence.
  - split; simpl; [eauto| |eauto]. intros r Hr. exists (if p r then g r else r). split_and!.
    + apply elem_of_update. eauto.
    + by destruct (p r).
    + by destruct (p r).
Qed.

(** A token is added to a family that has no redeemable one. *)
Lemma insert_refresh_ok r s d a d' :
  insert_refresh r d = (Ok a, d') → ok d → Refresh.session_id r = Some s →
  (∀ r', r' ∈ Console.refresh_tokens d → Refresh.session_id r' = Some s → ¬ live r') →
  (∃ e, (s, Refresh.user_id r, e) ∈ family_key <$> Console.families d ∧ Refresh.expires_at r <= e) →
  ok d' ∧ evolves d d'.
Proof.
  intros Hrun [O1 O2 O3 O4 O5] Hs Hdead Hhome. unfold insert_refresh, eff_bind, get in Hrun.
  destruct (existsb _ _) eqn:E; [done|]. unfold modify in Hrun. injection Hrun as _ <-. simpl.
  assert (∀ x, x ∈ Console.refresh_tokens d → Refresh.id x ≠ Refresh.id r ∧ Refresh.token_hash x ≠ Refresh.token_hash r)
    as Hnew.
  { intros x Hx. assert (¬ existsb (λ x, (Refresh.id x =? Refresh.id r)%string || (Refresh.token_hash x =? Refresh.token_hash r)%string)
       (Console.refresh_tokens d) = true) as Hn by congruence.
    split; intros Heq; apply Hn, existsb_exists; exists x; (split; [by apply list_elem_of_In|]);
      rewrite Heq, String.eqb_refl; by rewrite ?orb_true_r. }
  split.
  - split; simpl; try done.
    + rewrite fmap_app. apply NoDup_app. split_and!; [done| |apply NoDup_singleton].
      intros i (x & -> & Hx)%list_elem_of_fmap ?%list_elem_of_singleton. by destruct (Hnew x Hx).
    + rewrite fmap_app. apply NoDup_app. split_and!; [done| |apply NoDup_singleton].
      intros i (x & -> & Hx)%list_elem_of_fmap ?%list_elem_of_singleton. by destruct (Hnew x Hx).
    + intros r1 r2 s' [H1| ->%list_elem_of_singleton]%elem_of_app [H2| ->%list_elem_of_singleton]%elem_of_app S1 S2 L1 L2;
        [by eapply O4| | |done].
      * destruct (Hdead r1 H1); congruence.
      * destruct (Hdead r2 H2); congruence.
    + intros r1 s' [H1| ->%list_elem_of_singleton]%elem_of_app S1; [by apply O5|].
      assert (s' = s) as -> by congruence. done.
  - split; simpl; [eauto| |eauto]. intros x Hx. exists x. split_and!; [apply elem_of_app; by left|done|done].
Qed.

Lemma exp_of_sign secret p i e : exp_of (sign secret (claims_of p i e)) = e.
Proof. unfold exp_of. by rewrite decode_sign. Qed.

Definition no_live (fid : string) (d : Console.t) : Prop :=
  ∀ r, r ∈ Console.refresh_tokens d → Refresh.session_id r = Some fid → ¬ live r.

Lemma persistPair_ok u fid expires grant root fr now d sn d' :
  persistPair sha256 cfg u fid expires grant root fr now d = (Ok sn, d') → ok d →
  (fid, Account.id u, expires) ∈ family_key <$> Console.families d → no_live fid d →
  ok d' ∧ evolves d d'.
Proof.
  intros Hrun Hok Hf Hl. unfold persistPair in Hrun.
  destruct (_ <=? 0); [done|]. apply eff_bind_ok in Hrun as (? & d1 & Hins & Hrun).
  eapply insert_refresh_ok in Hins as [H1 E1]; [|done|done|exact Hl|].
  - assert (keeps (if root then update_families (λ f, (Family.id f =? fid)%string)
       (λ f, f <| Family.root_grant_expires_at := Some (Z.min (exp_of (signToken cfg (principal u fid grant root)
          (jti_access fr) now) * 1000) expires) |>) else eff_ret tt)) as Hk.
    { destruct root; [by apply update_families_keeps|by apply keeps_reads]. }
    apply eff_bind_ok in Hrun as (? & d2 & Hup & Hrun). unfold eff_ret in Hrun. simplify_eq.
    destruct (Hk _ _ _ Hup H1). split; [done|by etrans].
  - exists expires. split; [done|]. simpl. unfold signRefreshTokenUntil. rewrite exp_of_sign.
    unfold seconds. dlia.
Qed.

Lemma currentUser_run userId d u d' :
  currentUser userId d = (Ok u, d') → d' = d ∧ Account.id u = userId ∧ u ∈ Console.users d ∧ Account.status u = "active".
Proof.
  unfold currentUser, eff_bind, get. destruct (select1 _ _) as [x|] eqn:E; [|done].
  apply select1_elem in E as [Hid Hin]. destruct (_ =? "active")%string eqn:Es; [|done]. b2p.
  unfold eff_ret. intros; simplify_eq. done.
Qed.

Lemma lockFamily_run userId s now d f d' :
  lockFamily userId s now d = (Ok f, d') →
  d' = d ∧ f ∈ Console.families d ∧ uuid_is (Family.id f) s = true ∧ Family.user_id f = userId ∧
  Family.revoked_at f = None ∧ now < Family.expires_at f.
Proof.
  unfold lockFamily, eff_bind, get. destruct (validSessionId s); [|done]. simpl.
  destruct (select1 _ _) as [x|] eqn:E; [|done]. apply select1_elem in E as [Hid Hin]. b2p.
  destruct (bool_decide _ || _) eqn:Er; [done|]. b2p. unfold eff_ret. intros; simplify_eq.
  split_and!; try done. apply eq_None_not_Some. done.
Qed.

(** A token belongs to the account of its family. *)
Lemma token_home d f r :
  ok d → f ∈ Console.families d → r ∈ Console.refresh_tokens d → Refresh.session_id r = Some (Family.id f) →
  Refresh.user_id r = Family.user_id f ∧ Refresh.expires_at r <= Family.expires_at f.
Proof.
  intros Hok Hf Hr Hs. destruct (ok_home _ Hok r _ Hr Hs) as (e & Hin & He).
  apply list_elem_of_fmap in Hin as (f' & Hk & Hf'). unfold family_key in Hk. simplify_eq.
  assert (f' = f) as ->; [|done].
  apply (NoDup_fmap_inj _ _ _ _ (ok_families _ Hok) Hf' Hf). congruence.
Qed.

Lemma family_key_in d f : f ∈ Console.families d → family_key f ∈ family_key <$> Console.families d.
Proof. intros H. apply list_elem_of_fmap. eauto. Qed.

Lemma issue_keeps v fr now : keeps (issueSessionWithClient sha256 cfg v fr now).
Proof.
  intros d sn d' Hrun Hok. unfold issueSessionWithClient in Hrun.
  apply eff_bind_ok in Hrun as (u & d1 & Hu & Hrun). apply currentUser_run in Hu as (-> & Hid & _ & _).
  cbv zeta in Hrun. set (root := _ && _ && _) in Hrun. set (grant := if root then _ else _) in Hrun.
  set (expires := exp_of _ * 1000) in Hrun.
  apply eff_bind_ok in Hrun as (d0 & d1 & Hg & Hrun). unfold get in Hg. injection Hg as <- <-.
  apply eff_bind_ok in Hrun as (? & d2 & Hins & Hrun).
  destruct (existsb _ _) eqn:E; [done|]. unfold modify in Hins. injection Hins as _ <-.
  set (fam := Family.mk _ _ _ _ _ _ _ _ _) in Hrun.
  assert (∀ f, f ∈ Console.families d → toLowerCase (Family.id f) ≠ toLowerCase (family_id fr)) as Hnew.
  { intros f Hf Heq. assert (existsb (λ f, uuid_is (Family.id f) (family_id fr)) (Console.families d) = true); [|congruence].
    apply existsb_exists. exists f. split; [by apply list_elem_of_In|]. unfold uuid_is. by rewrite Heq, String.eqb_refl. }
  set (d2 := d <| Console.families ::= λ l, l ++ [fam] |>) in Hrun.
  assert (ok d2 ∧ evolves d d2) as [Hok2 Hev2].
  { destruct Hok as [O1 O2 O3 O4 O5]. subst d2. split; split; simpl; try done; eauto.
    - rewrite fmap_app. apply NoDup_app. split_and!; [done| |apply NoDup_singleton].
      intros i (f & -> & Hf)%list_elem_of_fmap Hi%list_elem_of_singleton. by apply (Hnew f).
    - intros r s Hr Hs. destruct (O5 r s Hr Hs) as (e & ? & ?). exists e. split; [|done].
      rewrite fmap_app. apply elem_of_app. by left.
    - intros f Hf. exists f. split_and!; [apply elem_of_app; by left|done|done]. }
  assert (no_live (family_id fr) d2) as Hnl.
  { intros r Hr Hs. destruct (ok_home _ Hok r _ Hr Hs) as (e & (f & Hk & Hf)%list_elem_of_fmap & _).
    unfold family_key in Hk. simplify_eq. intros _. apply (Hnew f Hf). congruence. }
  eapply persistPair_ok in Hrun as [H3 E3]; [split; [exact H3|by etrans]|done| |done].
  apply (family_key_in d2 fam). subst d2. simpl. apply elem_of_app. right. by apply list_elem_of_singleton.
Qed.

Lemma update_families_run p g d a d' :
  update_families p g d = (Ok a, d') → d' = d <| Console.families ::= update_where p g |>.
Proof. unfold update_families, modify. congruence. Qed.

Lemma revoke_tokens_run now p d a d' :
  revoke_tokens now p d = (Ok a, d') →
  Console.families d' = Console.families d ∧
  ∀ r, r ∈ Console.refresh_tokens d' → live r → r ∈ Console.refresh_tokens d ∧ p r = false.
Proof.
  unfold revoke_tokens, modify. intros [= _ <-]. simpl. split; [done|].
  intros r (y & Hy & ->)%elem_of_update. destruct (p y) eqn:E; [done|]. done.
Qed.

(** The tokens of a family are withdrawn and one is issued in their place. *)
Lemma replace_tokens_ok u f p g grant root fr now d0 d1 d2 d3 a1 a2 sn :
  update_families (λ x, (Family.id x =? Family.id f)%string) g d0 = (Ok a1, d1) →
  revoke_tokens now p d1 = (Ok a2, d2) →
  persistPair sha256 cfg u (Family.id f) (Family.expires_at f) grant root fr now d2 = (Ok sn, d3) →
  ok d0 → f ∈ Console.families d0 → Family.user_id f = Account.id u →
  (∀ x, family_key (g x) = family_key x) →
  (∀ x, is_Some (Family.revoked_at x) → is_Some (Family.revoked_at (g x))) →
  (∀ r, r ∈ Console.refresh_tokens d0 → Refresh.session_id r = Some (Family.id f) → live r → p r = true) →
  ok d3 ∧ evolves d0 d3.
Proof.
  intros H1 H2 H3 Hok Hf Hu Hk Hr Hp.
  destruct (update_families_keeps _ _ Hk Hr _ _ _ H1 Hok) as [O1 E1].
  destruct (revoke_tokens_keeps _ _ _ _ _ H2 O1) as [O2 E2].
  apply update_families_run in H1 as ->. apply revoke_tokens_run in H2 as [Hfam Hl].
  eapply persistPair_ok in H3 as [O3 E3]; [split; [done|by do 2 (etrans; [done|])]|done|..].
  - rewrite Hfam. simpl. rewrite update_where_fmap by done. rewrite <- Hu. by apply family_key_in.
  - intros r Hin Hs Hlive. destruct (Hl r Hin Hlive) as [Hin0 Hpr]. simpl in Hin0. rewrite Hp in Hpr; done.
Qed.

Lemma grant_keeps userId s root h o fr now :
  keeps (changeRootGrantWithClient sha256 cfg userId s root h o fr now).
Proof.
  intros d sn d' Hrun Hok. unfold changeRootGrantWithClient in Hrun.
  apply eff_bind_ok in Hrun as (u & d1 & Hu & Hrun). apply currentUser_run in Hu as (-> & Hid & _ & _).
  apply eff_bind_ok in Hrun as (f & d1 & Hf & Hrun). apply lockFamily_run in Hf as (-> & Hf & _ & Hfu & _).
  cbv zeta in Hrun. destruct (root && _); [done|].
  apply eff_bind_ok in Hrun as (a1 & d1 & H1 & Hrun). apply eff_bind_ok in Hrun as (a2 & d2 & H2 & Hrun).
  eapply replace_tokens_ok; try done; [congruence|].
  intros r Hr Hs _. destruct (token_home _ _ _ Hok Hf Hr Hs) as [Hru _].
  rewrite Hs. simpl. by rewrite !(proj2 (String.eqb_eq _ _)) by congruence.
Qed.

Lemma revokeFamily_keeps userId s reason now : keeps (revokeFamily userId s reason now).
Proof. apply keeps_bind; [by apply update_families_keeps|intros; apply revoke_tokens_keeps]. Qed.

Lemma rotateSession_tx c t fr now d :
  (∃ msg, rotateSession sha256 cfg c t fr now d = (Throw (Some 401) msg, d)) ∨
  ∃ s userId, sid c = Some s ∧ subject c = Some userId ∧
    rotateSession sha256 cfg c t fr now d = transaction (rotate_tx sha256 cfg userId s t fr now) d.
Proof.
  unfold rotateSession. destruct (sid c) as [s|]; [|left; by eexists].
  destruct (subject c) as [userId|]; [|left; by eexists].
  destruct (validSessionId s); [right; by eexists _, _|left; by eexists].
Qed.

(** What a rotation that did not fail looked at, and what it did. *)
Lemma rotate_tx_inv userId s t fr now d r d' :
  rotate_tx sha256 cfg userId s t fr now d = (Ok r, d') →
  ∃ u f cr, Account.id u = userId ∧ f ∈ Console.families d ∧ uuid_is (Family.id f) s = true ∧
    Family.user_id f = userId ∧ cr ∈ Console.refresh_tokens d ∧ Refresh.user_id cr = userId ∧
    Refresh.session_id cr = Some (Family.id f) ∧ Refresh.token_hash cr = sha256 t ∧
    ((is_revoked cr = true ∧ r = Replayed userId ∧
      revokeFamily userId (Family.id f) "refresh_replay" now d = (Ok tt, d')) ∨
     (is_revoked cr = false ∧ ∃ p d1 d2 a1 a2, r = Rotated p ∧ now < Refresh.expires_at cr ∧
      revoke_tokens now (λ r, (Refresh.id r =? Refresh.id cr)%string && negb (is_revoked r)) d = (Ok a1, d1) ∧
      update_families (λ x, (Family.id x =? Family.id f)%string) clear_grant d1 = (Ok a2, d2) ∧
      persistPair sha256 cfg u (Family.id f) (Family.expires_at f) None false fr now d2 = (Ok p, d'))).
Proof.
  intros Hrun. unfold rotate_tx in Hrun.
  apply eff_bind_ok in Hrun as (u & d1 & Hu & Hrun). apply currentUser_run in Hu as (-> & Hid & _ & _).
  apply eff_bind_ok in Hrun as (f & d1 & Hf & Hrun). apply lockFamily_run in Hf as (-> & Hf & Huu & Hfu & _).
  apply eff_bind_ok in Hrun as (d0 & d1 & Hg & Hrun). unfold get in Hg. injection Hg as <- <-.
  destruct (select1 _ _) as [cr|] eqn:Ecr; [|done]. apply select1_elem in Ecr as [Hcr Hin]. b2p.
  assert (Refresh.session_id cr = Some (Family.id f)) as Hs.
  { unfold opt_is in *. destruct (Refresh.session_id cr); [|done]. b2p. by subst. }
  exists u, f, cr. split_and!; try done.
  destruct (is_revoked cr) eqn:Er.
  - left. apply eff_bind_ok in Hrun as ([] & d1 & G1 & Hrun). unfold eff_ret in Hrun. by simplify_eq.
  - right. split; [done|]. destruct (_ <=? now) eqn:Ee; [done|]. b2p. cbv zeta in Hrun.
    apply eff_bind_ok in Hrun as (a1 & d1 & G1 & Hrun). destruct (negb _); [done|].
    apply eff_bind_ok in Hrun as (a2 & d2 & G2 & Hrun). apply eff_bind_ok in Hrun as (p & d3 & G3 & Hrun).
    unfold eff_ret in Hrun. simplify_eq. by exists p, d1, d2, a1, a2.
Qed.

(** The statements of a rotation, in sequence. *)
Lemma rotate_writes u f cr fr now d d1 d2 d' a1 a2 p :
  revoke_tokens now (λ r, (Refresh.id r =? Refresh.id cr)%string && negb (is_revoked r)) d = (Ok a1, d1) →
  update_families (λ x, (Family.id x =? Family.id f)%string) clear_grant d1 = (Ok a2, d2) →
  persistPair sha256 cfg u (Family.id f) (Family.expires_at f) None false fr now d2 = (Ok p, d') →
  ok d → f ∈ Console.families d → Family.user_id f = Account.id u → cr ∈ Console.refresh_tokens d →
  Refresh.session_id cr = Some (Family.id f) → is_revoked cr = false →
  ok d' ∧ evolves d d1 ∧ evolves d1 d'.
Proof.
  intros H1 H2 H3 Hok Hf Hfu Hcr Hs Hlive.
  destruct (revoke_tokens_keeps _ _ _ _ _ H1 Hok) as [O1 E1].
  destruct (update_families_keeps _ clear_grant (λ _, eq_refl) (λ _, id) _ _ _ H2 O1) as [O2 E2].
  apply update_families_run in H2 as ->. apply revoke_tokens_run in H1 as [Hfam Hl].
  eapply persistPair_ok in H3 as [O3 E3]; [split_and!; [done|done|by etrans]|done|..].
  - simpl. rewrite update_where_fmap by done. rewrite Hfam, <- Hfu. by apply family_key_in.
  - intros r Hr Hrs Hrl. simpl in Hr. destruct (Hl r Hr Hrl) as [Hr0 Hp].
    assert (r = cr) as -> by (by eapply (ok_live _ Hok)).
    rewrite String.eqb_refl in Hp. by rewrite Hlive in Hp.
Qed.

Lemma rotate_keeps userId s t fr now : keeps (rotate_tx sha256 cfg userId s t fr now).
Proof.
  intros d r d' Hrun Hok.
  apply rotate_tx_inv in Hrun as (u & f & cr & Hid & Hf & _ & Hfu & Hcr & _ & Hs & _ & [(_ & _ & H)|Hrot]).
  { by eapply revokeFamily_keeps. }
  destruct Hrot as (Hlive & p & d1 & d2 & a1 & a2 & -> & _ & H1 & H2 & H3).
  eapply rotate_writes in H1 as (? & ? & ?); [split; [done|by etrans]|done..|congruence|done|done|done].
Qed.

Lemma update_user_keeps userId f : keeps (update_user userId f).
Proof.
  intros d a d' Hrun Hok. unfold update_user, eff_bind, get in Hrun.
  destruct (select1 _ _) as [old|]; [|unfold eff_ret in Hrun; injection Hrun as _ <-; by split].
  destruct (advance_console_auth_epoch _ _) as [new|]; [|done].
  unfold modify in Hrun. injection Hrun as _ <-.
  by eapply (families_updated (invalidate_console_root_grants old new) clear_grant).
Qed.

(** The transactions of the two ways a session is ended. *)
Lemma revokeUserSessions_keeps userId now d :
  ok d → ok (revokeUserSessions userId now d).2 ∧ evolves d (revokeUserSessions userId now d).2.
Proof.
  apply transaction_keeps, keeps_bind; [by apply keeps_reads|]. intros d0.
  destruct (select1 _ _); [|apply keeps_throw].
  apply keeps_bind; [apply update_user_keeps|]. intros _.
  apply keeps_bind; [by apply update_families_keeps|]. intros _.
  apply keeps_bind; [apply revoke_tokens_keeps|]. intros _. by apply keeps_reads.
Qed.

Lemma currentUser_reads userId : reads (currentUser userId).
Proof. intros d. unfold currentUser, eff_bind, get. by repeat case_match. Qed.

Lemma lockFamily_reads userId s now : reads (lockFamily userId s now).
Proof. intros d. unfold lockFamily, eff_bind, get. by repeat case_match. Qed.

Lemma logout_tx_keeps token userId s now : keeps (logout_tx sha256 token userId s now).
Proof.
  apply keeps_bind; [apply keeps_reads, currentUser_reads|]. intros _.
  apply keeps_bind; [apply keeps_reads, lockFamily_reads|]. intros _.
  apply keeps_bind; [|intros; apply revokeFamily_keeps].
  intros d a d' Hrun [O1 O2 O3 O4 O5]. unfold modify in Hrun. injection Hrun as _ <-.
  split; [done|]. split; simpl; [eauto..|]. intros h Hh. case_bool_decide; [done|]. apply elem_of_app. by left.
Qed.

Lemma logout_run token userId s now d :
  (revokeAccessTokenAndRefresh sha256 token userId s now d).2 = (transaction (logout_tx sha256 token userId s now) d).2.
Proof.
  unfold revokeAccessTokenAndRefresh.
  destruct (transaction _ d) as [[] ?]; [done|]. by case_bool_decide.
Qed.

Lemma step_keeps d d' : step sha256 cfg d d' → ok d → ok d' ∧ evolves d d'.
Proof.
  intros [] Hok.
  - apply transaction_keeps; [apply issue_keeps|done].
  - destruct (rotateSession_tx c t fr now d0) as [[msg ->]|(s & userId & _ & _ & ->)]; [by split|].
    apply transaction_keeps; [apply rotate_keeps|done].
  - apply transaction_keeps; [apply grant_keeps|done].
  - by apply revokeUserSessions_keeps.
  - rewrite logout_run. apply transaction_keeps; [apply logout_tx_keeps|done].
  - apply transaction_keeps; [apply update_user_keeps|done].
Qed.

Lemma steps_keep d d' : rtc (step sha256 cfg) d d' → ok d → ok d' ∧ evolves d d'.
Proof.
  induction 1 as [|d1 d2 d3 H _ IH]; intros Hok; [by split|].
  destruct (step_keeps _ _ H Hok) as [H2 E2]. destruct (IH H2) as [H3 E3]. split; [done|by etrans].
Qed.

(** C35. Whatever operations run, in whatever order: a family has at most one
    refresh token that can still be redeemed, every token belongs to the account
    of its family and none outlives the family, and identifiers and hashes stay
    unique. *)
Theorem session_tables_invariant d d' : ok d → rtc (step sha256 cfg) d d' → ok d'.
Proof. intros Hok H. by apply (steps_keep d d'). Qed.

Lemma transaction_ok {A} (m : eff Console.t A) d a d' : transaction m d = (Ok a, d') → m d = (Ok a, d').
Proof. unfold transaction. destruct (m d) as [[x|[st|] msg] d1]; congruence. Qed.

Lemma rotateSession_ok c t fr now d r d' :
  rotateSession sha256 cfg c t fr now d = (Ok r, d') →
  ∃ s userId, sid c = Some s ∧ subject c = Some userId ∧ rotate_tx sha256 cfg userId s t fr now d = (Ok r, d').
Proof.
  intros H. destruct (rotateSession_tx c t fr now d) as [[msg Hm]|(s & userId & Hs & Hu & Hm)]; rewrite Hm in H; [done|].
  exists s, userId. split_and!; [done..|]. by apply transaction_ok.
Qed.

(** A redeemed token stays in the table, revoked. *)
Lemma rotated_consumes userId s t fr now d p d' :
  rotate_tx sha256 cfg userId s t fr now d = (Ok (Rotated p), d') → ok d →
  ∃ r, r ∈ Console.refresh_tokens d' ∧ Refresh.token_hash r = sha256 t ∧ is_revoked r = true.
Proof.
  intros Hrun Hok.
  apply rotate_tx_inv in Hrun as (u & f & cr & Hid & Hf & _ & Hfu & Hcr & _ & Hs & Hh & [(_ & ? & _)|Hrot]); [done|].
  destruct Hrot as (Hlive & p' & d1 & d2 & a1 & a2 & _ & _ & H1 & H2 & H3).
  pose proof H1 as Hrev. eapply rotate_writes in H1 as (_ & _ & Hev); [|done..|congruence|done|done|done].
  unfold revoke_tokens, modify in Hrev. injection Hrev as _ <-.
  destruct (ev_tokens _ _ Hev (cr <| Refresh.revoked := true |> <| Refresh.revoked_at := Some now |>))
    as (r & Hr & Hk & Hv).
  - simpl. apply elem_of_update. exists cr. split; [done|]. by rewrite String.eqb_refl, Hlive.
  - exists r. unfold token_key in Hk. simpl in Hk. injection Hk as _ _ Hrh _ _. split_and!; [done|congruence|auto].
Qed.

(** C10. A refresh token is redeemed at most once: after a rotation with it, no
    later rotation with it gives tokens, whatever happens in between. *)
Theorem refresh_redeemed_once c t fr now p d d1 d2 c' fr' now' p' d3 :
  ok d → rotateSession sha256 cfg c t fr now d = (Ok (Rotated p), d1) → rtc (step sha256 cfg) d1 d2 →
  rotateSession sha256 cfg c' t fr' now' d2 ≠ (Ok (Rotated p'), d3).
Proof.
  intros Hok (s & userId & _ & _ & Hrun)%rotateSession_ok Hsteps (s' & userId' & _ & _ & Hrun')%rotateSession_ok.
  destruct (rotate_keeps _ _ _ _ _ _ _ _ Hrun Hok) as [Hok1 _].
  destruct (steps_keep _ _ Hsteps Hok1) as [Hok2 Hev].
  destruct (rotated_consumes _ _ _ _ _ _ _ _ Hrun Hok) as (r & Hr & Hh & Hrev).
  destruct (ev_tokens _ _ Hev r Hr) as (r2 & Hr2 & Hk & Hv). unfold token_key in Hk.
  apply rotate_tx_inv in Hrun' as (u & f & cr & _ & _ & _ & _ & Hcr & _ & _ & Hch & [(_ & ? & _)|(Hlive & _)]); [done|].
  assert (cr = r2) as ->; [|rewrite Hv in Hlive; done].
  apply (NoDup_fmap_inj _ _ _ _ (ok_hashes _ Hok2) Hcr Hr2). congruence.
Qed.

(** A session identifier the service no longer honours. *)
Definition refused (s : string) (now : Z) (d : Console.t) : Prop :=
  (∀ c t fr r d', sid c = Some s → rotateSession sha256 cfg c t fr now d ≠ (Ok r, d')) ∧
  (∀ u root h o fr sn d', changeRootGrant sha256 cfg u s root h o fr now d ≠ (Ok sn, d')) ∧
  (∀ bl t c a d', decode t = Some c → sid c = Some s → resolveAccessToken sha256 cfg bl t now d ≠ (Ok a, d')).

Lemma same_family d f f' s :
  ok d → f ∈ Console.families d → f' ∈ Console.families d →
  uuid_is (Family.id f) s = true → uuid_is (Family.id f') s = true → f = f'.
Proof.
  intros Hok Hf Hf' H H'. unfold uuid_is in *. b2p.
  apply (NoDup_fmap_inj _ _ _ _ (ok_families _ Hok) Hf Hf'). congruence.
Qed.

Lemma resolve_family bl t now d a d' c s :
  resolveAccessToken sha256 cfg bl t now d = (Ok a, d') → decode t = Some c → sid c = Some s →
  ∃ u f, u ∈ Console.users d ∧ Account.id u = a_id a ∧ f ∈ Console.families d ∧
    Family.user_id f = Account.id u ∧ uuid_is (Family.id f) s = true ∧
    Family.revoked_at f = None ∧ now < Family.expires_at f ∧
    a_compartment_access a =
      (if grant_holds c (coalesce (Account.organization_id u) org_default) f now then "root" else "standard").
Proof.
  unfold resolveAccessToken. destruct (verify _ _ _) as [c'|] eqn:Ev; [|done].
  intros Hrun Hd Hs. apply verify_decode in Ev as [Hd' _]. assert (c' = c) as -> by congruence.
  destruct (opt_is _ _); [done|]. rewrite Hs in Hrun. destruct (_ || _); [done|]. destruct (bl t); [done|].
  unfold eff_bind, get in Hrun. destruct (select1 _ (Console.users d)) as [u|] eqn:Eu; [|done].
  destruct (select1 _ (Console.families d)) as [f|] eqn:Ef; [|done].
  apply select1_elem in Eu as [Hu Hui]. apply select1_elem in Ef as [Hf Hfi]. b2p.
  destruct (bool_decide _ || _) eqn:E; [done|]. b2p. destruct (negb _); [done|]. destruct (revoked_token _ _ _); [done|].
  unfold eff_ret in Hrun. injection Hrun as <- <-. exists u, f. simpl. split_and!; try done; [congruence|].
  by apply eq_None_not_Some.
Qed.

(** A family that is revoked or past its lifetime. *)
Lemma family_refused d f s now :
  ok d → f ∈ Console.families d → uuid_is (Family.id f) s = true →
  is_Some (Family.revoked_at f) ∨ Family.expires_at f <= now → refused s now d.
Proof.
  intros Hok Hf Hs Hend.
  assert (∀ userId f' d', lockFamily userId s now d ≠ (Ok f', d')) as Hlock.
  { intros userId f' d' (_ & Hf' & Hs' & _ & Hr & He)%lockFamily_run.
    rewrite (same_family d f f' s Hok Hf Hf' Hs Hs') in Hend. destruct Hend as [[? ?]|?]; [congruence|lia]. }
  split_and!.
  - intros c t fr r d' Hc (s' & userId & Hc' & _ & Hrun)%rotateSession_ok. assert (s' = s) as -> by congruence.
    unfold rotate_tx in Hrun. apply eff_bind_ok in Hrun as (u & d1 & Hu & Hrun). apply currentUser_run in Hu as (-> & _).
    apply eff_bind_ok in Hrun as (f' & d1 & Hl & _). by apply Hlock in Hl.
  - intros u root h o fr sn d' Hrun%transaction_ok. unfold changeRootGrantWithClient in Hrun.
    apply eff_bind_ok in Hrun as (u' & d1 & Hu & Hrun). apply currentUser_run in Hu as (-> & _).
    apply eff_bind_ok in Hrun as (f' & d1 & Hl & _). by apply Hlock in Hl.
  - intros bl t c a d' Hd Hc Hrun. destruct (resolve_family _ _ _ _ _ _ _ _ Hrun Hd Hc) as (u & f' & _ & _ & Hf' & _ & Hs' & Hr & He & _).
    rewrite (same_family d f f' s Hok Hf Hf' Hs Hs') in Hend. destruct Hend as [[? ?]|?]; [congruence|lia].
Qed.

(** The three ways a sign-in ends: a refresh token is presented again, the user
    logs out, the account's sessions are revoked. *)
Inductive ends (s : string) (d d1 : Console.t) : Prop :=
  | ends_by_replay c t fr now u :
      sid c = Some s → rotateSession sha256 cfg c t fr now d = (Ok (Replayed u), d1) → ends s d d1
  | ends_by_logout t userId now :
      revokeAccessTokenAndRefresh sha256 t userId s now d = (Ok tt, d1) → ends s d d1
  | ends_by_account f userId now n :
      f ∈ Console.families d → Family.user_id f = userId → uuid_is (Family.id f) s = true →
      revokeUserSessions userId now d = (Ok n, d1) → ends s d d1.

Lemma revokeFamily_revokes userId s reason now d a d' f :
  revokeFamily userId s reason now d = (Ok a, d') → f ∈ Console.families d →
  uuid_is (Family.id f) s = true → Family.user_id f = userId →
  ∃ f', f' ∈ Console.families d' ∧ Family.id f' = Family.id f ∧ is_Some (Family.revoked_at f').
Proof.
  unfold revokeFamily, update_families, revoke_tokens, eff_bind, modify. intros [= _ <-] Hf Hs Hu. simpl.
  exists (f <| Family.revoked_at := Some now |> <| Family.revocation_reason := Some reason |>).
  split_and!; [|done|simpl; eauto]. apply elem_of_update. exists f. split; [done|].
  by rewrite Hs, Hu, String.eqb_refl.
Qed.

Lemma uuid_is_trans a b c : uuid_is a b = true → uuid_is b c = true → uuid_is a c = true.
Proof. unfold uuid_is. intros. b2p. apply String.eqb_eq. congruence. Qed.

Lemma ends_revokes s d d1 :
  ok d → ends s d d1 →
  ok d1 ∧ ∃ f, f ∈ Console.families d1 ∧ uuid_is (Family.id f) s = true ∧ is_Some (Family.revoked_at f).
Proof.
  intros Hok [c t fr now u Hc (s' & userId & Hc' & _ & Hrun)%rotateSession_ok|t userId now Hrun|f userId now n Hf Hfu Hs Hrun].
  - assert (s' = s) as -> by congruence. split; [by apply (rotate_keeps _ _ _ _ _ _ _ _ Hrun)|].
    apply rotate_tx_inv in Hrun as (u0 & f & cr & _ & Hf & Hs & Hfu & _ & _ & _ & _ & [(_ & _ & Hr)|(_ & p & ? & ? & ? & ? & ? & _)]);
      [|done].
    destruct (revokeFamily_revokes _ _ _ _ _ _ _ f Hr Hf) as (f' & Hf' & Hid & Hrev); [|done|].
    { unfold uuid_is. apply String.eqb_refl. }
    exists f'. by rewrite Hid.
  - unfold revokeAccessTokenAndRefresh in Hrun.
    destruct (transaction _ d) as [[[]|] d2] eqn:E; [|by case_bool_decide]. injection Hrun as <-.
    apply transaction_ok in E. split; [by apply (logout_tx_keeps _ _ _ _ _ _ _ E)|].
    unfold logout_tx in E. apply eff_bind_ok in E as (u & d3 & Hu & E). apply currentUser_run in Hu as (-> & _).
    apply eff_bind_ok in E as (f & d3 & Hl & E). apply lockFamily_run in Hl as (-> & Hf & Hs & Hfu & _).
    apply eff_bind_ok in E as (? & d3 & Hm & E). unfold modify in Hm. injection Hm as _ <-.
    destruct (revokeFamily_revokes _ _ _ _ _ _ _ f E Hf Hs Hfu) as (f' & Hf' & Hid & Hrev).
    exists f'. by rewrite Hid.
  - pose proof (revokeUserSessions_keeps userId now d Hok) as Hk. rewrite Hrun in Hk. destruct Hk as [Hok1 _].
    split; [done|]. apply transaction_ok in Hrun.
    apply eff_bind_ok in Hrun as (d0 & d2 & Hg & Hrun). unfold get in Hg. injection Hg as <- <-.
    destruct (select1 _ _); [|done]. apply eff_bind_ok in Hrun as (? & d2 & Hup & Hrun).
    destruct (update_user_keeps _ _ _ _ _ Hup Hok) as [Hok2 Hev].
    destruct (ev_families _ _ Hev f Hf) as (f2 & Hf2 & Hk2 & _). unfold family_key in Hk2. injection Hk2 as Hi Hu2 _.
    apply eff_bind_ok in Hrun as (? & d3 & Hfam & Hrun). apply update_families_run in Hfam as ->.
    apply eff_bind_ok in Hrun as (? & d4 & Ht & Hrun). apply revoke_tokens_run in Ht as [Hfam _].
    unfold eff_ret in Hrun. injection Hrun as _ <-. rewrite Hfam. simpl.
    eexists. split; [apply elem_of_update; exists f2; split; [done|]; by rewrite Hu2, Hfu, String.eqb_refl|].
    simpl. rewrite Hi. eauto.
Qed.

(** The end of a sign-in is final: after a replayed refresh token, a logout or
    a revocation of the account's sessions, no token of that sign-in is honoured
    again, whatever operations follow: it is not rotated, not elevated and not
    admitted. *)
Theorem ended_session_stays_ended s d d1 d2 now :
  ok d → ends s d d1 → rtc (step sha256 cfg) d1 d2 → refused s now d2.
Proof.
  intros Hok Hend Hsteps. destruct (ends_revokes _ _ _ Hok Hend) as (Hok1 & f & Hf & Hs & Hr).
  destruct (steps_keep _ _ Hsteps Hok1) as [Hok2 Hev].
  destruct (ev_families _ _ Hev f Hf) as (f2 & Hf2 & Hk & Hr2). unfold family_key in Hk. injection Hk as Hi _ _.
  apply (family_refused d2 f2); [done..|by rewrite Hi|]. left. auto.
Qed.

Lemma issue_family v fr now d sn d' :
  issueSessionWithClient sha256 cfg v fr now d = (Ok sn, d') → ok d →
  ∃ f, f ∈ Console.families d' ∧ Family.id f = family_id fr ∧
    Family.expires_at f = (seconds now + refresh_ttl cfg) * 1000.
Proof.
  intros Hrun Hok. pose proof (issue_keeps _ _ _ _ _ _ Hrun Hok) as [Hok' _]. unfold issueSessionWithClient in Hrun.
  apply eff_bind_ok in Hrun as (u & d1 & Hu & Hrun). apply currentUser_run in Hu as (-> & Hid & _ & _).
  cbv zeta in Hrun. set (root := _ && _ && _) in Hrun. set (grant := if root then _ else _) in Hrun.
  apply eff_bind_ok in Hrun as (d0 & d1 & Hg & Hrun). unfold get in Hg. injection Hg as <- <-.
  apply eff_bind_ok in Hrun as (? & d2 & Hins & Hrun).
  destruct (existsb _ _); [done|]. unfold modify in Hins. injection Hins as _ <-.
  unfold signRefreshToken in Hrun. rewrite exp_of_sign in Hrun.
  unfold persistPair in Hrun. destruct (_ <=? 0); [done|].
  apply eff_bind_ok in Hrun as (? & d3 & Hins & Hrun). unfold insert_refresh, eff_bind, get in Hins.
  destruct (existsb _ _); [done|]. unfold modify in Hins. injection Hins as _ <-.
  apply eff_bind_ok in Hrun as (? & d4 & Hup & Hrun). unfold eff_ret in Hrun. injection Hrun as _ <-.
  destruct root.
  - apply update_families_run in Hup as ->. simpl.
    eexists. split; [apply elem_of_update; eexists; split; [apply elem_of_app; right; by apply list_elem_of_singleton|reflexivity]|].
    simpl. by rewrite String.eqb_refl.
  - unfold eff_ret in Hup. injection Hup as _ <-. simpl.
    eexists. split; [apply elem_of_app; right; by apply list_elem_of_singleton|done].
Qed.

(** Refreshing never extends a sign-in: once the refresh lifetime counted from
    the sign-in itself has passed, its tokens are refused, however often they
    were rotated or elevated. *)
Theorem sign_in_lifetime_is_absolute v fr t0 d sn d1 d2 now :
  ok d → issueSession sha256 cfg v fr t0 d = (Ok sn, d1) → rtc (step sha256 cfg) d1 d2 →
  (seconds t0 + refresh_ttl cfg) * 1000 <= now → refused (family_id fr) now d2.
Proof.
  intros Hok Hrun%transaction_ok Hsteps Hnow. destruct (issue_keeps _ _ _ _ _ _ Hrun Hok) as [Hok1 _].
  destruct (issue_family _ _ _ _ _ _ Hrun Hok) as (f & Hf & Hid & Hexp).
  destruct (steps_keep _ _ Hsteps Hok1) as [Hok2 Hev].
  destruct (ev_families _ _ Hev f Hf) as (f2 & Hf2 & Hk & _). unfold family_key in Hk. injection Hk as Hi _ He.
  apply (family_refused d2 f2); [done..|rewrite Hi, Hid; unfold uuid_is; apply String.eqb_refl|right; lia].
Qed.

(** A root grant dies with the identity it was given to: when the account is
    moved to another organisation or its vault password changes, every token of
    the account is back to the standard tier. *)
Theorem root_grant_dies_with_identity userId f old d d1 bl t c s now a d' :
  update_user userId f d = (Ok tt, d1) →
  select1 (λ u, (Account.id u =? userId)%string) (Console.users d) = Some old →
  Account.id (f old) = Account.id old → identity_changed old (f old) = true →
  decode t = Some c → sid c = Some s → resolveAccessToken sha256 cfg bl t now d1 = (Ok a, d') →
  a_id a = userId → a_compartment_access a = "standard".
Proof.
  intros Hup Hold Hid Hch Hd Hs Hrun Ha.
  destruct (resolve_family _ _ _ _ _ _ _ _ Hrun Hd Hs) as (u & fam & _ & Hu & Hf & Hfu & _ & _ & _ & ->).
  unfold update_user, eff_bind, get in Hup. rewrite Hold in Hup.
  destruct (advance_console_auth_epoch old (f old)) as [new|] eqn:En; [|done].
  unfold modify in Hup. injection Hup as <-. simpl in Hf.
  apply elem_of_update in Hf as (y & Hy & ->).
  apply select1_elem in Hold as [Ho _]. b2p.
  assert (Account.id new = userId ∧ identity_changed old new = true) as [Hni Hnc].
  { unfold advance_console_auth_epoch in En. repeat case_match; simplify_eq/=; (split; [congruence|done]). }
  assert (Family.root_grant_id (if invalidate_console_root_grants old new y then clear_grant y else y) = None) as Hnone.
  { unfold invalidate_console_root_grants in *. rewrite Hnc in *. simpl in *.
    destruct (Family.user_id y =? Account.id new)%string eqn:Ey; simpl in *; b2p.
    - case_bool_decide as Hg; [done|]. by apply eq_None_not_Some.
    - simpl in Hfu. congruence. }
  unfold grant_holds. rewrite Hnone. destruct (c_root_grant_id c); simpl; by rewrite ?andb_false_r.
Qed.

End Facts.
End SessionFacts.

(** ** A token format and a run *)

Module SessionSamples.
Import Sessions SessionFacts.

Fixpoint bits (p : positive) : string :=
  match p with
  | xH => ""
  | xO q => String "0" (bits q)
  | xI q => String "1" (bits q)
  end.
Fixpoint unbits (s : string) : positive :=
  match s with
  | EmptyString => xH
  | String c r => if Ascii.eqb c "0" then xO (unbits r) else xI (unbits r)
  end.
Lemma unbits_bits p : unbits (bits p) = p.
Proof. induction p as [p IH|p IH|]; simpl; [by rewrite IH..|done]. Qed.

Definition put_text (o : option string) : string := match o with Some s => String "1" s | None => "" end.
Definition get_text (s : string) : option string := match s with String _ r => Some r | EmptyString => None end.
Lemma store_get_put o : get_text (put_text o) = o.
Proof. by destruct o. Qed.

Definition put_int (o : option Z) : string := put_text ((λ z, bits (encode z)) <$> o).
Definition get_int (s : string) : option Z := get_text s ≫= λ r, countable.decode (unbits r).
Lemma get_put_int o : get_int (put_int o) = o.
Proof. unfold get_int, put_int. rewrite store_get_put. destruct o; simpl; [|done]. by rewrite unbits_bits, decode_encode. Qed.

Definition sample_sign (secret : string) (c : claims) : string :=
  bits (encode [secret; put_text (sub c); put_text (cid c); put_text (c_username c); put_text (c_role c);
    put_text (c_organization_id c); put_text (c_compartment_access c); put_text (sid c);
    put_text (c_root_grant_id c); put_text (jti c); put_text (type_ c); put_int (exp c)]).

Definition sample_open (t : string) : option (string * claims) :=
  match countable.decode (A := list string) (unbits t) with
  | Some [secret; a; b; u; r; o; ca; si; g; j; ty; e] =>
      Some (secret, mk_claims (get_text a) (get_text b) (get_text u) (get_text r) (get_text o) (get_text ca)
        (get_text si) (get_text g) (get_text j) (get_text ty) (get_int e))
  | _ => None
  end.

Lemma sample_open_sign secret c : sample_open (sample_sign secret c) = Some (secret, c).
Proof.
  unfold sample_open, sample_sign. rewrite unbits_bits, decode_encode, !store_get_put, get_put_int. by destruct c.
Qed.

Definition sample_verify (secret t : string) (now : Z) : option claims :=
  match sample_open t with
  | Some (k, c) =>
      if (k =? secret)%string && match exp c with Some e => now <? e | None => true end then Some c else None
  | None => None
  end.

#[export] Program Instance sample_jwt : Jwt := {
  sign := sample_sign;
  verify := sample_verify;
  decode t := snd <$> sample_open t
}.
Next Obligation. intros. simpl. by rewrite sample_open_sign. Qed.
Next Obligation.
  intros secret t now c. unfold sample_verify. destruct (sample_open t) as [[k c0]|]; [|done].
  destruct ((k =? secret)%string && _) eqn:E; [|done]. intros [= ->]. b2p. split; [done|].
  intros e He. rewrite He in *. by b2p.
Qed.

Definition sample_cfg : settings := mk_settings "access" "refresh" 900 604800.
Definition digest (s : string) : string := s.

Definition sid1 : string := "00000000-0000-4000-8000-000000000001".
Definition fresh1 : fresh := mk_fresh sid1 "g1" "t1" "j1" "j2" "j3".
Definition fresh2 : fresh := mk_fresh "unused" "g2" "t2" "j4" "j5" "j6".

Definition ann : Account.t :=
  Account.mk "usr-1" "ann" "admin" "active" (Some "org-a") (Some "h") (Some "hr") None None 1 false None []
    None None None None None None.

Definition tables : Console.t := Console.mk [ann] [] [] [] [] [].

Lemma tables_ok : ok tables.
Proof.
  split; simpl; [apply NoDup_nil_2..| |].
  - by intros r r' s ?%elem_of_nil.
  - by intros r s ?%elem_of_nil.
Qed.

Definition ann_verified : verified := mk_verified "usr-1" (Some "org-a") (Some "hr") "root".

Definition signed_in : outcome session * Console.t :=
  Eval vm_compute in issueSession digest sample_cfg ann_verified fresh1 1000000 tables.
Definition signed_in_tables : Console.t := Eval vm_compute in signed_in.2.
Definition refresh1 : string :=
  Eval vm_compute in match signed_in.1 with Ok s => refreshToken s | _ => "" end.
Definition access1 : string :=
  Eval vm_compute in match signed_in.1 with Ok s => token s | _ => "" end.
Definition claims1 : claims :=
  Eval vm_compute in match decode refresh1 with Some c => c | None => mk_claims None None None None None None None None None None None end.

Definition rotated : outcome rotation * Console.t :=
  Eval vm_compute in rotateSession digest sample_cfg claims1 refresh1 fresh2 2000000 signed_in_tables.
Definition rotated_tables : Console.t := Eval vm_compute in rotated.2.

Lemma signed_in_run :
  ∃ sn, issueSession digest sample_cfg ann_verified fresh1 1000000 tables = (Ok sn, signed_in_tables).
Proof. eexists. vm_compute. reflexivity. Qed.

Lemma rotated_run :
  ∃ p, rotateSession digest sample_cfg claims1 refresh1 fresh2 2000000 signed_in_tables = (Ok (Rotated p), rotated_tables).
Proof. eexists. vm_compute. reflexivity. Qed.

Lemma signed_in_steps : rtc (step digest sample_cfg) tables signed_in_tables.
Proof.
  destruct signed_in_run as [sn H]. apply rtc_once.
  replace signed_in_tables with (issueSession digest sample_cfg ann_verified fresh1 1000000 tables).2 by by rewrite H.
  constructor.
Qed.

Lemma rotated_steps : rtc (step digest sample_cfg) signed_in_tables rotated_tables.
Proof.
  destruct rotated_run as [p H]. apply rtc_once.
  replace rotated_tables with (rotateSession digest sample_cfg claims1 refresh1 fresh2 2000000 signed_in_tables).2
    by by rewrite H.
  constructor.
Qed.

Lemma signed_in_ok : ok signed_in_tables.
Proof. apply (steps_keep digest sample_cfg tables); [exact signed_in_steps|exact tables_ok]. Qed.

Lemma rotated_ok : ok rotated_tables.
Proof. apply (steps_keep digest sample_cfg signed_in_tables); [exact rotated_steps|exact signed_in_ok]. Qed.

Lemma session_tables_invariant_witness : ok rotated_tables.
Proof.
  apply (session_tables_invariant digest sample_cfg signed_in_tables); [exact signed_in_ok|exact rotated_steps].
Defined.

Lemma refresh_redeemed_once_witness :
  ¬ ∃ p' d3, rotateSession digest sample_cfg claims1 refresh1 fresh2 3000000 rotated_tables = (Ok (Rotated p'), d3).
Proof.
  intros (p' & d3 & H'). destruct rotated_run as [p H].
  exact (refresh_redeemed_once digest sample_cfg claims1 refresh1 fresh2 2000000 p signed_in_tables rotated_tables
    rotated_tables claims1 fresh2 3000000 p' d3 signed_in_ok H (rtc_refl _ _) H').
Defined.

(** The first refresh token is presented again. *)
Definition replayed_tables : Console.t :=
  Eval vm_compute in (rotateSession digest sample_cfg claims1 refresh1 fresh2 3000000 rotated_tables).2.

Lemma ended_session_stays_ended_witness : refused digest sample_cfg sid1 4000000 replayed_tables.
Proof.
  apply (ended_session_stays_ended digest sample_cfg sid1 rotated_tables replayed_tables replayed_tables);
    [exact rotated_ok| |apply rtc_refl].
  apply (ends_by_replay digest sample_cfg sid1 _ _ claims1 refresh1 fresh2 3000000 "usr-1"); vm_compute; reflexivity.
Defined.

Lemma sign_in_lifetime_is_absolute_witness : refused digest sample_cfg sid1 700000000 rotated_tables.
Proof.
  destruct signed_in_run as [sn H].
  apply (sign_in_lifetime_is_absolute digest sample_cfg ann_verified fresh1 1000000 tables sn signed_in_tables);
    [exact tables_ok|exact H|exact rotated_steps|vm_compute; congruence].
Defined.

(** The account is moved to another organisation. *)
Definition move (u : Account.t) : Account.t := u <| Account.organization_id := Some "org-b" |>.
Definition moved_tables : Console.t := Eval vm_compute in (update_user "usr-1" move signed_in_tables).2.
Definition access_claims : claims := Eval vm_compute in default claims1 (decode access1).
Definition admitted : outcome authority * Console.t :=
  Eval vm_compute in resolveAccessToken digest sample_cfg (λ _, false) access1 1001000 moved_tables.
Definition admitted_as : authority :=
  Eval vm_compute in match admitted.1 with Ok a => a | _ => mk_authority "" "" "" "" "" "" "" "" None 0 end.

Lemma root_grant_dies_with_identity_witness :
  resolveAccessToken digest sample_cfg (λ _, false) access1 1001000 moved_tables = (Ok admitted_as, moved_tables) ∧
  a_compartment_access admitted_as = "standard".
Proof.
  assert (resolveAccessToken digest sample_cfg (λ _, false) access1 1001000 moved_tables = (Ok admitted_as, moved_tables))
    as H by (vm_compute; reflexivity).
  split; [exact H|].
  apply (root_grant_dies_with_identity digest sample_cfg "usr-1" move ann signed_in_tables moved_tables (λ _, false)
    access1 access_claims sid1 1001000 admitted_as moved_tables); try exact H; vm_compute; reflexivity.
Defined.

(** Before the move the token opens the hidden compartments. *)
Lemma root_before_the_move :
  ∃ a d, resolveAccessToken digest sample_cfg (λ _, false) access1 1001000 signed_in_tables = (Ok a, d) ∧
    a_compartment_access a = "root".
Proof. eexists _, _. split; [vm_compute; reflexivity|reflexivity]. Qed.

End SessionSamples.
