(* ===== verification/Totp.v ===== *)
(** * One-time codes

    [services/TotpService.js].  The base 32 codec works on 32-bit integers whose
    high bits overflow; HMAC and SHA-256 are parameters, and the random bytes of
    a new secret are an argument.  Texts are ASCII, so a code of six characters
    is six bytes for [timingSafeEqual]. *)

From S2P Require Import Prelude Order Js Db Encoding.

Module Totp.

(** ** 32-bit integers *)

Definition int32 (z : Z) : Z := (z + 2 ^ 31) mod 2 ^ 32 - 2 ^ 31.
(** [a << k], [a | b] and [a >>> k] *)
Definition shl32 (a k : Z) : Z := int32 (Z.shiftl a k).
Definition or32 (a b : Z) : Z := int32 (Z.lor a b).
Definition ushr32 (a k : Z) : Z := Z.shiftr (a mod 2 ^ 32) k.

Definition BASE32_ALPHABET : string := "ABCDEFGHIJKLMNOPQRSTUVWXYZ234567".

Definition alphabet_at (i : Z) : string :=
  match String.get (Z.to_nat i) BASE32_ALPHABET with Some c => str1 c | None => "undefined" end.

Fixpoint index_of (c : ascii) (s : string) (i : Z) : Z :=
  match s with
  | EmptyString => -1
  | String d r => if Ascii.eqb c d then i else index_of c r (i + 1)
  end.

(** *** Encoding *)

(** The inner loop: at most two characters leave the accumulator per byte. *)
Fixpoint drain (fuel : nat) (value bits : Z) : string * Z :=
  match fuel with
  | O => ("", bits)
  | S f =>
      if 5 <=? bits then
        let '(out, bits') := drain f value (bits - 5) in
        (alphabet_at (Z.land (ushr32 value (bits - 5)) 31) +:+ out, bits')
      else ("", bits)
  end.

Fixpoint encode_loop (buffer : list Z) (value bits : Z) : string :=
  match buffer with
  | [] => if 0 <? bits then alphabet_at (Z.land (shl32 value (5 - bits)) 31) else ""
  | b :: rest =>
      let value := or32 (shl32 value 8) b in
      let '(out, bits) := drain 3 value (bits + 8) in
      out +:+ encode_loop rest value bits
  end.

Definition base32Encode (buffer : list Z) : string := encode_loop buffer 0 0.

(** *** Decoding *)

Fixpoint strip_end (c : ascii) (s : string) : string :=
  match s with
  | String d r => if Ascii.eqb c d then strip_end c r else s
  | EmptyString => s
  end.

Fixpoint remove_chars (p : ascii → bool) (s : string) : string :=
  match s with
  | EmptyString => EmptyString
  | String c r => if p c then remove_chars p r else String c (remove_chars p r)
  end.

(** [toUpperCase().replace(/=+$/, '').replace(/\s+/g, '')] *)
Definition clean (s : string) : string :=
  remove_chars is_space (js_rev (strip_end "=" (js_rev (toUpperCase s)))).

Fixpoint decode_loop (s : string) (value bits : Z) : outcome (list Z) :=
  match s with
  | EmptyString => Ok []
  | String c r =>
      let idx := index_of c BASE32_ALPHABET 0 in
      if idx =? -1 then Throw None ("Invalid Base32 character: " +:+ str1 c) else
      let value := or32 (shl32 value 5) idx in
      let bits := bits + 5 in
      if 8 <=? bits then
        match decode_loop r value (bits - 8) with
        | Ok bytes => Ok (Z.land (ushr32 value (bits - 8)) 255 :: bytes)
        | Throw st m => Throw st m
        end
      else decode_loop r value bits
  end.

Definition base32Decode (s : string) : outcome (list Z) := decode_loop (clean s) 0 0.

Definition generateSecret (randomBytes : list Z) : string := base32Encode randomBytes.

(** ** Codes *)

(** [counterBuffer.writeBigUInt64BE(counter)] *)
Definition counter_bytes (counter : Z) : list Z :=
  (λ i, Z.land (Z.shiftr counter (8 * (7 - Z.of_nat i))) 255) <$> seq 0 8.

(** [String(otp).padStart(digits, '0')] *)
Definition pad_digits (digits otp : Z) : string :=
  let s := pretty otp in zeros (digits - len s) +:+ s.

Definition byte_at (l : list Z) (i : Z) : Z := default 0 (l !! Z.to_nat i).

Section Codes.
Context (hmac_sha1 : list Z → list Z → list Z) (sha256 : string → string).

(** The dynamic truncation of RFC 4226. *)
Definition truncate (hmac : list Z) (digits : Z) : string :=
  let offset := Z.land (byte_at hmac (Z.of_nat (length hmac) - 1)) 15 in
  let binary := Z.lor (Z.lor (Z.lor (Z.shiftl (Z.land (byte_at hmac offset) 127) 24)
      (Z.shiftl (Z.land (byte_at hmac (offset + 1)) 255) 16))
      (Z.shiftl (Z.land (byte_at hmac (offset + 2)) 255) 8))
      (Z.land (byte_at hmac (offset + 3)) 255) in
  pad_digits digits (binary mod 10 ^ digits).

Definition otp_at (key : list Z) (counter digits : Z) : string :=
  truncate (hmac_sha1 key (counter_bytes counter)) digits.

(** [writeBigUInt64BE] raises outside the 64-bit range. *)
Definition checked_otp (key : list Z) (counter digits : Z) : outcome string :=
  if (0 <=? counter) && (counter <? 2 ^ 64) then Ok (otp_at key counter digits)
  else Throw None "ERR_OUT_OF_RANGE".

(** [time] in milliseconds. *)
Definition counter_of (time timeStep : Z) : Z := time / (1000 * timeStep).

Definition generateTotp (secret : string) (timeStep time digits : Z) : outcome string :=
  match base32Decode secret with
  | Ok key => checked_otp key (counter_of time timeStep) digits
  | Throw st m => Throw st m
  end.

(** The loop over the drift window: [n] counters from [counter] on. *)
Fixpoint drift_scan (token : string) (key : list Z) (counter digits : Z) (n : nat) : outcome bool :=
  match n with
  | O => Ok false
  | S n =>
      match checked_otp key counter digits with
      | Throw st m => Throw st m
      | Ok otp => if (token =? otp)%string then Ok true else drift_scan token key (counter + 1) digits n
      end
  end.

Definition verifyTotp (token : string) (secret : option string) (window timeStep time digits : Z) : outcome bool :=
  match secret with
  | None => Ok false
  | Some secret =>
      if (token =? "")%string || (secret =? "")%string then Ok false else
      let cleanToken := trim token in
      if negb (len cleanToken =? digits) then Ok false else
      match base32Decode secret with
      | Throw st m => Throw st m
      | Ok key =>
          drift_scan cleanToken key (counter_of time timeStep - window) digits (Z.to_nat (2 * window + 1))
      end
  end.

(** ** Recovery codes *)

Definition generateRecoveryCodes (randoms : list (list Z)) : list string :=
  (λ bytes, let raw := toUpperCase (hex_encode bytes) in take_string 5 raw +:+ "-" +:+ drop_string 5 raw) <$> randoms.

Definition hashRecoveryCode (code : string) : string :=
  sha256 (toUpperCase (remove_chars (λ c, Ascii.eqb c "-" || is_space c) (trim code))).

Fixpoint remove_first (h : string) (l : list string) : list string :=
  match l with
  | [] => []
  | x :: r => if (x =? h)%string then r else x :: remove_first h r
  end.

Definition verifyAndConsumeRecoveryCode (providedCode : string) (hashedCodes : list string) : bool * list string :=
  if (providedCode =? "")%string then (false, hashedCodes) else
  let targetHash := hashRecoveryCode providedCode in
  if existsb (λ h, (h =? targetHash)%string) hashedCodes then (true, remove_first targetHash hashedCodes)
  else (false, hashedCodes).

End Codes.
End Totp.

Module TotpFacts.
Import Totp.

(** ** The codec *)

Lemma int32_mod z j : 0 <= j <= 32 → int32 z mod 2 ^ j = z mod 2 ^ j.
Proof.
  intros Hj. unfold int32. rewrite Zminus_mod, Z.mod_mod_divide.
  - rewrite <- Zminus_mod. f_equal. lia.
  - exists (2 ^ (32 - j)). rewrite <- Z.pow_add_r by lia. f_equal. lia.
Qed.

Lemma shl32_low v k : 0 <= k <= 32 → int32 (Z.shiftl v k) / 2 ^ k * 2 ^ k = int32 (Z.shiftl v k).
Proof.
  intros Hk. assert (0 < 2 ^ k) by (apply Z.pow_pos_nonneg; lia).
  assert (int32 (Z.shiftl v k) mod 2 ^ k = 0) as H0.
  { rewrite int32_mod, Z.shiftl_mul_pow2 by lia. apply Z.mod_mul. lia. }
  pose proof (Z.div_mod (int32 (Z.shiftl v k)) (2 ^ k)). lia.
Qed.

(** Shifting an accumulator and adding a digit, whatever overflowed before. *)
Lemma accumulate v k b j :
  0 <= k <= 8 → 0 <= b < 2 ^ k → 0 <= j <= 32 →
  or32 (shl32 v k) b mod 2 ^ j = (v * 2 ^ k + b) mod 2 ^ j.
Proof.
  intros Hk Hb Hj. unfold or32, shl32. rewrite int32_mod by lia.
  rewrite <- (shl32_low v k), <- Z.shiftl_mul_pow2, lor_low, shl32_low by lia.
  rewrite Zplus_mod, int32_mod, <- Zplus_mod, Z.shiftl_mul_pow2 by lia. done.
Qed.

(** The [n] bits of an accumulator from bit [k] on. *)
Lemma extract v k n : 0 <= k → 0 <= n → k + n <= 32 →
  Z.land (ushr32 v k) (Z.ones n) = v mod 2 ^ (k + n) / 2 ^ k.
Proof.
  intros Hk Hn Hkn. unfold ushr32. apply Z.bits_inj'. intros i Hi.
  rewrite Z.land_spec, Z.shiftr_spec, Z.div_pow2_bits by lia.
  destruct (Z.lt_ge_cases i n).
  - rewrite Z.ones_spec_low, !Z.mod_pow2_bits_low by lia. apply andb_true_r.
  - rewrite Z.ones_spec_high, (Z.mod_pow2_bits_high v (k + n)) by lia. apply andb_false_r.
Qed.

Lemma alphabet_index d : 0 <= d < 32 → ∃ c, alphabet_at d = str1 c ∧ index_of c BASE32_ALPHABET 0 = d.
Proof.
  intros Hd.
  assert ((λ c, index_of c BASE32_ALPHABET 0) <$> String.get (Z.to_nat d) BASE32_ALPHABET = Some d) as H.
  { apply (upto_forall (λ d, (λ c, index_of c BASE32_ALPHABET 0) <$> String.get (Z.to_nat d) BASE32_ALPHABET = Some d) 32);
      [by vm_compute|lia]. }
  unfold alphabet_at. destruct (String.get _ _) as [c|]; [|done]. simpl in H. simplify_eq. eauto.
Qed.

(** One character of the text. *)
Lemma decode_digit d r w mb :
  0 <= d < 32 →
  decode_loop (alphabet_at d +:+ r) w mb =
  let w' := or32 (shl32 w 5) d in
  if 8 <=? mb + 5 then
    match decode_loop r w' (mb + 5 - 8) with
    | Ok bytes => Ok (Z.land (ushr32 w' (mb + 5 - 8)) 255 :: bytes)
    | Throw st m => Throw st m
    end
  else decode_loop r w' (mb + 5).
Proof.
  intros Hd. destruct (alphabet_index d Hd) as (c & -> & Hi). unfold str1.
  rewrite append_cons, append_nil_l. cbn [decode_loop]. rewrite Hi.
  by rewrite (proj2 (Z.eqb_neq d (-1))) by lia.
Qed.

(** The bits the encoder and the decoder hold back, in step: together they are
    nothing, or the last byte. *)
Definition in_step (nb mb : Z) : Prop :=
  (nb = 0 ∧ mb = 0) ∨ (1 <= nb <= 4 ∧ mb = 8 - nb).

Definition held_back (v nb w mb : Z) : list Z :=
  if nb =? 0 then [] else [(w mod 2 ^ mb) * 2 ^ nb + v mod 2 ^ nb].

Lemma encode_step b l v nb :
  0 <= nb <= 4 → 0 <= b < 256 →
  let v' := or32 (shl32 v 8) b in
  encode_loop (b :: l) v nb =
  if nb <? 2 then alphabet_at (v' mod 2 ^ (nb + 8) / 2 ^ (nb + 3)) +:+ encode_loop l v' (nb + 3)
  else alphabet_at (v' mod 2 ^ (nb + 8) / 2 ^ (nb + 3)) +:+
       alphabet_at (v' mod 2 ^ (nb + 3) / 2 ^ (nb - 2)) +:+ encode_loop l v' (nb - 2).
Proof.
  intros Hn Hb v'. cbn [encode_loop]. fold v'. cbn [drain].
  rewrite (proj2 (Z.leb_le 5 (nb + 8))) by lia.
  change 31 with (Z.ones 5).
  assert (nb + 8 - 5 + 5 = nb + 8) as E1 by lia. assert (nb + 8 - 5 = nb + 3) as E2 by lia.
  assert (nb + 3 - 5 = nb - 2) as E3 by lia. assert (nb - 2 + 5 = nb + 3) as E4 by lia.
  destruct (nb <? 2) eqn:E; b2p.
  - rewrite (proj2 (Z.leb_gt 5 (nb + 8 - 5))) by lia.
    rewrite extract, append_nil_r by lia. by rewrite E1, E2.
  - rewrite (proj2 (Z.leb_le 5 (nb + 8 - 5))), (proj2 (Z.leb_gt 5 (nb + 8 - 5 - 5))) by lia.
    rewrite !extract, append_nil_r, !append_assoc by lia. by rewrite E1, E2, E3, E4.
Qed.

Lemma last_digit v nb : 1 <= nb <= 4 →
  encode_loop [] v nb = alphabet_at ((v * 2 ^ (5 - nb)) mod 32).
Proof.
  intros Hn. cbn [encode_loop]. rewrite (proj2 (Z.ltb_lt 0 nb)) by lia. f_equal.
  change 31 with (Z.ones 5). rewrite Z.land_ones by lia. unfold shl32.
  by rewrite int32_mod, Z.shiftl_mul_pow2 by lia.
Qed.

(** The digits of a step and the bytes they complete, as arithmetic. *)
Lemma accumulated w d j : 0 <= d < 32 → 0 <= j <= 32 →
  or32 (shl32 w 5) d mod 2 ^ j = (w * 32 + d) mod 2 ^ j.
Proof. intros. rewrite accumulate; [done|lia..]. Qed.

Lemma emitted w k : 0 <= k <= 24 → Z.land (ushr32 w k) 255 = w mod 2 ^ (k + 8) / 2 ^ k.
Proof. intros. change 255 with (Z.ones 8). apply extract; lia. Qed.

Lemma accumulated_twice w d e j : 0 <= d < 32 → 0 <= e < 32 → 0 <= j <= 32 →
  or32 (shl32 (or32 (shl32 w 5) d) 5) e mod 2 ^ j = (w * 1024 + d * 32 + e) mod 2 ^ j.
Proof.
  intros. rewrite accumulated by done. rewrite Zplus_mod, Zmult_mod, accumulated, <- Zmult_mod, <- Zplus_mod by done.
  f_equal. lia.
Qed.

(** Powers and comparisons of numerals. *)
Ltac eval_closed t :=
  let x := eval vm_compute in t in
  match x with true => idtac | false => idtac | Zpos _ => idtac end; change t with x.
Ltac eval_tests :=
  repeat match goal with
  | |- context [?a <=? ?b] => eval_closed (a <=? b)
  | |- context [?a <? ?b] => eval_closed (a <? b)
  | |- context [?a =? ?b] => eval_closed (a =? b)
  end; cbv iota.
Ltac eval_pow := repeat match goal with |- context [2 ^ ?e] => eval_closed (2 ^ e) end.
Ltac digits := eval_pow; dlia.

Lemma decode_encode_loop l : Forall (λ b, 0 <= b < 256) l →
  ∀ v nb w mb, in_step nb mb →
  decode_loop (encode_loop l v nb) w mb = Ok (held_back v nb w mb ++ l).
Proof.
  induction 1 as [|b l Hb _ IH]; intros v nb w mb Hs.
  - destruct Hs as [[-> ->]|[Hn ->]]; [done|]. rewrite last_digit by done. unfold held_back.
    rewrite (proj2 (Z.eqb_neq nb 0)) by lia.
    rewrite <- (append_nil_r (alphabet_at _)), decode_digit by dlia. cbv zeta.
    rewrite (proj2 (Z.leb_le 8 _)) by lia. cbn [decode_loop app]. do 2 f_equal.
    rewrite emitted, accumulated by dlia.
    assert (nb = 1 ∨ nb = 2 ∨ nb = 3 ∨ nb = 4) as [->|[->|[->| ->]]] by lia; digits.
  - assert (b < 256 ∧ 0 <= b) as Hb' by lia.
    assert (∀ j, 0 <= j <= 32 → or32 (shl32 v 8) b mod 2 ^ j = (v * 256 + b) mod 2 ^ j) as Hv.
    { intros. apply (accumulate v 8 b j); lia. }
    rewrite encode_step by (destruct Hs; lia). cbv zeta. revert Hv. generalize (or32 (shl32 v 8) b) as v'. intros v' Hv.
    rewrite !Hv by (destruct Hs; lia).
    assert ((nb = 0 ∧ mb = 0) ∨ (nb = 1 ∧ mb = 7) ∨ (nb = 2 ∧ mb = 6) ∨ (nb = 3 ∧ mb = 5) ∨ (nb = 4 ∧ mb = 4))
      as [[-> ->]|[[-> ->]|[[-> ->]|[[-> ->]|[-> ->]]]]] by (destruct Hs; lia); eval_tests;
      repeat (rewrite decode_digit by digits; cbv zeta; eval_tests); rewrite ?IH by (unfold in_step; lia);
      unfold held_back; eval_tests; rewrite ?emitted, ?Hv by lia; rewrite ?accumulated_twice by digits;
      rewrite ?accumulated by digits; cbn [app]; eval_pow;
      apply (f_equal Ok); repeat apply (f_equal2 cons); try done; dlia.
Qed.

(** *** The text is clean *)

Definition plain (c : ascii) : bool :=
  Ascii.eqb (upper_char c) c && negb (is_space c) && negb (Ascii.eqb "=" c).

Lemma alphabet_plain d : 0 <= d < 32 → all_chars plain (alphabet_at d) = true.
Proof. apply (upto_forall (λ d, all_chars plain (alphabet_at d) = true) 32). by vm_compute. Qed.

Lemma digit_plain z : all_chars plain (alphabet_at (Z.land z 31)) = true.
Proof. apply alphabet_plain. change 31 with (Z.ones 5). rewrite Z.land_ones by done. apply Z.mod_pos_bound. done. Qed.

Lemma drain_plain f v bits : all_chars plain (drain f v bits).1 = true.
Proof.
  revert bits. induction f as [|f IH]; intros bits; [done|]. cbn [drain]. case_match; [|done].
  specialize (IH (bits - 5)). destruct (drain f v (bits - 5)) as [out bits']. simpl in *.
  by rewrite all_chars_app, digit_plain.
Qed.

Lemma encode_plain l v nb : all_chars plain (encode_loop l v nb) = true.
Proof.
  revert v nb. induction l as [|b l IH]; intros v nb; cbn [encode_loop].
  - case_match; [apply digit_plain|done].
  - pose proof (drain_plain 3 (or32 (shl32 v 8) b) (nb + 8)) as Hd.
    destruct (drain _ _ _) as [out bits]. simpl in Hd. by rewrite all_chars_app, Hd, IH.
Qed.

Lemma clean_plain s : all_chars plain s = true → clean s = s.
Proof.
  intros Hs. unfold clean.
  assert (toUpperCase s = s) as ->.
  { unfold toUpperCase. induction s as [|c s IH]; [done|]. cbn [all_chars] in Hs. unfold plain in Hs at 1. simpl.
    destruct (Ascii.eqb_spec (upper_char c) c) as [->|]; [|done]. b2p. by rewrite IH. }
  assert (strip_end "=" (js_rev s) = js_rev s) as ->.
  { rewrite <- all_chars_rev in Hs. destruct (js_rev s) as [|c r]; [done|]. cbn [all_chars] in Hs.
    unfold plain in Hs at 1. cbn [strip_end]. destruct (Ascii.eqb "=" c); [|done]. by rewrite !andb_false_r in Hs. }
  rewrite js_rev_involutive. induction s as [|c s IH]; [done|]. cbn [all_chars] in Hs. unfold plain in Hs at 1.
  cbn [remove_chars]. destruct (is_space c); [by rewrite andb_false_r in Hs|]. b2p. by rewrite IH.
Qed.

(** Every byte buffer survives the base 32 codec: decoding the encoded text
    gives the buffer back, although both accumulators overflow 32 bits from the
    fifth byte on. *)
Theorem base32_roundtrip l :
  Forall (λ b, 0 <= b < 256) l → base32Decode (base32Encode l) = Ok l.
Proof.
  intros Hl. unfold base32Decode, base32Encode. rewrite clean_plain by apply encode_plain.
  rewrite decode_encode_loop; [done|done|by left].
Qed.

Lemma base32_roundtrip_witness :
  base32Decode (base32Encode [255; 0; 137; 1; 254; 33; 128]) = Ok [255; 0; 137; 1; 254; 33; 128].
Proof. apply base32_roundtrip. repeat constructor; done. Defined.

(** ** The codes *)

Lemma len_app s t : len (s +:+ t) = len s + len t.
Proof. unfold len. induction s as [|c s IH]; [done|]. rewrite append_cons. simpl String.length. lia. Qed.

Lemma len_zeros k : 0 <= k → len (zeros k) = k.
Proof.
  intros Hk. rewrite <- (Z2Nat.id k) at 2 by done. unfold zeros. induction (Z.to_nat k) as [|n IH]; [done|].
  destruct n as [|n]; [done|]. cbn [replicate String.concat] in *.
  rewrite !len_app, IH. unfold len. simpl String.length. lia.
Qed.

Lemma len_pretty_N_go d x s : (x < 10 ^ N.of_nat d)%N → len (pretty_N_go x s) <= Z.of_nat d + len s.
Proof.
  revert x s. induction d as [|d IH]; intros x s Hx.
  - assert (x = 0%N) as -> by (change (10 ^ N.of_nat 0)%N with 1%N in Hx; lia). rewrite pretty_N_go_0. lia.
  - destruct (decide (x = 0%N)) as [->|Hn]; [rewrite pretty_N_go_0; lia|].
    rewrite pretty_N_go_step by lia. etrans; [apply IH|].
    + apply N.Div0.div_lt_upper_bound. rewrite Nat2N.inj_succ, N.pow_succ_r' in Hx. done.
    + unfold len. simpl String.length. lia.
Qed.

Lemma len_pretty d z : 1 <= d → 0 <= z < 10 ^ d → len (pretty z) <= d.
Proof.
  intros Hd Hz. destruct z as [|p|p]; [by (unfold len; simpl; lia)| |lia].
  change (pretty (Z.pos p)) with (pretty (N.pos p)). unfold pretty, pretty_N. rewrite decide_False by done.
  pose proof (len_pretty_N_go (Z.to_nat d) (N.pos p) "") as H. rewrite Z2Nat.id in H by lia.
  change (len "") with 0 in H. rewrite Z.add_0_r in H. apply H. apply N2Z.inj_lt. rewrite N2Z.inj_pow, nat_N_Z.
  rewrite Z2Nat.id by lia. simpl. lia.
Qed.

Section Window.
Context (hmac_sha1 : list Z → list Z → list Z) (sha256 : string → string).

Lemma len_otp key counter digits : 1 <= digits → len (otp_at hmac_sha1 key counter digits) = digits.
Proof.
  intros Hd. unfold otp_at, truncate, pad_digits. cbv zeta.
  rewrite len_app. set (n := _ mod 10 ^ digits).
  assert (0 <= n < 10 ^ digits) by (apply Z.mod_pos_bound, Z.pow_pos_nonneg; lia).
  pose proof (len_pretty digits n). rewrite len_zeros; lia.
Qed.

Lemma checked_in_range key c digits : 0 <= c < 2 ^ 64 → checked_otp hmac_sha1 key c digits = Ok (otp_at hmac_sha1 key c digits).
Proof. intros Hc. unfold checked_otp. rewrite (proj2 (Z.leb_le 0 c)), (proj2 (Z.ltb_lt c _)) by lia. done. Qed.

Lemma drift_scan_spec token key counter digits n :
  0 <= counter → counter + Z.of_nat n <= 2 ^ 64 →
  ∃ b, drift_scan hmac_sha1 token key counter digits n = Ok b
    ∧ (b = true ↔ ∃ c, counter <= c < counter + Z.of_nat n ∧ token = otp_at hmac_sha1 key c digits).
Proof.
  revert counter. induction n as [|n IH]; intros counter H0 H64.
  - exists false. split; [done|]. split; [done|]. intros (c & Hc & _). lia.
  - cbn [drift_scan]. rewrite checked_in_range by lia. destruct (String.eqb_spec token (otp_at hmac_sha1 key counter digits)) as [Ht|Ht].
    + exists true. split; [done|]. split; [|done]. intros _. exists counter. split; [lia|done].
    + destruct (IH (counter + 1)) as (b & Hs & Hb); [lia..|]. exists b. split; [done|]. rewrite Hb.
      split; intros (c & Hc & Hcode); exists c; (split; [|done]); [lia|].
      destruct (decide (c = counter)) as [->|]; [done|lia].
Qed.

(** A token is accepted exactly when, trimmed, it is the code of one of the
    [2 * window + 1] time steps around the current one: no code inside the drift
    window is refused, none outside it is accepted, and the check never fails. *)
Theorem verifyTotp_window token secret key window timeStep time digits :
  base32Decode secret = Ok key → secret ≠ "" → 1 <= digits →
  0 <= window <= counter_of time timeStep → counter_of time timeStep + window < 2 ^ 64 →
  ∃ b, verifyTotp hmac_sha1 token (Some secret) window timeStep time digits = Ok b
    ∧ (b = true ↔ ∃ c, counter_of time timeStep - window <= c <= counter_of time timeStep + window
                     ∧ trim token = otp_at hmac_sha1 key c digits).
Proof.
  intros Hkey Hs Hd Hw H64. set (n := counter_of time timeStep) in *.
  assert (∀ c, trim token = otp_at hmac_sha1 key c digits → len (trim token) = digits) as Hlen.
  { intros c ->. by apply len_otp. }
  unfold verifyTotp. destruct (String.eqb_spec token "") as [->|Ht]; simpl.
  { exists false. split; [done|]. split; [done|]. intros (c & _ & Hc). apply Hlen in Hc. change (len (trim "")) with 0 in Hc. lia. }
  destruct (String.eqb_spec secret ""); [done|]. destruct (Z.eqb_spec (len (trim token)) digits) as [Hl|Hl]; simpl.
  - rewrite Hkey. fold n. destruct (drift_scan_spec (trim token) key (n - window) digits (Z.to_nat (2 * window + 1)))
      as (b & -> & Hb); [lia..|]. exists b. split; [done|]. rewrite Hb. split; intros (c & Hc & Hcode); exists c; (split; [lia|done]).
  - exists false. split; [done|]. split; [done|]. intros (c & _ & Hc). by apply Hlen in Hc.
Qed.

(** *** Recovery codes *)

Lemma elem_of_remove_first h x l : x ∈ remove_first h l → x ∈ l.
Proof.
  induction l as [|y l IH]; [done|]. simpl. case_match; rewrite ?elem_of_cons; [by right|]. intros [->|Hx]; [by left|right; auto].
Qed.

Lemma remove_first_other h x l : x ≠ h → x ∈ l → x ∈ remove_first h l.
Proof.
  intros Hx. induction l as [|y l IH]; [done|]. rewrite elem_of_cons. simpl. destruct (String.eqb_spec y h) as [->|].
  - by intros [->|].
  - rewrite elem_of_cons. intros [->|]; [by left|right; auto].
Qed.

Lemma remove_first_gone h l : NoDup l → h ∉ remove_first h l.
Proof.
  induction 1 as [|y l Hy Hl IH]; [apply not_elem_of_nil|]. simpl. destruct (String.eqb_spec y h) as [->|]; [done|].
  rewrite elem_of_cons. intros [->|]; done.
Qed.

Lemma remove_first_NoDup h l : NoDup l → NoDup (remove_first h l).
Proof.
  induction 1 as [|y l Hy Hl IH]; [constructor|]. simpl. case_match; [done|]. constructor; [|done].
  intros Hin. by apply elem_of_remove_first in Hin.
Qed.

Lemma consume_spec code hs :
  verifyAndConsumeRecoveryCode sha256 code hs =
  if negb (code =? "")%string && bool_decide (hashRecoveryCode sha256 code ∈ hs)
  then (true, remove_first (hashRecoveryCode sha256 code) hs) else (false, hs).
Proof.
  unfold verifyAndConsumeRecoveryCode. destruct (code =? "")%string; [done|]. simpl.
  case_bool_decide as Hin; destruct (existsb _ hs) eqn:He; try done.
  - exfalso. apply not_true_iff_false in He. apply He, existsb_exists.
    exists (hashRecoveryCode sha256 code). split; [by apply list_elem_of_In|apply String.eqb_refl].
  - apply existsb_exists in He as (x & Hx & E). apply String.eqb_eq in E as ->. apply list_elem_of_In in Hx. done.
Qed.

(** A recovery code works once: accepting it removes its hash and nothing
    else, the remaining list still holds distinct hashes, and no later code
    with the same hash is accepted against it. *)
Theorem recovery_code_single_use code hs hs' :
  NoDup hs → verifyAndConsumeRecoveryCode sha256 code hs = (true, hs') →
  hashRecoveryCode sha256 code ∈ hs ∧ NoDup hs'
  ∧ (∀ h, h ∈ hs' ↔ h ∈ hs ∧ h ≠ hashRecoveryCode sha256 code)
  ∧ ∀ code', hashRecoveryCode sha256 code' = hashRecoveryCode sha256 code →
      verifyAndConsumeRecoveryCode sha256 code' hs' = (false, hs').
Proof.
  rewrite consume_spec. intros Hd Hc. destruct (code =? "")%string; [done|]. simpl in Hc.
  case_bool_decide as Hin; [|done]. injection Hc as <-. pose proof (remove_first_gone (hashRecoveryCode sha256 code) hs Hd) as Hgone.
  split; [done|]. split; [by apply remove_first_NoDup|]. split.
  - intros h. split; [|intros []; by apply remove_first_other].
    intros Hh. split; [by apply elem_of_remove_first in Hh|by intros ->].
  - intros code' E. rewrite consume_spec, E, bool_decide_false by done. by rewrite andb_false_r.
Qed.

End Window.

(** ** Samples *)

(** A keyed mix standing for HMAC-SHA-1: twenty bytes of the key and counter. *)
Definition sample_hmac (key msg : list Z) : list Z :=
  (λ i, (foldr Z.add 7 key * (Z.of_nat i + 3) + foldr (λ b a, 5 * a + b) 1 msg * 11) mod 256) <$> seq 0 20.

Definition sample_secret : string := Eval vm_compute in base32Encode [72; 101; 108; 108; 111; 33; 222; 173; 190; 239].
Definition sample_time : Z := 1700000000000.
Definition sample_code : string := Eval vm_compute in otp_at sample_hmac [72; 101; 108; 108; 111; 33; 222; 173; 190; 239] (counter_of sample_time 30 - 1) 6.

Lemma verifyTotp_window_witness :
  verifyTotp sample_hmac (" " +:+ sample_code) (Some sample_secret) 1 30 sample_time 6 = Ok true.
Proof.
  destruct (verifyTotp_window sample_hmac (" " +:+ sample_code) sample_secret
    [72; 101; 108; 108; 111; 33; 222; 173; 190; 239] 1 30 sample_time 6) as (b & -> & Hb);
    [by vm_compute|done|done|by vm_compute|by vm_compute|].
  f_equal. apply Hb. exists (counter_of sample_time 30 - 1). split; [by vm_compute|]. by vm_compute.
Defined.

Lemma recovery_code_single_use_witness :
  verifyAndConsumeRecoveryCode (λ s, s) "ab-cd" ["12345"; "ABCD"; "FFFFF"] = (true, ["12345"; "FFFFF"])
  ∧ verifyAndConsumeRecoveryCode (λ s, s) "A B-CD" ["12345"; "FFFFF"] = (false, ["12345"; "FFFFF"]).
Proof.
  split; [by vm_compute|].
  apply (recovery_code_single_use (λ s, s) "ab-cd" ["12345"; "ABCD"; "FFFFF"] ["12345"; "FFFFF"]);
    [apply (bool_decide_unpack _); by vm_compute|by vm_compute|by vm_compute].
Defined.

End TotpFacts.
