(* ===== verification/Vault.v ===== *)
(** * Keys of the organisations

    The key hierarchy of [services/CryptoShreddingService.js]: a key-encryption
    key (KEK) derived from the configuration wraps one data key (DEK) per
    organisation, and the data key seals the organisation's secrets.

    AES-256-GCM is the class [Gcm]: opening what was sealed under the same key,
    nonce and associated data gives the text back, a tag has 16 bytes and
    everything is bytes.  HKDF and SHA-256 are parameters, nonces and new data
    keys are arguments, texts are ASCII.  Statements of other requests may run
    at the [await] between a read and the write that follows it; they are the
    argument [other]. *)

From S2P Require Import Prelude Order Js Encoding Db.

Module OrgKey.
Record t := mk {
  organization_id : string; key_epoch : Z; encrypted_dek : string; dek_hash : string;
  status : string; shredded_at : option Z
}.
End OrgKey.

Definition bytes (l : list Z) : Prop := Forall (λ b, 0 <= b < 256) l.

Class Gcm := {
  cipher : list Z → list Z → option string → list Z → list Z * list Z;
  decipher : list Z → list Z → option string → list Z → list Z → option (list Z);
  decipher_cipher k iv aad p : decipher k iv aad (cipher k iv aad p).2 (cipher k iv aad p).1 = Some p;
  cipher_bytes k iv aad p : bytes (cipher k iv aad p).1 ∧ bytes (cipher k iv aad p).2;
  tag_length k iv aad p : length (cipher k iv aad p).2 = 16%nat
}.

Module Vault.

Record config := mk_config {
  SHRED_KEK_SECRET : option string; SHRED_KEK_PREVIOUS : option string; JWT_SECRET : option string
}.

Record t := mk { organizations : list string; keys : list OrgKey.t }.

Definition WRAP_PREFIX : string := "v2:".
Definition SEAL_PREFIX : string := "enc:v1:".

(** [Buffer.from(s, 'utf8')] and [toString('utf8')] *)
Definition utf8 (s : string) : list Z := code <$> chars s.
Definition utf8_text (l : list Z) : string :=
  foldr (λ b s, String (ascii_of_N (Z.to_N b)) s) "" l.

(** A configured text, where the empty one counts as unset. *)
Definition set_text (o : option string) : option string :=
  match o with Some s => if (s =? "")%string then None else Some s | None => None end.

Section Keys.
Context {G : Gcm} (hkdf : string → list Z) (sha256 : list Z → list Z) (cfg : config).

Definition deriveKek (secret : string) : list Z := hkdf secret.
Definition kekId (kek : list Z) : string := take_string 16 (hex_encode (sha256 kek)).

Definition kek_of (secret : string) : string * list Z := (kekId (deriveKek secret), deriveKek secret).

(** The current key first, then the one being retired. *)
Definition keks : outcome (list (string * list Z)) :=
  match set_text (SHRED_KEK_SECRET cfg) with
  | None => Throw None "SOVEREIGN_SHRED_KEK_SECRET is not configured"
  | Some current =>
      Ok (kek_of current :: match set_text (SHRED_KEK_PREVIOUS cfg) with
                            | Some previous => [kek_of previous]
                            | None => []
                            end)
  end.

Definition legacyKek : option (list Z) := (λ s, sha256 (utf8 s)) <$> set_text (JWT_SECRET cfg).

Definition gcmEncrypt (key iv plaintext : list Z) (aad : option string) : list Z :=
  let '(encrypted, tag) := cipher key iv aad plaintext in iv ++ tag ++ encrypted.

Definition gcmDecrypt (key buf : list Z) (aad : option string) : outcome (list Z) :=
  if (length buf <? 28)%nat then Throw None "Invalid ciphertext" else
  match decipher key (take 12 buf) aad (take 16 (drop 12 buf)) (drop 28 buf) with
  | Some p => Ok p
  | None => Throw None "Unsupported state or unable to authenticate data"
  end.

Definition wrapDEK (rawDEK iv : list Z) (orgId : string) : outcome string :=
  match keks with
  | Ok ((id, key) :: _) =>
      Ok (WRAP_PREFIX +:+ id +:+ ":" +:+ b64_encode (gcmEncrypt key iv rawDEK (Some ("dek:" +:+ orgId))))
  | Ok [] => Throw None "TypeError"
  | Throw st m => Throw st m
  end.

Definition unwrapDEK (wrapped orgId : string) : outcome (list Z * bool) :=
  if startsWith WRAP_PREFIX wrapped then
    let parts := split ":"%char (drop_string 3 wrapped) in
    let id := default "" (parts !! 0%nat) in
    match keks with
    | Throw st m => Throw st m
    | Ok available =>
        match list_find (λ k, k.1 = id) available with
        | None => Throw None "The data key is wrapped with a KEK that is not configured"
        | Some (i, kek) =>
            match parts !! 1%nat with
            | None => Throw None "TypeError"
            | Some body =>
                match gcmDecrypt kek.2 (b64_decode body) (Some ("dek:" +:+ orgId)) with
                | Ok dek => Ok (dek, bool_decide (i = 0%nat))
                | Throw st m => Throw st m
                end
            end
        end
    end
  else
    match legacyKek with
    | None => Throw None "The data key predates SOVEREIGN_SHRED_KEK_SECRET and JWT_SECRET is not set"
    | Some legacy =>
        match gcmDecrypt legacy (b64_decode wrapped) None with
        | Ok dek => Ok (dek, false)
        | Throw st m => Throw st m
        end
    end.

Definition lift {A} (o : outcome A) : eff t A :=
  match o with Ok a => eff_ret a | Throw st m => throw st m end.

Definition of_org (orgId : string) (r : OrgKey.t) : bool := (OrgKey.organization_id r =? orgId)%string.

(** INSERT ... ON CONFLICT (organization_id) DO NOTHING RETURNING, with the
    foreign key to the organisations. *)
Definition insert_key (r : OrgKey.t) : eff t bool :=
  v <-! get ;
  if negb (bool_decide (OrgKey.organization_id r ∈ organizations v)) then db_error else
  if existsb (of_org (OrgKey.organization_id r)) (keys v) then eff_ret false
  else modify (λ v, v <| keys ::= λ l, l ++ [r] |>) ;! eff_ret true.

(** UPDATE ... WHERE organization_id AND encrypted_dek AND status = 'active' *)
Definition is_stale (orgId old : string) (r : OrgKey.t) : bool :=
  of_org orgId r && (OrgKey.encrypted_dek r =? old)%string && (OrgKey.status r =? "active")%string.
Definition replace_wrapping (orgId old new : string) : eff t Z :=
  v <-! get ;
  modify (λ v, v <| keys ::= update_where (is_stale orgId old) (λ r, r <| OrgKey.encrypted_dek := new |>) |>) ;!
  eff_ret (Z.of_nat (length (where_ (is_stale orgId old) (keys v)))).

(** The random bytes of one call. *)
Record randoms := mk_randoms { raw : list Z; wrap_iv : list Z; seal_iv : list Z }.

(** [attempts] bounds the retries after a lost insert: the retry finds a row. *)
Fixpoint getOrCreate (attempts : nat) (rnd : randoms) (other : t → t) (orgId : string) : eff t (list Z) :=
  v <-! get ;
  match select1 (of_org orgId) (keys v) with
  | Some row =>
      if (OrgKey.status row =? "destroyed")%string
      then throw (Some 410) "Organization keys have been permanently shredded" else
      opened <-! lift (unwrapDEK (OrgKey.encrypted_dek row) orgId) ;
      let '(dek, current) := opened in
      if current then eff_ret dek else
      wrapped <-! lift (wrapDEK dek (wrap_iv rnd) orgId) ;
      modify other ;!
      replace_wrapping orgId (OrgKey.encrypted_dek row) wrapped ;!
      eff_ret dek
  | None =>
      wrapped <-! lift (wrapDEK (raw rnd) (wrap_iv rnd) orgId) ;
      modify other ;!
      inserted <-! insert_key (OrgKey.mk orgId 1 wrapped (hex_encode (sha256 (raw rnd))) "active" None) ;
      if inserted : bool then eff_ret (raw rnd) else
      match attempts with
      | O => throw None "RangeError"
      | S n => getOrCreate n rnd other orgId
      end
  end.

Definition getOrCreateOrgDEK (rnd : randoms) (other : t → t) (orgId : string) : eff t (list Z) :=
  getOrCreate 1 rnd other orgId.

Definition org_or_default (orgId : option string) : string := default "org-default" (set_text orgId).

Definition sealForOrg (rnd : randoms) (other : t → t) (orgId : option string) (plaintext : option string)
    : eff t (option string) :=
  match plaintext with
  | None => eff_ret None
  | Some p =>
      let org := org_or_default orgId in
      dek <-! getOrCreateOrgDEK rnd other org ;
      eff_ret (Some (SEAL_PREFIX +:+ b64_encode (gcmEncrypt dek (seal_iv rnd) (utf8 p) (Some ("secret:" +:+ org)))))
  end.

Definition isSealed (value : string) : bool := startsWith SEAL_PREFIX value.

Definition openForOrg (rnd : randoms) (other : t → t) (orgId : option string) (value : option string)
    : eff t (option string) :=
  match value with
  | None => eff_ret None
  | Some s =>
      if negb (isSealed s) then eff_ret (Some s) else
      let org := org_or_default orgId in
      dek <-! getOrCreateOrgDEK rnd other org ;
      p <-! lift (gcmDecrypt dek (b64_decode (drop_string 7 s)) (Some ("secret:" +:+ org))) ;
      eff_ret (Some (utf8_text p))
  end.

Definition encryptData := sealForOrg.
Definition decryptData (rnd : randoms) (other : t → t) (orgId : option string) (ciphertext : string) : eff t (option string) :=
  if negb (isSealed ciphertext) then throw None "Invalid ciphertext" else openForOrg rnd other orgId (Some ciphertext).

(** *** Re-wrapping *)

(** The loop over the rows read; [ivs] are the nonces, one per row. *)
Fixpoint rewrap_loop (current : string) (rows : list OrgKey.t) (ivs : list (list Z)) : eff t Z :=
  match rows, ivs with
  | [], _ => eff_ret 0
  | row :: rows, iv :: ivs =>
      let org := OrgKey.organization_id row in
      if startsWith (WRAP_PREFIX +:+ current +:+ ":") (OrgKey.encrypted_dek row) then rewrap_loop current rows ivs else
      opened <-! lift (unwrapDEK (OrgKey.encrypted_dek row) org) ;
      let '(dek, _) := opened in
      wrapped <-! lift (wrapDEK dek iv org) ;
      n <-! replace_wrapping org (OrgKey.encrypted_dek row) wrapped ;
      rest <-! rewrap_loop current rows ivs ;
      eff_ret (n + rest)
  | _ :: _, [] => throw None "no randomness"
  end.

Definition rewrapAllDataKeys (ivs : list (list Z)) : eff t Z :=
  available <-! lift keks ;
  v <-! get ;
  rewrap_loop (default "" (fst <$> head available)) (where_ (λ r, (OrgKey.status r =? "active")%string) (keys v)) ivs.

End Keys.

(** The key statements of [executeOrgShred] and [executeGlobalShred]. *)
Definition shred_key (orgId : string) (now : Z) (v : t) : t :=
  if existsb (of_org orgId) (keys v) then
    v <| keys ::= update_where (of_org orgId)
           (λ r, r <| OrgKey.encrypted_dek := "SHREDDED" |> <| OrgKey.dek_hash := "SHREDDED" |>
                   <| OrgKey.status := "destroyed" |> <| OrgKey.shredded_at := Some now |>) |>
  else v <| keys ::= λ l, l ++ [OrgKey.mk orgId 1 "SHREDDED" "SHREDDED" "destroyed" (Some now)] |>.

Definition shred_all_keys (now : Z) (v : t) : t :=
  v <| keys ::= update_where (λ _, true)
         (λ r, r <| OrgKey.encrypted_dek := "SHREDDED_GLOBAL_00000000" |>
                 <| OrgKey.status := "destroyed" |> <| OrgKey.shredded_at := Some now |>) |>.

End Vault.

(** ** What the hierarchy guarantees *)

Module VaultFacts.
Import Vault.

Lemma utf8_roundtrip s : utf8_text (utf8 s) = s.
Proof.
  induction s as [|c s IH]; [done|]. unfold utf8, utf8_text in *. cbn [chars fmap list_fmap foldr].
  rewrite IH. f_equal. unfold code. by rewrite N2Z.id, ascii_N_embedding.
Qed.

Lemma sealed_bytes_app l l' : bytes l → bytes l' → bytes (l ++ l').
Proof. apply Forall_app_2. Qed.

Section Codec.
Context {G : Gcm}.

Definition nonce (iv : list Z) : Prop := length iv = 12%nat ∧ bytes iv.

Lemma gcm_roundtrip k iv p aad : nonce iv → gcmDecrypt k (gcmEncrypt k iv p aad) aad = Ok p.
Proof.
  intros [Hl _]. unfold gcmEncrypt, gcmDecrypt.
  pose proof (tag_length k iv aad p) as Ht. pose proof (decipher_cipher k iv aad p) as Hd.
  destruct (cipher k iv aad p) as [e tg]. simpl in *.
  rewrite (proj2 (Nat.ltb_ge _ _)) by (rewrite !length_app; lia).
  rewrite take_app_length' by done. rewrite drop_app_length' by done. rewrite take_app_length' by done.
  change 28%nat with (12 + 16)%nat. rewrite <- drop_drop, drop_app_length', drop_app_length' by done. by rewrite Hd.
Qed.

Lemma gcm_bytes k iv p aad : nonce iv → bytes (gcmEncrypt k iv p aad).
Proof.
  intros [_ Hb]. unfold gcmEncrypt. pose proof (cipher_bytes k iv aad p) as [? ?].
  destruct (cipher k iv aad p) as [e tg]. auto using sealed_bytes_app.
Qed.

Lemma sealed_text_roundtrip k iv p aad : nonce iv →
  gcmDecrypt k (b64_decode (b64_encode (gcmEncrypt k iv p aad))) aad = Ok p.
Proof. intros Hiv. rewrite b64_roundtrip by by apply gcm_bytes. by apply gcm_roundtrip. Qed.

End Codec.

Lemma b64_char_no_colon v : 0 <= v < 64 → Ascii.eqb (b64_char v) ":" = false.
Proof. apply (upto_forall (λ v, Ascii.eqb (b64_char v) ":" = false) 64). by vm_compute. Qed.
Lemma hex_digit_no_colon v : 0 <= v < 16 → Ascii.eqb (hex_digit v) ":" = false.
Proof. apply (upto_forall (λ v, Ascii.eqb (hex_digit v) ":" = false) 16). by vm_compute. Qed.

Lemma includes_cons c d s : includes_char c (String d s) = Ascii.eqb d c || includes_char c s.
Proof. unfold includes_char. simpl. by rewrite negb_andb, negb_involutive. Qed.

Lemma b64_no_colon l : bytes l → includes_char ":" (b64_encode l) = false.
Proof.
  induction l as [|a|a b|a b c r IH] using list3_ind; intros Hf; repeat (apply Forall_cons in Hf as [? Hf]);
    cbn [b64_encode]; rewrite ?includes_cons, ?b64_char_no_colon by dlia; [done..|]. simpl. by apply IH.
Qed.

Lemma hex_no_colon l : bytes l → includes_char ":" (hex_encode l) = false.
Proof.
  induction 1 as [|b l Hb Hl IH]; [done|]. cbn [hex_encode].
  by rewrite !includes_cons, !hex_digit_no_colon, IH by dlia.
Qed.

Lemma includes_take c n s : includes_char c s = false → includes_char c (take_string n s) = false.
Proof.
  revert s. induction n as [|n IH]; intros [|d s]; [done..|]. cbn [take_string]. rewrite !includes_cons.
  intros [? ?]%orb_false_iff. by rewrite H, IH.
Qed.

Lemma prefix_app p t : startsWith p (p +:+ t) = true.
Proof. unfold startsWith. induction p as [|c p IH]; [by destruct t|]. rewrite append_cons. simpl. by destruct (ascii_dec c c). Qed.

(** ** The hierarchy *)

Section Hierarchy.
Context {G : Gcm} (hkdf : string → list Z) (sha256 : list Z → list Z).
Context (sha256_bytes : ∀ l, bytes (sha256 l)).

Abbreviation kek_of := (kek_of hkdf sha256).
Abbreviation keks := (keks hkdf sha256).
Abbreviation wrapDEK := (wrapDEK hkdf sha256).
Abbreviation unwrapDEK := (unwrapDEK hkdf sha256).

(** The text of a data key wrapped under one key. *)
Definition wrapping (kek : string * list Z) (dek iv : list Z) (org : string) : string :=
  WRAP_PREFIX +:+ kek.1 +:+ ":" +:+ b64_encode (gcmEncrypt kek.2 iv dek (Some ("dek:" +:+ org))).

(** A usable configuration: a current key, and no two keys of one identifier. *)
Definition config_ok (cfg : config) : Prop :=
  ∃ current, set_text (SHRED_KEK_SECRET cfg) = Some current ∧
    ∀ previous, set_text (SHRED_KEK_PREVIOUS cfg) = Some previous →
      (kek_of previous).1 = (kek_of current).1 → (kek_of previous).2 = (kek_of current).2.

Lemma kek_id_no_colon secret : includes_char ":" (kek_of secret).1 = false.
Proof. apply includes_take, hex_no_colon, sha256_bytes. Qed.

Lemma wrapping_split secret dek iv org : nonce iv →
  startsWith WRAP_PREFIX (wrapping (kek_of secret) dek iv org) = true
  ∧ split ":" (drop_string 3 (wrapping (kek_of secret) dek iv org)) =
      [(kek_of secret).1; b64_encode (gcmEncrypt (kek_of secret).2 iv dek (Some ("dek:" +:+ org)))].
Proof.
  intros Hiv. split; [apply prefix_app|]. unfold wrapping, WRAP_PREFIX.
  change (drop_string 3 ("v2:" +:+ ?x)) with x.
  rewrite (append_cons ":"), append_nil_l, split_app by apply kek_id_no_colon.
  by rewrite split_no_sep by by apply b64_no_colon, gcm_bytes.
Qed.

Lemma wrap_spec cfg dek iv org w :
  wrapDEK cfg dek iv org = Ok w →
  ∃ current, set_text (SHRED_KEK_SECRET cfg) = Some current ∧ w = wrapping (kek_of current) dek iv org.
Proof.
  unfold Vault.wrapDEK, Vault.keks. destruct (set_text _) as [current|]; [|done]. intros [= <-]. by exists current.
Qed.

Lemma wrap_total cfg dek iv org : config_ok cfg → ∃ w, wrapDEK cfg dek iv org = Ok w.
Proof. intros (current & H & _). unfold Vault.wrapDEK, Vault.keks. rewrite H. eauto. Qed.

Lemma unwrap_wrap cfg dek iv org w :
  nonce iv → wrapDEK cfg dek iv org = Ok w → unwrapDEK cfg w org = Ok (dek, true).
Proof.
  intros Hiv (current & Hc & ->)%wrap_spec. destruct (wrapping_split current dek iv org Hiv) as [Hp Hs].
  unfold Vault.unwrapDEK. rewrite Hp, Hs. unfold Vault.keks. rewrite Hc. cbn [list_find lookup list_lookup default].
  rewrite decide_True by done. cbn [fmap option_fmap option_map]. rewrite sealed_text_roundtrip by done. done.
Qed.

(** *** Statements of concurrent requests, and restarts *)

Definition key_row (org w hash : string) : OrgKey.t := OrgKey.mk org 1 w hash "active" None.

(** One SQL statement of some request running under [cfg]. *)
Inductive stmt (cfg : config) : t → t → Prop :=
  | stmt_insert org dek iv w hash v : nonce iv → wrapDEK cfg dek iv org = Ok w →
      stmt cfg v (insert_key (key_row org w hash) v).2
  | stmt_rewrap org old dek cur iv w v : nonce iv → unwrapDEK cfg old org = Ok (dek, cur) →
      wrapDEK cfg dek iv org = Ok w → stmt cfg v (replace_wrapping org old w v).2
  | stmt_shred org now v : stmt cfg v (shred_key org now v)
  | stmt_shred_all now v : stmt cfg v (shred_all_keys now v)
  | stmt_organization o v : stmt cfg v (v <| organizations ::= cons o |>).

Definition active (r : OrgKey.t) : bool := (OrgKey.status r =? "active")%string.

(** Every active key is wrapped under the current key-encryption key. *)
Definition all_current (cfg : config) (v : t) : Prop :=
  ∃ current, set_text (SHRED_KEK_SECRET cfg) = Some current ∧
    ∀ r, r ∈ keys v → active r = true →
      startsWith (WRAP_PREFIX +:+ (kek_of current).1 +:+ ":") (OrgKey.encrypted_dek r) = true.

(** Restarts the operator's procedure allows: a new key with the old one kept as
    the previous, and dropping the previous key and the old signing secret once
    every data key is wrapped under the current one. *)
Inductive deploy : config * t → config * t → Prop :=
  | deploy_stmt cfg v v' : stmt cfg v v' → deploy (cfg, v) (cfg, v')
  | deploy_rotate cfg cfg' v : set_text (SHRED_KEK_PREVIOUS cfg) = None → config_ok cfg' →
      SHRED_KEK_PREVIOUS cfg' = SHRED_KEK_SECRET cfg → JWT_SECRET cfg' = JWT_SECRET cfg → deploy (cfg, v) (cfg', v)
  | deploy_retire cfg cfg' v : all_current cfg v → SHRED_KEK_SECRET cfg' = SHRED_KEK_SECRET cfg →
      set_text (SHRED_KEK_PREVIOUS cfg') = None → deploy (cfg, v) (cfg', v).

Definition opens_to (cfg : config) (r : OrgKey.t) (dek : list Z) : Prop :=
  ∃ cur, unwrapDEK cfg (OrgKey.encrypted_dek r) (OrgKey.organization_id r) = Ok (dek, cur).

(** One row per organisation, destroyed or active, and every active one opens. *)
Record wf (cfg : config) (v : t) : Prop := {
  wf_config : config_ok cfg;
  wf_keys : NoDup (OrgKey.organization_id <$> keys v);
  wf_rows r : r ∈ keys v → OrgKey.status r = "destroyed" ∨ (active r = true ∧ ∃ dek, opens_to cfg r dek)
}.

Definition data_key (cfg : config) (v : t) (org : string) (dek : list Z) : Prop :=
  ∃ r, r ∈ keys v ∧ OrgKey.organization_id r = org ∧ active r = true ∧ opens_to cfg r dek.

Definition destroyed (v : t) (org : string) : Prop :=
  ∃ r, r ∈ keys v ∧ OrgKey.organization_id r = org ∧ OrgKey.status r = "destroyed".

Lemma unwrap_rotated cfg cfg' w org dek cur :
  set_text (SHRED_KEK_PREVIOUS cfg) = None → config_ok cfg' →
  SHRED_KEK_PREVIOUS cfg' = SHRED_KEK_SECRET cfg → JWT_SECRET cfg' = JWT_SECRET cfg →
  unwrapDEK cfg w org = Ok (dek, cur) → ∃ cur', unwrapDEK cfg' w org = Ok (dek, cur').
Proof.
  intros Hp (current & Hc & Hid) Hrot Hjwt. unfold Vault.unwrapDEK, legacyKek. rewrite Hjwt.
  destruct (startsWith WRAP_PREFIX w); [|by destruct (set_text (JWT_SECRET cfg)); eauto].
  unfold Vault.keks. rewrite Hp, Hc, Hrot. destruct (set_text (SHRED_KEK_SECRET cfg)) as [old|] eqn:Ho; [|done].
  rewrite Hrot in Hid. specialize (Hid old Ho). generalize (split ":"%char (drop_string 3 w)) as parts. intros parts.
  cbn [list_find]. destruct (decide ((kek_of old).1 = default "" (parts !! 0%nat))) as [E|E]; [|done].
  destruct (decide ((kek_of current).1 = default "" (parts !! 0%nat))) as [E'|E']; cbn [fmap option_fmap option_map prod_map fst snd].
  - rewrite <- Hid by congruence. case_match; [|done]. case_match; [|done]. intros [= -> _]. eauto.
  - unfold id. case_match; [|done]. case_match; [|done]. intros [= -> _]. eauto.
Qed.

Lemma prefix_inv p w : startsWith p w = true → ∃ r, w = p +:+ r.
Proof.
  unfold startsWith. revert w. induction p as [|c p IH]; intros w; [by exists w|].
  destruct w as [|d w]; [done|]. simpl. destruct (ascii_dec c d) as [->|]; [|done].
  intros (r & ->)%IH. by exists r.
Qed.

Lemma unwrap_retired cfg cfg' current w org dek cur :
  set_text (SHRED_KEK_SECRET cfg) = Some current → SHRED_KEK_SECRET cfg' = SHRED_KEK_SECRET cfg →
  set_text (SHRED_KEK_PREVIOUS cfg') = None →
  startsWith (WRAP_PREFIX +:+ (kek_of current).1 +:+ ":") w = true →
  unwrapDEK cfg w org = Ok (dek, cur) → unwrapDEK cfg' w org = Ok (dek, cur).
Proof.
  intros Hc Hs Hp (r & ->)%prefix_inv. rewrite !append_assoc, (append_cons ":"), append_nil_l.
  unfold Vault.unwrapDEK. rewrite !prefix_app. unfold Vault.keks. rewrite Hs, Hp, Hc.
  change (drop_string 3 (WRAP_PREFIX +:+ ?x)) with x. rewrite split_app by apply kek_id_no_colon.
  cbn [list_find lookup list_lookup default]. by rewrite !decide_True by done.
Qed.

(** *** How a row changes *)

Definition row_evolves (cfg : config) (r r' : OrgKey.t) : Prop :=
  OrgKey.organization_id r' = OrgKey.organization_id r ∧
  (r' = r ∨ OrgKey.status r' = "destroyed" ∨
   (active r = true ∧ active r' = true ∧ ∀ dek, opens_to cfg r dek → opens_to cfg r' dek)).

Record evolution (cfg : config) (v v' : t) (f : OrgKey.t → OrgKey.t) (new : list OrgKey.t) : Prop := {
  ev_keys : keys v' = (f <$> keys v) ++ new;
  ev_rows r : row_evolves cfg r (f r);
  ev_new r : r ∈ new → (OrgKey.organization_id r ∉ OrgKey.organization_id <$> keys v) ∧
    (OrgKey.status r = "destroyed" ∨ (active r = true ∧ ∃ dek, opens_to cfg r dek));
  ev_one : NoDup (OrgKey.organization_id <$> new)
}.

Lemma row_refl cfg r : row_evolves cfg r r.
Proof. split; auto. Qed.

Lemma org_absent org v : existsb (of_org org) (keys v) = false → org ∉ OrgKey.organization_id <$> keys v.
Proof.
  intros H. rewrite list_elem_of_fmap. intros (r & -> & Hr). apply not_true_iff_false in H. apply H, existsb_exists.
  exists r. split; [by apply list_elem_of_In|]. apply String.eqb_refl.
Qed.

Lemma evolution_none cfg v v' : keys v' = keys v → evolution cfg v v' id [].
Proof.
  intros H. split; [by rewrite H, list_fmap_id, app_nil_r|apply row_refl|intros r Hr; by apply elem_of_nil in Hr|constructor].
Qed.

Lemma evolution_new cfg v v' r :
  keys v' = keys v ++ [r] → existsb (of_org (OrgKey.organization_id r)) (keys v) = false →
  OrgKey.status r = "destroyed" ∨ (active r = true ∧ ∃ dek, opens_to cfg r dek) → evolution cfg v v' id [r].
Proof.
  intros H Ho Hr. split; [by rewrite H, list_fmap_id|apply row_refl| |apply NoDup_singleton].
  intros x ->%list_elem_of_singleton. split; [by apply org_absent|done].
Qed.

Lemma evolution_update cfg v v' p f :
  keys v' = update_where p f (keys v) → (∀ r, p r = true → row_evolves cfg r (f r)) →
  ∃ g, evolution cfg v v' g [].
Proof.
  intros H Hf. exists (λ r, if p r then f r else r). split.
  - by rewrite app_nil_r.
  - intros r. destruct (p r) eqn:E; [by apply Hf|apply row_refl].
  - intros r Hr. by apply elem_of_nil in Hr.
  - constructor.
Qed.

Lemma stmt_evolution cfg v v' : stmt cfg v v' → ∃ f new, evolution cfg v v' f new.
Proof.
  destruct 1 as [org dek iv w hash v Hiv Hw|org old dek cur iv w v Hiv Hu Hw|org now v|now v|o v].
  - unfold insert_key, eff_bind, get. case_match; [by eexists id, []; apply evolution_none|].
    destruct (existsb _ (keys v)) eqn:E; simpl; [by eexists id, []; apply evolution_none|].
    exists id, [key_row org w hash]. apply evolution_new; [done|exact E|]. right. split; [done|]. exists dek, true. by eapply unwrap_wrap.
  - edestruct (evolution_update cfg v (replace_wrapping org old w v).2 (is_stale org old)) as [g Hg];
      [done| |by exists g, []]. intros r [[Ho%String.eqb_eq He%String.eqb_eq]%andb_true_iff Ha]%andb_true_iff. subst.
    split; [done|]. right. right. split; [done|]. split; [done|]. intros dek' [cur' Hd]. rewrite Hd in Hu.
    injection Hu as -> _. exists true. simpl. by eapply unwrap_wrap.
  - unfold shred_key. destruct (existsb _ _) eqn:E.
    + edestruct (evolution_update cfg v (v <| keys ::= update_where (of_org org) (λ r, r <| OrgKey.encrypted_dek := "SHREDDED" |> <| OrgKey.dek_hash := "SHREDDED" |>
                   <| OrgKey.status := "destroyed" |> <| OrgKey.shredded_at := Some now |>) |>)) as [g Hg]; [done| |by exists g, []]. split; [done|by right; left].
    + eexists id, [_]. apply evolution_new; [reflexivity|exact E|]. by left.
  - edestruct (evolution_update cfg v (shred_all_keys now v) (λ _, true)) as [g Hg]; [done| |by exists g, []].
    split; [done|by right; left].
  - eexists id, []. by apply evolution_none.
Qed.

Lemma evolution_orgs cfg v v' f new : evolution cfg v v' f new →
  OrgKey.organization_id <$> keys v' = (OrgKey.organization_id <$> keys v) ++ (OrgKey.organization_id <$> new).
Proof.
  intros Hev. rewrite (ev_keys _ _ _ _ _ Hev), fmap_app. f_equal. rewrite <- list_fmap_compose.
  apply list_fmap_ext. intros _ r _. apply (ev_rows _ _ _ _ _ Hev r).
Qed.

Lemma stmt_wf cfg v v' : stmt cfg v v' → wf cfg v → wf cfg v'.
Proof.
  intros (f & new & Hev)%stmt_evolution Hwf. split; [apply Hwf| |].
  - rewrite (evolution_orgs _ _ _ _ _ Hev). apply NoDup_app. split; [apply Hwf|]. split; [|apply Hev].
    intros o Ho (r & -> & Hr)%list_elem_of_fmap. by apply (ev_new _ _ _ _ _ Hev) in Hr as [? _].
  - intros r. rewrite (ev_keys _ _ _ _ _ Hev), elem_of_app, list_elem_of_fmap. intros [(x & -> & Hx)|Hr].
    + destruct (ev_rows _ _ _ _ _ Hev x) as [_ [->|[?|(_ & Ha & Hd)]]]; [by apply Hwf|by left|].
      destruct (wf_rows cfg v Hwf x Hx) as [Hdead|(_ & dek & Hdek)]; [|right; eauto].
      left. destruct (ev_rows _ _ _ _ _ Hev x) as [_ [->|[?|(Hact & _ & _)]]]; [done|done|].
      unfold active in Hact. by rewrite Hdead in Hact.
    + by apply (ev_new _ _ _ _ _ Hev) in Hr as [_ ?].
Qed.

Lemma stmt_destroyed cfg v v' org : stmt cfg v v' → destroyed v org → destroyed v' org.
Proof.
  intros (f & new & Hev)%stmt_evolution (r & Hr & Ho & Hd). exists (f r).
  rewrite (ev_keys _ _ _ _ _ Hev), elem_of_app. split; [left; by apply list_elem_of_fmap_2|].
  destruct (ev_rows _ _ _ _ _ Hev r) as [Horg Hrow]. split; [congruence|].
  destruct Hrow as [->|[?|(Ha & _)]]; [done|done|]. unfold active in Ha. by rewrite Hd in Ha.
Qed.

Lemma stmt_data_key cfg v v' org dek :
  stmt cfg v v' → data_key cfg v org dek → data_key cfg v' org dek ∨ destroyed v' org.
Proof.
  intros (f & new & Hev)%stmt_evolution (r & Hr & Ho & Ha & Hd).
  assert (f r ∈ keys v') as Hin by (rewrite (ev_keys _ _ _ _ _ Hev), elem_of_app; left; by apply list_elem_of_fmap_2).
  destruct (ev_rows _ _ _ _ _ Hev r) as [Horg Hrow]. destruct Hrow as [E|[?|(_ & Ha' & Hd')]].
  - left. exists r. rewrite E in Hin. done.
  - right. exists (f r). split; [done|]. split; [congruence|done].
  - left. exists (f r). split; [done|]. split; [congruence|]. auto.
Qed.

(** A restart keeps every active key openable. *)
Lemma restart_opens cfg cfg' v r dek :
  deploy (cfg, v) (cfg', v) → r ∈ keys v → active r = true → opens_to cfg r dek → opens_to cfg' r dek.
Proof.
  inversion 1 as [|? ? ? Hp Hok Hrot Hjwt|? ? ? (current & Hc & Hall) Hs Hp]; subst; [done| |]; intros Hr Ha [cur Hd].
  - by eapply unwrap_rotated.
  - exists cur. eapply unwrap_retired; eauto.
Qed.

Lemma retired_config_ok cfg cfg' : config_ok cfg → SHRED_KEK_SECRET cfg' = SHRED_KEK_SECRET cfg →
  set_text (SHRED_KEK_PREVIOUS cfg') = None → config_ok cfg'.
Proof. intros (current & Hc & _) Hs Hp. exists current. rewrite Hs, Hp. by split. Qed.

Lemma deploy_wf x y : deploy x y → wf x.1 x.2 → wf y.1 y.2.
Proof.
  intros Hd Hwf. destruct Hd as [cfg v v' Hs|cfg cfg' v Hp Hok Hrot Hjwt|cfg cfg' v Hall Hs Hp]; simpl in *.
  - by eapply stmt_wf.
  - split; [done|apply Hwf|]. intros r Hr. destruct (wf_rows _ _ Hwf r Hr) as [?|(Ha & dek & Hdek)]; [by left|].
    right. split; [done|]. exists dek. eapply restart_opens; [by apply deploy_rotate|done..].
  - split; [by eapply retired_config_ok; [apply Hwf|..]|apply Hwf|]. intros r Hr.
    destruct (wf_rows _ _ Hwf r Hr) as [?|(Ha & dek & Hdek)]; [by left|].
    right. split; [done|]. exists dek. eapply restart_opens; [by apply deploy_retire|done..].
Qed.

Lemma deploy_destroyed x y org : deploy x y → destroyed x.2 org → destroyed y.2 org.
Proof. destruct 1; simpl; [by eapply stmt_destroyed|done|done]. Qed.

Lemma deploy_data_key x y org dek :
  deploy x y → data_key x.1 x.2 org dek → data_key y.1 y.2 org dek ∨ destroyed y.2 org.
Proof.
  intros Hd. pose proof Hd as Hd'. destruct Hd; simpl; [by eapply stmt_data_key| |];
    intros (r & Hr & Ho & Ha & Hdek); left; exists r; (split; [done|split; [done|split; [done|]]]); by eapply restart_opens.
Qed.

Lemma deploys_wf x y : rtc deploy x y → wf x.1 x.2 → wf y.1 y.2.
Proof. induction 1; eauto using deploy_wf. Qed.
Lemma deploys_destroyed x y org : rtc deploy x y → destroyed x.2 org → destroyed y.2 org.
Proof. induction 1; eauto using deploy_destroyed. Qed.
Lemma deploys_data_key x y org dek :
  rtc deploy x y → data_key x.1 x.2 org dek → data_key y.1 y.2 org dek ∨ destroyed y.2 org.
Proof.
  induction 1 as [x|x y z Hxy Hyz IH]; [by left|]. intros Hk. destruct (deploy_data_key _ _ _ _ Hxy Hk) as [Hk'|Hk'].
  - by apply IH.
  - right. by eapply deploys_destroyed.
Qed.

Lemma stmts_deploy cfg v v' : rtc (stmt cfg) v v' → rtc deploy (cfg, v) (cfg, v').
Proof. induction 1 as [|v v1 v2 H _ IH]; [done|]. eapply rtc_l; [by apply deploy_stmt|done]. Qed.

(** *** Obtaining a data key *)

Definition fair (cfg : config) (other : t → t) : Prop := ∀ v, rtc (stmt cfg) v (other v).
Definition drawn (rnd : randoms) : Prop := nonce (wrap_iv rnd) ∧ nonce (seal_iv rnd).

Lemma select_row cfg v r : wf cfg v → r ∈ keys v → select1 (of_org (OrgKey.organization_id r)) (keys v) = Some r.
Proof.
  intros Hwf Hr. destruct (select1 _ _) as [x|] eqn:E.
  - apply select1_elem in E as [Ho%String.eqb_eq Hx]. f_equal.
    by apply (NoDup_fmap_inj OrgKey.organization_id (keys v)); [apply Hwf|..].
  - apply select1_none with (x := r) in E; [|done]. unfold of_org in E. by rewrite String.eqb_refl in E.
Qed.

Lemma selected_data_key cfg v org r dek cur :
  wf cfg v → select1 (of_org org) (keys v) = Some r → OrgKey.status r ≠ "destroyed" →
  unwrapDEK cfg (OrgKey.encrypted_dek r) org = Ok (dek, cur) → data_key cfg v org dek.
Proof.
  intros Hwf [Ho%String.eqb_eq Hr]%select1_elem Hd Hu. destruct (wf_rows _ _ Hwf r Hr) as [?|[Ha _]]; [done|].
  exists r. split; [done|]. split; [done|]. split; [done|]. exists cur. by rewrite Ho.
Qed.

Lemma getOrCreate_existing cfg n rnd other v org dek :
  wf cfg v → data_key cfg v org dek → ∃ v', getOrCreate hkdf sha256 cfg n rnd other org v = (Ok dek, v').
Proof.
  intros Hwf (r & Hr & <- & Ha & cur & Hu). pose proof (select_row _ _ _ Hwf Hr) as Hs.
  assert (OrgKey.status r ≠ "destroyed") as Hd by (intros E; unfold active in Ha; by rewrite E in Ha).
  destruct (wrap_total cfg dek (wrap_iv rnd) (OrgKey.organization_id r) (wf_config _ _ Hwf)) as [w Hw].
  destruct n; cbn [getOrCreate]; unfold eff_bind, get; rewrite Hs, (proj2 (String.eqb_neq _ _)) by done;
    unfold lift; rewrite Hu; unfold eff_ret; destruct cur; rewrite ?Hw; eauto.
Qed.

Lemma getOrCreate_destroyed cfg n rnd other v org :
  wf cfg v → destroyed v org → ∃ m, getOrCreate hkdf sha256 cfg n rnd other org v = (Throw (Some 410) m, v).
Proof.
  intros Hwf (r & Hr & <- & Hd). pose proof (select_row _ _ _ Hwf Hr) as Hs.
  destruct n; cbn [getOrCreate]; unfold eff_bind, get; rewrite Hs, Hd; eexists; reflexivity.
Qed.

Lemma stmts_wf cfg v v' : rtc (stmt cfg) v v' → wf cfg v → wf cfg v'.
Proof. induction 1; eauto using stmt_wf. Qed.

Lemma stmts_keep_organizations cfg v v' org :
  rtc (stmt cfg) v v' → org ∈ organizations v → org ∈ organizations v'.
Proof.
  induction 1 as [|v v1 v2 H _ IH]; [done|]. intros Ho. apply IH. destruct H; [|exact Ho| |exact Ho|by apply elem_of_cons; right].
  - unfold insert_key, eff_bind, get. case_match; [exact Ho|]. destruct (existsb _ _); exact Ho.
  - unfold shred_key. by case_match.
Qed.

(** The statement that provisions a key. *)
Lemma insert_key_spec cfg v org dek iv w hash :
  nonce iv → wrapDEK cfg dek iv org = Ok w → org ∈ organizations v →
  (insert_key (key_row org w hash) v).1 = Ok true ∧ data_key cfg (insert_key (key_row org w hash) v).2 org dek
  ∨ insert_key (key_row org w hash) v = (Ok false, v) ∧ existsb (of_org org) (keys v) = true.
Proof.
  intros Hiv Hw Ho. unfold insert_key, eff_bind, get. simpl. rewrite bool_decide_true by done. simpl.
  destruct (existsb _ _) eqn:E; [by right|left]. split; [done|]. exists (key_row org w hash).
  split; [apply elem_of_app; right; by left|]. split; [done|]. split; [done|]. exists true. by eapply unwrap_wrap.
Qed.

Lemma known_org_row cfg v org : wf cfg v → existsb (of_org org) (keys v) = true →
  destroyed v org ∨ ∃ dek, data_key cfg v org dek.
Proof.
  intros Hwf (r & Hr & Ho%String.eqb_eq)%existsb_exists. apply list_elem_of_In in Hr.
  destruct (wf_rows _ _ Hwf r Hr) as [?|(Ha & dek & Hd)]; [by left; exists r|right; exists dek, r; auto].
Qed.

(** What a call that asks for a data key may answer. *)
Definition answered (cfg : config) (v : t) (org : string) (o : outcome (list Z)) (v' : t) : Prop :=
  rtc (stmt cfg) v v' ∧
  ((∃ dek, o = Ok dek ∧ (data_key cfg v' org dek ∨ destroyed v' org)) ∨
   (∃ m, o = Throw (Some 410) m ∧ destroyed v' org)).

Lemma answered_later cfg v v1 org o v' : rtc (stmt cfg) v v1 → answered cfg v1 org o v' → answered cfg v org o v'.
Proof. intros H [? ?]. split; [by etrans|done]. Qed.

Lemma data_key_later cfg v v' org dek :
  rtc (stmt cfg) v v' → data_key cfg v org dek → data_key cfg v' org dek ∨ destroyed v' org.
Proof. intros H%stmts_deploy. apply (deploys_data_key _ _ org dek H). Qed.

Lemma getOrCreate_with_row cfg n rnd other v org :
  wf cfg v → fair cfg other → drawn rnd → existsb (of_org org) (keys v) = true →
  answered cfg v org (getOrCreate hkdf sha256 cfg n rnd other org v).1 (getOrCreate hkdf sha256 cfg n rnd other org v).2.
Proof.
  intros Hwf Hfair [Hiv _] He. destruct (known_org_row _ _ _ Hwf He) as [Hd|[dek Hk]].
  { destruct (getOrCreate_destroyed cfg n rnd other v org Hwf Hd) as [m ->]. split; [done|]. right. eauto. }
  pose proof Hk as (r & Hr & <- & Ha & cur & Hu). pose proof (select_row _ _ _ Hwf Hr) as Hs.
  assert (OrgKey.status r ≠ "destroyed") as Hd by (intros E; unfold active in Ha; by rewrite E in Ha).
  destruct (wrap_total cfg dek (wrap_iv rnd) (OrgKey.organization_id r) (wf_config _ _ Hwf)) as [w Hw].
  destruct cur.
  - assert (getOrCreate hkdf sha256 cfg n rnd other (OrgKey.organization_id r) v = (Ok dek, v)) as ->.
    { destruct n; cbn [getOrCreate]; unfold eff_bind, get; rewrite Hs, (proj2 (String.eqb_neq _ _)) by done;
        unfold lift; by rewrite Hu. }
    split; [done|]. left. eauto.
  - assert (getOrCreate hkdf sha256 cfg n rnd other (OrgKey.organization_id r) v =
      (Ok dek, (replace_wrapping (OrgKey.organization_id r) (OrgKey.encrypted_dek r) w (other v)).2)) as ->.
    { destruct n; cbn [getOrCreate]; unfold eff_bind, get; rewrite Hs, (proj2 (String.eqb_neq _ _)) by done;
        unfold lift; rewrite Hu; unfold eff_ret; cbv beta iota zeta; by rewrite Hw. }
    assert (rtc (stmt cfg) v (replace_wrapping (OrgKey.organization_id r) (OrgKey.encrypted_dek r) w (other v)).2) as Hst.
    { eapply rtc_r; [apply Hfair|]. by eapply stmt_rewrap. }
    split; [done|]. left. exists dek. split; [done|]. by eapply data_key_later.
Qed.

Lemma getOrCreate_answered cfg n rnd other v org :
  wf cfg v → fair cfg other → drawn rnd → org ∈ organizations v →
  answered cfg v org (getOrCreate hkdf sha256 cfg (S n) rnd other org v).1
    (getOrCreate hkdf sha256 cfg (S n) rnd other org v).2.
Proof.
  intros Hwf Hfair Hrnd Ho. destruct (existsb (of_org org) (keys v)) eqn:He; [by apply getOrCreate_with_row|].
  assert (select1 (of_org org) (keys v) = None) as Hs.
  { apply select1_none. intros x Hx. apply not_true_iff_false. intros E. apply not_true_iff_false in He.
    apply He, existsb_exists. exists x. by rewrite <- list_elem_of_In. }
  destruct (wrap_total cfg (raw rnd) (wrap_iv rnd) org (wf_config _ _ Hwf)) as [w Hw].
  pose proof (stmts_wf _ _ _ (Hfair v) Hwf) as Hwf'. pose proof (stmts_keep_organizations _ _ _ _ (Hfair v) Ho) as Ho'.
  set (hash := hex_encode (sha256 (raw rnd))).
  destruct (insert_key_spec cfg (other v) org (raw rnd) (wrap_iv rnd) w hash (proj1 Hrnd) Hw Ho') as [[Hi Hk]|[Hi He']].
  - assert (getOrCreate hkdf sha256 cfg (S n) rnd other org v = (Ok (raw rnd), (insert_key (key_row org w hash) (other v)).2)) as ->.
    { cbn [getOrCreate]. unfold eff_bind at 1. unfold get at 1. rewrite Hs. unfold lift. rewrite Hw. unfold eff_bind, eff_ret, modify.
      fold hash. change (OrgKey.mk org 1 w hash "active" None) with (key_row org w hash).
      destruct (insert_key (key_row org w hash) (other v)) as [o v1]. simpl in *. by subst. }
    split; [|by left; eauto]. eapply rtc_r; [apply Hfair|]. by eapply stmt_insert; [apply (proj1 Hrnd)|exact Hw].
  - assert (getOrCreate hkdf sha256 cfg (S n) rnd other org v = getOrCreate hkdf sha256 cfg n rnd other org (other v)) as ->.
    { cbn [getOrCreate]. unfold eff_bind at 1. unfold get at 1. rewrite Hs. unfold lift. rewrite Hw. unfold eff_bind at 1 2 3, eff_ret, modify.
      fold hash. change (OrgKey.mk org 1 w hash "active" None) with (key_row org w hash). by rewrite Hi. }
    eapply answered_later; [apply Hfair|]. by apply getOrCreate_with_row.
Qed.

(** C39. However other requests interleave, asking for the data key of a known
    organisation ends after at most one retry: it returns the one key the table
    holds for the organisation, so concurrent first uses agree on it, or it is
    refused with 410, and that only when the key has been destroyed. *)
Theorem getOrCreateOrgDEK_total cfg rnd other v org :
  wf cfg v → fair cfg other → drawn rnd → org ∈ organizations v →
  ∃ o v', getOrCreateOrgDEK hkdf sha256 cfg rnd other org v = (o, v') ∧
    ((∃ dek, o = Ok dek ∧ ((∀ dek', data_key cfg v' org dek' ↔ dek' = dek) ∨ destroyed v' org)) ∨
     (∃ m, o = Throw (Some 410) m ∧ destroyed v' org)).
Proof.
  intros Hwf Hfair Hrnd Ho. destruct (getOrCreate_answered cfg 0 rnd other v org Hwf Hfair Hrnd Ho) as [Hst Ha].
  unfold getOrCreateOrgDEK. destruct (getOrCreate _ _ _ _ _ _ _ v) as [o v']. exists o, v'. split; [done|]. simpl in *.
  destruct Ha as [(dek & -> & [Hk|Hd])|?]; [left; exists dek; split; [done|]; left|by left; eauto|by right].
  intros dek'. split; [|by intros ->]. destruct Hk as (r & Hr & Hro & _ & cur & Hu). intros (x & Hx & Hxo & _ & cur' & Hu').
  assert (x = r) as ->; [|congruence].
  apply (NoDup_fmap_inj OrgKey.organization_id (keys v')); [by eapply wf_keys, stmts_wf|done|done|congruence].
Qed.

Lemma sealed_opens cfg rnd other v org p dek iv :
  wf cfg v → data_key cfg v (org_or_default org) dek → nonce iv →
  (openForOrg hkdf sha256 cfg rnd other org
     (Some (SEAL_PREFIX +:+ b64_encode (gcmEncrypt dek iv (utf8 p) (Some ("secret:" +:+ org_or_default org))))) v).1 = Ok (Some p).
Proof.
  intros Hwf Hk Hiv. unfold openForOrg, isSealed. rewrite prefix_app. change (negb true) with false. cbv iota.
  destruct (getOrCreate_existing cfg 1 rnd other v _ dek Hwf Hk) as [v' Hg].
  unfold eff_bind, getOrCreateOrgDEK. cbv beta. rewrite Hg. change (drop_string 7 (SEAL_PREFIX +:+ ?x)) with x.
  rewrite sealed_text_roundtrip by done. unfold lift, eff_ret. simpl. by rewrite utf8_roundtrip.
Qed.


(** A shred is final: once the key of an organisation is destroyed, no
    sealed value of the organisation opens and nothing is sealed for it again,
    in any later state of any configuration; every attempt answers 410. *)
Theorem shred_is_final cfg v org now cfg' v' rnd other s :
  wf cfg v → rtc deploy (cfg, shred_key (org_or_default org) now v) (cfg', v') → isSealed s = true →
  (∃ m, openForOrg hkdf sha256 cfg' rnd other org (Some s) v' = (Throw (Some 410) m, v')) ∧
  ∀ p, ∃ m, sealForOrg hkdf sha256 cfg' rnd other org (Some p) v' = (Throw (Some 410) m, v').
Proof.
  intros Hwf Hdep Hs. assert (destroyed (shred_key (org_or_default org) now v) (org_or_default org)) as Hd.
  { unfold shred_key. destruct (existsb _ _) eqn:E.
    - apply existsb_exists in E as (r & Hr & Ho). eexists. split; [apply elem_of_update; exists r; split; [by apply list_elem_of_In|]; by rewrite Ho|].
      apply String.eqb_eq in Ho. done.
    - eexists. split; [apply elem_of_app; right; by left|done]. }
  assert (wf cfg' v') as Hwf' by (apply (deploys_wf _ _ Hdep); by eapply stmt_wf; [apply stmt_shred|]).
  apply (deploys_destroyed _ _ _ Hdep) in Hd. destruct (getOrCreate_destroyed cfg' 1 rnd other v' _ Hwf' Hd) as [m Hm].
  unfold openForOrg, sealForOrg, getOrCreateOrgDEK. rewrite Hs. change (negb true) with false. cbv iota.
  split; [|intros p]; exists m; unfold eff_bind; by rewrite Hm.
Qed.

(** *** Re-wrapping everything *)

Definition is_current (current : string) (r : OrgKey.t) : Prop :=
  startsWith (WRAP_PREFIX +:+ (kek_of current).1 +:+ ":") (OrgKey.encrypted_dek r) = true.

(** The rows still to do hold every active key that is not wrapped as it should be. *)
Definition left_to_do (current : string) (rows : list OrgKey.t) (v : t) : Prop :=
  (∀ r, r ∈ rows → r ∈ keys v ∧ active r = true) ∧
  (∀ r, r ∈ keys v → active r = true → is_current current r ∨ r ∈ rows).

Lemma wrapping_current current dek iv org : startsWith (WRAP_PREFIX +:+ (kek_of current).1 +:+ ":") (wrapping (kek_of current) dek iv org) = true.
Proof. unfold wrapping. rewrite <- !append_assoc. apply prefix_app. Qed.

Lemma replaced_left_to_do cfg current row rows v dek iv w :
  set_text (SHRED_KEK_SECRET cfg) = Some current → wf cfg v →
  NoDup (OrgKey.organization_id <$> row :: rows) → left_to_do current (row :: rows) v →
  wrapDEK cfg dek iv (OrgKey.organization_id row) = Ok w →
  left_to_do current rows (replace_wrapping (OrgKey.organization_id row) (OrgKey.encrypted_dek row) w v).2.
Proof.
  intros Hc Hwf [Hnew Hdup]%NoDup_cons [Hin Hall] (current' & Hc' & ->)%wrap_spec. rewrite Hc in Hc'. injection Hc' as <-.
  assert (∀ r, r ∈ rows → OrgKey.organization_id r ≠ OrgKey.organization_id row) as Hne.
  { intros r Hr E. apply Hnew. rewrite <- E. by apply list_elem_of_fmap_2. }
  destruct (Hin row) as [Hrow _]; [by left|]. split.
  - intros r Hr. destruct (Hin r) as [Hrk Ha]; [by right|]. split; [|done]. apply elem_of_update. exists r. split; [done|].
    unfold is_stale, of_org. by rewrite (proj2 (String.eqb_neq _ _)) by by apply Hne.
  - intros r' (r & Hr & ->)%elem_of_update Ha. destruct (is_stale _ _ r) eqn:E; [left; apply wrapping_current|].
    destruct (Hall r Hr Ha) as [?|Hx]; [by left|]. apply elem_of_cons in Hx as [->|Hx]; [|by right].
    exfalso. unfold is_stale, of_org, active in *. by rewrite !String.eqb_refl, Ha in E.
Qed.

Definition row_status (r : OrgKey.t) : string * string := (OrgKey.organization_id r, OrgKey.status r).

Lemma same_status_alive cfg v v' org dek : wf cfg v → row_status <$> keys v' = row_status <$> keys v →
  data_key cfg v org dek → ¬ destroyed v' org.
Proof.
  intros Hwf E (r & Hr & <- & Ha & _) (x & Hx & Ho & Hd). apply (list_elem_of_fmap_2 row_status) in Hx. rewrite E in Hx.
  apply list_elem_of_fmap in Hx as (y & [= Hyo Hys] & Hy).
  assert (y = r) as -> by (apply (NoDup_fmap_inj OrgKey.organization_id (keys v)); [apply Hwf|done|done|congruence]).
  unfold active in Ha. rewrite <- Hys, Hd in Ha. done.
Qed.

Lemma rewrap_loop_complete cfg current rows ivs v :
  set_text (SHRED_KEK_SECRET cfg) = Some current → wf cfg v → Forall nonce ivs → (length rows <= length ivs)%nat →
  NoDup (OrgKey.organization_id <$> rows) → left_to_do current rows v →
  ∃ n v', rewrap_loop hkdf sha256 cfg (kek_of current).1 rows ivs v = (Ok n, v') ∧ rtc (stmt cfg) v v' ∧ left_to_do current [] v'
    ∧ row_status <$> keys v' = row_status <$> keys v.
Proof.
  intros Hc. revert ivs v. induction rows as [|row rows IH]; intros ivs v Hwf Hivs Hlen Hdup Htodo; [by exists 0, v|].
  destruct ivs as [|iv ivs]; [simpl in Hlen; lia|]. apply Forall_cons in Hivs as [Hiv Hivs]. cbn [rewrap_loop].
  destruct (proj1 Htodo row) as [Hrow Ha]; [by left|]. destruct (startsWith _ _) eqn:Hp.
  { apply IH; [done|done|simpl in Hlen; lia|by inversion Hdup|]. destruct Htodo as [Hin Hall].
    split; [intros r Hr; apply Hin; by right|]. intros r Hr Har.
    destruct (Hall r Hr Har) as [?|Hx]; [by left|]. apply elem_of_cons in Hx as [->|Hx]; [by left|by right]. }
  destruct (wf_rows _ _ Hwf row Hrow) as [Hd|(_ & dek & cur & Hu)]; [unfold active in Ha; by rewrite Hd in Ha|].
  destruct (wrap_total cfg dek iv (OrgKey.organization_id row) (wf_config _ _ Hwf)) as [w Hw].
  set (v1 := (replace_wrapping (OrgKey.organization_id row) (OrgKey.encrypted_dek row) w v).2).
  assert (stmt cfg v v1) as Hst by by eapply stmt_rewrap.
  destruct (IH ivs v1) as (n & v' & Hn & Hrtc & Hdone & Hsame); [by eapply stmt_wf|done|simpl in Hlen; lia|by inversion Hdup|by eapply replaced_left_to_do|].
  eexists _, v'. split; [|split; [by eapply rtc_l|split; [done|]]].
  2: { rewrite Hsame. by apply update_where_fmap. }
  unfold eff_bind, lift, eff_ret. rewrite Hu. cbv beta iota zeta. rewrite Hw.
  unfold replace_wrapping, eff_bind, get, modify, eff_ret. change (v <| keys ::= _ |>) with v1. by rewrite Hn.
Qed.

(** Re-wrapping at start-up is complete: every active data key ends up under
    the current key-encryption key, none is lost or changed, so the previous
    key-encryption key and the old signing secret can then be removed from the
    configuration and every key still opens. *)
Theorem rewrapAllDataKeys_complete cfg ivs v :
  wf cfg v → Forall nonce ivs → (length (keys v) <= length ivs)%nat →
  ∃ n v', rewrapAllDataKeys hkdf sha256 cfg ivs v = (Ok n, v') ∧
    ∀ cfg', SHRED_KEK_SECRET cfg' = SHRED_KEK_SECRET cfg → set_text (SHRED_KEK_PREVIOUS cfg') = None →
      ∀ org dek, data_key cfg v org dek → data_key cfg' v' org dek.
Proof.
  intros Hwf Hivs Hlen. destruct (wf_config _ _ Hwf) as (current & Hc & Hid).
  assert (length (where_ active (keys v)) <= length (keys v))%nat as Hw by apply length_filter.
  destruct (rewrap_loop_complete cfg current (where_ active (keys v)) ivs v Hc Hwf Hivs) as (n & v' & Hn & Hrtc & [_ Hall] & Hsame);
    [lia|by apply where_NoDup, Hwf| |].
  { split; [by intros r [? ?]%elem_of_where|]. intros r Hr Ha. right. by apply elem_of_where. }
  exists n, v'. split.
  { unfold rewrapAllDataKeys, eff_bind, Vault.keks, lift, eff_ret, get. rewrite Hc. exact Hn. }
  intros cfg' Hs Hp org dek Hk. pose proof (same_status_alive _ _ _ _ _ Hwf Hsame Hk) as Halive.
  destruct (data_key_later _ _ _ _ _ Hrtc Hk) as [Hk'|?]; [|done].
  destruct (deploy_data_key (cfg, v') (cfg', v') org dek); [|done|done|done].
  apply deploy_retire; [|done|done]. exists current. split; [done|]. intros r Hr Ha.
  destruct (Hall r Hr Ha) as [?|Hx]; [done|by apply elem_of_nil in Hx].
Qed.

End Hierarchy.

End VaultFacts.

(** ** Samples *)

Module VaultSamples.
Import Vault VaultFacts.

(** The bits of a number, as bytes. *)
Fixpoint bit_bytes (p : positive) : list Z :=
  match p with xH => [] | xO q => 0 :: bit_bytes q | xI q => 1 :: bit_bytes q end.
Fixpoint of_bits (l : list Z) : positive :=
  match l with [] => 1 | b :: r => if b =? 0 then xO (of_bits r) else xI (of_bits r) end.

Lemma of_bit_bytes p : of_bits (bit_bytes p) = p.
Proof. induction p as [p IH|p IH|]; simpl; by rewrite ?IH. Qed.
Lemma bit_bytes_bytes p : bytes (bit_bytes p).
Proof. induction p; simpl; constructor; done. Qed.

(** A cipher that only encodes, with an empty tag. *)
#[export, refine] Instance plain_gcm : Gcm := {|
  cipher _ _ _ p := (bit_bytes (encode p), replicate 16 0);
  decipher _ _ _ _ c := countable.decode (of_bits c)
|}.
Proof.
  - intros _ _ _ p. simpl. by rewrite of_bit_bytes, decode_encode.
  - intros _ _ _ p. split; [apply bit_bytes_bytes|]. apply Forall_replicate. done.
  - done.
Defined.

Definition digest (l : list Z) : list Z := [foldr (λ b a, (3 * a + b) mod 256) 17 l; Z.of_nat (length l) mod 256].

Lemma digest_bytes l : bytes (digest l).
Proof. repeat constructor; try (apply Z.mod_pos_bound; done); destruct l; try done; apply Z.mod_pos_bound; done. Qed.

Definition first_config : config := mk_config (Some "alpha") None (Some "jwt").
Definition second_config : config := mk_config (Some "beta") (Some "alpha") (Some "jwt").
Definition third_config : config := mk_config (Some "beta") None (Some "other").
Definition drawn_now : randoms := mk_randoms [1; 2; 3] (replicate 12 7) (replicate 12 9).
Definition no_keys : t := mk ["org-default"] [].

Lemma drawn_now_ok : drawn drawn_now.
Proof. split; (split; [done|]); apply Forall_replicate; done. Qed.

Lemma alone_fair cfg : fair utf8 digest cfg id.
Proof. intros v. apply rtc_refl. Qed.

Lemma first_wf : wf utf8 digest first_config no_keys.
Proof. split; [by exists "alpha"|constructor|]. intros r Hr. by apply elem_of_nil in Hr. Qed.

Definition sealing : outcome (option string) * t :=
  Eval vm_compute in sealForOrg utf8 digest first_config drawn_now id None (Some "seed") no_keys.
Definition sealed_text : string := Eval vm_compute in match sealing.1 with Ok (Some t) => t | _ => "" end.
Definition with_key : t := Eval vm_compute in sealing.2.
Definition rewrapping : outcome Z * t :=
  Eval vm_compute in rewrapAllDataKeys utf8 digest second_config [replicate 12 3] with_key.
Definition rewrapped : t := Eval vm_compute in rewrapping.2.

Definition old_wrapping : string := Eval vm_compute in default "" (OrgKey.encrypted_dek <$> head (keys with_key)).
Definition new_wrapping : string := Eval vm_compute in default "" (OrgKey.encrypted_dek <$> head (keys rewrapped)).

Lemma second_config_ok : config_ok utf8 digest second_config.
Proof. exists "beta". split; [done|]. intros p [= <-] E. by vm_compute in E. Qed.

Lemma with_key_wf : wf utf8 digest first_config with_key.
Proof.
  split; [by exists "alpha"|apply (bool_decide_unpack _); by vm_compute|]. intros r ->%list_elem_of_singleton.
  right. split; [done|]. exists [1; 2; 3], true. by vm_compute.
Qed.

Lemma rotated_wf : wf utf8 digest second_config with_key.
Proof.
  split; [apply second_config_ok|apply with_key_wf|]. intros r ->%list_elem_of_singleton.
  right. split; [done|]. exists [1; 2; 3], false. by vm_compute.
Qed.

(** Sealed under the first key, the key rotated, everything re-wrapped and the
    first key retired. *)
Lemma rotation : rtc (deploy utf8 digest) (first_config, with_key) (third_config, rewrapped).
Proof.
  eapply (rtc_l _ _ (second_config, with_key)); [apply deploy_rotate; [done|apply second_config_ok|done|done]|].
  eapply (rtc_l _ _ (second_config, rewrapped)).
  - apply deploy_stmt. change rewrapped with (replace_wrapping "org-default" old_wrapping new_wrapping with_key).2.
    apply (stmt_rewrap utf8 digest second_config "org-default" old_wrapping [1; 2; 3] false (replicate 12 3));
      [by split; [done|apply Forall_replicate]|by vm_compute|by vm_compute].
  - eapply rtc_once, deploy_retire; [|done|done]. exists "beta". split; [done|]. intros r ->%list_elem_of_singleton _. by vm_compute.
Qed.

Lemma getOrCreateOrgDEK_total_witness :
  ∃ o v', getOrCreateOrgDEK utf8 digest first_config drawn_now id "org-default" no_keys = (o, v') ∧
    ((∃ dek, o = Ok dek ∧ ((∀ dek', data_key utf8 digest first_config v' "org-default" dek' ↔ dek' = dek) ∨ destroyed v' "org-default")) ∨
     (∃ m, o = Throw (Some 410) m ∧ destroyed v' "org-default")).
Proof.
  apply (getOrCreateOrgDEK_total utf8 digest digest_bytes first_config drawn_now id no_keys "org-default");
    [apply first_wf|apply alone_fair|apply drawn_now_ok|by left].
Defined.


Lemma shred_is_final_witness :
  ∃ m, openForOrg utf8 digest first_config drawn_now id None (Some sealed_text) (shred_key "org-default" 5 with_key) =
    (Throw (Some 410) m, shred_key "org-default" 5 with_key).
Proof.
  apply (shred_is_final utf8 digest digest_bytes first_config with_key None 5 first_config (shred_key "org-default" 5 with_key)
    drawn_now id sealed_text); [apply with_key_wf|apply rtc_refl|by vm_compute].
Defined.

Lemma rewrapAllDataKeys_complete_witness :
  ∃ n v', rewrapAllDataKeys utf8 digest second_config [replicate 12 3] with_key = (Ok n, v') ∧
    data_key utf8 digest third_config v' "org-default" [1; 2; 3].
Proof.
  destruct (rewrapAllDataKeys_complete utf8 digest digest_bytes second_config [replicate 12 3] with_key) as (n & v' & Hrun & Hkeys);
    [apply rotated_wf|apply Forall_singleton; split; [done|by apply Forall_replicate]|by vm_compute; lia|].
  exists n, v'. split; [done|]. apply (Hkeys third_config); [done|done|].
  eexists. split; [by left|]. split; [done|]. split; [done|]. exists false. by vm_compute.
Defined.

End VaultSamples.
