(* ===== verification/Mfa.v ===== *)
(** * The second factor at sign-in

    [services/MfaPolicy.js] and [services/MfaSessionService.js] over the console
    tables, the one-time codes and the organisations' keys.  A request first
    opens or seals secrets and then runs one transaction; other requests run in
    between, so the row a request checked beforehand may be out of date.

    Rendering of QR codes is left out.  Several reads of the clock inside one
    transaction are one time. *)

From S2P Require Import Prelude Order Js Db Encoding Sessions Totp Vault.

Module Mfa.
Import Sessions.

(** ** Policy *)

Definition mode (env : option string) (is_production : bool) : string :=
  let raw := toLowerCase (trim (default "" env)) in
  if (raw =? "all")%string then "all"
  else if (raw =? "admins")%string || (raw =? "true")%string then "admins"
  else if (raw =? "off")%string || (raw =? "false")%string then "off"
  else if is_production then "admins" else "off".

Definition isAdministrator (u : Account.t) (d : Console.t) : bool :=
  (Account.role u =? "super-admin")%string ||
  existsb (λ m, (Membership.user_id m =? Account.id u)%string &&
                ((Membership.role m =? "owner")%string || (Membership.role m =? "admin")%string)) (Console.memberships d).

Record world := mk_world { console : Console.t; vault : Vault.t }.

Definition on_console {A} (m : eff Console.t A) : eff world A :=
  λ w, let '(o, d) := m (console w) in (o, mk_world d (vault w)).
Definition on_vault {A} (m : eff Vault.t A) : eff world A :=
  λ w, let '(o, v) := m (vault w) in (o, mk_world (console w) v).

(** The stored column a password was checked against. *)
Inductive passwordColumn := password_hash | password_hash_root | password_hash_stealth_wipe | password_hash_nuclear_wipe.
Definition column (c : passwordColumn) (u : Account.t) : option string :=
  match c with
  | password_hash => Account.password_hash u
  | password_hash_root => Account.password_hash_root u
  | password_hash_stealth_wipe => Account.password_hash_stealth_wipe u
  | password_hash_nuclear_wipe => Account.password_hash_nuclear_wipe u
  end.

(** A value that is neither null nor the empty string. *)
Definition truthy (o : option string) : bool := match o with Some s => negb (s =? "")%string | None => false end.

Section Service.
Context {J : Jwt} {G : Gcm} (sha256 : string → string) (cfg : settings).
Context (hkdf : string → list Z) (sha256_raw : list Z → list Z) (vcfg : Vault.config).
Context (hmac_sha1 : list Z → list Z → list Z).
Context (mfa_env : option string) (is_production : bool).

Definition isMfaRequired (u : Account.t) (d : Console.t) : bool :=
  if Account.totp_enabled u then true else
  let m := mode mfa_env is_production in
  if (m =? "all")%string then true else if (m =? "admins")%string then isAdministrator u d else false.

Definition fresh_password {A} : eff Console.t A := deny "Fresh password verification required".

Definition lockedUser (id : string) : eff Console.t Account.t :=
  d <-! get ;
  match select1 (λ u, (Account.id u =? id)%string) (Console.users d) with
  | Some u => if (Account.status u =? "active")%string then eff_ret u else deny "Active account required"
  | None => deny "Active account required"
  end.

Definition requireSnapshot (user snapshot : Account.t) : eff Console.t unit :=
  if negb (organization user =? organization snapshot)%string ||
     negb (Account.console_auth_epoch user =? Account.console_auth_epoch snapshot)
  then fresh_password else eff_ret tt.

Definition challenge_matches (token : string) (c : claims) (u : Account.t) (row : Challenge.t) : bool :=
  match jti c with Some j => uuid_is (Challenge.id row) j | None => false end &&
  (Challenge.user_id row =? Account.id u)%string && (Challenge.token_hash row =? sha256 token)%string.

Definition challenge (token : string) (c : claims) (u : Account.t) (now : Z) : eff Console.t Challenge.t :=
  if negb (opt_is (type_ c) "mfa_pending") || negb (match jti c with Some j => validSessionId j | None => false end) ||
     negb (opt_is (sub c) (Account.id u))
  then fresh_password else
  d <-! get ;
  match select1 (challenge_matches token c u) (Console.challenges d) with
  | None => fresh_password
  | Some row =>
      if bool_decide (is_Some (Challenge.consumed_at row)) || (Challenge.expires_at row <=? now) ||
         negb (Challenge.issued_organization_id row =? organization u)%string ||
         negb (Challenge.issued_auth_epoch row =? Account.console_auth_epoch u)
      then fresh_password else eff_ret row
  end.

Definition fullSession (token : string) (c : claims) (u : Account.t) (now : Z) : eff Console.t Family.t :=
  family <-! match sid c with
             | Some s => lockFamily (Account.id u) s now
             | None => deny "Fresh sign-in required"
             end ;
  d <-! get ;
  if revoked_token sha256 token d then deny "Token has been revoked" else eff_ret family.

(** [CryptoShreddingService.openForOrg(user.organization_id, value)] *)
Definition openSecret (rnd : Vault.randoms) (other : Vault.t → Vault.t) (u : Account.t) (value : option string) : eff world (option string) :=
  on_vault (Vault.openForOrg hkdf sha256_raw vcfg rnd other (Account.organization_id u) value).

Definition verify_code (code : string) (secret : option string) (now : Z) : eff Console.t bool :=
  match Totp.verifyTotp hmac_sha1 code secret 1 30 now 6 with
  | Ok b => eff_ret b
  | Throw st m => throw st m
  end.

(** ** Sign-in *)

Inductive signed_in := SignedIn (s : session) | MfaRequired (setup_required : bool) (mfa_token : string).

Definition insert_challenge (row : Challenge.t) : eff Console.t unit :=
  d <-! get ;
  if existsb (λ x, uuid_is (Challenge.id x) (Challenge.id row) || (Challenge.token_hash x =? Challenge.token_hash row)%string)
       (Console.challenges d)
  then db_error
  else modify (λ d, d <| Console.challenges ::= λ l, l ++ [row] |>).

Definition mfa_claims (u : Account.t) (id : string) (now : Z) : claims :=
  mk_claims (Some (Account.id u)) None None None None None None None (Some id) (Some "mfa_pending") (Some (seconds now + 300)).

Definition issue_challenge (u : Account.t) (accessTier id : string) (now : Z) : eff Console.t signed_in :=
  let token := sign (JWT_SECRET cfg) (mfa_claims u id now) in
  insert_challenge (Challenge.mk id (Account.id u) (sha256 token) (organization u) (Account.console_auth_epoch u)
    (if (accessTier =? "root")%string then "root" else "standard") (exp_of token * 1000) None) ;!
  eff_ret (MfaRequired (negb (Account.totp_enabled u)) token).

Definition as_verified (u : Account.t) (tier : string) : verified :=
  mk_verified (Account.id u) (Account.organization_id u) (Account.password_hash_root u) tier.

(** The transaction of [signIn], given the opened secret. *)
Definition signIn_tx (v : Account.t) (col : passwordColumn) (accessTier : string) (providedOtp secret : option string)
    (id : string) (fr : fresh) (now : Z) : eff Console.t signed_in :=
  user <-! lockedUser (Account.id v) ;
  requireSnapshot user v ;!
  if negb (truthy (column col v)) || negb (bool_decide (column col v = column col user)) then fresh_password else
  d <-! get ;
  if isMfaRequired user d then
    match providedOtp with
    | Some otp =>
        if Account.totp_enabled user && negb (otp =? "")%string then
          if negb (bool_decide (Account.totp_secret user = Account.totp_secret v)) then deny "Invalid TOTP code" else
          good <-! verify_code otp secret now ;
          if negb good then deny "Invalid TOTP code" else
          s <-! issueSessionWithClient sha256 cfg (as_verified user accessTier) fr now ; eff_ret (SignedIn s)
        else issue_challenge user accessTier id now
    | None => issue_challenge user accessTier id now
    end
  else s <-! issueSessionWithClient sha256 cfg (as_verified user accessTier) fr now ; eff_ret (SignedIn s).

Definition signIn (v : Account.t) (col : passwordColumn) (accessTier : string) (providedOtp : option string)
    (rnd : Vault.randoms) (other : Vault.t → Vault.t) (id : string) (fr : fresh) (now : Z) : eff world signed_in :=
  secret <-! (if Account.totp_enabled v && truthy providedOtp then openSecret rnd other v (Account.totp_secret v) else eff_ret None) ;
  on_console (transaction (signIn_tx v col accessTier providedOtp secret id fr now)).

(** ** Callers of the second step *)

Record caller := mk_caller { c_token : string; c_decoded : claims; c_user : Account.t; passwordStepOnly : bool }.

Definition resolveCaller (blacklisted : string → bool) (token : string) (now : Z) : eff Console.t caller :=
  λ s, match (match verify (JWT_SECRET cfg) token (seconds now) with
              | None => deny "Invalid or expired token"
              | Some c =>
                  let step := opt_is (type_ c) "mfa_pending" in
                  (if step then eff_ret tt else resolveAccessToken sha256 cfg blacklisted token now ;! eff_ret tt) ;!
                  user <-! lockedUser (or_else (subject c) "") ;
                  (if step then challenge token c user now ;! eff_ret tt else eff_ret tt) ;!
                  eff_ret (mk_caller token c user step)
              end) s with
       | (Throw None _, s') => (Throw (Some 503) "MFA authority unavailable", s')
       | r => r
       end.

(** The proof a caller rests on: the password step or the session. *)
Inductive proof_row := ByChallenge (row : Challenge.t) | BySession (f : Family.t).
Definition proof_expires (p : proof_row) : Z :=
  match p with ByChallenge row => Challenge.expires_at row | BySession f => Family.expires_at f end.

Definition callerLocked (caller : caller) (now : Z) : eff Console.t (Account.t * proof_row * claims) :=
  match verify (JWT_SECRET cfg) (c_token caller) (seconds now) with
  | None => deny "Invalid or expired token"
  | Some c =>
      user <-! lockedUser (Account.id (c_user caller)) ;
      if match exp c with Some e => negb (e =? 0) && (e * 1000 <=? now) | None => false end
      then deny "Invalid or expired token" else
      requireSnapshot user (c_user caller) ;!
      proof <-! (if passwordStepOnly caller
                 then row <-! challenge (c_token caller) c user now ; eff_ret (ByChallenge row)
                 else f <-! fullSession (c_token caller) c user now ; eff_ret (BySession f)) ;
      eff_ret (user, proof, c)
  end.

Definition proof_id (caller : caller) (c : claims) : option string := if passwordStepOnly caller then jti c else sid c.
Definition proof_type (caller : caller) : string := if passwordStepOnly caller then "challenge" else "session".

(** ** Enrolling an authenticator *)

Definition set_pending (sealed : option string) (codes : list string) (proofId : option string) (proofType : string)
    (expiresAt epoch : Z) (u : Account.t) : Account.t :=
  u <| Account.totp_pending_secret := sealed |> <| Account.totp_pending_recovery_codes := Some codes |>
    <| Account.totp_pending_proof_id := proofId |> <| Account.totp_pending_proof_type := Some proofType |>
    <| Account.totp_pending_expires_at := Some expiresAt |> <| Account.totp_pending_auth_epoch := Some epoch |>.

Definition setup_tx (caller : caller) (currentCode priorSecret sealed : option string) (recoveryCodes : list string)
    (now : Z) : eff Console.t unit :=
  locked <-! callerLocked caller now ;
  let '(user, proof, c) := locked in
  (if Account.totp_enabled user then
     if passwordStepOnly caller then throw (Some 409) "An authenticator is already enrolled" else
     if negb (bool_decide (Account.totp_secret user = Account.totp_secret (c_user caller))) || negb (truthy currentCode)
     then deny "A current code from the enrolled authenticator is required" else
     good <-! verify_code (default "" currentCode) priorSecret now ;
     if negb good then deny "A current code from the enrolled authenticator is required" else eff_ret tt
   else eff_ret tt) ;!
  let proofId := proof_id caller c in
  let cap := Z.min (proof_expires proof) (now + 10 * 60 * 1000) in
  let expiresAt := match exp c with Some e => if e =? 0 then cap else Z.min (e * 1000) cap | None => cap end in
  if truthy (Account.totp_pending_proof_id user) &&
     negb (bool_decide (Account.totp_pending_proof_id user = proofId)) &&
     (now <? default 0 (Account.totp_pending_expires_at user))
  then throw (Some 409) "An authenticator setup is already pending in another sign-in" else
  update_user (Account.id user)
    (set_pending sealed (Totp.hashRecoveryCode sha256 <$> recoveryCodes) proofId (proof_type caller) expiresAt
       (Account.console_auth_epoch user)).

(** [secret] and [recoveryCodes] come from fresh randomness. *)
Definition setup (caller : caller) (currentCode : option string) (secretBytes : list Z) (codeBytes : list (list Z))
    (rnd rnd' : Vault.randoms) (other other' : Vault.t → Vault.t) (now : Z) : eff world (string * list string) :=
  prior <-! (if Account.totp_enabled (c_user caller)
             then openSecret rnd other (c_user caller) (Account.totp_secret (c_user caller)) else eff_ret None) ;
  let secret := Totp.generateSecret secretBytes in
  let recoveryCodes := Totp.generateRecoveryCodes codeBytes in
  sealed <-! on_vault (Vault.sealForOrg hkdf sha256_raw vcfg rnd' other' (Account.organization_id (c_user caller)) (Some secret)) ;
  on_console (transaction (setup_tx caller currentCode prior sealed recoveryCodes now)) ;!
  eff_ret (secret, recoveryCodes).

Definition enrol (u : Account.t) : Account.t :=
  clear_pending (u <| Account.totp_secret := Account.totp_pending_secret u |>
    <| Account.totp_recovery_codes := default [] (Account.totp_pending_recovery_codes u) |>
    <| Account.totp_enabled := true |>).

Definition confirming (caller : caller) : bool := negb (passwordStepOnly caller && Account.totp_enabled (c_user caller)).

(** The row the pending enrolment is confirmed on. *)
Definition confirm_pending (caller : caller) (c : claims) (user : Account.t) (code sealed secret : option string) (now : Z)
    : eff Console.t Account.t :=
  if negb (truthy (Account.totp_pending_secret user)) then throw (Some 400) "No authenticator is being enrolled" else
  if negb (bool_decide (Account.totp_pending_proof_id user = proof_id caller c)) ||
     negb (opt_is (Account.totp_pending_proof_type user) (proof_type caller)) ||
     negb (bool_decide (Account.totp_pending_auth_epoch user = Some (Account.console_auth_epoch user))) ||
     match Account.totp_pending_expires_at user with Some e => e <=? now | None => true end
  then deny "Authenticator setup expired or belongs to another sign-in" else
  if negb (truthy code) then throw (Some 400) "Missing code" else
  if negb (bool_decide (sealed = Account.totp_pending_secret user)) then deny "Invalid TOTP code" else
  good <-! verify_code (default "" code) secret now ;
  if negb good then deny "Invalid TOTP code" else
  update_user (Account.id user) enrol ;!
  d <-! get ;
  or_db_error (select1 (λ u, (Account.id u =? Account.id user)%string) (Console.users d)).

(** The second factor of an enrolled account. *)
Definition check_factor (user : Account.t) (code recovery_code sealed secret : option string) (now : Z) : eff Console.t unit :=
  if truthy recovery_code then
    let '(valid, remaining) := Totp.verifyAndConsumeRecoveryCode sha256 (default "" recovery_code) (Account.totp_recovery_codes user) in
    if negb valid then deny "Invalid recovery code" else
    update_user (Account.id user) (λ u, u <| Account.totp_recovery_codes := remaining |>)
  else if truthy code then
    if negb (bool_decide (sealed = Account.totp_secret user)) then deny "Invalid TOTP code" else
    good <-! verify_code (default "" code) secret now ;
    if negb good then deny "Invalid TOTP code" else eff_ret tt
  else throw (Some 400) "Missing code or recovery_code".

Definition unconsumed (id : string) (row : Challenge.t) : bool :=
  (Challenge.id row =? id)%string && negb (bool_decide (is_Some (Challenge.consumed_at row))).

Definition consume (id : string) (now : Z) : eff Console.t unit :=
  d <-! get ;
  let rowCount := Z.of_nat (length (where_ (unconsumed id) (Console.challenges d))) in
  modify (λ d, d <| Console.challenges ::= update_where (unconsumed id) (λ row, row <| Challenge.consumed_at := Some now |>) |>) ;!
  if negb (rowCount =? 1) then fresh_password else eff_ret tt.

Definition complete_tx (caller : caller) (code recovery_code secret : option string) (fr : fresh) (now : Z) : eff Console.t session :=
  locked <-! callerLocked caller now ;
  let '(user, proof, c) := locked in
  sessionUser <-! (if confirming caller
                   then confirm_pending caller c user code (Account.totp_pending_secret (c_user caller)) secret now
                   else check_factor user code recovery_code (Account.totp_secret (c_user caller)) secret now ;! eff_ret user) ;
  match proof with
  | ByChallenge row =>
      consume (Challenge.id row) now ;!
      issueSessionWithClient sha256 cfg (as_verified sessionUser (Challenge.access_tier row)) fr now
  | BySession _ =>
      changeRootGrantWithClient sha256 cfg (Account.id user) (default "" (sid c)) false None None fr now
  end.

Definition complete (caller : caller) (code recovery_code : option string) (rnd : Vault.randoms) (other : Vault.t → Vault.t)
    (fr : fresh) (now : Z) : eff world (session * bool) :=
  let sealed := if confirming caller then Account.totp_pending_secret (c_user caller) else Account.totp_secret (c_user caller) in
  secret <-! (if truthy recovery_code && negb (confirming caller) then eff_ret None else openSecret rnd other (c_user caller) sealed) ;
  s <-! on_console (transaction (complete_tx caller code recovery_code secret fr now)) ;
  eff_ret (s, confirming caller).

End Service.
End Mfa.

(** ** Histories *)

Module MfaFacts.
Import Sessions Mfa.

(** *** What never goes back *)

(** The columns that decide who may sign in, as the epoch trigger compares them. *)
Definition auth (u : Account.t) :=
  (Account.password_hash u, Account.password_hash_root u, Account.password_hash_stealth_wipe u,
   Account.password_hash_nuclear_wipe u, coalesce (Account.organization_id u) org_default,
   Account.status u, Account.role u, Account.totp_secret u, Account.totp_enabled u).

(** The epoch of an account never falls, and as long as it stands still so do
    the columns. *)
Definition row_le (u u' : Account.t) : Prop :=
  Account.id u' = Account.id u ∧ Account.console_auth_epoch u <= Account.console_auth_epoch u' ∧
  (Account.console_auth_epoch u' = Account.console_auth_epoch u → auth u' = auth u).

Definition challenge_key (r : Challenge.t) :=
  (Challenge.id r, Challenge.user_id r, Challenge.token_hash r, Challenge.issued_organization_id r,
   Challenge.issued_auth_epoch r, Challenge.access_tier r, Challenge.expires_at r).

Definition consumed (r : Challenge.t) : Prop := is_Some (Challenge.consumed_at r).

Record later (d d' : Console.t) : Prop := {
  l_users : Forall2 row_le (Console.users d) (Console.users d');
  l_challenges r : r ∈ Console.challenges d →
    ∃ r', r' ∈ Console.challenges d' ∧ challenge_key r' = challenge_key r ∧ (consumed r → consumed r')
}.

Definition challenge_id (r : Challenge.t) : string := toLowerCase (Challenge.id r).

Record wf (d : Console.t) : Prop := {
  wf_users : NoDup (Account.id <$> Console.users d);
  wf_challenges : NoDup (challenge_id <$> Console.challenges d)
}.

#[export] Instance row_le_preorder : PreOrder row_le.
Proof.
  split; [by intros u|]. intros u1 u2 u3 (I1 & E1 & A1) (I2 & E2 & A2). split; [congruence|]. split; [lia|].
  intros E. rewrite A2, A1 by lia. done.
Qed.

#[export] Instance later_preorder : PreOrder later.
Proof.
  split.
  - intros d. split; [done|eauto].
  - intros d1 d2 d3 [U1 C1] [U2 C2]. split; [by etrans|]. intros r (r1 & H1 & K1 & V1)%C1.
    destruct (C2 r1 H1) as (r2 & H2 & K2 & V2). exists r2. split; [done|]. split; [congruence|auto].
Qed.

(** An effect that leaves accounts and challenges alone. *)
Definition untouched {A} (m : eff Console.t A) : Prop :=
  ∀ d a d', m d = (Ok a, d') → Console.users d' = Console.users d ∧ Console.challenges d' = Console.challenges d.

(** An effect that keeps the tables well formed and takes nothing back. *)
Definition grows {A} (m : eff Console.t A) : Prop :=
  ∀ d a d', m d = (Ok a, d') → wf d → wf d' ∧ later d d'.

Lemma untouched_bind {A B} (m : eff Console.t A) (k : A → eff Console.t B) :
  untouched m → (∀ a, untouched (k a)) → untouched (eff_bind m k).
Proof.
  intros Hm Hk d b d' (a & d1 & H1 & H2)%eff_bind_ok. destruct (Hm _ _ _ H1), (Hk _ _ _ _ H2). split; congruence.
Qed.
Lemma grows_bind {A B} (m : eff Console.t A) (k : A → eff Console.t B) :
  grows m → (∀ a, grows (k a)) → grows (eff_bind m k).
Proof.
  intros Hm Hk d b d' (a & d1 & H1 & H2)%eff_bind_ok Hwf. destruct (Hm _ _ _ H1 Hwf) as [W1 L1].
  destruct (Hk _ _ _ _ H2 W1) as [W2 L2]. split; [done|by etrans].
Qed.
Lemma untouched_grows {A} (m : eff Console.t A) : untouched m → grows m.
Proof.
  intros Hm d a d' H [W1 W2]. destruct (Hm _ _ _ H) as [Hu Hc]. split; [split; by rewrite ?Hu, ?Hc|].
  split; rewrite ?Hu, ?Hc; [done|eauto].
Qed.
Lemma untouched_ret {A} (a : A) : untouched (eff_ret a).
Proof. by intros d x d' [= _ <-]. Qed.
Lemma untouched_get : untouched get.
Proof. by intros d x d' [= _ <-]. Qed.
Lemma untouched_throw {A} st m : untouched (throw (A := A) st m).
Proof. by intros d x d' [=]. Qed.
Lemma untouched_deny {A} m : untouched (deny (A := A) m).
Proof. apply untouched_throw. Qed.
Lemma untouched_modify f :
  (∀ d, Console.users (f d) = Console.users d ∧ Console.challenges (f d) = Console.challenges d) → untouched (modify f).
Proof. intros H d a d' [= _ <-]. apply H. Qed.

Lemma transaction_grows {A} (m : eff Console.t A) d :
  grows m → wf d → wf (transaction m d).2 ∧ later d (transaction m d).2.
Proof. intros Hm Hwf. unfold transaction. destruct (m d) as [[a|[st|] msg] d'] eqn:E; [by eapply Hm|done|done]. Qed.

Create HintDb mfa discriminated.

(** Follows the structure of an effect. *)
Ltac effects :=
  repeat first
    [ apply untouched_bind; [|intros ?] | apply untouched_ret | apply untouched_get | apply untouched_throw
    | apply untouched_deny | solve [auto with mfa]
    | apply untouched_modify; done
    | match goal with |- untouched (match ?x with _ => _ end) => destruct x end ].

Section Histories.
Context {J : Jwt} {G : Gcm} (sha256 : string → string) (cfg : settings).
Context (hkdf : string → list Z) (sha256_raw : list Z → list Z) (vcfg : Vault.config).
Context (hmac_sha1 : list Z → list Z → list Z).
Context (mfa_env : option string) (is_production : bool).

Lemma currentUser_untouched i : untouched (currentUser i).
Proof. unfold currentUser. effects. Qed.
Lemma lockFamily_untouched i s now : untouched (lockFamily i s now).
Proof. unfold lockFamily. effects. Qed.
Lemma revokeFamily_untouched i s r now : untouched (revokeFamily i s r now).
Proof. unfold revokeFamily, update_families, revoke_tokens. effects. Qed.
#[local] Hint Resolve currentUser_untouched lockFamily_untouched revokeFamily_untouched : mfa.

Lemma persistPair_untouched u fid e g root fr now : untouched (persistPair sha256 cfg u fid e g root fr now).
Proof. unfold persistPair, insert_refresh, update_families, db_error. cbv zeta. effects. Qed.
#[local] Hint Resolve persistPair_untouched : mfa.

Lemma issueSessionWithClient_untouched v fr now : untouched (issueSessionWithClient sha256 cfg v fr now).
Proof. unfold issueSessionWithClient, db_error. cbv zeta. effects. Qed.
Lemma changeRootGrantWithClient_untouched i s root h o fr now :
  untouched (changeRootGrantWithClient sha256 cfg i s root h o fr now).
Proof. unfold changeRootGrantWithClient, update_families, revoke_tokens. cbv zeta. effects. Qed.
Lemma rotate_tx_untouched i s t fr now : untouched (rotate_tx sha256 cfg i s t fr now).
Proof. unfold rotate_tx, update_families, revoke_tokens. cbv zeta. effects. Qed.
Lemma logout_tx_untouched t i s now : untouched (logout_tx sha256 t i s now).
Proof. unfold logout_tx. effects. Qed.
#[local] Hint Resolve issueSessionWithClient_untouched changeRootGrantWithClient_untouched
  rotate_tx_untouched logout_tx_untouched : mfa.

(** *** Updates of an account cross the trigger *)

Lemma authentication_unchanged old new : authentication_changed old new = false → auth new = auth old.
Proof.
  unfold authentication_changed. intros H%negb_false_iff. b2p. unfold auth. congruence.
Qed.

Lemma advanced_row_le old new u :
  Account.id new = Account.id old → advance_console_auth_epoch old new = Some u → row_le old u.
Proof.
  intros Hi. unfold advance_console_auth_epoch. destruct (authentication_changed old new) eqn:E.
  - intros [= <-]. set (u' := clear_pending _). assert (Account.console_auth_epoch u' = Account.console_auth_epoch old + 1) as He by done.
    split; [done|]. split; lia.
  - destruct (_ <? _) eqn:El; [done|]. intros [= <-]. b2p. split; [done|]. split; [lia|]. intros _. by apply authentication_unchanged.
Qed.

Lemma update_user_grows i f : (∀ u, Account.id (f u) = Account.id u) → grows (update_user i f).
Proof.
  intros Hf d a d' Hrun [W1 W2]. apply eff_bind_ok in Hrun as (d0 & d1 & [= <- <-] & Hrun).
  destruct (select1 _ _) as [old|] eqn:Hs; [|injection Hrun as _ <-; split; [done|reflexivity]].
  destruct (advance_console_auth_epoch old (f old)) as [new|] eqn:Ha; [|done]. injection Hrun as _ <-.
  apply select1_elem in Hs as [Hi%String.eqb_eq Hold]. pose proof (advanced_row_le _ _ _ (Hf old) Ha) as Hle.
  assert (Forall2 row_le (Console.users d) (update_where (λ u, (Account.id u =? i)%string) (λ _, new) (Console.users d))) as Hall.
  { apply Forall2_fmap_r, Forall_Forall2_diag, Forall_forall. intros u Hu. unfold compose. destruct (String.eqb_spec (Account.id u) i) as [E|E]; [|reflexivity].
    assert (u = old) as -> by (apply (NoDup_fmap_inj Account.id (Console.users d)); [done..|congruence]). done. }
  split; [|split; [exact Hall|simpl; eauto]]. split; simpl; [|done].
  assert (Account.id <$> update_where (λ u, (Account.id u =? i)%string) (λ _, new) (Console.users d) = Account.id <$> Console.users d) as ->; [|done].
  clear -Hall. induction Hall as [|u u' l l' [Hid _] _ IH]; [done|]. rewrite !fmap_cons, Hid. f_equal. exact IH.
Qed.

Lemma insert_challenge_grows row : grows (insert_challenge row).
Proof.
  intros d a d' Hrun [W1 W2]. apply eff_bind_ok in Hrun as (d0 & d1 & [= <- <-] & Hrun).
  destruct (existsb _ _) eqn:E; [done|]. injection Hrun as _ <-. split.
  - split; simpl; [done|]. rewrite fmap_app. apply NoDup_app. split; [done|]. split; [|apply NoDup_singleton].
    intros i (x & -> & Hx)%list_elem_of_fmap Hi%list_elem_of_singleton. apply not_true_iff_false in E. apply E, existsb_exists.
    exists x. split; [by apply list_elem_of_In|]. unfold uuid_is, challenge_id in *. by rewrite Hi, String.eqb_refl.
  - split; simpl; [done|]. intros r Hr. exists r. split; [apply elem_of_app; by left|done].
Qed.

Lemma consume_grows i now : grows (consume i now).
Proof.
  intros d a d' Hrun [W1 W2]. apply eff_bind_ok in Hrun as (d0 & d1 & [= <- <-] & Hrun).
  apply eff_bind_ok in Hrun as (u & d1 & [= <- <-] & Hrun). destruct (negb _); [done|]. injection Hrun as _ <-. split.
  - split; simpl; [done|]. by rewrite update_where_fmap.
  - split; simpl; [done|]. intros r Hr. exists (if unconsumed i r then r <| Challenge.consumed_at := Some now |> else r).
    split; [apply elem_of_update; eauto|]. destruct (unconsumed i r); [|done]. split; [done|]. intros _. by exists now.
Qed.
#[local] Hint Resolve insert_challenge_grows consume_grows : mfa.

Lemma lockedUser_untouched i : untouched (lockedUser i).
Proof. unfold lockedUser. effects. Qed.
Lemma requireSnapshot_untouched u v : untouched (requireSnapshot u v).
Proof. unfold requireSnapshot, fresh_password. effects. Qed.
Lemma challenge_untouched t c u now : untouched (challenge sha256 t c u now).
Proof. unfold challenge, fresh_password. effects. Qed.
Lemma fullSession_untouched t c u now : untouched (fullSession sha256 t c u now).
Proof. unfold fullSession. effects. Qed.
Lemma verify_code_untouched c s now : untouched (verify_code hmac_sha1 c s now).
Proof. unfold verify_code. effects. Qed.
#[local] Hint Resolve lockedUser_untouched requireSnapshot_untouched challenge_untouched fullSession_untouched
  verify_code_untouched : mfa.

Lemma callerLocked_untouched c now : untouched (callerLocked sha256 cfg c now).
Proof. unfold callerLocked. effects. Qed.
#[local] Hint Resolve callerLocked_untouched : mfa.

(** Follows the structure of an effect that writes. *)
Ltac growth :=
  repeat first
    [ solve [auto with mfa] | solve [apply untouched_grows; effects]
    | apply update_user_grows; done | apply grows_bind; [|intros ?]
    | match goal with |- grows (match ?x with _ => _ end) => destruct x end ].

Lemma signIn_tx_grows v col tier otp secret i fr now :
  grows (signIn_tx sha256 cfg hmac_sha1 mfa_env is_production v col tier otp secret i fr now).
Proof. unfold signIn_tx, issue_challenge, fresh_password. cbv zeta. growth. Qed.

Lemma setup_tx_grows c code prior sealed codes now : grows (setup_tx sha256 cfg hmac_sha1 c code prior sealed codes now).
Proof. unfold setup_tx. cbv zeta. growth. Qed.

Lemma confirm_pending_grows c cl u code sealed secret now : grows (confirm_pending hmac_sha1 c cl u code sealed secret now).
Proof. unfold confirm_pending, or_db_error, db_error. growth. Qed.
Lemma check_factor_grows u code rc sealed secret now : grows (check_factor sha256 hmac_sha1 u code rc sealed secret now).
Proof. unfold check_factor. growth. Qed.
#[local] Hint Resolve confirm_pending_grows check_factor_grows : mfa.

Lemma complete_tx_grows c code rc secret fr now : grows (complete_tx sha256 cfg hmac_sha1 c code rc secret fr now).
Proof. unfold complete_tx. growth. Qed.

Lemma revoke_user_grows i now : ∀ d, wf d → wf (revokeUserSessions i now d).2 ∧ later d (revokeUserSessions i now d).2.
Proof.
  intros d. apply transaction_grows. unfold update_families, revoke_tokens. growth.
Qed.

Lemma session_step_later d d' : Sessions.step sha256 cfg d d' → wf d → wf d' ∧ later d d'.
Proof.
  destruct 1 as [v fr now d|c t fr now d|i s root h o fr now d|i now d|t i s now d|i f d Hf].
  - apply transaction_grows, untouched_grows; auto with mfa.
  - unfold rotateSession. repeat case_match; try done. apply transaction_grows, untouched_grows; auto with mfa.
  - apply transaction_grows, untouched_grows; auto with mfa.
  - apply revoke_user_grows.
  - unfold revokeAccessTokenAndRefresh. intros Hwf.
    pose proof (transaction_grows (logout_tx sha256 t i s now) d (untouched_grows _ (logout_tx_untouched t i s now)) Hwf) as H.
    destruct (transaction _ d) as [[a|st m] d']; simpl in *; [done|]. by case_bool_decide.
  - apply transaction_grows. by apply update_user_grows.
Qed.

(** *** The console as requests see it *)

Inductive step : world → world → Prop :=
  | step_session d d' v : Sessions.step sha256 cfg d d' → step (mk_world d v) (mk_world d' v)
  | step_vault w v : step w (mk_world (console w) v)
  | step_sign_in v col tier otp rnd other i fr now w :
      step w (signIn sha256 cfg hkdf sha256_raw vcfg hmac_sha1 mfa_env is_production v col tier otp rnd other i fr now w).2
  | step_setup c code sb cb rnd rnd' other other' now w :
      step w (setup sha256 cfg hkdf sha256_raw vcfg hmac_sha1 c code sb cb rnd rnd' other other' now w).2
  | step_complete c code rc rnd other fr now w :
      step w (complete sha256 cfg hkdf sha256_raw vcfg hmac_sha1 c code rc rnd other fr now w).2.

(** A world effect whose console part is at most one growing transaction. *)
Definition world_grows {A} (m : eff world A) : Prop :=
  ∀ w, wf (console w) → wf (console (m w).2) ∧ later (console w) (console (m w).2).

Lemma world_grows_bind {A B} (m : eff world A) (k : A → eff world B) :
  world_grows m → (∀ a, world_grows (k a)) → world_grows (eff_bind m k).
Proof.
  intros Hm Hk w Hwf. specialize (Hm w Hwf). unfold eff_bind. destruct (m w) as [[a|st msg] w1]; simpl in *; [|done].
  destruct Hm as [W1 L1]. destruct (Hk a w1 W1) as [W2 L2]. split; [done|by etrans].
Qed.
Lemma world_grows_ret {A} (a : A) : world_grows (eff_ret a).
Proof. intros w Hwf. split; [done|reflexivity]. Qed.
Lemma world_grows_vault {A} (m : eff Vault.t A) : world_grows (on_vault m).
Proof. intros w Hwf. unfold on_vault. destruct (m (vault w)) as [o v]. split; [done|reflexivity]. Qed.
Lemma world_grows_console {A} (m : eff Console.t A) : grows m → world_grows (on_console (transaction m)).
Proof.
  intros Hm w Hwf. pose proof (transaction_grows m (console w) Hm Hwf) as H. unfold on_console.
  by destruct (transaction m (console w)) as [o d].
Qed.

Lemma signIn_step v col tier otp rnd other i fr now w o w' :
  signIn sha256 cfg hkdf sha256_raw vcfg hmac_sha1 mfa_env is_production v col tier otp rnd other i fr now w = (o, w') → step w w'.
Proof. intros H. pose proof (step_sign_in v col tier otp rnd other i fr now w) as S. by rewrite H in S. Qed.
Lemma complete_step c code rc rnd other fr now w o w' :
  complete sha256 cfg hkdf sha256_raw vcfg hmac_sha1 c code rc rnd other fr now w = (o, w') → step w w'.
Proof. intros H. pose proof (step_complete c code rc rnd other fr now w) as S. by rewrite H in S. Qed.

Lemma step_later w w' : step w w' → wf (console w) → wf (console w') ∧ later (console w) (console w').
Proof.
  destruct 1 as [d d' v H|w v|v col tier otp rnd other i fr now w|c code sb cb rnd rnd' other other' now w|c code rc rnd other fr now w].
  - by apply session_step_later.
  - intros Hwf. split; [done|reflexivity].
  - revert w. apply world_grows_bind; [|intros secret; apply world_grows_console, signIn_tx_grows].
    destruct (_ && _); [apply world_grows_vault|apply world_grows_ret].
  - revert w. apply world_grows_bind; [destruct (Account.totp_enabled _); [apply world_grows_vault|apply world_grows_ret]|].
    intros prior. apply world_grows_bind; [apply world_grows_vault|]. intros sealed.
    apply world_grows_bind; [apply world_grows_console, setup_tx_grows|intros ?; apply world_grows_ret].
  - revert w. apply world_grows_bind; [destruct (_ && _); [apply world_grows_ret|apply world_grows_vault]|]. intros secret.
    apply world_grows_bind; [apply world_grows_console, complete_tx_grows|intros ?; apply world_grows_ret].
Qed.

Lemma steps_later w w' : rtc step w w' → wf (console w) → wf (console w') ∧ later (console w) (console w').
Proof.
  induction 1 as [|w w1 w2 H _ IH]; intros Hwf; [split; [done|reflexivity]|].
  destruct (step_later _ _ H Hwf) as [W1 L1]. destruct (IH W1) as [W2 L2]. split; [done|by etrans].
Qed.

(** *** Reading a successful run *)

Lemma lockedUser_ok i d u d' : lockedUser i d = (Ok u, d') → d' = d ∧ u ∈ Console.users d ∧ Account.id u = i.
Proof.
  intros (d0 & d1 & [= <- <-] & H)%eff_bind_ok. destruct (select1 _ _) as [x|] eqn:Hs; [|done].
  destruct (_ =? _)%string; [|done]. injection H as <- <-. by apply select1_elem in Hs as [Hi%String.eqb_eq Hx].
Qed.

Lemma requireSnapshot_ok u v d a d' : requireSnapshot u v d = (Ok a, d') →
  d' = d ∧ Account.console_auth_epoch u = Account.console_auth_epoch v.
Proof.
  unfold requireSnapshot. destruct (_ || _) eqn:E; [done|]. intros [= _ <-]. b2p. done.
Qed.

Lemma challenge_ok t c u now d row d' : challenge sha256 t c u now d = (Ok row, d') →
  d' = d ∧ row ∈ Console.challenges d ∧ challenge_matches sha256 t c u row = true ∧ ¬ consumed row
  ∧ Challenge.issued_auth_epoch row = Account.console_auth_epoch u.
Proof.
  unfold challenge. destruct (_ || _); [done|]. intros (d0 & d1 & [= <- <-] & H)%eff_bind_ok.
  destruct (select1 _ _) as [x|] eqn:Hs; [|done]. destruct (_ || _) eqn:E; [done|]. injection H as <- <-.
  apply select1_elem in Hs as [Hm Hx]. b2p. done.
Qed.

Lemma callerLocked_ok caller now d u p c d' :
  callerLocked sha256 cfg caller now d = (Ok (u, p, c), d') →
  d' = d ∧ u ∈ Console.users d ∧ Account.id u = Account.id (c_user caller)
  ∧ Account.console_auth_epoch u = Account.console_auth_epoch (c_user caller)
  ∧ verify (JWT_SECRET cfg) (c_token caller) (seconds now) = Some c
  ∧ (passwordStepOnly caller = true → ∃ row, p = ByChallenge row ∧ row ∈ Console.challenges d
      ∧ challenge_matches sha256 (c_token caller) c u row = true ∧ ¬ consumed row
      ∧ Challenge.issued_auth_epoch row = Account.console_auth_epoch u).
Proof.
  unfold callerLocked. destruct (verify _ _ _) as [c0|]; [|done].
  intros (u0 & d1 & H1 & H)%eff_bind_ok. apply lockedUser_ok in H1 as (-> & Hu & Hi).
  match type of H with (if ?b then _ else _) _ = _ => destruct b end; [done|]. apply eff_bind_ok in H as (x & d2 & H2 & H).
  apply requireSnapshot_ok in H2 as (-> & He). apply eff_bind_ok in H as (p0 & d3 & H3 & H).
  injection H as <- <- <- <-. destruct (passwordStepOnly caller).
  - apply eff_bind_ok in H3 as (row & d4 & H4 & H3). injection H3 as <- <-. apply challenge_ok in H4 as (-> & Hrow).
    split; [done|]. split; [done|]. split; [done|]. split; [done|]. split; [done|]. eauto.
  - apply eff_bind_ok in H3 as (f & d4 & H4 & H3). injection H3 as <- <-.
    assert (d4 = d) as ->; [|done]. unfold fullSession in H4. apply eff_bind_ok in H4 as (f' & d5 & H5 & H4).
    apply eff_bind_ok in H4 as (d6 & d7 & [= <- <-] & H4). destruct (revoked_token _ _ _); [done|]. injection H4 as <- <-.
    destruct (sid c0) as [s|]; [|done]. by apply (reads_run _ _ _ _ (SessionFacts.lockFamily_reads _ _ _)) in H5.
Qed.

Lemma matches_key t c u r r' :
  challenge_key r' = challenge_key r → challenge_matches sha256 t c u r' = challenge_matches sha256 t c u r.
Proof. unfold challenge_key. intros [= H1 H2 H3 _ _ _ _]. unfold challenge_matches. by rewrite H1, H2, H3. Qed.

(** A completed password step has consumed its challenge. *)
Lemma complete_tx_consumes caller code rc secret fr now d s d' :
  complete_tx sha256 cfg hmac_sha1 caller code rc secret fr now d = (Ok s, d') → wf d → passwordStepOnly caller = true →
  ∃ c u row, verify (JWT_SECRET cfg) (c_token caller) (seconds now) = Some c ∧
    challenge_matches sha256 (c_token caller) c u row = true ∧ row ∈ Console.challenges d' ∧ consumed row.
Proof.
  intros ([[u p] c] & d1 & H1 & H)%eff_bind_ok Hwf Hpw. apply callerLocked_ok in H1 as (-> & _ & _ & _ & Hv & Hrow).
  destruct (Hrow Hpw) as (row & -> & Hin & Hm & Hnot & _). apply eff_bind_ok in H as (su & d2 & H2 & H).
  assert (grows (if confirming caller then confirm_pending hmac_sha1 caller c u code (Account.totp_pending_secret (c_user caller)) secret now
    else check_factor sha256 hmac_sha1 u code rc (Account.totp_secret (c_user caller)) secret now ;! eff_ret u)) as Hg by growth.
  destruct (Hg _ _ _ H2 Hwf) as [Hwf2 L2]. destruct (l_challenges _ _ L2 row Hin) as (row2 & Hin2 & Hk2 & _).
  apply eff_bind_ok in H as (x & d3 & H3 & H). apply issueSessionWithClient_untouched in H as [_ Hc]. rewrite Hc.
  apply eff_bind_ok in H3 as (d0 & d0' & [= <- <-] & H3). apply eff_bind_ok in H3 as (? & ? & [= <- <-] & H3).
  destruct (negb _); [done|]. injection H3 as _ <-. simpl.
  exists c, u, (if unconsumed (Challenge.id row) row2 then row2 <| Challenge.consumed_at := Some now |> else row2).
  split; [done|]. destruct (unconsumed (Challenge.id row) row2) eqn:E; (split; [by rewrite <- Hm; apply matches_key|]);
    (split; [apply elem_of_update; exists row2; by rewrite E|]); [by exists now|].
  unfold unconsumed in E. unfold challenge_key in Hk2. rewrite (proj2 (String.eqb_eq _ _)) in E by congruence. simpl in E. by b2p.
Qed.

(** The challenge a token names is one row. *)
Lemma same_challenge d t c u row c' u' row' :
  wf d → challenge_matches sha256 t c u row = true → challenge_matches sha256 t c' u' row' = true → c' = c →
  row ∈ Console.challenges d → row' ∈ Console.challenges d → row' = row.
Proof.
  intros Hwf H H' -> Hin Hin'. apply (NoDup_fmap_inj challenge_id (Console.challenges d)); [apply Hwf|done|done|].
  unfold challenge_matches, uuid_is, challenge_id in *. destruct (jti c); [|done]. b2p. congruence.
Qed.

Lemma same_claims t now now' c c' : verify (JWT_SECRET cfg) t now = Some c → verify (JWT_SECRET cfg) t now' = Some c' → c' = c.
Proof. intros [H _]%verify_decode [H' _]%verify_decode. congruence. Qed.

Lemma complete_console caller code rc rnd other fr now w s b w' :
  complete sha256 cfg hkdf sha256_raw vcfg hmac_sha1 caller code rc rnd other fr now w = (Ok (s, b), w') →
  ∃ secret, complete_tx sha256 cfg hmac_sha1 caller code rc secret fr now (console w) = (Ok s, console w') ∧
    ∃ w0, (if truthy rc && negb (confirming caller) then eff_ret None
           else openSecret hkdf sha256_raw vcfg rnd other (c_user caller)
             (if confirming caller then Account.totp_pending_secret (c_user caller) else Account.totp_secret (c_user caller))) w = (Ok secret, w0).
Proof.
  intros (secret & w1 & H1 & H)%eff_bind_ok. exists secret. split; [|eauto]. assert (console w1 = console w) as <-.
  { destruct (_ && _); [by injection H1 as _ <-|]. unfold openSecret, on_vault in H1.
    destruct (Vault.openForOrg _ _ _ _ _ _ _ _). by injection H1 as _ <-. }
  apply eff_bind_ok in H as (s0 & w2 & H2 & H). injection H as <- _ <-. unfold on_console in H2.
  destruct (transaction _ _) as [o d] eqn:E. injection H2 as -> <-. by apply SessionFacts.transaction_ok in E.
Qed.

(** C18. A password step is good for one session: once the challenge behind an MFA
    token has completed a sign-in, no later call with that token completes
    another one, in any history of sign-ins, enrolments, session changes and
    account updates. *)
Theorem challenge_completes_once caller code rc rnd other fr now w r w1 w2 caller' code' rc' rnd' other' fr' now' :
  wf (console w) → passwordStepOnly caller = true →
  complete sha256 cfg hkdf sha256_raw vcfg hmac_sha1 caller code rc rnd other fr now w = (Ok r, w1) →
  rtc step w1 w2 → passwordStepOnly caller' = true → c_token caller' = c_token caller →
  ∀ r', (complete sha256 cfg hkdf sha256_raw vcfg hmac_sha1 caller' code' rc' rnd' other' fr' now' w2).1 ≠ Ok r'.
Proof.
  intros Hwf Hpw Hrun Hsteps Hpw' Ht [s' b'] Hrun'. destruct r as [s b].
  destruct (step_later w w1) as [Hwf1 _]; [by eapply complete_step|done|].
  destruct (steps_later _ _ Hsteps Hwf1) as [Hwf2 L2].
  apply complete_console in Hrun as (secret & Htx & _). apply complete_tx_consumes in Htx as (c & u & row & Hv & Hm & Hin & Hc); [|done|done].
  destruct (complete _ _ _ _ _ _ caller' _ _ _ _ _ _ w2) as [o w3] eqn:E. simpl in Hrun'. subst o.
  apply complete_console in E as (secret' & Htx' & _). apply eff_bind_ok in Htx' as ([[u' p'] c'] & d3 & H3 & _).
  apply callerLocked_ok in H3 as (-> & _ & _ & _ & Hv' & Hrow'). destruct (Hrow' Hpw') as (row' & _ & Hin' & Hm' & Hnot & _).
  rewrite Ht in Hv', Hm'. pose proof (same_claims _ _ _ _ _ Hv Hv') as ->.
  destruct (l_challenges _ _ L2 row Hin) as (row2 & Hin2 & Hk2 & Hc2). apply Hnot.
  assert (row' = row2) as ->; [|by apply Hc2]. eapply (same_challenge (console w2) (c_token caller) c u row2 c u' row'); try done.
  by rewrite <- Hm; apply matches_key.
Qed.

Lemma later_user d d' u u' :
  later d d' → wf d' → u ∈ Console.users d → u' ∈ Console.users d' → Account.id u' = Account.id u → row_le u u'.
Proof.
  intros [Hall _] Hwf Hu Hu' Hid. apply list_elem_of_lookup in Hu as [i Hi].
  destruct (Forall2_lookup_l _ _ _ _ _ Hall Hi) as (x & Hx & Hle). apply list_elem_of_lookup_2 in Hx.
  assert (u' = x) as ->; [|done]. apply (NoDup_fmap_inj Account.id (Console.users d')); [apply Hwf|done|done|].
  destruct Hle as [E _]. congruence.
Qed.

Lemma issue_challenge_ok u tier i now d b t d' :
  issue_challenge sha256 cfg u tier i now d = (Ok (MfaRequired b t), d') →
  t = sign (JWT_SECRET cfg) (mfa_claims u i now) ∧ Console.users d' = Console.users d ∧
  ∃ row, row ∈ Console.challenges d' ∧ Challenge.issued_auth_epoch row = Account.console_auth_epoch u
    ∧ Challenge.user_id row = Account.id u ∧ Challenge.id row = i.
Proof.
  unfold issue_challenge. cbv zeta. intros (x & d1 & H & H2)%eff_bind_ok. injection H2 as _ <- <-. split; [done|].
  apply eff_bind_ok in H as (d0 & d0' & [= <- <-] & H). destruct (existsb _ _); [done|]. injection H as _ <-.
  split; [done|]. eexists. split; [apply elem_of_app; right; by left|done].
Qed.

Lemma not_a_challenge v fr now d b t d' :
  (s <-! issueSessionWithClient sha256 cfg v fr now ; eff_ret (SignedIn s)) d ≠ (Ok (MfaRequired b t), d').
Proof. intros (s & d1 & _ & H)%eff_bind_ok. done. Qed.

Lemma signIn_tx_challenge v col tier otp secret i fr now d b t d' :
  signIn_tx sha256 cfg hmac_sha1 mfa_env is_production v col tier otp secret i fr now d = (Ok (MfaRequired b t), d') →
  ∃ u, u ∈ Console.users d ∧ Account.id u = Account.id v ∧
    issue_challenge sha256 cfg u tier i now d = (Ok (MfaRequired b t), d').
Proof.
  intros (u & d1 & H1 & H)%eff_bind_ok. apply lockedUser_ok in H1 as (-> & Hu & Hi).
  apply eff_bind_ok in H as (x & d2 & H2 & H). apply requireSnapshot_ok in H2 as (-> & _). destruct (_ || _); [done|].
  apply eff_bind_ok in H as (d3 & d4 & [= <- <-] & H). exists u. split; [done|]. split; [done|].
  destruct (isMfaRequired _ _ _ _); [|by apply not_a_challenge in H]. destruct otp as [o|]; [|done].
  destruct (_ && _); [|done]. destruct (negb _); [done|]. apply eff_bind_ok in H as (good & d5 & _ & H).
  destruct good; [by apply not_a_challenge in H|done].
Qed.

Lemma signIn_console v col tier otp rnd other i fr now w r w' :
  signIn sha256 cfg hkdf sha256_raw vcfg hmac_sha1 mfa_env is_production v col tier otp rnd other i fr now w = (Ok r, w') →
  ∃ secret w0, (if Account.totp_enabled v && truthy otp then openSecret hkdf sha256_raw vcfg rnd other v (Account.totp_secret v)
                else eff_ret None) w = (Ok secret, w0) ∧
    signIn_tx sha256 cfg hmac_sha1 mfa_env is_production v col tier otp secret i fr now (console w) = (Ok r, console w').
Proof.
  intros (secret & w1 & H1 & H)%eff_bind_ok. exists secret, w1. split; [done|]. assert (console w1 = console w) as <-.
  { destruct (_ && _); [|by injection H1 as _ <-]. unfold openSecret, on_vault in H1.
    destruct (Vault.openForOrg _ _ _ _ _ _ _ _). by injection H1 as _ <-. }
  unfold on_console in H. destruct (transaction _ _) as [o d] eqn:E. injection H as -> <-. by apply SessionFacts.transaction_ok in E.
Qed.

(** A password step dies with the credentials it was checked against: after
    any change of the account's passwords, organisation, status, role or
    authenticator, even one that was undone again, a challenge issued before it
    completes no sign-in. *)
Theorem stale_challenge_refused v col tier otp rnd other i fr now w b t w1 w2 w3 u1 u2 caller code rc rnd' other' fr' now' :
  wf (console w) →
  signIn sha256 cfg hkdf sha256_raw vcfg hmac_sha1 mfa_env is_production v col tier otp rnd other i fr now w = (Ok (MfaRequired b t), w1) →
  rtc step w1 w2 → rtc step w2 w3 → u1 ∈ Console.users (console w1) → u2 ∈ Console.users (console w2) →
  Account.id u1 = Account.id v → Account.id u2 = Account.id v → auth u2 ≠ auth u1 →
  passwordStepOnly caller = true → c_token caller = t →
  ∀ r, (complete sha256 cfg hkdf sha256_raw vcfg hmac_sha1 caller code rc rnd' other' fr' now' w3).1 ≠ Ok r.
Proof.
  intros Hwf Hrun Hst Hst' Hu1 Hu2 Hi1 Hi2 Hne Hpw Ht [s b'] Hc.
  destruct (step_later w w1) as [Hwf1 _]; [by eapply signIn_step|done|].
  destruct (steps_later _ _ Hst Hwf1) as [Hwf2 L2]. destruct (steps_later _ _ Hst' Hwf2) as [Hwf3 L3].
  apply signIn_console in Hrun as (secret & w0 & _ & Htx). apply signIn_tx_challenge in Htx as (u & Hu & Hi & Hissue).
  apply issue_challenge_ok in Hissue as (Htok & Husers & row & Hrow & He & Hru & Hrid).
  assert (u1 = u) as -> by (rewrite Husers in Hu1; apply (NoDup_fmap_inj Account.id (Console.users (console w))); [apply Hwf|done|done|congruence]).
  destruct (complete _ _ _ _ _ _ caller _ _ _ _ _ _ w3) as [o w4] eqn:E. simpl in Hc. subst o.
  apply complete_console in E as (secret' & Htx & _). apply eff_bind_ok in Htx as ([[u3 p] c] & d3 & H3 & _).
  apply callerLocked_ok in H3 as (-> & Hu3 & _ & _ & Hv & Hp). destruct (Hp Hpw) as (row3 & _ & Hin3 & Hm3 & _ & He3).
  rewrite Ht, Htok in Hv. apply verify_decode in Hv as [Hd _]. rewrite decode_sign in Hd. injection Hd as <-.
  destruct (l_challenges _ _ L2 row Hrow) as (row2 & Hin2 & Hk2 & _). destruct (l_challenges _ _ L3 row2 Hin2) as (row2' & Hin2' & Hk2' & _).
  rewrite <- Hk2' in Hk2. unfold challenge_key in Hk2, Hk2'. injection Hk2 as K1 K2 _ _ K5 _ _.
  unfold challenge_matches, uuid_is in Hm3. simpl in Hm3. b2p.
  assert (row3 = row2') as ->. { apply (NoDup_fmap_inj challenge_id (Console.challenges (console w3))); [apply Hwf3|done|done|]. unfold challenge_id. congruence. }
  pose proof (later_user _ _ _ _ L2 Hwf2 Hu1 Hu2 ltac:(congruence)) as (_ & Hle1 & Heq1).
  pose proof (later_user _ _ _ _ L3 Hwf3 Hu2 Hu3 ltac:(congruence)) as (_ & Hle2 & _). apply Hne, Heq1. lia.
Qed.

(** *** The enrolled authenticator *)

Lemma resolveAccessToken_reads blacklisted t now : reads (resolveAccessToken sha256 cfg blacklisted t now).
Proof.
  intros d. unfold resolveAccessToken. destruct (verify _ _ _) as [c|]; [|done]. destruct (opt_is _ _); [done|].
  destruct (sid c); [|done]. destruct (_ || _); [done|]. destruct (blacklisted t); [done|]. unfold eff_bind, get.
  destruct (select1 _ (Console.users d)); [|done]. destruct (select1 _ (Console.families d)); [|done]. cbv zeta.
  destruct (_ || _); [done|]. destruct (negb _); [done|]. by destruct (revoked_token _ _ _).
Qed.

Lemma resolveCaller_user blacklisted t now d caller d' :
  resolveCaller sha256 cfg blacklisted t now d = (Ok caller, d') → c_user caller ∈ Console.users d.
Proof.
  unfold resolveCaller. intros H.
  assert (∃ c, (lockedUser (or_else (subject c) "") d).1 = Ok (c_user caller)) as (c & Hc).
  { destruct (verify _ _ _) as [c|]; [|done]. exists c.
    match type of H with (match ?m with _ => _ end) = _ => destruct m as [[x|[st|] m0] d1] eqn:E; [|done..] end.
    injection H as -> <-. apply eff_bind_ok in E as (x & d2 & H2 & E). apply eff_bind_ok in E as (u & d3 & H3 & E).
    apply eff_bind_ok in E as (y & d4 & H4 & E). injection E as <- _. simpl.
    assert (d2 = d) as ->; [|by rewrite H3]. destruct (opt_is _ _); [by injection H2|].
    apply eff_bind_ok in H2 as (z & d5 & H5 & H2). injection H2 as _ <-.
    by apply (reads_run _ _ _ _ (resolveAccessToken_reads _ _ _)) in H5. }
  destruct (lockedUser _ d) as [o d1] eqn:E. simpl in Hc. subst o. by apply lockedUser_ok in E as (_ & ? & _).
Qed.

(** The epoch of the row a caller was resolved from pins its columns. *)
Lemma caller_pinned w0 w caller now u p c d :
  wf (console w0) → c_user caller ∈ Console.users (console w0) → rtc step w0 w →
  callerLocked sha256 cfg caller now (console w) = (Ok (u, p, c), d) → auth u = auth (c_user caller).
Proof.
  intros Hwf Hin Hst Hc. destruct (steps_later _ _ Hst Hwf) as [Hwf' L]. apply callerLocked_ok in Hc as (-> & Hu & Hi & He & _).
  by apply (later_user _ _ _ _ L Hwf' Hin Hu Hi).
Qed.

Lemma codes_update_keeps_auth i l d a d' u :
  update_user i (λ u, u <| Account.totp_recovery_codes := l |>) d = (Ok a, d') → wf d → u ∈ Console.users d → Account.id u = i →
  ∃ u', u' ∈ Console.users d' ∧ Account.id u' = Account.id u ∧ auth u' = auth u.
Proof.
  intros Hrun Hwf Hu Hi. apply eff_bind_ok in Hrun as (d0 & d1 & [= <- <-] & Hrun).
  assert (select1 (λ u, (Account.id u =? i)%string) (Console.users d) = Some u) as Hs.
  { apply (select1_unique Account.id); [apply Hwf|done|by apply String.eqb_eq|]. intros y Hy%String.eqb_eq. congruence. }
  rewrite Hs in Hrun. unfold advance_console_auth_epoch in Hrun.
  assert (authentication_changed u (u <| Account.totp_recovery_codes := l |>) = false) as E.
  { unfold authentication_changed. apply negb_false_iff. simpl.
    rewrite !bool_decide_true, !String.eqb_refl by done. done. }
  rewrite E in Hrun. destruct (_ <? _); [done|]. injection Hrun as _ <-. exists (u <| Account.totp_recovery_codes := l |>).
  split; [|done]. apply elem_of_update. exists u. split; [done|]. by rewrite (proj2 (String.eqb_eq _ _)).
Qed.

Lemma check_factor_keeps_auth u code rc sealed secret now d a d' :
  check_factor sha256 hmac_sha1 u code rc sealed secret now d = (Ok a, d') → wf d → u ∈ Console.users d →
  ∃ u', u' ∈ Console.users d' ∧ Account.id u' = Account.id u ∧ auth u' = auth u.
Proof.
  unfold check_factor. intros H Hwf Hu. destruct (truthy rc).
  - destruct (Totp.verifyAndConsumeRecoveryCode _ _ _) as [valid rest]. destruct valid; [|done].
    eapply codes_update_keeps_auth; [exact H|done..].
  - destruct (truthy code); [|done]. destruct (negb _); [done|]. apply eff_bind_ok in H as (good & d1 & H1 & H).
    apply verify_code_untouched in H1 as [Hus _]. destruct good; [|done]. injection H as _ <-. exists u. by rewrite Hus.
Qed.

Lemma auth_enabled u v : auth u = auth v → Account.totp_enabled u = Account.totp_enabled v ∧ Account.totp_secret u = Account.totp_secret v.
Proof. by intros [=]. Qed.

Lemma setup_console caller code sb cb rnd rnd' other other' now w x w' :
  setup sha256 cfg hkdf sha256_raw vcfg hmac_sha1 caller code sb cb rnd rnd' other other' now w = (Ok x, w') →
  ∃ prior sealed codes, setup_tx sha256 cfg hmac_sha1 caller code prior sealed codes now (console w) = (Ok tt, console w').
Proof.
  intros (prior & w2 & H2 & E)%eff_bind_ok. apply eff_bind_ok in E as (sealed & w3 & H3 & E).
  apply eff_bind_ok in E as (y & w4 & H4 & E). injection E as _ <-. assert (console w3 = console w) as Hw3.
  { assert (console w2 = console w) as <-.
    { destruct (Account.totp_enabled (c_user caller)); [|by injection H2 as _ <-]. unfold openSecret, on_vault in H2.
      destruct (Vault.openForOrg _ _ _ _ _ _ _ _). by injection H2 as _ <-. }
    unfold on_vault in H3. destruct (Vault.sealForOrg _ _ _ _ _ _ _ _). by injection H3 as _ <-. }
  unfold on_console in H4. destruct (transaction _ _) as [o d] eqn:E. injection H4 as -> <-.
  apply SessionFacts.transaction_ok in E. rewrite Hw3 in E. destruct y. eauto.
Qed.

(** Spending the proof and issuing the session leaves the accounts alone. *)
Lemma proof_spent_users p v c i fr now d s d' :
  match p with
  | ByChallenge row => consume (Challenge.id row) now ;! issueSessionWithClient sha256 cfg (as_verified v (Challenge.access_tier row)) fr now
  | BySession _ => changeRootGrantWithClient sha256 cfg i (default "" (sid c)) false None None fr now
  end d = (Ok s, d') → Console.users d' = Console.users d.
Proof.
  intros Hc. destruct p as [row|f]; [|by apply changeRootGrantWithClient_untouched in Hc as [-> _]].
  apply eff_bind_ok in Hc as (z & d4 & H4 & Hc). apply issueSessionWithClient_untouched in Hc as [-> _].
  apply eff_bind_ok in H4 as (? & ? & [= <- <-] & H4). apply eff_bind_ok in H4 as (? & ? & [= <- <-] & H4).
  destruct (negb _); [done|]. by injection H4 as _ <-.
Qed.

(** A password alone never replaces an enrolled authenticator: a caller who
    has only passed the password step, whenever it was resolved, can neither set
    up a new authenticator on an account that has one by then nor complete a step
    that changes or removes it. *)
Theorem password_step_keeps_authenticator blacklisted t now0 w0 d0 caller w u code rc rnd other fr now r w' currentCode sb cb rnd1 rnd2 o1 o2 now1 :
  wf (console w0) → resolveCaller sha256 cfg blacklisted t now0 (console w0) = (Ok caller, d0) → passwordStepOnly caller = true →
  rtc step w0 w → u ∈ Console.users (console w) → Account.id u = Account.id (c_user caller) → Account.totp_enabled u = true →
  (∀ x, (setup sha256 cfg hkdf sha256_raw vcfg hmac_sha1 caller currentCode sb cb rnd1 rnd2 o1 o2 now1 w).1 ≠ Ok x) ∧
  (complete sha256 cfg hkdf sha256_raw vcfg hmac_sha1 caller code rc rnd other fr now w = (Ok r, w') →
   ∃ u', u' ∈ Console.users (console w') ∧ Account.id u' = Account.id u
     ∧ Account.totp_enabled u' = true ∧ Account.totp_secret u' = Account.totp_secret u).
Proof.
  intros Hwf Hres Hpw Hst Hu Hi Hen. pose proof (resolveCaller_user _ _ _ _ _ _ Hres) as Hin.
  destruct (steps_later _ _ Hst Hwf) as [Hwf' _].
  assert (∀ now x p c d', callerLocked sha256 cfg caller now (console w) = (Ok (x, p, c), d') →
    x = u ∧ auth u = auth (c_user caller) ∧ d' = console w) as Hlocked.
  { intros nw x p c d' Hl. pose proof (caller_pinned _ _ _ _ _ _ _ _ Hwf Hin Hst Hl) as Ha.
    apply callerLocked_ok in Hl as (-> & Hx & Hxi & _). assert (x = u) as ->; [|done].
    apply (NoDup_fmap_inj Account.id (Console.users (console w))); [apply Hwf'|done|done|congruence]. }
  split.
  - intros x Hx. destruct (setup _ _ _ _ _ _ _ _ _ _ _ _ _ _ _ w) as [o w1] eqn:E. simpl in Hx. subst o.
    apply setup_console in E as (prior & sealed & codes & E). apply eff_bind_ok in E as ([[x' p] c] & d1 & Hl & E).
    apply Hlocked in Hl as (-> & _ & _). rewrite Hen, Hpw in E. done.
  - intros Hc. destruct r as [s b]. apply complete_console in Hc as (secret & Hc & _).
    apply eff_bind_ok in Hc as ([[x p] c] & d1 & Hl & Hc). apply Hlocked in Hl as (-> & Ha & ->).
    apply eff_bind_ok in Hc as (su & d2 & Hf & Hc). unfold confirming in Hf. rewrite Hpw in Hf.
    destruct (auth_enabled _ _ Ha) as [He _]. rewrite <- He, Hen in Hf. simpl in Hf.
    apply eff_bind_ok in Hf as (y & d3 & Hf & Hret). injection Hret as <- <-.
    destruct (check_factor_keeps_auth _ _ _ _ _ _ _ _ _ Hf Hwf' Hu) as (u' & Hu' & Hi' & Ha').
    exists u'. destruct (auth_enabled _ _ Ha') as [He' Hs']. apply proof_spent_users in Hc. rewrite Hc.
    split; [done|]. split; [done|]. split; congruence.
Qed.

(** *** The second factor *)

Lemma verify_code_true code secret now d d' :
  verify_code hmac_sha1 code secret now d = (Ok true, d') → Totp.verifyTotp hmac_sha1 code secret 1 30 now 6 = Ok true.
Proof. unfold verify_code. destruct (Totp.verifyTotp _ _ _ _ _ _ _); [|done]. by intros [= -> _]. Qed.

(** The code was one of the secret that the stored value opens to. *)
Definition code_of (rnd : Vault.randoms) (other : Vault.t → Vault.t) (owner : Account.t) (stored : option string) (w : world)
    (code : string) (now : Z) : Prop :=
  ∃ secret w0, openSecret hkdf sha256_raw vcfg rnd other owner stored w = (Ok secret, w0) ∧
    Totp.verifyTotp hmac_sha1 code secret 1 30 now 6 = Ok true.

Ltac refuse H := match type of H with (if ?b then _ else _) _ = _ => destruct b eqn:?; [done|] end.

Lemma signIn_tx_factor v col tier otp secret i fr now d s d' :
  signIn_tx sha256 cfg hmac_sha1 mfa_env is_production v col tier otp secret i fr now d = (Ok (SignedIn s), d') →
  ∃ u, u ∈ Console.users d ∧ Account.id u = Account.id v ∧ Account.console_auth_epoch u = Account.console_auth_epoch v ∧
    (isMfaRequired mfa_env is_production u d = false ∨
     ∃ code, otp = Some code ∧ code ≠ "" ∧ Account.totp_enabled u = true ∧ Account.totp_secret u = Account.totp_secret v ∧
       Totp.verifyTotp hmac_sha1 code secret 1 30 now 6 = Ok true).
Proof.
  intros (u & d1 & H1 & H)%eff_bind_ok. apply lockedUser_ok in H1 as (-> & Hu & Hi).
  apply eff_bind_ok in H as (x & d2 & H2 & H). apply requireSnapshot_ok in H2 as (-> & He). refuse H.
  apply eff_bind_ok in H as (d3 & d4 & [= <- <-] & H). exists u. split; [done|]. split; [done|]. split; [done|].
  destruct (isMfaRequired mfa_env is_production u d) eqn:Em; [right|by left].
  destruct otp as [o|]; [|by apply eff_bind_ok in H as (? & ? & _ & [=])].
  destruct (Account.totp_enabled u && _) eqn:Een; [|by apply eff_bind_ok in H as (? & ? & _ & [=])].
  refuse H. apply eff_bind_ok in H as (good & d5 & Hv & H). destruct good; [|done]. b2p.
  apply verify_code_true in Hv. eauto 10.
Qed.

Lemma confirm_pending_factor caller c u code sealed secret now d x d' :
  confirm_pending hmac_sha1 caller c u code sealed secret now d = (Ok x, d') →
  sealed = Account.totp_pending_secret u ∧ Totp.verifyTotp hmac_sha1 (default "" code) secret 1 30 now 6 = Ok true.
Proof.
  unfold confirm_pending. intros H. refuse H. refuse H. refuse H. refuse H. apply eff_bind_ok in H as (good & d5 & Hv & H).
  destruct good; [|done]. apply verify_code_true in Hv. by b2p.
Qed.

Lemma check_factor_factor u code rc sealed secret now d x d' :
  check_factor sha256 hmac_sha1 u code rc sealed secret now d = (Ok x, d') →
  truthy rc = false ∧ sealed = Account.totp_secret u ∧ Totp.verifyTotp hmac_sha1 (default "" code) secret 1 30 now 6 = Ok true
  ∨ truthy rc = true ∧ Totp.hashRecoveryCode sha256 (default "" rc) ∈ Account.totp_recovery_codes u.
Proof.
  unfold check_factor. intros H. destruct (truthy rc).
  - right. rewrite TotpFacts.consume_spec in H. destruct (negb _ && bool_decide _) eqn:E; [|done]. by b2p.
  - left. destruct (truthy code); [|done]. refuse H. apply eff_bind_ok in H as (good & d5 & Hv & H). destruct good; [|done].
    apply verify_code_true in Hv. by b2p.
Qed.

(** C19. No session without the second factor: a sign-in that answers with a
    session was for an account the policy does not require MFA of, or it carried
    a code of the secret the account still has enrolled; the second step answers
    with a session only for a code of the secret being confirmed, for a code of
    the enrolled secret, or for a recovery code stored for the account. *)
Theorem session_needs_second_factor :
  (∀ v col tier otp rnd other i fr now w s w',
    signIn sha256 cfg hkdf sha256_raw vcfg hmac_sha1 mfa_env is_production v col tier otp rnd other i fr now w = (Ok (SignedIn s), w') →
    ∃ u, u ∈ Console.users (console w) ∧ Account.id u = Account.id v ∧ Account.console_auth_epoch u = Account.console_auth_epoch v ∧
      (isMfaRequired mfa_env is_production u (console w) = false ∨
       ∃ code, otp = Some code ∧ code_of rnd other v (Account.totp_secret u) w code now)) ∧
  (∀ caller code rc rnd other fr now w s confirmed w',
    complete sha256 cfg hkdf sha256_raw vcfg hmac_sha1 caller code rc rnd other fr now w = (Ok (s, confirmed), w') →
    ∃ u, u ∈ Console.users (console w) ∧ Account.id u = Account.id (c_user caller) ∧
      if confirming caller then code_of rnd other (c_user caller) (Account.totp_pending_secret u) w (default "" code) now
      else code_of rnd other (c_user caller) (Account.totp_secret u) w (default "" code) now ∨
           Totp.hashRecoveryCode sha256 (default "" rc) ∈ Account.totp_recovery_codes u).
Proof.
  split.
  - intros v col tier otp rnd other i fr now w s w' (secret & w0 & Hs & Htx)%signIn_console.
    apply signIn_tx_factor in Htx as (u & Hu & Hi & He & Hf). exists u. split; [done|]. split; [done|]. split; [done|].
    destruct Hf as [?|(code & -> & Hne & _ & E & Hv)]; [by left|right]. exists code. split; [done|].
    destruct (Account.totp_enabled v); simpl in Hs; [|by injection Hs as <- _]. rewrite (proj2 (String.eqb_neq _ _) Hne) in Hs. exists secret, w0. by rewrite E.
  - intros caller code rc rnd other fr now w s b w' (secret & Hc & w0 & Hs)%complete_console.
    apply eff_bind_ok in Hc as ([[u p] c] & d1 & Hl & Hc). apply callerLocked_ok in Hl as (-> & Hu & Hi & _).
    exists u. split; [done|]. split; [done|]. apply eff_bind_ok in Hc as (su & d2 & Hf & _). destruct (confirming caller).
    + apply confirm_pending_factor in Hf as [E Hv]. rewrite andb_false_r in Hs. exists secret, w0. by rewrite <- E.
    + apply eff_bind_ok in Hf as (y & d3 & Hf & _). apply check_factor_factor in Hf as [(Hr & E & Hv)|[_ Hr]]; [left|by right].
      rewrite Hr in Hs. exists secret, w0. by rewrite <- E.
Qed.

End Histories.
End MfaFacts.

(** ** An enrolment *)

Module MfaSamples.
Import VaultSamples Sessions Mfa MfaFacts SessionSamples.

Abbreviation sample_hmac := TotpFacts.sample_hmac.
Definition sample_vault : Vault.t := Vault.mk ["org-a"] [].
Definition vcfg1 : Vault.config := VaultSamples.first_config.
Definition rnd1 : Vault.randoms := VaultSamples.drawn_now.
Definition hkdf1 := Vault.utf8.
Definition raw1 := VaultSamples.digest.
Definition env_all : option string := Some "all".

Definition start : world := mk_world tables sample_vault.

Definition now1 : Z := 1000000000.
Definition chal1 : string := "00000000-0000-4000-8000-0000000000aa".
Definition chal2 : string := "00000000-0000-4000-8000-0000000000bb".

Abbreviation sign_in v i fr := (signIn digest sample_cfg hkdf1 raw1 vcfg1 sample_hmac env_all true v password_hash "standard" None rnd1 id i fr).
Abbreviation finish caller code rc := (complete digest sample_cfg hkdf1 raw1 vcfg1 sample_hmac caller code rc rnd1 id).

Definition first_step : outcome Mfa.signed_in * world := Eval vm_compute in sign_in ann chal1 fresh1 now1 start.
Definition challenged : world := Eval vm_compute in first_step.2.
Definition mfa_token1 : string := Eval vm_compute in match first_step.1 with Ok (MfaRequired _ t) => t | _ => "" end.

Definition no_caller : caller := mk_caller "" (mk_claims None None None None None None None None None None None) ann false.
Definition caller1 : caller :=
  Eval vm_compute in match (resolveCaller digest sample_cfg (λ _, false) mfa_token1 now1 (console challenged)).1 with Ok c => c | _ => no_caller end.

Definition seed : list Z := [10; 20; 30; 40; 50].
Definition pending : world :=
  Eval vm_compute in (setup digest sample_cfg hkdf1 raw1 vcfg1 sample_hmac caller1 None seed [[1; 2; 3; 4; 5]] rnd1 rnd1 id id now1 challenged).2.
Definition caller2 : caller :=
  Eval vm_compute in match (resolveCaller digest sample_cfg (λ _, false) mfa_token1 now1 (console pending)).1 with Ok c => c | _ => no_caller end.
Definition code1 : string := Eval vm_compute in Totp.otp_at sample_hmac seed (Totp.counter_of now1 30) 6.

Definition second_step : outcome (session * bool) * world := Eval vm_compute in finish caller2 (Some code1) None fresh1 now1 pending.
Definition enrolled : world := Eval vm_compute in second_step.2.
Definition answer1 : session * bool :=
  Eval vm_compute in match second_step.1 with Ok r => r | _ => (mk_session "" "" (mk_principal "" "" "" "" "" "" None), false) end.

Lemma wf_by_computation d : bool_decide (NoDup (Account.id <$> Console.users d)) && bool_decide (NoDup (challenge_id <$> Console.challenges d)) = true → wf d.
Proof. intros H. b2p. by split. Qed.

Lemma second_step_run : finish caller2 (Some code1) None fresh1 now1 pending = (Ok answer1, enrolled).
Proof. vm_compute. reflexivity. Qed.

Lemma challenge_completes_once_witness :
  (finish caller2 None (Some "01020-30405") fresh2 now1 enrolled).1 ≠ Ok answer1.
Proof.
  apply (challenge_completes_once digest sample_cfg hkdf1 raw1 vcfg1 sample_hmac env_all true caller2 (Some code1) None rnd1 id fresh1 now1
    pending answer1 enrolled enrolled caller2); [by apply wf_by_computation; vm_compute|done|apply second_step_run|apply rtc_refl|done|done].
Defined.

(** The password is changed while the second step is outstanding. *)
Definition new_password (u : Account.t) : Account.t := u <| Account.password_hash := Some "h2" |>.
Definition changed : world :=
  Eval vm_compute in mk_world (transaction (update_user "usr-1" new_password) (console pending)).2 (vault pending).
Definition ann_changed : Account.t := Eval vm_compute in default ann (head (Console.users (console changed))).
Definition ann_pending : Account.t := Eval vm_compute in default ann (head (Console.users (console pending))).

Lemma first_step_run : sign_in ann chal1 fresh1 now1 start = (Ok (MfaRequired true mfa_token1), challenged).
Proof. vm_compute. reflexivity. Qed.

Abbreviation mfa_step := (step digest sample_cfg hkdf1 raw1 vcfg1 sample_hmac env_all true).

Lemma pending_steps : rtc mfa_step challenged pending.
Proof. apply rtc_once. exact (step_setup digest sample_cfg hkdf1 raw1 vcfg1 sample_hmac env_all true caller1 None seed [[1; 2; 3; 4; 5]] rnd1 rnd1 id id now1 challenged). Qed.

Lemma changed_steps : rtc mfa_step challenged changed.
Proof.
  eapply rtc_r; [apply pending_steps|]. change pending with (mk_world (console pending) (vault pending)).
  apply (step_session digest sample_cfg hkdf1 raw1 vcfg1 sample_hmac env_all true (console pending) (console changed) (vault pending)).
  exact (step_update_user digest sample_cfg "usr-1" new_password (console pending) (λ u, eq_refl)).
Qed.

Lemma stale_challenge_refused_witness : (finish caller2 (Some code1) None fresh1 now1 changed).1 ≠ Ok answer1.
Proof.
  apply (stale_challenge_refused digest sample_cfg hkdf1 raw1 vcfg1 sample_hmac env_all true ann password_hash "standard" None rnd1 id chal1 fresh1 now1
    start true mfa_token1 challenged changed changed ann ann_changed caller2);
    [by apply wf_by_computation; vm_compute|apply first_step_run|apply changed_steps|apply rtc_refl|by left|by left|done|done|by vm_compute|done|by vm_compute].
Defined.

(** A later sign-in finishes with a recovery code. *)
Definition ann_enrolled : Account.t := Eval vm_compute in default ann (head (Console.users (console enrolled))).
Definition again : outcome Mfa.signed_in * world := Eval vm_compute in sign_in ann_enrolled chal2 fresh2 now1 enrolled.
Definition asked : world := Eval vm_compute in again.2.
Definition mfa_token2 : string := Eval vm_compute in match again.1 with Ok (MfaRequired _ t) => t | _ => "" end.
Definition resolved3 : outcome caller * Console.t := Eval vm_compute in resolveCaller digest sample_cfg (λ _, false) mfa_token2 now1 (console asked).
Definition caller3 : caller := Eval vm_compute in match resolved3.1 with Ok c => c | _ => no_caller end.
Definition fresh3 : fresh := mk_fresh "00000000-0000-4000-8000-000000000003" "g3" "t3" "j7" "j8" "j9".
Definition recovered_run : outcome (session * bool) * world := Eval vm_compute in finish caller3 None (Some "01020-30405") fresh3 now1 asked.
Definition recovered : world := Eval vm_compute in recovered_run.2.
Definition answer3 : session * bool :=
  Eval vm_compute in match recovered_run.1 with Ok r => r | _ => (mk_session "" "" (mk_principal "" "" "" "" "" "" None), false) end.

Lemma recovered_ok : finish caller3 None (Some "01020-30405") fresh3 now1 asked = (Ok answer3, recovered).
Proof. vm_compute. reflexivity. Qed.

Lemma password_step_keeps_authenticator_witness :
  ∃ u', u' ∈ Console.users (console recovered) ∧ Account.id u' = "usr-1" ∧ Account.totp_enabled u' = true
    ∧ Account.totp_secret u' = Account.totp_secret ann_enrolled.
Proof.
  apply (password_step_keeps_authenticator digest sample_cfg hkdf1 raw1 vcfg1 sample_hmac env_all true (λ _, false) mfa_token2 now1
    asked (console asked) caller3 asked ann_enrolled None (Some "01020-30405") rnd1 id fresh3 now1 answer3 recovered None seed [] rnd1 rnd1 id id now1);
    [by apply wf_by_computation; vm_compute|by vm_compute|done|apply rtc_refl|by left|done|done|apply recovered_ok].
Defined.

Lemma session_needs_second_factor_witness :
  code_of hkdf1 raw1 vcfg1 sample_hmac rnd1 id (c_user caller2) (Account.totp_pending_secret ann_pending) pending code1 now1.
Proof.
  pose proof (session_needs_second_factor digest sample_cfg hkdf1 raw1 vcfg1 sample_hmac env_all true) as [_ H].
  destruct answer1 as [s b] eqn:E. specialize (H caller2 (Some code1) None rnd1 id fresh1 now1 pending s b enrolled).
  rewrite second_step_run, E in H. destruct (H eq_refl) as (u & Hu & _ & Hc). apply list_elem_of_singleton in Hu as ->. exact Hc.
Defined.

End MfaSamples.
