(* ===== verification/Compartments.v ===== *)
(** * Compartments

    [services/CompartmentService.js]: sub-networks of an organisation, their
    peerings and their members.  Hidden compartments exist for the root access
    tier only.  The fields of a request have their declared types; audit events
    are left out. *)

From S2P Require Import Prelude Order Js Db Encoding Acl.

Module Compartments.

Definition MAX_MEMBERS_PER_REQUEST : Z := 1000.
Definition is_root (accessTier : string) : bool := (accessTier =? "root")%string.

(** The constraints of the table. *)
Definition row_ok (d : Db.t) (c : Compartment.t) : bool :=
  (len (Compartment.id c) <=? 64) && (len (Compartment.name c) <=? 128) && (len (Compartment.slug c) <=? 128) &&
  (len (Compartment.subnet_cidr c) <=? 45) &&
  existsb (λ o, (Org.id o =? Compartment.organization_id c)%string) (Db.organizations d) &&
  negb (existsb (λ x, (Compartment.organization_id x =? Compartment.organization_id c)%string &&
                      (Compartment.slug x =? Compartment.slug c)%string) (Db.compartments d)).

Definition insert_compartment (c : Compartment.t) : eff Db.t unit :=
  d <-! get ;
  if row_ok d c && negb (existsb (λ x, (Compartment.id x =? Compartment.id c)%string) (Db.compartments d))
  then modify (λ d, d <| Db.compartments ::= λ l, l ++ [c] |>)
  else db_error.

(** ON CONFLICT (id) DO NOTHING *)
Definition ensureDefaultCompartment (organizationId : string) (now : Z) : eff Db.t unit :=
  let c := Compartment.mk ("cmp-" +:+ organizationId) organizationId "Default Compartment" "default" "100.64.0.0/24" false now in
  d <-! get ;
  if existsb (λ x, (Compartment.id x =? Compartment.id c)%string) (Db.compartments d) then eff_ret tt else insert_compartment c.

Section WithCollation.
Context {Coll : Collation}.

Definition compartment_order : Compartment.t → Compartment.t → Z :=
  cmp_lex (cmp_on Compartment.created_at cmp_Z) (cmp_on Compartment.name collate).

Definition visible (organizationId accessTier : string) (c : Compartment.t) : bool :=
  (Compartment.organization_id c =? organizationId)%string && (is_root accessTier || negb (Compartment.is_hidden c)).

Definition select_compartments (organizationId accessTier : string) (d : Db.t) : list Compartment.t :=
  js_sort compartment_order (where_ (visible organizationId accessTier) (Db.compartments d)).

Definition listCompartments (organizationId accessTier : string) (now : Z) : eff Db.t (list Compartment.t) :=
  d <-! get ;
  match select_compartments organizationId accessTier d with
  | [] =>
      ensureDefaultCompartment organizationId now ;!
      d' <-! get ;
      eff_ret (select_compartments organizationId accessTier d')
  | rows => eff_ret rows
  end.

End WithCollation.

Definition getCompartment (id organizationId accessTier : string) (d : Db.t) : option Compartment.t :=
  match select1 (λ c, (Compartment.id c =? id)%string && (Compartment.organization_id c =? organizationId)%string) (Db.compartments d) with
  | None => None
  | Some c => if Compartment.is_hidden c && negb (is_root accessTier) then None else Some c
  end.

(** [name.toLowerCase().replace(/[^a-z0-9_-]/g, '-')] *)
Definition slug_char (c : ascii) : ascii :=
  if is_lower c || is_digit c || Ascii.eqb c "_" || Ascii.eqb c "-" then c else "-"%char.
Definition slug_of (name : string) : string := map_string slug_char (toLowerCase name).

(** [a || b] *)
Definition or_text (a : option string) (b : string) : string :=
  match a with Some s => if (s =? "")%string then b else s | None => b end.

Definition createCompartment (organizationId name : string) (slug subnetCidr : option string) (isHidden : bool)
    (accessTier rnd : string) (now : Z) : eff Db.t Compartment.t :=
  if (organizationId =? "")%string || (name =? "")%string then throw None "Missing required compartment fields" else
  if isHidden && negb (is_root accessTier)
  then throw None "Forbidden: root access tier required to create hidden compartments" else
  let c := Compartment.mk ("cmp-" +:+ take_string 8 rnd) organizationId name (or_text slug (slug_of name))
             (or_text subnetCidr "100.64.0.0/24") isHidden now in
  insert_compartment c ;! eff_ret c.

Record updates := mk_updates { u_name : option string; u_subnetCidr : option string; u_isHidden : option bool }.

Definition apply_updates (u : updates) (c : Compartment.t) : Compartment.t :=
  c <| Compartment.name := or_text (u_name u) (Compartment.name c) |>
    <| Compartment.subnet_cidr := or_text (u_subnetCidr u) (Compartment.subnet_cidr c) |>
    <| Compartment.is_hidden := default (Compartment.is_hidden c) (u_isHidden u) |>.

Definition provided (o : option string) : bool := match o with Some s => negb (s =? "")%string | None => false end.

Definition is_row (id organizationId : string) (c : Compartment.t) : bool :=
  (Compartment.id c =? id)%string && (Compartment.organization_id c =? organizationId)%string.

Definition updateCompartment (id organizationId : string) (u : updates) (accessTier : string) : eff Db.t (option Compartment.t) :=
  d <-! get ;
  match getCompartment id organizationId accessTier d with
  | None => eff_ret None
  | Some existing =>
      if bool_decide (is_Some (u_isHidden u)) && negb (is_root accessTier)
      then throw None "Forbidden: root access tier required to toggle hidden status" else
      if negb (provided (u_name u)) && negb (provided (u_subnetCidr u)) && negb (bool_decide (is_Some (u_isHidden u)))
      then eff_ret (Some existing) else
      let new := apply_updates u existing in
      if (len (Compartment.name new) <=? 128) && (len (Compartment.subnet_cidr new) <=? 45) then
        modify (λ d, d <| Db.compartments ::= update_where (is_row id organizationId) (apply_updates u) |>) ;! eff_ret (Some new)
      else db_error
  end.

Definition deleteCompartment (id organizationId accessTier : string) : eff Db.t bool :=
  d <-! get ;
  match getCompartment id organizationId accessTier d with
  | None => eff_ret false
  | Some existing =>
      if (Compartment.slug existing =? "default")%string
      then throw None "Cannot delete the default compartment of an organization" else
      modify (delete_compartments (is_row id organizationId)) ;!
      Acl.bumpEpoch "acl" ;!
      eff_ret true
  end.

(** ** Peerings *)

Record peering_view := mk_view { pv_peering : Peering.t; src_name : string; dst_name : string }.

(** The join with both compartments. *)
Definition peering_rows (organizationId accessTier : string) (d : Db.t) : list peering_view :=
  p ← Db.compartment_peerings d;
  s ← where_ (λ c, (Compartment.id c =? Peering.src_compartment_id p)%string) (Db.compartments d);
  t ← where_ (λ c, (Compartment.id c =? Peering.dst_compartment_id p)%string) (Db.compartments d);
  if (Peering.organization_id p =? organizationId)%string &&
     (is_root accessTier || (negb (Compartment.is_hidden s) && negb (Compartment.is_hidden t)))
  then [mk_view p (Compartment.name s) (Compartment.name t)] else [].

Definition listPeeringRules (organizationId accessTier : string) (d : Db.t) : list peering_view :=
  js_sort (λ a b, Peering.created_at (pv_peering a) - Peering.created_at (pv_peering b)) (peering_rows organizationId accessTier d).

Definition connects (organizationId a b : string) (p : Peering.t) : bool :=
  (Peering.organization_id p =? organizationId)%string &&
  (((Peering.src_compartment_id p =? a)%string && (Peering.dst_compartment_id p =? b)%string) ||
   ((Peering.src_compartment_id p =? b)%string && (Peering.dst_compartment_id p =? a)%string)).

Definition insert_peering (p : Peering.t) : eff Db.t unit :=
  d <-! get ;
  if existsb (λ x, (Peering.id x =? Peering.id p)%string ||
                   ((Peering.src_compartment_id x =? Peering.src_compartment_id p)%string &&
                    (Peering.dst_compartment_id x =? Peering.dst_compartment_id p)%string)) (Db.compartment_peerings d)
  then db_error
  else modify (λ d, d <| Db.compartment_peerings ::= λ l, l ++ [p] |>).

Definition createPeeringRule (organizationId srcCompartmentId dstCompartmentId policy accessTier rnd : string) (now : Z)
    : eff Db.t Peering.t :=
  if negb ((policy =? "allow")%string || (policy =? "deny")%string) then throw (Some 400) "policy must be 'allow' or 'deny'" else
  if (srcCompartmentId =? dstCompartmentId)%string then throw (Some 400) "A compartment cannot be peered with itself" else
  d <-! get ;
  match getCompartment srcCompartmentId organizationId accessTier d, getCompartment dstCompartmentId organizationId accessTier d with
  | Some _, Some _ =>
      let p := Peering.mk ("peer-" +:+ take_string 8 rnd) organizationId srcCompartmentId dstCompartmentId policy now in
      modify (λ d, d <| Db.compartment_peerings ::= delete_where (connects organizationId srcCompartmentId dstCompartmentId) |>) ;!
      insert_peering p ;!
      Acl.bumpEpoch "acl" ;!
      eff_ret p
  | _, _ => throw (Some 404) "Compartment not found"
  end.

Definition is_peering (id organizationId : string) (p : Peering.t) : bool :=
  (Peering.id p =? id)%string && (Peering.organization_id p =? organizationId)%string.

Definition deletePeeringRule (id organizationId : string) : eff Db.t bool :=
  d <-! get ;
  match where_ (is_peering id organizationId) (Db.compartment_peerings d) with
  | [] => eff_ret false
  | _ =>
      modify (λ d, d <| Db.compartment_peerings ::= delete_where (is_peering id organizationId) |>) ;!
      Acl.bumpEpoch "acl" ;!
      eff_ret true
  end.

(** ** Members *)

Definition in_hidden (d : Db.t) (n : Node.t) : bool :=
  existsb (λ c, opt_is (Node.compartment_id n) (Compartment.id c) && Compartment.is_hidden c) (Db.compartments d).

Definition movable (d : Db.t) (organizationId accessTier : string) (nodeIds : list string) (n : Node.t) : bool :=
  bool_decide (Node.id n ∈ nodeIds) && (Acl.org_of n =? organizationId)%string && (is_root accessTier || negb (in_hidden d n)).

Definition setMembers (compartmentId organizationId : string) (nodeIds : list string) (accessTier : string)
    : eff Db.t (option (list string)) :=
  if bool_decide (nodeIds = []) || existsb (λ i, (i =? "")%string) nodeIds
  then throw (Some 400) "node_ids must be a non-empty array of node ids" else
  if MAX_MEMBERS_PER_REQUEST <? Z.of_nat (length nodeIds) then throw (Some 400) "At most 1000 nodes per request" else
  d <-! get ;
  match getCompartment compartmentId organizationId accessTier d with
  | None => eff_ret None
  | Some _ =>
      let moves := movable d organizationId accessTier nodeIds in
      modify (λ d, d <| Db.nodes ::= update_where moves (λ n, n <| Node.compartment_id := Some compartmentId |>) |>) ;!
      let moved := js_sort c_collate (Node.id <$> where_ moves (Db.nodes d)) in
      (if bool_decide (moved = []) then eff_ret tt else (Acl.bumpEpoch "acl" ;! eff_ret tt)) ;!
      eff_ret (Some moved)
  end.

End Compartments.

(** ** The requests of the console *)

Module CompartmentFacts.
Import Compartments.

Section WithCollation.
Context {Coll : Collation}.
Implicit Types (d : Db.t).

Inductive request :=
  | List_ (now : Z)
  | Create (name : string) (slug subnetCidr : option string) (isHidden : bool) (rnd : string) (now : Z)
  | Update (id : string) (u : updates)
  | Delete (id : string)
  | Peer (src dst policy rnd : string) (now : Z)
  | Unpeer (id : string)
  | SetMembers (id : string) (nodeIds : list string).

Definition perform (org tier : string) (r : request) : eff Db.t unit :=
  match r with
  | List_ now => listCompartments org tier now ;! eff_ret tt
  | Create name slug cidr hidden rnd now => createCompartment org name slug cidr hidden tier rnd now ;! eff_ret tt
  | Update id u => updateCompartment id org u tier ;! eff_ret tt
  | Delete id => deleteCompartment id org tier ;! eff_ret tt
  | Peer src dst policy rnd now => createPeeringRule org src dst policy tier rnd now ;! eff_ret tt
  | Unpeer id => deletePeeringRule id org ;! eff_ret tt
  | SetMembers id ids => setMembers id org ids tier ;! eff_ret tt
  end.

(** The statements a request for [org] at [tier] may issue. *)
Inductive stmt (org tier : string) : Db.t → Db.t → Prop :=
  | S_insert d c :
      row_ok d c = true → existsb (λ x, (Compartment.id x =? Compartment.id c)%string) (Db.compartments d) = false →
      Compartment.organization_id c = org → (Compartment.is_hidden c = true → is_root tier = true) →
      stmt org tier d (d <| Db.compartments ::= λ l, l ++ [c] |>)
  | S_update d id u c :
      getCompartment id org tier d = Some c → (is_Some (u_isHidden u) → is_root tier = true) →
      stmt org tier d (d <| Db.compartments ::= update_where (is_row id org) (apply_updates u) |>)
  | S_delete d id c :
      getCompartment id org tier d = Some c → Compartment.slug c ≠ "default" →
      stmt org tier d (delete_compartments (is_row id org) d)
  | S_unpeer d f :
      (∀ p, f p = true → Peering.organization_id p = org) →
      stmt org tier d (d <| Db.compartment_peerings ::= delete_where f |>)
  | S_peer d p s t :
      Peering.organization_id p = org → Peering.src_compartment_id p ≠ Peering.dst_compartment_id p →
      getCompartment (Peering.src_compartment_id p) org tier d = Some s →
      getCompartment (Peering.dst_compartment_id p) org tier d = Some t →
      (∀ x, x ∈ Db.compartment_peerings d →
        Peering.id x ≠ Peering.id p ∧ connects org (Peering.src_compartment_id p) (Peering.dst_compartment_id p) x = false) →
      stmt org tier d (d <| Db.compartment_peerings ::= λ l, l ++ [p] |>)
  | S_move d id ids c :
      getCompartment id org tier d = Some c →
      stmt org tier d (d <| Db.nodes ::= update_where (movable d org tier ids) (λ n, n <| Node.compartment_id := Some id |>) |>)
  | S_bump d : stmt org tier d (Acl.bumpEpoch "acl" d).2.

#[local] Hint Constructors stmt : core.
#[local] Hint Resolve rtc_refl rtc_once : core.


(** *** Every request is a sequence of such statements *)

Definition issues (org tier : string) {A} (m : eff Db.t A) : Prop := within (stmt org tier) m.

Lemma issues_bind {A B} org tier (m : eff Db.t A) (k : A → eff Db.t B) :
  issues org tier m → (∀ a, issues org tier (k a)) → issues org tier (eff_bind m k).
Proof. apply within_bind. Qed.

Lemma issues_ret {A} org tier (a : A) : issues org tier (eff_ret a).
Proof. apply within_ret. Qed.

Lemma issues_then {A} org tier (m : eff Db.t A) : issues org tier m → issues org tier (m ;! eff_ret tt).
Proof. intros H. apply issues_bind; [done|intros; apply issues_ret]. Qed.

Lemma bump_issues {A} org tier (a : A) d : rtc (stmt org tier) d ((Acl.bumpEpoch "acl" ;! eff_ret a) d).2.
Proof. apply (issues_bind org tier); [intros x; auto|intros; apply issues_ret]. Qed.

Lemma insert_issues org tier c :
  Compartment.organization_id c = org → (Compartment.is_hidden c = true → is_root tier = true) →
  issues org tier (insert_compartment c).
Proof.
  intros Ho Hh d. unfold insert_compartment. read_store. destruct (row_ok d c) eqn:Hr; [|apply rtc_refl].
  destruct (existsb _ _) eqn:He; [apply rtc_refl|]. apply rtc_once. by apply S_insert.
Qed.

Lemma ensure_issues org tier now : issues org tier (ensureDefaultCompartment org now).
Proof.
  intros d. unfold ensureDefaultCompartment. read_store. destruct (existsb _ _); [apply rtc_refl|].
  by apply insert_issues.
Qed.

Lemma list_issues org tier now : issues org tier (listCompartments org tier now).
Proof.
  intros d. unfold listCompartments. read_store. destruct (select_compartments _ _ _); [|apply rtc_refl].
  apply (issues_bind org tier); [apply ensure_issues|]. intros _ d'. apply rtc_refl.
Qed.

Lemma create_issues org tier name slug cidr hidden rnd now :
  issues org tier (createCompartment org name slug cidr hidden tier rnd now).
Proof.
  intros d. unfold createCompartment. destruct (_ || _); [apply rtc_refl|].
  destruct (hidden && _) eqn:Eh; [apply rtc_refl|].
  apply (issues_bind org tier); [|intros; apply issues_ret]. apply insert_issues; [done|]. simpl. intros ->.
  by destruct (is_root tier).
Qed.

Lemma update_issues org tier id u : issues org tier (updateCompartment id org u tier).
Proof.
  intros d. unfold updateCompartment. read_store. destruct (getCompartment id org tier d) as [c|] eqn:Ec; [|apply rtc_refl].
  branch Eh; [apply rtc_refl|]. branch En; [apply rtc_refl|]. branch Ef; [|apply rtc_refl]. apply rtc_once. eapply S_update; [done|]. intros Hs.
  rewrite bool_decide_eq_true_2 in Eh by done. by destruct (is_root tier).
Qed.

Lemma delete_issues org tier id : issues org tier (deleteCompartment id org tier).
Proof.
  intros d. unfold deleteCompartment. read_store. destruct (getCompartment id org tier d) as [c|] eqn:Ec; [|apply rtc_refl].
  destruct (String.eqb_spec (Compartment.slug c) "default"); [apply rtc_refl|].
  eapply rtc_l; [by eapply S_delete|]. apply bump_issues.
Qed.

Lemma connects_spec org a b p :
  connects org a b p = true ↔
  Peering.organization_id p = org ∧
  ((Peering.src_compartment_id p = a ∧ Peering.dst_compartment_id p = b) ∨
   (Peering.src_compartment_id p = b ∧ Peering.dst_compartment_id p = a)).
Proof. unfold connects. by rewrite andb_true_iff, orb_true_iff, !andb_true_iff, !String.eqb_eq. Qed.

Lemma connects_org org a b p : connects org a b p = true → Peering.organization_id p = org.
Proof. by intros [? _]%connects_spec. Qed.

Lemma connects_sym p q :
  connects (Peering.organization_id p) (Peering.src_compartment_id p) (Peering.dst_compartment_id p) q = true →
  connects (Peering.organization_id q) (Peering.src_compartment_id q) (Peering.dst_compartment_id q) p = true.
Proof. rewrite !connects_spec. intros (-> & [[-> ->]|[-> ->]]); auto. Qed.

Lemma peer_issues org tier src dst policy rnd now : issues org tier (createPeeringRule org src dst policy tier rnd now).
Proof.
  intros d. unfold createPeeringRule. destruct (negb _); [apply rtc_refl|].
  destruct (String.eqb_spec src dst) as [|Hne]; [apply rtc_refl|]. read_store.
  destruct (getCompartment src org tier d) as [s|] eqn:Es, (getCompartment dst org tier d) as [t|] eqn:Et; try apply rtc_refl.
  eapply rtc_l; [apply S_unpeer, connects_org|]. unfold eff_bind at 1, modify at 1. cbv beta iota.
  unfold insert_peering. unfold eff_bind at 1. read_store. destruct (existsb _ _) eqn:Ex; [apply rtc_refl|].
  eapply rtc_l; [|apply bump_issues]. eapply S_peer with (s := s) (t := t); [done..|]. intros x Hx. split.
  - intros E. rewrite <- not_true_iff_false, existsb_exists in Ex. apply Ex. exists x. rewrite <- list_elem_of_In.
    split; [done|]. by rewrite E, String.eqb_refl.
  - simpl in Hx. by apply elem_of_delete in Hx as [_ Hx].
Qed.

Lemma unpeer_issues org tier id : issues org tier (deletePeeringRule id org).
Proof.
  intros d. unfold deletePeeringRule. read_store. destruct (where_ _ _); [apply rtc_refl|].
  eapply rtc_l; [apply (S_unpeer _ _ _ (is_peering id org)); unfold is_peering; intros; by b2p|]. apply bump_issues.
Qed.

Lemma members_issues org tier id ids : issues org tier (setMembers id org ids tier).
Proof.
  intros d. unfold setMembers. branch Ei; [apply rtc_refl|]. branch El; [apply rtc_refl|]. read_store.
  destruct (getCompartment id org tier d) as [c|] eqn:Ec; [|apply rtc_refl].
  eapply rtc_l; [by apply (S_move _ _ d id ids c)|]. unfold eff_bind at 1, modify. cbv beta iota.
  apply (issues_bind org tier); [|intros; apply issues_ret]. intros x. destruct (bool_decide (js_sort _ _ = [])); [apply rtc_refl|apply bump_issues].
Qed.

Lemma perform_issues org tier r : issues org tier (perform org tier r).
Proof.
  destruct r; simpl; apply issues_then;
    auto using list_issues, create_issues, update_issues, delete_issues, peer_issues, unpeer_issues, members_issues.
Qed.

(** *** The tables *)

Definition owned (d : Db.t) (org c : string) : bool :=
  existsb (λ x, (Compartment.id x =? c)%string && (Compartment.organization_id x =? org)%string) (Db.compartments d).

(** Ids and slugs are unique, a node is in a compartment of its organisation, and
    a peering connects two different compartments of its organisation, with one
    row for a pair. *)
Record wf (d : Db.t) : Prop := {
  wf_ids : NoDup (Compartment.id <$> Db.compartments d);
  wf_slugs : NoDup ((λ c, (Compartment.organization_id c, Compartment.slug c)) <$> Db.compartments d);
  wf_members : Forall (λ n, match Node.compartment_id n with Some c => owned d (Acl.org_of n) c = true | None => True end) (Db.nodes d);
  wf_peerings : Forall (λ p, owned d (Peering.organization_id p) (Peering.src_compartment_id p) = true ∧
                             owned d (Peering.organization_id p) (Peering.dst_compartment_id p) = true ∧
                             Peering.src_compartment_id p ≠ Peering.dst_compartment_id p) (Db.compartment_peerings d);
  wf_peering_ids : NoDup (Peering.id <$> Db.compartment_peerings d);
  wf_pairs : Forall (λ p, Forall (λ q,
      connects (Peering.organization_id p) (Peering.src_compartment_id p) (Peering.dst_compartment_id p) q = true →
      Peering.id p = Peering.id q) (Db.compartment_peerings d)) (Db.compartment_peerings d);
}.

Lemma owned_spec d org c :
  owned d org c = true ↔ ∃ x, x ∈ Db.compartments d ∧ Compartment.id x = c ∧ Compartment.organization_id x = org.
Proof.
  unfold owned. rewrite existsb_exists. split; intros (x & Hx & H); exists x.
  - rewrite list_elem_of_In. by b2p.
  - rewrite <- list_elem_of_In. destruct H as [<- <-]. by rewrite !String.eqb_refl.
Qed.

Lemma get_spec id org tier d c :
  getCompartment id org tier d = Some c →
  c ∈ Db.compartments d ∧ Compartment.id c = id ∧ Compartment.organization_id c = org ∧
  (is_root tier = false → Compartment.is_hidden c = false).
Proof.
  unfold getCompartment. destruct (select1 _ _) as [x|] eqn:E; [|done]. apply select1_elem in E as [Hx Hin]. b2p.
  destruct (Compartment.is_hidden x && negb (is_root tier)) eqn:Eh; [done|]. intros [= <-].
  split_and!; [done..|]. intros Ht. rewrite Ht in Eh. by destruct (Compartment.is_hidden x).
Qed.

Lemma get_owned id org tier d c : getCompartment id org tier d = Some c → owned d org id = true.
Proof. intros H. apply get_spec in H as (? & ? & ? & _). apply owned_spec. eauto. Qed.

(** An id names one row. *)
Lemma row_unique d x y : wf d → x ∈ Db.compartments d → y ∈ Db.compartments d → Compartment.id x = Compartment.id y → x = y.
Proof. intros Hw. apply NoDup_fmap_inj, (wf_ids _ Hw). Qed.

Lemma owned_fun d o o' c : wf d → owned d o c = true → owned d o' c = true → o = o'.
Proof.
  intros Hw (x & Hx & <- & <-)%owned_spec (y & Hy & Hi & <-)%owned_spec. by rewrite (row_unique d y x).
Qed.

(** *** Every statement keeps the tables well formed *)

Definition keeps_owned (d d' : Db.t) : Prop := ∀ org c, owned d org c = true → owned d' org c = true.

Lemma wf_grow d d' :
  wf d → keeps_owned d d' → Db.nodes d' = Db.nodes d → Db.compartment_peerings d' = Db.compartment_peerings d →
  NoDup (Compartment.id <$> Db.compartments d') →
  NoDup ((λ c, (Compartment.organization_id c, Compartment.slug c)) <$> Db.compartments d') → wf d'.
Proof.
  intros Hw Hk En Ep Hi Hs. destruct Hw as [_ _ Hm Hp Hpi Hpp]. split; rewrite ?En, ?Ep; auto.
  - eapply Forall_impl; [exact Hm|]. intros n. simpl. destruct (Node.compartment_id n); auto.
  - eapply Forall_impl; [exact Hp|]. intros p (H1 & H2 & H3). auto.
Qed.

Lemma insert_wf d c :
  wf d → row_ok d c = true → existsb (λ x, (Compartment.id x =? Compartment.id c)%string) (Db.compartments d) = false →
  wf (d <| Db.compartments ::= λ l, l ++ [c] |>).
Proof.
  intros Hw Hr He. apply (wf_grow d); auto; simpl.
  - intros o x. rewrite !owned_spec. simpl. intros (y & Hy & H). exists y. rewrite elem_of_app. auto.
  - rewrite fmap_app. apply NoDup_app. split_and!; [apply Hw| |apply NoDup_singleton].
    intros i (x & -> & Hx)%list_elem_of_fmap Hc%list_elem_of_singleton. rewrite <- not_true_iff_false, existsb_exists in He.
    apply He. exists x. rewrite <- list_elem_of_In, Hc. by rewrite String.eqb_refl.
  - rewrite fmap_app. apply NoDup_app. split_and!; [apply Hw| |apply NoDup_singleton].
    intros i (x & -> & Hx)%list_elem_of_fmap [= Ho Hs]%list_elem_of_singleton. unfold row_ok in Hr. b2p.
    clear He. match goal with H : existsb _ _ = false |- _ => rewrite <- not_true_iff_false, existsb_exists in H; apply H end.
    exists x. split; [by apply list_elem_of_In|]. simpl in *. by rewrite Ho, Hs, !String.eqb_refl.
Qed.

Lemma update_wf d q u : wf d → wf (d <| Db.compartments ::= update_where q (apply_updates u) |>).
Proof.
  intros Hw. apply (wf_grow d); auto; simpl.
  - intros o x. rewrite !owned_spec. simpl. intros (y & Hy & Hi & Ho).
    exists (if q y then apply_updates u y else y). rewrite elem_of_update. split; [eauto|]. by destruct (q y).
  - rewrite update_where_fmap by done. apply Hw.
  - rewrite update_where_fmap by done. apply Hw.
Qed.

Lemma pairs_sub (l l' : list Peering.t) :
  (∀ p, p ∈ l' → p ∈ l) →
  Forall (λ p, Forall (λ q, connects (Peering.organization_id p) (Peering.src_compartment_id p) (Peering.dst_compartment_id p) q = true →
      Peering.id p = Peering.id q) l) l →
  Forall (λ p, Forall (λ q, connects (Peering.organization_id p) (Peering.src_compartment_id p) (Peering.dst_compartment_id p) q = true →
      Peering.id p = Peering.id q) l') l'.
Proof. rewrite !Forall_forall. intros Hs H p Hp. specialize (H p (Hs p Hp)). rewrite Forall_forall in H. apply Forall_forall. auto. Qed.

Lemma unpeer_wf d f : wf d → wf (d <| Db.compartment_peerings ::= delete_where f |>).
Proof.
  intros Hw. split; simpl; try apply Hw.
  - rewrite Forall_forall. intros p [Hp _]%elem_of_delete. apply (proj1 (Forall_forall _ _) (wf_peerings _ Hw) p Hp).
  - apply where_NoDup, Hw.
  - eapply pairs_sub, Hw. intros p Hp. by apply elem_of_delete in Hp as [? _].
Qed.

Lemma peer_wf org tier d p s t :
  wf d → Peering.organization_id p = org → Peering.src_compartment_id p ≠ Peering.dst_compartment_id p →
  getCompartment (Peering.src_compartment_id p) org tier d = Some s →
  getCompartment (Peering.dst_compartment_id p) org tier d = Some t →
  (∀ x, x ∈ Db.compartment_peerings d →
    Peering.id x ≠ Peering.id p ∧ connects org (Peering.src_compartment_id p) (Peering.dst_compartment_id p) x = false) →
  wf (d <| Db.compartment_peerings ::= λ l, l ++ [p] |>).
Proof.
  intros Hw Ho Hne Hs Ht Hx. subst org. split; simpl; try apply Hw.
  - apply Forall_app. split; [apply Hw|]. apply Forall_singleton. split_and!; [by eapply get_owned..|done].
  - rewrite fmap_app. apply NoDup_app. split_and!; [apply Hw| |apply NoDup_singleton].
    intros i (x & -> & Hin)%list_elem_of_fmap Hc%list_elem_of_singleton. by destruct (Hx x Hin).
  - apply Forall_app. split.
    + apply Forall_forall. intros x Hin. apply Forall_app. split.
      * by apply (proj1 (Forall_forall _ _) (wf_pairs _ Hw)).
      * apply Forall_singleton. intros Hc. apply connects_sym in Hc. destruct (Hx x Hin) as [_ Hf]. congruence.
    + apply Forall_singleton. apply Forall_app. split; [|by apply Forall_singleton].
      apply Forall_forall. intros x Hin Hc. destruct (Hx x Hin) as [_ Hf]. congruence.
Qed.

Lemma move_wf org tier d id ids c :
  wf d → getCompartment id org tier d = Some c →
  wf (d <| Db.nodes ::= update_where (movable d org tier ids) (λ n, n <| Node.compartment_id := Some id |>) |>).
Proof.
  intros Hw Hc. split; simpl; try apply Hw.
  apply Forall_forall. intros n (m & Hm & ->)%elem_of_update. destruct (movable d org tier ids m) eqn:E.
  - unfold movable in E. b2p. cbn. unfold Acl.org_of in *. cbn. subst org. by eapply get_owned.
  - by apply (proj1 (Forall_forall _ _) (wf_members _ Hw)).
Qed.

(** What is left after a DELETE is what was there and is not referenced by a
    deleted row. *)
Lemma owned_delete d q o c :
  owned d o c = true → c ∉ Compartment.id <$> where_ q (Db.compartments d) → owned (delete_compartments q d) o c = true.
Proof.
  rewrite !owned_spec. intros (x & Hx & <- & <-) Hn. exists x. split; [|done]. simpl. apply elem_of_delete. split; [done|].
  destruct (q x) eqn:E; [|done]. destruct Hn. apply list_elem_of_fmap_2, elem_of_where. done.
Qed.

Lemma delete_wf d q : wf d → wf (delete_compartments q d).
Proof.
  intros Hw. split; simpl.
  - apply where_NoDup, Hw.
  - apply where_NoDup, Hw.
  - apply Forall_forall. intros n (m & Hm & ->)%elem_of_update.
    pose proof (proj1 (Forall_forall _ _) (wf_members _ Hw) m Hm) as H. simpl in H.
    destruct (Node.compartment_id m) as [c|] eqn:E; [|by rewrite E]. case_bool_decide as Hg; [done|]. rewrite E.
    by apply owned_delete.
  - apply Forall_forall. intros p [Hp Hf]%elem_of_delete. apply orb_false_iff in Hf as [H1 H2]. b2p.
    pose proof (proj1 (Forall_forall _ _) (wf_peerings _ Hw) p Hp) as (H3 & H4 & H5).
    split_and!; [by apply owned_delete..|done].
  - apply where_NoDup, Hw.
  - eapply pairs_sub, Hw. intros p Hp. by apply elem_of_delete in Hp as [? _].
Qed.

Lemma bump_scope d :
  Db.compartments (Acl.bumpEpoch "acl" d).2 = Db.compartments d ∧ Db.nodes (Acl.bumpEpoch "acl" d).2 = Db.nodes d ∧
  Db.compartment_peerings (Acl.bumpEpoch "acl" d).2 = Db.compartment_peerings d.
Proof. done. Qed.

Lemma bump_wf d : wf d → wf (Acl.bumpEpoch "acl" d).2.
Proof. intros Hw. destruct (bump_scope d) as (E1 & E2 & E3). apply (wf_grow d); [done|by intros ???|done|done|apply Hw|apply Hw]. Qed.

Lemma statement_wf org tier d d' : stmt org tier d d' → wf d → wf d'.
Proof. destruct 1; eauto using insert_wf, update_wf, delete_wf, unpeer_wf, peer_wf, move_wf, bump_wf. Qed.

Lemma perform_wf org tier r d : wf d → wf (perform org tier r d).2.
Proof. intros Hw. pose proof (perform_issues org tier r d) as H. induction H; eauto using statement_wf. Qed.

(** A fact about well-formed tables that every statement keeps. *)
Lemma perform_keeps {A} (f : Db.t → A) org tier r d :
  (∀ x y, wf x → stmt org tier x y → f y = f x) → wf d → f (perform org tier r d).2 = f d.
Proof.
  intros Hf Hw. pose proof (perform_issues org tier r d) as H. induction H as [|x y z Hxy _ IH]; [done|].
  rewrite IH by (by eapply statement_wf). auto.
Qed.

(** *** Invariant of the tables *)

Definition default_of (c : Compartment.t) (d : Db.t) : Prop :=
  ∃ x, x ∈ Db.compartments d ∧ Compartment.id x = Compartment.id c ∧
       Compartment.organization_id x = Compartment.organization_id c ∧ Compartment.slug x = "default".

Lemma row_of id org tier d c x :
  wf d → getCompartment id org tier d = Some c → x ∈ Db.compartments d → is_row id org x = true → x = c.
Proof.
  intros Hw (Hc & Hi & _)%get_spec Hx Hr. unfold is_row in Hr. b2p. apply (row_unique d); congruence || done.
Qed.

Lemma stmt_default org tier d d' c : wf d → stmt org tier d d' → default_of c d → default_of c d'.
Proof.
  intros Hw Hs (x & Hx & H). revert Hw Hx. destruct Hs as [d y|d id u y|d id y Hy Hd|?|?|?|?]; intros Hw Hx; unfold default_of; simpl; eauto.
  - exists x. rewrite elem_of_app. auto.
  - exists (if is_row id org x then apply_updates u x else x). rewrite elem_of_update. split; [eauto|].
    by destruct (is_row id org x).
  - exists x. rewrite elem_of_delete. split; [|done]. split; [done|]. destruct (is_row id org x) eqn:E; [|done].
    rewrite (row_of id org tier d y x) in H by done. destruct H as (_ & _ & H). done.
Qed.

(** The tables of compartments stay well formed under every request of the
    console, and the default compartment of an organisation is never removed. *)
Theorem compartment_tables_invariant org tier r d :
  wf d →
  wf (perform org tier r d).2 ∧
  ∀ c, c ∈ Db.compartments d → Compartment.slug c = "default" → default_of c (perform org tier r d).2.
Proof.
  intros Hw. split; [by apply perform_wf|]. intros c Hc Hs.
  assert (default_of c d) as H by (by exists c). clear Hc Hs. pose proof (perform_issues org tier r d) as Hp.
  induction Hp; eauto using statement_wf, stmt_default.
Qed.

(** *** Tenants *)

(** The rows of the other organisations. *)
Definition others (org : string) (d : Db.t) : list Compartment.t * list Peering.t * list Node.t :=
  (where_ (λ c, negb (Compartment.organization_id c =? org)%string) (Db.compartments d),
   where_ (λ p, negb (Peering.organization_id p =? org)%string) (Db.compartment_peerings d),
   where_ (λ n, negb (Acl.org_of n =? org)%string) (Db.nodes d)).

Lemma same_org (a b : string) : a = b → negb (a =? b)%string = false.
Proof. intros ->. by rewrite String.eqb_refl. Qed.

Lemma gone_owned d id org i : i ∈ Compartment.id <$> where_ (is_row id org) (Db.compartments d) → owned d org i = true.
Proof.
  intros (x & -> & [Hr Hx]%elem_of_where)%list_elem_of_fmap. apply owned_spec. exists x. unfold is_row in Hr. by b2p.
Qed.

Lemma delete_others org d id : wf d → others org (delete_compartments (is_row id org) d) = others org d.
Proof.
  intros Hw. unfold others. simpl. f_equal; [f_equal|].
  - apply where_delete_none. intros c _ Hr. unfold is_row in Hr. b2p. by apply same_org.
  - apply where_delete_none. intros p Hp Hr.
    destruct (proj1 (Forall_forall _ _) (wf_peerings _ Hw) p Hp) as (H1 & H2 & _). apply same_org.
    b2p. destruct Hr as [Hr|Hr]; b2p; apply gone_owned in Hr; eauto using owned_fun.
  - apply where_update_none. intros n Hn Hr. pose proof (proj1 (Forall_forall _ _) (wf_members _ Hw) n Hn) as H. simpl in H.
    destruct (Node.compartment_id n) as [c|]; [|done]. b2p. apply gone_owned in Hr.
    assert (Acl.org_of n = org) as E by eauto using owned_fun. split; apply same_org, E.
Qed.

Lemma stmt_others org tier d d' : wf d → stmt org tier d d' → others org d' = others org d.
Proof.
  intros Hw Hs. destruct Hs as [d c Hr He Ho|d id u c Hc|d id c|d f Hf|d p s t Ho|d id ids c|d]; [..|done].
  - unfold others. simpl. by rewrite where_app, where_cons, same_org, where_nil, app_nil_r.
  - unfold others. simpl. rewrite where_update_none; [done|]. intros x _ Hr. unfold is_row in Hr. b2p.
    split; apply same_org; assumption.
  - by apply delete_others.
  - unfold others. simpl. rewrite where_delete_none; [done|]. intros p _ Hp. by apply same_org, Hf.
  - unfold others. simpl. by rewrite where_app, where_cons, same_org, where_nil, app_nil_r.
  - unfold others. simpl. rewrite where_update_none; [done|]. intros n _ Hm. unfold movable in Hm. b2p.
    split; apply same_org; assumption.
Qed.

(** A request of one organisation, at any access tier and with any ids, leaves
    the compartments, the peerings and the nodes of every other organisation as
    they were. *)
Theorem compartment_requests_confined org tier r d :
  wf d → others org (perform org tier r d).2 = others org d.
Proof. apply perform_keeps. intros. by eapply stmt_others. Qed.

(** *** Hidden compartments *)

(** The hidden compartments and the nodes in them. *)
Definition hidden (d : Db.t) : list Compartment.t * list Node.t :=
  (where_ Compartment.is_hidden (Db.compartments d), where_ (in_hidden d) (Db.nodes d)).

Lemma in_hidden_spec d n :
  in_hidden d n = true ↔
  ∃ c, c ∈ Db.compartments d ∧ Node.compartment_id n = Some (Compartment.id c) ∧ Compartment.is_hidden c = true.
Proof.
  unfold in_hidden. rewrite existsb_exists. split; intros (c & Hc & H); exists c.
  - rewrite list_elem_of_In. split; [done|]. unfold opt_is in H. destruct (Node.compartment_id n); b2p; [|done]. by subst.
  - rewrite <- list_elem_of_In. destruct H as [-> ->]. simpl. by rewrite String.eqb_refl.
Qed.

(** Membership of a hidden compartment depends on the hidden rows only. *)
Lemma in_hidden_rows d d' n :
  where_ Compartment.is_hidden (Db.compartments d') = where_ Compartment.is_hidden (Db.compartments d) →
  in_hidden d' n = in_hidden d n.
Proof.
  intros E. apply eq_iff_eq_true. rewrite !in_hidden_spec.
  assert (∀ c, c ∈ Db.compartments d' ∧ Compartment.is_hidden c = true ↔ c ∈ Db.compartments d ∧ Compartment.is_hidden c = true) as H.
  { intros c. rewrite !(and_comm (c ∈ _)), <- !elem_of_where. by rewrite E. }
  split; intros (c & Hc & Hn & Hh); exists c; pose proof (H c); tauto.
Qed.

Lemma hidden_split d d' :
  where_ Compartment.is_hidden (Db.compartments d') = where_ Compartment.is_hidden (Db.compartments d) →
  where_ (in_hidden d) (Db.nodes d') = where_ (in_hidden d) (Db.nodes d) → hidden d' = hidden d.
Proof.
  intros E1 E2. unfold hidden. rewrite E1, <- E2. f_equal. apply where_ext. intros n _. by apply in_hidden_rows.
Qed.

(** The row a request below the root tier names is not a hidden one. *)
Lemma row_visible id org tier d c x :
  wf d → is_root tier = false → getCompartment id org tier d = Some c → x ∈ Db.compartments d → Compartment.id x = id →
  Compartment.is_hidden x = false.
Proof.
  intros Hw Ht Hc Hx Hi. pose proof (get_spec _ _ _ _ _ Hc) as (Hin & Hci & _ & Hh).
  rewrite (row_unique d x c); [auto|done..|congruence].
Qed.

Lemma stmt_hidden org tier d d' : is_root tier = false → wf d → stmt org tier d d' → hidden d' = hidden d.
Proof.
  intros Ht Hw Hs. destruct Hs as [d c Hr He Ho Hh|d id u c Hc Hu|d id c Hc _|d f _|d p s t _|d id ids c Hc|d]; [..|done].
  - apply hidden_split; [|done]. simpl. rewrite where_app, where_cons, where_nil.
    destruct (Compartment.is_hidden c); [|apply app_nil_r]. rewrite Hh in Ht; done.
  - apply hidden_split; [|done]. simpl. apply where_update_none. intros x Hx Hr. unfold is_row in Hr. b2p.
    assert (Compartment.is_hidden x = false) as E by eauto using row_visible. split; [done|].
    destruct (u_isHidden u) eqn:Eu; [rewrite Hu in Ht; [done|by eexists]|]. unfold apply_updates. cbn. by rewrite Eu.
  - apply hidden_split; simpl.
    + apply where_delete_none. intros x Hx Hr. unfold is_row in Hr. b2p. eauto using row_visible.
    + apply where_update_none. intros n Hn Hg. split.
      * apply not_true_iff_false. rewrite in_hidden_spec. intros (y & Hy & E & Hh). rewrite E in Hg. b2p.
        apply list_elem_of_fmap in Hg as (x & Ei & [Hr Hx]%elem_of_where). rewrite (row_of id org tier d c x) in Ei by done.
        apply get_spec in Hc as (Hcin & _ & _ & Hv). rewrite (row_unique d y c) in Hh by done. rewrite Hv in Hh; done.
      * apply not_true_iff_false. rewrite in_hidden_spec. intros (y & _ & E & _). done.
  - by apply hidden_split.
  - by apply hidden_split.
  - apply hidden_split; [done|]. simpl. apply where_update_none. intros n Hn Hm. unfold movable in Hm. rewrite Ht, orb_false_l in Hm. b2p.
    split; [done|]. apply not_true_iff_false. rewrite in_hidden_spec. intros (y & Hy & [= E] & Hh).
    rewrite (row_visible id org tier d c y) in Hh; done.
Qed.


(** *** Peerings and the compiled policy *)

Definition allows (a b : string) (p : Peering.t) : bool :=
  (Peering.policy p =? "allow")%string &&
  (((Peering.src_compartment_id p =? a)%string && (Peering.dst_compartment_id p =? b)%string)
   || ((Peering.dst_compartment_id p =? a)%string && (Peering.src_compartment_id p =? b)%string)).

Lemma peered_existsb d a b : Acl.peered d a b = existsb (allows a b) (Db.compartment_peerings d).
Proof. done. Qed.

(** The peerings that touch two compartments of an organisation are the ones the
    replacement deletes. *)
Lemma pair_connects d org src dst p :
  wf d → owned d org src = true → p ∈ Db.compartment_peerings d →
  connects org src dst p =
    (((Peering.src_compartment_id p =? src)%string && (Peering.dst_compartment_id p =? dst)%string) ||
     ((Peering.src_compartment_id p =? dst)%string && (Peering.dst_compartment_id p =? src)%string)).
Proof.
  intros Hw Ho Hp. unfold connects. destruct (Peering.organization_id p =? org)%string eqn:E; [done|].
  destruct (proj1 (Forall_forall _ _) (wf_peerings _ Hw) p Hp) as (H1 & H2 & _). b2p. simpl. symmetry.
  apply orb_false_iff; split; apply not_true_iff_false; intros H; b2p; subst; destruct E; eauto using owned_fun.
Qed.

Lemma createPeering_ok org src dst policy tier rnd now d p d' :
  createPeeringRule org src dst policy tier rnd now d = (Ok p, d') →
  owned d org src = true ∧ owned d org dst = true ∧ src ≠ dst ∧ (policy = "allow" ∨ policy = "deny") ∧
  Peering.src_compartment_id p = src ∧ Peering.dst_compartment_id p = dst ∧ Peering.policy p = policy ∧
  d' = (Acl.bumpEpoch "acl" (d <| Db.compartment_peerings ::= λ l, delete_where (connects org src dst) l ++ [p] |>)).2.
Proof.
  unfold createPeeringRule. destruct (negb _) eqn:Ep; [done|]. destruct (String.eqb_spec src dst) as [|Hne]; [done|].
  unfold eff_bind at 1, get at 1. destruct (getCompartment src org tier d) as [s|] eqn:Es; [|done].
  destruct (getCompartment dst org tier d) as [t|] eqn:Et; [|done]. unfold eff_bind at 1, modify at 1. cbv beta iota.
  unfold insert_peering. unfold eff_bind at 1. unfold eff_bind at 1, get at 1. cbv beta iota.
  destruct (existsb _ _); [done|]. intros H. apply eff_bind_ok in H as (? & d1 & H1 & [= <- <-]).
  apply RuleOps.bumpEpoch_ok in H1 as [_ ->]. split_and!; eauto using get_owned. b2p. by destruct Ep; b2p; [left|right].
Qed.

Lemma existsb_kept {A} (f q : A → bool) l :
  (∀ x, x ∈ l → f x = true → q x = false) → existsb f (delete_where q l) = existsb f l.
Proof.
  intros H. apply eq_iff_eq_true. rewrite !existsb_exists. setoid_rewrite <- list_elem_of_In. setoid_rewrite elem_of_delete.
  split; intros (x & Hx & Hf); exists x; [tauto|auto].
Qed.

Lemma existsb_gone {A} (f q : A → bool) l :
  (∀ x, x ∈ l → f x = true → q x = true) → existsb f (delete_where q l) = false.
Proof.
  intros H. apply not_true_iff_false. rewrite existsb_exists. setoid_rewrite <- list_elem_of_In. setoid_rewrite elem_of_delete.
  intros (x & [Hx Hq] & Hf). rewrite H in Hq; done.
Qed.

Lemma allows_spec a b p :
  allows a b p = true ↔
  Peering.policy p = "allow" ∧
  ((Peering.src_compartment_id p = a ∧ Peering.dst_compartment_id p = b) ∨
   (Peering.src_compartment_id p = b ∧ Peering.dst_compartment_id p = a)).
Proof. unfold allows. rewrite andb_true_iff, orb_true_iff, !andb_true_iff, !String.eqb_eq. tauto. Qed.

Lemma allows_connects d org src dst a b p :
  wf d → owned d org src = true → p ∈ Db.compartment_peerings d → allows a b p = true →
  connects org src dst p = true ↔ (a, b) = (src, dst) ∨ (a, b) = (dst, src).
Proof.
  intros Hw Ho Hp [_ Ha]%allows_spec. rewrite connects_spec. split.
  - intros (_ & Hc). destruct Ha as [[<- <-]|[<- <-]], Hc as [[<- <-]|[<- <-]]; auto.
  - intros Hc. destruct (proj1 (Forall_forall _ _) (wf_peerings _ Hw) p Hp) as (H1 & H2 & _).
    destruct Ha as [[<- <-]|[<- <-]], Hc as [[= <- <-]|[= <- <-]]; eauto using owned_fun.
Qed.

Lemma bump_advances d d1 :
  AclFacts.epochs_seeded d → Db.mesh_epochs d1 = Db.mesh_epochs d → AclFacts.advanced "acl" d (Acl.bumpEpoch "acl" d1).2.
Proof.
  intros Hs E. destruct (AclFacts.bumpEpoch_advances "acl" d1) as [H1 H2]; [unfold AclFacts.epochs_seeded; by rewrite E|by left|].
  unfold AclFacts.advanced, Acl.getEpoch in *. rewrite <- E. auto.
Qed.

(** Setting the peering of two compartments decides it for the policy compiler:
    "allow" connects them in both directions and "deny" in neither, whatever rows
    were there; no other pair is affected; and the policy and netmap epochs advance. *)
Theorem peering_decides org src dst policy tier rnd now d p d' :
  wf d → AclFacts.epochs_seeded d → createPeeringRule org src dst policy tier rnd now d = (Ok p, d') →
  Acl.peered d' src dst = (policy =? "allow")%string ∧ Acl.peered d' dst src = (policy =? "allow")%string ∧
  (∀ a b, (a, b) ≠ (src, dst) → (a, b) ≠ (dst, src) → Acl.peered d' a b = Acl.peered d a b) ∧
  AclFacts.advanced "acl" d d'.
Proof.
  intros Hw He (Hs & Ht & Hne & Hp & Hps & Hpd & Hpp & ->)%createPeering_ok.
  split_and!; [..|by apply bump_advances]; [| |intros a b H1 H2];
    rewrite peered_existsb; simpl; rewrite existsb_app; simpl; rewrite orb_false_r.
  - rewrite existsb_gone by (intros x Hx Ha; apply (allows_connects d org src dst src dst); auto).
    unfold allows. rewrite Hps, Hpd, Hpp, !String.eqb_refl. apply andb_true_r.
  - rewrite existsb_gone by (intros x Hx Ha; apply (allows_connects d org src dst dst src); auto).
    unfold allows. rewrite Hps, Hpd, Hpp, !String.eqb_refl. simpl. by rewrite orb_true_r, andb_true_r.
  - rewrite existsb_kept.
    + assert (allows a b p = false) as ->; [|apply orb_false_r]. apply not_true_iff_false. rewrite allows_spec, Hps, Hpd.
      intros (_ & [[<- <-]|[<- <-]]); auto.
    + intros x Hx Ha. apply not_true_iff_false. rewrite (allows_connects d org src dst a b) by done. tauto.
Qed.

(** *** Epochs *)

(** What the compiled policies depend on. *)
Definition reach (d : Db.t) : list Node.t * list Peering.t := (Db.nodes d, Db.compartment_peerings d).

Definition told (d d' : Db.t) : Prop := reach d' = reach d ∨ AclFacts.advanced "acl" d d'.

Lemma insert_told c d o d' : insert_compartment c d = (o, d') → reach d' = reach d.
Proof. unfold insert_compartment. unfold eff_bind, get, modify. destruct (_ && _); by intros [= _ <-]. Qed.

Lemma ensure_told org now d o d' : ensureDefaultCompartment org now d = (o, d') → reach d' = reach d.
Proof.
  unfold ensureDefaultCompartment. unfold eff_bind at 1, get. destruct (existsb _ _); [by intros [= _ <-]|apply insert_told].
Qed.

Lemma then_bump {A} (a b : A) d d1 d' :
  AclFacts.epochs_seeded d → Db.mesh_epochs d1 = Db.mesh_epochs d →
  (Acl.bumpEpoch "acl" ;! eff_ret a) d1 = (Ok b, d') → told d d'.
Proof.
  intros Hs E H. apply eff_bind_ok in H as (? & d2 & H & [= _ <-]). apply RuleOps.bumpEpoch_ok in H as [_ ->].
  right. by apply bump_advances.
Qed.

Lemma list_told org tier now d a d' : listCompartments org tier now d = (Ok a, d') → reach d' = reach d.
Proof.
  unfold listCompartments. unfold eff_bind at 1, get at 1. destruct (select_compartments _ _ _); [|by intros [= _ <-]].
  intros H. apply eff_bind_ok in H as (? & d1 & H & [= _ <-]). by apply ensure_told in H.
Qed.

Lemma create_told org name slug cidr hid tier rnd now d a d' :
  createCompartment org name slug cidr hid tier rnd now d = (Ok a, d') → reach d' = reach d.
Proof.
  unfold createCompartment. destruct (_ || _); [done|]. destruct (hid && _); [done|].
  intros H. apply eff_bind_ok in H as (? & d1 & H & [= _ <-]). by apply insert_told in H.
Qed.

Lemma update_told id org u tier d a d' : updateCompartment id org u tier d = (Ok a, d') → reach d' = reach d.
Proof.
  unfold updateCompartment. unfold eff_bind at 1, get. destruct (getCompartment _ _ _ _); [|by intros [= _ <-]].
  intros H. repeat match type of H with (if ?b then _ else _) _ = _ => destruct b end; try done; by injection H as _ <-.
Qed.

Lemma delete_told id org tier d a d' :
  AclFacts.epochs_seeded d → deleteCompartment id org tier d = (Ok a, d') → told d d'.
Proof.
  intros Hs. unfold deleteCompartment. unfold eff_bind at 1, get. destruct (getCompartment _ _ _ _); [|intros [= _ <-]; by left].
  destruct (_ =? _)%string; [done|]. unfold eff_bind at 1, modify. cbv beta iota. by apply then_bump.
Qed.

Lemma unpeer_told id org d a d' : AclFacts.epochs_seeded d → deletePeeringRule id org d = (Ok a, d') → told d d'.
Proof.
  intros Hs. unfold deletePeeringRule. unfold eff_bind at 1, get. destruct (where_ _ _); [intros [= _ <-]; by left|].
  unfold eff_bind at 1, modify. cbv beta iota. by apply then_bump.
Qed.

(** Without a node that moves, the UPDATE changes nothing. *)
Lemma update_none {A} (q : A → bool) f l : where_ q l = [] → update_where q f l = l.
Proof.
  induction l as [|x l IH]; [done|]. rewrite where_cons. unfold update_where. rewrite fmap_cons. fold (update_where q f l).
  destruct (q x); [done|]. intros H. by rewrite IH.
Qed.

Lemma members_told id org ids tier d a d' : AclFacts.epochs_seeded d → setMembers id org ids tier d = (Ok a, d') → told d d'.
Proof.
  intros Hs H. unfold setMembers in H. destruct (bool_decide (ids = []) || _); [done|]. destruct (_ <? _); [done|].
  unfold eff_bind at 1, get in H. destruct (getCompartment _ _ _ _); [|injection H as _ <-; by left].
  unfold eff_bind at 1, modify in H. apply eff_bind_ok in H as (? & d1 & H & [= _ <-]).
  case_bool_decide as E; [|by eapply then_bump in H]. injection H as _ <-. left. unfold reach. simpl. f_equal. apply update_none.
  assert (Node.id <$> where_ (movable d org tier ids) (Db.nodes d) = []) as E'; [|by apply fmap_nil_inv in E'].
  apply Permutation_nil. by rewrite <- E, js_sort_perm.
Qed.

(** A completed request that changes which compartment a node is in, or which
    compartments are peered, advances the policy epoch and the netmap epoch by one,
    so the fleet fetches the new policy. *)
Theorem policy_change_advances org tier r d d' :
  AclFacts.epochs_seeded d → perform org tier r d = (Ok tt, d') → reach d' ≠ reach d → AclFacts.advanced "acl" d d'.
Proof.
  intros Hs H Hr. cut (told d d'); [by intros [?|?]|]. clear Hr.
  destruct r; simpl in H; apply eff_bind_ok in H as (a & d1 & H & [= <-]).
  - left. by apply list_told in H.
  - left. by apply create_told in H.
  - left. by apply update_told in H.
  - by apply delete_told in H.
  - right. apply createPeering_ok in H as (_ & _ & _ & _ & _ & _ & _ & ->). by apply bump_advances.
  - by apply unpeer_told in H.
  - by apply members_told in H.
Qed.

(** *** What a caller below the root tier reads *)

(** The same database after the hidden compartments are deleted. *)
Definition veil (d : Db.t) : Db.t := delete_compartments Compartment.is_hidden d.

Lemma veil_get id org tier d :
  is_root tier = false → wf d → getCompartment id org tier (veil d) = getCompartment id org tier d.
Proof.
  intros Ht Hw. unfold getCompartment. simpl. rewrite Ht.
  destruct (select1 _ (Db.compartments d)) as [x|] eqn:E.
  - apply select1_elem in E as [Hp Hx]. destruct (Compartment.is_hidden x) eqn:Eh.
    + rewrite (proj2 (select1_none _ _)); [done|]. intros y [Hy Hv]%elem_of_delete. apply not_true_iff_false. intros Hq.
      b2p. rewrite (row_unique d y x) in Hv by (congruence || done). congruence.
    + rewrite (select1_unique Compartment.id _ _ x); [by rewrite Eh|apply where_NoDup, Hw|by apply elem_of_delete|done|].
      intros y Hy. b2p. congruence.
  - rewrite select1_none in E. rewrite (proj2 (select1_none _ _)); [done|]. intros y [Hy _]%elem_of_delete. auto.
Qed.

Lemma veil_select org tier d : is_root tier = false → select_compartments org tier (veil d) = select_compartments org tier d.
Proof.
  intros Ht. unfold select_compartments. simpl. rewrite where_delete_none; [done|]. intros c _ Hh. unfold visible.
  by rewrite Hh, Ht, andb_false_r.
Qed.

Lemma bind_delete {A B} (q : A → bool) (f g : A → list B) l :
  (∀ x, x ∈ l → q x = true → g x = []) → (∀ x, x ∈ l → q x = false → f x = g x) → delete_where q l ≫= f = l ≫= g.
Proof.
  unfold delete_where. induction l as [|x l IH]; intros H1 H2; [done|]. rewrite where_cons.
  assert (where_ (λ y, negb (q y)) l ≫= f = l ≫= g) as E by (apply IH; intros; [apply H1|apply H2]; done || by right).
  destruct (q x) eqn:Eq; csimpl; rewrite E; [rewrite H1|rewrite H2]; done || left.
Qed.

Lemma bind_nil {A B} (f : A → list B) l : (∀ x, x ∈ l → f x = []) → l ≫= f = [].
Proof. induction l as [|x l IH]; intros H; [done|]. csimpl. rewrite H, IH; [done|intros; apply H; by right|left]. Qed.

(** A row whose id is among the hidden ones is hidden. *)
Lemma hidden_id d c i : wf d → c ∈ Db.compartments d → Compartment.id c = i →
  i ∈ Compartment.id <$> where_ Compartment.is_hidden (Db.compartments d) ↔ Compartment.is_hidden c = true.
Proof.
  intros Hw Hc <-. split.
  - intros (x & E & [Hh Hx]%elem_of_where)%list_elem_of_fmap. by rewrite (row_unique d c x).
  - intros Hh. apply list_elem_of_fmap_2, elem_of_where. done.
Qed.

Lemma veil_side d i :
  wf d → i ∉ Compartment.id <$> where_ Compartment.is_hidden (Db.compartments d) →
  where_ (λ c, (Compartment.id c =? i)%string) (Db.compartments (veil d)) =
  where_ (λ c, (Compartment.id c =? i)%string) (Db.compartments d).
Proof.
  intros Hw Hi. apply where_delete_none. intros c Hc Hh. apply String.eqb_neq. intros E.
  destruct Hi. by apply (hidden_id d c i).
Qed.

Lemma veil_peerings org tier d : is_root tier = false → wf d → peering_rows org tier (veil d) = peering_rows org tier d.
Proof.
  intros Ht Hw. unfold peering_rows. apply bind_delete.
  - intros p _ Hq. apply bind_nil. intros s [Hs Hsin]%elem_of_where. apply bind_nil. intros t [Ht' Htin]%elem_of_where. b2p.
    rewrite Ht, orb_false_l. destruct Hq as [Hq|Hq]; b2p.
    + rewrite (proj1 (hidden_id d s _ Hw Hsin Hs) Hq). by rewrite andb_false_r.
    + rewrite (proj1 (hidden_id d t _ Hw Htin Ht') Hq). simpl. by rewrite !andb_false_r.
  - intros p _ Hq. apply orb_false_iff in Hq as [Hs Hd]. b2p. by rewrite !veil_side.
Qed.

Lemma list_rows org tier now d :
  select_compartments org tier d ≠ [] → (listCompartments org tier now d).1 = Ok (select_compartments org tier d).
Proof. intros H. unfold listCompartments. read_store. by destruct (select_compartments org tier d). Qed.

(** Below the root tier the console answers as if the hidden compartments did
    not exist: a compartment looked up by id, the peerings and the list of
    compartments are those of the database with the hidden ones deleted. *)
Theorem hidden_compartments_invisible org tier id now d :
  is_root tier = false → wf d →
  getCompartment id org tier d = getCompartment id org tier (veil d) ∧
  listPeeringRules org tier d = listPeeringRules org tier (veil d) ∧
  (select_compartments org tier d ≠ [] → (listCompartments org tier now d).1 = (listCompartments org tier now (veil d)).1).
Proof.
  intros Ht Hw. split_and!.
  - by rewrite veil_get.
  - unfold listPeeringRules. by rewrite veil_peerings.
  - intros Hne. by rewrite !list_rows, veil_select by (by rewrite ?veil_select).
Qed.

End WithCollation.
End CompartmentFacts.

Module CompartmentSamples.
Import Compartments CompartmentFacts.

#[local] Existing Instance c_collation.

(** Two tenants; the first has a default, an ordinary and a hidden compartment. *)
Definition db : Db.t :=
  Db.empty
    <| Db.organizations := [Org.plain "org-a" "a" "open"; Org.plain "org-b" "b" "open"] |>
    <| Db.compartments :=
         [Compartment.mk "cmp-org-a" "org-a" "Default Compartment" "default" "100.64.0.0/24" false 0;
          Compartment.mk "cmp-lab" "org-a" "Lab" "lab" "100.64.0.0/24" false 1;
          Compartment.mk "cmp-ghost" "org-a" "Ghost" "ghost" "100.64.0.0/24" true 2;
          Compartment.mk "cmp-org-b" "org-b" "Default Compartment" "default" "100.64.0.0/24" false 3] |>
    <| Db.compartment_peerings :=
         [Peering.mk "peer-1" "org-a" "cmp-lab" "cmp-org-a" "deny" 4; Peering.mk "peer-2" "org-a" "cmp-ghost" "cmp-org-a" "allow" 5] |>
    <| Db.nodes :=
         [AclSample.node "n1" "100.64.0.1" (Some "org-a") None; AclSample.node "n2" "100.64.0.2" (Some "org-a") (Some "cmp-ghost");
          AclSample.node "n3" "100.64.0.3" (Some "org-b") (Some "cmp-org-b")] |>
    <| Db.mesh_epochs := {[ "acl" := 1; "routes" := 1; "netmap" := 1 ]} |>.

Lemma db_wf : wf db.
Proof. split; [| |by repeat constructor| | |]; apply (bool_decide_unpack _); vm_compute; exact I. Qed.

Lemma sample_seeded : AclFacts.epochs_seeded db.
Proof. split_and!; by eexists. Qed.

Lemma compartment_tables_invariant_witness :
  wf (perform "org-a" "standard" (Delete "cmp-lab") db).2 ∧
  default_of (Compartment.mk "cmp-org-a" "org-a" "Default Compartment" "default" "100.64.0.0/24" false 0)
    (perform "org-a" "standard" (Delete "cmp-lab") db).2.
Proof.
  destruct (compartment_tables_invariant "org-a" "standard" (Delete "cmp-lab") db db_wf) as [H1 H2].
  split; [exact H1|apply H2; [left|reflexivity]].
Defined.

Lemma compartment_requests_confined_witness :
  others "org-a" (perform "org-a" "root" (SetMembers "cmp-lab" ["n1"; "n3"]) db).2 = others "org-a" db.
Proof. apply (compartment_requests_confined "org-a" "root"). apply db_wf. Defined.


Definition peered_run : outcome Peering.t * Db.t := Eval vm_compute in createPeeringRule "org-a" "cmp-org-a" "cmp-lab" "allow" "standard" "0123456789" 9 db.
Definition peered_row : Peering.t := Peering.mk "peer-01234567" "org-a" "cmp-org-a" "cmp-lab" "allow" 9.
Definition peered_db : Db.t := Eval vm_compute in peered_run.2.

Lemma peering_decides_witness :
  Acl.peered peered_db "cmp-org-a" "cmp-lab" = true ∧ Acl.peered peered_db "cmp-ghost" "cmp-org-a" = true ∧ AclFacts.advanced "acl" db peered_db.
Proof.
  destruct (peering_decides "org-a" "cmp-org-a" "cmp-lab" "allow" "standard" "0123456789" 9 db peered_row peered_db db_wf sample_seeded)
    as (H1 & _ & H3 & H4); [vm_compute; reflexivity|].
  split; [exact H1|split; [rewrite H3; [reflexivity|congruence|congruence]|exact H4]].
Defined.

Definition moved_db : Db.t := Eval vm_compute in (perform "org-a" "standard" (SetMembers "cmp-lab" ["n1"]) db).2.

Lemma policy_change_advances_witness : AclFacts.advanced "acl" db moved_db.
Proof.
  apply (policy_change_advances "org-a" "standard" (SetMembers "cmp-lab" ["n1"]) db moved_db sample_seeded);
    [vm_compute; reflexivity|vm_compute; discriminate].
Defined.

Lemma hidden_compartments_invisible_witness :
  listPeeringRules "org-a" "standard" db = listPeeringRules "org-a" "standard" (veil db) ∧
  (listCompartments "org-a" "standard" 0 db).1 = (listCompartments "org-a" "standard" 0 (veil db)).1.
Proof.
  destruct (hidden_compartments_invisible "org-a" "standard" "cmp-ghost" 0 db) as (_ & H2 & H3); [reflexivity|apply db_wf|].
  split; [exact H2|apply H3; vm_compute; discriminate].
Defined.

(** A slug is unique among the hidden compartments too: below the root tier a create
    that fails tells that a hidden compartment has the slug. *)
Lemma slug_collision_tells :
  (createCompartment "org-a" "Ghost" None None false "standard" "0123456789" 9 db).1 = Throw None "database error" ∧
  (∃ c, (createCompartment "org-a" "Ghost" None None false "standard" "0123456789" 9 (veil db)).1 = Ok c).
Proof. split; [vm_compute; reflexivity|]. eexists. vm_compute. reflexivity. Qed.

(** A peering of a hidden compartment, which the list withholds below the root tier,
    can be deleted there by its id. *)
Lemma hidden_peering_deleted_below_root :
  (∀ v, v ∈ listPeeringRules "org-a" "standard" db → Peering.id (pv_peering v) ≠ "peer-2") ∧
  (perform "org-a" "standard" (Unpeer "peer-2") db).1 = Ok tt ∧
  Acl.peered db "cmp-ghost" "cmp-org-a" = true ∧
  Acl.peered (perform "org-a" "standard" (Unpeer "peer-2") db).2 "cmp-ghost" "cmp-org-a" = false.
Proof.
  split_and!; [|vm_compute; reflexivity..]. apply Forall_forall, (bool_decide_unpack _). vm_compute. exact I.
Qed.

(** The replacement of a peering is not atomic: when the new row is refused, the old
    one is gone and no epoch has advanced. *)
Lemma peering_lost_on_id_collision :
  let d := (createPeeringRule "org-a" "cmp-org-a" "cmp-lab" "allow" "standard" "2" 9 db) in
  d.1 = Throw None "database error" ∧ Peering.id <$> Db.compartment_peerings d.2 = ["peer-2"] ∧
  Acl.getEpoch "acl" d.2 = Acl.getEpoch "acl" db.
Proof. vm_compute. auto. Qed.

End CompartmentSamples.
