(* ===== verification/Governance.v ===== *)
(** * Governance of destruction

    Legal holds, dual authorisation and the shred itself:
    [services/CryptoShreddingService.js] from [governanceTransaction] on.  Every
    operation runs under one advisory lock, so operations do not interleave.

    The accounts, memberships and refresh tokens are those of [Console]; nodes,
    rules, enrolment keys and compartments those of [Db].  Deleting a node takes
    its credentials with it, deleting a compartment its peerings, as the foreign
    keys say.  The configurations of identity providers are the list of the
    organisations that have one.  Audit events sent after the commit and the
    identity-provider tokens of users are left out. *)

From S2P Require Import Prelude Order Js Db Encoding Acl Revocation Sessions Vault.

Module Hold.
Record t := mk {
  id : string; organization_id : string; reason : string; imposed_by_user_id : string;
  active : bool; created_at : Z; released_at : option Z
}.
End Hold.

Module Auth.
Record t := mk {
  id : string; target_type : string; target_id : string; initiator_user_id : string; initiator_comment : string;
  approver_user_id : option string; approver_comment : option string; status : string;
  expires_at : Z; created_at : Z; executed_at : option Z
}.
End Auth.

Module Gov.
Record t := mk {
  db : Db.t; console : Console.t; vault : Vault.t;
  holds : list Hold.t; authorizations : list Auth.t; oidc_configs : list string
}.
End Gov.

Module Governance.
Import Sessions.

(** What is left to do once the transaction has committed. *)
Inductive notification := BumpNetmap | LogAudit (eventType targetId : string).

Definition notify (n : notification) (g : Gov.t) : Gov.t :=
  match n with
  | BumpNetmap => g <| Gov.db ::= λ d, (Acl.bumpNetmap d).2 |>
  | LogAudit _ _ => g
  end.

Definition governanceTransaction {A} (operation : eff Gov.t (A * list notification)) : eff Gov.t A :=
  λ g, match operation g with
       | (Ok (a, afterCommit), g') => (Ok a, foldl (λ g n, notify n g) g' afterCommit)
       | (Throw st m, _) => (Throw st m, g)
       end.

Definition access_error {A} (status : Z) (msg : string) : eff Gov.t A := throw (Some status) msg.
Definition not_found {A} : eff Gov.t A := access_error 404 "Governance target not found".

Definition org_row (orgId : string) (g : Gov.t) : option Org.t :=
  select1 (λ o, (Org.id o =? orgId)%string) (Db.organizations (Gov.db g)).

(** Row locks change nothing; what counts are the checks. *)
Definition lockGovernanceTarget (targetType targetId : string) (allowDestroyed : bool) : eff Gov.t unit :=
  if (targetType =? "organization")%string then
    g <-! get ;
    match org_row targetId g with
    | None => not_found
    | Some org => if bool_decide (is_Some (Org.destroyed_at org)) && negb allowDestroyed then not_found else eff_ret tt
    end
  else eff_ret tt.

Definition hasActiveLegalHold (orgId : string) (g : Gov.t) : option Hold.t :=
  select1 (λ h, (Hold.organization_id h =? orgId)%string && Hold.active h) (Gov.holds g).

Record actor := mk_actor { a_id : string; a_organization_id : string; platform : bool; a_role : option string }.

Definition getGovernanceActor (userId : string) : eff Gov.t actor :=
  g <-! get ;
  match select1 (λ u, (Account.id u =? userId)%string) (Console.users (Gov.console g)) with
  | None => access_error 403 "Active governance account required"
  | Some u =>
      if negb (Account.status u =? "active")%string then access_error 403 "Active governance account required" else
      let org := coalesce (Account.organization_id u) org_default in
      eff_ret (mk_actor (Account.id u) org (Account.role u =? "super-admin")%string
        (Membership.role <$> select1 (λ m, (Membership.user_id m =? userId)%string && (Membership.organization_id m =? org)%string)
           (Console.memberships (Gov.console g))))
  end.

Definition has_role (roles : list string) (a : actor) : bool :=
  match a_role a with Some r => bool_decide (r ∈ roles) | None => false end.

Definition requireGovernanceRole (userId : string) (roles : list string) : eff Gov.t actor :=
  a <-! getGovernanceActor userId ;
  if negb (platform a) && negb (has_role roles a) then access_error 403 "Insufficient governance role" else eff_ret a.

Definition authorizeGovernanceTarget (userId targetType targetId : string) (roles : list string) : eff Gov.t actor :=
  a <-! getGovernanceActor userId ;
  (if (targetType =? "global")%string then
     if negb (platform a) then access_error 403 "Platform super-admin role required" else eff_ret tt
   else if (targetType =? "organization")%string then
     if negb (platform a) && negb (a_organization_id a =? targetId)%string then not_found else
     g <-! get ;
     match org_row targetId g with
     | None => not_found
     | Some _ => if negb (platform a) && negb (has_role roles a) then access_error 403 "Insufficient governance role" else eff_ret tt
     end
   else access_error 400 "targetType must be 'organization' or 'global'") ;!
  eff_ret a.

Definition OWNER_ADMIN : list string := ["owner"; "admin"].

Definition listLegalHolds (userId : string) : eff Gov.t (list Hold.t) :=
  a <-! getGovernanceActor userId ;
  g <-! get ;
  eff_ret (js_sort (λ x y, Hold.created_at y - Hold.created_at x)
    (where_ (λ h, platform a || (Hold.organization_id h =? a_organization_id a)%string) (Gov.holds g))).

Definition listDestructionRequests (userId : string) (pendingOnly : bool) (now : Z) : eff Gov.t (list Auth.t) :=
  a <-! getGovernanceActor userId ;
  g <-! get ;
  eff_ret (js_sort (λ x y, Auth.created_at y - Auth.created_at x)
    (where_ (λ x, (platform a || ((Auth.target_type x =? "organization")%string && (Auth.target_id x =? a_organization_id a)%string)) &&
                  (negb pendingOnly || ((Auth.status x =? "pending")%string && (now <? Auth.expires_at x)))) (Gov.authorizations g))).

Definition auth_row (id : string) (g : Gov.t) : option Auth.t :=
  select1 (λ x, (Auth.id x =? id)%string) (Gov.authorizations g).

Definition rejected (userId comment : string) (now : Z) (x : Auth.t) : Auth.t :=
  x <| Auth.status := "rejected" |> <| Auth.approver_user_id := Some userId |>
    <| Auth.approver_comment := Some comment |> <| Auth.executed_at := Some now |>.

Definition is_pending (id : string) (x : Auth.t) : bool := (Auth.id x =? id)%string && (Auth.status x =? "pending")%string.

Definition rejectDestruction (authorizationId userId comment : string) (now : Z) : eff Gov.t (option Auth.t) :=
  governanceTransaction (
    g <-! get ;
    match auth_row authorizationId g with
    | None => eff_ret (None, [])
    | Some auth =>
        lockGovernanceTarget (Auth.target_type auth) (Auth.target_id auth) true ;!
        authorizeGovernanceTarget userId (Auth.target_type auth) (Auth.target_id auth) OWNER_ADMIN ;!
        modify (λ g, g <| Gov.authorizations ::= update_where (is_pending authorizationId) (rejected userId comment now) |>) ;!
        eff_ret (rejected userId comment now <$> select1 (is_pending authorizationId) (Gov.authorizations g), [])
    end).

Definition imposeLegalHold (orgId reason userId rnd : string) (now : Z) : eff Gov.t Hold.t :=
  if (reason =? "")%string then throw None "Legal hold reason is required" else
  governanceTransaction (
    lockGovernanceTarget "organization" orgId false ;!
    authorizeGovernanceTarget userId "organization" orgId OWNER_ADMIN ;!
    let hold := Hold.mk ("hold-" +:+ take_string 8 rnd) orgId reason userId true now None in
    g <-! get ;
    (if existsb (λ h, (Hold.id h =? Hold.id hold)%string) (Gov.holds g) then db_error
     else modify (λ g, g <| Gov.holds ::= λ l, l ++ [hold] |>)) ;!
    eff_ret (hold, [LogAudit "LEGAL_HOLD_IMPOSED" orgId])).

Definition active_hold (id : string) (h : Hold.t) : bool := (Hold.id h =? id)%string && Hold.active h.
Definition released (now : Z) (h : Hold.t) : Hold.t := h <| Hold.active := false |> <| Hold.released_at := Some now |>.

Definition releaseLegalHold (holdId userId : string) (now : Z) : eff Gov.t (option Hold.t) :=
  governanceTransaction (
    g <-! get ;
    match select1 (λ h, (Hold.id h =? holdId)%string) (Gov.holds g) with
    | None => eff_ret (None, [])
    | Some hold =>
        let orgId := Hold.organization_id hold in
        lockGovernanceTarget "organization" orgId false ;!
        authorizeGovernanceTarget userId "organization" orgId ["owner"] ;!
        modify (λ g, g <| Gov.holds ::= update_where (active_hold holdId) (released now) |>) ;!
        eff_ret (match select1 (active_hold holdId) (Gov.holds g) with
                 | None => (None, [])
                 | Some h => (Some (released now h), [LogAudit "LEGAL_HOLD_RELEASED" orgId])
                 end)
    end).

Definition checkDestructionHolds (targetType targetId : string) : eff Gov.t unit :=
  g <-! get ;
  if (targetType =? "organization")%string then
    match hasActiveLegalHold targetId g with
    | Some h => throw (Some 403) ("Destruction blocked: active legal hold (" +:+ Hold.reason h +:+ ")")
    | None => eff_ret tt
    end
  else if (targetType =? "global")%string then
    match select1 Hold.active (Gov.holds g) with
    | Some h => throw (Some 403) ("Global destruction blocked: active legal hold on org " +:+ Hold.organization_id h)
    | None => eff_ret tt
    end
  else eff_ret tt.

Definition requestDestruction (targetType targetId initiatorUserId comment rnd : string) (now : Z) : eff Gov.t Auth.t :=
  governanceTransaction (
    lockGovernanceTarget targetType targetId false ;!
    authorizeGovernanceTarget initiatorUserId targetType targetId OWNER_ADMIN ;!
    checkDestructionHolds targetType targetId ;!
    let auth := Auth.mk ("auth-" +:+ take_string 8 rnd) targetType targetId initiatorUserId comment None None "pending"
                  (now + 24 * 3600 * 1000) now None in
    g <-! get ;
    (if existsb (λ x, (Auth.id x =? Auth.id auth)%string) (Gov.authorizations g) then db_error
     else modify (λ g, g <| Gov.authorizations ::= λ l, l ++ [auth] |>)) ;!
    eff_ret (auth, [LogAudit "NUKE_AUTHORIZATION_REQUESTED" targetId])).

(** ** The shred *)

Definition on_db {A} (m : eff Db.t A) : eff Gov.t A :=
  λ g, let '(o, d) := m (Gov.db g) in (o, g <| Gov.db := d |>).

Definition of_org (orgId : string) (o : option string) : bool := opt_is o orgId.

(** The accounts of the organisation that are not platform administrators. *)
Definition tenant_account (orgId : string) (u : Account.t) : bool :=
  of_org orgId (Account.organization_id u) && negb (Account.role u =? "super-admin")%string.

(** The row after UPDATE users, through the trigger. *)
Definition revoke_account (u : Account.t) : Account.t :=
  let new := u <| Account.status := "revoked" |> <| Account.totp_secret := None |> <| Account.totp_pending_secret := None |> in
  default u (advance_console_auth_epoch u new).

Definition revoke_accounts (orgId : string) (now : Z) (c : Console.t) : Console.t :=
  let ids := Account.id <$> where_ (tenant_account orgId) (Console.users c) in
  c <| Console.users ::= update_where (tenant_account orgId) revoke_account |>
    <| Console.refresh_tokens ::= update_where (λ r, bool_decide (Refresh.user_id r ∈ ids) && negb (Refresh.revoked r))
         (λ r, r <| Refresh.revoked := true |> <| Refresh.revoked_at := Some now |>) |>.

Definition delete_tenant_rows (orgId : string) (d : Db.t) : Db.t :=
  delete_compartments (λ c, (Compartment.organization_id c =? orgId)%string)
    (delete_nodes (λ n, of_org orgId (Node.organization_id n)) d
       <| Db.acl_rules ::= delete_where (λ r, of_org orgId (Rule.organization_id r)) |>
       <| Db.preauth_keys ::= delete_where (λ k, of_org orgId (PreAuthKey.organization_id k)) |>).

Definition mark_destroyed (orgId : string) (now : Z) (d : Db.t) : Db.t :=
  d <| Db.organizations ::= update_where (λ o, (Org.id o =? orgId)%string) (λ o, o <| Org.destroyed_at := Some now |>) |>.

Section WithRetention.
Context (RETENTION_HOURS : Z).

Record shred_result := mk_shred { shredded : string; nodes_revoked : Z; users_revoked : Z }.

(** Inside the transaction of the approval. *)
Definition executeOrgShred (orgId approverId : string) (now : Z) : eff Gov.t (shred_result * list notification) :=
  g <-! get ;
  let nodeIds := Node.id <$> where_ (λ n, of_org orgId (Node.organization_id n)) (Db.nodes (Gov.db g)) in
  let users := where_ (tenant_account orgId) (Console.users (Gov.console g)) in
  on_db (Revocation.revokeNodeKeys RETENTION_HOURS nodeIds "organization_shredded" (Some approverId) true now) ;!
  modify (λ g, g <| Gov.vault ::= Vault.shred_key orgId now |>
                 <| Gov.db ::= λ d, Acl.bump "netmap" (mark_destroyed orgId now (delete_tenant_rows orgId d)) |>
                 <| Gov.oidc_configs ::= where_ (λ o, negb (o =? orgId)%string) |>
                 <| Gov.console ::= revoke_accounts orgId now |>) ;!
  eff_ret (mk_shred orgId (Z.of_nat (length nodeIds)) (Z.of_nat (length users)),
           [BumpNetmap; LogAudit "ORG_CRYPTO_SHREDDED" orgId]).

Definition delete_fleet (d : Db.t) : Db.t :=
  delete_nodes (λ _, true) (d <| Db.acl_rules := [] |> <| Db.network_routes := [] |>) <| Db.preauth_keys := [] |>.

Definition executeGlobalShred (approverId : string) (now : Z) : eff Gov.t (shred_result * list notification) :=
  g <-! get ;
  let nodeIds := Node.id <$> Db.nodes (Gov.db g) in
  on_db (Revocation.revokeNodeKeys RETENTION_HOURS nodeIds "global_shredded" (Some approverId) true now) ;!
  modify (λ g, g <| Gov.vault ::= Vault.shred_all_keys now |> <| Gov.db ::= λ d, Acl.bump "netmap" (delete_fleet d) |>) ;!
  eff_ret (mk_shred "global" (Z.of_nat (length nodeIds)) 0, [BumpNetmap; LogAudit "GLOBAL_CRYPTO_SHREDDED" "global"]).

(** [executeOrgShred] and [executeGlobalShred] without a client. *)
Definition shredOrgAlone (orgId approverId : string) (now : Z) : eff Gov.t shred_result :=
  governanceTransaction (
    lockGovernanceTarget "organization" orgId false ;!
    checkDestructionHolds "organization" orgId ;!
    executeOrgShred orgId approverId now).
Definition shredGlobalAlone (approverId : string) (now : Z) : eff Gov.t shred_result :=
  governanceTransaction (
    lockGovernanceTarget "global" "global" false ;!
    checkDestructionHolds "global" "global" ;!
    executeGlobalShred approverId now).

(** *** The approval *)

Definition set_status (id : string) (f : Auth.t → Auth.t) : eff Gov.t unit :=
  modify (λ g, g <| Gov.authorizations ::= update_where (λ x, (Auth.id x =? id)%string) f |>).

(** The initiator must still hold the authority. *)
Definition recheck_initiator (auth : Auth.t) : eff Gov.t unit :=
  λ g, match authorizeGovernanceTarget (Auth.initiator_user_id auth) (Auth.target_type auth) (Auth.target_id auth) OWNER_ADMIN g with
       | (Ok _, g') => (Ok tt, g')
       | (Throw (Some _) _, g') => (Throw (Some 403) "Initiator is no longer authorized for this target", g')
       | (Throw None m, g') => (Throw None m, g')
       end.

(** [None] is the answer for an expired request, which is committed. *)
Definition approve_tx (authorizationId approverUserId approverComment : string) (now : Z)
    : eff Gov.t (option shred_result * list notification) :=
  g <-! get ;
  match auth_row authorizationId g with
  | None => not_found
  | Some auth =>
      lockGovernanceTarget (Auth.target_type auth) (Auth.target_id auth) true ;!
      authorizeGovernanceTarget approverUserId (Auth.target_type auth) (Auth.target_id auth) OWNER_ADMIN ;!
      recheck_initiator auth ;!
      if negb (Auth.status auth =? "pending")%string then throw None "Authorization is not pending" else
      if Auth.expires_at auth <? now then
        set_status authorizationId (λ x, x <| Auth.status := "expired" |>) ;! eff_ret (None, [])
      else if (Auth.initiator_user_id auth =? approverUserId)%string then
        throw (Some 403) "Dual-authorization violation: the approving administrator must be distinct from the initiating administrator"
      else
        lockGovernanceTarget (Auth.target_type auth) (Auth.target_id auth) false ;!
        checkDestructionHolds (Auth.target_type auth) (Auth.target_id auth) ;!
        r <-! (if (Auth.target_type auth =? "organization")%string
               then executeOrgShred (Auth.target_id auth) approverUserId now
               else executeGlobalShred approverUserId now) ;
        set_status authorizationId (λ x, x <| Auth.status := "executed" |> <| Auth.approver_user_id := Some approverUserId |>
          <| Auth.approver_comment := Some approverComment |> <| Auth.executed_at := Some now |>) ;!
        eff_ret (Some r.1, r.2)
  end.

Definition approveAndExecuteDestruction (authorizationId approverUserId approverComment : string) (now : Z) : eff Gov.t shred_result :=
  r <-! governanceTransaction (approve_tx authorizationId approverUserId approverComment now) ;
  match r with
  | None => throw None "Authorization has expired"
  | Some res => eff_ret res
  end.

End WithRetention.
End Governance.

(** ** What governance guarantees *)

Module GovernanceFacts.
Import Sessions Governance.

(** Who may act on a target: an active account that is a platform administrator,
    or that holds one of the roles in the organisation it belongs to. *)
Definition governs (roles : list string) (g : Gov.t) (userId targetType targetId : string) : Prop :=
  ∃ u, u ∈ Console.users (Gov.console g) ∧ Account.id u = userId ∧ Account.status u = "active" ∧
    ((Account.role u = "super-admin" ∧ (targetType = "global" ∨ targetType = "organization")) ∨
     (targetType = "organization" ∧ coalesce (Account.organization_id u) org_default = targetId ∧
      ∃ m, m ∈ Console.memberships (Gov.console g) ∧ Membership.user_id m = userId ∧
        Membership.organization_id m = targetId ∧ Membership.role m ∈ roles)).

Definition unheld (g : Gov.t) (targetType targetId : string) : Prop :=
  ∀ h, h ∈ Gov.holds g → (targetType = "organization" → Hold.organization_id h = targetId) → Hold.active h = false.

Definition destroyed (g : Gov.t) (orgId : string) : Prop :=
  ∃ o, o ∈ Db.organizations (Gov.db g) ∧ Org.id o = orgId ∧ is_Some (Org.destroyed_at o).

Lemma getGovernanceActor_ok i g a g' : getGovernanceActor i g = (Ok a, g') →
  g' = g ∧ ∃ u, u ∈ Console.users (Gov.console g) ∧ Account.id u = i ∧ Account.status u = "active" ∧
    platform a = (Account.role u =? "super-admin")%string ∧ a_organization_id a = coalesce (Account.organization_id u) org_default ∧
    ∀ r, a_role a = Some r → ∃ m, m ∈ Console.memberships (Gov.console g) ∧ Membership.user_id m = i ∧
      Membership.organization_id m = a_organization_id a ∧ Membership.role m = r.
Proof.
  intros (g0 & g1 & [= <- <-] & H)%eff_bind_ok. destruct (select1 _ (Console.users _)) as [u|] eqn:Hs; [|done].
  destruct (negb _) eqn:E; [done|]. injection H as <- <-. apply select1_elem in Hs as [Hi%String.eqb_eq Hu]. b2p.
  split; [done|]. exists u. split; [done|]. split; [done|]. split; [done|]. split; [done|]. split; [done|]. simpl.
  intros r Hr. apply fmap_Some in Hr as (m & Hm & ->). apply select1_elem in Hm as [Hm Hin]. b2p. eauto 10.
Qed.

Lemma has_role_spec roles a : has_role roles a = true → ∃ r, a_role a = Some r ∧ r ∈ roles.
Proof. unfold has_role. destruct (a_role a) as [r|]; [|done]. intros H%bool_decide_eq_true. eauto. Qed.

Lemma authorize_ok i ty tid roles g a g' :
  authorizeGovernanceTarget i ty tid roles g = (Ok a, g') → g' = g ∧ governs roles g i ty tid.
Proof.
  intros (a0 & g1 & H1 & H)%eff_bind_ok. apply getGovernanceActor_ok in H1 as (-> & u & Hu & Hi & Ha & Hp & Ho & Hr).
  apply eff_bind_ok in H as (x & g2 & H2 & H). injection H as <- <-.
  destruct (String.eqb_spec ty "global") as [->|Hg].
  - destruct (platform a0); [|done]. injection H2 as _ <-. split; [done|]. exists u. symmetry in Hp. b2p. eauto 10.
  - destruct (String.eqb_spec ty "organization") as [->|]; [|done]. destruct (negb (platform a0) && negb _) eqn:E1; [done|].
    apply eff_bind_ok in H2 as (g3 & g4 & [= <- <-] & H2). destruct (org_row _ _); [|done].
    destruct (negb (platform a0) && negb (has_role _ _)) eqn:E2; [done|]. injection H2 as _ <-. split; [done|].
    exists u. split; [done|]. split; [done|]. split; [done|]. destruct (platform a0); [left; symmetry in Hp; b2p; auto|right].
    simpl in E1, E2. b2p. destruct (has_role_spec _ _ E2) as (r & Hr1 & Hr2). destruct (Hr r Hr1) as (m & Hm & Hmu & Hmo & Hmr).
    split; [done|]. split; [congruence|]. exists m. split; [done|]. split; [done|]. split; congruence.
Qed.

Lemma lock_ok ty tid b g a g' : lockGovernanceTarget ty tid b g = (Ok a, g') →
  g' = g ∧ (ty = "organization" → b = false → NoDup (Org.id <$> Db.organizations (Gov.db g)) → ¬ destroyed g tid).
Proof.
  unfold lockGovernanceTarget. destruct (String.eqb_spec ty "organization") as [->|]; [|by intros [= _ <-]].
  intros (g0 & g1 & [= <- <-] & H)%eff_bind_ok. destruct (org_row tid g) as [o|] eqn:Ho; [|done].
  destruct (bool_decide _ && _) eqn:E; [done|]. injection H as _ <-. split; [done|]. intros _ -> Hnd (x & Hx & Hxi & Hd).
  rewrite andb_true_r in E. b2p. unfold org_row in Ho. apply select1_elem in Ho as [Hoi%String.eqb_eq Hoin].
  assert (x = o) as -> by (apply (NoDup_fmap_inj Org.id (Db.organizations (Gov.db g))); [done..|congruence]). done.
Qed.

Lemma holds_ok ty tid g a g' : checkDestructionHolds ty tid g = (Ok a, g') → (ty = "organization" ∨ ty = "global") → g' = g ∧ unheld g ty tid.
Proof.
  intros (g0 & g1 & [= <- <-] & H)%eff_bind_ok Hty. destruct (String.eqb_spec ty "organization") as [->|].
  - unfold hasActiveLegalHold in H. destruct (select1 _ _) eqn:Hs; [done|]. injection H as _ <-. split; [done|].
    intros h Hh Ho. apply select1_none with (x := h) in Hs; [|done]. rewrite (proj2 (String.eqb_eq _ _) (Ho eq_refl)) in Hs. done.
  - destruct Hty as [?| ->]; [done|]. simpl in H. destruct (select1 _ _) eqn:Hs; [done|]. injection H as _ <-. split; [done|].
    intros h Hh _. by apply select1_none with (x := h) in Hs.
Qed.

Lemma governs_target roles g i ty tid : governs roles g i ty tid → ty = "organization" ∨ ty = "global".
Proof. intros (u & _ & _ & _ & [[_ [?|?]]|[? _]]); auto. Qed.

(** *** Frames *)

(** Revoking keys touches the revocation list, the credentials of the nodes named
    and the epochs. *)
Lemma revoke_credentials_others ids now d c d' :
  Revocation.revoke_credentials ids now d = (Ok tt, d') → c ∈ Db.node_credentials d → Credential.node_id c ∉ ids →
  c ∈ Db.node_credentials d'.
Proof.
  revert d. induction ids as [|i ids IH]; intros d; [by intros [= <-]|]. cbn [Revocation.revoke_credentials].
  intros (n & d1 & H1 & H)%eff_bind_ok Hc Hni. rewrite not_elem_of_cons in Hni. destruct Hni as [Hi Hni].
  apply (IH d1); [done| |done]. unfold Credentials.revokeNodeCredentials in H1. destruct (_ =? _)%string; [by injection H1 as _ <-|].
  apply eff_bind_ok in H1 as (d2 & d3 & [= <- <-] & H1). apply eff_bind_ok in H1 as (x & d4 & [= _ <-] & H1).
  injection H1 as _ <-. apply elem_of_update. exists c. split; [done|]. by rewrite (proj2 (String.eqb_neq _ _) Hi).
Qed.

Record only_revoked (ids : list string) (d d' : Db.t) : Prop := {
  or_shape : ∃ rk nc me, d' = d <| Db.revoked_keys := rk |> <| Db.node_credentials := nc |> <| Db.mesh_epochs := me |>;
  or_credentials c : c ∈ Db.node_credentials d → Credential.node_id c ∉ ids → c ∈ Db.node_credentials d'
}.

Lemma revokeNodeKeys_frame RET ids reason actorId now d o d' :
  Revocation.revokeNodeKeys RET ids reason actorId true now d = (o, d') → only_revoked ids d d'.
Proof.
  rewrite revokeNodeKeys_body. cbv zeta. set (live := where_ _ ids).
  assert (∀ x, x ∉ ids → x ∉ live) as Hlive by (intros x Hx [_ ?]%elem_of_where; done).
  assert (d = d <| Db.revoked_keys := Db.revoked_keys d |> <| Db.node_credentials := Db.node_credentials d |>
    <| Db.mesh_epochs := Db.mesh_epochs d |>) as Hd by by destruct d.
  destruct live as [|i l]; [intros [= _ <-]; by split; [eauto|]|].
  unfold revoke_body, eff_bind, get. destruct (RevocationFacts.revoke_credentials_run (i :: l) now d) as (lc & Ec & _).
  pose proof (λ c, revoke_credentials_others _ _ _ c _ Ec) as Hcr. rewrite Ec.
  destruct (Revocation.revoke_rows_loop _ _ _ _ _ _) as [o1 d2] eqn:El.
  apply RevocationFacts.revoke_rows_loop_run in El as (lr & -> & _). intros H.
  assert (∃ me, d' = d <| Db.revoked_keys := lr |> <| Db.node_credentials := lc |> <| Db.mesh_epochs := me |>) as (me & ->).
  { destruct o1 as [[|k ks]|]; injection H as _ <-; [|eexists; reflexivity|]; exists (Db.mesh_epochs d); by destruct d. }
  split; [eauto|]. intros c Hc Hni. by apply Hcr, Hlive.
Qed.

(** What the notifications after a commit leave alone. *)
Record same_records (g g' : Gov.t) : Prop := {
  sr_orgs : Db.organizations (Gov.db g') = Db.organizations (Gov.db g);
  sr_holds : Gov.holds g' = Gov.holds g;
  sr_auths : Gov.authorizations g' = Gov.authorizations g
}.

#[export] Instance same_records_preorder : PreOrder same_records.
Proof. split; [by intros g|]. intros g1 g2 g3 [] []. split; congruence. Qed.

Lemma notify_same n g : same_records g (notify n g).
Proof. destruct n; [split; reflexivity|done]. Qed.

Lemma notified_same notes g : same_records g (foldl (λ g n, notify n g) g notes).
Proof. revert g. induction notes as [|n l IH]; intros g; [done|]. simpl. etrans; [apply notify_same|apply IH]. Qed.

Lemma governed {A} (op : eff Gov.t (A * list notification)) g o g' :
  governanceTransaction op g = (o, g') →
  (∃ st m, o = Throw st m ∧ g' = g) ∨ (∃ a notes g1, o = Ok a ∧ op g = (Ok (a, notes), g1) ∧ same_records g1 g').
Proof.
  unfold governanceTransaction. destruct (op g) as [[[a notes]|st m] g1]; intros [= <- <-]; [right|by left; eauto].
  exists a, notes, g1. split; [done|]. split; [done|]. apply notified_same.
Qed.

Section Histories.
Context (RET : Z).

Definition marked (orgId : string) (now : Z) : list Org.t → list Org.t :=
  update_where (λ o, (Org.id o =? orgId)%string) (λ o, o <| Org.destroyed_at := Some now |>).

Lemma org_shred_run orgId ap now g x g' :
  executeOrgShred RET orgId ap now g = (Ok x, g') →
  ∃ d1, only_revoked (Node.id <$> where_ (λ n, of_org orgId (Node.organization_id n)) (Db.nodes (Gov.db g))) (Gov.db g) d1 ∧
    g' = g <| Gov.vault ::= Vault.shred_key orgId now |>
           <| Gov.db := Acl.bump "netmap" (mark_destroyed orgId now (delete_tenant_rows orgId d1)) |>
           <| Gov.oidc_configs ::= where_ (λ o, negb (o =? orgId)%string) |>
           <| Gov.console ::= revoke_accounts orgId now |>.
Proof.
  intros (g0 & g1 & [= <- <-] & H)%eff_bind_ok. apply eff_bind_ok in H as (ks & g2 & H2 & H).
  apply eff_bind_ok in H as (u & g3 & [= <- <-] & H). injection H as _ <-. unfold on_db in H2.
  destruct (Revocation.revokeNodeKeys _ _ _ _ _ _ _) as [o d1] eqn:Er. injection H2 as -> <-.
  exists d1. split; [by eapply revokeNodeKeys_frame|done].
Qed.

Lemma org_shred_records orgId ap now g x g' :
  executeOrgShred RET orgId ap now g = (Ok x, g') →
  Db.organizations (Gov.db g') = marked orgId now (Db.organizations (Gov.db g)) ∧ Gov.holds g' = Gov.holds g
  ∧ Gov.authorizations g' = Gov.authorizations g.
Proof. intros (d1 & [(rk & nc & me & ->) _] & ->)%org_shred_run. done. Qed.

Lemma global_shred_records ap now g x g' : executeGlobalShred RET ap now g = (Ok x, g') → same_records g g'.
Proof.
  intros (g0 & g1 & [= <- <-] & H)%eff_bind_ok. apply eff_bind_ok in H as (ks & g2 & H2 & H).
  apply eff_bind_ok in H as (u & g3 & [= <- <-] & H). injection H as _ <-. unfold on_db in H2.
  destruct (Revocation.revokeNodeKeys _ _ _ _ _ _ _) as [o d1] eqn:Er. injection H2 as -> <-.
  apply revokeNodeKeys_frame in Er as [(rk & nc & me & ->) _]. done.
Qed.

(** The conditions under which an approval destroys. *)
Record approved (g : Gov.t) (auth : Auth.t) (approver : string) (now : Z) : Prop := {
  ap_row : auth ∈ Gov.authorizations g;
  ap_pending : Auth.status auth = "pending";
  ap_fresh : now <= Auth.expires_at auth;
  ap_two : Auth.initiator_user_id auth ≠ approver;
  ap_approver : governs OWNER_ADMIN g approver (Auth.target_type auth) (Auth.target_id auth);
  ap_initiator : governs OWNER_ADMIN g (Auth.initiator_user_id auth) (Auth.target_type auth) (Auth.target_id auth);
  ap_unheld : unheld g (Auth.target_type auth) (Auth.target_id auth)
}.

Definition settle (id status : string) (ap cm : option string) (ex : option Z) : list Auth.t → list Auth.t :=
  update_where (λ x, (Auth.id x =? id)%string) (λ x, x <| Auth.status := status |> <| Auth.approver_user_id := ap |>
    <| Auth.approver_comment := cm |> <| Auth.executed_at := ex |>).

Lemma recheck_ok auth g g' : recheck_initiator auth g = (Ok tt, g') →
  g' = g ∧ governs OWNER_ADMIN g (Auth.initiator_user_id auth) (Auth.target_type auth) (Auth.target_id auth).
Proof.
  unfold recheck_initiator. destruct (authorizeGovernanceTarget _ _ _ _ g) as [[a|[st|] m] g1] eqn:E; [|done..].
  intros [= <-]. by apply authorize_ok in E.
Qed.

Lemma approve_tx_ok id ap cm now g ro notes g' :
  approve_tx RET id ap cm now g = (Ok (ro, notes), g') →
  ∃ auth, auth_row id g = Some auth ∧ Auth.status auth = "pending" ∧
  match ro with
  | None => g' = g <| Gov.authorizations ::= update_where (λ x, (Auth.id x =? id)%string) (λ x, x <| Auth.status := "expired" |>) |>
  | Some r => approved g auth ap now ∧ ∃ g1,
      (if (Auth.target_type auth =? "organization")%string then executeOrgShred RET (Auth.target_id auth) ap now
       else executeGlobalShred RET ap now) g = (Ok (r, notes), g1) ∧
      g' = g1 <| Gov.authorizations ::= settle id "executed" (Some ap) (Some cm) (Some now) |>
  end.
Proof.
  intros (g0 & g1 & [= <- <-] & H)%eff_bind_ok. destruct (auth_row id g) as [auth|] eqn:Ha; [|done]. exists auth. split; [done|].
  apply eff_bind_ok in H as ([] & g1 & H1 & H). apply lock_ok in H1 as [-> _].
  apply eff_bind_ok in H as (a & g1 & H1 & H). apply authorize_ok in H1 as [-> Hap].
  apply eff_bind_ok in H as ([] & g1 & H1 & H). apply recheck_ok in H1 as [-> Hin].
  destruct (negb _) eqn:Ep; [done|]. b2p. split; [done|]. destruct (_ <? now) eqn:Ee.
  - apply eff_bind_ok in H as (u & g2 & [= _ <-] & H). injection H as <- _ <-. done.
  - destruct (_ =? ap)%string eqn:Et; [done|]. apply eff_bind_ok in H as (u & g2 & H2 & H). apply lock_ok in H2 as [-> _].
    apply eff_bind_ok in H as (v & g2 & H2 & H). apply holds_ok in H2 as [-> Hh]; [|by eapply governs_target].
    apply eff_bind_ok in H as ([r n] & g3 & H3 & H). apply eff_bind_ok in H as (w & g4 & [= _ <-] & H).
    injection H as <- <- <-. b2p. split; [|eauto]. unfold auth_row in Ha. apply select1_elem in Ha as [_ Hin'].
    split; [done|done|lia|done|done|done|done].
Qed.

Inductive step : Gov.t → Gov.t → Prop :=
  | step_request ty tid i cm rnd now g : step g (requestDestruction ty tid i cm rnd now g).2
  | step_approve id ap cm now g : step g (approveAndExecuteDestruction RET id ap cm now g).2
  | step_reject id i cm now g : step g (rejectDestruction id i cm now g).2
  | step_impose orgId reason i rnd now g : step g (imposeLegalHold orgId reason i rnd now g).2
  | step_release id i now g : step g (releaseLegalHold id i now g).2
  | step_other g g' : same_records g g' → step g g'.

(** *** What each operation does to the records *)

Lemma same_destroyed g g' o : Db.organizations (Gov.db g') = Db.organizations (Gov.db g) → destroyed g' o ↔ destroyed g o.
Proof. intros E. unfold destroyed. by rewrite E. Qed.

(** Requests that were decided stay decided. *)
Definition decided (g : Gov.t) (id : string) : Prop := ∀ x, x ∈ Gov.authorizations g → Auth.id x = id → Auth.status x ≠ "pending".
Definition known (g : Gov.t) (id : string) : Prop := id ∈ Auth.id <$> Gov.authorizations g.

Record record_step (g g' : Gov.t) : Prop := {
  rs_known id : known g id → known g' id;
  rs_decided id : known g id → decided g id → decided g' id;
  rs_hold h : h ∈ Gov.holds g → h ∈ Gov.holds g' ∨
    ∃ user now, governs ["owner"] g user "organization" (Hold.organization_id h) ∧ g' = (releaseLegalHold (Hold.id h) user now g).2;
  rs_destroyed o : destroyed g' o → destroyed g o ∨
    ∃ auth ap now, approved g auth ap now ∧ Auth.target_type auth = "organization" ∧ Auth.target_id auth = o;
  rs_unique : NoDup (Hold.id <$> Gov.holds g) → NoDup (Hold.id <$> Gov.holds g')
}.

Lemma same_record_step g g' : same_records g g' → record_step g g'.
Proof.
  intros [Ho Hh Ha]. split.
  - intros id. unfold known. by rewrite Ha.
  - intros id. unfold known, decided. by rewrite Ha.
  - intros h Hin. left. by rewrite Hh.
  - intros o. rewrite (same_destroyed g g'); [by left|done].
  - by rewrite Hh.
Qed.

Lemma request_records ty tid i cm rnd now g : record_step g (requestDestruction ty tid i cm rnd now g).2.
Proof.
  unfold requestDestruction. destruct (governanceTransaction _ g) as [o g'] eqn:E.
  apply governed in E as [(st & m & -> & ->)|(a & notes & g1 & -> & H & Hsame)]; [by apply same_record_step|].
  apply eff_bind_ok in H as (u & g2 & H2 & H). apply lock_ok in H2 as [-> _].
  apply eff_bind_ok in H as (v & g2 & H2 & H). apply authorize_ok in H2 as [-> Hg].
  apply eff_bind_ok in H as (w & g2 & H2 & H). apply holds_ok in H2 as [-> _]; [|by eapply governs_target].
  apply eff_bind_ok in H as (g2 & g3 & [= <- <-] & H). apply eff_bind_ok in H as (x & g3 & H3 & H). injection H as _ _ <-.
  destruct (existsb _ _) eqn:Ex; [done|]. injection H3 as _ <-. destruct Hsame as [So Sh Sa]. simpl in *. split.
  - intros id. unfold known. rewrite Sa, fmap_app, elem_of_app. by left.
  - intros id Hk Hd y. rewrite Sa, elem_of_app. intros [Hy|Hy]; [by apply Hd|]. apply list_elem_of_singleton in Hy as ->. simpl.
    intros <- _. apply not_true_iff_false in Ex. apply Ex, existsb_exists. apply list_elem_of_fmap in Hk as (y & Hy & Hin).
    exists y. split; [by apply list_elem_of_In|]. by apply String.eqb_eq.
  - intros h Hh. left. by rewrite Sh.
  - intros o. unfold destroyed. rewrite So. by left.
  - by rewrite Sh.
Qed.

(** A status change of one request. *)
Lemma settled_records g g' id f st :
  Gov.authorizations g' = update_where (λ x, (Auth.id x =? id)%string) f (Gov.authorizations g) →
  (∀ x, Auth.id (f x) = Auth.id x) → (∀ x, Auth.status (f x) = st) → st ≠ "pending" →
  (∀ i, known g i → known g' i) ∧ (∀ i, decided g i → decided g' i) ∧ decided g' id.
Proof.
  intros E Hid Hst Hne. split_and!.
  - intros i. unfold known. by rewrite E, update_where_fmap.
  - intros i Hd x Hx Hxi. rewrite E in Hx. apply elem_of_update in Hx as (y & Hy & ->).
    destruct (_ =? _)%string; [by rewrite Hst|]. by apply Hd.
  - intros x Hx Hxi. rewrite E in Hx. apply elem_of_update in Hx as (y & Hy & ->).
    destruct (String.eqb_spec (Auth.id y) id) as [|Hn]; [by rewrite Hst|done].
Qed.

Lemma approve_run id ap cm now g o g' :
  approveAndExecuteDestruction RET id ap cm now g = (o, g') →
  same_records g g' ∨ ∃ ro notes g1, approve_tx RET id ap cm now g = (Ok (ro, notes), g1) ∧ same_records g1 g' ∧
    (∀ r, o = Ok r → ro = Some r).
Proof.
  unfold approveAndExecuteDestruction, eff_bind. destruct (governanceTransaction _ g) as [o1 g1] eqn:E.
  apply governed in E as [(st & m & -> & ->)|(a & notes & g2 & -> & H & Hsame)]; [intros [= <- <-]; by left|].
  intros H'. right. exists a, notes, g2. split; [done|]. destruct a as [r|]; injection H' as <- <-; split; [done| |done|done].
  by intros r' [= ->].
Qed.

Lemma approve_executed id ap cm now g r g' :
  approveAndExecuteDestruction RET id ap cm now g = (Ok r, g') →
  ∃ auth, auth ∈ Gov.authorizations g ∧ Auth.id auth = id ∧ Auth.status auth = "pending".
Proof.
  unfold approveAndExecuteDestruction. intros ([x|] & g1 & E & H)%eff_bind_ok; [|done].
  apply governed in E as [(st & m & ? & _)|(a & notes & g2 & _ & Htx & _)]; [done|].
  apply approve_tx_ok in Htx as (auth & Har & Hp & _). unfold auth_row in Har. apply select1_elem in Har as [Hi%String.eqb_eq Hin]. eauto.
Qed.

(** After an approval the request is decided. *)
Lemma approve_decides id ap cm now g r g' :
  approveAndExecuteDestruction RET id ap cm now g = (Ok r, g') → known g' id ∧ decided g' id.
Proof.
  intros Hrun. destruct (approve_executed _ _ _ _ _ _ _ Hrun) as (auth0 & Hin & Hi & _).
  unfold approveAndExecuteDestruction in Hrun. apply eff_bind_ok in Hrun as ([x|] & g1 & E & H); [|done]. injection H as _ <-.
  apply governed in E as [(st & m & ? & _)|(a & notes & g2 & [= <-] & Htx & [So Sh Sa])]; [done|].
  apply approve_tx_ok in Htx as (auth & _ & _ & _ & g3 & Hsh & ->). simpl in Sa.
  assert (Gov.authorizations g3 = Gov.authorizations g) as Ha.
  { destruct (_ =? _)%string; [by apply org_shred_records in Hsh as (_ & _ & ?)|by apply global_shred_records in Hsh as [_ _ ?]]. }
  rewrite Ha in Sa. destruct (settled_records g g1 id _ "executed" Sa) as (K & _ & D); [done..|]. split; [|done].
  apply K. unfold known. rewrite <- Hi. by apply list_elem_of_fmap_2.
Qed.

Lemma approve_records id ap cm now g : record_step g (approveAndExecuteDestruction RET id ap cm now g).2.
Proof.
  destruct (approveAndExecuteDestruction RET id ap cm now g) as [o g'] eqn:E.
  apply approve_run in E as [Hs|(ro & notes & g1 & Htx & Hs & _)]; [by apply same_record_step|]. destruct Hs as [So Sh Sa]. simpl.
  apply approve_tx_ok in Htx as (auth & Har & Hp & H). destruct ro as [r|].
  - destruct H as (Hap & g2 & Hsh & ->). simpl in *.
    assert (Gov.holds g2 = Gov.holds g ∧ Gov.authorizations g2 = Gov.authorizations g) as [Hh Ha].
    { destruct (_ =? _)%string; [by apply org_shred_records in Hsh as (_ & ? & ?)|by apply global_shred_records in Hsh as [_ ? ?]]. }
    rewrite Ha in Sa. destruct (settled_records g g' id _ "executed" Sa) as (K & D & _); [done..|].
    split; [done|auto|intros h Hin; left; by rewrite Sh, Hh| |by rewrite Sh, Hh]. intros oo. unfold destroyed. rewrite So.
    destruct (String.eqb_spec (Auth.target_type auth) "organization") as [Et|].
    + apply org_shred_records in Hsh as (-> & _). intros (x & Hx & Hxi & Hd). apply elem_of_update in Hx as (y & Hy & ->).
      destruct (String.eqb_spec (Org.id y) (Auth.target_id auth)) as [Ey|]; [|left; by exists y].
      right. exists auth, ap, now. split; [done|]. split; [done|]. by rewrite <- Ey.
    + apply global_shred_records in Hsh as [-> _ _]. by left.
  - subst g1. simpl in *.
    destruct (settled_records g g' id _ "expired" Sa) as (K & D & _); [done..|].
    split; [done|auto|intros h Hin; left; by rewrite Sh| |by rewrite Sh]. intros oo. rewrite (same_destroyed g g'); [by left|done].
Qed.

Lemma reject_records id i cm now g : record_step g (rejectDestruction id i cm now g).2.
Proof.
  unfold rejectDestruction. destruct (governanceTransaction _ g) as [o g'] eqn:E.
  apply governed in E as [(st & m & -> & ->)|(a & notes & g1 & -> & H & Hsame)]; [by apply same_record_step|].
  apply eff_bind_ok in H as (g2 & g3 & [= <- <-] & H). destruct (auth_row id g) as [auth|]; [|injection H as _ _ <-; by apply same_record_step].
  apply eff_bind_ok in H as (u & g2 & H2 & H). apply lock_ok in H2 as [-> _].
  apply eff_bind_ok in H as (v & g2 & H2 & H). apply authorize_ok in H2 as [-> _].
  apply eff_bind_ok in H as (w & g2 & [= _ <-] & H). injection H as _ _ <-. destruct Hsame as [So Sh Sa]. simpl in *. split.
  - intros x. unfold known. by rewrite Sa, update_where_fmap.
  - intros x _ Hd y Hy Hyi. rewrite Sa in Hy. apply elem_of_update in Hy as (z & Hz & ->).
    destruct (is_pending id z); [done|by apply Hd].
  - intros h Hh. left. by rewrite Sh.
  - intros oo. unfold destroyed. rewrite So. by left.
  - by rewrite Sh.
Qed.

Lemma impose_records orgId reason i rnd now g : record_step g (imposeLegalHold orgId reason i rnd now g).2.
Proof.
  unfold imposeLegalHold. destruct (_ =? _)%string; [by apply same_record_step|].
  destruct (governanceTransaction _ g) as [o g'] eqn:E.
  apply governed in E as [(st & m & -> & ->)|(a & notes & g1 & -> & H & Hsame)]; [by apply same_record_step|].
  apply eff_bind_ok in H as (u & g2 & H2 & H). apply lock_ok in H2 as [-> _].
  apply eff_bind_ok in H as (v & g2 & H2 & H). apply authorize_ok in H2 as [-> _].
  apply eff_bind_ok in H as (g2 & g3 & [= <- <-] & H). apply eff_bind_ok in H as (x & g3 & H3 & H). injection H as _ _ <-.
  destruct (existsb _ _) eqn:Ex; [done|]. injection H3 as _ <-. destruct Hsame as [So Sh Sa]. simpl in *. split.
  - intros y. unfold known. by rewrite Sa.
  - intros y. unfold known, decided. by rewrite Sa.
  - intros h Hh. left. rewrite Sh. apply elem_of_app. by left.
  - intros oo. unfold destroyed. rewrite So. by left.
  - intros Hn. rewrite Sh, fmap_app. apply NoDup_app. split; [done|]. split; [|apply NoDup_singleton].
    intros y (h & -> & Hh)%list_elem_of_fmap Hy%list_elem_of_singleton. apply not_true_iff_false in Ex. apply Ex, existsb_exists.
    exists h. split; [by apply list_elem_of_In|]. by apply String.eqb_eq.
Qed.

Lemma release_records id i now g : NoDup (Hold.id <$> Gov.holds g) → record_step g (releaseLegalHold id i now g).2.
Proof.
  intros Hnd. destruct (releaseLegalHold id i now g) as [o g'] eqn:E. pose proof E as Hrun. unfold releaseLegalHold in E.
  apply governed in E as [(st & m & -> & ->)|(a & notes & g1 & -> & H & Hsame)]; [by apply same_record_step|].
  apply eff_bind_ok in H as (g2 & g3 & [= <- <-] & H).
  destruct (select1 (λ h, (Hold.id h =? id)%string) (Gov.holds g)) as [hold|] eqn:Hs; [|injection H as _ _ <-; by apply same_record_step].
  apply eff_bind_ok in H as (u & g2 & H2 & H). apply lock_ok in H2 as [-> _].
  apply eff_bind_ok in H as (v & g2 & H2 & H). apply authorize_ok in H2 as [-> Hg].
  apply eff_bind_ok in H as (w & g2 & [= _ <-] & H). injection H as _ <-. destruct Hsame as [So Sh Sa]. simpl in *.
  apply select1_elem in Hs as [Hi%String.eqb_eq Hin]. split.
  - intros y. unfold known. by rewrite Sa.
  - intros y. unfold known, decided. by rewrite Sa.
  - intros h Hh. destruct (active_hold id h) eqn:Eh.
    + right. unfold active_hold in Eh. b2p. exists i, now.
      assert (h = hold) as -> by (apply (NoDup_fmap_inj Hold.id (Gov.holds g)); [done..|congruence]).
      split; [done|]. by rewrite Hi, Hrun.
    + left. rewrite Sh. apply elem_of_update. exists h. by rewrite Eh.
  - intros oo. unfold destroyed. rewrite So. by left.
  - intros _. rewrite Sh. by rewrite update_where_fmap.
Qed.

Lemma step_records g g' : step g g' → NoDup (Hold.id <$> Gov.holds g) → record_step g g'.
Proof.
  destruct 1; intros Hn; auto using request_records, approve_records, reject_records, impose_records, release_records, same_record_step.
Qed.


(** A legal hold protects until it is lifted by its owner: from an active hold
    on, through any history of requests, approvals, rejections and other changes,
    either the hold is still in place and the tenant has not been destroyed, or at
    some point an owner of the tenant or a platform administrator released it. *)
Theorem legal_hold_protects g g' h :
  rtc step g g' → NoDup (Hold.id <$> Gov.holds g) → h ∈ Gov.holds g → Hold.active h = true →
  (h ∈ Gov.holds g' ∧ (destroyed g' (Hold.organization_id h) → destroyed g (Hold.organization_id h))) ∨
  ∃ g1 user now, rtc step g g1 ∧ governs ["owner"] g1 user "organization" (Hold.organization_id h) ∧
    rtc step (releaseLegalHold (Hold.id h) user now g1).2 g'.
Proof.
  induction 1 as [|g g1 g' Hst Hrtc IH]; intros Hn Hh Ha; [by left|]. pose proof (step_records _ _ Hst Hn) as Hr.
  destruct (rs_hold _ _ Hr h Hh) as [Hh1|(user & now & Hg & ->)]; [|right; by exists g, user, now].
  destruct (IH (rs_unique _ _ Hr Hn) Hh1 Ha) as [[Hin Hd]|(g2 & user & now & H1 & H2 & H3)].
  - left. split; [done|]. intros Hdes. destruct (rs_destroyed _ _ Hr _ (Hd Hdes)) as [?|(auth & ap & now & Hap & Ht & Hi)]; [done|].
    assert (Hold.active h = false) as E; [|congruence]. apply (ap_unheld _ _ _ _ Hap); [done|by rewrite Hi].
  - right. exists g2, user, now. split; [by eapply rtc_l|done].
Qed.

(** An authorisation destroys once: after an approval has executed, no later
    approval of the same request executes, in any history. *)
Theorem authorization_executes_once id ap cm now g r g1 g2 ap' cm' now' r' :
  NoDup (Hold.id <$> Gov.holds g) → approveAndExecuteDestruction RET id ap cm now g = (Ok r, g1) → rtc step g1 g2 →
  (approveAndExecuteDestruction RET id ap' cm' now' g2).1 ≠ Ok r'.
Proof.
  intros Hn Hrun Hst Hrun'.
  assert (NoDup (Hold.id <$> Gov.holds g1)) as Hn1.
  { pose proof (approve_records id ap cm now g) as Hr. rewrite Hrun in Hr. by apply (rs_unique _ _ Hr). }
  assert (known g1 id ∧ decided g1 id) as [Hk Hd].
  { apply approve_decides in Hrun. done. }
  assert (known g2 id ∧ decided g2 id) as [_ Hd2].
  { clear Hrun Hrun'. induction Hst as [|x y z Hxy _ IH]; [done|]. pose proof (step_records _ _ Hxy Hn1) as Hr.
    apply IH; [by apply (rs_unique _ _ Hr)|by apply (rs_known _ _ Hr)|by apply (rs_decided _ _ Hr)]. }
  destruct (approveAndExecuteDestruction RET id ap' cm' now' g2) as [o g3] eqn:E. simpl in Hrun'. subst o.
  destruct (approve_executed _ _ _ _ _ _ _ E) as (auth & Hin & Hi & Hp). by apply (Hd2 auth).
Qed.

(** *** The extent of a shred *)

(** Nothing of the tenant is left to use. *)
Record erased (orgId : string) (g : Gov.t) : Prop := {
  er_nodes n : n ∈ Db.nodes (Gov.db g) → Node.organization_id n ≠ Some orgId;
  er_rules r : r ∈ Db.acl_rules (Gov.db g) → Rule.organization_id r ≠ Some orgId;
  er_keys k : k ∈ Db.preauth_keys (Gov.db g) → PreAuthKey.organization_id k ≠ Some orgId;
  er_compartments c : c ∈ Db.compartments (Gov.db g) → Compartment.organization_id c ≠ orgId;
  er_oidc : orgId ∉ Gov.oidc_configs g;
  er_accounts u : u ∈ Console.users (Gov.console g) → Account.organization_id u = Some orgId → Account.role u ≠ "super-admin" →
    Account.status u = "revoked" ∧ Account.totp_secret u = None ∧
    ∀ r, r ∈ Console.refresh_tokens (Gov.console g) → Refresh.user_id r = Account.id u → Refresh.revoked r = true;
  er_key : VaultFacts.destroyed (Gov.vault g) orgId;
  er_org o : o ∈ Db.organizations (Gov.db g) → Org.id o = orgId → is_Some (Org.destroyed_at o)
}.

(** The rows of everybody else. *)
Record spared (orgId : string) (g g' : Gov.t) : Prop := {
  sp_nodes n : n ∈ Db.nodes (Gov.db g) → Node.organization_id n ≠ Some orgId →
    (∀ c, c ∈ Db.compartments (Gov.db g) → Compartment.organization_id c = orgId → Node.compartment_id n ≠ Some (Compartment.id c)) →
    n ∈ Db.nodes (Gov.db g');
  sp_credentials c : c ∈ Db.node_credentials (Gov.db g) →
    (∀ n, n ∈ Db.nodes (Gov.db g) → Node.organization_id n = Some orgId → Node.id n ≠ Credential.node_id c) →
    c ∈ Db.node_credentials (Gov.db g');
  sp_rules r : r ∈ Db.acl_rules (Gov.db g) → Rule.organization_id r ≠ Some orgId → r ∈ Db.acl_rules (Gov.db g');
  sp_keys k : k ∈ Db.preauth_keys (Gov.db g) → PreAuthKey.organization_id k ≠ Some orgId → k ∈ Db.preauth_keys (Gov.db g');
  sp_compartments c : c ∈ Db.compartments (Gov.db g) → Compartment.organization_id c ≠ orgId → c ∈ Db.compartments (Gov.db g');
  sp_accounts u : u ∈ Console.users (Gov.console g) → Account.organization_id u ≠ Some orgId ∨ Account.role u = "super-admin" →
    u ∈ Console.users (Gov.console g');
  sp_tokens r : r ∈ Console.refresh_tokens (Gov.console g) →
    (∀ u, u ∈ Console.users (Gov.console g) → Account.organization_id u = Some orgId → Account.id u ≠ Refresh.user_id r) →
    r ∈ Console.refresh_tokens (Gov.console g');
  sp_vault r : r ∈ Vault.keys (Gov.vault g) → OrgKey.organization_id r ≠ orgId → r ∈ Vault.keys (Gov.vault g');
  sp_orgs o : o ∈ Db.organizations (Gov.db g) → Org.id o ≠ orgId → o ∈ Db.organizations (Gov.db g')
}.

Lemma of_org_spec orgId o : of_org orgId o = true ↔ o = Some orgId.
Proof. unfold of_org, opt_is. destruct o as [x|]; [|done]. rewrite String.eqb_eq. split; congruence. Qed.

Lemma of_org_false orgId o : of_org orgId o = false ↔ o ≠ Some orgId.
Proof. rewrite <- not_true_iff_false, of_org_spec. done. Qed.

Lemma revoked_account u : Account.status (revoke_account u) = "revoked" ∧ Account.totp_secret (revoke_account u) = None
  ∧ Account.id (revoke_account u) = Account.id u ∧ Account.organization_id (revoke_account u) = Account.organization_id u
  ∧ Account.role (revoke_account u) = Account.role u.
Proof.
  unfold revoke_account, advance_console_auth_epoch. destruct (authentication_changed _ _); [done|].
  rewrite (proj2 (Z.ltb_ge _ _)); [done|]. simpl. lia.
Qed.

Lemma revoke_accounts_erase orgId now c u :
  u ∈ Console.users (revoke_accounts orgId now c) → Account.organization_id u = Some orgId → Account.role u ≠ "super-admin" →
  Account.status u = "revoked" ∧ Account.totp_secret u = None ∧
  ∀ r, r ∈ Console.refresh_tokens (revoke_accounts orgId now c) → Refresh.user_id r = Account.id u → Refresh.revoked r = true.
Proof.
  intros Hu Ho Hr. apply elem_of_update in Hu as (v & Hv & ->). destruct (tenant_account orgId v) eqn:Et.
  - destruct (revoked_account v) as (H1 & H2 & H3 & _). split; [done|]. split; [done|].
    intros r (x & Hx & ->)%elem_of_update. destruct (bool_decide _ && _) eqn:E; [done|]. intros Hid. rewrite H3 in Hid.
    rewrite bool_decide_true in E; [simpl in E; by b2p|]. rewrite Hid. apply list_elem_of_fmap_2, elem_of_where. done.
  - unfold tenant_account in Et. apply of_org_spec in Ho. rewrite Ho, (proj2 (String.eqb_neq _ _) Hr) in Et. done.
Qed.

Lemma shred_key_destroyed orgId now v : VaultFacts.destroyed (Vault.shred_key orgId now v) orgId.
Proof.
  unfold Vault.shred_key. destruct (existsb _ _) eqn:E.
  - apply existsb_exists in E as (r & Hr & Ho). eexists. split; [apply elem_of_update; exists r; split; [by apply list_elem_of_In|]; by rewrite Ho|].
    apply String.eqb_eq in Ho. done.
  - eexists. split; [apply elem_of_app; right; by left|done].
Qed.

Lemma deleted_nodes orgId d n : n ∈ Db.nodes (delete_tenant_rows orgId d) →
  ∃ n0, n0 ∈ Db.nodes d ∧ Node.organization_id n = Node.organization_id n0 ∧ of_org orgId (Node.organization_id n0) = false.
Proof.
  unfold delete_tenant_rows, delete_compartments, delete_nodes. simpl. intros (m & [Hm1 Hm2]%elem_of_delete & ->)%elem_of_update.
  exists m. split; [done|]. split; [|done]. destruct (Node.compartment_id m); [by case_bool_decide|done].
Qed.

(** A shred takes the whole tenant and nothing but the tenant: afterwards no
    node, rule, enrolment key, compartment or identity provider of it remains,
    its accounts are revoked with every refresh token and its data key is
    destroyed, while the rows of every other tenant are as they were. *)
Theorem org_shred_extent orgId approver now g r notes g' :
  executeOrgShred RET orgId approver now g = (Ok (r, notes), g') → erased orgId g' ∧ spared orgId g g'.
Proof.
  intros (d1 & [(rk & nc & me & ->) Hcr] & ->)%org_shred_run. split; split; simpl.
  - intros n (n0 & _ & -> & H)%deleted_nodes. by apply of_org_false.
  - intros x [_ H]%elem_of_delete. by apply of_org_false.
  - intros x [_ H]%elem_of_delete. by apply of_org_false.
  - intros x [_ H]%elem_of_delete. by b2p.
  - intros [H _]%elem_of_where. by rewrite String.eqb_refl in H.
  - intros u. apply revoke_accounts_erase.
  - apply shred_key_destroyed.
  - intros o (x & Hx & ->)%elem_of_update. destruct (String.eqb_spec (Org.id x) orgId) as [|Hn]; [by intros _; exists now|done].
  - intros n Hn Ho Hc. apply elem_of_update. exists n. rewrite elem_of_delete, of_org_false. split; [done|].
    destruct (Node.compartment_id n) as [c|]; [|done]. rewrite bool_decide_false; [done|].
    intros (x & -> & [Hx%String.eqb_eq Hin]%elem_of_where)%list_elem_of_fmap. by apply (Hc x).
  - intros c Hc Hn. apply elem_of_delete. split; [|apply bool_decide_eq_false].
    + apply (Hcr c Hc). intros (n & E & [Hno%of_org_spec Hin]%elem_of_where)%list_elem_of_fmap. by apply (Hn n).
    + intros (n & E & [Hno%of_org_spec Hin]%elem_of_where)%list_elem_of_fmap. by apply (Hn n).
  - intros x Hx Ho. by rewrite elem_of_delete, of_org_false.
  - intros x Hx Ho. by rewrite elem_of_delete, of_org_false.
  - intros x Hx Ho. by rewrite elem_of_delete, String.eqb_neq.
  - intros u Hu Ho. apply elem_of_update. exists u. split; [done|]. unfold tenant_account. destruct Ho as [Ho|Ho].
    + by rewrite (proj2 (of_org_false _ _) Ho).
    + by rewrite Ho, andb_false_r.
  - intros x Hx Hu. apply elem_of_update. exists x. split; [done|]. rewrite bool_decide_false; [done|].
    intros (u & E & [Ht Hin]%elem_of_where)%list_elem_of_fmap. unfold tenant_account in Ht. apply andb_true_iff in Ht as [Ho%of_org_spec _].
    by apply (Hu u).
  - intros x Hx Ho. unfold Vault.shred_key. destruct (existsb _ _).
    + apply elem_of_update. exists x. unfold Vault.of_org. by rewrite (proj2 (String.eqb_neq _ _) Ho).
    + apply elem_of_app. by left.
  - intros o Ho Hi. apply elem_of_update. exists o. by rewrite (proj2 (String.eqb_neq _ _) Hi).
Qed.

End Histories.
End GovernanceFacts.

(** ** Samples *)

Module GovernanceSamples.
Import Sessions Governance GovernanceFacts.

Definition account (id role : string) (org : option string) : Account.t :=
  Account.mk id id role "active" org (Some "h") None None None 1 true (Some "s") [] None None None None None None.

Definition fleet : Db.t :=
  Db.empty <| Db.nodes := [AclSample.node "n1" "100.64.0.1" (Some "org-a") None; AclSample.node "n2" "100.64.0.2" (Some "org-b") None] |>
           <| Db.organizations := [Org.plain "org-a" "a" "open"; Org.plain "org-b" "b" "open"; Org.plain "org-default" "d" "open"] |>.

Definition people : Console.t :=
  Console.mk [account "ann" "member" (Some "org-a"); account "bob" "member" (Some "org-a"); account "eve" "member" None;
              account "ceo" "super-admin" None; account "cto" "super-admin" None] []
    [Refresh.mk "t1" "ann" "h1" 100 false None None] [] []
    [Membership.mk "ann" "org-a" "owner"; Membership.mk "bob" "org-a" "admin"].

Definition asked : Auth.t := Auth.mk "auth-1" "organization" "org-a" "ann" "" None None "pending" 1000 0 None.
Definition asked_default : Auth.t := Auth.mk "auth-2" "organization" "org-default" "ceo" "" None None "pending" 1000 0 None.
Definition hold : Hold.t := Hold.mk "hold-1" "org-a" "litigation" "ann" true 0 None.

Definition open_state : Gov.t := Gov.mk fleet people (Vault.mk ["org-a"; "org-b"; "org-default"] []) [] [asked; asked_default] [].
Definition held_state : Gov.t := open_state <| Gov.holds := [hold] |>.

Definition run : outcome shred_result * Gov.t := Eval vm_compute in approveAndExecuteDestruction 24 "auth-1" "bob" "yes" 10 open_state.
Definition after : Gov.t := Eval vm_compute in run.2.
Definition answer : shred_result := Eval vm_compute in match run.1 with Ok r => r | _ => mk_shred "" 0 0 end.

Lemma run_ok : approveAndExecuteDestruction 24 "auth-1" "bob" "yes" 10 open_state = (Ok answer, after).
Proof. vm_compute. reflexivity. Qed.

Lemma approved_step : step 24 open_state after.
Proof. pose proof (step_approve 24 "auth-1" "bob" "yes" 10 open_state) as H. by rewrite run_ok in H. Qed.


Lemma legal_hold_protects_witness :
  (hold ∈ Gov.holds (approveAndExecuteDestruction 24 "auth-1" "bob" "yes" 10 held_state).2 ∧
   (destroyed (approveAndExecuteDestruction 24 "auth-1" "bob" "yes" 10 held_state).2 "org-a" → destroyed held_state "org-a")) ∨
  ∃ g1 user now, rtc (step 24) held_state g1 ∧ governs ["owner"] g1 user "organization" "org-a" ∧
    rtc (step 24) (releaseLegalHold "hold-1" user now g1).2 (approveAndExecuteDestruction 24 "auth-1" "bob" "yes" 10 held_state).2.
Proof.
  apply (legal_hold_protects 24 held_state (approveAndExecuteDestruction 24 "auth-1" "bob" "yes" 10 held_state).2 hold);
    [apply rtc_once; constructor|apply NoDup_singleton|by left|done].
Defined.

Lemma authorization_executes_once_witness : (approveAndExecuteDestruction 24 "auth-1" "ceo" "again" 20 after).1 ≠ Ok answer.
Proof.
  apply (authorization_executes_once 24 "auth-1" "bob" "yes" 10 open_state answer after after); [apply NoDup_nil_2|apply run_ok|apply rtc_refl].
Defined.

Definition shredded_state : Gov.t := Eval vm_compute in (executeOrgShred 24 "org-a" "bob" 10 open_state).2.

Lemma org_shred_extent_witness : erased "org-a" shredded_state ∧ spared "org-a" open_state shredded_state.
Proof.
  apply (org_shred_extent 24 "org-a" "bob" 10 open_state (mk_shred "org-a" 1 2) [BumpNetmap; LogAudit "ORG_CRYPTO_SHREDDED" "org-a"] shredded_state).
  vm_compute. reflexivity.
Defined.

(** An account without an organisation belongs to the default one everywhere
    else, yet survives the shred of the default organisation as it was. *)
Lemma default_shred_misses_unassigned_account :
  ∃ r g', approveAndExecuteDestruction 24 "auth-2" "cto" "yes" 10 open_state = (Ok r, g') ∧ users_revoked r = 0 ∧
    destroyed g' "org-default" ∧ account "eve" "member" None ∈ Console.users (Gov.console g').
Proof.
  eexists _, _. split; [vm_compute; reflexivity|]. split; [done|]. split.
  - eexists. split; [right; right; by left|]. split; [done|by exists 10].
  - right. right. by left.
Qed.

End GovernanceSamples.
