(* ===== verification/Orgs.v ===== *)
(** * Organisations and their members

    [services/OrgService.js], the module switch of [services/ModuleLoader.js] and
    the handlers of [routes/organizations.js].

    The state is that of [Governance] with the module settings.  Accounts and
    memberships are stored for the console and for the nodes' services alike, so a
    statement writes both copies.  Random identifiers of memberships are not kept,
    fields of a request have their declared types, a stealth configuration is the
    JSON value itself, and audit events are left out. *)

From S2P Require Import Prelude Order Js Db Encoding Acl Netmap Access Revocation Sessions Vault Governance.

(** ** Feature modules *)

Module Modules.
Record t := mk {
  loaded : list string;
  organization_modules : list (string * string * bool)
}.

Definition HIGH_RISK : list string := ["nuke"; "deniability"; "onion"].

Definition isModuleLoaded (moduleId : string) (m : t) : bool := bool_decide (moduleId ∈ loaded m).

Definition is_setting (orgId moduleId : string) (r : string * string * bool) : bool :=
  (r.1.1 =? orgId)%string && (r.1.2 =? moduleId)%string.

Definition isModuleEnabledForOrg (orgId moduleId : string) (m : t) (d : Db.t) : bool :=
  if negb (isModuleLoaded moduleId m) then false else
  if (orgId =? "")%string then true else
  if opt_is (Org.profile <$> select1 (λ o, (Org.id o =? orgId)%string) (Db.organizations d)) "regulated" &&
     bool_decide (moduleId ∈ HIGH_RISK) then false else
  match select1 (is_setting orgId moduleId) (organization_modules m) with
  | Some r => r.2
  | None => true
  end.

End Modules.

Module Tenants.
Record t := mk { gov : Gov.t; modules : Modules.t }.
End Tenants.

Module Orgs.
Import Sessions Governance.

Definition db (t : Tenants.t) : Db.t := Gov.db (Tenants.gov t).

Definition on_gov (f : Gov.t → Gov.t) (t : Tenants.t) : Tenants.t := t <| Tenants.gov ::= f |>.
Definition on_tables (f : Db.t → Db.t) : Tenants.t → Tenants.t := on_gov (λ g, g <| Gov.db ::= f |>).

(** A statement on the memberships, on both copies. *)
Definition on_members (f : list Membership.t → list Membership.t) : Tenants.t → Tenants.t :=
  on_gov (λ g, g <| Gov.db ::= λ d, d <| Db.memberships ::= f |> |>
                 <| Gov.console ::= λ c, c <| Console.memberships ::= f |> |>).

Definition VALID_ROLES : list string := ["owner"; "admin"; "network_admin"; "auditor"; "member"].

Definition is_org (orgId : string) (o : Org.t) : bool := (Org.id o =? orgId)%string.
Definition is_member (orgId userId : string) (m : Membership.t) : bool :=
  (Membership.organization_id m =? orgId)%string && (Membership.user_id m =? userId)%string.

(** ** Organisations *)

Definition by_creation : Org.t → Org.t → Z := cmp_on Org.created_at cmp_Z.

Definition listOrganizations (userId role : string) (t : Tenants.t) : list (Org.t * option string) :=
  let orgs := js_sort by_creation (Db.organizations (db t)) in
  if (role =? "super-admin")%string then (λ o, (o, None)) <$> orgs else
  o ← orgs;
  m ← where_ (λ m, is_member (Org.id o) userId m) (Db.memberships (db t));
  [(o, Some (Membership.role m))].

Definition getOrganization (orgId : string) (t : Tenants.t) : option Org.t :=
  select1 (is_org orgId) (Db.organizations (db t)).

(** [(slug || name).toLowerCase().replace(/[^a-z0-9]+/g, '-').replace(/(^-|-$)/g, '')] *)
Definition base_slug (text : string) : string := Netmap.trim_dashes (Netmap.dash_runs false (toLowerCase text)).

(** The loop over the candidates: the slug itself, then with -1, -2, ... *)
Fixpoint free_slug (fuel : nat) (base candidate : string) (counter : Z) (orgs : list Org.t) : option string :=
  match fuel with
  | O => None
  | S fuel' =>
      if existsb (λ o, (Org.slug o =? candidate)%string) orgs
      then free_slug fuel' base (base +:+ "-" +:+ pretty counter) (counter + 1) orgs
      else Some candidate
  end.

Definition finalSlug (base : string) (orgs : list Org.t) : option string := free_slug (S (length orgs)) base base 1 orgs.

(** INSERT INTO organizations *)
Definition insert_org (o : Org.t) : eff Tenants.t unit :=
  t <-! get ;
  if (len (Org.name o) <=? 255) && (len (Org.slug o) <=? 255) &&
     (- 2 ^ 31 <=? Org.max_netmap_staleness_seconds o) && (Org.max_netmap_staleness_seconds o <? 2 ^ 31) &&
     negb (existsb (λ x, is_org (Org.id o) x || (Org.slug x =? Org.slug o)%string) (Db.organizations (db t)))
  then modify (on_gov (λ g, g <| Gov.db ::= λ d, d <| Db.organizations ::= λ l, l ++ [o] |> |>
                              <| Gov.vault ::= λ v, v <| Vault.organizations ::= λ l, l ++ [Org.id o] |> |>))
  else db_error.

(** INSERT INTO memberships ... ON CONFLICT (user_id, organization_id) DO NOTHING:
    whether a row was inserted. *)
Definition insert_member (m : Membership.t) : eff Tenants.t bool :=
  t <-! get ;
  if existsb (is_member (Membership.organization_id m) (Membership.user_id m)) (Db.memberships (db t)) then eff_ret false else
  if existsb (λ u, (User.id u =? Membership.user_id m)%string) (Db.users (db t)) &&
     existsb (is_org (Membership.organization_id m)) (Db.organizations (db t))
  then modify (on_members (λ l, l ++ [m])) ;! eff_ret true
  else db_error.

Definition nonempty (o : option string) : option string :=
  match o with Some s => if (s =? "")%string then None else Some s | None => None end.

Definition createOrganization (name : string) (slug default_policy profile : option string) (staleness : option Z)
    (creator : option string) (rnd : string) (now : Z) : eff Tenants.t Org.t :=
  let policy := default "deny" default_policy in
  let prof := default "standard" profile in
  if (name =? "")%string then throw None "Organization name is required" else
  if negb (bool_decide (policy ∈ ["open"; "deny"])) then throw None "Invalid default_policy: must be open or deny" else
  if negb (bool_decide (prof ∈ ["standard"; "regulated"])) then throw None "Invalid profile: must be standard or regulated" else
  t <-! get ;
  final <-! or_db_error (finalSlug (base_slug (default name (nonempty slug))) (Db.organizations (db t))) ;
  let o := Org.mk ("org-" +:+ take_string 8 rnd) final policy None None name prof (default 300 staleness) "wireguard" JNull "off" now in
  insert_org o ;!
  (match nonempty creator with
   | Some userId => insert_member (Membership.mk userId (Org.id o) "owner") ;! eff_ret tt
   | None => eff_ret tt
   end) ;!
  eff_ret o.

Record org_updates := mk_updates {
  u_name : option string; u_default_policy : option string; u_staleness : option Z; u_profile : option string;
  u_transport : option string; u_stealth : option jsval; u_daita : option string; u_search_domain : option string
}.

Definition or_old {A} (o : option A) (old : A) : A := default old o.

Definition apply_update (u : org_updates) (o : Org.t) : Org.t :=
  o <| Org.name := or_old (nonempty (u_name u)) (Org.name o) |>
    <| Org.default_policy := or_old (nonempty (u_default_policy u)) (Org.default_policy o) |>
    <| Org.max_netmap_staleness_seconds := or_old (u_staleness u) (Org.max_netmap_staleness_seconds o) |>
    <| Org.profile := or_old (nonempty (u_profile u)) (Org.profile o) |>
    <| Org.default_transport := or_old (nonempty (u_transport u)) (Org.default_transport o) |>
    <| Org.default_stealth_config := match u_stealth u with Some v => if truthy v then v else JNull | None => Org.default_stealth_config o end |>
    <| Org.default_daita_mode := or_old (nonempty (u_daita u)) (Org.default_daita_mode o) |>
    <| Org.search_domain := match u_search_domain u with
                            | Some s => if (s =? "")%string then None else Some (trim (toLowerCase s))
                            | None => Org.search_domain o
                            end |>.

(** A field that is given must have one of the values. *)
Definition one_of (o : option string) (values : list string) : bool :=
  match nonempty o with Some s => bool_decide (s ∈ values) | None => true end.

Definition has_updates (u : org_updates) : bool :=
  bool_decide (is_Some (nonempty (u_name u))) || bool_decide (is_Some (nonempty (u_default_policy u))) ||
  bool_decide (is_Some (u_staleness u)) || bool_decide (is_Some (nonempty (u_profile u))) ||
  bool_decide (is_Some (nonempty (u_transport u))) || match u_stealth u with Some _ => true | None => false end ||
  bool_decide (is_Some (nonempty (u_daita u))) || bool_decide (is_Some (u_search_domain u)).

(** The row fits its columns. *)
Definition row_fits (o : Org.t) : bool :=
  (len (Org.name o) <=? 255) && (- 2 ^ 31 <=? Org.max_netmap_staleness_seconds o) &&
  (Org.max_netmap_staleness_seconds o <? 2 ^ 31) && match Org.search_domain o with Some s => len s <=? 255 | None => true end.

(** Leaving the regulated profile is for the platform super-admin. *)
Definition leaves_regulated (orgId : string) (u : org_updates) (actorRole : string) (t : Tenants.t) : bool :=
  opt_is (u_profile u) "standard" && negb (actorRole =? "super-admin")%string &&
  opt_is (Org.profile <$> getOrganization orgId t) "regulated".

Definition updateOrganization (orgId : string) (u : org_updates) (actorRole : string) : eff Tenants.t (option Org.t) :=
  if negb (one_of (u_default_policy u) ["open"; "deny"]) then throw None "Invalid default_policy: must be open or deny" else
  if negb (one_of (u_profile u) ["standard"; "regulated"]) then throw None "Invalid profile: must be standard or regulated" else
  t <-! get ;
  if leaves_regulated orgId u actorRole t
  then throw (Some 403) "Only the platform super-admin can take an organization out of the regulated profile" else
  if negb (one_of (u_transport u) ["wireguard"; "amneziawg"]) then throw None "Invalid default_transport: must be wireguard or amneziawg" else
  if negb (one_of (u_daita u) ["off"; "balanced"; "paranoid"]) then throw None "Invalid default_daita_mode: must be off, balanced, or paranoid" else
  if negb (has_updates u) then eff_ret (getOrganization orgId t) else
  (if forallb row_fits (apply_update u <$> where_ (is_org orgId) (Db.organizations (db t)))
   then modify (on_tables (λ d, d <| Db.organizations ::= update_where (is_org orgId) (apply_update u) |>))
   else db_error) ;!
  (if bool_decide (is_Some (nonempty (u_default_policy u)))
   then modify (on_tables (λ d, (Acl.bumpEpoch "acl" d).2)) else eff_ret tt) ;!
  eff_ret (apply_update u <$> getOrganization orgId t).

(** ** Deletion, with what the foreign keys do *)

(** ON DELETE SET NULL on the accounts, through the triggers of the table. *)
Definition unassign (orgId : string) (u : Account.t) : Account.t :=
  if opt_is (Account.organization_id u) orgId
  then default u (advance_console_auth_epoch u (u <| Account.organization_id := None |>)) else u.

(** No trigger raises on the way. *)
Definition can_unassign (orgId : string) (c : Console.t) : bool :=
  forallb (λ u, negb (opt_is (Account.organization_id u) orgId) ||
                bool_decide (is_Some (advance_console_auth_epoch u (u <| Account.organization_id := None |>)))) (Console.users c).

Definition unassign_accounts (orgId : string) (c : Console.t) : Console.t :=
  c <| Console.users ::= fmap (unassign orgId) |>
    <| Console.families ::= fmap (λ f, if existsb (λ u, invalidate_console_root_grants u (unassign orgId u) f)
                                            (where_ (λ u, opt_is (Account.organization_id u) orgId) (Console.users c))
                                       then clear_grant f else f) |>.

Definition delete_org_rows (orgId : string) (d : Db.t) : Db.t :=
  delete_tenant_rows orgId d
    <| Db.organizations ::= delete_where (is_org orgId) |>
    <| Db.compartment_peerings ::= delete_where (λ p, (Peering.organization_id p =? orgId)%string) |>
    <| Db.users ::= update_where (λ u, opt_is (User.organization_id u) orgId) (λ u, u <| User.organization_id := None |>) |>.

Definition delete_org (orgId : string) (t : Tenants.t) : Tenants.t :=
  on_members (delete_where (λ m, (Membership.organization_id m =? orgId)%string))
    (on_gov (λ g, g <| Gov.db ::= delete_org_rows orgId |> <| Gov.console ::= unassign_accounts orgId |>
                    <| Gov.vault ::= λ v, v <| Vault.organizations ::= where_ (λ o, negb (o =? orgId)%string) |>
                                            <| Vault.keys ::= delete_where (Vault.of_org orgId) |> |>
                    <| Gov.holds ::= delete_where (λ h, (Hold.organization_id h =? orgId)%string) |>
                    <| Gov.oidc_configs ::= where_ (λ o, negb (o =? orgId)%string) |>) t)
    <| Tenants.modules ::= λ m, m <| Modules.organization_modules ::= delete_where (λ r, (r.1.1 =? orgId)%string) |> |>.

Definition deleteOrganization (orgId : string) : eff Tenants.t bool :=
  if (orgId =? "org-default")%string then throw None "Cannot delete default organization" else
  t <-! get ;
  match getOrganization orgId t with
  | None => eff_ret false
  | Some _ =>
      if can_unassign orgId (Gov.console (Tenants.gov t)) then modify (delete_org orgId) ;! eff_ret true else db_error
  end.

(** ** Members *)

(** Rows are kept in the order of their insertion, [created_at]. *)
Definition listMembers (orgId : string) (t : Tenants.t) : list (Membership.t * User.t) :=
  m ← where_ (λ m, (Membership.organization_id m =? orgId)%string) (Db.memberships (db t));
  u ← where_ (λ u, (User.id u =? Membership.user_id m)%string) (Db.users (db t));
  [(m, u)].

Definition valid_role (role : string) : bool := bool_decide (role ∈ VALID_ROLES).

(** UPDATE users SET organization_id WHERE id AND organization_id IS NULL, on both
    copies, through the triggers of the table. *)
Definition adopt (orgId userId : string) : eff Tenants.t unit :=
  t <-! get ;
  let unassigned u := (Account.id u =? userId)%string && bool_decide (Account.organization_id u = None) in
  let c := Gov.console (Tenants.gov t) in
  match (if existsb unassigned (Console.users c)
         then update_user userId (λ u, u <| Account.organization_id := Some orgId |>) c else (Ok tt, c)) with
  | (Throw st m, _) => throw st m
  | (Ok _, c') =>
      modify (on_gov (λ g, g <| Gov.console := c' |> <| Gov.db ::= λ d, d <| Db.users ::=
        update_where (λ u, (User.id u =? userId)%string && bool_decide (User.organization_id u = None))
          (λ u, u <| User.organization_id := Some orgId |>) |> |>))
  end.

Definition addMember (orgId userId role : string) : eff Tenants.t (option Membership.t) :=
  if negb (valid_role role) then throw None ("Invalid role: " +:+ role) else
  let m := Membership.mk userId orgId role in
  inserted <-! insert_member m ;
  if negb inserted then eff_ret None else
  adopt orgId userId ;!
  eff_ret (Some m).

Definition is_owner_row (orgId : string) (m : Membership.t) : bool :=
  (Membership.organization_id m =? orgId)%string && (Membership.role m =? "owner")%string.

Definition owner_count (orgId : string) (t : Tenants.t) : Z := Z.of_nat (length (where_ (is_owner_row orgId) (Db.memberships (db t)))).

Definition getUserOrgRole (orgId userId : string) (t : Tenants.t) : option string :=
  Membership.role <$> select1 (is_member orgId userId) (Db.memberships (db t)).

Definition updateMemberRole (orgId userId newRole : string) : eff Tenants.t (option Membership.t) :=
  if negb (valid_role newRole) then throw None ("Invalid role: " +:+ newRole) else
  t <-! get ;
  match getUserOrgRole orgId userId t with
  | None => eff_ret None
  | Some role =>
      if (role =? "owner")%string && negb (newRole =? "owner")%string && (owner_count orgId t <=? 1)
      then throw None "Cannot demote the last owner of the organization" else
      modify (on_members (update_where (is_member orgId userId) (λ m, m <| Membership.role := newRole |>))) ;!
      eff_ret (Some (Membership.mk userId orgId newRole))
  end.

(** The check of [removeMember], before its DELETE. *)
Definition may_remove (orgId userId : string) (t : Tenants.t) : outcome bool :=
  match getUserOrgRole orgId userId t with
  | None => Ok false
  | Some role =>
      if (role =? "owner")%string && (owner_count orgId t <=? 1)
      then Throw None "Cannot remove the last owner of the organization" else Ok true
  end.

Definition delete_member (orgId userId : string) : Tenants.t → Tenants.t := on_members (delete_where (is_member orgId userId)).

Definition removeMember (orgId userId : string) : eff Tenants.t bool :=
  t <-! get ;
  match may_remove orgId userId t with
  | Ok true => modify (delete_member orgId userId) ;! eff_ret true
  | Ok false => eff_ret false
  | Throw st m => throw st m
  end.

(** ** Modules *)

Definition getOrgModules (orgId : string) (t : Tenants.t) : list (string * bool) :=
  match getOrganization orgId t with
  | None => []
  | Some org =>
      let loaded := Modules.loaded (Tenants.modules t) in
      let ids := if bool_decide (loaded = []) then Modules.HIGH_RISK else loaded in
      (λ i, (i, if (Org.profile org =? "regulated")%string && bool_decide (i ∈ Modules.HIGH_RISK) then false
                else match select1 (Modules.is_setting orgId i) (Modules.organization_modules (Tenants.modules t)) with
                     | Some r => r.2
                     | None => true
                     end)) <$> ids
  end.

Definition setOrgModuleStatus (orgId moduleId : string) (enabled : bool) : eff Tenants.t unit :=
  t <-! get ;
  if negb (existsb (is_org orgId) (Db.organizations (db t)) && (len moduleId <=? 64)) then db_error else
  modify (λ t, t <| Tenants.modules ::= λ m, m <| Modules.organization_modules ::= λ l,
    if existsb (Modules.is_setting orgId moduleId) l
    then update_where (Modules.is_setting orgId moduleId) (λ r, (r.1, enabled)) l
    else l ++ [(orgId, moduleId, enabled)] |> |>).

Definition setOrgModule := setOrgModuleStatus.

(** ** The handlers *)

Definition not_found {A} : verdict A := Answer 404 "Organization not found".

(** The router's guards, the role of the handler and the tenant of the path. *)
Definition guarded {A} (method : string) (roles : option (list string)) (u : Principal.t) (id : string)
    (k : eff Tenants.t (verdict A)) : eff Tenants.t (verdict A) :=
  match Rbac.requireNotAuditor method (Some u) with
  | Answer s e => eff_ret (Answer s e)
  | Next _ =>
      match (match roles with Some rs => Rbac.requireOrgRole rs (Some u) | None => Next tt end) with
      | Answer s e => eff_ret (Answer s e)
      | Next _ =>
          if negb (Rbac.is_super u) && negb (opt_is (Principal.organization_id u) id) then eff_ret not_found else k
      end
  end.

Definition includes (needle s : string) : bool := bool_decide (is_Some (String.index 0 needle s)).

(** The catch of the two handlers on a member. *)
Definition last_owner_400 {A} (m : eff Tenants.t (verdict A)) : eff Tenants.t (verdict A) :=
  λ t, match m t with
       | (Throw st msg, t') => if includes "last owner" msg then (Ok (Answer 400 msg), t') else (Throw st msg, t')
       | r => r
       end.

Definition get_orgs (u : Principal.t) : eff Tenants.t (verdict (list (Org.t * option string))) :=
  match Rbac.requireNotAuditor "GET" (Some u) with
  | Answer s e => eff_ret (Answer s e)
  | Next _ => t <-! get ; eff_ret (Next (listOrganizations (Principal.id u) (Principal.role u) t))
  end.

Definition post_org (u : Principal.t) (name : string) (slug default_policy : option string) (staleness : option Z) (rnd : string) (now : Z)
    : eff Tenants.t (verdict Org.t) :=
  match Rbac.requireNotAuditor "POST" (Some u), Rbac.requireRole ["super-admin"] (Some u) with
  | Answer s e, _ | _, Answer s e => eff_ret (Answer s e)
  | _, _ =>
      if (name =? "")%string then eff_ret (Answer 400 "Organization name is required") else
      o <-! createOrganization name slug default_policy None staleness (Some (Principal.id u)) rnd now ;
      eff_ret (Next o)
  end.

Definition put_org (u : Principal.t) (id : string) (up : org_updates) : eff Tenants.t (verdict Org.t) :=
  guarded "PUT" (Some ["owner"; "admin"]) u id (
    r <-! updateOrganization id up (Principal.role u) ;
    eff_ret (match r with Some o => Next o | None => not_found end)).

Definition delete_org_handler (u : Principal.t) (id : string) : eff Tenants.t (verdict unit) :=
  guarded "DELETE" (Some ["owner"]) u id (
    r <-! deleteOrganization id ;
    eff_ret (if r then Next tt else not_found)).

Definition post_member (u : Principal.t) (id user_id : string) (role : option string) : eff Tenants.t (verdict Membership.t) :=
  guarded "POST" (Some ["owner"; "admin"]) u id (
    if (user_id =? "")%string then eff_ret (Answer 400 "user_id is required") else
    let newRole := default "member" (nonempty role) in
    if (newRole =? "owner")%string && negb (Rbac.is_super u) && negb (opt_is (Principal.org_role u) "owner")
    then eff_ret (Answer 403 "Forbidden: only an owner can add an owner") else
    r <-! addMember id user_id newRole ;
    eff_ret (match r with Some m => Next m | None => Answer 409 "Already a member; change the role with PUT" end)).

Definition put_member (u : Principal.t) (id userId : string) (role : option string) : eff Tenants.t (verdict Membership.t) :=
  last_owner_400 (guarded "PUT" (Some ["owner"]) u id (
    match nonempty role with
    | None => eff_ret (Answer 400 "role is required")
    | Some r =>
        res <-! updateMemberRole id userId r ;
        eff_ret (match res with Some m => Next m | None => Answer 404 "Member not found" end)
    end)).

Definition delete_member_handler (u : Principal.t) (id userId : string) : eff Tenants.t (verdict unit) :=
  last_owner_400 (guarded "DELETE" (Some ["owner"; "admin"]) u id (
    r <-! removeMember id userId ;
    eff_ret (if r then Next tt else Answer 404 "Member not found"))).

Definition put_module (u : Principal.t) (id moduleId : string) (enabled : option jsval) : eff Tenants.t (verdict unit) :=
  guarded "PUT" (Some ["owner"]) u id (
    match enabled with
    | None => eff_ret (Answer 400 "enabled boolean is required")
    | Some e => setOrgModule id moduleId (truthy e) ;! eff_ret (Next tt)
    end).

Definition get_org (u : Principal.t) (id : string) : eff Tenants.t (verdict Org.t) :=
  guarded "GET" None u id (t <-! get ; eff_ret (match getOrganization id t with Some o => Next o | None => not_found end)).

Definition get_members (u : Principal.t) (id : string) : eff Tenants.t (verdict (list (Membership.t * User.t))) :=
  guarded "GET" None u id (t <-! get ; eff_ret (Next (listMembers id t))).

Definition get_modules (u : Principal.t) (id : string) : eff Tenants.t (verdict (list (string * bool))) :=
  guarded "GET" None u id (t <-! get ; eff_ret (Next (getOrgModules id t))).

End Orgs.
