(* ===== verification/OrgFacts.v ===== *)
(** * What the administration of organisations guarantees

    Every request of [routes/organizations.js] is a sequence of statements, each
    under the permission of its handler.  The theorems follow by rule induction on
    the statements and on histories of requests. *)

From S2P Require Import Prelude Order Js Db Encoding Acl Netmap Access Revocation Sessions Vault Governance Orgs.

Module OrgFacts.
Import Sessions Orgs.

(** ** Requests and histories *)

Inductive request :=
  | Create (name : string) (slug default_policy : option string) (staleness : option Z) (rnd : string) (now : Z)
  | Update (id : string) (up : org_updates)
  | Delete (id : string)
  | Add (id user_id : string) (role : option string)
  | SetRole (id userId : string) (role : option string)
  | Remove (id userId : string)
  | SetModule (id moduleId : string) (enabled : option jsval).

Definition perform (u : Principal.t) (r : request) : eff Tenants.t unit :=
  match r with
  | Create name slug policy staleness rnd now => post_org u name slug policy staleness rnd now ;! eff_ret tt
  | Update id up => put_org u id up ;! eff_ret tt
  | Delete id => delete_org_handler u id ;! eff_ret tt
  | Add id user role => post_member u id user role ;! eff_ret tt
  | SetRole id user role => put_member u id user role ;! eff_ret tt
  | Remove id user => delete_member_handler u id user ;! eff_ret tt
  | SetModule id m e => put_module u id m e ;! eff_ret tt
  end.

(** One request that [P] admits, answered or failed. *)
Definition step (P : Principal.t → request → Prop) (t t' : Tenants.t) : Prop :=
  ∃ u r, P u r ∧ t' = (perform u r t).2.

(** Acting on an organisation: the platform administrator, or one of its members
    with a role among [roles]. *)
Definition may_act (roles : list string) (u : Principal.t) (id : string) : Prop :=
  Rbac.is_super u = true ∨ Rbac.effective_role u ∈ roles ∧ Principal.organization_id u = Some id.

Definition members (t : Tenants.t) : list Membership.t := Db.memberships (db t).
Definition orgs (t : Tenants.t) : list Org.t := Db.organizations (db t).
Definition settings (t : Tenants.t) : list (string * string * bool) := Modules.organization_modules (Tenants.modules t).
Definition console_members (t : Tenants.t) : list Membership.t := Console.memberships (Gov.console (Tenants.gov t)).
Definition user_ids (t : Tenants.t) : list string := User.id <$> Db.users (db t).

(** A statement that leaves these tables alone. *)
Record aside (t t' : Tenants.t) : Prop := {
  as_members : members t' = members t;
  as_orgs : orgs t' = orgs t;
  as_settings : settings t' = settings t;
  as_console : console_members t' = console_members t;
  as_users : user_ids t' = user_ids t;
  as_nodes : Db.nodes (db t') = Db.nodes (db t);
  as_rules : Db.acl_rules (db t') = Db.acl_rules (db t);
  as_keys : Db.preauth_keys (db t') = Db.preauth_keys (db t);
}.

Definition insert_org_row (o : Org.t) : Tenants.t → Tenants.t :=
  on_gov (λ g, g <| Gov.db ::= λ d, d <| Db.organizations ::= λ l, l ++ [o] |> |>
                 <| Gov.vault ::= λ v, v <| Vault.organizations ::= λ l, l ++ [Org.id o] |> |>).

Definition upsert_setting (orgId moduleId : string) (enabled : bool) (l : list (string * string * bool)) :=
  if existsb (Modules.is_setting orgId moduleId) l
  then update_where (Modules.is_setting orgId moduleId) (λ r, (r.1, enabled)) l
  else l ++ [(orgId, moduleId, enabled)].

Definition set_setting (orgId moduleId : string) (enabled : bool) (t : Tenants.t) : Tenants.t :=
  t <| Tenants.modules ::= λ m, m <| Modules.organization_modules ::= upsert_setting orgId moduleId enabled |> |>.

Section Statements.
(** The organisations that may be deleted. *)
Context (D : string → Prop).

(** The statements a request of [u] may issue. *)
Inductive stmt (u : Principal.t) : Tenants.t → Tenants.t → Prop :=
  | S_create t o :
      Rbac.requireRole ["super-admin"] (Some u) = Next tt →
      (∀ x, x ∈ orgs t → Org.id x ≠ Org.id o ∧ Org.slug x ≠ Org.slug o) →
      stmt u t (insert_org_row o t)
  | S_member t m :
      (Rbac.requireRole ["super-admin"] (Some u) = Next tt ∨ may_act ["owner"; "admin"] u (Membership.organization_id m)) →
      (Membership.role m = "owner" → Rbac.requireRole ["super-admin"] (Some u) = Next tt ∨ Rbac.effective_role u = "owner") →
      Membership.role m ∈ VALID_ROLES → existsb (is_member (Membership.organization_id m) (Membership.user_id m)) (members t) = false →
      Membership.user_id m ∈ user_ids t → Membership.organization_id m ∈ Org.id <$> orgs t →
      stmt u t (on_members (λ l, l ++ [m]) t)
  | S_aside t t' : aside t t' → stmt u t t'
  | S_update t id up :
      may_act ["owner"; "admin"] u id → leaves_regulated id up (Principal.role u) t = false →
      one_of (u_profile up) ["standard"; "regulated"] = true →
      stmt u t (on_tables (λ d, d <| Db.organizations ::= update_where (is_org id) (apply_update up) |>) t)
  | S_delete t id : D id → may_act ["owner"] u id → id ≠ "org-default" → stmt u t (delete_org id t)
  | S_role t id user role old :
      may_act ["owner"] u id → role ∈ VALID_ROLES → getUserOrgRole id user t = Some old →
      (old = "owner" → role ≠ "owner" → 1 < owner_count id t) →
      stmt u t (on_members (update_where (is_member id user) (λ m, m <| Membership.role := role |>)) t)
  | S_remove t id user :
      may_act ["owner"; "admin"] u id → may_remove id user t = Ok true → stmt u t (delete_member id user t)
  | S_module t id m e : may_act ["owner"] u id → id ∈ Org.id <$> orgs t → stmt u t (set_setting id m e t).

#[local] Hint Constructors stmt : core.
#[local] Hint Resolve rtc_refl rtc_once : core.

(** *** Every request is a sequence of such statements *)


#[local] Abbreviation issues u := (within (stmt u)).

Lemma within_400 {A} u (m : eff Tenants.t (verdict A)) : issues u m → issues u (last_owner_400 m).
Proof. intros H t. specialize (H t). unfold last_owner_400. destruct (m t) as [[|st msg] t']; [done|]. by destruct (includes _ _). Qed.

#[local] Hint Resolve within_bind within_ret within_throw within_400 : core.

Lemma requireOrgRole_next roles u : Rbac.requireOrgRole roles (Some u) = Next tt →
  Rbac.is_super u = true ∨ Rbac.effective_role u ∈ roles.
Proof.
  unfold Rbac.requireOrgRole. destruct (Rbac.is_super u); [by left|]. intros H. right.
  destruct (bool_decide _) eqn:E; [by b2p|done].
Qed.

Lemma guarded_issues {A} u method roles id (k : eff Tenants.t (verdict A)) :
  (may_act roles u id → issues u k) → issues u (guarded method (Some roles) u id k).
Proof.
  intros H. unfold guarded. destruct (Rbac.requireNotAuditor _ _); [|auto].
  destruct (Rbac.requireOrgRole roles (Some u)) as [[]|] eqn:E; [|auto].
  destruct (_ && _) eqn:Eo; [auto|]. apply H. apply requireOrgRole_next in E as [E|E]; [by left|].
  b2p. destruct Eo as [Eo|Eo]; b2p; [by left|]. right. split; [done|]. unfold opt_is in Eo.
  destruct (Principal.organization_id u); [|done]. by b2p; subst.
Qed.

Lemma existsb_ids {A} (f : A → string) x l : existsb (λ y, (f y =? x)%string) l = true → x ∈ f <$> l.
Proof. intros (y & Hy & E)%existsb_exists. b2p. subst. apply list_elem_of_fmap_2. by apply list_elem_of_In. Qed.

Lemma insert_member_issues u m :
  (Rbac.requireRole ["super-admin"] (Some u) = Next tt ∨ may_act ["owner"; "admin"] u (Membership.organization_id m)) →
  (Membership.role m = "owner" → Rbac.requireRole ["super-admin"] (Some u) = Next tt ∨ Rbac.effective_role u = "owner") →
  Membership.role m ∈ VALID_ROLES → issues u (insert_member m).
Proof.
  intros Hu Ho Hr t. unfold insert_member. read_store. branch E; [apply rtc_refl|]. branch E2; [|apply rtc_refl].
  b2p. apply rtc_once. apply S_member; auto; by apply existsb_ids.
Qed.

Lemma insert_org_issues u o : Rbac.requireRole ["super-admin"] (Some u) = Next tt → issues u (insert_org o).
Proof.
  intros Hu t. unfold insert_org. read_store. branch E; [|apply rtc_refl]. b2p. apply rtc_once.
  apply S_create; [done|]. intros x Hx. destruct (is_org (Org.id o) x || (Org.slug x =? Org.slug o)%string) eqn:Ex.
  - exfalso. match goal with H : existsb _ _ = false |- _ => rewrite <- not_true_iff_false, existsb_exists in H; apply H end.
    exists x. split; [by apply list_elem_of_In|done].
  - unfold is_org in Ex. by b2p.
Qed.

Lemma create_org_issues u name slug policy staleness rnd now : issues u (post_org u name slug policy staleness rnd now).
Proof.
  unfold post_org. destruct (Rbac.requireNotAuditor _ _); [|auto].
  destruct (Rbac.requireRole _ _) as [[]|] eqn:E; [|auto]. destruct (name =? "")%string eqn:En; [auto|].
  apply within_bind; [|auto]. unfold createOrganization. rewrite En.
  destruct (negb _); [auto|]. destruct (negb _); [auto|].
  intros t. read_store. revert t. apply within_bind; [intros t; destruct (finalSlug _ _); apply rtc_refl|].
  intros slug'. apply within_bind; [by apply insert_org_issues|]. intros _. apply within_bind; [|auto].
  destruct (nonempty _); [|auto]. apply within_bind; [|auto]. apply insert_member_issues; auto. set_solver.
Qed.

Lemma put_org_issues u id up : issues u (put_org u id up).
Proof.
  apply guarded_issues. intros Hu. apply within_bind; [|auto]. unfold updateOrganization.
  destruct (negb (one_of (u_default_policy up) _)); [auto|]. destruct (negb (one_of (u_profile up) _)) eqn:Ep; [auto|].
  apply within_get. intros t. branch El; [auto|]. branch Et; [auto|]. branch Ed; [auto|]. branch Eu; [auto|].
  match goal with |- context [forallb ?f ?l] => destruct (forallb f l) end; [|auto].
  etrans; [apply rtc_once, (S_update u t id up); [done..|by b2p]|].
  match goal with |- context [bool_decide ?P] => destruct (bool_decide P) end; [|auto].
  apply rtc_once, S_aside. by split.
Qed.

Lemma delete_org_issues u id : D id → issues u (delete_org_handler u id).
Proof.
  intros Hd. apply guarded_issues. intros Hu. apply within_bind; [|auto]. unfold deleteOrganization.
  destruct (String.eqb_spec id "org-default"); [auto|]. apply within_get. intros t. destruct (getOrganization id t); [|auto].
  branch E; [|auto]. apply rtc_once. by apply S_delete.
Qed.

Lemma update_user_memberships id f c : Console.memberships (update_user id f c).2 = Console.memberships c.
Proof. unfold update_user. read_store. destruct (select1 _ _); [|done]. by destruct (advance_console_auth_epoch _ _). Qed.

Lemma adopt_issues u id user : issues u (adopt id user).
Proof.
  apply within_get. intros t. cbv zeta.
  match goal with |- context [match ?x with _ => _ end t] => destruct x as [[|] c] eqn:E end; [|auto].
  apply rtc_once, S_aside. split; try done; unfold console_members, user_ids, db; simpl.
  - break_if; [|by inversion E]. apply (f_equal snd) in E. cbn in E. subst c. apply update_user_memberships.
  - rewrite update_where_fmap; done.
Qed.

Lemma add_issues u id user role : issues u (post_member u id user role).
Proof.
  apply guarded_issues. intros Hu. destruct (user =? "")%string; [auto|]. cbv zeta.
  destruct (_ && _) eqn:Eo; [auto|]. apply within_bind; [|auto]. unfold addMember.
  destruct (negb (valid_role _)) eqn:Er; [auto|]. unfold valid_role in Er. cbv zeta.
  apply within_bind; [apply insert_member_issues|].
  - by right.
  - cbn. intros E. rewrite E in Eo. cbn in Eo. b2p. destruct Eo as [Eo|Eo]; b2p.
    + left. unfold Rbac.requireRole. by rewrite Eo.
    + right. unfold opt_is in Eo. unfold Rbac.effective_role. destruct (Principal.org_role u); [|done]. b2p. by subst.
  - by b2p.
  - intros []; simpl; [|auto]. apply within_bind; [apply adopt_issues|auto].
Qed.

Lemma set_role_issues u id user role : issues u (put_member u id user role).
Proof.
  apply within_400, guarded_issues. intros Hu. destruct (nonempty role) as [r|]; [|auto].
  apply within_bind; [|auto]. unfold updateMemberRole. destruct (negb (valid_role r)) eqn:Er; [auto|]. unfold valid_role in Er. b2p.
  apply within_get. intros t. destruct (getUserOrgRole id user t) as [old|] eqn:Eo; [|auto].
  branch E; [auto|]. apply rtc_once. eapply S_role; [done..|]. intros -> Hn.
  apply String.eqb_neq in Hn. rewrite Hn in E. change ((owner_count id t <=? 1) = false) in E. by b2p.
Qed.

Lemma remove_issues u id user : issues u (delete_member_handler u id user).
Proof.
  apply within_400, guarded_issues. intros Hu. apply within_bind; [|auto]. apply within_get. intros t.
  destruct (may_remove id user t) as [[]|] eqn:E; [|auto..]. apply rtc_once. by apply S_remove.
Qed.

Lemma set_module_issues u id m e : issues u (put_module u id m e).
Proof.
  apply guarded_issues. intros Hu. destruct e; [|auto]. apply within_bind; [|auto]. apply within_get. intros t.
  branch E; [auto|]. b2p. apply rtc_once. apply S_module; [done|]. by apply existsb_ids.
Qed.

Lemma request_issues u r : (∀ id, r = Delete id → D id) → issues u (perform u r).
Proof.
  intros Hd. destruct r; (apply within_bind; [|auto]).
  - apply create_org_issues.
  - apply put_org_issues.
  - by apply delete_org_issues, Hd.
  - apply add_issues.
  - apply set_role_issues.
  - apply remove_issues.
  - apply set_module_issues.
Qed.
End Statements.

(** ** The tables' invariant *)

Definition member_key (m : Membership.t) : string * string := (Membership.user_id m, Membership.organization_id m).

Definition member_ok (t : Tenants.t) (m : Membership.t) : Prop :=
  Membership.role m ∈ VALID_ROLES ∧ Membership.user_id m ∈ user_ids t ∧ Membership.organization_id m ∈ Org.id <$> orgs t.

(** The keys and references of the schema, and the two copies of the memberships. *)
Record wf (t : Tenants.t) : Prop := {
  wf_ids : NoDup (Org.id <$> orgs t);
  wf_slugs : NoDup (Org.slug <$> orgs t);
  wf_keys : NoDup (member_key <$> members t);
  wf_refs : Forall (member_ok t) (members t);
  wf_copies : console_members t = members t;
  wf_settings : NoDup (fst <$> settings t);
  wf_setting_refs : Forall (λ r, r.1.1 ∈ Org.id <$> orgs t) (settings t);
}.

Lemma NoDup_snoc {A} (l : list A) x : NoDup l → x ∉ l → NoDup (l ++ [x]).
Proof. intros H Hx. apply NoDup_app. split_and!; [done| |apply NoDup_singleton]. intros y Hy ->%list_elem_of_singleton. done. Qed.

Lemma is_member_spec org user m : is_member org user m = true ↔ member_key m = (user, org).
Proof. unfold is_member, member_key. rewrite andb_true_iff, !String.eqb_eq. split; [by intros [-> ->]|by intros [= -> ->]]. Qed.

Lemma member_ok_mono t t' m :
  user_ids t ⊆ user_ids t' → (Org.id <$> orgs t) ⊆ (Org.id <$> orgs t') → member_ok t m → member_ok t' m.
Proof. intros Hu Ho (? & ? & ?). split_and!; auto. Qed.

Lemma aside_wf t t' : aside t t' → wf t → wf t'.
Proof.
  intros [] []. split; rewrite ?as_members0, ?as_orgs0, ?as_settings0, ?as_console0; try done.
  eapply Forall_impl; [done|]. intros m. apply member_ok_mono; by rewrite ?as_users0, ?as_orgs0.
Qed.

Lemma create_org_wf t o : (∀ x, x ∈ orgs t → Org.id x ≠ Org.id o ∧ Org.slug x ≠ Org.slug o) → wf t → wf (insert_org_row o t).
Proof.
  intros Hx []. split; unfold orgs, members, settings; simpl; try done.
  - rewrite fmap_app. apply NoDup_snoc; [done|]. intros (x & ? & Hin)%list_elem_of_fmap. by destruct (Hx x Hin).
  - rewrite fmap_app. apply NoDup_snoc; [done|]. intros (x & ? & Hin)%list_elem_of_fmap. by destruct (Hx x Hin).
  - eapply Forall_impl; [exact wf_refs0|]. intros m. apply member_ok_mono; [done|]. unfold orgs at 2. simpl. rewrite fmap_app. set_solver.
  - eapply Forall_impl; [exact wf_setting_refs0|]. intros r. rewrite fmap_app. set_solver.
Qed.

(** Statements on the memberships alone. *)
Lemma members_wf f t :
  wf t → NoDup (member_key <$> f (members t)) → Forall (member_ok t) (f (members t)) → wf (on_members f t).
Proof.
  intros [] Hk Hf. split; try done. unfold console_members, members in *; simpl. by rewrite wf_copies0.
Qed.

Lemma member_wf t m :
  wf t → existsb (is_member (Membership.organization_id m) (Membership.user_id m)) (members t) = false →
  member_ok t m → wf (on_members (λ l, l ++ [m]) t).
Proof.
  intros Hw He Hm. apply members_wf; [done| |].
  - rewrite fmap_app. apply NoDup_snoc; [apply Hw|]. intros (x & Ex & Hx)%list_elem_of_fmap.
    apply not_true_iff_false in He. apply He, existsb_exists. exists x. split; [by apply list_elem_of_In|]. by apply is_member_spec.
  - apply Forall_app. split; [apply Hw|]. by apply Forall_singleton.
Qed.

Lemma role_wf t id user role :
  wf t → role ∈ VALID_ROLES → wf (on_members (update_where (is_member id user) (λ m, m <| Membership.role := role |>)) t).
Proof.
  intros Hw Hr. apply members_wf; [done| |].
  - rewrite update_where_fmap; [apply Hw|done].
  - apply Forall_forall. intros m (x & Hx & ->)%elem_of_update.
    pose proof (proj1 (Forall_forall _ _) (wf_refs _ Hw) x Hx) as (? & ? & ?). by destruct (is_member id user x); split_and!.
Qed.

Lemma remove_wf t p : wf t → wf (on_members (delete_where p) t).
Proof.
  intros Hw. apply members_wf; [done|apply where_NoDup, Hw|].
  apply Forall_forall. intros m [Hm _]%elem_of_delete. by apply (proj1 (Forall_forall _ _) (wf_refs _ Hw)).
Qed.

Lemma update_org_wf t id up :
  wf t → wf (on_tables (λ d, d <| Db.organizations ::= update_where (is_org id) (apply_update up) |>) t).
Proof.
  assert (∀ (g : Org.t → string) l, (∀ o, g (apply_update up o) = g o) →
    g <$> update_where (is_org id) (apply_update up) l = g <$> l) as Hg by (intros; by apply update_where_fmap).
  intros []. split; unfold orgs; simpl; rewrite ?Hg by done; try done.
  eapply Forall_impl; [exact wf_refs0|]. intros m. apply member_ok_mono; [done|]. unfold orgs at 2. simpl. by rewrite Hg.
Qed.

Lemma setting_key_spec id m r : Modules.is_setting id m r = true ↔ r.1 = (id, m).
Proof. unfold Modules.is_setting. destruct r as [[a b] e]. simpl. rewrite andb_true_iff, !String.eqb_eq. naive_solver. Qed.

Lemma elem_of_upsert id m e l r :
  r ∈ upsert_setting id m e l → r.1 = (id, m) ∧ r.2 = e ∨ r ∈ l ∧ r.1 ≠ (id, m).
Proof.
  unfold upsert_setting. destruct (existsb _ _) eqn:E.
  - intros (x & Hx & ->)%elem_of_update. destruct (Modules.is_setting id m x) eqn:Es.
    + apply setting_key_spec in Es. left. by rewrite Es.
    + right. split; [done|]. intros Hc%setting_key_spec. congruence.
  - intros [Hr| ->%list_elem_of_singleton]%elem_of_app; [|by left].
    right. split; [done|]. intros Hc%setting_key_spec. apply not_true_iff_false in E. apply E, existsb_exists.
    exists r. split; [by apply list_elem_of_In|done].
Qed.

Lemma upsert_keys id m e l : NoDup (fst <$> l) → NoDup (fst <$> upsert_setting id m e l).
Proof.
  intros H. unfold upsert_setting. destruct (existsb _ _) eqn:E; [by rewrite update_where_fmap|].
  rewrite fmap_app. apply NoDup_snoc; [done|]. intros (r & Er & Hr)%list_elem_of_fmap.
  apply not_true_iff_false in E. apply E, existsb_exists. exists r. split; [by apply list_elem_of_In|]. by apply setting_key_spec.
Qed.

Lemma set_module_wf t id m e : wf t → id ∈ Org.id <$> orgs t → wf (set_setting id m e t).
Proof.
  intros [] Hid. split; try done.
  - by apply upsert_keys.
  - apply Forall_forall. intros r [[Hr _]|[Hr _]]%elem_of_upsert; [by rewrite Hr|].
    by apply (proj1 (Forall_forall _ _) wf_setting_refs0).
Qed.

Lemma delete_org_wf t id : wf t → wf (delete_org id t).
Proof.
  intros [].
  assert (∀ i, i ≠ id → i ∈ Org.id <$> orgs t → i ∈ Org.id <$> orgs (delete_org id t)) as Hkeep.
  { intros i Hi (x & -> & Hx)%list_elem_of_fmap. apply list_elem_of_fmap_2, elem_of_delete. split; [done|].
    by apply String.eqb_neq. }
  split; unfold console_members, members, orgs, settings in *; simpl.
  - by apply where_NoDup.
  - by apply where_NoDup.
  - by apply where_NoDup.
  - apply Forall_forall. intros m [Hm Hn]%elem_of_delete. b2p.
    destruct (proj1 (Forall_forall _ _) wf_refs0 m Hm) as (? & ? & ?). split_and!; [done| |by apply Hkeep].
    unfold user_ids. simpl. by rewrite update_where_fmap.
  - by rewrite wf_copies0.
  - by apply where_NoDup.
  - apply Forall_forall. intros r [Hr Hn]%elem_of_delete. b2p. apply Hkeep; [done|].
    by apply (proj1 (Forall_forall _ _) wf_setting_refs0).
Qed.

Lemma org_stmt_wf D u t t' : stmt D u t t' → wf t → wf t'.
Proof.
  destruct 1; intros Hw.
  - by apply create_org_wf.
  - apply member_wf; [done..|]. by split_and!.
  - by eapply aside_wf.
  - by apply update_org_wf.
  - by apply delete_org_wf.
  - by apply role_wf.
  - by apply remove_wf.
  - by apply set_module_wf.
Qed.

(** What every statement preserves, a history preserves. *)
Lemma history_invariant (P : Principal.t → request → Prop) (D : string → Prop) (I : Tenants.t → Prop) t t' :
  (∀ u id, P u (Delete id) → D id) → (∀ u r s s', P u r → stmt D u s s' → I s → I s') → rtc (step P) t t' → I t → I t'.
Proof.
  intros Hd H. induction 1 as [|t t1 t2 (u & r & Hp & ->) _ IH]; [done|]. intros Hi. apply IH.
  eapply within_invariant; [|apply (request_issues D)|exact Hi].
  - intros s s' Hs. by eapply H.
  - intros id ->. by eapply Hd.
Qed.

(** Whatever requests are made and whatever they answer, the identifiers and
    slugs of the organisations are unique, so is a membership of a user in an
    organisation, every membership names an existing user and organisation and a
    valid role, the copy of the memberships that the sessions read is the one the
    node services read, and module settings are unique and of existing
    organisations. *)
Theorem org_tables_invariant t t' : rtc (step (λ _ _, True)) t t' → wf t → wf t'.
Proof. apply (history_invariant _ (λ _, True)); [done|]. intros u r s s' _. apply org_stmt_wf. Qed.

(** ** Owners *)

Definition has_owner (org : string) (t : Tenants.t) : Prop := ∃ m, m ∈ members t ∧ is_owner_row org m = true.

Lemma owner_row_spec org m : is_owner_row org m = true ↔ Membership.organization_id m = org ∧ Membership.role m = "owner".
Proof. unfold is_owner_row. by rewrite andb_true_iff, !String.eqb_eq. Qed.

(** With two owners there is one besides any given user. *)
Lemma other_owner t org user :
  wf t → 1 < owner_count org t → ∃ m, m ∈ members t ∧ is_owner_row org m = true ∧ is_member org user m = false.
Proof.
  unfold owner_count. fold (members t). intros Hw Hc. pose proof (where_NoDup member_key (is_owner_row org) _ (wf_keys _ Hw)) as Hn.
  destruct (where_ (is_owner_row org) (members t)) as [|x [|y l]] eqn:E; simpl in Hc; [lia..|].
  assert (∀ z, z ∈ [x; y] → z ∈ members t ∧ is_owner_row org z = true) as Hz.
  { intros z Hz. apply and_comm, elem_of_where. rewrite E. set_solver. }
  destruct (is_member org user x) eqn:Ex; [|exists x; naive_solver set_solver].
  destruct (is_member org user y) eqn:Ey; [|exists y; naive_solver set_solver].
  apply is_member_spec in Ex, Ey. apply NoDup_cons in Hn as [Hn _]. destruct Hn. rewrite Ex, <- Ey. left.
Qed.

Lemma role_of_member t org user role m :
  wf t → getUserOrgRole org user t = Some role → m ∈ members t → is_member org user m = true → Membership.role m = role.
Proof.
  intros Hw Hr Hm Hi. unfold getUserOrgRole in Hr. rewrite (select1_unique member_key _ _ m) in Hr; [by simplify_eq/=|apply Hw|done..|].
  intros y Hy. apply is_member_spec in Hi, Hy. congruence.
Qed.

Lemma member_of_other org id user m : org ≠ id → Membership.organization_id m = org → is_member id user m = false.
Proof. intros Hn <-. unfold is_member. by rewrite (proj2 (String.eqb_neq _ _) Hn). Qed.

Lemma role_keeps_owner t id user role old org :
  wf t → getUserOrgRole id user t = Some old → (old = "owner" → role ≠ "owner" → 1 < owner_count id t) →
  has_owner org t → has_owner org (on_members (update_where (is_member id user) (λ m, m <| Membership.role := role |>)) t).
Proof.
  intros Hw Hr Hc (m & Hm & Ho).
  assert (∃ m, m ∈ members t ∧ is_owner_row org m = true ∧ (is_member id user m = true → role = "owner")) as (x & Hx & Hox & Hi).
  { destruct (is_member id user m) eqn:Ei; [|exists m; by rewrite Ei]. pose proof (role_of_member _ _ _ _ _ Hw Hr Hm Ei) as Hrm.
    destruct (decide (role = "owner")) as [->|Hn]; [by exists m|].
    apply owner_row_spec in Ho as [<- Ho]. rewrite Ho in Hrm. symmetry in Hrm.
    pose proof Ei as Ei'. unfold is_member in Ei'. b2p. subst id.
    destruct (other_owner t (Membership.organization_id m) user Hw (Hc Hrm Hn)) as (y & ? & ? & Hy).
    exists y. rewrite Hy. done. }
  eexists. split; [apply elem_of_update; by exists x|]. destruct (is_member id user x); [|done].
  apply owner_row_spec in Hox as [? _]. apply owner_row_spec. split; [done|]. by apply Hi.
Qed.

Lemma may_remove_spec id user t : may_remove id user t = Ok true →
  ∃ role, getUserOrgRole id user t = Some role ∧ (role = "owner" → 1 < owner_count id t).
Proof.
  unfold may_remove. destruct (getUserOrgRole id user t) as [role|]; [|done]. destruct (_ && _) eqn:E; [done|].
  intros _. exists role. split; [done|]. intros ->. change ((owner_count id t <=? 1) = false) in E. by b2p.
Qed.

Lemma remove_keeps_owner t id user org :
  wf t → may_remove id user t = Ok true → has_owner org t → has_owner org (delete_member id user t).
Proof.
  intros Hw (role & Hr & Hc)%may_remove_spec (m & Hm & Ho). destruct (is_member id user m) eqn:Ei.
  - pose proof (role_of_member _ _ _ _ _ Hw Hr Hm Ei) as Hrm. apply owner_row_spec in Ho as [<- Ho].
    unfold is_member in Ei. b2p. subst id role.
    destruct (other_owner t (Membership.organization_id m) user Hw (Hc Ho)) as (y & ? & ? & Hy).
    exists y. split; [by apply elem_of_delete|done].
  - exists m. split; [by apply elem_of_delete|done].
Qed.

Lemma stmt_keeps_owner D u t t' org : ¬ D org → stmt D u t t' → wf t → has_owner org t → has_owner org t'.
Proof.
  intros Hd. destruct 1 as [t o|t m|t t' Ha|t id up|t id HD|t id user role old|t id user|t id m e]; intros Hw Ho; try done.
  - destruct Ho as (x & Hx & Ho). exists x. split; [|done]. apply elem_of_app. by left.
  - destruct Ho as (x & Hx & Ho). exists x. split; [|done]. by rewrite (as_members _ _ Ha).
  - destruct Ho as (x & Hx & Ho). exists x. split; [|done]. apply elem_of_delete. split; [done|].
    apply owner_row_spec in Ho as [<- _]. apply String.eqb_neq. intros Hc. by rewrite Hc in Hd.
  - by eapply role_keeps_owner.
  - by apply remove_keeps_owner.
Qed.


(** *** Who makes owners *)

(** A caller who is not the platform administrator. *)
Definition tenant (u : Principal.t) : Prop := Rbac.is_super u = false ∧ Rbac.effective_role u ≠ "super-admin".

Lemma tenant_role u : tenant u → Rbac.requireRole ["super-admin"] (Some u) = Next tt → False.
Proof.
  intros [Hs He]. unfold Rbac.requireRole. rewrite Hs. destruct (bool_decide _) eqn:E; [|done]. b2p. set_solver.
Qed.

Lemma tenant_acts u roles id : tenant u → may_act roles u id → Rbac.effective_role u ∈ roles ∧ Principal.organization_id u = Some id.
Proof. intros [Hs _] [H|H]; [congruence|done]. Qed.

(** Requests of callers that are neither the platform administrator nor an owner
    make no one an owner: who is an owner after them was one before, of the same
    organisation. *)
Theorem owners_made_by_owners t t' :
  rtc (step (λ u _, tenant u ∧ Rbac.effective_role u ≠ "owner")) t t' →
  ∀ m, m ∈ members t' → Membership.role m = "owner" → m ∈ members t.
Proof.
  intros H. eapply (history_invariant _ (λ _, True)
    (λ s, ∀ m, m ∈ members s → Membership.role m = "owner" → m ∈ members t) t _); [|  |exact H|done]; [done|clear H].
  intros u _ s s' [Hu Hn] Hs IH m. destruct Hs as [s o|s x Hx Hox|s s' Ha|s id up|s id|s id user role old Hu'|s id user|s id x e];
    try (apply IH); unfold members; simpl.
  - intros [Hm| ->%list_elem_of_singleton]%elem_of_app Ho; [by apply IH|]. destruct (Hox Ho) as [Hc|]; [by destruct (tenant_role u)|done].
  - fold (members s'). rewrite (as_members _ _ Ha). apply IH.
  - intros [Hm _]%elem_of_delete. by apply IH.
  - apply tenant_acts in Hu' as [Hr _]; [|done]. set_solver.
  - intros [Hm _]%elem_of_delete. by apply IH.
Qed.

(** ** The regulated profile *)

Definition regulated (org : string) (t : Tenants.t) : Prop :=
  ∀ o, o ∈ orgs t → Org.id o = org → Org.profile o = "regulated".

Lemma apply_profile up o : one_of (u_profile up) ["standard"; "regulated"] = true →
  Org.profile (apply_update up o) = Org.profile o ∨ u_profile up = Some "standard" ∨ Org.profile (apply_update up o) = "regulated".
Proof.
  unfold one_of, apply_update, or_old, nonempty. cbn. destruct (u_profile up) as [p|]; [|by left].
  destruct (p =? "")%string; [by left|]. cbn. intros H. b2p. set_solver.
Qed.

Lemma update_keeps_regulated t id up role org o :
  leaves_regulated id up role t = false → role ≠ "super-admin" → one_of (u_profile up) ["standard"; "regulated"] = true →
  regulated org t → o ∈ orgs t → is_org id o = true → Org.id o = org → Org.profile (apply_update up o) = "regulated".
Proof.
  intros Hl Hr Hp Ht Ho Hi E. destruct (apply_profile up o Hp) as [->|[Hs|]]; [by apply Ht| |done].
  unfold leaves_regulated, getOrganization in Hl. rewrite Hs, (proj2 (String.eqb_neq _ _) Hr) in Hl.
  destruct (select1 (is_org id) (Db.organizations (db t))) as [x|] eqn:Ex.
  - apply select1_elem in Ex as [Hx Hin]. unfold is_org in Hx, Hi. b2p.
    exfalso. revert Hl. cbn. rewrite (Ht x Hin) by congruence. by intros [].
  - rewrite select1_none in Ex. by rewrite (Ex o Ho) in Hi.
Qed.

Lemma tenant_keeps_regulated D u t t' org : tenant u → stmt D u t t' → regulated org t → regulated org t'.
Proof.
  intros Hu. destruct 1 as [t o|t m|t t' Ha|t id up Hact|t id HD|t id user role old|t id user|t id m e]; intros Hr; try done.
  - by destruct (tenant_role u).
  - intros o. rewrite (as_orgs _ _ Ha). apply Hr.
  - intros o (x & Hx & ->)%elem_of_update E. destruct (is_org id x) eqn:Ex; [|by apply Hr].
    eapply (update_keeps_regulated _ _ _ (Principal.role u)); try done.
    destruct Hu as [Hs _]. unfold Rbac.is_super in Hs. by apply String.eqb_neq.
  - intros o [Ho _]%elem_of_delete. by apply Hr.
Qed.

Lemma high_risk_off org m t :
  org ≠ "" → regulated org t → org ∈ Org.id <$> orgs t → m ∈ Modules.HIGH_RISK →
  Modules.isModuleEnabledForOrg org m (Tenants.modules t) (db t) = false.
Proof.
  intros Hne Hr (o & Eo & Ho)%list_elem_of_fmap Hm. unfold Modules.isModuleEnabledForOrg.
  destruct (negb _); [done|]. rewrite (proj2 (String.eqb_neq _ _) Hne), (bool_decide_eq_true_2 _ Hm), andb_true_r.
  destruct (select1 _ _) as [x|] eqn:Ex.
  - apply select1_elem in Ex as [Hx Hin]. b2p. cbn. by rewrite (Hr x Hin Hx).
  - rewrite select1_none in Ex. specialize (Ex o Ho). cbn in Ex. b2p. by destruct Ex.
Qed.

(** An organisation on the regulated profile stays on it through every history of
    requests of its members, owners included, and of other organisations'; as long
    as it exists, the modules that destroy, hide or relay are off for it, whatever
    its settings say. *)
Theorem regulated_is_sticky org t t' :
  rtc (step (λ u _, tenant u)) t t' → org ≠ "" → regulated org t →
  regulated org t' ∧
  (org ∈ Org.id <$> orgs t' → ∀ m, m ∈ Modules.HIGH_RISK →
   Modules.isModuleEnabledForOrg org m (Tenants.modules t') (db t') = false).
Proof.
  intros H Hne Hr. assert (regulated org t') as Hr'.
  { eapply (history_invariant _ (λ _, True) (regulated org)); [..|exact H|exact Hr]; [done|].
    intros u r s s' Hu. by apply tenant_keeps_regulated. }
  split; [done|]. intros Ho m. by apply high_risk_off.
Qed.

(** ** Confinement *)

(** The rows of the organisations other than [org]. *)
Record elsewhere (org : string) (t t' : Tenants.t) : Prop := {
  el_orgs : where_ (λ o, negb (Org.id o =? org)%string) (orgs t') = where_ (λ o, negb (Org.id o =? org)%string) (orgs t);
  el_members : where_ (λ m, negb (Membership.organization_id m =? org)%string) (members t') =
               where_ (λ m, negb (Membership.organization_id m =? org)%string) (members t);
  el_settings : where_ (λ r, negb (r.1.1 =? org)%string) (settings t') = where_ (λ r, negb (r.1.1 =? org)%string) (settings t);
  el_nodes : ∀ n, n ∈ Db.nodes (db t) → Node.organization_id n ≠ Some org →
             ∃ n', n' ∈ Db.nodes (db t') ∧ n' = n <| Node.compartment_id := Node.compartment_id n' |>;
  el_rules : where_ (λ r, negb (opt_is (Rule.organization_id r) org)) (Db.acl_rules (db t')) =
             where_ (λ r, negb (opt_is (Rule.organization_id r) org)) (Db.acl_rules (db t));
  el_keys : where_ (λ k, negb (opt_is (PreAuthKey.organization_id k) org)) (Db.preauth_keys (db t')) =
            where_ (λ k, negb (opt_is (PreAuthKey.organization_id k) org)) (Db.preauth_keys (db t));
}.

Lemma node_same n : n = n <| Node.compartment_id := Node.compartment_id n |>.
Proof. by destruct n. Qed.

#[export] Instance elsewhere_preorder org : PreOrder (elsewhere org).
Proof.
  split.
  - intros t. split; try done. intros n Hn _. exists n. split; [done|apply node_same].
  - intros t1 t2 t3 [] []. split; try congruence. intros n Hn Ho.
    destruct (el_nodes0 n Hn Ho) as (n2 & Hn2 & E2). assert (Node.organization_id n2 = Node.organization_id n) as Eo by (by rewrite E2).
    destruct (el_nodes1 n2 Hn2) as (n3 & Hn3 & E3); [by rewrite Eo|]. exists n3. split; [done|].
    rewrite E3 at 1. rewrite E2 at 1. by destruct n.
Qed.

Lemma upsert_elsewhere org m e l :
  where_ (λ r, negb (r.1.1 =? org)%string) (upsert_setting org m e l) = where_ (λ r, negb (r.1.1 =? org)%string) l.
Proof.
  unfold upsert_setting. destruct (existsb _ _).
  - apply where_update_none. intros [[a b] x] _ [= -> ->]%setting_key_spec. cbn. by rewrite String.eqb_refl.
  - rewrite where_app, where_cons, where_nil. cbn. by rewrite String.eqb_refl, app_nil_r.
Qed.

Lemma delete_elsewhere org t : elsewhere org t (delete_org org t).
Proof.
  split; try (apply where_delete_none; intros x _ Hx; b2p; rewrite negb_false_iff; first [by apply String.eqb_eq|done]).
  intros n Hn Ho. unfold db, delete_org. cbn. eexists. split.
  - apply elem_of_update. exists n. split; [|reflexivity]. apply elem_of_delete. split; [done|].
    unfold Governance.of_org, opt_is. destruct (Node.organization_id n); [|done]. apply String.eqb_neq. by intros ->.
  - match goal with |- context [if ?b then _ else _] => destruct b end; by destruct n.
Qed.

(** Statements on organisations, members and settings alone. *)
Lemma elsewhere_rows org t t' :
  where_ (λ o, negb (Org.id o =? org)%string) (orgs t') = where_ (λ o, negb (Org.id o =? org)%string) (orgs t) →
  where_ (λ m, negb (Membership.organization_id m =? org)%string) (members t') =
  where_ (λ m, negb (Membership.organization_id m =? org)%string) (members t) →
  where_ (λ r, negb (r.1.1 =? org)%string) (settings t') = where_ (λ r, negb (r.1.1 =? org)%string) (settings t) →
  Db.nodes (db t') = Db.nodes (db t) → Db.acl_rules (db t') = Db.acl_rules (db t) →
  Db.preauth_keys (db t') = Db.preauth_keys (db t) → elsewhere org t t'.
Proof.
  intros ??? En Er Ek. split; rewrite ?Er, ?Ek; try done.
  intros n Hn _. exists n. rewrite En. split; [done|apply node_same].
Qed.

Lemma stmt_elsewhere D u t t' org :
  tenant u → Principal.organization_id u = Some org → stmt D u t t' → elsewhere org t t'.
Proof.
  intros Hu Eo. destruct 1 as [t o|t m Hact|t t' Ha|t id up Hact|t id HD Hact|t id user role old Hact|t id user Hact|t id m e Hact].
  all: try (apply tenant_acts in Hact as [_ Hid]; [|done]; assert (id = org) as -> by congruence).
  - by destruct (tenant_role u).
  - destruct Hact as [Hc|[_ Hid]%tenant_acts]; [by destruct (tenant_role u)| |done].
    assert (Membership.organization_id m = org) as Em by congruence. apply elsewhere_rows; try done.
    unfold members. simpl. rewrite where_app, where_cons, where_nil, Em, String.eqb_refl. apply app_nil_r.
  - destruct Ha. apply elsewhere_rows; congruence.
  - apply elsewhere_rows; try done. apply where_update_none. intros o _ Ho. unfold is_org in Ho. cbn. by rewrite Ho.
  - apply delete_elsewhere.
  - apply elsewhere_rows; try done. apply where_update_none. intros m _ Hm. apply is_member_spec in Hm as [= _ Em]. cbn. by rewrite Em, String.eqb_refl.
  - apply elsewhere_rows; try done. apply where_delete_none. intros m _ [= _ ->]%is_member_spec. by rewrite String.eqb_refl.
  - apply elsewhere_rows; try done. apply upsert_elsewhere.
Qed.

(** A caller who is not the platform administrator changes no organisation but
    the caller's own: rows, members, module settings, rules and enrolment keys of
    every other organisation are the same after any sequence of the caller's
    requests, and its nodes are all there, unchanged but for a reference to a
    compartment that is gone. *)
Theorem org_requests_confined u org t t' :
  tenant u → Principal.organization_id u = Some org → rtc (step (λ v _, v = u)) t t' → elsewhere org t t'.
Proof.
  intros Hu Eo H. eapply (history_invariant _ (λ _, True) (elsewhere org t)); [..|exact H|done]; [done|].
  intros v r s s' -> Hs Ht. etrans; [exact Ht|]. by eapply stmt_elsewhere.
Qed.

(** ** Creation *)

(** The [k]-th slug the loop tries. *)
Definition candidate (base : string) (k : Z) : string := if k =? 0 then base else base +:+ "-" +:+ pretty k.

Lemma candidate_inj base j k : candidate base j = candidate base k → j = k.
Proof.
  assert (∀ x, base = base +:+ "-" +:+ x → False) as Hne.
  { intros x E. rewrite <- (append_nil_r base) in E at 1. by apply (inj (String.append base)) in E. }
  unfold candidate. destruct (Z.eqb_spec j 0), (Z.eqb_spec k 0); subst; intros E; try done; try (by exfalso; eapply Hne).
  by apply (inj (String.append base)), (inj (String.append "-")), (inj pretty) in E.
Qed.

Lemma length_seqZ' n base : length (candidate base <$> seqZ 0 (Z.of_nat n)) = n.
Proof. rewrite length_fmap, length_seqZ. lia. Qed.

Definition slug_taken (orgs : list Org.t) (s : string) : bool := existsb (λ o, (Org.slug o =? s)%string) orgs.

Lemma slug_taken_spec orgs s : slug_taken orgs s = true ↔ s ∈ Org.slug <$> orgs.
Proof.
  split; [apply existsb_ids|]. intros (o & -> & Ho)%list_elem_of_fmap. apply existsb_exists. exists o.
  split; [by apply list_elem_of_In|apply String.eqb_refl].
Qed.

Lemma free_slug_spec fuel base k orgs : 0 ≤ k →
  match free_slug fuel base (candidate base k) (k + 1) orgs with
  | Some s => ∃ j, k ≤ j ∧ s = candidate base j ∧ s ∉ Org.slug <$> orgs ∧
                   ∀ i, k ≤ i < j → candidate base i ∈ Org.slug <$> orgs
  | None => ∀ i, k ≤ i < k + Z.of_nat fuel → candidate base i ∈ Org.slug <$> orgs
  end.
Proof.
  revert k. induction fuel as [|fuel IH]; intros k Hk; [simpl; lia|]. cbn [free_slug].
  fold (slug_taken orgs (candidate base k)). destruct (slug_taken orgs (candidate base k)) eqn:E.
  - apply slug_taken_spec in E. specialize (IH (k + 1) ltac:(lia)).
    assert (candidate base (k + 1) = base +:+ "-" +:+ pretty (k + 1)) as Ec by (unfold candidate; by destruct (Z.eqb_spec (k + 1) 0); [lia|]).
    rewrite Ec in IH. destruct (free_slug _ _ _ _ _).
    + destruct IH as (j & ? & ? & ? & Hi). exists j. split_and!; [lia|done..|]. intros i ?.
      destruct (decide (i = k)) as [->|]; [done|]. apply Hi. lia.
    + intros i ?. destruct (decide (i = k)) as [->|]; [done|]. apply IH. lia.
  - exists k. split_and!; [lia|done| |lia]. by rewrite <- slug_taken_spec, E.
Qed.

(** The search for a slug ends within one round more than there are
    organisations, and finds the first of base, base-1, base-2, ... that no
    organisation has. *)
Theorem finalSlug_total base orgs : ∃ k, 0 ≤ k ≤ Z.of_nat (length orgs) ∧
  finalSlug base orgs = Some (candidate base k) ∧ candidate base k ∉ Org.slug <$> orgs ∧
  ∀ i, 0 ≤ i < k → candidate base i ∈ Org.slug <$> orgs.
Proof.
  assert (∀ n, (∀ i, 0 ≤ i < Z.of_nat n → candidate base i ∈ Org.slug <$> orgs) → (n ≤ length orgs)%nat) as Hp.
  { intros n Hn. rewrite <- (length_fmap Org.slug orgs), <- (length_seqZ' n base). apply submseteq_length, NoDup_submseteq.
    - apply NoDup_fmap_2; [|apply NoDup_seqZ]. intros i j. apply candidate_inj.
    - intros s (i & -> & Hi%elem_of_seqZ)%list_elem_of_fmap. apply Hn. lia. }
  unfold finalSlug. pose proof (free_slug_spec (S (length orgs)) base 0 orgs ltac:(lia)) as H.
  change (candidate base 0) with base in H. change (0 + 1) with 1 in H. destruct (free_slug _ _ _ _ _) as [s|].
  - destruct H as (j & ? & -> & ? & Hi). exists j. split_and!; [lia| |done..].
    pose proof (Hp (Z.to_nat j)) as Hj. rewrite Z2Nat.id in Hj by lia. specialize (Hj Hi). lia.
  - specialize (Hp (S (length orgs))). exfalso. cut (S (length orgs) ≤ length orgs)%nat; [lia|]. apply Hp. intros i ?. apply H. lia.
Qed.

Lemma insert_org_ok o t x t' : insert_org o t = (Ok x, t') →
  t' = insert_org_row o t ∧ Org.id o ∉ Org.id <$> orgs t ∧ Org.slug o ∉ Org.slug <$> orgs t.
Proof.
  unfold insert_org. read_store. destruct (_ && _) eqn:E; [|done]. intros [= _ <-]. split; [done|]. b2p.
  match goal with H : existsb _ _ = false |- _ => apply not_true_iff_false in H; rename H into He end.
  split; intros (x' & Ex & Hx)%list_elem_of_fmap; apply He, existsb_exists; exists x'; (split; [by apply list_elem_of_In|]);
    unfold is_org; rewrite <- Ex, String.eqb_refl; [done|apply orb_true_r].
Qed.

Lemma insert_member_ok m t b t' : insert_member m t = (Ok b, t') →
  existsb (is_member (Membership.organization_id m) (Membership.user_id m)) (members t) = false → t' = on_members (λ l, l ++ [m]) t.
Proof. unfold insert_member. read_store. fold (members t). intros H Hn. rewrite Hn in H. break_if; run_inv; done. Qed.

Lemma select1_snoc {A} (p : A → bool) l x : existsb p l = false → p x = true → select1 p (l ++ [x]) = Some x.
Proof.
  intros Hl Hx. unfold select1. rewrite where_app, where_cons, where_nil, Hx.
  replace (where_ p l) with (@nil A); [done|]. symmetry. destruct (where_ p l) as [|y r] eqn:E; [done|].
  assert (y ∈ where_ p l) as [Hp Hy]%elem_of_where by (rewrite E; left).
  apply not_true_iff_false in Hl. destruct Hl. apply existsb_exists. exists y. by rewrite <- list_elem_of_In.
Qed.

Lemma no_member t org user : wf t → org ∉ Org.id <$> orgs t → existsb (is_member org user) (members t) = false.
Proof.
  intros Hw Ho. apply not_true_iff_false. intros (m & Hm & Ei)%existsb_exists. apply list_elem_of_In in Hm.
  apply is_member_spec in Ei as [= _ E]. destruct (proj1 (Forall_forall _ _) (wf_refs _ Hw) m Hm) as (_ & _ & H).
  by rewrite E in H.
Qed.

(** A created organisation has an identifier and a slug of its own, is not
    regulated, and its creator is an owner of it. *)
Theorem created_org_owned u name slug policy staleness rnd now t t' o :
  post_org u name slug policy staleness rnd now t = (Ok (Next o), t') → Principal.id u ≠ "" → wf t →
  o ∈ orgs t' ∧ Org.id o ∉ Org.id <$> orgs t ∧ Org.slug o ∉ Org.slug <$> orgs t ∧
  Org.default_policy o ∈ ["open"; "deny"] ∧ Org.profile o = "standard" ∧
  getUserOrgRole (Org.id o) (Principal.id u) t' = Some "owner".
Proof.
  unfold post_org, createOrganization. generalize ("org-" +:+ take_string 8 rnd) as oid. intros oid H Hu Hw.
  repeat break_match; run_inv; [|by simpl in *; rewrite (proj2 (String.eqb_neq _ _) Hu) in *].
  match goal with H : or_db_error ?x _ = _ |- _ => destruct x; [injection H as <- <-|done] end.
  match goal with H : insert_org _ _ = _ |- _ => apply insert_org_ok in H as (-> & Hi & Hs) end.
  match goal with H : nonempty _ = _ |- _ => cbn in H; rewrite (proj2 (String.eqb_neq _ _) Hu) in H; injection H as <- end.
  run_inv. match goal with H : insert_member _ _ = _ |- _ => apply insert_member_ok in H; [subst|exact (no_member x1 _ _ Hw Hi)] end.
  split_and!; [|done|done|by b2p|done|].
  - apply elem_of_app. right. by apply list_elem_of_singleton.
  - unfold getUserOrgRole. cbn. rewrite select1_snoc; [done|exact (no_member x1 _ _ Hw Hi)|].
    by apply is_member_spec.
Qed.

(** The list of modules says of a loaded module what the switch says. *)
Theorem listed_modules_switch org o t i b :
  getOrganization org t = Some o → org ≠ "" → Modules.loaded (Tenants.modules t) ≠ [] →
  (i, b) ∈ getOrgModules org t ↔
  Modules.isModuleLoaded i (Tenants.modules t) = true ∧
  b = Modules.isModuleEnabledForOrg org i (Tenants.modules t) (db t).
Proof.
  intros Ho Hne Hl. unfold getOrgModules, Modules.isModuleEnabledForOrg, Modules.isModuleLoaded.
  rewrite Ho, (bool_decide_eq_false_2 _ Hl), list_elem_of_fmap. unfold getOrganization, is_org in Ho. rewrite Ho.
  cbn. split.
  - intros (j & [= -> ->] & Hj). rewrite (bool_decide_eq_true_2 _ Hj). cbn. rewrite (proj2 (String.eqb_neq _ _) Hne). done.
  - intros [Hj ->]. exists i. rewrite Hj. cbn. rewrite (proj2 (String.eqb_neq _ _) Hne). b2p. done.
Qed.

End OrgFacts.

(** * Samples *)

Module OrgSamples.
Import Sessions Orgs OrgFacts.

Definition account (id org : string) : Account.t :=
  Account.mk id id "user" "active" (Some org) (Some "pw") None None None 1 false None [] None None None None None None.

Definition rows : list Membership.t :=
  [Membership.mk "ann" "org-a" "owner"; Membership.mk "dan" "org-a" "owner"; Membership.mk "bob" "org-a" "admin";
   Membership.mk "cid" "org-b" "owner"].

Definition tables : Db.t :=
  Db.empty
    <| Db.organizations := [(Org.plain "org-a" "acme" "deny") <| Org.profile := "regulated" |>; Org.plain "org-b" "acme-1" "open"] |>
    <| Db.users := [User.mk "ann" "ann" "user" "active" (Some "org-a"); User.mk "dan" "dan" "user" "active" (Some "org-a");
                    User.mk "bob" "bob" "user" "active" (Some "org-a"); User.mk "cid" "cid" "user" "active" (Some "org-b");
                    User.mk "eve" "eve" "user" "active" None; User.mk "root" "root" "super-admin" "active" None] |>
    <| Db.memberships := rows |>
    <| Db.nodes := [AclSample.node "n1" "100.64.0.1" (Some "org-a") None; AclSample.node "n2" "100.64.0.2" (Some "org-b") None] |>.

Definition console : Console.t :=
  SessionSamples.tables <| Console.users := [account "ann" "org-a"; account "dan" "org-a"; account "bob" "org-a"; account "cid" "org-b"] |>
    <| Console.memberships := rows |>.

Definition held : Hold.t := Hold.mk "hold-1" "org-a" "litigation" "root" true 0 None.

Definition state : Tenants.t :=
  Tenants.mk (Gov.mk tables console (Vault.mk ["org-a"; "org-b"] []) [held] [] []) (Modules.mk ["nuke"; "onion"] [("org-a", "nuke", true)]).

Definition caller (id role org : string) : Principal.t := Principal.mk id id "user" (Some org) (Some role) None None.
Definition ann := caller "ann" "owner" "org-a".
Definition bob := caller "bob" "admin" "org-a".
Definition root : Principal.t := Principal.mk "root" "root" "super-admin" None None None None.

Definition to_standard : org_updates := mk_updates None None None (Some "standard") None None None None.

Lemma state_wf : wf state.
Proof. split; first [reflexivity|apply (bool_decide_unpack _); vm_compute; exact I]. Qed.

Definition run (u : Principal.t) (r : request) (t : Tenants.t) : Tenants.t := (perform u r t).2.

(** A removal, a refused promotion and a refused profile change, one after the other. *)
Definition history : Tenants.t :=
  run bob (Update "org-a" to_standard) (run bob (Add "org-a" "eve" (Some "owner")) (run bob (Remove "org-a" "dan") state)).

Lemma run_step (P : Principal.t → request → Prop) u r t t' : P u r → rtc (step P) t t' → rtc (step P) t (run u r t').
Proof. intros HP H. eapply rtc_r; [exact H|]. by exists u, r. Qed.

Lemma org_tables_invariant_witness : wf history.
Proof. refine (org_tables_invariant state history _ state_wf). repeat (apply run_step; [exact I|]). apply rtc_refl. Defined.


Lemma owners_made_by_owners_witness :
  ∀ m, m ∈ members history → Membership.role m = "owner" → m ∈ members state.
Proof.
  refine (owners_made_by_owners state history _).
  repeat (apply run_step; [split; [split; [reflexivity|discriminate]|discriminate]|]). apply rtc_refl.
Defined.

Lemma regulated_is_sticky_witness :
  regulated "org-a" history ∧ Modules.isModuleEnabledForOrg "org-a" "nuke" (Tenants.modules history) (db history) = false.
Proof.
  destruct (regulated_is_sticky "org-a" state history) as [H1 H2].
  - repeat (apply run_step; [split; [reflexivity|discriminate]|]). apply rtc_refl.
  - discriminate.
  - intros o [->|[->|[]%elem_of_nil]%elem_of_cons]%elem_of_cons; [reflexivity|discriminate].
  - split; [exact H1|]. apply H2; apply (bool_decide_unpack _); vm_compute; exact I.
Defined.

Lemma org_requests_confined_witness : elsewhere "org-a" state (run ann (Delete "org-a") state).
Proof.
  refine (org_requests_confined ann "org-a" state _ _ _ _).
  - split; [reflexivity|discriminate].
  - reflexivity.
  - apply run_step; [reflexivity|apply rtc_refl].
Defined.

Lemma created_org_owned_witness :
  ∃ o t', post_org root "Acme" None None None "12345678" 5 state = (Ok (Next o), t') ∧ Org.slug o = "acme-2" ∧
  getUserOrgRole (Org.id o) "root" t' = Some "owner".
Proof.
  destruct (post_org root "Acme" None None None "12345678" 5 state) as [[[o|]|] t'] eqn:E; [|vm_compute in E; discriminate..].
  exists o, t'. split; [reflexivity|]. split; [vm_compute in E; injection E as <- _; reflexivity|].
  destruct (created_org_owned root "Acme" None None None "12345678" 5 state t' o E) as (_ & _ & _ & _ & _ & H);
    [discriminate|exact state_wf|exact H].
Defined.

Lemma listed_modules_switch_witness :
  ("onion", false) ∈ getOrgModules "org-a" state.
Proof.
  destruct (getOrganization "org-a" state) as [o|] eqn:E; [|vm_compute in E; discriminate].
  apply (listed_modules_switch "org-a" o state "onion" false E); [discriminate|discriminate|split; vm_compute; reflexivity].
Defined.

(** ** What the code lets happen *)

(** An owner deletes an organisation under an active legal hold: the hold goes
    with it, and no node key is revoked. *)
Lemma hold_does_not_stop_deletion :
  let t := run ann (Delete "org-a") state in
  Gov.holds (Tenants.gov state) = [held] ∧ Hold.active held = true ∧
  Org.id <$> orgs t = ["org-b"] ∧ Gov.holds (Tenants.gov t) = [] ∧ Node.id <$> Db.nodes (db t) = ["n2"] ∧
  Db.revoked_keys (db t) = [].
Proof. vm_compute. repeat split. Qed.

(** The check and the DELETE of [removeMember] are two statements: two owners
    removed at once are both let go, and none is left. *)
Lemma last_owner_race :
  may_remove "org-a" "ann" state = Ok true ∧ may_remove "org-a" "dan" state = Ok true ∧
  ¬ has_owner "org-a" (delete_member "org-a" "dan" (delete_member "org-a" "ann" state)).
Proof.
  split; [vm_compute; reflexivity|]. split; [vm_compute; reflexivity|]. intros (m & Hm & Ho). revert Ho.
  change (m ∈ [Membership.mk "bob" "org-a" "admin"; Membership.mk "cid" "org-b" "owner"]) in Hm.
  by repeat (apply elem_of_cons in Hm as [->|Hm]; [done|]); apply elem_of_nil in Hm.
Qed.

(** With no module loaded, the list names the three high-risk modules as enabled
    while the switch has them off. *)
Lemma unloaded_modules_listed :
  let t := state <| Tenants.modules := Modules.mk [] [] |> in
  getOrgModules "org-b" t = [("nuke", true); ("deniability", true); ("onion", true)] ∧
  Modules.isModuleEnabledForOrg "org-b" "nuke" (Tenants.modules t) (db t) = false.
Proof. split; vm_compute; reflexivity. Qed.

(** The users of a deleted organisation belong to the default organisation. *)
Lemma orphans_join_default :
  let t := run ann (Delete "org-a") state in
  Rbac.resolveUserOrg (Some (Principal.mk "bob" "bob" "user" None None None None)) (db t) =
  Some (caller "bob" "member" "org-default").
Proof. vm_compute. reflexivity. Qed.

End OrgSamples.
