(* ===== verification/Federation.v ===== *)
(** * Peering with other meshes

    [services/PeeringEngine.js] and the handlers of [routes/peering.js]: a mesh
    issues a signed token, another mesh accepts it once an operator has confirmed
    the fingerprint of the key, and either revokes the agreement.

    Requests and tokens are JSON values, as they arrive.  Ed25519, SHA-256, the
    reading of dates and the driver's conversion of parameters are arguments; a
    JSON column holds the value it was given.  The branch for another database
    than PostgreSQL is not taken ([isPostgres] is constantly true), and audit and
    topology events are left out. *)

From S2P Require Import Prelude Order Js Json Encoding Db Acl Access Revocation.

Module Agreement.
Record t := mk {
  id : string; initiator_user_id : string; peer_name : string; peer_endpoint : string;
  peer_token : jsval; peer_public_key : string; scope_mode : string;
  shared_device_ids : jsval; shared_subnets : jsval; imported_nodes : jsval;
  status : string; expires_at : Z; created_at : Z; updated_at : Z
}.
End Agreement.

Module Federation.

Record t := mk { db : Db.t; agreements : list Agreement.t }.

(** A mesh's Ed25519 identity: the base 64 of its public key and its signing. *)
Record identity := mk_identity { public_key : string; sign : string → string }.

Definition SCOPES : list string := ["ALL"; "SPECIFIC_DEVICES"; "SPECIFIC_SUBNETS"].
Definition DEFAULT_SUBNETS : jsval := JArr [JStr "100.64.0.0/16"].

(** A default of a destructured parameter: for undefined alone. *)
Definition or_default (v d : jsval) : jsval := if is_undef v then d else v.
(** [Array.isArray(v) ? v : []] *)
Definition array_or_empty (v : jsval) : jsval := if is_array v then v else JArr [].

Definition isValidCidr (cidr : jsval) : bool :=
  match cidr with
  | JStr s =>
      match split "/" s with
      | [ip; bits] =>
          match parseInt bits with
          | Some mask =>
              (0 <=? mask) && (mask <=? 32) &&
              let octets := split "." ip in
              Nat.eqb (length octets) 4 &&
              forallb (λ o, match parseInt o with Some n => (0 <=? n) && (n <=? 255) | None => false end) octets
          | None => false
          end
      | _ => false
      end
  | _ => false
  end.

(** ** The signed text *)

Definition SIGNED_KEYS : list string :=
  ["expires_at"; "initiator_endpoint"; "initiator_public_key"; "peering_id"; "scope_mode"; "shared_device_ids";
   "shared_subnets"; "version"].

Record payload := mk_payload {
  version : jsval; peering_id : jsval; initiator_endpoint : jsval; initiator_public_key : jsval;
  scope_mode : jsval; shared_device_ids : jsval; shared_subnets : jsval; expires_at : jsval
}.

Definition payload_fields (p : payload) : list (string * jsval) :=
  [("version", version p); ("peering_id", peering_id p); ("initiator_endpoint", initiator_endpoint p);
   ("initiator_public_key", initiator_public_key p); ("scope_mode", scope_mode p);
   ("shared_device_ids", shared_device_ids p); ("shared_subnets", shared_subnets p); ("expires_at", expires_at p)].

Definition canonical (p : payload) : string := default "" (JSON_stringify_keys SIGNED_KEYS (JObj (payload_fields p))).

(** What [verifyPeeringTokenSignature] reconstructs from a token. *)
Definition signed_payload (token : jsval) : payload :=
  mk_payload (js_or (field "version" token) (JStr "1.0")) (field "peering_id" token) (field "initiator_endpoint" token)
    (field "initiator_public_key" token) (field "scope_mode" token) (array_or_empty (field "shared_device_ids" token))
    (array_or_empty (field "shared_subnets" token)) (field "expires_at" token).

Fixpoint groups4 (s : string) : list string :=
  match s with
  | String a (String b (String c (String d r))) => String a (String b (String c (str1 d))) :: groups4 r
  | _ => []
  end.

(** ** Rows *)

Definition is_agreement (id : string) (a : Agreement.t) : bool := (Agreement.id a =? id)%string.

(** The NOT NULL, length and CHECK constraints of the table. *)
Definition row_ok (a : Agreement.t) : bool :=
  (len (Agreement.id a) <=? 64) && (len (Agreement.peer_name a) <=? 128) && (len (Agreement.peer_endpoint a) <=? 255) &&
  (len (Agreement.peer_public_key a) <=? 128) && bool_decide (Agreement.scope_mode a ∈ SCOPES).

Definition user_exists (a : Agreement.t) (w : t) : bool :=
  existsb (λ u, (User.id u =? Agreement.initiator_user_id a)%string) (Db.users (db w)).

Definition insert_agreement (a : Agreement.t) : eff t unit :=
  w <-! get ;
  if row_ok a && negb (existsb (is_agreement (Agreement.id a)) (agreements w)) && user_exists a w
  then modify (λ w, w <| agreements ::= λ l, l ++ [a] |>) else db_error.

(** INSERT ... ON CONFLICT (id) DO UPDATE SET status, imported_nodes, updated_at:
    the proposed row is checked in either case, the reference of a new row only. *)
Definition upsert_agreement (a : Agreement.t) : eff t unit :=
  w <-! get ;
  if negb (row_ok a) then db_error else
  if existsb (is_agreement (Agreement.id a)) (agreements w)
  then modify (λ w, w <| agreements ::= update_where (is_agreement (Agreement.id a)) (λ old,
         old <| Agreement.status := "active" |> <| Agreement.imported_nodes := Agreement.imported_nodes a |>
             <| Agreement.updated_at := Agreement.updated_at a |>) |>)
  else if user_exists a w then modify (λ w, w <| agreements ::= λ l, l ++ [a] |>) else db_error.

Definition peered_node (pid : jsval) (n kind role vip : string) : jsval :=
  JObj [("id", JStr ("peered-node-" +:+ js_String pid +:+ "-" +:+ n)); ("name", JStr ("External-Peer-" +:+ js_String pid +:+ "-" +:+ kind));
        ("peering_id", pid); ("color", JStr "#8b5cf6"); ("is_peered", JBool true); ("role", JStr role);
        ("overlay_ipv4", JStr vip); ("status", JStr "active")].

Definition importedNodes (pid : jsval) : jsval :=
  JArr [peered_node pid "1" "Relay" "RELAY" "100.64.200.1"; peered_node pid "2" "Bridge" "EXIT_BRIDGE" "100.64.200.2"].

(** [{ ...token, k: v, ... }] *)
Definition spread (token : jsval) (fs : list (string * jsval)) : jsval :=
  match token with JObj l => JObj (foldl (λ l '(k, v), set_member k v l) l fs) | _ => JObj fs end.

Section Engine.
Context (sha256 : string → string).
(** [crypto.verify] under the base 64 key and signature, false where a key is malformed. *)
Context (ed_verify : string → string → string → bool).
(** [new Date(v).getTime()], [None] for NaN. *)
Context (getTime : jsval → option Z).
(** The driver's text and timestamp parameters, [None] for NULL or a text that is
    refused; and [toISOString]. *)
Context (pg_text : jsval → option string) (pg_time : jsval → option Z) (iso : Z → string).
Context (RETENTION_HOURS : Z).

Definition publicKeyFingerprint (publicKeyB64 : jsval) : string :=
  toUpperCase (join "-" (groups4 (take_string 32 (sha256 (js_String publicKeyB64))))).

Definition verifyPeeringTokenSignature (token : jsval) : bool :=
  if negb (truthy (field "signature" token)) || negb (truthy (field "initiator_public_key" token)) then false
  else ed_verify (js_String (field "initiator_public_key" token)) (canonical (signed_payload token))
         (js_String (field "signature" token)).

(** ** Issuing *)

Definition createPeeringRequest (me : identity) (body : jsval) (actorId : option string) (rnd : string) (now : Z) : eff t jsval :=
  match field "initiator_endpoint" body with
  | JStr endpoint =>
      if (endpoint =? "")%string then throw (Some 400) "Missing initiator_endpoint" else
      let scope := match or_default (field "scope_mode" body) (JStr "ALL") with
                   | JStr s => if bool_decide (s ∈ SCOPES) then s else "ALL"
                   | _ => "ALL"
                   end in
      let subnets := match or_default (field "shared_subnets" body) DEFAULT_SUBNETS with
                     | JArr (x :: l) => x :: l
                     | _ => [JStr "100.64.0.0/16"]
                     end in
      match List.find (λ s, negb (isValidCidr s)) subnets with
      | Some s => throw (Some 400) ("Invalid CIDR format in shared_subnets: " +:+ js_String s)
      | None =>
          let pid := "peer-" +:+ rnd in
          let expDate := js_or (field "expires_at" body) (JStr (iso (now + 90 * 86400000))) in
          let devices := array_or_empty (or_default (field "shared_device_ids" body) (JArr [])) in
          let p := mk_payload (JStr "1.0") (JStr pid) (JStr endpoint) (JStr (public_key me)) (JStr scope) devices (JArr subnets) expDate in
          let token := JObj (payload_fields p ++ [("status", JStr "pending"); ("signature", JStr (sign me (canonical p)))]) in
          userId <-! or_db_error actorId ;
          expires <-! or_db_error (pg_time expDate) ;
          insert_agreement (Agreement.mk pid userId endpoint endpoint token (public_key me) scope devices (JArr subnets) (JArr [])
                              "pending" expires now now) ;!
          eff_ret token
      end
  | _ => throw (Some 400) "Missing initiator_endpoint"
  end.

(** ** Accepting *)

Definition expired (token : jsval) (now : Z) : bool :=
  truthy (field "expires_at" token) &&
  match getTime (field "expires_at" token) with Some e => e <? now | None => false end.

Definition activatedToken (token : jsval) : jsval :=
  let pid := field "peering_id" token in
  spread token [("peering_id", pid); ("initiator_endpoint", field "initiator_endpoint" token); ("status", JStr "active");
                ("imported_nodes", importedNodes pid)].

Definition acceptPeeringAgreement (token : jsval) (actorId : option string) (expectedFingerprint : jsval) (now : Z) : eff t jsval :=
  if negb (is_object token) then throw (Some 400) "Missing peering_token payload" else
  if negb (verifyPeeringTokenSignature token)
  then throw (Some 400) "Peering token signature does not verify against the public key it carries" else
  let fingerprint := publicKeyFingerprint (field "initiator_public_key" token) in
  if negb (truthy expectedFingerprint)
  then throw (Some 428) ("Refusing to federate without an out-of-band check. Confirm this fingerprint with the peer through another channel, then resend it as expected_fingerprint: " +:+ fingerprint) else
  if negb (toUpperCase (trim (js_String expectedFingerprint)) =? fingerprint)%string
  then throw (Some 400) "The peer fingerprint does not match the key in this token" else
  if expired token now then throw (Some 422) "Peering token has expired" else
  pid <-! or_db_error (pg_text (field "peering_id" token)) ;
  userId <-! or_db_error actorId ;
  endpoint <-! or_db_error (pg_text (field "initiator_endpoint" token)) ;
  key <-! or_db_error (pg_text (field "initiator_public_key" token)) ;
  scope <-! or_db_error (pg_text (or_default (field "scope_mode" token) (JStr "ALL"))) ;
  expires <-! or_db_error (pg_time (field "expires_at" token)) ;
  upsert_agreement (Agreement.mk pid userId endpoint endpoint (activatedToken token) key scope
    (or_default (field "shared_device_ids" token) (JArr [])) (or_default (field "shared_subnets" token) DEFAULT_SUBNETS)
    (importedNodes (field "peering_id" token)) "active" expires now now) ;!
  eff_ret (activatedToken token).

(** ** Reading *)

Definition parseJson (val def : jsval) : jsval :=
  if negb (truthy val) then def else
  match val with
  | JArr _ | JObj _ => val
  | _ => default def (JSON_parse (js_String val))
  end.

Record view := mk_view {
  v_id : string; v_endpoint : string; v_name : string; v_scope : string; v_devices : jsval; v_subnets : jsval;
  v_imported : jsval; v_status : string; v_expires : Z; v_signature : jsval; v_created : Z; v_updated : Z
}.

Definition view_of (a : Agreement.t) : view :=
  mk_view (Agreement.id a) (Agreement.peer_endpoint a) (Agreement.peer_name a) (Agreement.scope_mode a)
    (parseJson (Agreement.shared_device_ids a) (JArr [])) (parseJson (Agreement.shared_subnets a) (JArr []))
    (parseJson (Agreement.imported_nodes a) (JArr [])) (Agreement.status a) (Agreement.expires_at a)
    (js_or (field "signature" (Agreement.peer_token a)) (JStr "valid_sig")) (Agreement.created_at a) (Agreement.updated_at a).

Definition newest_first : Agreement.t → Agreement.t → Z := cmp_on (λ a, - Agreement.created_at a) cmp_Z.

Definition listPeeringAgreements (w : t) : list view := view_of <$> js_sort newest_first (agreements w).

Definition getPeeringAgreementById (id : string) (w : t) : option view := view_of <$> select1 (is_agreement id) (agreements w).

Definition getPeeredNodes (w : t) : list jsval :=
  ag ← listPeeringAgreements w;
  if (v_status ag =? "active")%string then match v_imported ag with JArr l => l | _ => [] end else [].

(** ** Revoking *)

(** [imported.map((n) => n && n.id).filter(Boolean)]; the ids are texts. *)
Definition imported_ids (imported : jsval) : option (list string) :=
  match imported with
  | JArr l => Some (omap (λ n, match field "id" n with JStr s => if (s =? "")%string then None else Some s | _ => None end) l)
  | _ => None
  end.

Definition on_db {A} (m : eff Db.t A) : eff t A := λ w, let '(r, d) := m (db w) in (r, w <| db := d |>).

Definition revokePeeringAgreement (id : string) (actorId : option string) (now : Z) : eff t unit :=
  w <-! get ;
  match select1 (is_agreement id) (agreements w) with
  | None => throw (Some 404) "Peering agreement not found"
  | Some a =>
      modify (λ w, w <| agreements ::= delete_where (is_agreement id) |>) ;!
      match imported_ids (parseJson (Agreement.imported_nodes a) (JArr [])) with
      | None => throw None "imported.map is not a function"
      | Some [] => eff_ret tt
      | Some ids => on_db (Revocation.revokeNodeKeys RETENTION_HOURS ids "peering_revoked" actorId false now) ;! eff_ret tt
      end
  end.

(** ** The handlers *)

Definition super_only {A} (u : option Principal.t) (k : Principal.t → eff t (verdict A)) : eff t (verdict A) :=
  match AuthGuards.requireRole ["super-admin"] u, u with
  | Next _, Some p => k p
  | Answer s e, _ => eff_ret (Answer s e)
  | Next _, None => eff_ret (Answer 401 "Authentication required")
  end.

(** An error with a status is answered with it; others go to the error handler. *)
Definition answering {A} (m : eff t A) : eff t (verdict A) :=
  λ w, match m w with
       | (Ok a, w') => (Ok (Next a), w')
       | (Throw (Some s) msg, w') => (Ok (Answer s msg), w')
       | (Throw None msg, w') => (Throw None msg, w')
       end.

Definition post_request (me : identity) (u : option Principal.t) (body : jsval) (rnd : string) (now : Z) : eff t (verdict jsval) :=
  super_only u (λ p,
    if negb (truthy (field "initiator_endpoint" body)) then eff_ret (Answer 400 "Missing initiator_endpoint") else
    answering (createPeeringRequest me body (Some (Principal.id p)) rnd now)).

Definition post_accept (u : option Principal.t) (body : jsval) (now : Z) : eff t (verdict jsval) :=
  super_only u (λ p,
    if negb (truthy (field "peering_token" body)) then eff_ret (Answer 400 "Missing peering_token payload") else
    answering (acceptPeeringAgreement (field "peering_token" body) (Some (Principal.id p)) (field "expected_fingerprint" body) now)).

Definition get_agreements (u : option Principal.t) : eff t (verdict (list view)) :=
  super_only u (λ _, w <-! get ; eff_ret (Next (listPeeringAgreements w))).

Definition get_nodes (u : option Principal.t) : eff t (verdict (list jsval)) :=
  super_only u (λ _, w <-! get ; eff_ret (Next (getPeeredNodes w))).

Definition handleGetPeeringAgreement (u : option Principal.t) (id : string) : eff t (verdict view) :=
  super_only u (λ _, w <-! get ;
    eff_ret (match getPeeringAgreementById id w with Some v => Next v | None => Answer 404 "Peering agreement not found" end)).

Definition delete_agreement (u : option Principal.t) (id : string) (now : Z) : eff t (verdict unit) :=
  super_only u (λ p, answering (revokePeeringAgreement id (Some (Principal.id p)) now)).

End Engine.
End Federation.
