(* ===== verification/FederationFacts.v ===== *)
(** * What peering guarantees

    The signed text determines what is signed; an accepted token is one the key's
    holder issued; acceptance needs a verified signature and a confirmed
    fingerprint; a request and its acceptance agree; a revocation takes the
    agreement and its nodes away. *)

From S2P Require Import Prelude Order Js Json Encoding Db Acl Access Revocation Federation.

Module FederationFacts.
Import Federation.

Abbreviation text := (JSON_stringify_keys SIGNED_KEYS).

(** ** The signed text *)

(** The head of a text that is not a string, an array or an object. *)
Lemma text_cases x : match x with
  | JUndef => text x = None
  | JStr s => text x = Some (quote s)
  | JArr l => text x = Some ("[" +:+ join "," ((λ y, default "null" (text y)) <$> l) +:+ "]")
  | JObj _ => ∃ r, text x = Some (String "{" r)
  | _ => ∃ c r, text x = Some (String c r) ∧ c ≠ chr 34 ∧ c ≠ "["%char ∧ c ≠ "]"%char
  end.
Proof.
  destruct x as [| |[]|n|s|l|l]; try reflexivity; try (by eexists _, _; split_and!; [reflexivity|..]); [|by eexists].
  cbn. destruct (isFinite n) eqn:E; [|by eexists _, _; split_and!; [reflexivity|..]].
  destruct (number_head n E) as (c & r & -> & Hc). exists c, r. split; [done|].
  by destruct Hc as [Hc| ->]; split_and!; try (intros ->).
Qed.

Lemma text_string x s t r r' : text x = Some t → t +:+ r = quote s +:+ r' → x = JStr s ∧ r = r'.
Proof.
  intros Ht E. pose proof (text_cases x) as H. destruct (quote_head s r') as [q Eq]. rewrite Eq in E.
  destruct x as [| | | |s'|l|l]; try congruence.
  1-3: destruct H as (c & r1 & Hx & Hc & _); simplify_eq; rewrite append_cons in E; by injection E.
  - rewrite H in Ht. simplify_eq. rewrite <- Eq in E. by apply quote_inj in E as [-> ->].
  - rewrite H in Ht. by simplify_eq.
  - destruct H as [r1 H]. by simplify_eq.
Qed.

(** The text of an array of strings. *)
Definition strings (ss : list string) : jsval := JArr (JStr <$> ss).

Definition item (y : jsval) : string := default "null" (text y).

Lemma item_string y s r r' : item y +:+ r = quote s +:+ r' → y = JStr s ∧ r = r'.
Proof.
  unfold item. destruct (text y) as [t|] eqn:E; [by apply text_string|]. destruct (quote_head s r') as [q ->]. done.
Qed.

Lemma item_head y r r' : item y +:+ r ≠ String "]" r'.
Proof.
  pose proof (text_cases y) as H. unfold item. destruct y as [| | | |s|l|l].
  - done.
  - destruct H as (c & r1 & -> & _ & _ & Hc). by intros [= ->].
  - destruct H as (c & r1 & -> & _ & _ & Hc). by intros [= ->].
  - destruct H as (c & r1 & -> & _ & _ & Hc). by intros [= ->].
  - rewrite H. cbn. done.
  - rewrite H. cbn. done.
  - destruct H as (r1 & ->). cbn. done.
Qed.

Lemma join_fmap_cons {A} (f : A → string) x (xs : list A) q :
  join "," (f <$> x :: xs) +:+ q = f x +:+ match xs with [] => q | _ => "," +:+ join "," (f <$> xs) +:+ q end.
Proof. destruct xs as [|x2 xs]; [done|]. rewrite !fmap_cons, join_cons2, !append_assoc. done. Qed.

Lemma join_head sep x l : ∃ r, join sep (x :: l) = x +:+ r.
Proof. destruct l; [exists ""; by rewrite append_nil_r|]. eexists. apply join_cons2. Qed.

Lemma items_inj l ss r r' :
  join "," (item <$> l) +:+ String "]" r = join "," (quote <$> ss) +:+ String "]" r' → l = JStr <$> ss ∧ r = r'.
Proof.
  revert ss. induction l as [|y l IH]; intros [|s ss] E.
  - by injection E as ->.
  - exfalso. rewrite join_fmap_cons in E. match type of E with _ = quote s +:+ ?q => destruct (quote_head s q) as [q' Eq] end.
    rewrite Eq in E. done.
  - exfalso. rewrite join_fmap_cons in E. by apply item_head in E.
  - rewrite !join_fmap_cons in E. apply item_string in E as [-> E]. destruct l as [|y l], ss as [|s2 ss]; try done.
    + by injection E as ->.
    + apply append_inj_l in E. apply IH in E as [E ->]. by rewrite fmap_cons, <- E.
Qed.

Lemma text_strings x ss t r r' :
  text x = Some t → t +:+ r = "[" +:+ join "," (quote <$> ss) +:+ "]" +:+ r' → x = strings ss ∧ r = r'.
Proof.
  intros Ht E. pose proof (text_cases x) as H. destruct x as [| | | |s'|l|l]; try congruence.
  1-3: destruct H as (c & r1 & Hx & _ & Hc & _); simplify_eq; rewrite append_cons in E; by injection E.
  - rewrite H in Ht. by simplify_eq.
  - rewrite H in Ht. injection Ht as <-. rewrite !append_assoc in E. apply append_inj_l in E.
    change (λ y, default "null" (text y)) with item in E. apply items_inj in E as [-> ->]. done.
  - destruct H as [r1 H]. by simplify_eq.
Qed.

(** *** The object *)

Inductive plain : jsval → Prop :=
  | plain_string s : plain (JStr s)
  | plain_strings ss : plain (strings ss).

Lemma plain_text v : plain v → ∃ t, text v = Some t.
Proof. destruct 1; by eexists. Qed.

Lemma strings_text ss : text (strings ss) = Some ("[" +:+ join "," (quote <$> ss) +:+ "]").
Proof.
  change (text (strings ss)) with (Some ("[" +:+ join "," (item <$> (JStr <$> ss)) +:+ "]")). by rewrite <- list_fmap_compose.
Qed.

Lemma text_plain x v t t' r r' :
  plain v → text x = Some t → text v = Some t' → t +:+ r = t' +:+ r' → x = v ∧ r = r'.
Proof.
  intros Hv Hx Hv' E. destruct Hv as [s|ss].
  - injection Hv' as <-. by eapply text_string.
  - rewrite strings_text in Hv'. injection Hv' as <-. rewrite !append_assoc in E. by eapply text_strings.
Qed.

Definition entry (f : string → jsval) (k : string) : option string := (λ t, quote k +:+ ":" +:+ t) <$> text (f k).

(** The members of an object after the first, and the brace that closes it. *)
Fixpoint members (f : string → jsval) (keys : list string) : string :=
  match keys with
  | [] => "}"
  | k :: ks => match text (f k) with Some t => "," +:+ quote k +:+ ":" +:+ t +:+ members f ks | None => members f ks end
  end.

Lemma omap_cons_entry f k ks :
  omap (entry f) (k :: ks) = match entry f k with Some e => e :: omap (entry f) ks | None => omap (entry f) ks end.
Proof. reflexivity. Qed.

Lemma members_join f keys :
  members f keys = match omap (entry f) keys with [] => "}" | l => "," +:+ join "," l +:+ "}" end.
Proof.
  induction keys as [|k ks IH]; [done|]. rewrite omap_cons_entry. cbn [members].
  destruct (entry f k) as [x|] eqn:Ee; unfold entry in Ee; destruct (text (f k)) as [t|]; try done. injection Ee as <-. rewrite IH.
  destruct (omap (entry f) ks) as [|e l]; [unfold join; cbn [String.concat]; by rewrite !append_assoc|]. rewrite join_cons2, !append_assoc. done.
Qed.

Lemma members_head f keys : members f keys = "}" ∨ ∃ k r, k ∈ keys ∧ members f keys = "," +:+ quote k +:+ r.
Proof.
  induction keys as [|k ks IH]; [by left|]. cbn [members]. destruct (text (f k)) as [t|].
  - right. eexists k, _. split; [left|reflexivity].
  - destruct IH as [IH|(k' & r & Hk & IH)]; [by left|]. right. exists k', r. split; [by right|done].
Qed.

Lemma members_inj f g keys :
  NoDup keys → (∀ k, k ∈ keys → plain (g k)) → members f keys = members g keys → ∀ k, k ∈ keys → f k = g k.
Proof.
  induction keys as [|k ks IH]; intros Hn Hg E k' Hk'; [by apply elem_of_nil in Hk'|].
  apply NoDup_cons in Hn as [Hk Hn]. cbn [members] in E.
  destruct (plain_text (g k)) as [tg Eg]; [apply Hg; left|]. rewrite Eg in E.
  destruct (text (f k)) as [t|] eqn:Ef.
  - apply append_inj_l in E. apply quote_inj in E as [_ E]. apply append_inj_l in E.
    eapply text_plain in E as [Hf E]; [|apply Hg; left|done..].
    apply elem_of_cons in Hk' as [->|Hk']; [done|]. apply IH; [done| |done..]. intros x Hx. apply Hg. by right.
  - exfalso. destruct (members_head f ks) as [H|(x & r & Hx & H)]; rewrite H in E; [done|].
    apply append_inj_l in E. apply quote_inj in E as [-> _]. done.
Qed.

Definition part (p : payload) (k : string) : jsval := default JUndef (assoc k (payload_fields p)).

Lemma canonical_entries p : canonical p = "{" +:+ join "," (omap (entry (part p)) SIGNED_KEYS) +:+ "}".
Proof. reflexivity. Qed.

(** A payload of strings and arrays of strings. *)
Definition plain_payload (p : payload) : Prop := ∀ k, k ∈ SIGNED_KEYS → plain (part p k).

(** The text an issuer signs determines what is signed: any payload at all with
    the same text is the issuer's, when the issuer's has strings and arrays of
    strings only. *)
Theorem signed_text_determines p q : plain_payload q → canonical p = canonical q → p = q.
Proof.
  intros Hq E. rewrite !canonical_entries in E. apply append_inj_l in E.
  assert (members (part p) SIGNED_KEYS = members (part q) SIGNED_KEYS) as Em.
  { rewrite !members_join. destruct (omap (entry (part q)) SIGNED_KEYS) as [|e l] eqn:Eq.
    - exfalso. destruct (plain_text (part q "expires_at")) as [t Et]; [apply Hq; left|].
      unfold SIGNED_KEYS in Eq. rewrite omap_cons_entry in Eq. unfold entry at 1 in Eq. by rewrite Et in Eq.
    - destruct (omap (entry (part p)) SIGNED_KEYS) as [|e' l']; [|by rewrite E].
      exfalso. assert (∃ k t, k ∈ SIGNED_KEYS ∧ e = quote k +:+ t) as (k & t & _ & ->).
      { assert (e ∈ omap (entry (part q)) SIGNED_KEYS) as (k & Hk & He)%list_elem_of_omap by (rewrite Eq; left).
        unfold entry in He. destruct (text (part q k)); [|done]. injection He as <-. by eexists k, _. }
      destruct (join_head "," (quote k +:+ t) l) as [r Er]. rewrite Er, !append_assoc in E.
      match type of E with _ = quote k +:+ ?x => destruct (quote_head k x) as [x' Ex]; rewrite Ex in E end. done. }
  pose proof (λ k Hk, members_inj (part p) (part q) SIGNED_KEYS ltac:(apply (bool_decide_unpack _); vm_compute; exact I) Hq Em k Hk) as H.
  destruct p, q.
  pose proof (λ k Hk, H k (proj1 (bool_decide_spec (k ∈ SIGNED_KEYS)) Hk)) as H'.
  pose proof (H' "version" I). pose proof (H' "peering_id" I). pose proof (H' "initiator_endpoint" I).
  pose proof (H' "initiator_public_key" I). pose proof (H' "scope_mode" I). pose proof (H' "shared_device_ids" I).
  pose proof (H' "shared_subnets" I). pose proof (H' "expires_at" I). cbn in *. congruence.
Qed.

(** ** Acceptance *)

Section Engine.
Context (sha256 : string → string) (ed_verify : string → string → string → bool) (getTime : jsval → option Z).
Context (pg_text : jsval → option string) (pg_time : jsval → option Z) (iso : Z → string) (RET : Z).

Abbreviation verify := (verifyPeeringTokenSignature ed_verify).
Abbreviation fingerprint := (publicKeyFingerprint sha256).
Abbreviation accept := (acceptPeeringAgreement sha256 ed_verify getTime pg_text pg_time).
Abbreviation create := (createPeeringRequest pg_time iso).
Abbreviation revoke := (revokePeeringAgreement RET).

(** The operator gave the fingerprint of the key in the token. *)
Definition given (token expected : jsval) : bool :=
  (toUpperCase (trim (js_String expected)) =? fingerprint (field "initiator_public_key" token))%string.

Definition confirmed (token expected : jsval) : Prop :=
  is_object token = true ∧ verify token = true ∧ truthy expected = true ∧ given token expected = true.

(** The row an acceptance proposes. *)
Definition proposed (token : jsval) (a : Agreement.t) : Prop :=
  pg_text (field "peering_id" token) = Some (Agreement.id a) ∧
  pg_text (field "initiator_endpoint" token) = Some (Agreement.peer_endpoint a) ∧
  pg_text (field "initiator_public_key" token) = Some (Agreement.peer_public_key a) ∧
  pg_text (or_default (field "scope_mode" token) (JStr "ALL")) = Some (Agreement.scope_mode a) ∧
  pg_time (field "expires_at" token) = Some (Agreement.expires_at a) ∧
  Agreement.shared_device_ids a = or_default (field "shared_device_ids" token) (JArr []) ∧
  Agreement.shared_subnets a = or_default (field "shared_subnets" token) DEFAULT_SUBNETS ∧
  Agreement.imported_nodes a = importedNodes (field "peering_id" token) ∧ Agreement.status a = "active".

Lemma accept_ok token actor expected now w r w' :
  accept token actor expected now w = (Ok r, w') →
  confirmed token expected ∧ expired getTime token now = false ∧ r = activatedToken token ∧
  ∃ a, proposed token a ∧ upsert_agreement a w = (Ok tt, w').
Proof.
  unfold accept, confirmed, given. intros H. repeat (branch_in H; [run_inv; done|]). b2p.
  run_inv. repeat match goal with H : or_db_error _ _ = _ |- _ => apply or_db_error_ok in H as [? ->] end.
  split_and!; try done; [by apply String.eqb_eq|]. destruct x11. eexists. split; [|done]. by split_and!.
Qed.

Lemma upsert_ok a w w' : upsert_agreement a w = (Ok tt, w') →
  row_ok a = true ∧
  (existsb (is_agreement (Agreement.id a)) (agreements w) = false ∧ user_exists a w = true ∧ w' = w <| agreements ::= λ l, l ++ [a] |> ∨
   existsb (is_agreement (Agreement.id a)) (agreements w) = true ∧
   w' = w <| agreements ::= update_where (is_agreement (Agreement.id a)) (λ old,
     old <| Agreement.status := "active" |> <| Agreement.imported_nodes := Agreement.imported_nodes a |>
         <| Agreement.updated_at := Agreement.updated_at a |>) |>).
Proof.
  unfold upsert_agreement. read_store. destruct (row_ok a); [|done]. simpl negb. cbv iota.
  destruct (existsb _ _); [intros [= <-]; by auto|]. destruct (user_exists a w); [|done]. intros [= <-]. by auto.
Qed.

Lemma upsert_throws a w st m w' : upsert_agreement a w = (Throw st m, w') → w' = w ∧ st = None.
Proof. unfold upsert_agreement. read_store. repeat case_match; intros [= -> _ ->]; done. Qed.

Lemma accept_throws token actor expected now w st m w' :
  accept token actor expected now w = (Throw st m, w') →
  w' = w ∧ (confirmed token expected → expired getTime token now = false → st = None).
Proof.
  unfold accept, confirmed, given. intros H.
  repeat (branch_in H; [run_inv; split; [done|]; intros (? & ? & ? & ?) ?; b2p; congruence|]).
  run_inv; repeat match goal with
    | H : or_db_error _ _ = (Ok _, _) |- _ => apply or_db_error_ok in H as [_ ->]
    | H : or_db_error _ _ = (Throw _ _, _) |- _ => apply or_db_error_throws in H as [-> ->]
    | H : upsert_agreement _ _ = (Throw _ _, _) |- _ => apply upsert_throws in H as [-> ->]
    end; done.
Qed.

(** Every outcome of an acceptance.  A refusal or a failure changes nothing.  A
    token that is not an object or does not verify is refused with 400; a verified
    token without a fingerprint with 428, and with another fingerprint than its
    key's with 400; an expired one with 422; nothing but the database fails past
    these checks, and what is accepted has passed them all. *)
Theorem accept_outcomes token actor expected now w :
  let '(r, w') := accept token actor expected now w in
  (∀ st m, r = Throw st m → w' = w) ∧
  (is_object token = false ∨ verify token = false → ∃ m, r = Throw (Some 400) m) ∧
  (is_object token = true → verify token = true → truthy expected = false → ∃ m, r = Throw (Some 428) m) ∧
  (is_object token = true → verify token = true → truthy expected = true → given token expected = false →
   ∃ m, r = Throw (Some 400) m) ∧
  (confirmed token expected → expired getTime token now = true → ∃ m, r = Throw (Some 422) m) ∧
  (confirmed token expected → expired getTime token now = false → ∀ st m, r = Throw st m → st = None) ∧
  (∀ v, r = Ok v → confirmed token expected ∧ expired getTime token now = false ∧ v = activatedToken token).
Proof.
  destruct (accept token actor expected now w) as [r w'] eqn:H. split_and!.
  - intros st m ->. by apply accept_throws in H as [-> _].
  - unfold accept, throw in H. intros E. destruct (is_object token), (verify token); destruct E; try done; injection H as <- _; by eexists.
  - unfold accept, throw in H. intros E1 E2 E3. rewrite E1, E2, E3 in H. injection H as <- _. by eexists.
  - unfold accept, given, throw in *. intros E1 E2 E3 E4. rewrite E1, E2, E3 in H. cbv zeta in H. rewrite E4 in H.
    injection H as <- _. by eexists.
  - unfold accept, confirmed, given, throw in *. intros (E1 & E2 & E3 & E4) E5. rewrite E1, E2, E3 in H. cbv zeta in H.
    rewrite E4, E5 in H. injection H as <- _. by eexists.
  - intros Hc He st m ->. by apply accept_throws in H as [_ H]; apply H.
  - intros v ->. by apply accept_ok in H as (? & ? & ? & _).
Qed.

(** ** Issued tokens *)

(** The token [me] hands out for a payload. *)
Definition token_of (me : identity) (p : payload) : jsval :=
  JObj (payload_fields p ++ [("status", JStr "pending"); ("signature", JStr (sign me (canonical p)))]).

(** The payload of a stored request, but for the text of its expiry. *)
Definition payload_of (a : Agreement.t) (exp : jsval) : payload :=
  mk_payload (JStr "1.0") (JStr (Agreement.id a)) (JStr (Agreement.peer_endpoint a)) (JStr (Agreement.peer_public_key a))
    (JStr (Agreement.scope_mode a)) (Agreement.shared_device_ids a) (Agreement.shared_subnets a) exp.

Definition well_scoped (a : Agreement.t) : Prop :=
  is_array (Agreement.shared_device_ids a) = true ∧ Agreement.peer_endpoint a ≠ "" ∧
  ∃ x l, Agreement.shared_subnets a = JArr (x :: l) ∧ forallb isValidCidr (x :: l) = true.

Lemma find_none_forallb (l : list jsval) : List.find (λ s, negb (isValidCidr s)) l = None → forallb isValidCidr l = true.
Proof. induction l as [|x l IH]; [done|]. simpl. by destruct (isValidCidr x). Qed.

Lemma request_ok me body actor rnd now w tok w' :
  create me body actor rnd now w = (Ok tok, w') →
  ∃ a exp, insert_agreement a w = (Ok tt, w') ∧ tok = token_of me (payload_of a exp) ∧ pg_time exp = Some (Agreement.expires_at a) ∧
    Agreement.peer_public_key a = public_key me ∧ Agreement.peer_name a = Agreement.peer_endpoint a ∧
    Agreement.status a = "pending" ∧ Agreement.imported_nodes a = JArr [] ∧ well_scoped a.
Proof.
  unfold create. intros H. destruct (field "initiator_endpoint" body) as [| | | |endpoint| |]; try done.
  branch_in H; [done|]. b2p. cbv zeta in H. destruct (List.find _ _) eqn:Ef; [done|]. apply find_none_forallb in Ef. run_inv.
  repeat match goal with H : or_db_error _ _ = _ |- _ => apply or_db_error_ok in H as [? ->] end.
  match goal with H : insert_agreement ?a _ = (Ok ?x, _) |- _ => destruct x; exists a end.
  eexists. split_and!; [done|reflexivity|done..|]. split; [by destruct (or_default (field "shared_device_ids" body) _)|].
  split; [done|]. destruct (or_default (field "shared_subnets" body) _) as [| | | | |[]|]; by eexists _, _.
Qed.

Lemma signed_payload_token me a exp : well_scoped a → signed_payload (token_of me (payload_of a exp)) = payload_of a exp.
Proof.
  intros (Hd & _ & x & l & Hs & _). unfold signed_payload, token_of, payload_of. cbn. rewrite Hs. unfold array_or_empty. by rewrite Hd.
Qed.

(** What [peer] has issued. *)
Definition issued (peer : identity) (p : payload) : Prop :=
  ∃ body actor rnd now w w', create peer body actor rnd now w = (Ok (token_of peer p), w').

Lemma issued_spec peer p : issued peer p →
  ∃ a exp, p = payload_of a exp ∧ well_scoped a ∧ Agreement.peer_public_key a = public_key peer.
Proof.
  intros (body & actor & rnd & now & w & w' & (a & exp & _ & E & _ & Hk & _ & _ & _ & Hs)%request_ok).
  exists a, exp. split; [|done]. unfold token_of in E. destruct p. cbn in E. injection E. intros. subst. done.
Qed.

(** What is stored of an accepted token whose signed payload is that of [a]. *)
Record as_issued (a : Agreement.t) (exp token : jsval) (b : Agreement.t) : Prop := {
  ai_endpoint : Agreement.peer_endpoint b = Agreement.peer_endpoint a;
  ai_key : Agreement.peer_public_key b = Agreement.peer_public_key a;
  ai_scope : Agreement.scope_mode b = Agreement.scope_mode a;
  ai_subnets : Agreement.shared_subnets b = Agreement.shared_subnets a;
  ai_expires : pg_time exp = Some (Agreement.expires_at b);
  ai_devices : Agreement.shared_device_ids b = Agreement.shared_device_ids a ∨
               Agreement.shared_device_ids a = JArr [] ∧ is_array (field "shared_device_ids" token) = false;
}.

Section Stored.
(** The driver sends a text as it is. *)
Hypothesis Htext : ∀ s, pg_text (JStr s) = Some s.

Lemma proposed_as_issued token a exp b :
  well_scoped a → signed_payload token = payload_of a exp → proposed token b →
  Agreement.id b = Agreement.id a ∧ as_issued a exp token b.
Proof.
  intros (_ & _ & x & l & Hs & _) E (Hid & He & Hk & Hsc & Hx & Hd & Hn & _).
  unfold signed_payload, payload_of in E. injection E as _ Ei Ee Ek Esc Ed En Ex. rewrite Ei, Htext in Hid. rewrite Ee, Htext in He. rewrite Ek, Htext in Hk.
  rewrite Esc in Hsc. unfold or_default in Hsc. cbn in Hsc. rewrite Htext in Hsc. rewrite Ex in Hx.
  split; [congruence|]. split; try congruence.
  - rewrite Hn, Hs. rewrite Hs in En. unfold array_or_empty in En. destruct (field "shared_subnets" token); done.
  - rewrite Hd. unfold array_or_empty in Ed. destruct (field "shared_device_ids" token); cbn in *; auto.
Qed.

(** [peer] is a mesh whose key the operator knows. *)
Section Pinned.
Context (peer : identity) (signed : payload → Prop).
(** The payloads it signed are those of requests it issued, which list devices and
    the expiry as texts; only their texts verify under its key, and no other key
    has its fingerprint. *)
Hypothesis Hsigned : ∀ p, signed p → issued peer p ∧ plain_payload p.
Hypothesis Hunforgeable : ∀ m sig, ed_verify (public_key peer) m sig = true → ∃ p, signed p ∧ m = canonical p.
Hypothesis Hfingerprint : ∀ k, fingerprint k = fingerprint (JStr (public_key peer)) → js_String k = public_key peer.

Lemma verified_is_issued token :
  verify token = true → fingerprint (field "initiator_public_key" token) = fingerprint (JStr (public_key peer)) →
  signed (signed_payload token).
Proof.
  unfold verify. intros Hv Hf. destruct (_ || _); [done|]. rewrite (Hfingerprint _ Hf) in Hv.
  destruct (Hunforgeable _ _ Hv) as (p & Hp & E). apply signed_text_determines in E; [by rewrite E|by apply Hsigned].
Qed.

End Pinned.

(** *** A request and its acceptance *)

(** A key pair whose signatures verify, and digests of lower-case hexadecimal. *)
Definition working (me : identity) : Prop :=
  public_key me ≠ "" ∧ ∀ m, sign me m ≠ "" ∧ ed_verify (public_key me) m (sign me m) = true.

Definition is_lower_hex (c : ascii) : bool := is_digit c || ((97 <=? code c) && (code c <=? 102)).
Hypothesis Hdigest : ∀ s, String.length (sha256 s) = 64%nat ∧ all_chars is_lower_hex (sha256 s) = true.

Lemma all_chars_take p n s : all_chars p s = true → all_chars p (take_string n s) = true.
Proof.
  revert n. induction s as [|c s IH]; intros [|n]; try done. cbn. intros H. b2p.
  match goal with H : p c = true |- _ => rewrite H end. by apply IH.
Qed.

Lemma all_chars_weaken (p q : ascii → bool) s : (∀ c, p c = true → q c = true) → all_chars p s = true → all_chars q s = true.
Proof. intros Hf. induction s as [|c s IH]; [done|]. cbn. intros H. b2p. rewrite Hf by done. by apply IH. Qed.

Lemma all_chars_groups4 p s : all_chars p s = true → Forall (λ g, all_chars p g = true) (groups4 s).
Proof.
  revert s. fix IH 1. intros [|a [|b [|c [|d r]]]]; try constructor.
  - cbn in *. b2p. by repeat match goal with H : p _ = true |- _ => rewrite H end.
  - apply IH. cbn in *. by b2p.
Qed.

Lemma toUpperCase_idem s : toUpperCase (toUpperCase s) = toUpperCase s.
Proof.
  unfold toUpperCase. induction s as [|c s IH]; [done|]. cbn. f_equal; [|exact IH].
  by destruct c as [[] [] [] [] [] [] [] []].
Qed.

Lemma all_chars_map p q f s : (∀ c, q c = true → p (f c) = true) → all_chars q s = true → all_chars p (map_string f s) = true.
Proof. intros Hf. induction s as [|c s IH]; [done|]. cbn. intros H. b2p. rewrite Hf by done. by apply IH. Qed.

Lemma fingerprint_clean k : toUpperCase (trim (fingerprint k)) = fingerprint k ∧ fingerprint k ≠ "".
Proof.
  unfold fingerprint. set (d := sha256 (js_String k)). destruct (Hdigest (js_String k)) as [Hl Hc]. fold d in Hl, Hc. split.
  - rewrite trim_no_space; [apply toUpperCase_idem|]. unfold no_space, toUpperCase.
    apply all_chars_map with (q := λ c, is_lower_hex c || (c =? "-")%char).
    { intros c. by destruct c as [[] [] [] [] [] [] [] []]. }
    apply all_chars_join; [done|]. apply all_chars_groups4, all_chars_take.
    eapply all_chars_weaken; [|exact Hc]. intros c ->. done.
  - destruct d as [|a [|b [|c [|e d]]]]; try done. cbn [take_string groups4].
    match goal with |- context [join "-" (?x :: ?l)] => destruct (join_head "-" x l) as [r ->] end. done.
Qed.

Lemma create_id me body actor rnd now w tok w' :
  create me body actor rnd now w = (Ok tok, w') → field "peering_id" tok = JStr ("peer-" +:+ rnd).
Proof.
  unfold create. intros H. destruct (field "initiator_endpoint" body); try done. branch_in H; [done|]. cbv zeta in H.
  destruct (List.find _ _); [done|]. run_inv. done.
Qed.

(** The row the accepting side stores for an issued request. *)
Definition accepted_row (a : Agreement.t) (tok : jsval) (op : string) (now : Z) : Agreement.t :=
  a <| Agreement.initiator_user_id := op |> <| Agreement.peer_token := activatedToken tok |> <| Agreement.status := "active" |>
    <| Agreement.imported_nodes := importedNodes (JStr (Agreement.id a)) |> <| Agreement.created_at := now |> <| Agreement.updated_at := now |>.

Lemma accept_run token op expected now b w :
  confirmed token expected → expired getTime token now = false → proposed token b →
  Agreement.initiator_user_id b = op → Agreement.peer_name b = Agreement.peer_endpoint b →
  Agreement.peer_token b = activatedToken token → Agreement.created_at b = now → Agreement.updated_at b = now →
  accept token (Some op) expected now w = (upsert_agreement b ;! eff_ret (activatedToken token)) w.
Proof.
  intros (E1 & E2 & E3 & E4) E5 (H1 & H2 & H3 & H4 & H5 & H6 & H7 & H8 & H9) ?????.
  unfold accept, given in *. rewrite E1, E2, E3. cbv zeta. rewrite E4, E5, H1, H2, H3, H4, H5.
  destruct b. cbn in *. subst. reflexivity.
Qed.

(** A token issued by one mesh is accepted by another that is given its
    fingerprint before it expires, and what is stored there is the request: the
    same endpoint, key, scope, devices, subnets and expiry. *)
Theorem request_accept_roundtrip me body actor rnd now tok w1 w1' op now2 w2 :
  working me → create me body actor rnd now w1 = (Ok tok, w1') →
  existsb (λ u, (User.id u =? op)%string) (Db.users (db w2)) = true →
  existsb (is_agreement ("peer-" +:+ rnd)) (agreements w2) = false →
  expired getTime tok now2 = false →
  ∃ a, agreements w1' = agreements w1 ++ [a] ∧ Agreement.id a = "peer-" +:+ rnd ∧
    accept tok (Some op) (JStr (fingerprint (JStr (public_key me)))) now2 w2 =
    (Ok (activatedToken tok), w2 <| agreements ::= λ l, l ++ [accepted_row a tok op now2] |>).
Proof.
  intros [Hk Hsig] H Hu Hn He. pose proof (create_id _ _ _ _ _ _ _ _ H) as Hid.
  apply request_ok in H as (a & exp & Hins & -> & Hx & Hpk & Hname & _ & _ & Hs). injection Hid as Hid.
  assert (agreements w1' = agreements w1 ++ [a] ∧ row_ok a = true) as [Hw1 Hok].
  { revert Hins. unfold insert_agreement. read_store. destruct (row_ok a); [|done]. by destruct (_ && _); [intros [= <-]|]. }
  exists a. split; [done|]. split; [done|]. destruct (fingerprint_clean (JStr (public_key me))) as [Hf Hfne].
  rewrite (accept_run _ op _ _ (accepted_row a (token_of me (payload_of a exp)) op now2)); try done.
  - unfold upsert_agreement. unfold eff_bind, get. cbv beta iota.
    replace (row_ok _) with true by (by rewrite <- Hok). cbn [negb]. cbv iota.
    replace (existsb _ (agreements w2)) with false by (rewrite <- Hn, <- Hid; reflexivity). cbv iota.
    replace (user_exists _ w2) with true by (rewrite <- Hu; reflexivity). reflexivity.
  - split_and!; [done|..].
    + unfold verify. rewrite signed_payload_token by done. cbn. rewrite Hpk.
      rewrite (proj2 (String.eqb_neq _ _) Hk), (proj2 (String.eqb_neq _ _) (proj1 (Hsig _))). cbn. apply Hsig.
    + unfold truthy. by rewrite (proj2 (String.eqb_neq _ _) Hfne).
    + unfold given. cbn [js_String]. rewrite Hf. cbn. rewrite Hpk. apply String.eqb_refl.
  - destruct Hs as (Hd & _ & x & l & Hsub & _). split_and!; cbn; rewrite ?Htext; try done.
    + by destruct (Agreement.shared_device_ids a).
    + by rewrite Hsub.
Qed.

End Stored.

(** ** Histories *)

Inductive operation :=
  | Issue (me : identity) (body : jsval) (actor : option string) (rnd : string) (now : Z)
  | Accept (token : jsval) (actor : option string) (expected : jsval) (now : Z)
  | Revoke (id : string) (actor : option string) (now : Z).

Definition perform (o : operation) : eff t unit :=
  match o with
  | Issue me body actor rnd now => create me body actor rnd now ;! eff_ret tt
  | Accept token actor expected now => accept token actor expected now ;! eff_ret tt
  | Revoke id actor now => revoke id actor now
  end.

(** A sequence of operations, each answered or failed. *)
Definition run (os : list operation) (w : t) : t := foldl (λ w o, (perform o w).2) w os.

(** An active agreement has the nodes of a token that was accepted with its key
    confirmed and before its expiry. *)
Definition vouched (os : list operation) (a : Agreement.t) : Prop :=
  Agreement.status a = "active" →
  ∃ token actor expected now, Accept token actor expected now ∈ os ∧ confirmed token expected ∧
    expired getTime token now = false ∧ pg_text (field "peering_id" token) = Some (Agreement.id a) ∧
    Agreement.imported_nodes a = importedNodes (field "peering_id" token).

Lemma vouched_mono os os' a : os ⊆ os' → vouched os a → vouched os' a.
Proof. intros Hs H Ha. destruct (H Ha) as (tok & ac & ex & n & Hin & ?). exists tok, ac, ex, n. split; [by apply Hs|done]. Qed.

Lemma create_state me body actor rnd now w o w' : create me body actor rnd now w = (o, w') →
  w' = w ∨ ∃ a, Agreement.status a = "pending" ∧ w' = w <| agreements ::= λ l, l ++ [a] |>.
Proof.
  unfold create. intros H. destruct (field "initiator_endpoint" body); try (injection H as _ <-; by left).
  branch_in H; [injection H as _ <-; by left|]. cbv zeta in H. destruct (List.find _ _); [injection H as _ <-; by left|].
  unfold or_db_error in H. destruct actor; [|injection H as _ <-; by left]. unfold eff_bind at 1, eff_ret at 1 in H.
  match type of H with context [pg_time ?e] => destruct (pg_time e) end; [|injection H as _ <-; by left].
  unfold eff_bind at 1, eff_ret at 1 in H. unfold insert_agreement, eff_bind, get in H.
  match type of H with context [if ?b then _ else _] => destruct b end; injection H as _ <-; [right|by left].
  eexists. by split; [|reflexivity].
Qed.

Lemma revoke_state id actor now w : agreements (revoke id actor now w).2 ⊆ agreements w.
Proof.
  unfold revoke. read_store. destruct (select1 _ _) as [a|]; [|done].
  assert (∀ (d : Db.t), agreements (w <| agreements ::= delete_where (is_agreement id) |> <| db := d |>) ⊆ agreements w) as Hd
    by (intros d x; cbn; rewrite elem_of_delete; tauto).
  unfold eff_bind at 1, modify at 1. cbv beta iota. destruct (imported_ids _) as [[|i l]|].
  - intros x. cbn. rewrite elem_of_delete. tauto.
  - unfold eff_bind, on_db. destruct (Revocation.revokeNodeKeys _ _ _ _ _ _ _) as [[]]; apply Hd.
  - intros x. cbn. rewrite elem_of_delete. tauto.
Qed.

Lemma perform_vouched o os w : Forall (vouched os) (agreements w) → Forall (vouched (os ++ [o])) (agreements (perform o w).2).
Proof.
  intros Hw. assert (Forall (vouched (os ++ [o])) (agreements w)) as Hw'.
  { eapply Forall_impl; [exact Hw|]. intros a. apply vouched_mono. set_solver. }
  destruct o as [me body actor rnd now|token actor expected now|id actor now]; cbn [perform]; unfold eff_bind.
  - destruct (create me body actor rnd now w) as [r w'] eqn:E. apply create_state in E as [->|(a & Ha & ->)]; [by destruct r|].
    assert (Forall (vouched (os ++ [Issue me body actor rnd now])) (agreements w ++ [a])) as H.
    { apply Forall_app. split; [done|]. apply Forall_singleton. intros Hs. congruence. }
    by destruct r.
  - destruct (accept token actor expected now w) as [[r|st m] w'] eqn:E.
    2: { apply accept_throws in E as [-> _]. done. }
    apply accept_ok in E as (Hc & Hx & _ & a & Ha & Hu). cbn.
    assert (vouched (os ++ [Accept token actor expected now]) a ∧
      ∀ b, Agreement.id b = Agreement.id a → Agreement.imported_nodes b = Agreement.imported_nodes a →
        vouched (os ++ [Accept token actor expected now]) b) as [Hva Hvb].
    { assert (∀ b, Agreement.id b = Agreement.id a → Agreement.imported_nodes b = Agreement.imported_nodes a →
        vouched (os ++ [Accept token actor expected now]) b) as Hvb; [|by split; [apply Hvb|]].
      intros b Eid Eim _. exists token, actor, expected, now. rewrite Eid, Eim. split; [set_solver|]. by destruct Ha as (? & _ & _ & _ & _ & _ & _ & ? & _). }
    apply upsert_ok in Hu as [_ [(_ & _ & ->)|(_ & ->)]].
    + apply Forall_app. split; [done|]. by apply Forall_singleton.
    + apply Forall_forall. intros b (x & Hx' & ->)%elem_of_update. destruct (is_agreement (Agreement.id a) x) eqn:Ex.
      * apply Hvb; [unfold is_agreement in Ex; by b2p|done].
      * by apply (proj1 (Forall_forall _ _) Hw').
  - apply Forall_forall. intros a Ha%revoke_state. by apply (proj1 (Forall_forall _ _) Hw').
Qed.

Lemma run_vouched os w : agreements w = [] → Forall (vouched os) (agreements (run os w)).
Proof.
  intros E. induction os as [|o os IH] using rev_ind; [cbn; by rewrite E|].
  unfold run. rewrite foldl_app. by apply perform_vouched.
Qed.

(** A node of another mesh is shown only for a token that an operator accepted
    with the fingerprint of its key, and before it expired; no history of requests,
    acceptances and revocations shows one otherwise. *)
Theorem federation_needs_confirmation os w n :
  agreements w = [] → n ∈ getPeeredNodes (run os w) →
  ∃ token actor expected now, Accept token actor expected now ∈ os ∧ confirmed token expected ∧
    expired getTime token now = false ∧
    n ∈ [peered_node (field "peering_id" token) "1" "Relay" "RELAY" "100.64.200.1";
         peered_node (field "peering_id" token) "2" "Bridge" "EXIT_BRIDGE" "100.64.200.2"].
Proof.
  intros Hw (v & Hn & Hv)%list_elem_of_bind. unfold listPeeringAgreements in Hv.
  apply list_elem_of_fmap in Hv as (a & -> & Ha). apply elem_of_js_sort in Ha.
  cbn in Hn. destruct (String.eqb_spec (Agreement.status a) "active") as [Es|]; [|by apply elem_of_nil in Hn].
  destruct (proj1 (Forall_forall _ _) (run_vouched os w Hw) a Ha Es) as (tok & ac & ex & now & Hin & Hc & Hx & _ & Him).
  exists tok, ac, ex, now. split_and!; [done..|]. by rewrite Him in Hn.
Qed.

(** A revocation that returns leaves no agreement under the identifier and every
    other as it was, and a second one finds nothing to revoke. *)
Theorem revoke_effective id actor now w w' :
  revoke id actor now w = (Ok tt, w') →
  agreements w' = delete_where (is_agreement id) (agreements w) ∧ getPeeringAgreementById id w' = None ∧
  revoke id actor now w' = (Throw (Some 404) "Peering agreement not found", w').
Proof.
  intros H. assert (agreements w' = delete_where (is_agreement id) (agreements w)) as E.
  { revert H. unfold revoke. read_store. destruct (select1 _ _) as [a|]; [|done].
    unfold eff_bind at 1, modify at 1. cbv beta iota. destruct (imported_ids _) as [[|i l]|]; [by intros [= <-]| |done].
    unfold eff_bind, on_db. by destruct (Revocation.revokeNodeKeys _ _ _ _ _ _ _) as [[] d]; [intros [= <-]|]. }
  assert (select1 (is_agreement id) (agreements w') = None) as En.
  { apply select1_none. rewrite E. by intros x [_ Hx]%elem_of_delete. }
  split; [done|]. unfold getPeeringAgreementById, revoke, eff_bind, get. rewrite En. done.
Qed.

End Engine.
End FederationFacts.

(** * Samples *)

Module FederationSamples.
Import Federation FederationFacts.

Definition KEY : string := "MCowBQYDK2VwAyEAkey".
Definition hex64 (c : ascii) : string := String.concat "" (replicate 64 (str1 c)).
(** A digest without a second preimage of the key. *)
Definition digest (s : string) : string := if (s =? KEY)%string then hex64 "a" else hex64 "b".
Definition as_text (v : jsval) : option string := match v with JStr s => Some s | _ => None end.
(** Dates are written as their milliseconds. *)
Definition time_of (v : jsval) : option Z := match v with JStr s => parseInt s | _ => None end.

Definition me : identity := mk_identity KEY (λ m, "sig:" +:+ m).
Definition verify_any (k m sig : string) : bool := (sig =? "sig:" +:+ m)%string.

Definition tables : Db.t := Db.empty <| Db.users := [User.mk "root" "root" "super-admin" "active" None] |>.
Definition empty : t := Federation.mk tables [].

Definition body : jsval :=
  JObj [("initiator_endpoint", JStr "https://a.example"); ("shared_subnets", JArr [JStr "10.0.0.0/8"]); ("expires_at", JStr "5000")].

Definition made : outcome jsval * t := Eval vm_compute in createPeeringRequest time_of pretty me body (Some "root") "x1y2z3" 0 empty.
Definition tok : jsval := Eval vm_compute in match made.1 with Ok v => v | _ => JUndef end.
Definition print : jsval := Eval vm_compute in JStr (publicKeyFingerprint digest (JStr KEY)).

Lemma tok_made : createPeeringRequest time_of pretty me body (Some "root") "x1y2z3" 0 empty = (Ok tok, made.2).
Proof. vm_compute. reflexivity. Qed.

Lemma hex64_digest s : String.length (digest s) = 64%nat ∧ all_chars is_lower_hex (digest s) = true.
Proof. unfold digest. by destruct (s =? KEY)%string. Qed.

Lemma me_works : working verify_any me.
Proof. split; [done|]. intros m. split; [done|]. unfold verify_any. apply String.eqb_refl. Qed.

Lemma request_accept_roundtrip_witness : ∃ a,
  agreements made.2 = [a] ∧
  acceptPeeringAgreement digest verify_any time_of as_text time_of tok (Some "root") print 4000 empty =
  (Ok (activatedToken tok), empty <| agreements ::= λ l, l ++ [accepted_row a tok "root" 4000] |>).
Proof.
  destruct (request_accept_roundtrip digest verify_any time_of as_text time_of pretty (λ s, eq_refl) hex64_digest me body (Some "root")
    "x1y2z3" 0 tok empty made.2 "root" 4000 empty me_works tok_made eq_refl eq_refl eq_refl) as (a & E & _ & H).
  exists a. split; [exact E|exact H].
Defined.

(** Under the key of the sample only the sample's request verifies. *)
Definition p0 : payload := Eval vm_compute in signed_payload tok.
Definition text0 : string := Eval vm_compute in canonical p0.
Definition sig0 : string := Eval vm_compute in sign me text0.
Definition verify_one (k m sig : string) : bool := (k =? KEY)%string && (m =? text0)%string && (sig =? sig0)%string.

Lemma p0_issued p : p = p0 → issued time_of pretty me p ∧ plain_payload p.
Proof.
  intros ->. split.
  - exists body, (Some "root"), "x1y2z3", 0, empty, made.2. vm_compute. reflexivity.
  - intros k Hk. unfold SIGNED_KEYS in Hk.
    repeat (apply elem_of_cons in Hk as [->|Hk];
      [first [apply plain_string|apply (plain_strings []) | apply (plain_strings ["10.0.0.0/8"])]|]). by apply elem_of_nil in Hk.
Qed.

Lemma one_unforgeable m sig : verify_one (public_key me) m sig = true → ∃ p, p = p0 ∧ m = canonical p.
Proof. unfold verify_one. intros H. b2p. exists p0. split; [done|]. by subst. Qed.

Lemma key_pinned k : publicKeyFingerprint digest k = publicKeyFingerprint digest (JStr (public_key me)) → js_String k = public_key me.
Proof.
  unfold publicKeyFingerprint, digest. cbn [js_String public_key me]. rewrite String.eqb_refl.
  destruct (String.eqb_spec (js_String k) KEY); [done|]. intros E. vm_compute in E. discriminate.
Qed.


Lemma signed_text_determines_witness : signed_payload tok = p0.
Proof. refine (signed_text_determines (signed_payload tok) p0 (proj2 (p0_issued p0 eq_refl)) _). vm_compute. reflexivity. Defined.

Definition shown : t := Eval vm_compute in
  run digest verify_any time_of as_text time_of pretty 24 [Accept tok (Some "root") print 4000] empty.

Lemma federation_needs_confirmation_witness :
  ∃ n token expected, n ∈ getPeeredNodes shown ∧ confirmed digest verify_any token expected.
Proof.
  destruct (getPeeredNodes shown) as [|n l] eqn:E; [vm_compute in E; discriminate|].
  destruct (federation_needs_confirmation digest verify_any time_of as_text time_of pretty 24 [Accept tok (Some "root") print 4000] empty n)
    as (token & _ & expected & _ & _ & H & _).
  - reflexivity.
  - change (n ∈ getPeeredNodes shown). rewrite E. left.
  - exists n, token, expected. split; [left|exact H].
Defined.

Lemma revoke_effective_witness : getPeeringAgreementById "peer-x1y2z3" (revokePeeringAgreement 24 "peer-x1y2z3" (Some "root") 4500 shown).2 = None.
Proof.
  refine (proj1 (proj2 (revoke_effective 24 "peer-x1y2z3" (Some "root") 4500 shown _ _))). vm_compute. reflexivity.
Defined.

(** ** What the code lets happen *)

(** A list of devices that is no array is not covered by the signature: a token
    altered on its way verifies, and what it says is stored. *)
Lemma devices_unsigned :
  let altered := spread tok [("shared_device_ids", JStr "all")] in
  let w := (acceptPeeringAgreement digest verify_one time_of as_text time_of altered (Some "root") print 4000 empty).2 in
  verifyPeeringTokenSignature verify_one altered = true ∧ Agreement.shared_device_ids <$> agreements w = [JStr "all"].
Proof. vm_compute. done. Qed.

(** A token of another mesh under the identifier of a request of this one
    activates the request, which keeps this mesh's key and endpoint. *)
Lemma foreign_token_activates_request :
  let other := mk_identity "OTHER" (λ m, "sig:" +:+ m) in
  let forged := token_of other (mk_payload (JStr "1.0") (JStr "peer-x1y2z3") (JStr "https://b.example") (JStr "OTHER") (JStr "ALL")
                                 (JArr []) (JArr [JStr "0.0.0.0/0"]) (JStr "5000")) in
  let w := (acceptPeeringAgreement digest verify_any time_of as_text time_of forged (Some "root")
              (JStr (publicKeyFingerprint digest (JStr "OTHER"))) 4000 made.2).2 in
  (λ a, (Agreement.status a, Agreement.peer_public_key a, Agreement.peer_endpoint a)) <$> agreements w = [("active", KEY, "https://a.example")].
Proof. vm_compute. done. Qed.

(** What follows the digits of an octet or a mask is not looked at. *)
Lemma loose_cidr_accepted : isValidCidr (JStr "10x.0.0.0 /8y") = true.
Proof. vm_compute. reflexivity. Qed.

(** The nodes of an agreement are not rows of the mesh, so its revocation revokes
    no key and advances no epoch. *)
Lemma revocation_withdraws_nothing : db (revokePeeringAgreement 24 "peer-x1y2z3" (Some "root") 4500 shown).2 = db shown.
Proof. vm_compute. reflexivity. Qed.

End FederationSamples.
