(* ===== verification/Duress.v ===== *)
(** * Duress passwords and the sign-in

    [services/DuressService.js], the sign-in handler of [routes/auth.js] and the vault
    handlers of [routes/compartments.js].

    [bcrypt.compare] is a parameter, [None] where it throws.  An outage of the
    database during the revocation of keys is the parameter [outage]: the state it
    leaves.  Cookies and audit events are left out; an access token on the
    revocation list has no owner in the model, so the list is kept when an account
    goes. *)

From S2P Require Import Prelude Order Js Db Encoding Vip Acl Revocation Sessions Vault Mfa Compartments Governance Orgs.

Module Duress.
Import Sessions Governance.

Definition on_accounts {A} (m : eff Console.t A) : eff Gov.t A :=
  λ g, let '(o, c) := m (Gov.console g) in (o, g <| Gov.console := c |>).
Definition on_world {A} (m : eff Mfa.world A) : eff Gov.t A :=
  λ g, let '(o, w) := m (Mfa.mk_world (Gov.console g) (Gov.vault g)) in
       (o, g <| Gov.console := Mfa.console w |> <| Gov.vault := Mfa.vault w |>).

Definition COMPARTMENT_DELETE_ROLES : list string := ["owner"; "admin"].

Definition orgOf (u : Account.t) : string := or_else (Account.organization_id u) "org-default".

Definition isEnabledFor (m : Modules.t) (d : Db.t) (u : Account.t) : bool :=
  Modules.isModuleEnabledForOrg (orgOf u) "deniability" m d.

Definition orgRoleOf (u : Account.t) (c : Console.t) : string :=
  match select1 (λ m, (Membership.user_id m =? Account.id u)%string && (Membership.organization_id m =? orgOf u)%string)
          (Console.memberships c) with
  | Some m => Membership.role m
  | None => if (Account.role u =? "super-admin")%string then "owner" else "member"
  end.

(** DELETE FROM users, with what the foreign keys take along. *)
Definition delete_console_account (id : string) (c : Console.t) : Console.t :=
  c <| Console.users ::= delete_where (λ u, (Account.id u =? id)%string) |>
    <| Console.families ::= delete_where (λ f, (Family.user_id f =? id)%string) |>
    <| Console.refresh_tokens ::= delete_where (λ r, (Refresh.user_id r =? id)%string) |>
    <| Console.challenges ::= delete_where (λ r, (Challenge.user_id r =? id)%string) |>
    <| Console.memberships ::= delete_where (λ m, (Membership.user_id m =? id)%string) |>.

Definition delete_owned_rows (id : string) (d : Db.t) : Db.t :=
  delete_nodes (λ n, (Node.user_id n =? id)%string) d
    <| Db.preauth_keys ::= delete_where (λ k, (PreAuthKey.owner_id k =? id)%string) |>
    <| Db.users ::= delete_where (λ u, (User.id u =? id)%string) |>
    <| Db.memberships ::= delete_where (λ m, (Membership.user_id m =? id)%string) |>.

Definition delete_account (id : string) (g : Gov.t) : Gov.t :=
  g <| Gov.console ::= delete_console_account id |> <| Gov.db ::= delete_owned_rows id |>.

(** [err] is caught and logged. *)
Definition attempt {A} (m : eff Gov.t A) : eff Gov.t (option A) :=
  λ g, match m g with (Ok a, g') => (Ok (Some a), g') | (Throw _ _, g') => (Ok None, g') end.

Section Service.
Context (RETENTION_HOURS : Z) (outage : Db.t → option Db.t).

(** The revocation, or what the outage leaves of it. *)
Definition or_outage {A} (m : eff Db.t A) : eff Db.t A :=
  λ d, match outage d with Some d' => (Throw None "database error", d') | None => m d end.

Definition lock_account (unusable : string) (u : Account.t) : Account.t :=
  u <| Account.status := "revoked" |> <| Account.password_hash := Some unusable |> <| Account.password_hash_root := None |>
    <| Account.password_hash_stealth_wipe := None |> <| Account.password_hash_nuclear_wipe := None |>.

Definition bump_netmap : eff Gov.t unit := on_db (Acl.bumpNetmap ;! eff_ret tt).

(** The account is locked where its keys cannot be revoked. *)
Definition lock_own (u : Account.t) (unusable : string) (now : Z) : eff Gov.t unit :=
  on_accounts (update_user (Account.id u) (lock_account unusable)) ;!
  on_accounts (modify (λ c, c <| Console.refresh_tokens ::= update_where (λ r, (Refresh.user_id r =? Account.id u)%string)
    (λ r, r <| Refresh.revoked := true |> <| Refresh.revoked_at := Some now |>) |>)).

(** Whether the account was deleted, and the keys revoked. *)
Definition wipeOwnAccount (u : Account.t) (unusable : string) (now : Z) : eff Gov.t (bool * list string) :=
  revokedKeys <-! attempt (on_db (or_outage
    (Revocation.revokeUserNodes RETENTION_HOURS (Account.id u) "duress_wipe" (Some (Account.id u)) now))) ;
  match revokedKeys with
  | None =>
      lock_own u unusable now ;!
      bump_netmap ;!
      eff_ret (false, [])
  | Some keys =>
      modify (delete_account (Account.id u)) ;!
      bump_netmap ;!
      eff_ret (true, keys)
  end.

Definition is_ghost (orgId : string) (c : Compartment.t) : bool :=
  (Compartment.organization_id c =? orgId)%string && Compartment.is_hidden c.

(** The devices inside the hidden compartments. *)
Definition in_ghost (orgId : string) (d : Db.t) (n : Node.t) : bool :=
  existsb (λ c, is_ghost orgId c && opt_is (Node.compartment_id n) (Compartment.id c)) (Db.compartments d).

(** The compartments and the devices destroyed. *)
Definition wipeHiddenCompartments (u : Account.t) (now : Z) : eff Gov.t (Z * Z) :=
  let orgId := orgOf u in
  g <-! get ;
  if negb (bool_decide (orgRoleOf u (Gov.console g) ∈ COMPARTMENT_DELETE_ROLES)) then eff_ret (0, 0) else
  let nodeIds := Node.id <$> where_ (in_ghost orgId (Gov.db g)) (Db.nodes (Gov.db g)) in
  on_db (or_outage (Revocation.revokeNodeKeys RETENTION_HOURS nodeIds "duress_wipe" (Some (Account.id u)) false now)) ;!
  modify (λ g, g <| Gov.db ::= delete_nodes (λ n, bool_decide (Node.id n ∈ nodeIds)) |>) ;!
  modify (λ g, g <| Gov.db ::= delete_compartments (is_ghost orgId) |>) ;!
  bump_netmap ;!
  eff_ret (Z.of_nat (length (where_ (is_ghost orgId) (Db.compartments (Gov.db g)))), Z.of_nat (length nodeIds)).

(** ** The handlers *)

Context (compare : string → string → option bool) (modules : Modules.t).

Inductive answer := Refused (status : Z) (error : string) | Signed (s : Mfa.signed_in) | Unlocked (root : bool) (s : session).

(** [user.column && await bcrypt.compare(password, user.column)] *)
Definition matches (password : string) (c : Mfa.passwordColumn) (u : Account.t) : option bool :=
  match Mfa.column c u with
  | Some h => if (h =? "")%string then Some false else compare password h
  | None => Some false
  end.

(** The columns in the order they are tried; a throw is no match. *)
Fixpoint first_match (password : string) (u : Account.t) (l : list (Mfa.passwordColumn * string)) : option (Mfa.passwordColumn * string) :=
  match l with
  | [] => None
  | (c, tier) :: rest =>
      match matches password c u with
      | Some true => Some (c, tier)
      | Some false => first_match password u rest
      | None => None
      end
  end.

Definition columns : list (Mfa.passwordColumn * string) :=
  [(Mfa.password_hash, "standard"); (Mfa.password_hash_root, "root");
   (Mfa.password_hash_stealth_wipe, "stealth_wipe"); (Mfa.password_hash_nuclear_wipe, "nuclear_wipe")].

Definition is_duress (tier : string) : bool := (tier =? "stealth_wipe")%string || (tier =? "nuclear_wipe")%string.

Definition wrong_password : answer := Refused 401 "Invalid username or password".

Context {J : Jwt} {G : Gcm} (sha256 : string → string) (cfg : settings).
Context (hkdf : string → list Z) (sha256_raw : list Z → list Z) (vcfg : Vault.config).
Context (hmac_sha1 : list Z → list Z → list Z) (mfa_env : option string) (is_production : bool).

(** What a sign-in draws: for the vault, for the challenge and for the session. *)
Record draws := mk_draws { d_vault : Vault.randoms; d_other : Vault.t → Vault.t; d_challenge : string; d_fresh : fresh }.

Definition signIn (u : Account.t) (c : Mfa.passwordColumn) (tier : string) (otp : option string) (dr : draws) (now : Z)
    : eff Gov.t answer :=
  s <-! on_world (Mfa.signIn sha256 cfg hkdf sha256_raw vcfg hmac_sha1 mfa_env is_production u c tier otp
          (d_vault dr) (d_other dr) (d_challenge dr) (d_fresh dr) now) ;
  eff_ret (Signed s).

Definition login (username password : string) (otp : option string) (unusable : string) (dr : draws) (now : Z) : eff Gov.t answer :=
  if (username =? "")%string || (password =? "")%string then eff_ret (Refused 400 "Missing username or password") else
  g <-! get ;
  match select1 (λ u, (Account.username u =? username)%string) (Console.users (Gov.console g)) with
  | None => eff_ret wrong_password
  | Some user =>
      match first_match password user columns with
      | None => eff_ret wrong_password
      | Some (passwordColumn, accessTier) =>
          if (Account.status user =? "suspended")%string || (Account.status user =? "revoked")%string
          then eff_ret (Refused 403 "Account is suspended or revoked") else
          if is_duress accessTier && negb (isEnabledFor modules (Gov.db g) user) then eff_ret wrong_password else
          if (accessTier =? "stealth_wipe")%string then
            attempt (wipeHiddenCompartments user now) ;!
            signIn user passwordColumn "standard" otp dr now
          else if (accessTier =? "nuclear_wipe")%string then
            attempt (wipeOwnAccount user unusable now) ;!
            eff_ret wrong_password
          else
            signIn user passwordColumn accessTier otp dr now
      end
  end.

(** *** The vault of a session *)

Definition is_true (o : option bool) : eff Gov.t bool :=
  match o with Some b => eff_ret b | None => throw None "Error" end.

(** The root password opens the root tier of the session. *)
Definition unlock_root (a : authority) (user : Account.t) (password : string) (fr : fresh) (now : Z) : eff Gov.t answer :=
  isMatch <-! is_true (matches password Mfa.password_hash_root user) ;
  if negb isMatch then eff_ret (Refused 401 "Invalid vault password") else
  s <-! on_accounts (changeRootGrant sha256 cfg (Account.id user) (sessionId a) true (Account.password_hash_root user)
          (Some (organizationIdAtIssue a)) fr now) ;
  eff_ret (Unlocked true s).

Definition unlock (a : authority) (userId password : string) (fr : fresh) (now : Z) : eff Gov.t answer :=
  if (password =? "")%string then eff_ret (Refused 400 "Password is required") else
  g <-! get ;
  match select1 (λ u, (Account.id u =? userId)%string) (Console.users (Gov.console g)) with
  | None => eff_ret (Refused 404 "User not found")
  | Some user =>
      stealth <-! is_true (matches password Mfa.password_hash_stealth_wipe user) ;
      if stealth && isEnabledFor modules (Gov.db g) user then
        attempt (wipeHiddenCompartments user now) ;!
        eff_ret (Refused 401 "Invalid vault password")
      else
        unlock_root a user password fr now
  end.

Definition lock (a : authority) (userId : string) (fr : fresh) (now : Z) : eff Gov.t answer :=
  s <-! on_accounts (changeRootGrant sha256 cfg userId (sessionId a) false None None fr now) ;
  eff_ret (Unlocked false s).

End Service.
End Duress.

(** ** What a duress password does *)

Module DuressFacts.
Import Sessions Governance Duress.

(** Everything but the credentials, the revoked keys and the epochs. *)
Definition fleet_of (d : Db.t) : Db.t :=
  d <| Db.revoked_keys := [] |> <| Db.node_credentials := [] |> <| Db.mesh_epochs := ∅ |>.

Lemma fleet_tables d d' :
  fleet_of d' = fleet_of d →
  Db.nodes d' = Db.nodes d ∧ Db.compartments d' = Db.compartments d ∧ Db.compartment_peerings d' = Db.compartment_peerings d ∧
  Db.preauth_keys d' = Db.preauth_keys d ∧ Db.users d' = Db.users d ∧ Db.memberships d' = Db.memberships d.
Proof. intros [=]. done. Qed.

Lemma bump_fleet name d : fleet_of (Acl.bump name d) = fleet_of d.
Proof. done. Qed.

Lemma revoke_fleet RET ids reason actor in_tx now d o d' :
  Revocation.revokeNodeKeys RET ids reason actor in_tx now d = (o, d') → fleet_of d' = fleet_of d.
Proof.
  rewrite revokeNodeKeys_body. cbv zeta. destruct (where_ _ ids) as [|i l]; [by intros [= _ <-]|].
  unfold revoke_body. unfold eff_bind at 1, get. unfold eff_bind.
  destruct (RevocationFacts.revoke_credentials_run (i :: l) now d) as (lc & -> & _).
  destruct (Revocation.revoke_rows_loop _ _ _ _ _ _) as [o1 d1] eqn:E.
  apply RevocationFacts.revoke_rows_loop_run in E as (lr & -> & _).
  destruct o1 as [[|k ks]|]; intros [= _ <-]; by rewrite ?bump_fleet.
Qed.

Lemma bump_netmap_run g : bump_netmap g = (Ok tt, g <| Gov.db := (Acl.bumpNetmap (Gov.db g)).2 |>).
Proof. unfold bump_netmap, on_db, eff_bind, Acl.bumpNetmap. by rewrite AclFacts.bumpEpoch_run. Qed.

Section Facts.
Context (RET : Z) (outage : Db.t → option Db.t).
(** An outage interrupts the statements of the revocation, and those only. *)
Context (outage_fleet : ∀ d d', outage d = Some d' → fleet_of d' = fleet_of d).

Lemma or_outage_fleet {A} (m : eff Db.t A) d o d' :
  (∀ o d', m d = (o, d') → fleet_of d' = fleet_of d) → or_outage outage m d = (o, d') → fleet_of d' = fleet_of d.
Proof. unfold or_outage. destruct (outage d) eqn:E; [intros _ [= _ <-]; by apply outage_fleet|]. eauto. Qed.

(** *** The nuclear password *)

Definition revoke_own (u : Account.t) (now : Z) : eff Db.t (list string) :=
  or_outage outage (Revocation.revokeUserNodes RET (Account.id u) "duress_wipe" (Some (Account.id u)) now).

Lemma revoke_own_fleet u now d o d' : revoke_own u now d = (o, d') → fleet_of d' = fleet_of d.
Proof.
  apply or_outage_fleet. intros o1 d1. unfold Revocation.revokeUserNodes. unfold eff_bind, get. apply revoke_fleet.
Qed.

(** The two ways a nuclear wipe ends. *)
Lemma wipeOwn_run u unusable now g :
  wipeOwnAccount RET outage u unusable now g =
  match revoke_own u now (Gov.db g) with
  | (Ok keys, d1) => (Ok (true, keys), (bump_netmap (delete_account (Account.id u) (g <| Gov.db := d1 |>))).2)
  | (Throw _ _, d1) => (lock_own u unusable now ;! bump_netmap ;! eff_ret (false, [])) (g <| Gov.db := d1 |>)
  end.
Proof.
  unfold wipeOwnAccount. unfold eff_bind at 1. unfold attempt, on_db at 1. fold (revoke_own u now).
  destruct (revoke_own u now (Gov.db g)) as [[keys|st m] d1]; [|done].
  unfold eff_bind at 1, modify. unfold eff_bind. by rewrite bump_netmap_run.
Qed.

Lemma delete_owned_fleet id d d1 :
  fleet_of d1 = fleet_of d → fleet_of (delete_owned_rows id d1) = fleet_of (delete_owned_rows id d).
Proof.
  intros E. assert (∀ x, fleet_of (delete_owned_rows id x) = fleet_of (delete_owned_rows id (fleet_of x))) as H by done.
  by rewrite (H d1), E, <- H.
Qed.

Lemma on_accounts_db {A} (m : eff Console.t A) g o g' : on_accounts m g = (o, g') → Gov.db g' = Gov.db g.
Proof. unfold on_accounts. destruct (m (Gov.console g)). by intros [= _ <-]. Qed.

Lemma on_world_db {A} (m : eff Mfa.world A) g o g' : on_world m g = (o, g') → Gov.db g' = Gov.db g.
Proof. unfold on_world. destruct (m _). by intros [= _ <-]. Qed.

Lemma bind_keeps {S A B C} (f : S → C) (m : eff S A) (k : A → eff S B) s o s' :
  (∀ o s1, m s = (o, s1) → f s1 = f s) → (∀ a s1 o s2, k a s1 = (o, s2) → f s2 = f s1) →
  eff_bind m k s = (o, s') → f s' = f s.
Proof.
  unfold eff_bind. intros Hm Hk. destruct (m s) as [[a|st e] s1] eqn:E.
  - intros H. rewrite (Hk _ _ _ _ H). by eapply Hm.
  - intros [= _ <-]. by eapply Hm.
Qed.

Lemma lock_own_db u unusable now g o g' : lock_own u unusable now g = (o, g') → Gov.db g' = Gov.db g.
Proof. unfold lock_own. apply bind_keeps; intros; by eapply on_accounts_db. Qed.

(** What is left of the fleet after a nuclear password. *)
Lemma wipeOwn_fleet u unusable now g o g' :
  wipeOwnAccount RET outage u unusable now g = (o, g') →
  fleet_of (Gov.db g') = fleet_of (Gov.db g) ∨
  (fleet_of (Gov.db g') = fleet_of (delete_owned_rows (Account.id u) (Gov.db g)) ∧
   Gov.console g' = delete_console_account (Account.id u) (Gov.console g)).
Proof.
  rewrite wipeOwn_run. destruct (revoke_own u now (Gov.db g)) as [o1 d1] eqn:E. pose proof (revoke_own_fleet _ _ _ _ _ E) as Hf.
  destruct o1 as [keys|]; [rewrite bump_netmap_run; intros [= _ <-]; right|intros H; left].
  - split; [|done]. by apply delete_owned_fleet.
  - rewrite <- Hf. eapply (bind_keeps (λ g, fleet_of (Gov.db g))) in H; [exact H| |].
    + intros ? ? H1. by rewrite (lock_own_db _ _ _ _ _ _ H1).
    + intros a s1 o2 s2. unfold eff_bind. rewrite bump_netmap_run. by intros [= _ <-].
Qed.

(** *** The stealth password *)

Definition wiped (org : string) (d : Db.t) : Db.t :=
  delete_compartments (is_ghost org)
    (delete_nodes (λ n, bool_decide (Node.id n ∈ Node.id <$> where_ (in_ghost org d) (Db.nodes d))) d).

Lemma wiped_fleet org d d1 : fleet_of d1 = fleet_of d → fleet_of (wiped org d1) = fleet_of (wiped org d).
Proof.
  intros E. assert (∀ x, fleet_of (wiped org x) = fleet_of (wiped org (fleet_of x))) as H by done.
  by rewrite (H d1), E, <- H.
Qed.

Lemma wipeHidden_fleet u now g o g' :
  wipeHiddenCompartments RET outage u now g = (o, g') →
  Gov.console g' = Gov.console g ∧
  (fleet_of (Gov.db g') = fleet_of (Gov.db g) ∨
   (orgRoleOf u (Gov.console g) ∈ COMPARTMENT_DELETE_ROLES ∧ fleet_of (Gov.db g') = fleet_of (wiped (orgOf u) (Gov.db g)))).
Proof.
  unfold wipeHiddenCompartments. unfold eff_bind at 1, get. case_bool_decide as Hr; [|intros [= _ <-]; auto].
  unfold eff_bind at 1. unfold on_db at 1. set (ids := Node.id <$> _). cbn [negb].
  destruct (or_outage outage _ (Gov.db g)) as [o1 d1] eqn:E.
  assert (fleet_of d1 = fleet_of (Gov.db g)) as Hf.
  { eapply or_outage_fleet; [|exact E]. intros ? ?. apply revoke_fleet. }
  destruct o1; [|intros [= _ <-]; auto].
  unfold eff_bind at 1, modify at 1. unfold eff_bind at 1, modify. unfold eff_bind. rewrite bump_netmap_run. intros [= _ <-].
  split; [done|]. right. split; [done|]. rewrite <- (wiped_fleet _ _ _ Hf). unfold ids.
  destruct (fleet_tables _ _ Hf) as (E1 & E2 & _). unfold wiped. 
  assert (where_ (in_ghost (orgOf u) d1) (Db.nodes d1) = where_ (in_ghost (orgOf u) (Gov.db g)) (Db.nodes (Gov.db g))) as ->; [|done].
  rewrite E1. unfold in_ghost. by rewrite E2.
Qed.

(** What a wipe takes is of the organisation. *)
Lemma in_ghost_spec org d n :
  in_ghost org d n = true ↔ ∃ c, c ∈ Db.compartments d ∧ is_ghost org c = true ∧ Node.compartment_id n = Some (Compartment.id c).
Proof.
  unfold in_ghost. rewrite existsb_exists. split; intros (c & Hc & H); exists c.
  - rewrite list_elem_of_In. b2p. split_and!; [done..|]. unfold opt_is in *. destruct (Node.compartment_id n); [|done]. by b2p; subst.
  - rewrite <- list_elem_of_In. destruct H as [-> ->]. simpl. by rewrite String.eqb_refl.
Qed.

Lemma ghost_owned org d c : c ∈ Db.compartments d → is_ghost org c = true → CompartmentFacts.owned d org (Compartment.id c) = true.
Proof. intros Hc Hg. unfold is_ghost in Hg. b2p. apply CompartmentFacts.owned_spec. eauto. Qed.

Lemma in_ghost_org org d n :
  CompartmentFacts.wf d → n ∈ Db.nodes d → in_ghost org d n = true → Acl.org_of n = org.
Proof.
  intros Hw Hn (c & Hc & Hg & E)%in_ghost_spec.
  pose proof (proj1 (Forall_forall _ _) (CompartmentFacts.wf_members _ Hw) n Hn) as H. simpl in H. rewrite E in H.
  eauto using CompartmentFacts.owned_fun, ghost_owned.
Qed.

Lemma gone_ghost d org i :
  i ∈ Compartment.id <$> where_ (is_ghost org) (Db.compartments d) → CompartmentFacts.owned d org i = true.
Proof. intros (c & -> & [Hg Hc]%elem_of_where)%list_elem_of_fmap. by apply ghost_owned. Qed.

Lemma wiped_others org d :
  CompartmentFacts.wf d → NoDup (Node.id <$> Db.nodes d) → CompartmentFacts.others org (wiped org d) = CompartmentFacts.others org d.
Proof.
  intros Hw Hn. unfold CompartmentFacts.others, wiped. simpl. f_equal; [f_equal|].
  - apply where_delete_none. intros c _ Hg. unfold is_ghost in Hg. b2p. by apply CompartmentFacts.same_org.
  - apply where_delete_none. intros p Hp Hr.
    destruct (proj1 (Forall_forall _ _) (CompartmentFacts.wf_peerings _ Hw) p Hp) as (H1 & H2 & _). apply CompartmentFacts.same_org.
    b2p. destruct Hr as [Hr|Hr]; b2p; apply gone_ghost in Hr; eauto using CompartmentFacts.owned_fun.
  - rewrite where_update_none.
    + apply where_delete_none. intros n Hin Hd. b2p. apply list_elem_of_fmap in Hd as (m & Ei & [Hg Hm]%elem_of_where).
      assert (n = m) as -> by (by eapply (NoDup_fmap_inj Node.id)). apply CompartmentFacts.same_org. by eapply in_ghost_org.
    + intros n [Hin _]%elem_of_delete Hc. destruct (Node.compartment_id n) as [c|] eqn:E; [|done]. b2p.
      apply list_elem_of_fmap in Hc as (x & -> & [Hg Hx]%elem_of_where).
      assert (Acl.org_of n = org) as Eo by (eapply in_ghost_org; [done..|]; apply in_ghost_spec; eauto).
      split; apply CompartmentFacts.same_org, Eo.
Qed.

Lemma wiped_no_ghost org d c : c ∈ Db.compartments (wiped org d) → is_ghost org c = false.
Proof. intros H. simpl in H. by apply elem_of_delete in H as [_ ?]. Qed.

Lemma wiped_keeps org d n :
  NoDup (Node.id <$> Db.nodes d) → n ∈ Db.nodes d → in_ghost org d n = false → n ∈ Db.nodes (wiped org d).
Proof.
  intros Hd Hn Hg. simpl. apply elem_of_update. exists n. split.
  - apply elem_of_delete. split; [done|]. apply bool_decide_eq_false. intros (m & Ei & [Hm Hin]%elem_of_where)%list_elem_of_fmap.
    assert (n = m) as -> by (by eapply (NoDup_fmap_inj Node.id)). congruence.
  - destruct (Node.compartment_id n) as [c|] eqn:E; [|done]. case_bool_decide as Hc; [|done]. exfalso.
    apply list_elem_of_fmap in Hc as (x & -> & [Hx Hin]%elem_of_where).
    assert (in_ghost org d n = true); [apply in_ghost_spec; eauto|congruence].
Qed.

(** *** The handlers *)

Context (compare : string → string → option bool) (modules : Modules.t).
Context {J : Jwt} {G : Gcm} (sha256 : string → string) (cfg : settings).
Context (hkdf : string → list Z) (sha256_raw : list Z → list Z) (vcfg : Vault.config).
Context (hmac_sha1 : list Z → list Z → list Z) (mfa_env : option string) (is_production : bool).

Abbreviation sign_in_handler := (login RET outage compare modules sha256 cfg hkdf sha256_raw vcfg hmac_sha1 mfa_env is_production).
Abbreviation unlock_handler := (unlock RET outage compare modules sha256 cfg).

Lemma first_match_elem password u l c tier :
  first_match compare password u l = Some (c, tier) → (c, tier) ∈ l ∧ matches compare password c u = Some true.
Proof.
  induction l as [|[c0 t0] l IH]; simpl; [done|]. destruct (matches compare password c0 u) as [[]|] eqn:E; [| |done].
  - intros [= <- <-]. split; [left|done].
  - intros H. apply IH in H as [? ?]. split; [by right|done].
Qed.

Lemma tier_column c tier : (c, tier) ∈ columns →
  (tier = "stealth_wipe" → c = Mfa.password_hash_stealth_wipe) ∧ (tier = "nuclear_wipe" → c = Mfa.password_hash_nuclear_wipe).
Proof.
  unfold columns. intros H. repeat (apply elem_of_cons in H as [[= -> ->]|H]; [by split|]). by apply elem_of_nil in H.
Qed.

Lemma attempt_run {A} (m : eff Gov.t A) g o g' : attempt m g = (o, g') → ∃ o', m g = (o', g') ∧ ∃ a, o = Ok a.
Proof. unfold attempt. destruct (m g) as [[a|st e] g1]; intros [= <- <-]; eauto. Qed.

Lemma signIn_db u c tier otp dr now g o g' :
  signIn sha256 cfg hkdf sha256_raw vcfg hmac_sha1 mfa_env is_production u c tier otp dr now g = (o, g') → Gov.db g' = Gov.db g.
Proof.
  unfold signIn. apply bind_keeps; [intros ? ?; apply on_world_db|]. intros a s1 o2 s2. by intros [= _ <-].
Qed.

(** An account a duress password acts for. *)
Definition under_duress (username : string) (u : Account.t) (g : Gov.t) : Prop :=
  u ∈ Console.users (Gov.console g) ∧ Account.username u = username ∧
  Account.status u ≠ "suspended" ∧ Account.status u ≠ "revoked" ∧ isEnabledFor modules (Gov.db g) u = true.

Lemma login_fleet username password otp unusable dr now g o g' :
  sign_in_handler username password otp unusable dr now g = (o, g') →
  fleet_of (Gov.db g') = fleet_of (Gov.db g) ∨
  ∃ u, under_duress username u g ∧
    ((matches compare password Mfa.password_hash_nuclear_wipe u = Some true ∧ o = Ok wrong_password ∧
      fleet_of (Gov.db g') = fleet_of (delete_owned_rows (Account.id u) (Gov.db g)) ∧
      Gov.console g' = delete_console_account (Account.id u) (Gov.console g)) ∨
     (matches compare password Mfa.password_hash_stealth_wipe u = Some true ∧
      orgRoleOf u (Gov.console g) ∈ COMPARTMENT_DELETE_ROLES ∧
      fleet_of (Gov.db g') = fleet_of (wiped (orgOf u) (Gov.db g)))).
Proof.
  unfold login. destruct (_ || _); [intros [= _ <-]; auto|]. unfold eff_bind at 1, get.
  destruct (select1 _ _) as [u|] eqn:Eu; [|intros [= _ <-]; auto]. apply select1_elem in Eu as [Hn Hu]. b2p.
  destruct (first_match compare password u columns) as [[c tier]|] eqn:Em; [|intros [= _ <-]; auto].
  apply first_match_elem in Em as [Hc Hm]. destruct (tier_column _ _ Hc) as [Hst Hnu].
  intros H. match type of H with (if ?b then _ else _) _ = _ => destruct b eqn:Es end; [injection H as _ <-; auto|].
  match type of H with (if ?b then _ else _) _ = _ => destruct b eqn:Ed end; [injection H as _ <-; auto|].
  apply orb_false_iff in Es as [Es1 Es2]. unfold is_duress in Ed. b2p.
  destruct (String.eqb_spec tier "stealth_wipe") as [Et|_]; [|destruct (String.eqb_spec tier "nuclear_wipe") as [Et|_]].
  - assert (isEnabledFor modules (Gov.db g) u = true) as Hen by (by destruct (isEnabledFor modules (Gov.db g) u); destruct Ed).
    unfold eff_bind in H. destruct (attempt _ g) as [o1 g1] eqn:Ea. apply attempt_run in Ea as (o2 & Ea & a & ->).
    apply signIn_db in H. apply wipeHidden_fleet in Ea as [_ Hw]. rewrite H. destruct Hw as [Hw|[Hr Hw]]; [by left|].
    right. exists u. split; [done|]. right. by rewrite Hst in Hm.
  - assert (isEnabledFor modules (Gov.db g) u = true) as Hen by (by destruct (isEnabledFor modules (Gov.db g) u); subst tier; destruct Ed).
    unfold eff_bind in H. destruct (attempt _ g) as [o1 g1] eqn:Ea. apply attempt_run in Ea as (o2 & Ea & a & ->).
    injection H as <- <-. apply wipeOwn_fleet in Ea as [Hw|[Hw Hc']]; [by left|].
    right. exists u. split; [done|]. left. by rewrite Hnu in Hm.
  - left. by apply signIn_db in H as ->.
Qed.


(** *** The nuclear password takes effect *)

Lemma revoke_loop_ok rows reason actor now d :
  len reason <= 64 → ∃ keys d', Revocation.revoke_rows_loop RET rows reason actor now d = (Ok keys, d').
Proof.
  intros Hr. revert d. induction rows as [|n rows IH]; intros d; simpl; [by eexists _, _|].
  destruct (Vip.normalisePublicKeyHex (Node.public_key n)); [|apply IH].
  assert ((len reason <=? 64) = true) as -> by lia. unfold eff_bind, modify.
  destruct (IH (d <| Db.revoked_keys ::= Revocation.upsert_revocation
    (Revoked.mk s (Some (Node.id n)) reason actor now (now + RET * Credentials.HOUR)) |>)) as (keys & d' & ->). by eexists _, _.
Qed.

Lemma revokeNodeKeys_ok ids reason actor in_tx now d :
  len reason <= 64 → ∃ keys d', Revocation.revokeNodeKeys RET ids reason actor in_tx now d = (Ok keys, d').
Proof.
  intros Hr. rewrite revokeNodeKeys_body. cbv zeta. destruct (where_ _ ids) as [|i l]; [by eexists _, _|].
  unfold revoke_body. unfold eff_bind at 1, get. unfold eff_bind.
  destruct (RevocationFacts.revoke_credentials_run (i :: l) now d) as (lc & -> & _).
  destruct (revoke_loop_ok (where_ (λ n, bool_decide (Node.id n ∈ i :: l)) (Db.nodes d)) reason actor now
    (d <| Db.node_credentials := lc |>) Hr) as ([|k ks] & d' & ->); by eexists _, _.
Qed.

(** The account a sign-in with its nuclear password is for. *)
Record nuclear_login (username password : string) (u : Account.t) (g : Gov.t) : Prop := {
  nl_named : username ≠ "" ∧ password ≠ "";
  nl_found : select1 (λ x, (Account.username x =? username)%string) (Console.users (Gov.console g)) = Some u;
  nl_match : first_match compare password u columns = Some (Mfa.password_hash_nuclear_wipe, "nuclear_wipe");
  nl_active : Account.status u ≠ "suspended" ∧ Account.status u ≠ "revoked";
  nl_enabled : isEnabledFor modules (Gov.db g) u = true;
}.

Lemma nuclear_run username password u otp unusable dr now g :
  nuclear_login username password u g →
  sign_in_handler username password otp unusable dr now g =
  (Ok wrong_password, (wipeOwnAccount RET outage u unusable now g).2).
Proof.
  intros [[Hn Hp] Hu Hm [Hs1 Hs2] He]. unfold login. rewrite <- String.eqb_neq in Hn, Hp, Hs1, Hs2. rewrite Hn, Hp. cbn [orb].
  unfold eff_bind at 1, get. rewrite Hu, Hm, Hs1, Hs2. cbn [orb]. rewrite He. cbn [is_duress String.eqb Ascii.eqb Bool.eqb orb negb andb].
  unfold eff_bind, attempt. by destruct (wipeOwnAccount RET outage u unusable now g) as [[?|] ?].
Qed.

(** Nothing of the account is left to sign in or to connect with. *)
Definition destroyed_account (id : string) (g : Gov.t) : Prop :=
  (∀ x, x ∈ Console.users (Gov.console g) → Account.id x ≠ id) ∧
  (∀ x, x ∈ Console.families (Gov.console g) → Family.user_id x ≠ id) ∧
  (∀ x, x ∈ Console.refresh_tokens (Gov.console g) → Refresh.user_id x ≠ id) ∧
  (∀ x, x ∈ Db.nodes (Gov.db g) → Node.user_id x ≠ id) ∧
  (∀ x, x ∈ Db.preauth_keys (Gov.db g) → PreAuthKey.owner_id x ≠ id).

(** The account exists and cannot be used. *)
Definition locked_account (id unusable : string) (g : Gov.t) : Prop :=
  (∀ x, x ∈ Console.users (Gov.console g) → Account.id x = id →
     Account.status x = "revoked" ∧ ∀ c, Mfa.column c x = None ∨ Mfa.column c x = Some unusable) ∧
  (∀ x, x ∈ Console.refresh_tokens (Gov.console g) → Refresh.user_id x = id → Refresh.revoked x = true).

Lemma kept_neq {A} (f : A → string) id l x : x ∈ delete_where (λ y, (f y =? id)%string) l → f x ≠ id.
Proof. intros [_ H]%elem_of_delete. by b2p. Qed.

Lemma deleted_account id g : destroyed_account id (delete_account id g).
Proof. split_and!; intros x; apply kept_neq. Qed.

Lemma locked_run u unusable now g :
  NoDup (Account.id <$> Console.users (Gov.console g)) → u ∈ Console.users (Gov.console g) → Account.status u ≠ "revoked" →
  ∃ g', lock_own u unusable now g = (Ok tt, g') ∧ locked_account (Account.id u) unusable g'.
Proof.
  intros Hn Hu Hs. unfold lock_own, eff_bind at 1. unfold on_accounts, update_user. unfold eff_bind, get.
  rewrite (select1_unique Account.id _ _ u); [|done..|apply String.eqb_refl|intros y ?; by b2p].
  unfold advance_console_auth_epoch, authentication_changed.
  assert ((Account.status (lock_account unusable u) =? Account.status u)%string = false) as ->.
  { apply String.eqb_neq. change ("revoked" ≠ Account.status u). congruence. }
  rewrite !andb_false_r. cbn [andb negb]. unfold modify. eexists. split; [reflexivity|]. split.
  - cbn. intros x (y & Hy & ->)%elem_of_update Hi.
    destruct (Account.id y =? Account.id u)%string eqn:E; [|b2p; congruence]. split; [done|]. intros []; cbn; auto.
  - cbn. intros x (y & Hy & ->)%elem_of_update Hi. destruct (Refresh.user_id y =? Account.id u)%string eqn:E; [done|]. b2p. congruence.
Qed.

(** The nuclear password of an active account always takes effect, and is always
    answered like a wrong one.  Either nothing of the account is left, and every
    device it had is refused by its key for the whole retention period; or the keys
    could not be revoked, in which case every row of the fleet stays and the account
    is locked: it is revoked, no password opens it and no refresh token is live. *)
Theorem nuclear_password_effective username password u otp unusable dr now g :
  nuclear_login username password u g → NoDup (Account.id <$> Console.users (Gov.console g)) →
  ∃ g', sign_in_handler username password otp unusable dr now g = (Ok wrong_password, g') ∧
  match outage (Gov.db g) with
  | None =>
      destroyed_account (Account.id u) g' ∧
      ∀ n key t, n ∈ Db.nodes (Gov.db g) → Node.user_id n = Account.id u → Node.id n ≠ "" →
        Vip.normalisePublicKeyHex (Node.public_key n) = Some key → t < now + RET * Credentials.HOUR →
        Revocation.isRevoked (Node.public_key n) t (Gov.db g') = true
  | Some _ =>
      fleet_of (Gov.db g') = fleet_of (Gov.db g) ∧ locked_account (Account.id u) unusable g'
  end.
Proof.
  intros Hl Hn. rewrite (nuclear_run _ _ u) by done. eexists. split; [reflexivity|]. rewrite wipeOwn_run.
  unfold revoke_own, or_outage. destruct (outage (Gov.db g)) as [d1|] eqn:Eo.
  - destruct (locked_run u unusable now (g <| Gov.db := d1 |>)) as (g' & E & Hk);
      [done|apply (select1_elem _ _ _ (nl_found _ _ _ _ Hl))|apply Hl|].
    unfold eff_bind. rewrite E, bump_netmap_run. split; [|exact Hk]. cbn. rewrite (lock_own_db _ _ _ _ _ _ E). apply (outage_fleet _ _ Eo).
  - unfold Revocation.revokeUserNodes. unfold eff_bind, get.
    destruct (revokeNodeKeys_ok (Node.id <$> where_ (λ n, (Node.user_id n =? Account.id u)%string) (Db.nodes (Gov.db g)))
      "duress_wipe" (Some (Account.id u)) false now (Gov.db g)) as (keys & d1 & E); [done|]. rewrite E, bump_netmap_run.
    split; [apply (deleted_account (Account.id u))|]. intros n key t Hin Ho Hne Hkey Ht.
    apply revokeNodeKeys_run in E as [[_ _ _ Hr] _].
    destruct (Hr keys n key eq_refl Hin) as [_ Hl1]; [|done..|].
    + apply list_elem_of_fmap_2, elem_of_where. by rewrite Ho, String.eqb_refl.
    + by eapply (on_list_isRevoked _ _ (now + RET * Credentials.HOUR)).
Qed.

(** *** Where the module is off *)

Definition in_regulated (d : Db.t) (u : Account.t) : Prop :=
  ∃ o, o ∈ Db.organizations d ∧ Org.id o = orgOf u ∧ Org.profile o = "regulated".

Lemma regulated_off u m d : in_regulated d u → NoDup (Org.id <$> Db.organizations d) → orgOf u ≠ "" → isEnabledFor m d u = false.
Proof.
  intros (o & Hin & Hi & Hp) Hn Ho. unfold isEnabledFor, Modules.isModuleEnabledForOrg. destruct (negb _); [done|].
  rewrite <- String.eqb_neq in Ho. rewrite Ho, (select1_unique Org.id _ _ o); [by simpl; rewrite Hp|done|done| |].
  - rewrite Hi. apply String.eqb_refl.
  - intros y ?. b2p. congruence.
Qed.

Lemma orgOf_nonempty u : orgOf u ≠ "".
Proof. unfold orgOf, or_else. destruct (Account.organization_id u) as [s0|]; [|done]. by destruct (String.eqb_spec s0 ""). Qed.

Abbreviation root_handler := (unlock_root compare sha256 cfg).

Lemma root_db a u password fr now g o g' : root_handler a u password fr now g = (o, g') → Gov.db g' = Gov.db g.
Proof.
  unfold unlock_root, is_true. unfold eff_bind at 1. destruct (matches _ _ _ u) as [[]|]; [|by intros [= _ <-]..].
  apply bind_keeps; [intros ? ?; apply on_accounts_db|]. intros ? ? ? ?. by intros [= _ <-].
Qed.

Lemma root_only a u password fr now g o g' r s :
  root_handler a u password fr now g = (o, g') → o = Ok (Unlocked r s) →
  r = true ∧ matches compare password Mfa.password_hash_root u = Some true.
Proof.
  unfold unlock_root, is_true. unfold eff_bind at 1. destruct (matches _ _ _ u) as [[]|]; [|by intros [= <- _]..].
  cbn [negb]. intros H ->. by apply eff_bind_ok in H as (x & g1 & H & [= <- _ _]).
Qed.

(** A password never destroys anything in a regulated organisation: neither the
    sign-in nor the unlocking of the vault changes the fleet for an account of one. *)
Theorem regulated_never_wiped username password otp unusable dr a userId fr now g :
  NoDup (Org.id <$> Db.organizations (Gov.db g)) →
  (∀ u, u ∈ Console.users (Gov.console g) → Account.username u = username ∨ Account.id u = userId → in_regulated (Gov.db g) u) →
  fleet_of (Gov.db (sign_in_handler username password otp unusable dr now g).2) = fleet_of (Gov.db g) ∧
  fleet_of (Gov.db (unlock_handler a userId password fr now g).2) = fleet_of (Gov.db g).
Proof.
  intros Hn Hr. split.
  - destruct (sign_in_handler username password otp unusable dr now g) as [o g'] eqn:E.
    apply login_fleet in E as [E|(u & (Hu & Hun & _ & _ & He) & _)]; [done|].
    rewrite regulated_off in He; auto using orgOf_nonempty. done.
  - unfold unlock. destruct (_ =? _)%string; [done|]. unfold eff_bind at 1, get.
    destruct (select1 _ _) as [u|] eqn:Eu; [|done]. apply select1_elem in Eu as [Hi Hu]. b2p.
    rewrite regulated_off by auto using orgOf_nonempty. unfold eff_bind at 1, is_true at 1.
    destruct (matches _ _ Mfa.password_hash_stealth_wipe u); [|done]. unfold eff_ret at 1. cbv beta iota. rewrite andb_false_r.
    destruct (root_handler a u password fr now g) as [o g'] eqn:E. cbn [snd]. by rewrite (root_db _ _ _ _ _ _ _ _ E).
Qed.

(** *** The vault *)

(** Unlocking the vault opens the root tier for the root password only.  The
    stealth password, where it is enabled, is answered like a wrong one, whatever
    became of the wipe. *)
Theorem vault_unlock_answers a userId password fr now g o g' u :
  password ≠ "" → select1 (λ x, (Account.id x =? userId)%string) (Console.users (Gov.console g)) = Some u →
  unlock_handler a userId password fr now g = (o, g') →
  (∀ r s, o = Ok (Unlocked r s) →
     r = true ∧ matches compare password Mfa.password_hash_root u = Some true ∧ Gov.db g' = Gov.db g) ∧
  (matches compare password Mfa.password_hash_stealth_wipe u = Some true → isEnabledFor modules (Gov.db g) u = true →
     o = Ok (Refused 401 "Invalid vault password")) ∧
  (matches compare password Mfa.password_hash_stealth_wipe u = Some false →
   matches compare password Mfa.password_hash_root u = Some false →
     o = Ok (Refused 401 "Invalid vault password") ∧ g' = g).
Proof.
  intros Hp Hu H. unfold unlock in H. rewrite <- String.eqb_neq in Hp. rewrite Hp in H. unfold eff_bind at 1, get in H. rewrite Hu in H.
  unfold eff_bind at 1 in H. unfold is_true at 1 in H.
  destruct (matches compare password Mfa.password_hash_stealth_wipe u) as [[]|]; [| |by injection H as <- <-];
    unfold eff_ret at 1 in H; cbv beta iota in H; cbn [andb] in H.
  - destruct (isEnabledFor modules (Gov.db g) u).
    + unfold eff_bind in H. destruct (attempt _ g) as [o1 g1] eqn:Ea. apply attempt_run in Ea as (_ & _ & x & ->).
      injection H as <- <-. by split_and!.
    + split_and!; [|done|done]. intros r s E. destruct (root_only _ _ _ _ _ _ _ _ _ _ H E). by apply root_db in H.
  - split_and!; [|done|].
    + intros r s E. destruct (root_only _ _ _ _ _ _ _ _ _ _ H E). by apply root_db in H.
    + intros _ Hf. unfold unlock_root, eff_bind at 1, is_true in H. rewrite Hf in H. by injection H as <- <-.
Qed.

End Facts.
End DuressFacts.

Module DuressSamples.
Import VaultSamples Sessions Mfa Duress DuressFacts SessionSamples MfaSamples.

(** An owner with every kind of password; a hash is the password itself. *)
Definition owner : Account.t :=
  Account.mk "usr-1" "ann" "admin" "active" (Some "org-a") (Some "pw") (Some "root") (Some "stealth") (Some "nuke") 1 false None []
    None None None None None None.

Definition equal (password hash : string) : option bool := Some (password =? hash)%string.
Definition steady : Db.t → option Db.t := λ _, None.
Definition broken : Db.t → option Db.t := λ d, Some d.

Lemma steady_fleet d d' : steady d = Some d' → fleet_of d' = fleet_of d.
Proof. done. Qed.
Lemma broken_fleet d d' : broken d = Some d' → fleet_of d' = fleet_of d.
Proof. by intros [= <-]. Qed.

Definition state : Gov.t :=
  Gov.mk CompartmentSamples.db (tables <| Console.users := [owner] |> <| Console.memberships := [Membership.mk "usr-1" "org-a" "owner"] |>)
    sample_vault [] [] [].

Definition on_ : Modules.t := Modules.mk ["deniability"] [("org-a", "deniability", true)].
Definition regulated : Gov.t :=
  state <| Gov.db ::= λ d, d <| Db.organizations ::= fmap (λ o, o <| Org.profile := "regulated" |>) |> |>.

Definition drawn : draws := mk_draws rnd1 id chal1 fresh1.

Abbreviation enter out m password :=
  (login 24 out equal m digest sample_cfg hkdf1 raw1 vcfg1 sample_hmac None false "ann" password None "unusable" drawn now1).

Lemma wiped_differs : fleet_of (Gov.db (enter steady on_ "stealth" state).2) ≠ fleet_of (Gov.db state).
Proof. intros E. apply (f_equal (λ d, length (Db.compartments d))) in E. vm_compute in E. discriminate. Qed.


Lemma nuclear : nuclear_login equal on_ "ann" "nuke" owner state.
Proof. split; [done|vm_compute; reflexivity|vm_compute; reflexivity|done|vm_compute; reflexivity]. Qed.

Lemma nuclear_password_effective_witness :
  (∃ g', enter steady on_ "nuke" state = (Ok wrong_password, g') ∧ destroyed_account "usr-1" g') ∧
  (∃ g', enter broken on_ "nuke" state = (Ok wrong_password, g') ∧ locked_account "usr-1" "unusable" g').
Proof.
  split.
  - destruct (nuclear_password_effective 24 steady steady_fleet equal on_ digest sample_cfg hkdf1 raw1 vcfg1 sample_hmac None false
      "ann" "nuke" owner None "unusable" drawn now1 state nuclear) as (g' & E & H); [apply NoDup_singleton|].
    exists g'. split; [exact E|apply H].
  - destruct (nuclear_password_effective 24 broken broken_fleet equal on_ digest sample_cfg hkdf1 raw1 vcfg1 sample_hmac None false
      "ann" "nuke" owner None "unusable" drawn now1 state nuclear) as (g' & E & H); [apply NoDup_singleton|].
    exists g'. split; [exact E|apply H].
Defined.

Definition caller_ : authority := mk_authority "usr-1" "ann" "admin" "org-a" "owner" "standard" "org-a" sid1 None 0.

Lemma regulated_never_wiped_witness : fleet_of (Gov.db (enter steady on_ "stealth" regulated).2) = fleet_of (Gov.db regulated).
Proof.
  apply (regulated_never_wiped 24 steady steady_fleet equal on_ digest sample_cfg hkdf1 raw1 vcfg1 sample_hmac None false
    "ann" "stealth" None "unusable" drawn caller_ "usr-1" fresh1 now1 regulated); [apply (bool_decide_unpack _); vm_compute; exact I|].
  intros u Hu _. apply list_elem_of_singleton in Hu as ->. eexists. split; [left|split; reflexivity].
Defined.

Lemma vault_unlock_answers_witness :
  (unlock 24 steady equal on_ digest sample_cfg caller_ "usr-1" "stealth" fresh1 now1 state).1 = Ok (Refused 401 "Invalid vault password") ∧
  unlock 24 steady equal on_ digest sample_cfg caller_ "usr-1" "guess" fresh1 now1 state = (Ok (Refused 401 "Invalid vault password"), state).
Proof.
  split.
  - destruct (vault_unlock_answers 24 steady equal on_ digest sample_cfg caller_ "usr-1" "stealth" fresh1 now1 state _ _ owner
      ltac:(discriminate) ltac:(vm_compute; reflexivity) (surjective_pairing _)) as (_ & H & _).
    apply H; vm_compute; reflexivity.
  - destruct (vault_unlock_answers 24 steady equal on_ digest sample_cfg caller_ "usr-1" "guess" fresh1 now1 state _ _ owner
      ltac:(discriminate) ltac:(vm_compute; reflexivity) (surjective_pairing _)) as (_ & _ & H).
    destruct H as [H1 H2]; [vm_compute; reflexivity..|]. rewrite (surjective_pairing (unlock _ _ _ _ _ _ _ _ _ _ _ _)), H1, H2. reflexivity.
Defined.

(** A default compartment that was hidden goes with the wipe, although deleting it is
    refused to everybody. *)
Definition hidden_default : Db.t :=
  Eval vm_compute in (Compartments.updateCompartment "cmp-org-a" "org-a" (Compartments.mk_updates None None (Some true)) "root" CompartmentSamples.db).2.

Lemma stealth_takes_hidden_default :
  (Compartments.deleteCompartment "cmp-org-a" "org-a" "root" hidden_default).1 =
    Throw None "Cannot delete the default compartment of an organization" ∧
  ¬ CompartmentFacts.default_of (Compartment.mk "cmp-org-a" "org-a" "" "default" "" true 0)
      (Gov.db (enter steady on_ "stealth" (state <| Gov.db := hidden_default |>)).2).
Proof.
  split; [vm_compute; reflexivity|]. intros (x & Hx & Hi & _). apply list_elem_of_In in Hx. vm_compute in Hx.
  destruct Hx as [<-|[<-|[]]]; vm_compute in Hi; discriminate.
Qed.

End DuressSamples.
