(* ===== verification/Nuke.v ===== *)
(** * Self-destruction and the dead man's switches

    [modules/nuke/NukeEngine.js] and the handlers of [modules/nuke/routes.js] that
    call it.  A switch that is not confirmed before its deadline destroys its
    owner's account, or, for the network owner's, everything; the sweep runs on the
    elected leader.

    The state is that of [Governance] with the table [dead_man_switch], the column
    [users.scheduled_deletion_at], and the copies this process keeps in memory.
    [bcrypt] and SHA-256 are arguments; times are milliseconds, and products of
    fractional seconds are exact.  An outage of the database is a parameter of the
    revocation and of each table of the global wipe.  The tables exist, the webhook,
    the canary, audit and topology events are left out; the Valkey FLUSHALL of the
    wipe is behind a [require] of a path that does not exist, and never runs. *)

From S2P Require Import Prelude Order Js Db Encoding Acl Access Revocation Sessions Vault Governance Orgs Duress.

Module Dms.
Record t := mk {
  id : string; user_id : string; switch_tier : string; passphrase_hash : string;
  heartbeat_interval_seconds : Z; last_heartbeat_at : Z; next_deadline_at : Z;
  webhook_url : option string; steganography_mode : option string; steganography_secret : option string;
  status : string; created_at : Z
}.
End Dms.

(** An entry of [inMemoryDms]. *)
Module MemDms.
Record t := mk {
  passphrase_hash : string; original_passphrase : string;
  heartbeat_interval_seconds : num; last_heartbeat_at : Z; next_deadline_at : Z;
  steganography_mode : string; steganography_secret : string
}.
End MemDms.

(** [inMemoryOwnerDms] *)
Module MemOwner.
Record t := mk {
  configured : bool; passphrase_hash : string; sha_hash : string;
  heartbeat_interval_seconds : num; last_heartbeat_at : Z; webhook_url : string
}.
Definition initial : t := mk false "" "" (of_Z (86400 * 30)) 0 "".
End MemOwner.

Module Nuke.
Import Sessions.

Record t := mk {
  gov : Gov.t; switches : list Dms.t; scheduled_deletion_at : gmap string Z;
  inMemoryDms : gmap string MemDms.t; inMemoryScheduledKills : gmap string Z;
  inMemoryOwnerDms : MemOwner.t; blacklist : list (string * Z)
}.

Definition on_gov {A} (m : eff Gov.t A) : eff t A := λ s, let '(r, g) := m (gov s) in (r, s <| gov := g |>).
Definition db (s : t) : Db.t := Gov.db (gov s).

Definition MODES : list string := ["reverse_password"; "split_reverse"; "shadow_password"; "hardware_key"; "mobile_otp"].
Definition personal : string := "personal_user".
Definition owner : string := "owner_global".

Definition user_row (uid : string) (s : t) : bool := existsb (λ u, (User.id u =? uid)%string) (Db.users (db s)).

Definition is_switch (uid tier : string) (r : Dms.t) : bool :=
  (Dms.user_id r =? uid)%string && (Dms.switch_tier r =? tier)%string.
Definition is_active (r : Dms.t) : bool := (Dms.status r =? "active")%string.

(** ** Destruction of an account *)

(** The rows that go with the account. *)
Definition destroy_rows (uid : string) (s : t) : t :=
  s <| gov ::= Duress.delete_account uid |> <| switches ::= delete_where (λ r, (Dms.user_id r =? uid)%string) |>
    <| scheduled_deletion_at ::= delete uid |>.

Definition nodes_of (uid : string) (s : t) : list Node.t := where_ (λ n, (Node.user_id n =? uid)%string) (Db.nodes (db s)).

(** UPDATE nodes SET public_key = dead WHERE user_id: the column is unique. *)
Definition overwrite_ok (uid dead : string) (s : t) : bool :=
  Nat.leb (length (nodes_of uid s)) 1 &&
  negb (existsb (λ n, negb (Node.user_id n =? uid)%string && (Node.public_key n =? dead)%string) (Db.nodes (db s)) &&
        negb (Nat.eqb (length (nodes_of uid s)) 0)).

Section Engine.
Context (RETENTION_HOURS : Z) (outage : Db.t → option Db.t).

(** [dead] is the random key text written over the nodes' keys. *)
Definition executeInstantUserDestruction (uid : string) (token : option string) (dead : string) (now : Z) : eff t unit :=
  on_gov (Governance.on_db (Duress.or_outage outage (Revocation.revokeUserNodes RETENTION_HOURS uid "user_destroyed" None now))) ;!
  (match token with
   | Some tok => if (tok =? "")%string then eff_ret tt else modify (λ s, s <| blacklist ::= λ l, l ++ [(tok, now + 86400 * 1000)] |>)
   | None => eff_ret tt
   end) ;!
  s <-! get ;
  (if overwrite_ok uid dead s then modify (destroy_rows uid) else db_error) ;!
  on_gov Duress.bump_netmap ;!
  modify (λ s, s <| inMemoryDms ::= delete uid |> <| inMemoryScheduledKills ::= delete uid |>).

(** ** Scheduled destruction *)

(** [new Date(v).getTime()], [None] for NaN. *)
Context (getTime : jsval → option Z).

Definition valid_schedule (at_ : jsval) (now : Z) : option Z :=
  if negb (truthy at_) then None else
  match at_ with
  | JStr "PAST_DATE" => None
  | _ => e ← getTime at_; if e <=? now then None else Some e
  end.

Definition scheduleUserDestruction (uid : string) (at_ : jsval) (now : Z) : eff t Z :=
  match valid_schedule at_ now with
  | None => throw None "Invalid scheduled_deletion_at timestamp"
  | Some e =>
      modify (λ s, (if user_row uid s then s <| scheduled_deletion_at ::= <[uid := e]> |> else s)
                     <| inMemoryScheduledKills ::= <[uid := e]> |>) ;!
      eff_ret e
  end.

Definition cancelScheduledUserDestruction (uid : string) : eff t unit :=
  modify (λ s, s <| scheduled_deletion_at ::= delete uid |> <| inMemoryScheduledKills ::= delete uid |>).

(** [active] and the time. *)
Definition getUserNukeStatus (uid : string) (s : t) : option Z :=
  match scheduled_deletion_at s !! uid with Some e => Some e | None => inMemoryScheduledKills s !! uid end.

(** ** The personal switch *)

Context (bcrypt_hash : string → string) (bcrypt_compare : string → string → bool) (sha256 : string → string).

Definition MAX_DATE : Z := 8640000000000000.

(** [n * 1000], in whole milliseconds. *)
Definition millis (n : num) : option Z :=
  match n with
  | Fin m e => Some (if 0 <=? e then m * 2 ^ e * 1000 else Z.quot (m * 1000) (2 ^ (- e)))
  | _ => None
  end.

(** [new Date(now + n * 1000)], [None] where [toISOString] throws. *)
Definition deadline (now : Z) (n : num) : option Z :=
  ms ← millis n; if now + ms <=? MAX_DATE then Some (now + ms) else None.

(** [isNaN(n) || n <= 0] *)
Definition bad_interval (n : num) : bool := isNaN n || num_leb n (of_Z 0).

(** A parameter of a BIGINT column. *)
Definition bigint (n : num) : option Z :=
  if isInteger n && (- 2 ^ 63 <=? to_Z n) && (to_Z n <? 2 ^ 63) then Some (to_Z n) else None.

Definition valid_passphrase (p : jsval) : option string :=
  match p with JStr s => if (trim s =? "")%string then None else Some s | _ => None end.

(** INSERT ... ON CONFLICT (user_id, switch_tier) DO UPDATE; [None] where a
    constraint fails, the primary key among them. *)
Definition upsert_switch (r : Dms.t) (s : t) : option t :=
  if negb (user_row (Dms.user_id r) s) then None else
  if existsb (is_switch (Dms.user_id r) (Dms.switch_tier r)) (switches s)
  then Some (s <| switches ::= update_where (is_switch (Dms.user_id r) (Dms.switch_tier r)) (λ old,
         r <| Dms.id := Dms.id old |> <| Dms.created_at := Dms.created_at old |>) |>)
  else if existsb (λ x, (Dms.id x =? Dms.id r)%string) (switches s) then None
  else Some (s <| switches ::= λ l, l ++ [r] |>).

Definition setupPersonalDMS (uid : string) (passphrase interval : jsval) (mode secret : option string) (rnd : string) (now : Z) : eff t unit :=
  match valid_passphrase passphrase with
  | None => throw None "Missing passphrase or heartbeat_interval_seconds"
  | Some phrase =>
      let n := js_Number interval in
      if bad_interval n then throw None "heartbeat_interval_seconds must be positive" else
      match deadline now n with
      | None => throw None "Invalid time value"
      | Some next =>
          let mode' := or_text mode "reverse_password" in
          let secretVal := or_text secret phrase in
          let hash := bcrypt_hash phrase in
          modify (λ s,
            match bigint n with
            | Some i =>
                if bool_decide (mode' ∈ MODES) && (len secretVal <=? 255)
                then default s (upsert_switch (Dms.mk ("dms-usr-" +:+ take_string 8 rnd) uid personal hash i now next None (Some mode')
                                                (Some secretVal) "active" now) s)
                else s
            | None => s
            end) ;!
          modify (λ s, s <| inMemoryDms ::= <[uid := MemDms.mk hash phrase n now next mode' secretVal]> |>)
      end
  end.

Definition secretsEqual (provided : string) (expected : option string) : bool :=
  match expected with
  | Some e => negb (provided =? "")%string && negb (e =? "")%string && (sha256 provided =? sha256 e)%string
  | None => false
  end.

(** The record an operation works on: the one in memory, else the active row. *)
Record loaded := mk_loaded {
  l_mode : string; l_original : string; l_secret : option string; l_hash : string; l_interval : num; l_last : Z; l_next : Z
}.

Definition of_row (r : Dms.t) : loaded :=
  mk_loaded (or_text (Dms.steganography_mode r) "reverse_password") (or_text (Dms.steganography_secret r) "") (Dms.steganography_secret r)
    (Dms.passphrase_hash r) (of_Z (Dms.heartbeat_interval_seconds r)) (Dms.last_heartbeat_at r) (Dms.next_deadline_at r).

Definition of_memory (m : MemDms.t) : loaded :=
  mk_loaded (or_text (Some (MemDms.steganography_mode m)) "reverse_password")
    (or_text (Some (MemDms.original_passphrase m)) (MemDms.steganography_secret m)) (Some (MemDms.steganography_secret m))
    (MemDms.passphrase_hash m) (MemDms.heartbeat_interval_seconds m) (MemDms.last_heartbeat_at m) (MemDms.next_deadline_at m).

Definition active_row (uid : string) (s : t) : option Dms.t := select1 (λ r, is_switch uid personal r && is_active r) (switches s).

Definition load_switch (uid : string) (s : t) : option loaded :=
  match inMemoryDms s !! uid with Some m => Some (of_memory m) | None => of_row <$> active_row uid s end.

(** The texts that open the switch in each mode. *)
Definition accepted (d : loaded) : list (option string) :=
  let original := l_original d in
  [Some original; l_secret d] ++
  (if (l_mode d =? "reverse_password")%string then [Some (js_rev original)]
   else if (l_mode d =? "split_reverse")%string then
     let mid := Nat.div (String.length original) 2 in
     let head := take_string mid original in
     let tail := drop_string mid original in
     [Some (js_rev head +:+ tail); Some (head +:+ js_rev tail); Some (js_rev head +:+ js_rev tail)]
   else []).

Definition opens (authVal : string) (d : loaded) : bool :=
  existsb (secretsEqual authVal) (accepted d) ||
  ((l_mode d =? "shadow_password")%string && negb (l_hash d =? "")%string && bcrypt_compare authVal (l_hash d)).

(** [Math.max(0, Math.floor((deadlineMs - now) / 1000))], of integers. *)
Definition remaining (last : Z) (interval : num) (now : Z) : Z :=
  Z.max 0 ((last + default 0 (millis interval) - now) / 1000).

Definition unlockPersonalDMS (uid : string) (creds : jsval) (now : Z) : eff t (num * Z * Z) :=
  s <-! get ;
  match load_switch uid s with
  | None => throw (Some 404) "No Personal DMS configured"
  | Some d =>
      let authVal := trim (js_String (js_or creds (JStr ""))) in
      if opens authVal d then eff_ret (l_interval d, remaining (l_last d) (l_interval d) now, l_next d)
      else throw (Some 401) "Steganographic verification failed"
  end.

(** UPDATE dead_man_switch SET last_heartbeat_at, next_deadline_at *)
Definition beat (now next : Z) (r : Dms.t) : Dms.t := r <| Dms.last_heartbeat_at := now |> <| Dms.next_deadline_at := next |>.

Definition heartbeatPersonalDMS (uid : string) (now : Z) : eff t Z :=
  s <-! get ;
  match load_switch uid s with
  | None => throw (Some 404) "No Personal DMS configured"
  | Some d =>
      match deadline now (l_interval d) with
      | None => throw None "Invalid time value"
      | Some next =>
          if existsb (λ r, is_switch uid personal r && is_active r) (switches s)
          then
            modify (λ s, s <| switches ::= update_where (λ r, is_switch uid personal r && is_active r) (beat now next) |>
                           <| inMemoryDms ::= alter (λ m, m <| MemDms.last_heartbeat_at := now |> <| MemDms.next_deadline_at := next |>) uid |>) ;!
            eff_ret now
          else
            modify (λ s, s <| inMemoryDms ::= delete uid |>) ;!
            throw (Some 409) "The personal switch is no longer active"
      end
  end.

(** Mode, interval, last and next times, seconds remaining. *)
Definition getPersonalDMSStatus (uid : string) (now : Z) (s : t) : option (string * num * Z * Z * Z) :=
  d ← load_switch uid s;
  Some (l_mode d, l_interval d, l_last d, l_next d, remaining (l_last d) (l_interval d) now).

(** ** The owner's switch *)

Definition owner_row (r : Dms.t) : bool := (Dms.switch_tier r =? owner)%string && is_active r.

Definition setupOwnerDMS (uid : string) (passphrase interval : jsval) (webhook : option string) (now : Z) : eff t unit :=
  match valid_passphrase passphrase with
  | None => throw None "Missing passphrase or heartbeat_interval_seconds"
  | Some phrase =>
      let n := js_Number interval in
      if bad_interval n then throw None "heartbeat_interval_seconds must be positive" else
      match deadline now n with
      | None => throw None "Invalid time value"
      | Some next =>
          let hash := bcrypt_hash phrase in
          let hook := or_text webhook "" in
          modify (λ s,
            match bigint n with
            | Some i =>
                if len hook <=? 512
                then default s (upsert_switch (Dms.mk "dms-owner-master" uid owner hash i now next (Some hook) (Some "shadow_password") None
                                                "active" now) s)
                else s
            | None => s
            end) ;!
          modify (λ s, s <| inMemoryOwnerDms := MemOwner.mk true hash (sha256 phrase) n now hook |>)
      end
  end.

(** ORDER BY created_at DESC LIMIT 1 *)
Definition newest_owner (s : t) : option Dms.t :=
  head (js_sort (cmp_on (λ r, - Dms.created_at r) cmp_Z) (where_ owner_row (switches s))).

Definition heartbeatOwnerDMS (passphrase : string) (now : Z) : eff t Z :=
  if (passphrase =? "")%string then throw (Some 401) "Invalid owner passphrase" else
  s <-! get ;
  let mem := inMemoryOwnerDms s in
  let '(dbHash, interval) := match newest_owner s with
                             | Some r => (Dms.passphrase_hash r, of_Z (Dms.heartbeat_interval_seconds r))
                             | None => (MemOwner.passphrase_hash mem, MemOwner.heartbeat_interval_seconds mem)
                             end in
  let validSha := negb (MemOwner.sha_hash mem =? "")%string && (sha256 passphrase =? MemOwner.sha_hash mem)%string in
  let validBcrypt := negb (dbHash =? "")%string && bcrypt_compare passphrase dbHash in
  if negb validSha && negb validBcrypt then throw (Some 401) "Invalid owner passphrase" else
  match deadline now interval with
  | None => throw None "Invalid time value"
  | Some next =>
      modify (λ s, s <| switches ::= update_where owner_row (beat now next) |>) ;!
      if negb (existsb owner_row (switches s)) && negb (MemOwner.configured mem)
      then throw (Some 409) "The owner switch is not active"
      else modify (λ s, s <| inMemoryOwnerDms ::= λ m, m <| MemOwner.last_heartbeat_at := now |> |>) ;! eff_ret now
  end.

(** Interval, last and next times, seconds remaining, whether a webhook is set. *)
Definition getOwnerDMSStatus (now : Z) (s : t) : option (num * Z * Z * Z * bool) :=
  let mem := inMemoryOwnerDms s in
  match select1 owner_row (switches s) with
  | Some r =>
      let i := of_Z (Dms.heartbeat_interval_seconds r) in
      Some (i, Dms.last_heartbeat_at r, Dms.next_deadline_at r, remaining (Dms.last_heartbeat_at r) i now,
            negb (or_text (Dms.webhook_url r) (MemOwner.webhook_url mem) =? "")%string)
  | None =>
      if negb (MemOwner.configured mem) then None else
      let i := MemOwner.heartbeat_interval_seconds mem in
      let last := MemOwner.last_heartbeat_at mem in
      Some (i, last, last + default 0 (millis i), remaining last i now, negb (MemOwner.webhook_url mem =? "")%string)
  end.

(** ** The global wipe *)

Definition TABLES : list string :=
  ["custom_domains"; "cloud_pcs"; "peering_agreements"; "geofencing_policies"; "node_telemetry_history"; "dead_man_switch";
   "refresh_tokens"; "nodes"; "audit_events"; "warrant_canaries"; "system_metrics"; "users"].

Definition empty_users (s : t) : t :=
  s <| gov ::= λ g, g <| Gov.console ::= λ c, c <| Console.users := [] |> <| Console.families := [] |> <| Console.refresh_tokens := [] |>
                                                <| Console.challenges := [] |> <| Console.memberships := [] |> |>
                      <| Gov.db ::= λ d, delete_nodes (λ _, true) d <| Db.preauth_keys := [] |> <| Db.users := [] |> <| Db.memberships := [] |> |> |>
    <| switches := [] |> <| scheduled_deletion_at := ∅ |>.

(** DELETE FROM a table, with what the foreign keys take along; the other tables
    are outside the state. *)
Definition empty_table (tbl : string) (s : t) : t :=
  if (tbl =? "dead_man_switch")%string then s <| switches := [] |>
  else if (tbl =? "refresh_tokens")%string then s <| gov ::= λ g, g <| Gov.console ::= λ c, c <| Console.refresh_tokens := [] |> |> |>
  else if (tbl =? "nodes")%string then s <| gov ::= λ g, g <| Gov.db ::= delete_nodes (λ _, true) |> |>
  else if (tbl =? "users")%string then empty_users s
  else s.

(** [unreachable] tells which tables the database fails to empty. *)
Context (unreachable : string → bool).

Definition executeOwnerGlobalCascadingWipe : eff t (list string) :=
  modify (λ s, foldl (λ s tbl, if unreachable tbl then s else empty_table tbl s) s TABLES) ;!
  modify (λ s, s <| inMemoryDms := ∅ |> <| inMemoryScheduledKills := ∅ |>
                 <| inMemoryOwnerDms ::= λ m, m <| MemOwner.configured := false |> |>) ;!
  eff_ret (where_ unreachable TABLES).

(** ** The sweep *)

Definition due (now : Z) (r : Dms.t) : bool := is_active r && (Dms.next_deadline_at r <? now).

Definition owner_due (now : Z) (r : Dms.t) : bool := (Dms.switch_tier r =? owner)%string && due now r.
Definition personal_due (now : Z) (r : Dms.t) : bool := (Dms.switch_tier r =? personal)%string && due now r.

Definition set_status (status : string) (r : Dms.t) : Dms.t := r <| Dms.status := status |>.

(** One due switch: the claim, the destruction, and the release of the claim where
    the destruction fails. *)
Definition claim_switch (uid : string) (now : Z) : eff t bool :=
  s <-! get ;
  let mine r := is_switch uid personal r && due now r in
  if existsb mine (switches s)
  then modify (λ s, s <| switches ::= update_where mine (set_status "triggered") |>) ;! eff_ret true
  else eff_ret false.

Definition release_switch (uid : string) : eff t unit :=
  modify (λ s, s <| switches ::= update_where (λ r, is_switch uid personal r && (Dms.status r =? "triggered")%string) (set_status "active") |>).

Definition fire_switch (uid dead : string) (now : Z) : eff t unit :=
  λ s, match executeInstantUserDestruction uid None dead now s with
       | (Ok _, s') => (Ok tt, s')
       | (Throw _ _, s') => release_switch uid s'
       end.

Definition sweep_switch (dead : string) (now : Z) (uid : string) : eff t unit :=
  claimed <-! claim_switch uid now ;
  if claimed then fire_switch uid dead now else eff_ret tt.

(** One scheduled deletion, the same way. *)
Definition claim_deletion (uid : string) (at_ : Z) : eff t bool :=
  s <-! get ;
  if bool_decide (scheduled_deletion_at s !! uid = Some at_)
  then modify (λ s, s <| scheduled_deletion_at ::= delete uid |>) ;! eff_ret true
  else eff_ret false.

Definition release_deletion (uid : string) (at_ : Z) : eff t unit :=
  modify (λ s, if user_row uid s && bool_decide (scheduled_deletion_at s !! uid = None)
               then s <| scheduled_deletion_at ::= <[uid := at_]> |> else s).

Definition sweep_deletion (dead : string) (now : Z) (x : string * Z) : eff t unit :=
  claimed <-! claim_deletion x.1 x.2 ;
  if claimed then
    λ s, match executeInstantUserDestruction x.1 None dead now s with
         | (Ok _, s') => (Ok tt, s')
         | (Throw _ _, s') => release_deletion x.1 x.2 s'
         end
  else eff_ret tt.

Definition each {A} (f : A → eff t unit) : list A → eff t unit := foldr (λ x k, f x ;! k) (eff_ret tt).

Definition due_deletions (now : Z) (s : t) : list (string * Z) :=
  where_ (λ x, x.2 <=? now) (map_to_list (scheduled_deletion_at s)).

Definition checkExpiredDeadManSwitches (dead : string) (now : Z) : eff t unit :=
  s <-! get ;
  if existsb (owner_due now) (switches s) then
    modify (λ s, s <| switches ::= update_where (owner_due now) (set_status "triggered") |>) ;!
    executeOwnerGlobalCascadingWipe ;! eff_ret tt
  else
    each (sweep_switch dead now) (Dms.user_id <$> where_ (personal_due now) (switches s)) ;!
    s' <-! get ;
    each (sweep_deletion dead now) (due_deletions now s').

(** ** The handlers *)

(** An error of the engine with one of the statuses is answered with a fixed text;
    the others go to the error handler. *)
Definition answering {A} (known : list (Z * string)) (m : eff t A) : eff t (verdict A) :=
  λ s, match m s with
       | (Ok a, s') => (Ok (Next a), s')
       | (Throw (Some st) msg, s') =>
           match List.find (λ x, x.1 =? st) known with Some x => (Ok (Answer st x.2), s') | None => (Throw (Some st) msg, s') end
       | (Throw None msg, s') => (Throw None msg, s')
       end.

Definition super_only {A} (u : Principal.t) (k : eff t (verdict A)) : eff t (verdict A) :=
  match AuthGuards.requireRole ["super-admin"] (Some u) with Next _ => k | Answer st e => eff_ret (Answer st e) end.

Definition is_text (v : jsval) (w : string) : bool := match v with JStr s => (s =? w)%string | _ => false end.
Definition is_true (v : jsval) : bool := match v with JBool true => true | _ => false end.

Definition post_self_destruct (u : Principal.t) (body : jsval) (token : option string) (dead : string) (now : Z) : eff t (verdict unit) :=
  if is_text (field "confirmation_text" body) "DELETE MY ACCOUNT" && is_true (field "disclaimer_accepted" body)
  then answering [] (executeInstantUserDestruction (Principal.id u) token dead now)
  else eff_ret (Answer 400 "Confirmation phrase 'DELETE MY ACCOUNT' and disclaimer acceptance required").

Definition post_schedule (u : Principal.t) (body : jsval) (now : Z) : eff t (verdict Z) :=
  match valid_schedule (field "scheduled_deletion_at" body) now with
  | None => eff_ret (Answer 400 "Invalid scheduled_deletion_at timestamp")
  | Some _ => answering [] (scheduleUserDestruction (Principal.id u) (field "scheduled_deletion_at" body) now)
  end.

Definition post_cancel (u : Principal.t) : eff t (verdict unit) := answering [] (cancelScheduledUserDestruction (Principal.id u)).

Definition get_user_status (u : Principal.t) : eff t (verdict (option Z)) :=
  s <-! get ; eff_ret (Next (getUserNukeStatus (Principal.id u) s)).

(** The checks the two setup handlers share. *)
Definition setup_refusal (body : jsval) : option string :=
  if negb (truthy (field "passphrase" body)) || is_undef (field "heartbeat_interval_seconds" body)
  then Some "Missing passphrase or heartbeat_interval_seconds"
  else if bad_interval (js_Number (field "heartbeat_interval_seconds" body)) then Some "heartbeat_interval_seconds must be positive" else None.

Definition text_field (k : string) (body : jsval) : option string := match field k body with JStr s => Some s | _ => None end.

Definition post_personal_setup (u : Principal.t) (body : jsval) (rnd : string) (now : Z) : eff t (verdict unit) :=
  match setup_refusal body with
  | Some e => eff_ret (Answer 400 e)
  | None => answering [] (setupPersonalDMS (Principal.id u) (field "passphrase" body) (field "heartbeat_interval_seconds" body)
              (text_field "steganography_mode" body) (text_field "steganography_secret" body) rnd now)
  end.

Definition handlePersonalUnlock (u : Principal.t) (body : jsval) (now : Z) : eff t (verdict (num * Z * Z)) :=
  let creds := js_or (field "stego_credentials" body) (js_or (field "passphrase" body) (js_or (field "credentials" body)
                 (js_or (field "credential" body) (JStr "")))) in
  answering [(404, "No Personal DMS configured"); (401, "Steganographic verification failed")]
    (unlockPersonalDMS (Principal.id u) creds now).

Definition post_personal_heartbeat (u : Principal.t) (now : Z) : eff t (verdict Z) :=
  answering [(404, "No Personal DMS configured")] (heartbeatPersonalDMS (Principal.id u) now).

Definition get_personal_status (u : Principal.t) (now : Z) : eff t (verdict (option (string * num * Z * Z * Z))) :=
  s <-! get ; eff_ret (Next (getPersonalDMSStatus (Principal.id u) now s)).

Definition post_owner_setup (u : Principal.t) (body : jsval) (now : Z) : eff t (verdict unit) :=
  super_only u (
    match setup_refusal body with
    | Some e => eff_ret (Answer 400 e)
    | None => answering [] (setupOwnerDMS (Principal.id u) (field "passphrase" body) (field "heartbeat_interval_seconds" body)
                (text_field "webhook_url" body) now)
    end).

Definition post_owner_heartbeat (u : Principal.t) (passphrase : string) (now : Z) : eff t (verdict Z) :=
  super_only u (
    if (passphrase =? "")%string then eff_ret (Answer 401 "Invalid owner passphrase") else
    answering [(401, "Invalid owner passphrase")] (heartbeatOwnerDMS passphrase now)).

Definition get_owner_status (u : Principal.t) (now : Z) : eff t (verdict (option (num * Z * Z * Z * bool))) :=
  super_only u (s <-! get ; eff_ret (Next (getOwnerDMSStatus now s))).

Definition GLOBAL_WIPE_PHRASE : string := "DESTROY EVERYTHING PERMANENTLY".

Definition own_hash (uid : string) (s : t) : option string :=
  select1 (λ a, (Account.id a =? uid)%string) (Console.users (Gov.console (gov s))) ≫= Account.password_hash.

Definition post_owner_trigger (u : Principal.t) (phrase : jsval) (password : string) : eff t (verdict (list string)) :=
  super_only u (
    if negb (is_text phrase GLOBAL_WIPE_PHRASE) then eff_ret (Answer 400 "confirmation_phrase does not match") else
    if (password =? "")%string then eff_ret (Answer 400 "password is required to confirm a global wipe") else
    s <-! get ;
    match own_hash (Principal.id u) s with
    | Some h =>
        if negb (h =? "")%string && bcrypt_compare password h
        then answering [] executeOwnerGlobalCascadingWipe else eff_ret (Answer 401 "password did not verify")
    | None => eff_ret (Answer 401 "password did not verify")
    end).

(** ** The handlers of the governance of destruction *)

(** The middleware [requireGovernanceRole]. *)
Definition governed {A} (u : Principal.t) (roles : list string) (k : eff t (verdict A)) : eff t (verdict A) :=
  on_gov (Governance.requireGovernanceRole (Principal.id u) roles) ;! k.

Definition governance_404 {A} : verdict A := Answer 404 "Governance target not found".

(** A refusal of the service that is not an access error is answered with 400. *)
Definition or_400 {A} (m : eff t A) : eff t (verdict A) :=
  λ s, match m s with
       | (Ok a, s') => (Ok (Next a), s')
       | (Throw (Some st) msg, s') => (Throw (Some st) msg, s')
       | (Throw None msg, s') => (Ok (Answer 400 msg), s')
       end.

Definition post_legal_hold (u : Principal.t) (organization_id reason rnd : string) (now : Z) : eff t (verdict Hold.t) :=
  governed u ["owner"; "admin"] (
    if (organization_id =? "")%string || (reason =? "")%string
    then eff_ret (Answer 400 "organization_id and reason are required")
    else answering [] (on_gov (Governance.imposeLegalHold organization_id reason (Principal.id u) rnd now))).

Definition delete_legal_hold (u : Principal.t) (id : string) (now : Z) : eff t (verdict Hold.t) :=
  governed u ["owner"] (
    released <-! on_gov (Governance.releaseLegalHold id (Principal.id u) now) ;
    eff_ret (match released with Some h => Next h | None => governance_404 end)).

Definition get_legal_hold (u : Principal.t) : eff t (verdict (list Hold.t)) :=
  answering [] (on_gov (Governance.listLegalHolds (Principal.id u))).

Definition post_dual_auth_request (u : Principal.t) (target_type target_id comment rnd : string) (now : Z) : eff t (verdict Auth.t) :=
  governed u ["owner"; "admin"] (
    if (target_type =? "")%string || (target_id =? "")%string
    then eff_ret (Answer 400 "target_type and target_id are required")
    else answering [] (on_gov (Governance.requestDestruction target_type target_id (Principal.id u) comment rnd now))).

Definition post_dual_auth_approve (u : Principal.t) (id comment : string) (now : Z) : eff t (verdict Governance.shred_result) :=
  governed u ["owner"; "admin"] (
    or_400 (on_gov (Governance.approveAndExecuteDestruction RETENTION_HOURS id (Principal.id u) comment now))).

Definition get_dual_auth (u : Principal.t) (now : Z) : eff t (verdict (list Auth.t)) :=
  answering [] (on_gov (Governance.listDestructionRequests (Principal.id u) false now)).

Definition post_dual_auth_reject (u : Principal.t) (id comment : string) (now : Z) : eff t (verdict Auth.t) :=
  governed u ["owner"; "admin"] (
    rejected <-! on_gov (Governance.rejectDestruction id (Principal.id u)
                           (if (comment =? "")%string then "Rejected by administrator" else comment) now) ;
    eff_ret (match rejected with Some a => Next a | None => governance_404 end)).

(** GET /status *)
Record overview := mk_overview { ov_armed : bool; active_legal_holds : Z; keys_status : string; owner_dms_armed : bool; pendingApprovals : list Auth.t }.

(** The table [owner_dead_man_switch] does not exist: the query fails, and the switch
    is taken for not armed. *)
Definition get_governance_status (u : Principal.t) (now : Z) : eff t (verdict overview) :=
  actor <-! on_gov (Governance.getGovernanceActor (Principal.id u)) ;
  s <-! get ;
  let orgId := Governance.a_organization_id actor in
  let holds := where_ (λ h, Hold.active h && (Governance.platform actor || (Hold.organization_id h =? orgId)%string)) (Gov.holds (gov s)) in
  pending <-! on_gov (Governance.listDestructionRequests (Principal.id u) true now) ;
  let key := select1 (λ k, (OrgKey.organization_id k =? orgId)%string) (Vault.keys (Gov.vault (gov s))) in
  let ownerArmed := false in
  eff_ret (Next (mk_overview (negb (Nat.eqb (length pending) 0) || ownerArmed) (Z.of_nat (length holds))
    (match key with Some k => OrgKey.status k | None => "active" end) ownerArmed pending)).

(** GET /state, without the canary; [None] for the owner's switch where the account
    may not see it. *)
Definition get_state (u : Principal.t) (now : Z)
    : eff t (verdict (option Z * option (string * num * Z * Z * Z) * option (option (num * Z * Z * Z * bool)))) :=
  s <-! get ;
  eff_ret (Next (getUserNukeStatus (Principal.id u) s, getPersonalDMSStatus (Principal.id u) now s,
    if (Principal.role u =? "super-admin")%string then Some (getOwnerDMSStatus now s) else None)).

End Engine.
End Nuke.
