(* ===== verification/NukeFacts.v ===== *)
(** * What the dead man's switches guarantee

    The sweep destroys no account before its deadline, a check-in holds it off, an
    expired switch fires, a destruction that fails leaves the switch armed, and
    overlapping sweeps never destroy the same account twice at once. *)

From S2P Require Import Prelude Order Js Db Encoding Vip Acl Access Revocation Sessions Vault Compartments Governance Orgs Duress Nuke.

Module NukeFacts.
Import Sessions Nuke.

Section Facts.
Context (RET : Z) (outage : Db.t → option Db.t).
(** An outage interrupts the statements of the revocation, and those only. *)
Context (outage_fleet : ∀ d d', outage d = Some d' → DuressFacts.fleet_of d' = DuressFacts.fleet_of d).

Abbreviation destroy := (executeInstantUserDestruction RET outage).
Abbreviation sweep := (checkExpiredDeadManSwitches RET outage).

(** ** One destruction *)

(** Whether the destruction goes through. *)
Definition destructible (uid dead : string) (s : t) : bool :=
  match outage (db s) with Some _ => false | None => overwrite_ok uid dead s end.

(** The key is refused for the retention period. *)
Definition listed (now : Z) (key : string) (d : Db.t) : Prop :=
  RevocationFacts.on_list key (now + RET * Credentials.HOUR) (Db.revoked_keys d).

(** So are those of the account's devices. *)
Definition barred (uid : string) (now : Z) (s : t) (d : Db.t) : Prop :=
  ∀ n key, n ∈ nodes_of uid s → Node.id n ≠ "" → Vip.normalisePublicKeyHex (Node.public_key n) = Some key → listed now key d.

(** A revocation at the same time shortens none. *)
Lemma revoke_keeps_listed ids reason actor in_tx now d o d' key :
  Revocation.revokeNodeKeys RET ids reason actor in_tx now d = (o, d') → listed now key d → listed now key d'.
Proof.
  rewrite Revocation.revokeNodeKeys_body. cbv zeta. destruct (where_ _ ids) as [|i l]; [by intros [= _ <-]|].
  unfold Revocation.revoke_body. unfold eff_bind at 1, get. unfold eff_bind.
  destruct (RevocationFacts.revoke_credentials_run (i :: l) now d) as (lc & -> & _).
  destruct (Revocation.revoke_rows_loop _ _ _ _ _ _) as [o1 d1] eqn:E.
  apply RevocationFacts.revoke_rows_loop_run in E as (lr & -> & H & _).
  intros E1 Hl. apply H in Hl. destruct o1 as [[|k ks]|]; by injection E1 as _ <-.
Qed.

(** The revocation touches the fleet's keys only; it fails in an outage only. *)
Record revocation (uid : string) (now : Z) (s : t) (d : Db.t) : Prop := {
  rv_fleet : DuressFacts.fleet_of d = DuressFacts.fleet_of (db s);
  rv_barred : outage (db s) = None → barred uid now s d;
  rv_listed : outage (db s) = None → ∀ key, listed now key (db s) → listed now key d;
}.

Lemma revoke_step uid now s : ∃ d, revocation uid now s d ∧
  ∃ keys, on_gov (Governance.on_db (Duress.or_outage outage (Revocation.revokeUserNodes RET uid "user_destroyed" None now))) s =
    (match outage (db s) with Some _ => Throw None "database error" | None => Ok keys end,
     s <| gov ::= λ g, g <| Gov.db := d |> |>).
Proof.
  unfold on_gov, Governance.on_db. fold (db s). unfold Duress.or_outage. destruct (outage (db s)) as [d|] eqn:Eo.
  { exists d. split; [split; [by apply outage_fleet|congruence..]|]. by exists []. }
  unfold Revocation.revokeUserNodes, eff_bind, get. fold (nodes_of uid s).
  destruct (DuressFacts.revokeNodeKeys_ok RET (Node.id <$> nodes_of uid s) "user_destroyed" None false now (db s)) as (keys & d & E); [done|].
  rewrite E. exists d. split; [|by exists keys].
  split; [by eapply DuressFacts.revoke_fleet| |intros _ key; by apply (revoke_keeps_listed _ _ _ _ _ _ _ _ _ E)].
  intros _ n key Hn Hne Hk. apply Revocation.revokeNodeKeys_run in E as [[_ _ _ Hr] _].
  apply (Hr keys n key); [done|by apply elem_of_where in Hn as [_ Hn]|by apply list_elem_of_fmap_2|done|done].
Qed.

(** After the revocation, and with the token refused. *)
Definition revoked_at (d : Db.t) (bl : list (string * Z)) (s : t) : t :=
  s <| gov ::= λ g, g <| Gov.db := d |> |> <| blacklist := bl |>.

Definition cleared (uid : string) (s : t) : t :=
  s <| gov ::= λ g, g <| Gov.db := (Acl.bumpNetmap (Gov.db g)).2 |> |>
    <| inMemoryDms ::= delete uid |> <| inMemoryScheduledKills ::= delete uid |>.

Lemma overwrite_nodes uid dead s s' : Db.nodes (db s') = Db.nodes (db s) → overwrite_ok uid dead s' = overwrite_ok uid dead s.
Proof. intros E. unfold overwrite_ok, nodes_of. by rewrite E. Qed.

Lemma destroy_run uid token dead now s : ∃ d bl, revocation uid now s d ∧
  destroy uid token dead now s =
    if destructible uid dead s then (Ok tt, cleared uid (destroy_rows uid (revoked_at d bl s)))
    else (Throw None "database error", revoked_at d bl s).
Proof.
  destruct (revoke_step uid now s) as (d & Hd & keys & E). exists d. unfold executeInstantUserDestruction, destructible.
  unfold eff_bind at 1. rewrite E. destruct (outage (db s)).
  { exists (blacklist s). split; [done|]. by destruct s. }
  assert (∀ bl, overwrite_ok uid dead (revoked_at d bl s) = overwrite_ok uid dead s) as Ho.
  { intros bl. destruct (DuressFacts.fleet_tables _ _ (rv_fleet _ _ _ _ Hd)) as [En _]. by apply overwrite_nodes. }
  assert (∃ bl, ∀ (k : eff t unit), eff_bind (match token with
     | Some tok => if (tok =? "")%string then eff_ret tt else modify (λ s, s <| blacklist ::= λ l, l ++ [(tok, now + 86400 * 1000)] |>)
     | None => eff_ret tt end) (λ _, k) (s <| gov ::= λ g, g <| Gov.db := d |> |>) = k (revoked_at d bl s)) as [bl Hbl].
  { destruct token as [tok|]; [destruct (tok =? "")%string|]; [exists (blacklist s)| |exists (blacklist s)].
    1,3: intros k; by destruct s. by eexists. }
  exists bl. split; [done|]. rewrite Hbl. unfold eff_bind, get. rewrite Ho. destruct (overwrite_ok uid dead s); [|done].
  unfold modify, on_gov. rewrite DuressFacts.bump_netmap_run. done.
Qed.

(** ** What the sweep sees of one account *)

Definition rows_of (uid : string) (s : t) : list Dms.t := where_ (λ r, (Dms.user_id r =? uid)%string) (switches s).

(** The account, its devices, its switches and its scheduled deletion. *)
Definition view (uid : string) (s : t) : bool * list Node.t * list Dms.t * option Z :=
  (user_row uid s, nodes_of uid s, rows_of uid s, scheduled_deletion_at s !! uid).
Definition gone : bool * list Node.t * list Dms.t * option Z := (false, [], [], None).

Lemma view_fields uid s s' :
  Db.users (db s') = Db.users (db s) → Db.nodes (db s') = Db.nodes (db s) → switches s' = switches s →
  scheduled_deletion_at s' !! uid = scheduled_deletion_at s !! uid → view uid s' = view uid s.
Proof. intros E1 E2 E3 E4. unfold view, user_row, nodes_of, rows_of. by rewrite E1, E2, E3, E4. Qed.

Lemma view_revoked uid uid' now s d bl : revocation uid' now s d → view uid (revoked_at d bl s) = view uid s.
Proof.
  intros [Hf _ _]. apply DuressFacts.fleet_tables in Hf as (En & _ & _ & _ & Eu & _). by apply view_fields.
Qed.

Lemma view_cleared uid uid' s : view uid (cleared uid' s) = view uid s.
Proof. apply view_fields; try done; unfold db; cbn; unfold Acl.bumpNetmap; by rewrite AclFacts.bumpEpoch_run. Qed.

Lemma existsb_where {A} (p : A → bool) l : existsb p l = negb (bool_decide (where_ p l = [])).
Proof.
  induction l as [|x l IH]; [done|]. cbn [existsb]. rewrite where_cons. destruct (p x); [done|exact IH].
Qed.

Lemma where_owner {A} (f : A → string) uid uid' l :
  where_ (λ x, (f x =? uid)%string) (delete_where (λ x, (f x =? uid')%string) l) =
  if bool_decide (uid = uid') then [] else where_ (λ x, (f x =? uid)%string) l.
Proof.
  unfold delete_where. rewrite where_where. case_bool_decide as E.
  - subst uid'. apply where_none. intros x _. by destruct (_ =? uid)%string.
  - apply where_ext. intros x _. destruct (f x =? uid)%string eqn:E1; [|by rewrite andb_false_r].
    apply String.eqb_eq in E1. rewrite E1. by apply String.eqb_neq in E as ->.
Qed.

Lemma view_destroyed uid uid' s : view uid (destroy_rows uid' s) = if bool_decide (uid = uid') then gone else view uid s.
Proof.
  unfold view, user_row, nodes_of, rows_of. rewrite !existsb_where.
  change (Db.users (db (destroy_rows uid' s))) with (delete_where (λ u, (User.id u =? uid')%string) (Db.users (db s))).
  change (Db.nodes (db (destroy_rows uid' s))) with (delete_where (λ u, (Node.user_id u =? uid')%string) (Db.nodes (db s))).
  change (switches (destroy_rows uid' s)) with (delete_where (λ u, (Dms.user_id u =? uid')%string) (switches s)).
  change (scheduled_deletion_at (destroy_rows uid' s)) with (delete uid' (scheduled_deletion_at s)).
  rewrite !where_owner. destruct (decide (uid = uid')) as [->|E].
  - rewrite (bool_decide_eq_true_2 (uid' = uid')), lookup_delete_eq by done. done.
  - rewrite (bool_decide_eq_false_2 (uid = uid')), lookup_delete_ne by done. done.
Qed.

(** A destruction takes the account whole or not at all, and no other account. *)
Lemma destroy_view uid uid' token dead now s :
  view uid (destroy uid' token dead now s).2 =
  if bool_decide (uid = uid') && destructible uid' dead s then gone else view uid s.
Proof.
  destruct (destroy_run uid' token dead now s) as (d & bl & Hd & ->). pose proof (view_revoked uid _ _ _ _ bl Hd) as E.
  destruct (destructible uid' dead s); [|rewrite andb_false_r; exact E]. rewrite andb_true_r. cbn [snd].
  rewrite view_cleared, view_destroyed. by case_bool_decide.
Qed.

Lemma destroy_result uid token dead now s :
  (destroy uid token dead now s).1 = if destructible uid dead s then Ok tt else Throw None "database error".
Proof. destruct (destroy_run uid token dead now s) as (d & bl & _ & ->). by destruct (destructible _ _ _). Qed.

(** ** The sweep, account by account *)

Lemma is_switch_eq uid tier r : is_switch uid tier r = true ↔ Dms.user_id r = uid ∧ Dms.switch_tier r = tier.
Proof. unfold is_switch. rewrite andb_true_iff, !String.eqb_eq. done. Qed.

(** A change of rows that keeps their owner is a change of every owner's rows. *)
Lemma rows_of_update uid p f s :
  (∀ r, Dms.user_id (f r) = Dms.user_id r) →
  rows_of uid (s <| switches ::= update_where p f |>) = update_where p f (rows_of uid s).
Proof.
  intros Hf. unfold rows_of. change (switches (s <| switches ::= update_where p f |>)) with (update_where p f (switches s)).
  induction (switches s) as [|r l IH]; [done|]. change (update_where p f (r :: l)) with ((if p r then f r else r) :: update_where p f l).
  rewrite !where_cons, IH. assert (Dms.user_id (if p r then f r else r) = Dms.user_id r) as -> by (by destruct (p r)).
  by destruct (_ =? uid)%string.
Qed.

Lemma update_where_none {A} (p : A → bool) f l : (∀ x, x ∈ l → p x = false) → update_where p f l = l.
Proof.
  intros H. induction l as [|x l IH]; [done|]. change (update_where p f (x :: l)) with ((if p x then f x else x) :: update_where p f l).
  rewrite (H x) by left. f_equal. apply IH. intros y Hy. apply H. by right.
Qed.

(** A change to the switches of another account. *)
Lemma view_other uid uid' p f s :
  (∀ r, p r = true → Dms.user_id r = uid') → (∀ r, Dms.user_id (f r) = Dms.user_id r) → uid ≠ uid' →
  view uid (s <| switches ::= update_where p f |>) = view uid s.
Proof.
  intros Hp Hf Hne. unfold view. rewrite rows_of_update by done. rewrite update_where_none; [done|].
  intros r Hr. apply elem_of_where in Hr as [Hr _]. apply String.eqb_eq in Hr. destruct (p r) eqn:E; [|done].
  apply Hp in E. congruence.
Qed.

Lemma claimed_owner uid now r : is_switch uid personal r && due now r = true → Dms.user_id r = uid.
Proof. intros H. apply andb_true_iff in H as [H _]. by apply is_switch_eq in H as [-> _]. Qed.

Lemma triggered_owner uid r : is_switch uid personal r && (Dms.status r =? "triggered")%string = true → Dms.user_id r = uid.
Proof. intros H. apply andb_true_iff in H as [H _]. by apply is_switch_eq in H as [-> _]. Qed.

Lemma fire_run uid dead now s :
  fire_switch RET outage uid dead now s =
  if destructible uid dead s then (Ok tt, (destroy uid None dead now s).2)
  else release_switch uid (destroy uid None dead now s).2.
Proof.
  unfold fire_switch. pose proof (destroy_result uid None dead now s) as E. destruct (destroy uid None dead now s) as [r s'].
  cbn in E. subst r. by destruct (destructible uid dead s).
Qed.

Lemma claim_due uid now s : existsb (personal_due now) (rows_of uid s) = existsb (λ r, is_switch uid personal r && due now r) (switches s).
Proof.
  unfold rows_of. induction (switches s) as [|r l IH]; [done|]. rewrite where_cons. cbn [existsb]. rewrite <- IH.
  unfold is_switch, personal_due. by destruct (Dms.user_id r =? uid)%string.
Qed.

(** The rows of a claimed switch. *)
Definition claimed (uid : string) (now : Z) (s : t) : t :=
  s <| switches ::= update_where (λ r, is_switch uid personal r && due now r) (set_status "triggered") |>.

Lemma sweep_switch_run dead now uid s :
  sweep_switch RET outage dead now uid s =
  if existsb (personal_due now) (rows_of uid s) then fire_switch RET outage uid dead now (claimed uid now s) else (Ok tt, s).
Proof. unfold sweep_switch, claim_switch. unfold eff_bind, get. rewrite claim_due. by destruct (existsb _ (switches s)). Qed.

Lemma sweep_switch_other uid uid' dead now s : uid ≠ uid' → view uid (sweep_switch RET outage dead now uid' s).2 = view uid s.
Proof.
  intros Hne. rewrite sweep_switch_run. destruct (existsb _ _); [|done]. set (s1 := claimed uid' now s).
  assert (view uid s1 = view uid s) as E1 by (eapply view_other; [apply (claimed_owner uid' now)|done|done]).
  rewrite fire_run. pose proof (destroy_view uid uid' None dead now s1) as E2. rewrite (bool_decide_eq_false_2 _ Hne) in E2. cbn in E2.
  destruct (destructible uid' dead s1); cbn [snd].
  - by rewrite E2.
  - unfold release_switch, modify. cbn [snd]. rewrite (view_other uid uid'); [by rewrite E2|apply triggered_owner|done|done].
Qed.

Lemma sweep_deletion_other uid dead now x s : uid ≠ x.1 → view uid (sweep_deletion RET outage dead now x s).2 = view uid s.
Proof.
  intros Hne. unfold sweep_deletion, claim_deletion. unfold eff_bind, get. case_bool_decide as E; [|done].
  unfold modify at 1, eff_ret at 1. set (s1 := s <| scheduled_deletion_at ::= _ |>).
  assert (view uid s1 = view uid s) as E1 by (apply view_fields; try done; apply (lookup_delete_ne (M := gmap string)); done).
  pose proof (destroy_view uid x.1 None dead now s1) as E2. rewrite (bool_decide_eq_false_2 _ Hne) in E2. cbn in E2.
  destruct (destroy x.1 None dead now s1) as [[[]|] s2]; cbn [snd] in *; [by rewrite E2|].
  unfold release_deletion, modify. cbn [snd]. destruct (user_row x.1 s2 && _); [|by rewrite E2].
  rewrite <- E1, <- E2. apply view_fields; try done. apply (lookup_insert_ne (M := gmap string)); done.
Qed.

Lemma sweep_switch_ok dead now uid s : (sweep_switch RET outage dead now uid s).1 = Ok tt.
Proof.
  rewrite sweep_switch_run. destruct (existsb _ _); [|done]. rewrite fire_run. by destruct (destructible _ _ _).
Qed.

Lemma each_invariant {A} (P : t → Prop) (f : A → eff t unit) l s :
  (∀ x s, x ∈ l → P s → P (f x s).2) → P s → P (each f l s).2.
Proof.
  revert s. induction l as [|x l IH]; intros s Hf Hs; [done|]. cbn [each foldr]. unfold eff_bind.
  pose proof (Hf x s ltac:(left) Hs) as H1. destruct (f x s) as [[[]|] s1]; [|done].
  apply IH; [|done]. intros y s2 Hy. apply Hf. by right.
Qed.

Lemma each_app {A} (f : A → eff t unit) l1 l2 s :
  (∀ x s, (f x s).1 = Ok tt) → (each f (l1 ++ l2) s) = each f l2 (each f l1 s).2.
Proof.
  intros Hf. revert s. induction l1 as [|x l1 IH]; intros s; [done|]. cbn [each foldr app]. unfold eff_bind.
  pose proof (Hf x s) as H1. destruct (f x s) as [r s1]. cbn in H1. subst r. apply IH.
Qed.

Lemma each_ok {A} (f : A → eff t unit) l s : (∀ x s, (f x s).1 = Ok tt) → (each f l s).1 = Ok tt.
Proof.
  intros Hf. revert s. induction l as [|x l1 IH]; intros s; [done|]. cbn [each foldr]. unfold eff_bind.
  pose proof (Hf x s) as H1. destruct (f x s) as [r s1]. cbn in H1. subst r. apply IH.
Qed.

(** The accounts whose switch is due. *)
Definition due_accounts (now : Z) (s : t) : list string := Dms.user_id <$> where_ (personal_due now) (switches s).
(** The state after the personal switches. *)
Definition after_switches (dead : string) (now : Z) (s : t) : t := (each (sweep_switch RET outage dead now) (due_accounts now s) s).2.

Lemma sweep_run unreachable dead now s :
  existsb (owner_due now) (switches s) = false →
  sweep unreachable dead now s = each (sweep_deletion RET outage dead now) (due_deletions now (after_switches dead now s)) (after_switches dead now s).
Proof.
  intros Ho. unfold checkExpiredDeadManSwitches. read_store. rewrite Ho. fold (due_accounts now s). unfold eff_bind, after_switches.
  pose proof (each_ok (sweep_switch RET outage dead now) (due_accounts now s) s (sweep_switch_ok dead now)) as E.
  destruct (each _ _ s) as [r s1]. cbn in E. by subst r.
Qed.

Lemma due_rows uid now s : uid ∈ due_accounts now s ↔ existsb (personal_due now) (rows_of uid s) = true.
Proof.
  unfold due_accounts, rows_of. rewrite list_elem_of_fmap, existsb_exists. split.
  - intros (r & -> & Hr). apply elem_of_where in Hr as [Hd Hr]. exists r. split; [|done].
    apply list_elem_of_In, elem_of_where. by rewrite String.eqb_refl.
  - intros (r & Hr & Hd). apply list_elem_of_In, elem_of_where in Hr as [Hu Hr]. apply String.eqb_eq in Hu as <-.
    exists r. split; [done|]. by apply elem_of_where.
Qed.

Lemma due_deletion_at now s x : x ∈ due_deletions now s ↔ scheduled_deletion_at s !! x.1 = Some x.2 ∧ x.2 <= now.
Proof.
  unfold due_deletions. rewrite elem_of_where, Z.leb_le. destruct x as [u a]. rewrite elem_of_map_to_list. cbn. tauto.
Qed.

(** Nothing of the account is due at [now]. *)
Definition not_due (uid : string) (now : Z) (v : bool * list Node.t * list Dms.t * option Z) : Prop :=
  existsb (personal_due now) v.1.2 = false ∧ (∀ at_, v.2 = Some at_ → now < at_).

Lemma sweep_not_due unreachable uid dead now s :
  existsb (owner_due now) (switches s) = false → not_due uid now (view uid s) →
  view uid (sweep unreachable dead now s).2 = view uid s.
Proof.
  intros Ho [Hr Hs]. rewrite sweep_run by done. cbn in Hr, Hs.
  assert (view uid (after_switches dead now s) = view uid s) as E.
  { apply (each_invariant (λ s', view uid s' = view uid s)); [|done]. intros x s1 Hx <-. apply sweep_switch_other.
    intros <-. apply due_rows in Hx. congruence. }
  apply (each_invariant (λ s', view uid s' = view uid s)); [|done]. intros x s1 Hx <-. apply sweep_deletion_other.
  intros ->. apply due_deletion_at in Hx as [Hx Hle]. injection E as _ _ _ E. rewrite E in Hx. specialize (Hs _ Hx). lia.
Qed.

(** ** The requests and the timer *)

Context (getTime : jsval → option Z) (bcrypt_hash : string → string) (bcrypt_compare : string → string → bool).
Context (sha256 : string → string) (unreachable : string → bool).

Inductive op :=
  | SelfDestruct (u : Principal.t) (body : jsval) (tok : option string) (dead : string) (now : Z)
  | Schedule (u : Principal.t) (body : jsval) (now : Z)
  | Cancel (u : Principal.t)
  | Setup (u : Principal.t) (body : jsval) (rnd : string) (now : Z)
  | Unlock (u : Principal.t) (body : jsval) (now : Z)
  | Beat (u : Principal.t) (now : Z)
  | OwnerSetup (u : Principal.t) (body : jsval) (now : Z)
  | OwnerBeat (u : Principal.t) (passphrase : string) (now : Z)
  | OwnerTrigger (u : Principal.t) (phrase : jsval) (password : string)
  | Sweep (dead : string) (now : Z).

Definition perform (o : op) (s : t) : t :=
  match o with
  | SelfDestruct u body token dead now => (post_self_destruct RET outage u body token dead now s).2
  | Schedule u body now => (post_schedule getTime u body now s).2
  | Cancel u => (post_cancel u s).2
  | Setup u body rnd now => (post_personal_setup bcrypt_hash u body rnd now s).2
  | Unlock u body now => (handlePersonalUnlock bcrypt_compare sha256 u body now s).2
  | Beat u now => (post_personal_heartbeat u now s).2
  | OwnerSetup u body now => (post_owner_setup bcrypt_hash sha256 u body now s).2
  | OwnerBeat u p now => (post_owner_heartbeat bcrypt_compare sha256 u p now s).2
  | OwnerTrigger u phrase pw => (post_owner_trigger bcrypt_compare unreachable u phrase pw s).2
  | Sweep dead now => (sweep unreachable dead now s).2
  end.

Definition run (l : list op) (s : t) : t := foldl (λ s o, perform o s) s l.

(** *** What a handler leaves is what its engine call leaves *)

Lemma answering_state {A} known (m : eff t A) s : (answering known m s).2 = (m s).2.
Proof.
  unfold answering. destruct (m s) as [[a|[st|] msg] s']; [done| |done]. by destruct (List.find _ known).
Qed.

Lemma super_keeps {A} (P : t → Prop) u (k : eff t (verdict A)) s : P s → P (k s).2 → P (super_only u k s).2.
Proof. intros H1 H2. unfold super_only. by destruct (AuthGuards.requireRole _ _). Qed.

(** *** The tables' constraints *)

(** A row the columns' CHECKs and the engine allow. *)
Record valid_row (r : Dms.t) : Prop := {
  vr_status : Dms.status r ∈ ["active"; "triggered"];
  vr_tier : Dms.switch_tier r ∈ [personal; owner];
  vr_interval : 0 <= Dms.heartbeat_interval_seconds r < 2 ^ 63;
  vr_mode : ∃ m, Dms.steganography_mode r = Some m ∧ m ∈ MODES;
}.

Definition key (r : Dms.t) : string * string := (Dms.user_id r, Dms.switch_tier r).

Record wf (s : t) : Prop := {
  wf_keys : NoDup (key <$> switches s);
  wf_ids : NoDup (Dms.id <$> switches s);
  wf_rows : ∀ r, r ∈ switches s → valid_row r ∧ user_row (Dms.user_id r) s = true;
  wf_schedule : ∀ uid at_, scheduled_deletion_at s !! uid = Some at_ → user_row uid s = true;
}.

Lemma wf_frame s s' :
  Db.users (db s') = Db.users (db s) → switches s' = switches s → scheduled_deletion_at s' = scheduled_deletion_at s → wf s → wf s'.
Proof. intros E1 E2 E3 [H1 H2 H3 H4]. split; unfold user_row; rewrite ?E1, ?E2, ?E3; done. Qed.

Lemma update_fmap {A B} (g : A → B) (p : A → bool) f l :
  (∀ x, p x = true → g (f x) = g x) → g <$> update_where p f l = g <$> l.
Proof.
  intros H. unfold update_where. rewrite <- list_fmap_compose. apply list_fmap_ext.
  intros i x _. simpl. destruct (p x) eqn:E; [by apply H|done].
Qed.

(** What the process holds in memory is outside the tables. *)
Lemma wf_memory f s : wf s → wf (s <| inMemoryDms ::= f |>).
Proof. by apply wf_frame. Qed.
Lemma wf_kills f s : wf s → wf (s <| inMemoryScheduledKills ::= f |>).
Proof. by apply wf_frame. Qed.
Lemma wf_owner_memory f s : wf s → wf (s <| inMemoryOwnerDms ::= f |>).
Proof. by apply wf_frame. Qed.

(** An UPDATE that keeps the keys. *)
Lemma wf_update p f s :
  (∀ r, p r = true → key (f r) = key r ∧ Dms.id (f r) = Dms.id r ∧ (valid_row r → valid_row (f r))) →
  wf s → wf (s <| switches ::= update_where p f |>).
Proof.
  intros Hf [H1 H2 H3 H4]. split; [| | |done].
  - change (NoDup (key <$> update_where p f (switches s))). rewrite update_fmap; [done|]. intros x Hp. by apply Hf.
  - change (NoDup (Dms.id <$> update_where p f (switches s))). rewrite update_fmap; [done|]. intros x Hp. by apply Hf.
  - intros r Hr. apply elem_of_update in Hr as (x & Hx & ->). destruct (H3 x Hx) as [Hv Hu]. destruct (p x) eqn:E; [|done].
    destruct (Hf x E) as ([= Eu _] & _ & Hval). split; [by apply Hval|]. by rewrite Eu.
Qed.

Lemma user_row_elem uid s : user_row uid s = true ↔ uid ∈ User.id <$> Db.users (db s).
Proof.
  unfold user_row. rewrite existsb_exists, list_elem_of_fmap. split.
  - intros (u & Hu & E). apply String.eqb_eq in E as <-. exists u. by rewrite list_elem_of_In.
  - intros (u & -> & Hu). exists u. by rewrite <- list_elem_of_In, String.eqb_refl.
Qed.

Lemma wf_destroy_rows uid s : wf s → wf (destroy_rows uid s).
Proof.
  intros [H1 H2 H3 H4].
  assert (∀ x, x ≠ uid → user_row x s = true → user_row x (destroy_rows uid s) = true) as Hu.
  { intros x Hx. pose proof (view_destroyed x uid s) as E. rewrite (bool_decide_eq_false_2 _ Hx) in E. injection E as -> _ _ _. done. }
  split.
  - by apply where_NoDup.
  - by apply where_NoDup.
  - intros r Hr. change (r ∈ delete_where (λ r, (Dms.user_id r =? uid)%string) (switches s)) in Hr.
    apply elem_of_delete in Hr as [Hr Hne]. apply String.eqb_neq in Hne. destruct (H3 r Hr). auto.
  - intros x a. change (scheduled_deletion_at (destroy_rows uid s)) with (delete uid (scheduled_deletion_at s)).
    rewrite lookup_delete_Some. intros [Hx Ha]. eauto.
Qed.

Lemma wf_destroy uid token dead now s : wf s → wf (destroy uid token dead now s).2.
Proof.
  intros Hs. destruct (destroy_run uid token dead now s) as (d & bl & [Hf _ _] & ->).
  apply DuressFacts.fleet_tables in Hf as (_ & _ & _ & _ & Eu & _).
  assert (wf (revoked_at d bl s)) as H1 by (by eapply wf_frame; [..|exact Hs]). destruct (destructible _ _ _); [|done].
  by eapply wf_frame; [..|apply (wf_destroy_rows uid), H1].
Qed.

Lemma wf_upsert r s s' : valid_row r → wf s → upsert_switch r s = Some s' → wf s'.
Proof.
  intros Hv Hs. unfold upsert_switch. destruct (user_row _ s) eqn:Eu; [|done]. cbn [negb].
  destruct (existsb (is_switch _ _) _) eqn:Ek.
  { intros E%(inj Some). subst s'. apply wf_update; [|done]. intros x Hx. apply is_switch_eq in Hx as [E1 E2]. unfold key. cbn.
    rewrite E1, E2. split; [done|]. split; [done|]. intros _. destruct Hv. by split. }
  destruct (existsb (λ x, (Dms.id x =? Dms.id r)%string) (switches s)) eqn:Ei; [done|]. intros E%(inj Some). subst s'. destruct Hs as [H1 H2 H3 H4].
  split; [| | |done].
  - change (NoDup (key <$> switches s ++ [r])). rewrite fmap_app. apply NoDup_app. split; [done|]. split; [|apply NoDup_singleton].
    intros k (x & -> & Hx)%list_elem_of_fmap Hk. apply list_elem_of_singleton in Hk. injection Hk as E1 E2.
    apply list_elem_of_In in Hx. rewrite (proj2 (existsb_exists _ _)) in Ek; [done|]. exists x. split; [done|]. by apply is_switch_eq.
  - change (NoDup (Dms.id <$> switches s ++ [r])). rewrite fmap_app. apply NoDup_app. split; [done|]. split; [|apply NoDup_singleton].
    intros k (x & -> & Hx)%list_elem_of_fmap Hk. apply list_elem_of_singleton in Hk.
    apply list_elem_of_In in Hx. rewrite (proj2 (existsb_exists _ _)) in Ei; [done|]. exists x. split; [done|]. by apply String.eqb_eq.
  - intros x Hx. apply elem_of_app in Hx as [Hx|Hx]; [by apply H3|]. apply list_elem_of_singleton in Hx as ->. done.
Qed.

Lemma interval_range n i : bad_interval n = false → bigint n = Some i → 0 <= i < 2 ^ 63.
Proof.
  unfold bad_interval, bigint, num_leb. intros Hb Hi. destruct n as [|b|m e]; [done|done|]. cbn [isNaN orb] in Hb.
  destruct (isInteger (Fin m e)) eqn:E; [|done]. cbn [andb] in Hi. cbn [isInteger] in E. apply Z.leb_le in E.
  apply orb_false_iff in Hb as [Hb _]. change (of_Z 0) with (Fin 0 0) in Hb. cbn [num_ltb] in Hb. rewrite Z.min_r in Hb by lia.
  rewrite !Z.sub_0_r, Z.shiftl_0_l in Hb. change (to_Z (Fin m e)) with (Z.shiftl m e) in Hi.
  destruct (_ && _) eqn:E1 in Hi; [|done]. injection Hi as <-. b2p. lia.
Qed.

Lemma wf_set_status p st s : st ∈ ["active"; "triggered"] → wf s → wf (s <| switches ::= update_where p (set_status st) |>).
Proof. intros Hst. apply wf_update. intros r _. split; [done|]. split; [done|]. intros []. by split. Qed.

Lemma wf_beat p now next s : wf s → wf (s <| switches ::= update_where p (beat now next) |>).
Proof. apply wf_update. intros r _. split; [done|]. split; [done|]. intros []. by split. Qed.

Lemma wf_setup u body rnd now s : wf s → wf (post_personal_setup bcrypt_hash u body rnd now s).2.
Proof.
  intros Hs. unfold post_personal_setup. destruct (setup_refusal body); [done|]. rewrite answering_state. unfold setupPersonalDMS.
  destruct (valid_passphrase _); [|done]. destruct (bad_interval _) eqn:Eb; [done|]. destruct (deadline _ _); [|done].
  unfold eff_bind, modify. cbn [snd]. apply wf_memory. destruct (bigint _) as [i|] eqn:Ei; [|done].
  destruct (bool_decide _ && _) eqn:Em; [|done]. destruct (upsert_switch _ s) eqn:Eu; [|done]. apply (wf_upsert _ s _) in Eu; [done| |done].
  apply andb_true_iff in Em as [Em _]. apply bool_decide_eq_true in Em. split; [left|left| |by eexists].
  by eapply interval_range.
Qed.

Lemma wf_owner_setup u body now s : wf s → wf (post_owner_setup bcrypt_hash sha256 u body now s).2.
Proof.
  intros Hs. unfold post_owner_setup. apply super_keeps; [done|].
  destruct (setup_refusal body); [done|]. rewrite answering_state. unfold setupOwnerDMS.
  destruct (valid_passphrase _); [|done]. destruct (bad_interval _) eqn:Eb; [done|]. destruct (deadline _ _); [|done].
  unfold eff_bind, modify. cbn [snd]. apply (wf_owner_memory (λ _, _)). destruct (bigint _) as [i|] eqn:Ei; [|done].
  destruct (_ <=? 512); [|done]. destruct (upsert_switch _ s) eqn:Eu; [|done]. apply (wf_upsert _ s _) in Eu; [done| |done].
  split; [left|right; left|by eapply interval_range|]. exists "shadow_password". split; [done|]. right; right; left.
Qed.

Lemma wf_reschedule uid at_ s : user_row uid s = true → wf s → wf (s <| scheduled_deletion_at ::= <[uid := at_]> |>).
Proof.
  intros Hu [H1 H2 H3 H4]. split; [done|done|done|]. intros x a H. change (<[uid := at_]> (scheduled_deletion_at s) !! x = Some a) in H.
  apply lookup_insert_Some in H as [[<- _]|[_ H]]; [done|by eapply H4].
Qed.

Lemma wf_schedule_request u body now s : wf s → wf (post_schedule getTime u body now s).2.
Proof.
  intros Hs. unfold post_schedule. destruct (valid_schedule _ _ _); [|done]. rewrite answering_state. unfold scheduleUserDestruction.
  destruct (valid_schedule _ _ _); [|done]. unfold eff_bind, modify. cbn [snd eff_ret]. apply wf_kills.
  destruct (user_row _ s) eqn:Eu; [by apply wf_reschedule|done].
Qed.

Lemma wf_unschedule uid s : wf s → wf (s <| scheduled_deletion_at ::= delete uid |>).
Proof.
  intros [H1 H2 H3 H4]. split; [done|done|done|]. intros x a H. change (delete uid (scheduled_deletion_at s) !! x = Some a) in H.
  apply lookup_delete_Some in H as [_ H]. by eapply H4.
Qed.

Lemma wf_heartbeat u now s : wf s → wf (post_personal_heartbeat u now s).2.
Proof.
  intros Hs. unfold post_personal_heartbeat. rewrite answering_state. unfold heartbeatPersonalDMS. read_store.
  destruct (load_switch _ s); [|done]. destruct (deadline _ _); [|done]. destruct (existsb _ _); unfold eff_bind, modify; cbn [snd eff_ret throw].
  - by apply wf_memory, wf_beat.
  - by apply wf_memory.
Qed.

Lemma wf_owner_beat u p now s : wf s → wf (post_owner_heartbeat bcrypt_compare sha256 u p now s).2.
Proof.
  intros Hs. unfold post_owner_heartbeat. apply super_keeps; [done|]. destruct (p =? "")%string eqn:E; [done|].
  rewrite answering_state. unfold heartbeatOwnerDMS. rewrite E. read_store. destruct (match newest_owner s with Some _ => _ | None => _ end) as [h i].
  destruct (negb _ && negb _); [done|]. destruct (deadline _ _); [|done]. unfold eff_bind, modify. cbn [snd].
  destruct (negb _ && negb _); [by apply wf_beat|]. cbn [snd eff_ret]. by apply wf_owner_memory, wf_beat.
Qed.

Lemma wf_empty_table tbl s : wf s → wf (empty_table tbl s).
Proof.
  intros [H1 H2 H3 H4]. unfold empty_table. repeat destruct (tbl =? _)%string; [| | | |done].
  2,3: by split.
  - split; [apply NoDup_nil_2|apply NoDup_nil_2| |done]. intros r Hr. by apply elem_of_nil in Hr.
  - split; [apply NoDup_nil_2|apply NoDup_nil_2| |]; [intros r Hr; by apply elem_of_nil in Hr|]. intros uid at_ H. change ((∅ : gmap string Z) !! uid = Some at_) in H. by rewrite lookup_empty in H.
Qed.

Lemma wf_wipe s : wf s → wf (executeOwnerGlobalCascadingWipe unreachable s).2.
Proof.
  intros Hs. unfold executeOwnerGlobalCascadingWipe. unfold eff_bind, modify. cbn [snd eff_ret].
  apply wf_owner_memory, (wf_kills (λ _, _)), (wf_memory (λ _, _)).
  generalize TABLES. intros l. revert s Hs. induction l as [|tbl l IH]; intros s Hs; [done|]. cbn [foldl]. apply IH.
  destruct (unreachable tbl); [done|by apply wf_empty_table].
Qed.

Lemma wf_sweep_switch dead now uid s : wf s → wf (sweep_switch RET outage dead now uid s).2.
Proof.
  intros Hs. rewrite sweep_switch_run. destruct (existsb _ _); [|done]. rewrite fire_run.
  pose proof (wf_destroy uid None dead now _ (wf_set_status (λ r, is_switch uid personal r && due now r) "triggered" s ltac:(right; left) Hs)) as H.
  destruct (destructible _ _ _); [exact H|]. apply wf_set_status; [left|exact H].
Qed.

Lemma wf_sweep_deletion dead now x s : wf s → wf (sweep_deletion RET outage dead now x s).2.
Proof.
  intros Hs. unfold sweep_deletion, claim_deletion. unfold eff_bind, get. case_bool_decide as E; [|done].
  unfold modify at 1, eff_ret at 1. pose proof (wf_destroy x.1 None dead now _ (wf_unschedule x.1 s Hs)) as H.
  destruct (destroy x.1 None dead now _) as [[[]|] s2]; [exact H|]. unfold release_deletion, modify. cbn [snd] in *.
  destruct (user_row x.1 s2 && _) eqn:Eu; [|done]. apply andb_true_iff in Eu as [Eu _].
  by apply wf_reschedule.
Qed.

Lemma sweep_owner dead now s :
  existsb (owner_due now) (switches s) = true →
  (sweep unreachable dead now s).2 =
  (executeOwnerGlobalCascadingWipe unreachable (s <| switches ::= update_where (owner_due now) (set_status "triggered") |>)).2.
Proof.
  intros Eo. unfold checkExpiredDeadManSwitches. read_store. rewrite Eo. unfold eff_bind at 1, modify at 1. unfold eff_bind.
  by destruct (executeOwnerGlobalCascadingWipe _ _) as [[] ?].
Qed.

Lemma wf_sweep dead now s : wf s → wf (sweep unreachable dead now s).2.
Proof.
  intros Hs. destruct (existsb (owner_due now) (switches s)) eqn:Eo.
  - rewrite sweep_owner by done. apply wf_wipe, wf_set_status; [right; left|done].
  - rewrite sweep_run by done. apply (each_invariant wf); [intros x s1 _; apply wf_sweep_deletion|].
    apply (each_invariant wf); [intros x s1 _; apply wf_sweep_switch|done].
Qed.

Lemma wf_trigger u phrase pw s : wf s → wf (post_owner_trigger bcrypt_compare unreachable u phrase pw s).2.
Proof.
  intros Hs. unfold post_owner_trigger. apply (super_keeps wf); [done|]. destruct (negb (is_text phrase _)); [done|]. destruct (pw =? "")%string; [done|].
  read_store. destruct (own_hash _ s); [|done]. destruct (negb _ && _); [|done]. rewrite answering_state. by apply wf_wipe.
Qed.

Lemma op_wf o s : wf s → wf (perform o s).
Proof.
  intros Hs. destruct o; cbn [perform].
  - unfold post_self_destruct. destruct (_ && _); [|done]. rewrite answering_state. by apply wf_destroy.
  - by apply wf_schedule_request.
  - unfold post_cancel. rewrite answering_state. by apply wf_kills, wf_unschedule.
  - by apply wf_setup.
  - unfold handlePersonalUnlock. rewrite answering_state. unfold unlockPersonalDMS. read_store.
    destruct (load_switch _ s); [|done]. by destruct (opens _ _ _ _).
  - by apply wf_heartbeat.
  - by apply wf_owner_setup.
  - by apply wf_owner_beat.
  - by apply wf_trigger.
  - by apply wf_sweep.
Qed.

(** *** A request of another account *)

Lemma upsert_other uid r s : Dms.user_id r ≠ uid → view uid (default s (upsert_switch r s)) = view uid s.
Proof.
  intros Hne. unfold upsert_switch. destruct (user_row _ s); [|done]. cbn [negb]. destruct (existsb (is_switch _ _) _).
  - unfold default. unfold view. unfold rows_of. f_equal. f_equal. apply where_update_none. intros x _ Hx. apply is_switch_eq in Hx as [E _].
    cbn. rewrite E. by rewrite (proj2 (String.eqb_neq _ _) Hne).
  - destruct (existsb _ _); [done|]. unfold default, view, rows_of. f_equal. f_equal.
    change (where_ (λ r, (Dms.user_id r =? uid)%string) (switches s ++ [r]) = where_ (λ r, (Dms.user_id r =? uid)%string) (switches s)).
    rewrite where_app, where_cons, (proj2 (String.eqb_neq _ _) Hne), where_nil. apply app_nil_r.
Qed.

Lemma view_memory uid f s : view uid (s <| inMemoryDms ::= f |>) = view uid s.
Proof. done. Qed.
Lemma view_owner_memory uid f s : view uid (s <| inMemoryOwnerDms ::= f |>) = view uid s.
Proof. done. Qed.

Lemma setup_other uid u body rnd now s :
  Principal.id u ≠ uid → view uid (post_personal_setup bcrypt_hash u body rnd now s).2 = view uid s.
Proof.
  intros Hne. unfold post_personal_setup. destruct (setup_refusal body); [done|]. rewrite answering_state. unfold setupPersonalDMS.
  destruct (valid_passphrase _); [|done]. destruct (bad_interval _); [done|]. destruct (deadline _ _); [|done].
  unfold eff_bind, modify. cbn [snd]. rewrite view_memory. destruct (bigint _); [|done]. destruct (_ && _); [|done]. by apply upsert_other.
Qed.

Lemma owner_setup_other uid u body now s :
  Principal.id u ≠ uid → view uid (post_owner_setup bcrypt_hash sha256 u body now s).2 = view uid s.
Proof.
  intros Hne. unfold post_owner_setup. apply (super_keeps (λ s', view uid s' = view uid s)); [done|].
  destruct (setup_refusal body); [done|]. rewrite answering_state. unfold setupOwnerDMS.
  destruct (valid_passphrase _); [|done]. destruct (bad_interval _); [done|]. destruct (deadline _ _); [|done].
  unfold eff_bind, modify. cbn [snd]. rewrite (view_owner_memory _ (λ _, _)). destruct (bigint _); [|done]. destruct (_ <=? 512); [|done].
  by apply upsert_other.
Qed.

Lemma schedule_other uid u body now s : Principal.id u ≠ uid → view uid (post_schedule getTime u body now s).2 = view uid s.
Proof.
  intros Hne. unfold post_schedule. destruct (valid_schedule _ _ _); [|done]. rewrite answering_state. unfold scheduleUserDestruction.
  destruct (valid_schedule _ _ _); [|done]. unfold eff_bind, modify. cbn [snd eff_ret].
  destruct (user_row _ s); [|done]. apply view_fields; try done. apply (lookup_insert_ne (M := gmap string)); done.
Qed.

Lemma heartbeat_other uid u now s : Principal.id u ≠ uid → view uid (post_personal_heartbeat u now s).2 = view uid s.
Proof.
  intros Hne. unfold post_personal_heartbeat. rewrite answering_state. unfold heartbeatPersonalDMS. read_store.
  destruct (load_switch _ s); [|done]. destruct (deadline _ _); [|done]. destruct (existsb _ _); unfold eff_bind, modify; cbn [snd eff_ret throw]; [|done].
  rewrite view_memory. eapply view_other; [|done|by apply not_eq_sym, Hne].
  intros r Hr. apply andb_true_iff in Hr as [Hr _]. by apply is_switch_eq in Hr as [-> _].
Qed.

(** Who makes the request. *)
Definition actor (o : op) : option string :=
  match o with
  | SelfDestruct u _ _ _ _ | Schedule u _ _ | Cancel u | Setup u _ _ _ | Unlock u _ _ | Beat u _ | OwnerSetup u _ _ => Some (Principal.id u)
  | _ => None
  end.

Lemma perform_other uid x o s : actor o = Some x → x ≠ uid → view uid (perform o s) = view uid s.
Proof.
  intros Ha Hne. destruct o; cbn in Ha; simplify_eq; cbn [perform].
  - unfold post_self_destruct. destruct (_ && _); [|done]. rewrite answering_state, destroy_view.
    by rewrite bool_decide_eq_false_2 by (by apply not_eq_sym).
  - by apply schedule_other.
  - unfold post_cancel. rewrite answering_state. apply view_fields; try done. apply (lookup_delete_ne (M := gmap string)); done.
  - by apply setup_other.
  - unfold handlePersonalUnlock. rewrite answering_state. unfold unlockPersonalDMS. read_store.
    destruct (load_switch _ s); [|done]. by destruct (opens _ _ _ _).
  - by apply heartbeat_other.
  - by apply owner_setup_other.
Qed.

(** ** A check-in *)

Definition personal_active (r : Dms.t) : bool := (Dms.switch_tier r =? personal)%string && is_active r.

(** The account is there, no deletion is scheduled, and its switch is armed until
    [next]. *)
Record held_until (next : Z) (v : bool * list Node.t * list Dms.t * option Z) : Prop := {
  hu_account : v.1.1.1 = true;
  hu_schedule : v.2 = None;
  hu_armed : where_ personal_active v.1.2 ≠ [];
  hu_deadline : ∀ r, r ∈ where_ personal_active v.1.2 → Dms.next_deadline_at r = next;
}.

(** The history holds no request of the account itself, no global wipe, and no sweep
    later than [next]. *)
Fixpoint calm (uid : string) (next : Z) (l : list op) (s : t) : bool :=
  match l with
  | [] => true
  | o :: l' =>
      match o with
      | OwnerTrigger _ _ _ => false
      | OwnerBeat _ _ _ => true
      | Sweep _ now => (now <=? next) && negb (existsb (owner_due now) (switches s))
      | _ => bool_decide (actor o ≠ Some uid)
      end && calm uid next l' (perform o s)
  end.

Lemma held_not_due uid next now s : held_until next (view uid s) → now <= next → not_due uid now (view uid s).
Proof.
  intros [_ Hs _ Hd] Hle. split; [|by rewrite Hs]. apply not_true_iff_false. intros H. apply existsb_exists in H as (r & Hr & Hdue).
  apply list_elem_of_In in Hr. unfold personal_due, due in Hdue. b2p.
  specialize (Hd r). rewrite elem_of_where in Hd. unfold personal_active in Hd.
  assert (Dms.next_deadline_at r = next) by (apply Hd; by rewrite andb_true_iff, String.eqb_eq). lia.
Qed.

(** The owner's check-in touches the owner's switches only. *)
Lemma held_owner_beat uid next now' next' s :
  held_until next (view uid s) → held_until next (view uid (s <| switches ::= update_where owner_row (beat now' next') |>)).
Proof.
  intros [H1 H2 H3 H4]. unfold view in *. cbn [fst snd] in *.
  assert (where_ personal_active (rows_of uid (s <| switches ::= update_where owner_row (beat now' next') |>)) =
          where_ personal_active (rows_of uid s)) as E.
  { rewrite rows_of_update by done. apply where_update_none. intros r _ Hr. unfold owner_row, personal_active in *. b2p. cbn.
    by rewrite H. }
  split; [done|done|..]; cbn [fst snd]; by rewrite E.
Qed.

Lemma calm_step uid next o l s :
  calm uid next (o :: l) s = true → held_until next (view uid s) → held_until next (view uid (perform o s)).
Proof.
  intros Hc Hh. cbn [calm] in Hc. apply andb_true_iff in Hc as [Hc _].
  assert (∀ x, actor o = Some x → bool_decide (actor o ≠ Some uid) = true → view uid (perform o s) = view uid s) as Ho.
  { intros x Hx Hne. apply bool_decide_eq_true in Hne. apply (perform_other uid x); congruence. }
  destruct o; try (rewrite (Ho _ eq_refl Hc); exact Hh); [| |]; cbn [perform].
  - unfold post_owner_heartbeat. apply (super_keeps (λ s', held_until next (view uid s'))); [done|]. destruct (passphrase =? "")%string eqn:E; [done|].
    rewrite answering_state. unfold heartbeatOwnerDMS. rewrite E. read_store. destruct (match newest_owner s with Some _ => _ | None => _ end) as [h i].
    destruct (negb _ && negb _); [done|]. destruct (deadline _ _) as [z|]; [|done]. unfold eff_bind, modify. cbn [snd].
    destruct (negb _ && negb _); [by apply held_owner_beat|]. cbn [snd eff_ret]. rewrite view_owner_memory. by apply held_owner_beat.
  - done.
  - apply andb_true_iff in Hc as [Hc Ho']. apply Z.leb_le in Hc. apply negb_true_iff in Ho'.
    rewrite sweep_not_due; [done|done|by eapply held_not_due].
Qed.

Lemma calm_run uid next l s : calm uid next l s = true → held_until next (view uid s) → held_until next (view uid (run l s)).
Proof.
  revert s. induction l as [|o l IH]; intros s Hc Hh; [done|]. cbn [run foldl]. apply IH.
  - cbn [calm] in Hc. by apply andb_true_iff in Hc as [_ Hc].
  - by eapply calm_step.
Qed.

Lemma beat_held uid now d next x s s' :
  load_switch uid s = Some d → deadline now (l_interval d) = Some next → user_row uid s = true → scheduled_deletion_at s !! uid = None →
  heartbeatPersonalDMS uid now s = (Ok x, s') → held_until next (view uid s').
Proof.
  intros Hl Hd Hu Hs. unfold heartbeatPersonalDMS. read_store. rewrite Hl, Hd. destruct (existsb _ _) eqn:Ee; [|done].
  unfold eff_bind, modify, eff_ret. intros [= _ <-]. rewrite view_memory. split; [done|done|..].
  - cbn [view fst snd]. rewrite rows_of_update by done. apply existsb_exists in Ee as (r & Hr & Ha). apply list_elem_of_In in Hr.
    apply andb_true_iff in Ha as [Hi Ha]. pose proof (proj1 (is_switch_eq _ _ _) Hi) as [E1 E2].
    intros En. assert (beat now next r ∈ ([] : list Dms.t)) as Hin; [|by apply elem_of_nil in Hin].
    rewrite <- En. apply elem_of_where. split; [unfold personal_active, is_active in *; cbn; by rewrite E2, Ha|].
    apply elem_of_update. exists r. rewrite Hi, Ha. split; [|done]. apply elem_of_where. by rewrite E1, String.eqb_refl.
  - cbn [view fst snd]. rewrite rows_of_update by done. intros r Hr. apply elem_of_where in Hr as [Hp Hr].
    apply elem_of_update in Hr as (y & Hy & ->). apply elem_of_where in Hy as [Ho _].
    destruct (is_switch uid personal y && is_active y) eqn:E; [done|]. unfold personal_active, is_switch in *. by rewrite <- andb_assoc, Ho, Hp in E.
Qed.

(** ** Where the database answers *)

(** No device appears, no revoked key is forgotten. *)
Record kept (now : Z) (s s' : t) : Prop := {
  kp_nodes : ∀ n, n ∈ Db.nodes (db s') → n ∈ Db.nodes (db s);
  kp_listed : ∀ key, listed now key (db s) → listed now key (db s');
}.

Lemma kept_refl now s : kept now s s.
Proof. by split. Qed.
Lemma kept_trans now s1 s2 s3 : kept now s1 s2 → kept now s2 s3 → kept now s1 s3.
Proof. intros [H1 H2] [H3 H4]. split; auto. Qed.

Section Steady.
Context (steady : ∀ d, outage d = None).

Lemma destroy_kept uid token dead now s :
  kept now s (destroy uid token dead now s).2 ∧ barred uid now s (db (destroy uid token dead now s).2).
Proof.
  destruct (destroy_run uid token dead now s) as (d & bl & [Hf Hb Hl] & ->). specialize (Hb (steady _)). specialize (Hl (steady _)).
  apply DuressFacts.fleet_tables in Hf as (En & _). destruct (destructible _ _ _); cbn [snd].
  - split; [split|]; [|done|done]. intros n Hn.
    change (n ∈ delete_where (λ n, (Node.user_id n =? uid)%string) (Db.nodes d)) in Hn. apply elem_of_delete in Hn as [Hn _]. by rewrite <- En.
  - split; [split|]; [|done|done]. intros n Hn. by rewrite <- En.
Qed.

Lemma sweep_switch_kept dead now uid s : kept now s (sweep_switch RET outage dead now uid s).2.
Proof.
  rewrite sweep_switch_run. destruct (existsb _ _); [|apply kept_refl]. rewrite fire_run.
  destruct (destroy_kept uid None dead now (claimed uid now s)) as [[H1 H2] _]. by destruct (destructible _ _ _).
Qed.

Lemma sweep_deletion_kept dead now x s : kept now s (sweep_deletion RET outage dead now x s).2.
Proof.
  unfold sweep_deletion, claim_deletion. unfold eff_bind, get. case_bool_decide; [|apply kept_refl].
  unfold modify at 1, eff_ret at 1. set (s1 := s <| scheduled_deletion_at ::= _ |>).
  destruct (destroy_kept x.1 None dead now s1) as [[H1 H2] _]. destruct (destroy x.1 None dead now s1) as [[[]|] s2]; [done|].
  unfold release_deletion, modify. cbn [snd] in *. by destruct (user_row x.1 s2 && _).
Qed.

(** No device has the text written over the keys. *)
Definition fresh (dead : string) (s : t) : Prop := ∀ n, n ∈ Db.nodes (db s) → Node.public_key n ≠ dead.

Lemma fresh_destructible uid dead s : fresh dead s → (length (nodes_of uid s) <= 1)%nat → destructible uid dead s = true.
Proof.
  intros Hf Hl. unfold destructible. rewrite steady. unfold overwrite_ok. rewrite (proj2 (Nat.leb_le _ _) Hl). cbn [andb].
  destruct (existsb _ (Db.nodes (db s))) eqn:E; [|done]. apply existsb_exists in E as (n & Hn & Hk). b2p.
  apply list_elem_of_In in Hn. by apply Hf in Hn.
Qed.

Lemma sweep_switch_fires dead now uid s :
  existsb (personal_due now) (rows_of uid s) = true → fresh dead s → (length (nodes_of uid s) <= 1)%nat →
  view uid (sweep_switch RET outage dead now uid s).2 = gone ∧ barred uid now s (db (sweep_switch RET outage dead now uid s).2).
Proof.
  intros Hd Hf Hl. rewrite sweep_switch_run, Hd, fire_run. set (s1 := claimed uid now s).
  rewrite (fresh_destructible uid dead s1) by done. cbn [snd]. rewrite destroy_view, (fresh_destructible uid dead s1) by done.
  rewrite bool_decide_eq_true_2 by done. split; [done|]. by destruct (destroy_kept uid None dead now s1) as [_ Hb].
Qed.

Lemma sweep_switch_gone dead now uid x s : view uid s = gone → view uid (sweep_switch RET outage dead now x s).2 = gone.
Proof.
  intros Hg. destruct (decide (uid = x)) as [<-|Hne]; [|by rewrite sweep_switch_other].
  rewrite sweep_switch_run. pose proof Hg as [= _ _ -> _]. exact Hg.
Qed.

Lemma sweep_deletion_gone dead now uid x s : view uid s = gone → view uid (sweep_deletion RET outage dead now x s).2 = gone.
Proof.
  intros Hg. destruct (decide (uid = x.1)) as [->|Hne]; [|by rewrite sweep_deletion_other].
  unfold sweep_deletion, claim_deletion. unfold eff_bind, get. rewrite bool_decide_eq_false_2; [done|]. injection Hg as _ _ _ ->. done.
Qed.

Lemma sweep_fires dead now uid s :
  existsb (owner_due now) (switches s) = false → existsb (personal_due now) (rows_of uid s) = true →
  fresh dead s → (length (nodes_of uid s) <= 1)%nat →
  view uid (sweep unreachable dead now s).2 = gone ∧ barred uid now s (db (sweep unreachable dead now s).2).
Proof.
  intros Ho Hd Hf Hl. rewrite sweep_run by done. pose proof (proj2 (due_rows uid now s) Hd) as Hin.
  apply list_elem_of_split_l in Hin as (l1 & l2 & El & Hn).
  set (s1 := (each (sweep_switch RET outage dead now) l1 s).2).
  assert (view uid s1 = view uid s ∧ kept now s s1) as [Hv Hk].
  { apply (each_invariant (λ s', view uid s' = view uid s ∧ kept now s s')); [|split; [done|apply kept_refl]].
    intros x s' Hx [Hv Hk]. split; [|eapply kept_trans; [exact Hk|apply sweep_switch_kept]].
    rewrite sweep_switch_other; [done|]. by intros ->. }
  pose proof Hv as [= _ En Er _].
  destruct (sweep_switch_fires dead now uid s1) as [Hg Hb]; [by rewrite Er|intros n Hn'; by apply Hf, Hk|by rewrite En|].
  set (s2 := (sweep_switch RET outage dead now uid s1).2) in *.
  assert (after_switches dead now s = (each (sweep_switch RET outage dead now) l2 s2).2) as Ea.
  { unfold after_switches. rewrite El, each_app by (intros; apply sweep_switch_ok). fold s1. cbn [each foldr]. unfold eff_bind.
    pose proof (sweep_switch_ok dead now uid s1) as E. unfold s2. destruct (sweep_switch _ _ _ _ _ s1) as [r ?]. cbn in E. by subst r. }
  rewrite Ea. set (P s' := view uid s' = gone ∧ kept now s2 s').
  assert (P (each (sweep_switch RET outage dead now) l2 s2).2) as H2.
  { apply (each_invariant P); [|split; [done|apply kept_refl]]. intros x s' _ [H1 H2].
    split; [by apply sweep_switch_gone|eapply kept_trans; [exact H2|apply sweep_switch_kept]]. }
  eapply (each_invariant P (sweep_deletion RET outage dead now) (due_deletions now _)) in H2 as [H3 H4].
  - split; [exact H3|]. intros n key Hn' Hne Hk'. apply H4. apply (Hb n key); [by rewrite En|done|done].
  - intros x s' _ [H1 H3]. split; [by apply sweep_deletion_gone|eapply kept_trans; [exact H3|apply sweep_deletion_kept]].
Qed.

End Steady.

(** ** Where the destruction fails *)

(** The database fails, or the account has two devices. *)
Definition stuck (uid : string) (s : t) : Prop := (∀ d, outage d ≠ None) ∨ (2 <= length (nodes_of uid s))%nat.

Lemma stuck_fails uid dead s : stuck uid s → destructible uid dead s = false.
Proof.
  unfold destructible. intros [H|H]; [specialize (H (db s)); by destruct (outage (db s))|]. destruct (outage (db s)); [done|].
  unfold overwrite_ok. rewrite (proj2 (Nat.leb_gt _ _)) by lia. done.
Qed.

Lemma stuck_view uid s s' : view uid s' = view uid s → stuck uid s → stuck uid s'.
Proof. intros [= _ E _ _] [H|H]; [by left|right]. by rewrite E. Qed.

(** The claim and its release leave the row as it was. *)
Lemma claim_release uid now l r :
  NoDup (key <$> l) → r ∈ l → is_switch uid personal r = true → due now r = true →
  update_where (λ r, is_switch uid personal r && (Dms.status r =? "triggered")%string) (set_status "active")
    (update_where (λ r, is_switch uid personal r && due now r) (set_status "triggered") l) = l.
Proof.
  intros Hn Hr Hs Hd. unfold update_where. rewrite <- list_fmap_compose. rewrite <- (list_fmap_id l) at 2. apply list_fmap_ext.
  intros i x Hx. apply list_elem_of_lookup_2 in Hx. cbn. destruct (is_switch uid personal x) eqn:E.
  - assert (x = r) as ->.
    { apply (NoDup_fmap_inj key l); [done|done|done|]. apply is_switch_eq in E as [E1 E2], Hs as [E3 E4]. unfold key. congruence. }
    rewrite Hd. cbn [andb]. assert (is_switch uid personal (set_status "triggered" r) = true) as -> by done.
    unfold due, is_active in Hd. b2p. cbn. destruct r. cbn in *. by subst.
  - cbn [andb]. by rewrite E.
Qed.

Lemma rows_keys uid s : wf s → NoDup (key <$> rows_of uid s).
Proof. intros Hs. apply where_NoDup, Hs. Qed.

Lemma sweep_switch_stuck dead now uid s : wf s → stuck uid s → view uid (sweep_switch RET outage dead now uid s).2 = view uid s.
Proof.
  intros Hw Hs. rewrite sweep_switch_run. destruct (existsb _ _) eqn:Ed; [|done]. rewrite fire_run. set (s1 := claimed uid now s).
  rewrite (stuck_fails uid dead s1) by exact Hs. pose proof (destroy_view uid uid None dead now s1) as E.
  rewrite (stuck_fails uid dead s1), andb_false_r in E by exact Hs. set (s2 := (destroy uid None dead now s1).2) in *.
  unfold release_switch, modify. cbn [snd]. injection E as E1 E2 E3 E4. unfold view. rewrite rows_of_update by done.
  rewrite E3. unfold s1 at 1, claimed. rewrite rows_of_update by done.
  apply existsb_exists in Ed as (r & Hr & Hp). apply list_elem_of_In in Hr. pose proof (proj1 (elem_of_where _ _ _) Hr) as [Hu _].
  unfold personal_due in Hp. apply andb_true_iff in Hp as [Hp Hd].
  rewrite (claim_release uid now _ r); [|by apply rows_keys|done|unfold is_switch; by rewrite Hu, Hp|done].
  f_equal; [f_equal; f_equal|]; [exact E1|exact E2|exact E4].
Qed.

Lemma sweep_deletion_stuck dead now uid at_ s :
  wf s → stuck uid s → view uid (sweep_deletion RET outage dead now (uid, at_) s).2 = view uid s.
Proof.
  intros Hw Hs. unfold sweep_deletion, claim_deletion. unfold eff_bind, get. cbn [fst snd]. case_bool_decide as Ea; [|done].
  unfold modify at 1, eff_ret at 1. set (s1 := s <| scheduled_deletion_at ::= _ |>).
  pose proof (destroy_view uid uid None dead now s1) as E. pose proof (destroy_result uid None dead now s1) as Er.
  rewrite (stuck_fails uid dead s1) in E, Er by exact Hs.
  destruct (destroy uid None dead now s1) as [r s2]. cbn [fst snd] in Er, E. subst r. unfold release_deletion, modify. cbn [snd].
  assert (scheduled_deletion_at s1 !! uid = None) as En by (apply (lookup_delete_eq (M := gmap string))).
  rewrite andb_false_r in E. injection E as E1 E2 E3 E4. rewrite bool_decide_eq_true_2 by (by rewrite E4). rewrite E1.
  assert (user_row uid s1 = true) as Eu by (exact (wf_schedule s Hw uid at_ Ea)). rewrite Eu. cbn [andb].
  unfold view. f_equal; [f_equal; [f_equal|]|].
  - transitivity (user_row uid s2); [done|]. by rewrite E1.
  - exact E2.
  - exact E3.
  - rewrite Ea. apply (lookup_insert_eq (M := gmap string)).
Qed.

Lemma sweep_stuck dead now uid s :
  existsb (owner_due now) (switches s) = false → wf s → stuck uid s → view uid (sweep unreachable dead now s).2 = view uid s.
Proof.
  intros Ho Hw Hs. rewrite sweep_run by done. set (P s' := wf s' ∧ view uid s' = view uid s).
  assert (P (after_switches dead now s)) as H1.
  { apply (each_invariant P); [|done]. intros x s' _ [H1 H2]. split; [by apply wf_sweep_switch|].
    destruct (decide (uid = x)) as [<-|Hne]; [|by rewrite sweep_switch_other]. rewrite sweep_switch_stuck; [done|done|by eapply stuck_view]. }
  eapply (each_invariant P (sweep_deletion RET outage dead now) (due_deletions now _)) in H1; [apply H1|].
  intros [x a] s' _ [H2 H3]. split; [by apply wf_sweep_deletion|].
  destruct (decide (uid = x)) as [<-|Hne]; [|by rewrite sweep_deletion_other]. rewrite sweep_deletion_stuck; [done|done|by eapply stuck_view].
Qed.

(** ** Sweeps that overlap *)

(** The account has no armed switch. *)
Definition idle (uid : string) (s : t) : Prop := where_ personal_active (rows_of uid s) = [].

Lemma idle_view uid s s' : view uid s' = view uid s → idle uid s → idle uid s'.
Proof. unfold idle. by intros [= _ _ -> _]. Qed.

Lemma idle_rows uid s s' : rows_of uid s' = rows_of uid s → idle uid s → idle uid s'.
Proof. unfold idle. by intros ->. Qed.

Lemma idle_claim uid now s : idle uid s → claim_switch uid now s = (Ok false, s).
Proof.
  intros Hi. unfold claim_switch. unfold eff_bind, get. rewrite <- claim_due. destruct (existsb _ _) eqn:E; [|done].
  apply existsb_exists in E as (r & Hr & Hd). apply list_elem_of_In in Hr. exfalso. apply (not_elem_of_nil r). rewrite <- Hi.
  apply elem_of_where. split; [|done]. unfold personal_due, due, personal_active in *.
  apply andb_true_iff in Hd as [H1 [H2 _]%andb_true_iff]. by rewrite H1, H2.
Qed.

Lemma claimed_idle uid now s :
  wf s → existsb (personal_due now) (rows_of uid s) = true → idle uid (claimed uid now s).
Proof.
  intros Hw Hd. unfold idle, claimed. rewrite rows_of_update by done. apply existsb_exists in Hd as (r & Hr & Hp).
  apply list_elem_of_In in Hr. apply where_none. intros x Hx. apply elem_of_update in Hx as (y & Hy & ->).
  destruct (personal_active y) eqn:Ey.
  - assert (y = r) as ->.
    { apply (NoDup_fmap_inj key (rows_of uid s)); [by apply rows_keys|done|done|].
      apply elem_of_where in Hy as [Hy _], Hr as [Hr _]. unfold personal_active, personal_due, key in *. b2p. congruence. }
    apply elem_of_where in Hr as [Hr _]. unfold personal_due in Hp. apply andb_true_iff in Hp as [Hp Hdue].
    unfold is_switch. rewrite Hr, Hp, Hdue. cbn [andb]. unfold personal_active. by rewrite andb_comm.
  - destruct (_ && _); [|done]. unfold personal_active. by rewrite andb_comm.
Qed.

Lemma upsert_owner_idle uid r s : Dms.switch_tier r = owner → idle uid s → idle uid (default s (upsert_switch r s)).
Proof.
  intros Ht Hi. assert (personal_active r = false) as Hr by (unfold personal_active; by rewrite Ht).
  unfold upsert_switch. destruct (user_row _ s); [|done]. cbn [negb]. destruct (existsb (is_switch _ _) _).
  - cbn [default]. unfold idle, rows_of. rewrite where_where. unfold idle, rows_of in Hi. rewrite where_where in Hi. rewrite <- Hi.
    apply where_update_none. intros x _ Hx. apply is_switch_eq in Hx as [E1 E2]. unfold personal_active. cbn. rewrite E2, Ht. by rewrite !andb_false_r.
  - destruct (existsb _ _); [done|]. cbn [default]. unfold idle, rows_of in *.
    change (where_ personal_active (where_ (λ r, (Dms.user_id r =? uid)%string) (switches s ++ [r])) = []). rewrite where_app, where_app, Hi.
    rewrite where_cons. destruct (_ =? _)%string; [|done]. by rewrite where_cons, Hr.
Qed.

Lemma update_idle uid p f s :
  (∀ r, Dms.user_id (f r) = Dms.user_id r) → (∀ r, personal_active (f r) = personal_active r) →
  idle uid s → idle uid (s <| switches ::= update_where p f |>).
Proof.
  intros Hf Ha Hi. unfold idle. rewrite rows_of_update by done. apply where_none. intros x Hx. apply elem_of_update in Hx as (y & Hy & ->).
  assert (personal_active y = false) as E; [|destruct (p y); by rewrite ?Ha].
  destruct (personal_active y) eqn:E; [|done]. exfalso. apply (not_elem_of_nil y). rewrite <- Hi. by apply elem_of_where.
Qed.

(** A setup arms the switch; a sweep is taken apart below. *)
Definition quiet (fl : list string) (o : op) : Prop :=
  match o with Setup u _ _ _ => Principal.id u ∉ fl | Sweep _ _ => False | _ => True end.

Lemma wipe_idle uid s : idle uid s → idle uid (executeOwnerGlobalCascadingWipe unreachable s).2.
Proof.
  intros Hi. unfold executeOwnerGlobalCascadingWipe. unfold eff_bind, modify. cbn [snd eff_ret].
  change (idle uid (foldl (λ s tbl, if unreachable tbl then s else empty_table tbl s) s TABLES)).
  generalize TABLES. intros l. revert s Hi. induction l as [|tbl l IH]; intros s Hi; [done|]. cbn [foldl]. apply IH.
  destruct (unreachable tbl); [done|]. unfold empty_table. by repeat destruct (tbl =? _)%string.
Qed.

Lemma own_request_idle uid fl o s : actor o = Some uid → quiet fl o → uid ∈ fl → idle uid s → idle uid (perform o s).
Proof.
  intros Ha Hq Hin Hi. destruct o; cbn in Ha; simplify_eq; cbn [perform].
  - unfold post_self_destruct. destruct (_ && _); [|done]. rewrite answering_state.
    pose proof (destroy_view (Principal.id u) (Principal.id u) tok dead now s) as E. unfold idle.
    destruct (bool_decide _ && _); injection E as _ _ -> _; done.
  - unfold post_schedule. destruct (valid_schedule _ _ _); [|done]. rewrite answering_state. unfold scheduleUserDestruction.
    destruct (valid_schedule _ _ _); [|done]. unfold eff_bind, modify. cbn [snd eff_ret]. by destruct (user_row _ s).
  - unfold post_cancel. by rewrite answering_state.
  - done.
  - unfold handlePersonalUnlock. rewrite answering_state. unfold unlockPersonalDMS. read_store.
    destruct (load_switch _ s); [|done]. by destruct (opens _ _ _ _).
  - unfold post_personal_heartbeat. rewrite answering_state. unfold heartbeatPersonalDMS. read_store.
    destruct (load_switch _ s); [|done]. destruct (deadline _ _); [|done]. destruct (existsb _ _); unfold eff_bind, modify; cbn [snd eff_ret throw]; [|done].
    by apply (update_idle _ _ (beat _ _) s).
  - unfold post_owner_setup. apply (super_keeps (idle (Principal.id u))); [done|].
    destruct (setup_refusal body); [done|]. rewrite answering_state. unfold setupOwnerDMS.
    destruct (valid_passphrase _); [|done]. destruct (bad_interval _); [done|]. destruct (deadline _ _); [|done].
    unfold eff_bind, modify. cbn [snd]. destruct (bigint _); [|done]. destruct (_ <=? 512); [|done]. by apply (upsert_owner_idle _ _ s).
Qed.

Lemma request_idle uid fl o s : quiet fl o → uid ∈ fl → idle uid s → idle uid (perform o s).
Proof.
  intros Hq Hin Hi. destruct (actor o) as [x|] eqn:Ea.
  { destruct (decide (x = uid)) as [->|Hne]; [by eapply own_request_idle|]. eapply idle_view; [|exact Hi]. by eapply perform_other. }
  destruct o; try done; cbn [perform].
  - unfold post_owner_heartbeat. apply (super_keeps (idle uid)); [done|]. destruct (passphrase =? "")%string eqn:E; [done|].
    rewrite answering_state. unfold heartbeatOwnerDMS. rewrite E. read_store. destruct (match newest_owner s with Some _ => _ | None => _ end) as [h i].
    destruct (negb _ && negb _); [done|]. destruct (deadline _ _) as [z|]; [|done]. unfold eff_bind, modify. cbn [snd].
    destruct (negb _ && negb _); by apply (update_idle uid owner_row (beat now z) s).
  - unfold post_owner_trigger. apply (super_keeps (idle uid)); [done|]. destruct (negb (is_text phrase _)); [done|].
    destruct (password =? "")%string; [done|]. read_store. destruct (own_hash _ s); [|done]. destruct (negb _ && _); [|done].
    rewrite answering_state. by apply wipe_idle.
Qed.

(** Sweeps, taken apart into claims and destructions, interleaved with each other and
    with the requests: the store, and the accounts under destruction. *)
Inductive tick : t * list string → t * list string → Prop :=
  | tick_claim uid now s s' fl : claim_switch uid now s = (Ok true, s') → tick (s, fl) (s', uid :: fl)
  | tick_fire uid dead now s s' l1 l2 : fire_switch RET outage uid dead now s = (Ok tt, s') → tick (s, l1 ++ uid :: l2) (s', l1 ++ l2)
  | tick_request o s fl : quiet fl o → tick (s, fl) (perform o s, fl).

Definition exclusive (x : t * list string) : Prop := wf x.1 ∧ NoDup x.2 ∧ ∀ uid, uid ∈ x.2 → idle uid x.1.

Lemma fire_other uid uid' dead now s : uid ≠ uid' → view uid (fire_switch RET outage uid' dead now s).2 = view uid s.
Proof.
  intros Hne. rewrite fire_run. pose proof (destroy_view uid uid' None dead now s) as E. rewrite (bool_decide_eq_false_2 _ Hne) in E. cbn in E.
  destruct (destructible uid' dead s); cbn [snd]; [done|].
  unfold release_switch, modify. cbn [snd]. rewrite (view_other uid uid'); [done|apply triggered_owner|done|done].
Qed.

Lemma wf_fire uid dead now s : wf s → wf (fire_switch RET outage uid dead now s).2.
Proof.
  intros Hs. rewrite fire_run. pose proof (wf_destroy uid None dead now s Hs) as H.
  destruct (destructible _ _ _); [exact H|]. apply wf_set_status; [left|exact H].
Qed.

Lemma tick_exclusive x y : tick x y → exclusive x → exclusive y.
Proof.
  intros H (Hw & Hn & Hi). destruct H as [uid now s s' fl H|uid dead now s s' l1 l2 H|o s fl H]; unfold exclusive in *; cbn [fst snd] in *.
  - unfold claim_switch in H. revert H. unfold eff_bind, get. rewrite <- claim_due. destruct (existsb _ _) eqn:E; [|done].
    unfold modify, eff_ret. intros [= <-]. fold (claimed uid now s).
    assert (uid ∉ fl) as Hnf.
    { intros Hin. pose proof (idle_claim uid now s (Hi _ Hin)) as Hc. unfold claim_switch in Hc. revert Hc. unfold eff_bind, get.
      by rewrite <- claim_due, E. }
    split; [apply wf_set_status; [right; left|done]|]. split; [by constructor|]. intros x Hx.
    apply elem_of_cons in Hx as [->|Hx]; [by apply claimed_idle|].
    eapply idle_view; [|by apply Hi]. eapply view_other; [apply claimed_owner|done|]. by intros ->.
  - assert (s' = (fire_switch RET outage uid dead now s).2) as -> by (by rewrite H).
    split; [by apply wf_fire|]. apply NoDup_app in Hn as (H1 & H2 & H3). apply NoDup_cons in H3 as [H3 H4].
    split; [apply NoDup_app; split_and!; [done| |done]; intros z Hz Hz'; apply (H2 z Hz); by right|].
    intros x Hx. assert (x ≠ uid) as Hne.
    { intros ->. apply elem_of_app in Hx as [Hx|Hx]; [|done]. apply (H2 uid Hx). left. }
    eapply idle_view; [by apply fire_other|]. apply Hi. rewrite elem_of_app, elem_of_cons. apply elem_of_app in Hx as [Hx|Hx]; auto.
  - split; [by apply op_wf|]. split; [done|]. intros uid Hu. by eapply request_idle; eauto.
Qed.

(** ** The global wipe *)

Lemma fold_emptied (Q : t → Prop) tbl l s :
  tbl ∈ l → unreachable tbl = false → (∀ s, Q (empty_table tbl s)) → (∀ x s, Q s → Q (empty_table x s)) →
  Q (foldl (λ s x, if unreachable x then s else empty_table x s) s l).
Proof.
  intros Hin Hr Hq Hk.
  assert (∀ l s, Q s → Q (foldl (λ s x, if unreachable x then s else empty_table x s) s l)) as Hs.
  { intros l'. induction l' as [|x l' IH]; intros s' H; [done|]. cbn [foldl]. apply IH. destruct (unreachable x); auto. }
  revert s. induction l as [|x l IH]; intros s; [by apply elem_of_nil in Hin|]. cbn [foldl].
  apply elem_of_cons in Hin as [<-|Hin]; [|by apply IH]. rewrite Hr. apply Hs, Hq.
Qed.

Lemma delete_all {A} (l : list A) : delete_where (λ _, true) l = [].
Proof. by apply where_none. Qed.

(** What the accounts' table takes along. *)
Record no_accounts (s : t) : Prop := {
  na_users : Db.users (db s) = [];
  na_nodes : Db.nodes (db s) = [];
  na_keys : Db.preauth_keys (db s) = [];
  na_memberships : Db.memberships (db s) = [];
  na_console : Console.users (Gov.console (gov s)) = [];
  na_tokens : Console.refresh_tokens (Gov.console (gov s)) = [];
  na_switches : switches s = [];
  na_schedule : scheduled_deletion_at s = ∅;
}.

Lemma users_emptied s : no_accounts (empty_users s).
Proof. split; try done. apply delete_all. Qed.

Lemma nodes_emptied s : Db.nodes (db (empty_table "nodes" s)) = [].
Proof. apply delete_all. Qed.

(** What is empty stays so. *)
Lemma switches_stay x s : switches s = [] → switches (empty_table x s) = [].
Proof. intros H. unfold empty_table. by repeat destruct (x =? _)%string. Qed.
Lemma tokens_stay x s :
  Console.refresh_tokens (Gov.console (gov s)) = [] → Console.refresh_tokens (Gov.console (gov (empty_table x s))) = [].
Proof. intros H. unfold empty_table. by repeat destruct (x =? _)%string. Qed.
Lemma nodes_stay x s : Db.nodes (db s) = [] → Db.nodes (db (empty_table x s)) = [].
Proof. intros H. unfold empty_table. repeat destruct (x =? _)%string; [done|done|apply delete_all|apply users_emptied|done]. Qed.
Lemma accounts_stay x s : no_accounts s → no_accounts (empty_table x s).
Proof.
  intros Hs. unfold empty_table. repeat destruct (x =? _)%string; [..|apply users_emptied|done]; destruct Hs; split; try done.
  apply delete_all.
Qed.

(** ** Theorems *)

(** The tables of the switches keep their constraints through every request and every
    sweep, failed ones and global wipes included: one switch per account and tier,
    distinct ids, a status, tier, mode and interval the columns allow, and every
    switch and every scheduled deletion belongs to an account that exists. *)
Theorem switch_tables_invariant l s : wf s → wf (run l s).
Proof. revert s. induction l as [|o l IH]; intros s Hs; [done|]. cbn [run foldl]. apply IH. by apply op_wf. Qed.

(** C28. Nothing is destroyed early.  Where a sweep changes anything of an account, its
    devices, its switches or its scheduled deletion, then an active owner's switch is
    past its deadline, or an active personal switch of that very account is, or the
    time of its scheduled deletion has come. *)
Theorem no_early_destruction uid dead now s :
  view uid (sweep unreachable dead now s).2 ≠ view uid s →
  (∃ r, r ∈ switches s ∧ Dms.switch_tier r = owner ∧ is_active r = true ∧ Dms.next_deadline_at r < now) ∨
  (∃ r, r ∈ switches s ∧ Dms.user_id r = uid ∧ Dms.switch_tier r = personal ∧ is_active r = true ∧ Dms.next_deadline_at r < now) ∨
  (∃ at_, scheduled_deletion_at s !! uid = Some at_ ∧ at_ <= now).
Proof.
  intros Hne. destruct (existsb (owner_due now) (switches s)) eqn:Eo.
  { left. apply existsb_exists in Eo as (r & Hr & Hd). exists r. unfold owner_due, due in Hd. rewrite list_elem_of_In. by b2p. }
  right. destruct (existsb (personal_due now) (rows_of uid s)) eqn:Ep.
  { left. apply existsb_exists in Ep as (r & Hr & Hd). exists r. apply list_elem_of_In, elem_of_where in Hr as [Hu Hr].
    unfold personal_due, due in Hd. by b2p. }
  right. destruct (scheduled_deletion_at s !! uid) as [a|] eqn:Ea.
  - exists a. split; [done|]. destruct (decide (a <= now)); [done|]. exfalso. apply Hne. apply sweep_not_due; [done|].
    split; [done|]. cbn [view snd]. rewrite Ea. intros ? [= <-]. lia.
  - exfalso. apply Hne. apply sweep_not_due; [done|]. split; [done|]. cbn [view snd]. by rewrite Ea.
Qed.

(** A check-in holds the switch off.  After a successful check-in of an account with
    no scheduled deletion, whatever the others do, whatever owners' switches are set
    up and confirmed, and however often the sweep runs up to the new deadline, as long
    as no global wipe starts the account is there, no deletion is scheduled, and its
    switch is armed with that deadline. *)
Theorem check_in_protects uid now d next x s s' l :
  load_switch uid s = Some d → deadline now (l_interval d) = Some next → user_row uid s = true → scheduled_deletion_at s !! uid = None →
  heartbeatPersonalDMS uid now s = (Ok x, s') → calm uid next l s' = true →
  held_until next (view uid (run l s')).
Proof. intros Hl Hd Hu Hs Hb Hc. apply calm_run; [done|]. by eapply beat_held. Qed.

(** An expired switch fires.  Where the database answers and no owner's switch is due,
    a sweep past the deadline of an account with at most one device leaves nothing of
    the account, its device, its switches and its scheduled deletion, whatever else
    is due in the same sweep, and the device's key is refused for the whole retention
    period. *)
Theorem expired_switch_fires uid r dead now s :
  (∀ d, outage d = None) → existsb (owner_due now) (switches s) = false →
  r ∈ switches s → is_switch uid personal r = true → is_active r = true → Dms.next_deadline_at r < now →
  (length (nodes_of uid s) <= 1)%nat → fresh dead s →
  view uid (sweep unreachable dead now s).2 = gone ∧
  ∀ n k t, n ∈ nodes_of uid s → Node.id n ≠ "" → Vip.normalisePublicKeyHex (Node.public_key n) = Some k → t < now + RET * Credentials.HOUR →
    Revocation.isRevoked (Node.public_key n) t (db (sweep unreachable dead now s).2) = true.
Proof.
  intros Hst Ho Hr Hi Ha Hd Hl Hf. apply is_switch_eq in Hi as [E1 E2].
  destruct (sweep_fires Hst dead now uid s) as [Hg Hb]; [done| |done|done|].
  - apply existsb_exists. exists r. rewrite <- list_elem_of_In. split; [apply elem_of_where; by rewrite E1, String.eqb_refl|].
    unfold personal_due, due. rewrite E2, Ha. cbn. by apply Z.ltb_lt.
  - split; [done|]. intros n k t Hn Hne Hk Ht. eapply Revocation.on_list_isRevoked; [exact Hk| |exact Ht]. by apply (Hb n k).
Qed.

(** A destruction that cannot be carried out is not lost.  Where the database fails
    the revocation, or the account has two devices or more, a sweep leaves the
    account, its devices, its switches and its scheduled deletion as they were, so
    the switch is still armed and due for the next sweep. *)
Theorem failed_destruction_stays_armed uid dead now s :
  existsb (owner_due now) (switches s) = false → wf s → (∀ d, outage d ≠ None) ∨ (2 <= length (nodes_of uid s))%nat →
  view uid (sweep unreachable dead now s).2 = view uid s.
Proof. apply sweep_stuck. Qed.

(** No account is destroyed twice at once.  However many sweeps overlap, with their
    claims and destructions interleaved in any order with each other and with the
    users' requests, as long as nobody sets up a switch while it fires, no account
    has two destructions under way, and none of those under way can be claimed again. *)
Theorem one_destruction_at_a_time s0 s fl :
  wf s0 → rtc tick (s0, []) (s, fl) → NoDup fl ∧ ∀ uid now, uid ∈ fl → claim_switch uid now s = (Ok false, s).
Proof.
  intros Hw H. assert (exclusive (s, fl)) as (_ & Hn & Hi).
  { assert (exclusive (s0, [])) as He by (split; [done|split; [apply NoDup_nil_2|intros uid Hu; by apply elem_of_nil in Hu]]).
    revert He. induction H; [done|]. intros He. eauto using tick_exclusive. }
  split; [done|]. intros uid now Hu. apply idle_claim. by apply Hi.
Qed.

(** The answer of the global wipe is true.  It names exactly the tables that could not
    be emptied; each table it does not name is empty, with everything that refers to
    its rows: where the accounts went, no account, device, enrolment key, membership,
    session, switch or scheduled deletion is left. *)
Theorem wipe_reports_truth s : ∃ failed s',
  executeOwnerGlobalCascadingWipe unreachable s = (Ok failed, s') ∧
  (∀ tbl, tbl ∈ failed ↔ tbl ∈ TABLES ∧ unreachable tbl = true) ∧
  ("dead_man_switch" ∉ failed → switches s' = []) ∧
  ("refresh_tokens" ∉ failed → Console.refresh_tokens (Gov.console (gov s')) = []) ∧
  ("nodes" ∉ failed → Db.nodes (db s') = []) ∧
  ("users" ∉ failed →
     Db.users (db s') = [] ∧ Db.nodes (db s') = [] ∧ Db.preauth_keys (db s') = [] ∧ Db.memberships (db s') = [] ∧
     Console.users (Gov.console (gov s')) = [] ∧ Console.refresh_tokens (Gov.console (gov s')) = [] ∧
     switches s' = [] ∧ scheduled_deletion_at s' = ∅).
Proof.
  unfold executeOwnerGlobalCascadingWipe. unfold eff_bind, modify, eff_ret. eexists _, _. split; [reflexivity|].
  split; [intros tbl; rewrite elem_of_where; tauto|].
  assert (∀ Q tbl, (∀ s, Q (empty_table tbl s)) → (∀ x s, Q s → Q (empty_table x s)) → tbl ∈ TABLES →
            tbl ∉ where_ unreachable TABLES → Q (foldl (λ s x, if unreachable x then s else empty_table x s) s TABLES)) as Hq.
  { intros Q tbl H1 H2 Ht Hn. apply (fold_emptied Q tbl); [done| |done|done]. destruct (unreachable tbl) eqn:E; [|done].
    exfalso. apply Hn. by apply elem_of_where. }
  split; [|split; [|split]].
  - apply (Hq (λ s, switches s = [])); [done|apply switches_stay|apply (bool_decide_unpack _); vm_compute; exact I].
  - apply (Hq (λ s, Console.refresh_tokens (Gov.console (gov s)) = [])); [done|apply tokens_stay|apply (bool_decide_unpack _); vm_compute; exact I].
  - apply (Hq (λ s, Db.nodes (db s) = [])); [apply nodes_emptied|apply nodes_stay|apply (bool_decide_unpack _); vm_compute; exact I].
  - intros Hn. destruct (Hq no_accounts "users" users_emptied accounts_stay ltac:(apply (bool_decide_unpack _); vm_compute; exact I) Hn). done.
Qed.

End Facts.
End NukeFacts.

Module NukeSamples.
Import Nuke NukeFacts.

Definition hex64 (c : string) : string := String.concat "" (repeat c 64).
Definition device (id key : string) : Node.t := (AclSample.node id "100.64.0.1" (Some "org-a") None) <| Node.public_key := key |>.

Definition fleet (nodes : list Node.t) : Db.t :=
  CompartmentSamples.db <| Db.nodes := nodes |>
    <| Db.users := [User.mk "usr-1" "ann" "user" "active" (Some "org-a"); User.mk "usr-2" "bob" "super-admin" "active" (Some "org-a");
                    User.mk "usr-3" "eve" "super-admin" "active" (Some "org-a")] |>.
Definition start_with (nodes : list Node.t) : t :=
  mk (DuressSamples.state <| Gov.db := fleet nodes |>) [] ∅ ∅ ∅ MemOwner.initial [].
Definition start : t := start_with [device "n1" (hex64 "a")].

Definition person (id role : string) : Principal.t := Principal.mk id id role (Some "org-a") None None None.
Definition ann : Principal.t := person "usr-1" "user".
Definition bob : Principal.t := person "usr-2" "super-admin".
Definition eve : Principal.t := person "usr-3" "super-admin".

Definition hashed (p : string) : string := "$" +:+ p.
Definition compared (p h : string) : bool := (hashed p =? h)%string.
Definition never (v : jsval) : option Z := None.
Definition reached (tbl : string) : bool := false.

Definition setup_body (seconds : num) : jsval := JObj [("passphrase", JStr "secret"); ("heartbeat_interval_seconds", JNum seconds)].

Abbreviation play out := (run 24 out never hashed compared hashed reached).
Abbreviation tick_at out := (checkExpiredDeadManSwitches 24 out reached "dead-1").

(** Armed at 1 s for 60 s. *)
Definition armed : t := Eval vm_compute in (play DuressSamples.steady [Setup ann (setup_body (of_Z 60)) "r1" 1000] start).

Definition day : list op := [Setup ann (setup_body (of_Z 60)) "r1" 1000; Beat ann 2000; OwnerSetup bob (setup_body (of_Z 9)) 2000; Sweep "dead-1" 3000].

Lemma start_wf : wf start.
Proof.
  split; [apply NoDup_nil_2|apply NoDup_nil_2|intros r Hr; by apply elem_of_nil in Hr|].
  intros uid at_ H. change ((∅ : gmap string Z) !! uid = Some at_) in H. by rewrite lookup_empty in H.
Qed.

Lemma switch_tables_invariant_witness : wf (play DuressSamples.steady day start) ∧ length (switches (play DuressSamples.steady day start)) = 2%nat.
Proof.
  split; [|vm_compute; reflexivity].
  apply (switch_tables_invariant 24 DuressSamples.steady DuressSamples.steady_fleet never hashed compared hashed reached day start start_wf).
Defined.

Lemma armed_wf : wf armed.
Proof.
  assert (armed = play DuressSamples.steady [Setup ann (setup_body (of_Z 60)) "r1" 1000] start) as -> by (vm_compute; reflexivity).
  apply (op_wf 24 DuressSamples.steady DuressSamples.steady_fleet), start_wf.
Qed.

Lemma no_early_destruction_witness : ∃ r, r ∈ switches armed ∧ Dms.user_id r = "usr-1" ∧ Dms.next_deadline_at r < 61001.
Proof.
  destruct (no_early_destruction 24 DuressSamples.steady DuressSamples.steady_fleet reached "usr-1" "dead-1" 61001 armed)
    as [(r & Hr & Ht & _)|[(r & Hr & Hu & _ & _ & Hd)|(a & Ha & _)]].
  - intros E. apply (f_equal (λ v, v.1.1.1)) in E. vm_compute in E. discriminate.
  - exfalso. apply list_elem_of_singleton in Hr as ->. vm_compute in Ht. discriminate.
  - exists r. done.
  - vm_compute in Ha. discriminate.
Defined.

Definition no_row : Dms.t := Dms.mk "" "" "" "" 0 0 0 None None None "" 0.
Definition in_hand : loaded := Eval vm_compute in (default (of_row no_row) (load_switch "usr-1" armed)).
Definition beaten : t := Eval vm_compute in (heartbeatPersonalDMS "usr-1" 2000 armed).2.
Definition week : list op := [Sweep "dead-1" 61500; OwnerSetup bob (setup_body (of_Z 9)) 61600; Cancel bob; Sweep "dead-1" 62000].

Lemma check_in_protects_witness :
  heartbeatPersonalDMS "usr-1" 2000 armed = (Ok 2000, beaten) ∧ held_until 62000 (view "usr-1" (play DuressSamples.steady week beaten)).
Proof.
  split; [vm_compute; reflexivity|].
  apply (check_in_protects 24 DuressSamples.steady DuressSamples.steady_fleet never hashed compared hashed reached
    "usr-1" 2000 in_hand 62000 2000 armed beaten week); vm_compute; reflexivity.
Defined.

Lemma expired_switch_fires_witness :
  view "usr-1" (tick_at DuressSamples.steady 61001 armed).2 = gone ∧
  Revocation.isRevoked (hex64 "a") 61002 (db (tick_at DuressSamples.steady 61001 armed).2) = true.
Proof.
  destruct (expired_switch_fires 24 DuressSamples.steady DuressSamples.steady_fleet reached "usr-1"
    (default no_row (head (switches armed))) "dead-1" 61001 armed) as [Hg Hk];
    [done|vm_compute; reflexivity|left|vm_compute; reflexivity|vm_compute; reflexivity|vm_compute; reflexivity|vm_compute; lia| |].
  - intros n Hn. apply list_elem_of_singleton in Hn as ->. vm_compute. discriminate.
  - split; [exact Hg|]. apply (Hk (device "n1" (hex64 "a")) (hex64 "a")); [left|discriminate|vm_compute; reflexivity|vm_compute; reflexivity].
Defined.

Lemma failed_destruction_stays_armed_witness : view "usr-1" (tick_at DuressSamples.broken 61001 armed).2 = view "usr-1" armed.
Proof.
  apply (failed_destruction_stays_armed 24 DuressSamples.broken DuressSamples.broken_fleet reached "usr-1" "dead-1" 61001 armed);
    [vm_compute; reflexivity|apply armed_wf|left; done].
Defined.

Definition under_way : t := Eval vm_compute in (claim_switch "usr-1" 61001 armed).2.

Lemma one_destruction_at_a_time_witness :
  claim_switch "usr-1" 61001 armed = (Ok true, under_way) ∧ claim_switch "usr-1" 62000 under_way = (Ok false, under_way).
Proof.
  split; [vm_compute; reflexivity|].
  apply (one_destruction_at_a_time 24 DuressSamples.steady DuressSamples.steady_fleet never hashed compared hashed reached armed under_way ["usr-1"]);
    [apply armed_wf|apply rtc_once, (tick_claim _ _ _ _ _ _ _ "usr-1" 61001); vm_compute; reflexivity|left].
Defined.

(** An account with two devices cannot be destroyed: one text is written over both of
    their keys, and the column is unique.  Its keys are revoked all the same, and its
    expired switch is armed again after every sweep. *)
Definition two_devices : t :=
  Eval vm_compute in (play DuressSamples.steady [Setup ann (setup_body (of_Z 60)) "r1" 1000] (start_with [device "n1" (hex64 "a"); device "n2" (hex64 "b")])).

Lemma two_devices_undestroyable :
  view "usr-1" (tick_at DuressSamples.steady 61001 two_devices).2 = view "usr-1" two_devices ∧
  (executeInstantUserDestruction 24 DuressSamples.steady "usr-1" None "dead-1" 2000 two_devices).1 = Throw None "database error" ∧
  Revocation.isRevoked (hex64 "b") 61002 (db (tick_at DuressSamples.steady 61001 two_devices).2) = true.
Proof. split; [|split]; vm_compute; reflexivity. Qed.

(** A setup the table refuses, half a second here, is answered as done and reported as
    armed, but no sweep ever fires it. *)
Lemma refused_setup_answered :
  let '(r, s) := post_personal_setup hashed ann (setup_body (Fin 1 (-1))) "r1" 1000 start in
  r = Ok (Next tt) ∧ switches s = [] ∧ is_Some (getPersonalDMSStatus "usr-1" 1000 s) ∧
  view "usr-1" (tick_at DuressSamples.steady 99000 s).2 = view "usr-1" s.
Proof. vm_compute. split_and!; [reflexivity|reflexivity|by eexists|reflexivity]. Qed.

(** The owner's switch of a second super-admin collides with the first one's id, and is
    answered as armed too. *)
Lemma second_owner_switch_lost :
  let s := play DuressSamples.steady [OwnerSetup bob (setup_body (of_Z 60)) 1000] start in
  let '(r, s') := post_owner_setup hashed hashed eve (setup_body (of_Z 10)) 2000 s in
  r = Ok (Next tt) ∧ switches s' = switches s.
Proof. vm_compute. split; reflexivity. Qed.

(** A global wipe that fails is not tried again: the owner's switch stays triggered. *)
Definition nothing_reached (tbl : string) : bool := true.
Lemma failed_wipe_not_retried :
  let s := play DuressSamples.steady [OwnerSetup bob (setup_body (of_Z 60)) 1000] start in
  let s1 := (checkExpiredDeadManSwitches 24 DuressSamples.steady nothing_reached "dead-1" 61001 s).2 in
  user_row "usr-2" s1 = true ∧ (Dms.status <$> switches s1) = ["triggered"] ∧ (tick_at DuressSamples.steady 99000 s1).2 = s1.
Proof. vm_compute. split_and!; reflexivity. Qed.

(** The overview reads a table that does not exist: to the platform's administrator
    the owner's switch is never armed. *)
Definition administered : t :=
  start <| gov ::= λ g, g <| Gov.console ::= λ c, c <| Sessions.Console.users ::=
    fmap (λ a, a <| Sessions.Account.id := "usr-2" |> <| Sessions.Account.role := "super-admin" |>) |> |> |>.

Lemma owner_switch_not_shown :
  let s := play DuressSamples.steady [OwnerSetup bob (setup_body (of_Z 60)) 1000] administered in
  (∃ o s', get_governance_status bob 2000 s = (Ok (Next o), s') ∧ owner_dms_armed o = false ∧ ov_armed o = false) ∧
  is_Some (getOwnerDMSStatus 2000 s).
Proof. cbv zeta. split; [eexists _, _; split; [vm_compute; reflexivity|done]|vm_compute; by eexists]. Qed.

End NukeSamples.
