(* ===== verification/Bytes.v ===== *)
(** * Machine integers and byte strings of the Go code

    An unsigned integer of [n] bits is a [Z] below [2 ^ n], a byte slice a list of
    bytes; [put_be] and [get_be] are the big-endian accessors of [encoding/binary]. *)

From S2P Require Import Prelude.

Create HintDb bytes.

Module Bytes.

Definition uint (n z : Z) : Z := z mod 2 ^ n.
Definition is_uint (n z : Z) : Prop := 0 <= z < 2 ^ n.
Definition bytes (l : list Z) : Prop := Forall (is_uint 8) l.

(** [binary.BigEndian.PutUintN] into [n] bytes, and [UintN]. *)
Fixpoint put_be (n : nat) (v : Z) : list Z :=
  match n with
  | O => []
  | S n' => uint 8 (Z.shiftr v (8 * Z.of_nat n')) :: put_be n' v
  end.
Definition get_be (l : list Z) : Z := foldl (λ acc b, Z.lor (Z.shiftl acc 8) b) 0 l.

(** [l[a:b]] *)
Definition slice (a b : nat) (l : list Z) : list Z := take (b - a) (drop a l).

(** [l[i]], of an index in range. *)
Definition at_ (l : list Z) (i : nat) : Z := default 0 (l !! i).

(** ** Lemmas *)

Lemma uint_range n z : 0 <= n → is_uint n (uint n z).
Proof. intros Hn. apply Z.mod_pos_bound. lia. Qed.

Lemma uint_small n z : is_uint n z → uint n z = z.
Proof. intros H. by apply Z.mod_small. Qed.

Lemma put_be_length n v : length (put_be n v) = n.
Proof. induction n as [|n IH]; [done|]. cbn [put_be length]. by rewrite IH. Qed.

Lemma put_be_bytes n v : bytes (put_be n v).
Proof. induction n as [|n IH]; [by constructor|]. cbn [put_be]. constructor; [by apply uint_range|exact IH]. Qed.

Lemma get_be_from acc l : bytes l →
  foldl (λ acc b, Z.lor (Z.shiftl acc 8) b) acc l = acc * 2 ^ (8 * Z.of_nat (length l)) + get_be l.
Proof.
  unfold get_be. revert acc. induction l as [|b l IH]; intros acc Hl; [cbn; lia|]. apply Forall_cons in Hl as [Hb Hl].
  cbn [foldl length]. rewrite (IH (Z.lor (Z.shiftl acc 8) b)), (IH (Z.lor (Z.shiftl 0 8) b)) by done.
  rewrite !lor_low by done. replace (8 * Z.of_nat (S (length l))) with (8 + 8 * Z.of_nat (length l)) by lia.
  rewrite Z.pow_add_r by lia. lia.
Qed.

Lemma get_be_cons b l : bytes (b :: l) → get_be (b :: l) = b * 2 ^ (8 * Z.of_nat (length l)) + get_be l.
Proof.
  intros Hl. apply Forall_cons in Hl as [Hb Hl]. unfold get_be at 1. cbn [foldl]. rewrite get_be_from by done.
  by rewrite Z.shiftl_0_l, Z.lor_0_l.
Qed.

Lemma get_be_range l : bytes l → is_uint (8 * Z.of_nat (length l)) (get_be l).
Proof.
  induction l as [|b l IH]; intros Hl; [done|]. rewrite get_be_cons by done. apply Forall_cons in Hl as [Hb Hl]. specialize (IH Hl).
  unfold is_uint in *. cbn [length]. replace (8 * Z.of_nat (S (length l))) with (8 + 8 * Z.of_nat (length l)) by lia.
  rewrite Z.pow_add_r by lia. nia.
Qed.

Lemma get_put_mod n v : get_be (put_be n v) = v mod 2 ^ (8 * Z.of_nat n).
Proof.
  induction n as [|n IH]; [by rewrite Z.mod_1_r|].
  pose proof (put_be_bytes (S n) v) as Hb. cbn [put_be] in *. rewrite get_be_cons, IH, put_be_length by done.
  unfold uint. rewrite Z.shiftr_div_pow2 by lia. replace (8 * Z.of_nat (S n)) with (8 * Z.of_nat n + 8) by lia.
  rewrite Z.pow_add_r by lia. rewrite Z.rem_mul_r by lia. lia.
Qed.

Lemma get_put n v : is_uint (8 * Z.of_nat n) v → get_be (put_be n v) = v.
Proof. intros H. rewrite get_put_mod. by apply Z.mod_small. Qed.

Lemma put_be_mod n v k : (n <= k)%nat → put_be n (v mod 2 ^ (8 * Z.of_nat k)) = put_be n v.
Proof.
  induction n as [|n IH]; intros Hn; [done|]. cbn [put_be]. rewrite IH by lia. f_equal. unfold uint.
  rewrite !Z.shiftr_div_pow2 by lia. rewrite <- !(Z.land_ones _ 8) by lia. apply Z.bits_inj'. intros i Hi.
  rewrite !Z.land_spec, <- !Z.shiftr_div_pow2, !Z.shiftr_spec by lia. destruct (Z.lt_ge_cases i 8).
  - rewrite Z.mod_pow2_bits_low by lia. done.
  - by rewrite Z.ones_spec_high, !andb_false_r by lia.
Qed.

Lemma put_get l : bytes l → put_be (length l) (get_be l) = l.
Proof.
  induction l as [|b l IH]; intros Hl; [done|]. rewrite get_be_cons by done. apply Forall_cons in Hl as [Hb Hl].
  pose proof (get_be_range l Hl) as Hr. cbn [length put_be]. f_equal.
  - unfold uint. rewrite Z.shiftr_div_pow2 by lia. rewrite Z.div_add_l by lia. rewrite (Z.div_small (get_be l)) by exact Hr.
    rewrite Z.add_0_r. by apply Z.mod_small.
  - rewrite <- (put_be_mod (length l) (_ + _) (length l)) by lia.
    rewrite Z.add_comm, Z.mod_add, Z.mod_small by (try exact Hr; lia). by apply IH.
Qed.

Lemma slice_app (a b c : list Z) : slice (length a) (length a + length b) (a ++ b ++ c) = b.
Proof. unfold slice. rewrite drop_app_length. replace (length a + length b - length a)%nat with (length b) by lia. apply take_app_length. Qed.

(** A field of a buffer. *)
Lemma slice_at (a b c l : list Z) i j : l = a ++ b ++ c → i = length a → j = (i + length b)%nat → slice i j l = b.
Proof. intros -> -> ->. apply slice_app. Qed.

Lemma bytes_check l : forallb (λ z, (0 <=? z) && (z <? 256)) l = true → bytes l.
Proof.
  rewrite forallb_forall. intros H. apply Forall_forall. intros z Hz. apply list_elem_of_In, H in Hz. unfold is_uint. lia.
Qed.

Lemma bytes_app l l' : bytes (l ++ l') ↔ bytes l ∧ bytes l'.
Proof. apply Forall_app. Qed.
Lemma bytes_take n l : bytes l → bytes (take n l).
Proof. apply Forall_take. Qed.
Lemma bytes_drop n l : bytes l → bytes (drop n l).
Proof. apply Forall_drop. Qed.
Lemma bytes_slice a b l : bytes l → bytes (slice a b l).
Proof. intros H. by apply bytes_take, bytes_drop. Qed.

End Bytes.

#[export] Hint Resolve Bytes.put_be_bytes Bytes.bytes_take Bytes.bytes_drop Bytes.bytes_slice : bytes.
