(* ===== verification/Replay.v ===== *)
(** * The anti-replay window of a transport session

    [pkg/crypto/replay.go].  A bitmap of sixteen 64-bit words behind the highest
    counter seen; bit [i] stands for the counter [maxSeq - i].  The mutex makes every
    method atomic. *)

From S2P Require Import Prelude Order Bytes.

Module Replay.
Import Bytes.

Definition WindowSizeBits : Z := 1024.
Definition WindowWords : nat := 16.

Record AntiReplayWindow := mk { maxSeq : Z; bitmap : list Z }.

Definition NewAntiReplayWindow : AntiReplayWindow := mk 0 (replicate WindowWords 0).

Definition word (w : list Z) (i : nat) : Z := at_ w i.

(** for i := WindowWords - 1; i >= wordShift; i-- { b[i] = b[i-wordShift] } *)
Definition move_words (wordShift : nat) (b : list Z) : list Z :=
  foldl (λ b i, <[i := word b (i - wordShift)]> b) b (reverse (seq wordShift (WindowWords - wordShift))).
Definition zero_words (n : nat) (b : list Z) : list Z := foldl (λ b i, <[i := 0]> b) b (seq 0 n).

(** The loop over the words, low to high, with its carry. *)
Fixpoint shift_bits (bitShift carry : Z) (b : list Z) : list Z :=
  match b with
  | [] => []
  | w :: b' => Z.lor (uint 64 (Z.shiftl w bitShift)) carry :: shift_bits bitShift (Z.shiftr w (64 - bitShift)) b'
  end.

Definition shiftRight (n : Z) (b : list Z) : list Z :=
  let wordShift := Z.to_nat (n / 64) in
  let bitShift := n mod 64 in
  if Nat.leb WindowWords wordShift then zero_words WindowWords b else
  let b1 := if Nat.ltb 0 wordShift then zero_words wordShift (move_words wordShift b) else b in
  if 0 <? bitShift then shift_bits bitShift 0 b1 else b1.

Definition is_initial (w : AntiReplayWindow) : bool := (maxSeq w =? 0) && (word (bitmap w) 0 =? 0).

(** [bitmap[diff/64] & (1 << (diff%64)) != 0] *)
Definition seen_bit (diff : Z) (b : list Z) : bool :=
  negb (Z.land (word b (Z.to_nat (diff / 64))) (Z.shiftl 1 (diff mod 64)) =? 0).
Definition set_bit (diff : Z) (b : list Z) : list Z :=
  <[Z.to_nat (diff / 64) := Z.lor (word b (Z.to_nat (diff / 64))) (Z.shiftl 1 (diff mod 64))]> b.

Definition Check (w : AntiReplayWindow) (seq : Z) : bool :=
  if is_initial w then true else
  if maxSeq w <? seq then true else
  let diff := maxSeq w - seq in
  if WindowSizeBits <=? diff then false else negb (seen_bit diff (bitmap w)).

Definition CheckAndAdd (w : AntiReplayWindow) (seq : Z) : bool * AntiReplayWindow :=
  if is_initial w then (true, mk seq (set_bit 0 (bitmap w))) else
  if maxSeq w <? seq then
    let diff := seq - maxSeq w in
    let b := if WindowSizeBits <=? diff then zero_words WindowWords (bitmap w) else shiftRight diff (bitmap w) in
    (true, mk seq (set_bit 0 b))
  else
    let diff := maxSeq w - seq in
    if WindowSizeBits <=? diff then (false, w) else
    if seen_bit diff (bitmap w) then (false, w) else (true, mk (maxSeq w) (set_bit diff (bitmap w))).

Definition Add (w : AntiReplayWindow) (seq : Z) : bool * AntiReplayWindow := CheckAndAdd w seq.

Definition Reset (w : AntiReplayWindow) : AntiReplayWindow := mk 0 (zero_words WindowWords (bitmap w)).

End Replay.

(** ** What the window guarantees *)

Module ReplayFacts.
Import Bytes Replay.

(** The bitmap as one number. *)
Definition value (b : list Z) : Z := foldr (λ w acc, w + 2 ^ 64 * acc) 0 b.
Definition words (b : list Z) : Prop := length b = WindowWords ∧ Forall (is_uint 64) b.

Definition bits (b : list Z) : Z := 64 * Z.of_nat (length b).

Lemma value_range b : Forall (is_uint 64) b → 0 <= value b < 2 ^ bits b.
Proof.
  unfold bits. induction b as [|w b IH]; intros Hb; [done|]. apply Forall_cons in Hb as [Hw Hb]. specialize (IH Hb). cbn [value foldr length].
  fold (value b). unfold is_uint in Hw. replace (64 * Z.of_nat (S (length b))) with (64 + 64 * Z.of_nat (length b)) by lia.
  rewrite Z.pow_add_r by lia. nia.
Qed.

Lemma value_app b b' : value (b ++ b') = value b + 2 ^ bits b * value b'.
Proof.
  unfold bits. induction b as [|w b IH]; [cbn [app length value foldr]; fold (value b'); rewrite Z.mul_0_r, Z.pow_0_r; lia|].
  cbn [app value foldr length]. fold (value (b ++ b')) (value b). rewrite IH.
  replace (64 * Z.of_nat (S (length b))) with (64 + 64 * Z.of_nat (length b)) by lia. rewrite Z.pow_add_r by lia. lia.
Qed.

Lemma value_zeros n : value (replicate n 0) = 0.
Proof. induction n as [|n IH]; [done|]. cbn [replicate value foldr]. fold (value (replicate n 0)). by rewrite IH. Qed.

(** The bit of a counter is a bit of the number. *)
Lemma value_testbit b i : Forall (is_uint 64) b → 0 <= i → Z.testbit (value b) i = Z.testbit (word b (Z.to_nat (i / 64))) (i mod 64).
Proof.
  revert i. induction b as [|w b IH]; intros i Hb Hi; [by rewrite !Z.bits_0|]. apply Forall_cons in Hb as [Hw Hb].
  cbn [value foldr]. fold (value b). rewrite Z.add_comm, Z.mul_comm, <- lor_low, Z.lor_spec by (try exact Hw; lia).
  destruct (Z.lt_ge_cases i 64).
  - rewrite Z.shiftl_spec_low by lia. rewrite Z.div_small, Z.mod_small by lia. done.
  - rewrite Z.shiftl_spec_high by lia. rewrite (IH (i - 64)) by (try done; lia).
    replace (i / 64) with ((i - 64) / 64 + 1) by (rewrite <- Z.div_add by lia; f_equal; lia).
    rewrite <- (Z.mod_add i (-1) 64) by lia. replace (i + -1 * 64) with (i - 64) by lia.
    assert (0 <= (i - 64) / 64) by (apply Z.div_pos; lia).
    replace (Z.to_nat ((i - 64) / 64 + 1)) with (S (Z.to_nat ((i - 64) / 64))) by lia.
    rewrite <- (Z.mod_small w (2 ^ 64)) by exact Hw. rewrite Z.mod_pow2_bits_high by lia. by rewrite orb_false_r.
Qed.

(** *** The shifts *)

Ltac sixteen b H := do 16 (destruct b as [|? b]; [discriminate H|]); destruct b; [|discriminate H].

Lemma zero_all b : length b = WindowWords → zero_words WindowWords b = replicate WindowWords 0.
Proof. intros H. sixteen b H. reflexivity. Qed.

Lemma move_zero ws b :
  length b = WindowWords → (0 < ws < WindowWords)%nat → zero_words ws (move_words ws b) = replicate ws 0 ++ take (WindowWords - ws) b.
Proof.
  intros H Hw. sixteen b H. do 16 (destruct ws as [|ws]; [try (exfalso; lia); reflexivity|]). unfold WindowWords in Hw. exfalso; lia.
Qed.

Lemma shift_word w k carry :
  0 < k < 64 → is_uint 64 w → is_uint k carry →
  Z.lor (uint 64 (Z.shiftl w k)) carry = (w * 2 ^ k) mod 2 ^ 64 + carry ∧
  w * 2 ^ k = (w * 2 ^ k) mod 2 ^ 64 + 2 ^ 64 * Z.shiftr w (64 - k) ∧ is_uint k (Z.shiftr w (64 - k)).
Proof.
  intros Hk Hw Hc. unfold is_uint in *. assert (2 ^ 64 = 2 ^ (64 - k) * 2 ^ k) as E by (rewrite <- Z.pow_add_r by lia; f_equal; lia).
  assert (0 < 2 ^ k) by lia. assert (0 < 2 ^ (64 - k)) by lia.
  rewrite Z.shiftr_div_pow2, Z.shiftl_mul_pow2 by lia. unfold uint.
  assert ((w * 2 ^ k) mod 2 ^ 64 = w mod 2 ^ (64 - k) * 2 ^ k) as -> by (rewrite E; apply Z.mul_mod_distr_r; lia).
  pose proof (Z.div_mod w (2 ^ (64 - k)) ltac:(lia)) as Hd. split; [|split].
  - rewrite <- (Z.shiftl_mul_pow2 (w mod _)) by lia. rewrite lor_low, Z.shiftl_mul_pow2 by lia. done.
  - rewrite E. rewrite Hd at 1. ring.
  - split; [apply Z.div_pos; lia|]. apply Z.div_lt_upper_bound; lia.
Qed.

Lemma shift_bits_value k carry b :
  0 < k < 64 → is_uint k carry → Forall (is_uint 64) b →
  value (shift_bits k carry b) = (value b * 2 ^ k + carry) mod 2 ^ bits b ∧ Forall (is_uint 64) (shift_bits k carry b) ∧
  length (shift_bits k carry b) = length b.
Proof.
  unfold bits. intros Hk. revert carry. induction b as [|w b IH]; intros carry Hc Hb; [by rewrite Z.mod_1_r|].
  apply Forall_cons in Hb as [Hw Hb]. destruct (shift_word w k carry Hk Hw Hc) as (E1 & E2 & Hc').
  destruct (IH _ Hc' Hb) as (E3 & H3 & H4). cbn [shift_bits value foldr length]. fold (value b) (value (shift_bits k (Z.shiftr w (64 - k)) b)).
  rewrite E1, E3, H4. set (m := (w * 2 ^ k) mod 2 ^ 64) in *.
  assert (0 <= m + carry < 2 ^ 64) as Hm.
  { rewrite <- E1. unfold is_uint in *. split; [apply Z.lor_nonneg; split; [apply uint_range; lia|lia]|].
    rewrite E1. unfold m.
    assert (2 ^ 64 = 2 ^ (64 - k) * 2 ^ k) as E by (rewrite <- Z.pow_add_r by lia; f_equal; lia).
    rewrite E, Z.mul_mod_distr_r by lia. pose proof (Z.mod_pos_bound w (2 ^ (64 - k)) ltac:(lia)). nia. }
  split; [|split; [constructor; [exact Hm|exact H3]|done]].
  replace (64 * Z.of_nat (S (length b))) with (64 + 64 * Z.of_nat (length b)) by lia. rewrite Z.pow_add_r by lia.
  rewrite Z.mul_add_distr_r, E2. symmetry. set (M := 2 ^ (64 * Z.of_nat (length b))). set (c := Z.shiftr w (64 - k)).
  replace (m + 2 ^ 64 * c + 2 ^ 64 * value b * 2 ^ k + carry) with (m + carry + 2 ^ 64 * (value b * 2 ^ k + c)) by ring.
  rewrite Z.rem_mul_r by (unfold M; lia).
  rewrite (Z.mul_comm (2 ^ 64) (_ + c)), Z.mod_add, Z.div_add, (Z.div_small (m + carry)), (Z.mod_small (m + carry)), Z.add_0_l by lia. lia.
Qed.

Lemma words_zero : words (replicate WindowWords 0).
Proof. split; [done|]. apply Forall_replicate. by split. Qed.

Lemma word_shift_value ws b :
  words b → (0 < ws < WindowWords)%nat →
  words (zero_words ws (move_words ws b)) ∧ value (zero_words ws (move_words ws b)) = (value b * 2 ^ (64 * Z.of_nat ws)) mod 2 ^ 1024.
Proof.
  intros [Hl Hb] Hw. rewrite move_zero by done. unfold WindowWords in *. split.
  { split; [rewrite length_app, length_replicate, length_take, Hl; unfold WindowWords; lia|].
    apply Forall_app. split; [apply Forall_replicate; by split|by apply Forall_take]. }
  rewrite value_app, value_zeros. unfold bits. rewrite length_replicate.
  rewrite <- (take_drop (16 - ws) b) at 2. rewrite value_app. unfold bits. rewrite length_take, Hl, Nat.min_l by lia.
  pose proof (value_range (take (16 - ws) b) ltac:(by apply Forall_take)) as Hr. unfold bits in Hr. rewrite length_take, Hl, Nat.min_l in Hr by lia.
  assert (2 ^ 1024 = 2 ^ (64 * Z.of_nat (16 - ws)) * 2 ^ (64 * Z.of_nat ws)) as E by (rewrite <- Z.pow_add_r by lia; f_equal; lia).
  set (A := 2 ^ (64 * Z.of_nat (16 - ws))) in *. set (B := 2 ^ (64 * Z.of_nat ws)) in *.
  replace ((value (take (16 - ws) b) + A * value (drop (16 - ws) b)) * B) with (value (take (16 - ws) b) * B + value (drop (16 - ws) b) * (A * B)) by ring.
  rewrite <- E, Z.mod_add, Z.mod_small by (try rewrite E; unfold A, B in *; nia). ring.
Qed.

Lemma shiftRight_value n b :
  words b → 0 < n < WindowSizeBits → words (shiftRight n b) ∧ value (shiftRight n b) = (value b * 2 ^ n) mod 2 ^ WindowSizeBits.
Proof.
  intros Hw Hn. unfold shiftRight, WindowSizeBits in *.
  assert (0 <= n / 64 < 16) as Hd by (split; [apply Z.div_pos; lia|apply Z.div_lt_upper_bound; lia]).
  pose proof (Z.mod_pos_bound n 64 ltac:(lia)) as Hm. pose proof (Z.div_mod n 64 ltac:(lia)) as En.
  set (ws := Z.to_nat (n / 64)). assert (n / 64 = Z.of_nat ws) as Ew by lia.
  assert (Nat.leb WindowWords ws = false) as -> by (apply Nat.leb_gt; unfold WindowWords; lia).
  set (b1 := if Nat.ltb 0 ws then _ else b).
  assert (words b1 ∧ value b1 = (value b * 2 ^ (64 * Z.of_nat ws)) mod 2 ^ 1024) as [[Hl1 Hb1] Ev].
  { unfold b1. destruct (Nat.ltb 0 ws) eqn:E.
    - apply Nat.ltb_lt in E. apply word_shift_value; [done|]. unfold WindowWords. lia.
    - apply Nat.ltb_ge in E. assert (ws = 0%nat) as -> by lia. split; [done|]. rewrite Z.mul_0_r, Z.pow_0_r, Z.mul_1_r.
      symmetry. apply Z.mod_small. destruct Hw as [Hl Hb]. pose proof (value_range b Hb) as Hr. unfold bits in Hr. by rewrite Hl in Hr. }
  destruct (0 <? n mod 64) eqn:E.
  - apply Z.ltb_lt in E. destruct (shift_bits_value (n mod 64) 0 b1) as (E1 & H1 & H2); [lia|unfold is_uint; lia|done|].
    split; [split; [by rewrite H2|done]|]. rewrite E1, Ev. unfold bits. rewrite Hl1. change (64 * Z.of_nat WindowWords) with 1024.
    rewrite Z.add_0_r, Z.mul_mod_idemp_l by lia. rewrite <- Z.mul_assoc, <- Z.pow_add_r by lia. do 3 f_equal. lia.
  - apply Z.ltb_ge in E. split; [done|]. rewrite Ev. do 3 f_equal. lia.
Qed.

(** *** Bit by bit *)

Lemma shiftRight_testbit n b i :
  words b → 0 < n < WindowSizeBits → 0 <= i < WindowSizeBits →
  Z.testbit (value (shiftRight n b)) i = (n <=? i) && Z.testbit (value b) (i - n).
Proof.
  intros Hb Hn Hi. destruct (shiftRight_value n b Hb Hn) as [_ ->]. rewrite Z.mod_pow2_bits_low by lia.
  rewrite <- Z.shiftl_mul_pow2 by lia. destruct (Z.leb_spec n i).
  - by rewrite Z.shiftl_spec_high by lia.
  - by rewrite Z.shiftl_spec_low by lia.
Qed.

Lemma testbit_pow2 d i : 0 <= d → 0 <= i → Z.testbit (Z.shiftl 1 d) i = (i =? d).
Proof.
  intros Hd Hi. rewrite Z.shiftl_1_l. destruct (Z.eqb_spec i d) as [->|]; [by apply Z.pow2_bits_true|by apply Z.pow2_bits_false].
Qed.

Lemma seen_bit_testbit d b : words b → 0 <= d → seen_bit d b = Z.testbit (value b) d.
Proof.
  intros [_ Hb] Hd. rewrite value_testbit by done. unfold seen_bit. set (x := word b _). pose proof (Z.mod_pos_bound d 64 ltac:(lia)).
  destruct (Z.testbit x (d mod 64)) eqn:E.
  - apply negb_true_iff, Z.eqb_neq. intros H0. apply (f_equal (λ z, Z.testbit z (d mod 64))) in H0.
    rewrite Z.land_spec, testbit_pow2, Z.bits_0, E, Z.eqb_refl in H0 by lia. done.
  - apply negb_false_iff, Z.eqb_eq. apply Z.bits_inj'. intros i Hi. rewrite Z.land_spec, testbit_pow2, Z.bits_0 by lia.
    destruct (Z.eqb_spec i (d mod 64)) as [->|]; [by rewrite E|apply andb_false_r].
Qed.

Lemma word_range b i : Forall (is_uint 64) b → is_uint 64 (word b i).
Proof.
  intros Hb. unfold word, at_. destruct (b !! i) eqn:E; [|by split]. by eapply Forall_lookup_1.
Qed.

Lemma lor_range a b n : 0 <= n → is_uint n a → is_uint n b → is_uint n (Z.lor a b).
Proof.
  intros Hn Ha Hb. unfold is_uint in *. rewrite <- (Z.mod_small a (2 ^ n)), <- (Z.mod_small b (2 ^ n)) by done.
  rewrite <- !Z.land_ones, <- Z.land_lor_distr_l, Z.land_ones by done. apply Z.mod_pos_bound. lia.
Qed.

Lemma set_bit_words d b : words b → words (set_bit d b).
Proof.
  intros [Hl Hb]. unfold set_bit. split; [by rewrite length_insert|]. apply Forall_insert; [done|].
  pose proof (Z.mod_pos_bound d 64 ltac:(lia)). apply lor_range; [lia|by apply word_range|]. rewrite Z.shiftl_1_l.
  split; [apply Z.pow_nonneg; lia|]. apply Z.pow_lt_mono_r; lia.
Qed.

Lemma set_bit_testbit d b i :
  words b → 0 <= d < WindowSizeBits → 0 <= i → Z.testbit (value (set_bit d b)) i = (i =? d) || Z.testbit (value b) i.
Proof.
  intros Hw Hd Hi. pose proof (set_bit_words d b Hw) as [_ Hw']. destruct Hw as [Hl Hb]. unfold WindowSizeBits in Hd.
  rewrite !value_testbit by done. unfold set_bit, word, at_.
  assert (0 <= d / 64 < 16) as Hq by (split; [apply Z.div_pos; lia|apply Z.div_lt_upper_bound; lia]).
  assert (0 <= i / 64) by (apply Z.div_pos; lia). pose proof (Z.mod_pos_bound i 64 ltac:(lia)). pose proof (Z.mod_pos_bound d 64 ltac:(lia)).
  pose proof (Z.div_mod i 64 ltac:(lia)). pose proof (Z.div_mod d 64 ltac:(lia)).
  destruct (decide (Z.to_nat (i / 64) = Z.to_nat (d / 64))) as [E|E].
  - rewrite E, list_lookup_insert_eq by (rewrite Hl; unfold WindowWords; lia). cbn [from_option id]. rewrite Z.lor_spec, testbit_pow2 by lia.
    rewrite orb_comm. f_equal. destruct (Z.eqb_spec (i mod 64) (d mod 64)), (Z.eqb_spec i d); try done; exfalso; lia.
  - rewrite list_lookup_insert_ne by done. assert ((i =? d) = false) as -> by (apply Z.eqb_neq; intros ->; done). done.
Qed.

(** *** The specification *)

(** The counters accepted so far, and the rule: everything at first, then whatever
    was not accepted and is less than a window behind the highest. *)
Definition highest (acc : list Z) : Z := foldr Z.max 0 acc.
Definition admits (acc : list Z) (seq : Z) : bool :=
  bool_decide (acc = []) || (bool_decide (seq ∉ acc) && (highest acc - seq <? WindowSizeBits)).
Definition noted (acc : list Z) (seq : Z) : list Z := if admits acc seq then seq :: acc else acc.

Lemma highest_le acc x : x ∈ acc → x <= highest acc.
Proof.
  intros Hx. induction acc as [|y acc IH]; [by apply elem_of_nil in Hx|]. cbn. fold (highest acc).
  apply elem_of_cons in Hx as [->|Hx]; [lia|]. specialize (IH Hx). lia.
Qed.

Record tracks (w : AntiReplayWindow) (acc : list Z) : Prop := {
  tk_words : words (bitmap w);
  tk_counters : Forall (λ x, 0 <= x) acc;
  tk_start : acc = [] → maxSeq w = 0 ∧ value (bitmap w) = 0;
  tk_max : acc ≠ [] → maxSeq w = highest acc ∧ highest acc ∈ acc;
  tk_bits : acc ≠ [] → ∀ i, 0 <= i < WindowSizeBits → Z.testbit (value (bitmap w)) i = bool_decide (maxSeq w - i ∈ acc);
}.

Lemma word0 b : words b → word b 0 = value b mod 2 ^ 64.
Proof.
  intros [Hl Hb]. sixteen b Hl. apply Forall_cons in Hb as [Hw Hb]. cbn [value foldr]. rewrite Z.mul_comm, Z.mod_add by lia.
  symmetry. by apply Z.mod_small.
Qed.

Lemma initial_tracks w acc : tracks w acc → is_initial w = bool_decide (acc = []).
Proof.
  intros [Hw Hc Hs Hm Hb]. unfold is_initial. rewrite word0 by done. destruct acc as [|x acc].
  - destruct (Hs eq_refl) as [-> ->]. done.
  - rewrite bool_decide_eq_false_2 by done. apply andb_false_iff. right. apply Z.eqb_neq. intros H0.
    specialize (Hb ltac:(done) 0 ltac:(unfold WindowSizeBits; lia)). destruct (Hm ltac:(done)) as [E Hin].
    rewrite Z.sub_0_r, E, bool_decide_eq_true_2 in Hb by done.
    rewrite <- (Z.mod_pow2_bits_low _ 64) in Hb by lia. by rewrite H0, Z.bits_0 in Hb.
Qed.

Lemma fresh_tracks : tracks NewAntiReplayWindow [].
Proof. split; [apply words_zero|by constructor|done|done|done]. Qed.

Lemma zero_tracks_words b : words b → words (zero_words WindowWords b) ∧ value (zero_words WindowWords b) = 0.
Proof. intros [Hl _]. rewrite zero_all by done. split; [apply words_zero|apply value_zeros]. Qed.

(** A new highest counter, over a bitmap that was moved along. *)
Lemma advance_tracks w acc seq b :
  tracks w acc → 0 <= seq → (acc ≠ [] → maxSeq w < seq) → words b →
  (∀ i, 0 < i < WindowSizeBits → Z.testbit (value b) i = bool_decide (seq - i ∈ acc)) →
  tracks (mk seq (set_bit 0 b)) (seq :: acc).
Proof.
  intros [Hw Hc Hs Hm Hb] Hseq Hlt Hwb Hbits.
  assert (highest (seq :: acc) = seq) as Eh.
  { destruct (decide (acc = [])) as [->|Hne]; [cbn; lia|]. destruct (Hm Hne) as [E _]. specialize (Hlt Hne). cbn. fold (highest acc). lia. }
  split; cbn [bitmap maxSeq].
  - by apply set_bit_words.
  - by constructor.
  - done.
  - intros _. rewrite Eh. split; [done|left].
  - intros _ i Hi. rewrite set_bit_testbit by (unfold WindowSizeBits in *; try done; lia). destruct (Z.eqb_spec i 0) as [->|Hne].
    + rewrite Z.sub_0_r, bool_decide_eq_true_2 by left. done.
    + rewrite Hbits by lia. cbn [orb]. apply bool_decide_ext. rewrite elem_of_cons. split; [by right|]. intros [?|?]; [lia|done].
Qed.

(** A counter inside the window. *)
Lemma mark_tracks w acc seq :
  tracks w acc → acc ≠ [] → 0 <= seq → seq <= maxSeq w → maxSeq w - seq < WindowSizeBits → seq ∉ acc →
  tracks (mk (maxSeq w) (set_bit (maxSeq w - seq) (bitmap w))) (seq :: acc).
Proof.
  intros [Hw Hc Hs Hm Hb] Hne Hseq Hle Hin Hnew. destruct (Hm Hne) as [Em Hmax]. specialize (Hb Hne). split; cbn [bitmap maxSeq].
  - by apply set_bit_words.
  - by constructor.
  - done.
  - intros _. cbn. fold (highest acc). rewrite Z.max_r by lia. split; [done|by right].
  - intros _ i Hi. rewrite set_bit_testbit, Hb by (try done; lia). destruct (Z.eqb_spec i (maxSeq w - seq)) as [->|Hni].
    + cbn [orb]. symmetry. apply bool_decide_eq_true_2, elem_of_cons. left. lia.
    + cbn [orb]. apply bool_decide_ext. rewrite elem_of_cons. split; [by right|]. intros [?|?]; [lia|done].
Qed.

(** A counter beyond it. *)
Lemma jump_tracks w acc seq :
  tracks w acc → acc ≠ [] → maxSeq w < seq → 0 <= seq →
  tracks (mk seq (set_bit 0 (if WindowSizeBits <=? seq - maxSeq w then zero_words WindowWords (bitmap w)
                             else shiftRight (seq - maxSeq w) (bitmap w)))) (seq :: acc).
Proof.
  intros Ht Hne Hlt Hseq. pose proof Ht as [Hw Hc Hs Hm Hb]. destruct (Hm Hne) as [Em _]. specialize (Hb Hne).
  destruct (Z.leb_spec WindowSizeBits (seq - maxSeq w)) as [Hbig|Hsmall].
  - destruct (zero_tracks_words (bitmap w) Hw) as [H1 H2]. apply (advance_tracks w); [done|done|done|done|].
    intros i Hi. rewrite H2, Z.bits_0. symmetry. apply bool_decide_eq_false. intros H. apply highest_le in H. lia.
  - destruct (shiftRight_value (seq - maxSeq w) (bitmap w) Hw) as [H1 _]; [lia|]. apply (advance_tracks w); [done|done|done|done|].
    intros i Hi. rewrite shiftRight_testbit by (try done; lia). destruct (Z.leb_spec (seq - maxSeq w) i); cbn [andb].
    + rewrite Hb by lia. by replace (maxSeq w - (i - (seq - maxSeq w))) with (seq - i) by lia.
    + symmetry. apply bool_decide_eq_false. intros H'. apply highest_le in H'. lia.
Qed.

Lemma step_tracks w acc seq :
  tracks w acc → 0 <= seq → (CheckAndAdd w seq).1 = admits acc seq ∧ tracks (CheckAndAdd w seq).2 (noted acc seq).
Proof.
  intros Ht Hseq. pose proof Ht as [Hw Hc Hs Hm Hb]. unfold CheckAndAdd, noted. rewrite (initial_tracks w acc Ht).
  destruct (decide (acc = [])) as [->|Hne].
  { rewrite bool_decide_eq_true_2 by done. split; [done|]. apply (advance_tracks w); [done|done|done|done|].
    intros i Hi. destruct (Hs eq_refl) as [_ ->]. rewrite Z.bits_0. done. }
  unfold admits. rewrite (bool_decide_eq_false_2 (acc = [])) by done. cbn [orb]. destruct (Hm Hne) as [Em Hin]. specialize (Hb Hne).
  rewrite <- Em. destruct (Z.ltb_spec (maxSeq w) seq) as [Hlt|Hge].
  - rewrite (bool_decide_eq_true_2 (seq ∉ acc)) by (intros H; apply highest_le in H; lia).
    rewrite (proj2 (Z.ltb_lt (maxSeq w - seq) WindowSizeBits)) by (unfold WindowSizeBits; lia). split; [done|]. by apply jump_tracks.
  - destruct (Z.leb_spec WindowSizeBits (maxSeq w - seq)) as [Hold|Hin'].
    { rewrite (proj2 (Z.ltb_ge (maxSeq w - seq) WindowSizeBits)), andb_false_r by lia. done. }
    rewrite (proj2 (Z.ltb_lt (maxSeq w - seq) WindowSizeBits)), andb_true_r by lia.
    rewrite seen_bit_testbit, Hb by (try done; lia). replace (maxSeq w - (maxSeq w - seq)) with seq by lia.
    destruct (decide (seq ∈ acc)) as [Hs'|Hs'].
    + rewrite (bool_decide_eq_true_2 (seq ∈ acc)), (bool_decide_eq_false_2 (seq ∉ acc)) by (try done; intros H; done). done.
    + rewrite (bool_decide_eq_false_2 (seq ∈ acc)), (bool_decide_eq_true_2 (seq ∉ acc)) by done. split; [done|]. by apply mark_tracks.
Qed.

Lemma Check_agrees w seq : Check w seq = (CheckAndAdd w seq).1.
Proof.
  unfold Check, CheckAndAdd. destruct (is_initial w); [done|]. destruct (_ <? seq); [done|]. destruct (_ <=? _); [done|]. by destruct (seen_bit _ _).
Qed.

Lemma reset_tracks w acc : tracks w acc → tracks (Reset w) [].
Proof.
  intros [Hw _ _ _ _]. destruct (zero_tracks_words (bitmap w) Hw) as [H1 H2]. split; [exact H1|by constructor| |done|done].
  intros _. split; [done|exact H2].
Qed.

(** *** Any sequence of calls *)

Inductive call := DoCheck (seq : Z) | DoAdd (seq : Z) | DoReset.

Definition counter_ok (c : call) : Prop := match c with DoCheck seq | DoAdd seq => is_uint 64 seq | DoReset => True end.

Definition perform (w : AntiReplayWindow) (c : call) : bool * AntiReplayWindow :=
  match c with DoCheck seq => (Check w seq, w) | DoAdd seq => CheckAndAdd w seq | DoReset => (true, Reset w) end.
Definition perform_spec (acc : list Z) (c : call) : bool * list Z :=
  match c with DoCheck seq => (admits acc seq, acc) | DoAdd seq => (admits acc seq, noted acc seq) | DoReset => (true, []) end.

Fixpoint answers {S} (f : S → call → bool * S) (s : S) (l : list call) : list bool * S :=
  match l with
  | [] => ([], s)
  | c :: l' => let '(b, s1) := f s c in let '(bs, s2) := answers f s1 l' in (b :: bs, s2)
  end.

Lemma perform_tracks w acc c :
  tracks w acc → counter_ok c → (perform w c).1 = (perform_spec acc c).1 ∧ tracks (perform w c).2 (perform_spec acc c).2.
Proof.
  intros Ht Hc. destruct c as [seq|seq|]; cbn [perform perform_spec fst snd].
  - rewrite Check_agrees. split; [|done]. by apply step_tracks, Hc.
  - by apply step_tracks, Hc.
  - split; [done|]. by eapply reset_tracks.
Qed.

Lemma answers_track l w acc :
  tracks w acc → Forall counter_ok l →
  (answers perform w l).1 = (answers perform_spec acc l).1 ∧ tracks (answers perform w l).2 (answers perform_spec acc l).2.
Proof.
  revert w acc. induction l as [|c l IH]; intros w acc Ht Hl; [done|]. apply Forall_cons in Hl as [Hc Hl]. cbn [answers].
  destruct (perform_tracks w acc c Ht Hc) as [E1 H1]. destruct (perform w c) as [b w1], (perform_spec acc c) as [b' acc1]. cbn [fst snd] in *.
  destruct (IH w1 acc1 H1 Hl) as [E2 H2]. destruct (answers perform w1 l) as [bs w2], (answers perform_spec acc1 l) as [bs' acc2].
  cbn [fst snd] in *. by subst.
Qed.

Lemma noted_NoDup acc seq : NoDup acc → NoDup (noted acc seq).
Proof.
  intros Hn. unfold noted, admits. case_bool_decide as E; [subst; apply NoDup_singleton|]. cbn [orb].
  case_bool_decide as E1; cbn [andb]; [|done]. destruct (_ <? _); [by constructor|done].
Qed.

Lemma spec_NoDup l acc : NoDup acc → NoDup (answers perform_spec acc l).2.
Proof.
  revert acc. induction l as [|c l IH]; intros acc Hn; [done|]. cbn [answers]. destruct (perform_spec acc c) as [b acc1] eqn:E.
  assert (NoDup acc1) as Hn1 by (destruct c; injection E as _ <-; [done|by apply noted_NoDup|apply NoDup_nil_2]).
  specialize (IH acc1 Hn1). by destruct (answers perform_spec acc1 l).
Qed.

(** C37. The window is exact.  Over any sequence of checks, insertions and resets with
    64-bit counters, the shifted bitmap answers as a memory of every counter accepted
    since the last reset that never forgets: a counter is accepted where it was not
    accepted before and is less than 1024 behind the highest, and refused otherwise.
    So no counter is accepted twice, however far the window has moved. *)
Theorem replay_window_exact l :
  Forall counter_ok l →
  (answers perform NewAntiReplayWindow l).1 = (answers perform_spec [] l).1 ∧ NoDup (answers perform_spec [] l).2.
Proof. intros Hl. split; [by apply answers_track; [apply fresh_tracks|]|apply spec_NoDup, NoDup_nil_2]. Qed.

Definition sample_calls : list call := [DoAdd 5; DoAdd 5; DoAdd 70; DoCheck 5; DoAdd 6; DoAdd 1100; DoAdd 70; DoAdd 77; DoReset; DoAdd 5].

Lemma replay_window_exact_witness :
  (answers perform NewAntiReplayWindow sample_calls).1 = (answers perform_spec [] sample_calls).1 ∧
  (answers perform NewAntiReplayWindow sample_calls).1 = [true; false; true; false; true; true; false; true; true; true].
Proof.
  split; [|vm_compute; reflexivity]. apply (replay_window_exact sample_calls). repeat constructor; unfold counter_ok, is_uint; lia.
Defined.

End ReplayFacts.
