(* ===== verification/Wire.v ===== *)
(** * The wire formats of the node

    The direct frame of [pkg/crypto/wire.go], the relay frame of [pkg/derp/frame.go]
    and the onion cell of [pkg/routing/cell.go].  A buffer filled field by field is the
    concatenation of its fields; a fixed array is a list of its length.  The random
    padding of a cell is an argument. *)

From S2P Require Import Prelude Bytes.

Module Wire.
Import Bytes.

(** ** The direct frame *)

Definition DirectFrameMagic : Z := 0x5356524E.
Definition CurrentWireVersion : Z := 4.
Definition Poly1305TagSize : nat := 16.
Definition MinDirectFrameSize : nat := 4 + 1 + 1 + 4 + 4 + 8 + Poly1305TagSize.

Record DirectFrame := mk_direct {
  Magic : Z; Version : Z; MsgType : Z; SenderSessionID : Z; ReceiverSessionID : Z; SequenceCounter : Z;
  Ciphertext : list Z; AuthTag : list Z
}.

Inductive wire_error := ErrFrameTooShort | ErrInvalidMagic | ErrUnsupportedVersion.

Definition EncodeDirectFrame (f : DirectFrame) : list Z :=
  put_be 4 (Magic f) ++ [Version f] ++ [MsgType f] ++ put_be 4 (SenderSessionID f) ++ put_be 4 (ReceiverSessionID f) ++
  put_be 8 (SequenceCounter f) ++ Ciphertext f ++ AuthTag f.

Definition DecodeDirectFrame (raw : list Z) : wire_error + DirectFrame :=
  if Nat.ltb (length raw) MinDirectFrameSize then inl ErrFrameTooShort else
  let magic := get_be (slice 0 4 raw) in
  if negb (magic =? DirectFrameMagic) then inl ErrInvalidMagic else
  let version := at_ raw 4 in
  if negb (version =? CurrentWireVersion) then inl ErrUnsupportedVersion else
  let ciphertextLen := (length raw - 22 - Poly1305TagSize)%nat in
  inr (mk_direct magic version (at_ raw 5) (get_be (slice 6 10 raw)) (get_be (slice 10 14 raw)) (get_be (slice 14 22 raw))
         (slice 22 (22 + ciphertextLen) raw) (drop (22 + ciphertextLen) raw)).

(** ** The relay frame *)

Definition PubKeySize : nat := 32.
Definition FrameHeaderSize : nat := 1 + 3 + PubKeySize + PubKeySize.
Definition MaxPayloadSize : Z := 65535.

Record Frame := mk_frame { Type_ : Z; DestPubKey : list Z; SrcPubKey : list Z; Payload : list Z }.

Inductive derp_error := ErrFrameTooSmall | ErrPayloadTooLarge.

Definition EncodeFrame (f : Frame) : derp_error + list Z :=
  let payloadLen := length (Payload f) in
  let n := Z.of_nat payloadLen in
  if MaxPayloadSize <? n then inl ErrPayloadTooLarge else
  inr ([Type_ f] ++ [uint 8 (Z.shiftr n 16); uint 8 (Z.shiftr n 8); uint 8 n] ++ DestPubKey f ++ SrcPubKey f ++ Payload f).

Definition DecodeFrame (raw : list Z) : derp_error + Frame :=
  if Nat.ltb (length raw) FrameHeaderSize then inl ErrFrameTooSmall else
  let payloadLen := Z.to_nat (Z.lor (Z.lor (Z.shiftl (at_ raw 1) 16) (Z.shiftl (at_ raw 2) 8)) (at_ raw 3)) in
  if Nat.ltb (length raw) (FrameHeaderSize + payloadLen) then inl ErrFrameTooSmall else
  inr (mk_frame (at_ raw 0) (slice 4 36 raw) (slice 36 68 raw) (slice 68 (68 + payloadLen) raw)).

(** ** The onion cell *)

Definition OnionCellFixedSize : nat := 1420.
Definition CellHeaderSize : nat := 4 + 1 + 3 + 4 + 2.
Definition MaxCellPayloadSize : nat := OnionCellFixedSize - CellHeaderSize.

Record OnionCell := mk_cell { CircuitID : Z; Command : Z; StreamID : Z; Digest : Z; CellPayload : list Z }.

Inductive cell_error := ErrInvalidCellSize | ErrCellPayloadOverflow.

(** [pad] is what [rand.Read] puts in the rest of the buffer. *)
Definition EncodeCell (pad : nat → list Z) (c : OnionCell) : cell_error + list Z :=
  if Nat.ltb MaxCellPayloadSize (length (CellPayload c)) then inl ErrCellPayloadOverflow else
  inr (put_be 4 (CircuitID c) ++ [Command c] ++
       [uint 8 (Z.shiftr (StreamID c) 16); uint 8 (Z.shiftr (StreamID c) 8); uint 8 (StreamID c)] ++
       put_be 4 (Digest c) ++ put_be 2 (Z.of_nat (length (CellPayload c))) ++ CellPayload c ++
       pad (OnionCellFixedSize - (14 + length (CellPayload c)))%nat).

Definition DecodeCell (raw : list Z) : cell_error + OnionCell :=
  if negb (Nat.eqb (length raw) OnionCellFixedSize) then inl ErrInvalidCellSize else
  let payloadLen := Z.to_nat (get_be (slice 12 14 raw)) in
  if Nat.ltb MaxCellPayloadSize payloadLen then inl ErrCellPayloadOverflow else
  inr (mk_cell (get_be (slice 0 4 raw)) (at_ raw 4)
         (Z.lor (Z.lor (Z.shiftl (at_ raw 5) 16) (Z.shiftl (at_ raw 6) 8)) (at_ raw 7))
         (get_be (slice 8 12 raw)) (slice 14 (14 + payloadLen) raw)).

End Wire.

(** ** What the formats guarantee *)

Module WireFacts.
Import Bytes Wire.

Lemma be3 a b c : bytes [a; b; c] → Z.lor (Z.lor (Z.shiftl a 16) (Z.shiftl b 8)) c = get_be [a; b; c].
Proof.
  intros H. unfold get_be. cbn [foldl]. rewrite Z.shiftl_0_l, Z.lor_0_l. f_equal.
  rewrite Z.shiftl_lor, Z.shiftl_shiftl by done. done.
Qed.

Lemma put3 n : [uint 8 (Z.shiftr n 16); uint 8 (Z.shiftr n 8); uint 8 n] = put_be 3 n.
Proof. cbn [put_be]. by rewrite Z.shiftr_0_r. Qed.

(** *** Direct frames *)

Record direct_ok (f : DirectFrame) : Prop := {
  do_version : is_uint 8 (Version f); do_type : is_uint 8 (MsgType f);
  do_magic : is_uint 32 (Magic f); do_sender : is_uint 32 (SenderSessionID f); do_receiver : is_uint 32 (ReceiverSessionID f);
  do_counter : is_uint 64 (SequenceCounter f); do_text : bytes (Ciphertext f); do_tag : bytes (AuthTag f);
  do_tag_len : length (AuthTag f) = Poly1305TagSize;
}.

Lemma encode_direct_length f : length (EncodeDirectFrame f) = (22 + length (Ciphertext f) + length (AuthTag f))%nat.
Proof. unfold EncodeDirectFrame. rewrite !length_app, !put_be_length. cbn [length]. lia. Qed.

(** What the decoder reads of a buffer laid out as a frame. *)
Lemma decode_direct_fields m v t sid rid c x g :
  length m = 4%nat → length sid = 4%nat → length rid = 4%nat → length c = 8%nat → length g = Poly1305TagSize →
  DecodeDirectFrame (m ++ [v] ++ [t] ++ sid ++ rid ++ c ++ x ++ g) =
  if negb (get_be m =? DirectFrameMagic) then inl ErrInvalidMagic else if negb (v =? CurrentWireVersion) then inl ErrUnsupportedVersion
  else inr (mk_direct (get_be m) v t (get_be sid) (get_be rid) (get_be c) x g).
Proof.
  intros Hm Hs Hr Hc Hg. unfold DecodeDirectFrame. cbv zeta.
  assert (length (m ++ [v] ++ [t] ++ sid ++ rid ++ c ++ x ++ g) = (22 + length x + Poly1305TagSize)%nat) as Hl
    by (rewrite !length_app, Hm, Hs, Hr, Hc, Hg; cbn [length]; lia).
  rewrite Hl. rewrite (proj2 (Nat.ltb_ge _ _)) by (unfold MinDirectFrameSize; lia).
  replace (22 + length x + Poly1305TagSize - 22 - Poly1305TagSize)%nat with (length x) by lia.
  assert (slice 22 (22 + length x) (m ++ [v] ++ [t] ++ sid ++ rid ++ c ++ x ++ g) = x) as ->.
  { apply (slice_at (m ++ [v] ++ [t] ++ sid ++ rid ++ c) x g); [by rewrite <- !app_assoc| |done].
    rewrite !length_app, Hm, Hs, Hr, Hc. done. }
  assert (drop (22 + length x) (m ++ [v] ++ [t] ++ sid ++ rid ++ c ++ x ++ g) = g) as ->.
  { rewrite !app_assoc. apply drop_app_length'. rewrite !length_app, Hm, Hs, Hr, Hc. cbn [length]. lia. }
  do 4 (destruct m as [|? m]; [done|]). destruct m; [|done]. do 4 (destruct sid as [|? sid]; [done|]). destruct sid; [|done].
  do 4 (destruct rid as [|? rid]; [done|]). destruct rid; [|done]. do 8 (destruct c as [|? c]; [done|]). destruct c; [|done]. reflexivity.
Qed.

Lemma decode_encode_direct f :
  direct_ok f → Magic f = DirectFrameMagic → Version f = CurrentWireVersion → DecodeDirectFrame (EncodeDirectFrame f) = inr f.
Proof.
  intros [Hv Ht Hm Hs Hr Hc Hx Hg Hl] Em Ev. unfold EncodeDirectFrame. rewrite decode_direct_fields by (rewrite ?put_be_length; done).
  rewrite !get_put by done. rewrite Em, Ev, !Z.eqb_refl. cbn [negb]. rewrite <- Em, <- Ev. by destruct f.
Qed.

(** Every buffer long enough is laid out so. *)
Lemma direct_layout (raw : list Z) :
  (MinDirectFrameSize <= length raw)%nat → ∃ m v t sid rid c x g,
    raw = m ++ [v] ++ [t] ++ sid ++ rid ++ c ++ x ++ g ∧
    length m = 4%nat ∧ length sid = 4%nat ∧ length rid = 4%nat ∧ length c = 8%nat ∧ length g = Poly1305TagSize.
Proof.
  unfold MinDirectFrameSize. intros Hl. do 22 (destruct raw as [|? raw]; [exfalso; cbn [length] in Hl; lia|]). cbn [length] in Hl.
  eexists [_; _; _; _], _, _, [_; _; _; _], [_; _; _; _], [_; _; _; _; _; _; _; _], (take (length raw - 16)%nat raw), (drop (length raw - 16)%nat raw).
  rewrite take_drop. split; [reflexivity|]. split_and!; [done..|]. rewrite length_drop. unfold Poly1305TagSize in *. lia.
Qed.

Lemma encode_decode_direct raw f : bytes raw → DecodeDirectFrame raw = inr f → EncodeDirectFrame f = raw ∧ direct_ok f.
Proof.
  intros Hb H. destruct (Nat.ltb (length raw) MinDirectFrameSize) eqn:El; [unfold DecodeDirectFrame in H; by rewrite El in H|].
  apply Nat.ltb_ge in El. destruct (direct_layout raw El) as (m & v & t & sid & rid & c & x & g & -> & Hm & Hs & Hr & Hc & Hg).
  rewrite decode_direct_fields in H by done. destruct (negb _) in H; [done|]. destruct (negb _) in H; [done|]. injection H as <-.
  rewrite !bytes_app in Hb. destruct Hb as (B1 & B2 & B3 & B4 & B5 & B6 & B7 & B8). split.
  - unfold EncodeDirectFrame. cbn [Magic Version MsgType SenderSessionID ReceiverSessionID SequenceCounter Ciphertext AuthTag].
    pose proof (put_get m B1) as P1. pose proof (put_get sid B4) as P2. pose proof (put_get rid B5) as P3. pose proof (put_get c B6) as P4.
    rewrite Hm in P1. rewrite Hs in P2. rewrite Hr in P3. rewrite Hc in P4. by rewrite P1, P2, P3, P4.
  - pose proof (get_be_range m B1) as R1. pose proof (get_be_range sid B4) as R2. pose proof (get_be_range rid B5) as R3.
    pose proof (get_be_range c B6) as R4. rewrite Hm in R1. rewrite Hs in R2. rewrite Hr in R3. rewrite Hc in R4.
    apply Forall_cons in B2 as [B2 _], B3 as [B3 _]. split; [exact B2|exact B3|exact R1|exact R2|exact R3|exact R4|exact B7|exact B8|exact Hg].
Qed.

(** Frames and buffers correspond one to one: a well-formed frame of this version is
    read back as it was written, and a buffer that is accepted is exactly what its
    frame is written as, so no two buffers are read as the same frame and no byte of a
    frame is ignored.  A buffer is accepted where it is long enough and starts with
    the magic and the version. *)
Theorem direct_frame_roundtrip :
  (∀ f, direct_ok f → Magic f = DirectFrameMagic → Version f = CurrentWireVersion → DecodeDirectFrame (EncodeDirectFrame f) = inr f) ∧
  (∀ raw f, bytes raw → DecodeDirectFrame raw = inr f → EncodeDirectFrame f = raw ∧ direct_ok f) ∧
  (∀ raw, (∃ f, DecodeDirectFrame raw = inr f) ↔
     (MinDirectFrameSize <= length raw)%nat ∧ get_be (take 4 raw) = DirectFrameMagic ∧ at_ raw 4 = CurrentWireVersion).
Proof.
  split; [apply decode_encode_direct|]. split; [apply encode_decode_direct|]. intros raw. unfold DecodeDirectFrame.
  destruct (Nat.ltb_spec (length raw) MinDirectFrameSize) as [Hl|Hl]; [split; [by intros [? ?]|lia]|]. cbv zeta.
  change (slice 0 4 raw) with (take 4 raw).
  destruct (Z.eqb_spec (get_be (take 4 raw)) DirectFrameMagic) as [E1|E1]; cbn [negb]; [|split; [by intros [? ?]|tauto]].
  destruct (Z.eqb_spec (at_ raw 4) CurrentWireVersion) as [E2|E2]; cbn [negb]; [|split; [by intros [? ?]|tauto]].
  split; [done|]. intros _. by eexists.
Qed.

(** *** Relay frames *)

Record frame_ok (f : Frame) : Prop := {
  fo_type : is_uint 8 (Type_ f); fo_dest : length (DestPubKey f) = PubKeySize; fo_src : length (SrcPubKey f) = PubKeySize;
}.

Lemma decode_frame_fields t n dest src rest :
  bytes n → length n = 3%nat → length dest = PubKeySize → length src = PubKeySize →
  DecodeFrame ([t] ++ n ++ dest ++ src ++ rest) =
  if Nat.ltb (length rest) (Z.to_nat (get_be n)) then inl ErrFrameTooSmall
  else inr (mk_frame t dest src (take (Z.to_nat (get_be n)) rest)).
Proof.
  intros Hb Hn Hd Hs. do 3 (destruct n as [|? n]; [done|]). destruct n; [|done]. unfold DecodeFrame.
  assert (length ([t] ++ [z; z0; z1] ++ dest ++ src ++ rest) = (FrameHeaderSize + length rest)%nat) as Hl
    by (rewrite !length_app, Hd, Hs; cbn [length]; unfold FrameHeaderSize, PubKeySize; lia).
  rewrite Hl, (proj2 (Nat.ltb_ge _ _)) by lia. cbv zeta. change (at_ _ 1) with z. change (at_ _ 2) with z0. change (at_ _ 3) with z1.
  rewrite be3 by done. set (k := Z.to_nat (get_be [z; z0; z1])).
  destruct (Nat.ltb_spec (length rest) k) as [Hk|Hk]; destruct (Nat.ltb_spec (FrameHeaderSize + length rest) (FrameHeaderSize + k)); try lia; [done|].
  rewrite (slice_at [t; z; z0; z1] dest (src ++ rest)), (slice_at ([t; z; z0; z1] ++ dest) src rest),
    (slice_at ([t; z; z0; z1] ++ dest ++ src) (take k rest) (drop k rest));
    rewrite ?take_drop, ?length_app, ?Hd, ?Hs, ?length_take, <- ?app_assoc; try done.
  by rewrite Nat.min_l.
Qed.

(** A relay frame followed by anything is read back as it was written; one with a
    payload above the limit is not written; what is read is laid out as a frame, the
    rest of the buffer being left to the caller. *)
Theorem relay_frame_roundtrip :
  (∀ f rest, frame_ok f → Z.of_nat (length (Payload f)) <= MaxPayloadSize →
     ∃ raw, EncodeFrame f = inr raw ∧ DecodeFrame (raw ++ rest) = inr f) ∧
  (∀ f, MaxPayloadSize < Z.of_nat (length (Payload f)) → EncodeFrame f = inl ErrPayloadTooLarge) ∧
  (∀ raw f, bytes raw → DecodeFrame raw = inr f → frame_ok f ∧
     ∃ rest, raw = [Type_ f] ++ put_be 3 (Z.of_nat (length (Payload f))) ++ DestPubKey f ++ SrcPubKey f ++ Payload f ++ rest).
Proof.
  unfold MaxPayloadSize. split_and!.
  - intros f rest [Ht Hd Hs] Hl. unfold EncodeFrame, MaxPayloadSize. cbv zeta. rewrite (proj2 (Z.ltb_ge _ _)) by lia.
    eexists. split; [done|]. rewrite put3, <- !app_assoc.
    rewrite decode_frame_fields by (auto using put_be_bytes; apply put_be_length).
    rewrite get_put by (unfold is_uint; lia). rewrite Nat2Z.id, length_app, (proj2 (Nat.ltb_ge _ _)) by lia.
    rewrite take_app_length. by destruct f.
  - intros f Hl. unfold EncodeFrame, MaxPayloadSize. cbv zeta. by rewrite (proj2 (Z.ltb_lt _ _)).
  - intros raw f Hb H. destruct (Nat.ltb (length raw) FrameHeaderSize) eqn:El; [unfold DecodeFrame in H; by rewrite El in H|].
    apply Nat.ltb_ge in El. unfold FrameHeaderSize, PubKeySize in El.
    do 4 (destruct raw as [|? raw]; [cbn in El; lia|]). cbn [length] in El.
    rewrite <- (take_drop 32 raw), <- (take_drop 32 (drop 32 raw)) in H.
    change (z :: z0 :: z1 :: z2 :: ?l) with ([z] ++ [z0; z1; z2] ++ l) in H.
    apply Forall_cons in Hb as [Hz Hb]. change (Forall _ (z0 :: z1 :: z2 :: raw)) with (bytes ([z0; z1; z2] ++ raw)) in Hb.
    apply bytes_app in Hb as [Hn Hb]. set (rest := drop 32 (drop 32 raw)) in H.
    rewrite decode_frame_fields in H by (rewrite ?length_take, ?length_drop; unfold PubKeySize; try done; lia).
    destruct (Nat.ltb_spec (length rest) (Z.to_nat (get_be [z0; z1; z2]))) as [|Hk]; [done|]. injection H as <-. cbn [Type_ DestPubKey SrcPubKey Payload].
    split; [split; [done|..]; cbn; rewrite ?length_take, ?length_drop; unfold PubKeySize; lia|].
    exists (drop (Z.to_nat (get_be [z0; z1; z2])) rest). pose proof (get_be_range _ Hn) as Hr. unfold is_uint in Hr.
    rewrite length_take, Nat.min_l, Z2Nat.id by lia. change 3%nat with (length [z0; z1; z2]) at 1. rewrite put_get by done.
    rewrite take_drop. unfold rest. rewrite !take_drop. done.
Qed.

(** *** Onion cells *)

Record cell_ok (c : OnionCell) : Prop := {
  co_circuit : is_uint 32 (CircuitID c); co_command : is_uint 8 (Command c); co_stream : is_uint 24 (StreamID c);
  co_digest : is_uint 32 (Digest c);
}.

Lemma decode_cell_fields cid cmd sid dg n payload pad :
  length cid = 4%nat → bytes sid → length sid = 3%nat → length dg = 4%nat → length n = 2%nat → get_be n = Z.of_nat (length payload) →
  (length payload + length pad)%nat = MaxCellPayloadSize →
  DecodeCell (cid ++ [cmd] ++ sid ++ dg ++ n ++ payload ++ pad) = inr (mk_cell (get_be cid) cmd (get_be sid) (get_be dg) payload).
Proof.
  intros Hc Hb Hs Hd Hn En Hl. unfold DecodeCell.
  set (raw := cid ++ [cmd] ++ sid ++ dg ++ n ++ payload ++ pad).
  assert (length raw = OnionCellFixedSize) as Hr.
  { unfold raw. rewrite !length_app, Hc, Hs, Hd, Hn, Hl. unfold MaxCellPayloadSize, CellHeaderSize, OnionCellFixedSize. cbn [length]. lia. }
  rewrite Hr, Nat.eqb_refl. cbn [negb]. cbv zeta.
  assert (slice 12 14 raw = n) as ->.
  { apply (slice_at (cid ++ [cmd] ++ sid ++ dg) n (payload ++ pad)); [unfold raw; by rewrite <- !app_assoc|rewrite !length_app, Hc, Hs, Hd; done|by rewrite Hn]. }
  rewrite En, Nat2Z.id, (proj2 (Nat.ltb_ge _ _)) by lia.
  assert (slice 0 4 raw = cid) as -> by (apply (slice_at [] cid ([cmd] ++ sid ++ dg ++ n ++ payload ++ pad)); [done|done|by rewrite Hc]).
  assert (slice 8 12 raw = dg) as ->.
  { apply (slice_at (cid ++ [cmd] ++ sid) dg (n ++ payload ++ pad)); [unfold raw; by rewrite <- !app_assoc|rewrite !length_app, Hc, Hs; done|by rewrite Hd]. }
  assert (slice 14 (14 + length payload) raw = payload) as ->.
  { apply (slice_at (cid ++ [cmd] ++ sid ++ dg ++ n) payload pad); [unfold raw; by rewrite <- !app_assoc|rewrite !length_app, Hc, Hs, Hd, Hn; done|done]. }
  unfold raw. do 4 (destruct cid as [|? cid]; [done|]). destruct cid; [|done]. do 3 (destruct sid as [|? sid]; [done|]). destruct sid; [|done].
  change (at_ _ 4) with cmd. change (at_ _ 5) with z3. change (at_ _ 6) with z4. change (at_ _ 7) with z5. by rewrite be3.
Qed.

Section Cells.
Context (pad : nat → list Z) (Hp : ∀ n, length (pad n) = n).

Lemma cell_size c raw : EncodeCell pad c = inr raw → length raw = OnionCellFixedSize.
Proof using Hp.
  unfold EncodeCell. destruct (Nat.ltb_spec MaxCellPayloadSize (length (CellPayload c))) as [|Hl]; [done|]. intros E%(inj inr). subst raw.
  rewrite !length_app, !put_be_length, Hp. unfold MaxCellPayloadSize, CellHeaderSize, OnionCellFixedSize in *. cbn [length]. lia.
Qed.

Lemma cell_read c raw : cell_ok c → EncodeCell pad c = inr raw → DecodeCell raw = inr c.
Proof using Hp.
  intros [H1 H2 H3 H4]. unfold EncodeCell. destruct (Nat.ltb_spec MaxCellPayloadSize (length (CellPayload c))) as [|Hl]; [done|].
  intros E%(inj inr). subst raw. rewrite put3. unfold MaxCellPayloadSize, CellHeaderSize, OnionCellFixedSize in Hl.
  rewrite decode_cell_fields; rewrite ?put_be_length, ?Hp; auto using put_be_bytes.
  - rewrite !get_put by done. by destruct c.
  - rewrite get_put by (unfold is_uint; lia). done.
  - unfold MaxCellPayloadSize, CellHeaderSize, OnionCellFixedSize. lia.
Qed.

Lemma cell_fits c : (∃ raw, EncodeCell pad c = inr raw) ↔ (length (CellPayload c) <= MaxCellPayloadSize)%nat.
Proof.
  unfold EncodeCell. destruct (Nat.ltb_spec MaxCellPayloadSize (length (CellPayload c))) as [|Hl]; split; [by intros [? ?]|lia|done|by eexists].
Qed.

(** Every cell has the same size, whatever it carries, and is read back as it was
    written; a payload that does not fit is refused. *)
Theorem onion_cell_roundtrip :
  (∀ c raw, EncodeCell pad c = inr raw → length raw = OnionCellFixedSize) ∧
  (∀ c raw, cell_ok c → EncodeCell pad c = inr raw → DecodeCell raw = inr c) ∧
  (∀ c, (∃ raw, EncodeCell pad c = inr raw) ↔ (length (CellPayload c) <= MaxCellPayloadSize)%nat).
Proof using Hp. split_and!; [apply cell_size|apply cell_read|apply cell_fits]. Qed.

End Cells.

End WireFacts.

Module WireSamples.
Import Bytes Wire WireFacts.

Definition frame : DirectFrame := mk_direct DirectFrameMagic CurrentWireVersion 5 1 2 77 [104; 105] (replicate 16 9).

Lemma direct_frame_roundtrip_witness :
  DecodeDirectFrame (EncodeDirectFrame frame) = inr frame ∧ DecodeDirectFrame (5 :: EncodeDirectFrame frame) = inl ErrInvalidMagic.
Proof.
  split; [|vm_compute; reflexivity]. apply (proj1 direct_frame_roundtrip); [|done|done].
  split; try (vm_compute; split; [discriminate|reflexivity]); try done; unfold bytes, is_uint; repeat constructor; lia.
Defined.

Definition relayed : Frame := mk_frame 0x11 (replicate 32 1) (replicate 32 2) [1; 2; 3].

Lemma relay_frame_roundtrip_witness : ∃ raw, EncodeFrame relayed = inr raw ∧ DecodeFrame (raw ++ [9; 9]) = inr relayed.
Proof. apply (proj1 relay_frame_roundtrip); [split; [split; done|done|done]|done]. Defined.

Definition sample_cell : OnionCell := mk_cell 7 3 0xABCDEF 0 [1; 2; 3].

Lemma onion_cell_roundtrip_witness : ∃ raw, EncodeCell (λ n, replicate n 5) sample_cell = inr raw ∧ length raw = OnionCellFixedSize ∧ DecodeCell raw = inr sample_cell.
Proof.
  destruct (onion_cell_roundtrip (λ n, replicate n 5)) as (H1 & H2 & H3); [intros n; apply length_replicate|].
  destruct (proj2 (H3 sample_cell)) as [raw E]; [vm_compute; lia|]. exists raw. split; [exact E|]. split; [exact (H1 _ _ E)|].
  apply H2; [|exact E]. split; split; (discriminate || reflexivity).
Defined.

(** A relay frame is read with a payload that could not have been written. *)
Lemma oversized_payload_read p :
  length p = Z.to_nat 65536 →
  ∃ raw f, DecodeFrame raw = inr f ∧ Payload f = p ∧ EncodeFrame f = inl ErrPayloadTooLarge.
Proof.
  intros Hp. exists ([0x12] ++ put_be 3 65536 ++ replicate 32 0 ++ replicate 32 0 ++ p), (mk_frame 0x12 (replicate 32 0) (replicate 32 0) p).
  split; [|split; [done|]].
  - rewrite decode_frame_fields by (try done; apply put_be_bytes). rewrite get_put, <- Hp, firstn_all, (proj2 (Nat.ltb_ge _ _)) by (try done; lia). done.
  - unfold EncodeFrame. cbn [Payload]. rewrite Hp, Z2Nat.id by lia. done.
Qed.

End WireSamples.
