(* ===== verification/Primitives.v ===== *)
(** * The cryptographic libraries the node calls

    X25519, ChaCha20-Poly1305, XChaCha20-Poly1305, BLAKE2s and HKDF are third-party
    code: [Crypto] lists the functions the node uses of them, [CryptoLaws] the documented
    behaviour its theorems rely on.  [Toy] is an instance, which shows that the laws can
    hold together. *)

From S2P Require Import Prelude Bytes.
Import Bytes.

Definition KeySize : nat := 32.
Definition TagSize : nat := 16.

(** [copy] into a zeroed array of [n] bytes. *)
Definition fit (n : nat) (l : list Z) : list Z := take n (l ++ replicate n 0).

Class Crypto := {
  (** [X25519(private, public)]; an error on a point of low order *)
  x25519 : list Z → list Z → option (list Z);
  public_of : list Z → list Z;
  (** [aead.Seal(nil, nonce, plaintext, ad)] under a key, and [Open] *)
  seal : list Z → list Z → list Z → list Z → list Z;
  open_ : list Z → list Z → list Z → list Z → option (list Z);
  (** the same with 24-byte nonces *)
  xseal : list Z → list Z → list Z → list Z → list Z;
  xopen : list Z → list Z → list Z → list Z → option (list Z);
  blake2s : list Z → list Z;
  hmac_blake2s : list Z → list Z → list Z;
  (** [hkdf.New(sha256.New, secret, salt, info)], 32 bytes of it *)
  hkdf_sha256 : list Z → list Z → list Z → list Z;
}.

Class CryptoLaws (c : Crypto) : Prop := {
  dh_agree : ∀ a b, x25519 a (public_of b) = x25519 b (public_of a);
  public_size : ∀ a, length (public_of a) = KeySize;
  open_seal : ∀ k n p ad, open_ k n (seal k n p ad) ad = Some p;
  open_sealed : ∀ k n c ad p, open_ k n c ad = Some p → c = seal k n p ad;
  seal_size : ∀ k n p ad, length (seal k n p ad) = (length p + TagSize)%nat;
  seal_bytes : ∀ k n p ad, bytes p → bytes (seal k n p ad);
  xopen_xseal : ∀ k n p ad, xopen k n (xseal k n p ad) ad = Some p;
  xseal_size : ∀ k n p ad, length (xseal k n p ad) = (length p + TagSize)%nat;
}.

(** [DH] of [pkg/crypto/x25519.go] *)
Definition DH `{Crypto} (privateKey peerPublicKey : list Z) : option (list Z) :=
  shared ← x25519 privateKey peerPublicKey; Some (fit KeySize shared).

Module Keypair.
Record t := mk { PrivateKey : list Z; PublicKey : list Z }.
End Keypair.

(** Curve25519 clamping, and the key pair of the random bytes drawn. *)
Definition clamp (priv : list Z) : list Z :=
  let p1 := <[0%nat := Z.land (at_ priv 0) 248]> priv in
  let p2 := <[31%nat := Z.land (at_ p1 31) 127]> p1 in
  <[31%nat := Z.lor (at_ p2 31) 64]> p2.
Definition GenerateKeypair `{Crypto} (random : list Z) : Keypair.t :=
  let priv := clamp random in Keypair.mk priv (fit KeySize (public_of priv)).

Definition paired `{Crypto} (kp : Keypair.t) : Prop := Keypair.PublicKey kp = public_of (Keypair.PrivateKey kp).

Lemma fit_exact n l : length l = n → fit n l = l.
Proof. intros H. unfold fit. by apply take_app_length'. Qed.
Lemma fit_length n l : length (fit n l) = n.
Proof. unfold fit. rewrite length_take, length_app, length_replicate. lia. Qed.

Lemma generated_paired `{CryptoLaws} random : paired (GenerateKeypair random).
Proof. unfold paired, GenerateKeypair. cbn [Keypair.PublicKey Keypair.PrivateKey]. apply fit_exact, public_size. Qed.

Lemma DH_agree `{CryptoLaws} a b : paired a → paired b → DH (Keypair.PrivateKey a) (Keypair.PublicKey b) = DH (Keypair.PrivateKey b) (Keypair.PublicKey a).
Proof. unfold paired, DH. intros -> ->. by rewrite dh_agree. Qed.

(** ** An instance *)

Module Toy.

Definition sum (l : list Z) : Z := foldr Z.add 0 l mod 256.
Definition tag (k n p ad : list Z) : list Z := replicate TagSize (sum [sum k; sum n; 2 * sum p; 3 * sum ad]).
Definition sealed (k n p ad : list Z) : list Z := p ++ tag k n p ad.
Definition opened (k n c ad : list Z) : option (list Z) :=
  let p := take (length c - TagSize) c in
  if Nat.leb TagSize (length c) && bool_decide (drop (length c - TagSize) c = tag k n p ad) then Some p else None.

Definition crypto : Crypto := {|
  x25519 a b := Some (zip_with Z.add (fit KeySize a) b);
  public_of a := fit KeySize a;
  seal := sealed; open_ := opened; xseal := sealed; xopen := opened;
  blake2s l := replicate KeySize (sum l);
  hmac_blake2s k d := replicate KeySize (sum (sum k :: d));
  hkdf_sha256 s salt info := replicate KeySize (sum (s ++ salt ++ info))
|}.

Lemma opened_sealed k n p ad : opened k n (sealed k n p ad) ad = Some p.
Proof.
  unfold opened, sealed. assert (length (p ++ tag k n p ad) = (length p + TagSize)%nat) as -> by (by rewrite length_app; unfold tag; rewrite length_replicate).
  rewrite Nat.add_sub, take_app_length, drop_app_length, bool_decide_eq_true_2 by done. rewrite (proj2 (Nat.leb_le _ _)) by lia. done.
Qed.

Lemma sealed_opened k n c ad p : opened k n c ad = Some p → c = sealed k n p ad.
Proof.
  unfold opened, sealed. destruct (Nat.leb TagSize (length c)); [|done]. cbn [andb]. case_bool_decide as E; [|done].
  intros [= <-]. rewrite <- E. symmetry. apply take_drop.
Qed.

Lemma zip_add_comm l l' : zip_with Z.add l l' = zip_with Z.add l' l.
Proof. revert l'. induction l as [|x l IH]; intros [|y l']; [done..|]. cbn. by rewrite IH, Z.add_comm. Qed.

#[export] Instance laws : CryptoLaws crypto.
Proof.
  split; cbn [x25519 public_of seal open_ xseal xopen crypto].
  - intros a b. by rewrite zip_add_comm.
  - intros a. apply fit_length.
  - apply opened_sealed.
  - apply sealed_opened.
  - intros k n p ad. unfold sealed. rewrite length_app. unfold tag. by rewrite length_replicate.
  - intros k n p ad Hp. unfold sealed. apply bytes_app. split; [done|]. unfold tag. apply Forall_replicate. unfold is_uint, sum.
    apply Z.mod_pos_bound. lia.
  - apply opened_sealed.
  - intros k n p ad. unfold sealed. rewrite length_app. unfold tag. by rewrite length_replicate.
Qed.

End Toy.
