(* ===== verification/Challenge.v ===== *)
(** * Proof of possession

    [console/backend/services/ControlPlaneKeyService.js]: the control plane's key, the
    single-use challenges it hands out, and the proof a registering node makes over one;
    with the client's side of the proof, [RegisterWithProof] of [pkg/control/client.go].

    The two programs are in two languages and agree on bytes only, so both sides are
    modelled and composed.  X25519 and HKDF come from [Crypto]; HMAC-SHA256 and SHA-256
    are the parameters [hmac_sha256] and [sha256].  A text stands for its UTF-8 bytes. *)

From S2P Require Import Prelude Js Encoding Db Vip Bytes Primitives.
Import Vip Bytes.

Module Hex.

Definition utf8 (s : string) : list Z := code <$> chars s.

(** [Buffer.from(text, 'hex')]: decoding stops at the first pair that is not
    hexadecimal, and a last digit alone is dropped. *)
Fixpoint from_hex (l : list ascii) : list Z :=
  match l with
  | a :: b :: rest =>
      match hex_value a, hex_value b with
      | Some x, Some y => x * 16 + y :: from_hex rest
      | _, _ => []
      end
  | _ => []
  end.
Definition Buffer_hex (s : string) : list Z := from_hex (chars s).

(** [hex.DecodeString]: an error on anything but pairs of digits. *)
Fixpoint decode_pairs (l : list ascii) : option (list Z) :=
  match l with
  | [] => Some []
  | a :: b :: rest =>
      x ← hex_value a; y ← hex_value b; t ← decode_pairs rest; Some (x * 16 + y :: t)
  | _ => None
  end.
Definition DecodeString (s : string) : option (list Z) := decode_pairs (chars s).

(** [/^[0-9a-f]{64}$/i] *)
Definition is_hex64 (s : string) : bool := (len s =? 64) && all_chars is_hex s.
End Hex.

Module ControlPlaneKey.
Import Hex.

Definition CHALLENGE_TTL : Z := 90 * 1000.
Definition MEMORY_CHALLENGE_LIMIT : nat := 10000.

(** The raw keys; the key objects and the hexadecimal forms are functions of them. *)
Record keypair := mk_keypair { rawPrivate : list Z; rawPublic : list Z }.

Record challenge := mk_challenge { nonce : string; cp_public_key : string; expires_at : Z }.

(** Valkey keys with the instant they expire, and the map of this process. *)
Record store := mk_store { valkey : gmap string Z; memoryChallengeStore : gmap string Z }.

(** What a Valkey command meets: no client, an answer, or an error, after which the
    command may still have been applied. *)
Inductive reach := NoClient | Answers | Fails (applied : bool).

Definition challenge_key (NAMESPACE nonce : string) : string :=
  (if (NAMESPACE =? "")%string then "" else NAMESPACE +:+ ":") +:+ "challenge:" +:+ nonce.

Definition rememberInProcess (nonce : string) (expiresAtMs now : Z) : eff store unit :=
  s <-! get ;
  (if Nat.leb MEMORY_CHALLENGE_LIMIT (size (memoryChallengeStore s)) then
     let kept := base.filter (λ kv, now <= kv.2) (memoryChallengeStore s) in
     put (mk_store (valkey s) kept) ;!
     (if Nat.leb MEMORY_CHALLENGE_LIMIT (size kept) then throw (Some 503) "too many outstanding challenges"
      else eff_ret tt)
   else eff_ret tt) ;!
  modify (λ s, mk_store (valkey s) (<[nonce := expiresAtMs]> (memoryChallengeStore s))).

Section Service.
Context (IS_PRODUCTION : bool) (NAMESPACE : string).

Definition set_key (nonce : string) (expiresAtMs : Z) : eff store unit :=
  modify (λ s, mk_store (<[challenge_key NAMESPACE nonce := expiresAtMs]> (valkey s)) (memoryChallengeStore s)).

Definition del_key (nonce : string) : eff store unit :=
  modify (λ s, mk_store (delete (challenge_key NAMESPACE nonce) (valkey s)) (memoryChallengeStore s)).

(** [random] are the 32 bytes drawn. *)
Definition createChallenge (kp : keypair) (rc : reach) (random : list Z) (now : Z) : eff store challenge :=
  let nonce := hex_encode random in
  let expiresAtMs := now + CHALLENGE_TTL in
  match rc with
  | Answers => set_key nonce expiresAtMs
  | Fails applied =>
      (if applied then set_key nonce expiresAtMs else eff_ret tt) ;!
      if IS_PRODUCTION then throw (Some 503) "challenge store unavailable"
      else rememberInProcess nonce expiresAtMs now
  | NoClient => rememberInProcess nonce expiresAtMs now
  end ;!
  eff_ret (mk_challenge nonce (hex_encode (rawPublic kp)) expiresAtMs).

Definition consume_memory (cleanNonce : string) (now : Z) : eff store bool :=
  s <-! get ;
  match memoryChallengeStore s !! cleanNonce with
  | Some expiry =>
      put (mk_store (valkey s) (delete cleanNonce (memoryChallengeStore s))) ;!
      eff_ret (now <=? expiry)
  | None => eff_ret false
  end.

Definition consumeChallenge (rc : reach) (nonce : string) (now : Z) : eff store bool :=
  if negb (is_hex64 (trim nonce)) then eff_ret false else
  let cleanNonce := toLowerCase (trim nonce) in
  match rc with
  | Answers =>
      s <-! get ;
      del_key cleanNonce ;!
      match valkey s !! challenge_key NAMESPACE cleanNonce with
      | Some expiry => if now <? expiry then eff_ret true else consume_memory cleanNonce now
      | None => consume_memory cleanNonce now
      end
  | Fails applied =>
      (if applied then del_key cleanNonce else eff_ret tt) ;!
      if IS_PRODUCTION then eff_ret false else consume_memory cleanNonce now
  | NoClient => consume_memory cleanNonce now
  end.
End Service.

Section Keys.
Context {cr : Crypto} (hmac_sha256 : list Z → list Z → list Z) (sha256 : list Z → list Z).

Definition keypair_of (rawPriv : list Z) : keypair := mk_keypair rawPriv (public_of rawPriv).
Definition fingerprint (kp : keypair) : string := hex_encode (sha256 (rawPublic kp)).

(** The key of the environment, else of the key file, else the one generated; and the
    text written to the key file, if any.  [envKey] and [file] are the empty text when
    absent. *)
Definition getControlPlaneKeypair (envKey file : string) (generated : list Z) : keypair * option string :=
  if is_hex64 (trim envKey) then (keypair_of (Buffer_hex (trim envKey)), None)
  else if is_hex64 (trim file) then (keypair_of (Buffer_hex (trim file)), None)
  else (keypair_of generated, Some (hex_encode generated)).

Definition PROOF_INFO : string := "neronet/v4/register".

Definition proofMessage (nonceHex : string) (rawNodePub : list Z) (role : string) : list Z :=
  Buffer_hex (trim nonceHex) ++ rawNodePub ++ utf8 role.

(** The key of the proof; an error of the agreement is caught and refuses it. *)
Definition proof_key (priv pub : list Z) : option (list Z) :=
  sharedSecret ← x25519 priv pub; Some (hkdf_sha256 sharedSecret [] (utf8 PROOF_INFO)).

Definition verifyProof (kp : keypair) (nodePublicKeyHex nonceHex proofHex role : string) : bool :=
  if negb (is_hex64 (trim nodePublicKeyHex) && is_hex64 (trim nonceHex) && is_hex64 (trim proofHex)) then false else
  let rawNodePub := Buffer_hex (trim nodePublicKeyHex) in
  match proof_key (rawPrivate kp) rawNodePub with
  | None => false
  | Some derivedKey =>
      bool_decide (hmac_sha256 derivedKey (proofMessage nonceHex rawNodePub role) = Buffer_hex (trim proofHex))
  end.

Definition computeClientProof (nodePrivateKeyHex cpPublicKeyHex nonceHex role : string) : option string :=
  let rawNodePriv := Buffer_hex (trim nodePrivateKeyHex) in
  derivedKey ← proof_key rawNodePriv (Buffer_hex (trim cpPublicKeyHex));
  Some (hex_encode (hmac_sha256 derivedKey (proofMessage nonceHex (public_of rawNodePriv) role))).

(** ** The client *)

(** [deriveNodeId] of the control plane and [GenerateNodeID] of the node. *)
Definition deriveNodeId (publicKeyHex : string) : string := "pk_" +:+ toLowerCase (take_string 16 publicKeyHex).
Definition GenerateNodeID (pubKey : list Z) : string := "pk_" +:+ hex_encode (take 8 pubKey).

Definition registrationProof (derivedKey nonce nodePub : list Z) (role : string) : list Z :=
  hmac_sha256 derivedKey (nonce ++ nodePub ++ utf8 role).

(** The pre-auth key and the expected fingerprint of an enrolment string. *)
Definition parse_enrolment (enrolmentString : string) : string * string :=
  let trimmedEnrol := trim enrolmentString in
  if startsWith "nnk1:" trimmedEnrol then
    let parts := split ":" trimmedEnrol in
    (default "" (parts !! 1%nat), default "" (parts !! 2%nat))
  else (trimmedEnrol, "").

Record registration := mk_registration {
  PublicKeyHex : string; Role : string; Endpoints : list jsval; AuthToken : string; Capability : jsval;
  PreAuthKey : string; Nonce : string; Proof : string;
}.

Definition ClientVersion : string := "v4.0.0".

(** The JSON body, empty members omitted. *)
Definition omitempty (k v : string) : list (string * jsval) := if (v =? "")%string then [] else [(k, JStr v)].
Definition register_body (r : registration) : jsval :=
  JObj ([("public_key_hex", JStr (PublicKeyHex r))] ++ omitempty "role" (Role r) ++
        (match Endpoints r with [] => [] | es => [("endpoints", JArr es)] end) ++
        omitempty "auth_token" (AuthToken r) ++ omitempty "client_version" ClientVersion ++
        [("capability", Capability r)] ++ omitempty "preauth_key" (PreAuthKey r) ++
        omitempty "nonce" (Nonce r) ++ omitempty "proof" (Proof r)).

Inductive register_error := InvalidControlPlaneKey | FingerprintMismatch | AgreementFailed | InvalidNonce.

(** [RegisterWithProof] from the answered challenge to the request it sends. *)
Definition RegisterWithProof (enrolToken : string) (nodePriv nodePub : list Z) (role : string)
    (endpoints : list jsval) (capability : jsval) (enrolmentString : string) (ch : challenge) : register_error + registration :=
  let '(preauthKey, expectedFingerprint) := parse_enrolment enrolmentString in
  match DecodeString (cp_public_key ch) with
  | None => inl InvalidControlPlaneKey
  | Some rawCpPub =>
      if negb (Nat.eqb (length rawCpPub) 32) then inl InvalidControlPlaneKey else
      if negb (expectedFingerprint =? "")%string &&
         negb (toLowerCase (hex_encode (sha256 rawCpPub)) =? toLowerCase expectedFingerprint)%string
      then inl FingerprintMismatch else
      match proof_key nodePriv rawCpPub with
      | None => inl AgreementFailed
      | Some derivedKey =>
          match DecodeString (nonce ch) with
          | None => inl InvalidNonce
          | Some nonceBytes =>
              inr (mk_registration (hex_encode nodePub) role endpoints enrolToken capability preauthKey (nonce ch)
                     (hex_encode (registrationProof derivedKey nonceBytes nodePub role)))
          end
      end
  end.
End Keys.
End ControlPlaneKey.

(** ** Lemmas *)
Module HexFacts.
Import Hex.

Lemma hex_chars l : bytes l → from_hex (chars (hex_encode l)) = l ∧ decode_pairs (chars (hex_encode l)) = Some l.
Proof.
  induction 1 as [|b l Hb _ [IH1 IH2]]; [done|]. unfold is_uint in Hb. cbn [hex_encode chars from_hex decode_pairs].
  rewrite !hex_digit_value by dlia. cbn. rewrite IH1, IH2. cbn. assert (b / 16 * 16 + b mod 16 = b) as -> by dlia. done.
Qed.

Lemma Buffer_hex_encode l : bytes l → Buffer_hex (hex_encode l) = l.
Proof. intros H. apply hex_chars, H. Qed.
Lemma DecodeString_encode l : bytes l → DecodeString (hex_encode l) = Some l.
Proof. intros H. apply hex_chars, H. Qed.

Lemma hex_digit_plain v : 0 <= v < 16 → negb (is_space (hex_digit v)) && is_hex (hex_digit v) = true.
Proof. apply (upto_forall (λ v, negb (is_space (hex_digit v)) && is_hex (hex_digit v) = true) 16). vm_compute. reflexivity. Qed.

Lemma hex_encode_plain l : bytes l → no_space (hex_encode l) = true ∧ all_chars is_hex (hex_encode l) = true ∧
  toLowerCase (hex_encode l) = hex_encode l ∧ len (hex_encode l) = 2 * Z.of_nat (length l).
Proof.
  unfold no_space, len, toLowerCase. induction 1 as [|b l Hb _ (IH1 & IH2 & IH3 & IH4)]; [done|]. unfold is_uint in Hb.
  pose proof (hex_digit_plain (b / 16) ltac:(dlia)). pose proof (hex_digit_plain (b mod 16) ltac:(dlia)). b2p.
  cbn [hex_encode all_chars map_string String.length length]. rewrite !hex_digit_lower by dlia.
  rewrite IH3. repeat match goal with E : _ = true |- _ => rewrite E | E : _ = false |- _ => rewrite E end.
  split_and!; [done..|]. lia.
Qed.

Lemma trim_hex l : bytes l → trim (hex_encode l) = hex_encode l.
Proof. intros H. by apply trim_no_space, hex_encode_plain. Qed.
Lemma lower_hex l : bytes l → toLowerCase (hex_encode l) = hex_encode l.
Proof. intros H. by apply hex_encode_plain. Qed.
Lemma hex64_encode l : bytes l → length l = 32%nat → is_hex64 (hex_encode l) = true.
Proof. intros H E. apply hex_encode_plain in H as (_ & H & _ & El). unfold is_hex64. by rewrite H, El, E. Qed.

Lemma hex_value_range c z : hex_value c = Some z → 0 <= z < 16.
Proof. unfold hex_value, is_digit. repeat case_match; intros; simplify_eq; b2p; lia. Qed.

Lemma hex_value_digit c v : hex_value c = Some v → hex_digit v = lower_char c.
Proof.
  destruct c as [[] [] [] [] [] [] [] []]; vm_compute; intros E; solve [discriminate E|injection E as <-; reflexivity].
Qed.

Lemma all_chars_list p s : all_chars p s = true → forallb p (chars s) = true.
Proof. induction s as [|c s IH]; [done|]. cbn. intros H. b2p. by rewrite H, IH. Qed.

Lemma chars_len s : Z.of_nat (length (chars s)) = len s.
Proof. unfold len. induction s as [|c s IH]; [done|]. cbn [chars String.length length]. lia. Qed.

(** A text of hexadecimal digits, half as many bytes. *)
Lemma from_hex_length n l : length l = (2 * n)%nat → forallb is_hex l = true → length (from_hex l) = n ∧ bytes (from_hex l).
Proof.
  revert l. induction n as [|n IH]; intros [|a [|b l]] El; try (simpl in El; lia); [by split; [|constructor]|].
  cbn [forallb]. intros H. b2p. cbn [from_hex]. unfold is_hex in *.
  destruct (hex_value a) as [x|] eqn:Ea, (hex_value b) as [y|] eqn:Eb; try done. destruct (IH l) as [IH1 IH2]; [simpl in El; lia|done|].
  split; [simpl; lia|]. constructor; [|done]. apply hex_value_range in Ea, Eb. unfold is_uint. lia.
Qed.

(** Decoding forgets the case of the digits and nothing else. *)
Lemma encode_from_hex s : Nat.Even (String.length s) → all_chars is_hex s = true → hex_encode (Buffer_hex s) = toLowerCase s.
Proof.
  unfold Buffer_hex, toLowerCase. revert s. fix IH 1. intros [|a [|b s]] He H; [done|destruct He as [k Hk]; cbn in Hk; lia|].
  cbn [all_chars] in H. b2p. cbn [chars from_hex map_string]. unfold is_hex in *.
  destruct (hex_value a) as [x|] eqn:Ea; [|done]. destruct (hex_value b) as [y|] eqn:Eb; [|done].
  pose proof (hex_value_range _ _ Ea). pose proof (hex_value_range _ _ Eb). cbn [hex_encode].
  assert ((x * 16 + y) / 16 = x) as -> by dlia. assert ((x * 16 + y) mod 16 = y) as -> by dlia.
  rewrite (hex_value_digit _ _ Ea), (hex_value_digit _ _ Eb), IH; [done| |done].
  destruct He as [k Hk]. exists (pred k). cbn [String.length] in Hk. lia.
Qed.

Lemma hex64_inv s : is_hex64 s = true → hex_encode (Buffer_hex s) = toLowerCase s ∧ length (Buffer_hex s) = 32%nat ∧ bytes (Buffer_hex s).
Proof.
  unfold is_hex64. intros H. b2p. split.
  - apply encode_from_hex; [|done]. exists 32%nat. unfold len in *. lia.
  - apply from_hex_length; [pose proof (chars_len s); lia|by apply all_chars_list].
Qed.

Lemma utf8_inj s t : utf8 s = utf8 t → s = t.
Proof.
  unfold utf8. revert t. induction s as [|c s IH]; intros [|d t]; cbn [chars fmap list_fmap]; [done..|]. intros [= E H].
  apply code_inj in E as ->. by rewrite (IH t).
Qed.
End HexFacts.

Module ChallengeFacts.
Import Hex HexFacts ControlPlaneKey.

(** *** Histories of the challenge store *)

Inductive call := Create (rc : reach) (random : list Z) | Consume (rc : reach) (text : string).

Section History.
Context (IS_PRODUCTION : bool) (NAMESPACE : string) (kp : keypair).

(** The store after a call at an instant, and whether it redeemed a challenge. *)
Definition step (e : Z * call) (s : store) : bool * store :=
  match e with
  | (now, Create rc random) => (false, (createChallenge IS_PRODUCTION NAMESPACE kp rc random now s).2)
  | (now, Consume rc text) =>
      let r := consumeChallenge IS_PRODUCTION NAMESPACE rc text now s in
      (match r.1 with Ok b => b | Throw _ _ => false end, r.2)
  end.

Definition canonical (text : string) : string := toLowerCase (trim text).

Fixpoint run (es : list (Z * call)) (s : store) : store :=
  match es with [] => s | e :: rest => run rest (step e s).2 end.

Definition redeems (n : string) (e : Z * call) (s : store) : Z :=
  match e.2 with
  | Consume _ text => if (step e s).1 && (canonical text =? n)%string then 1 else 0
  | Create _ _ => 0
  end.
Definition draws (n : string) (e : Z * call) : Z :=
  match e.2 with Create _ random => if (hex_encode random =? n)%string then 1 else 0 | Consume _ _ => 0 end.

(** How often [n] is redeemed along a history, and how often it was drawn. *)
Fixpoint redeemed (n : string) (es : list (Z * call)) (s : store) : Z :=
  match es with [] => 0 | e :: rest => redeems n e s + redeemed n rest (step e s).2 end.
Fixpoint drawn (n : string) (es : list (Z * call)) : Z :=
  match es with [] => 0 | e :: rest => draws n e + drawn n rest end.

Definition present (o : option Z) : Z := match o with Some _ => 1 | None => 0 end.
Definition holdings (n : string) (s : store) : Z :=
  present (valkey s !! challenge_key NAMESPACE n) + present (memoryChallengeStore s !! n).

(** Every challenge held was drawn [CHALLENGE_TTL] before it expires. *)
Definition drawn_at (es : list (Z * call)) (n : string) (expiry : Z) : Prop :=
  ∃ t rc random, (t, Create rc random) ∈ es ∧ hex_encode random = n ∧ expiry = t + CHALLENGE_TTL.
Definition backed (es : list (Z * call)) (s : store) : Prop := ∀ n expiry,
  valkey s !! challenge_key NAMESPACE n = Some expiry ∨ memoryChallengeStore s !! n = Some expiry → drawn_at es n expiry.

Lemma challenge_key_inj n n' : challenge_key NAMESPACE n = challenge_key NAMESPACE n' → n = n'.
Proof. unfold challenge_key. intros H. by apply append_inj_l, append_inj_l in H. Qed.

Lemma remember_effect n e now s o s' : rememberInProcess n e now s = (o, s') →
  valkey s' = valkey s ∧ ∀ m x, memoryChallengeStore s' !! m = Some x → memoryChallengeStore s !! m = Some x ∨ m = n ∧ x = e.
Proof.
  assert (∀ (M : gmap string Z), (∀ m x, M !! m = Some x → memoryChallengeStore s !! m = Some x) →
    ∀ m x, <[n := e]> M !! m = Some x → memoryChallengeStore s !! m = Some x ∨ m = n ∧ x = e) as Hins.
  { intros M HM m x. destruct (decide (n = m)) as [<-|Hne]; [rewrite lookup_insert_eq; intros [= ->]; auto|].
    rewrite lookup_insert_ne by done. auto. }
  unfold rememberInProcess, eff_bind, get, put, modify, throw, eff_ret.
  destruct (Nat.leb _ _); [destruct (Nat.leb _ _)|]; intros [= <- <-]; cbn [valkey memoryChallengeStore]; split; try done.
  - intros m x. rewrite map_lookup_filter_Some. intros [H _]. by left.
  - apply Hins. intros m x. rewrite map_lookup_filter_Some. by intros [H _].
  - by apply Hins.
Qed.

Lemma create_effect rc random now s o s' :
  createChallenge IS_PRODUCTION NAMESPACE kp rc random now s = (o, s') →
  let n := hex_encode random in let e := now + CHALLENGE_TTL in
  (valkey s' = valkey s ∨ valkey s' = <[challenge_key NAMESPACE n := e]> (valkey s)) ∧
  (∀ m x, memoryChallengeStore s' !! m = Some x → memoryChallengeStore s !! m = Some x ∨ m = n ∧ x = e) ∧
  (IS_PRODUCTION = true → valkey s' = valkey s ∨ memoryChallengeStore s' = memoryChallengeStore s).
Proof.
  intros H n e. assert (∃ o1, match rc with
      | Answers => set_key NAMESPACE n e s
      | Fails applied => eff_bind (if applied then set_key NAMESPACE n e else eff_ret tt) (λ _,
          if IS_PRODUCTION then throw (Some 503) "challenge store unavailable" else rememberInProcess n e now) s
      | NoClient => rememberInProcess n e now s end = (o1, s')) as [o1 Hs].
  { unfold createChallenge, eff_bind, eff_ret in *. fold n e in H. destruct rc.
    - destruct (rememberInProcess _ _ _ _) as [[] ?]; simplify_eq; eauto.
    - unfold set_key, modify in *. simplify_eq; eauto.
    - repeat case_match; simplify_eq; eauto. }
  clear H. destruct rc as [| |applied].
  - apply remember_effect in Hs as [-> Hm]. auto.
  - unfold set_key, modify in Hs. simplify_eq. cbn [valkey memoryChallengeStore]. auto.
  - unfold eff_bind in Hs. destruct applied, IS_PRODUCTION; unfold set_key, modify, throw, eff_ret in Hs; simplify_eq;
      cbn [valkey memoryChallengeStore]; try (split_and!; by auto);
      apply remember_effect in Hs as [-> Hm]; cbn [valkey memoryChallengeStore] in *; split_and!; by auto.
Qed.

Lemma consume_memory_effect c now s o s' : consume_memory c now s = (o, s') →
  valkey s' = valkey s ∧ memoryChallengeStore s' = delete c (memoryChallengeStore s) ∧
  (o = Ok true → ∃ x, memoryChallengeStore s !! c = Some x ∧ now <= x).
Proof.
  unfold consume_memory, eff_bind, get, put, eff_ret. destruct (memoryChallengeStore s !! c) as [x|] eqn:E; intros [= <- <-].
  - cbn. split_and!; [done..|]. intros [= ?]. exists x. split; [done|]. b2p. done.
  - split_and!; [done|by rewrite delete_id|done].
Qed.

Lemma present_range o : 0 <= present o <= 1.
Proof. destruct o; cbn; lia. Qed.

(** What a redemption leaves: the challenge is gone from where it was found. *)
Lemma consume_effect rc text now s o s' : consumeChallenge IS_PRODUCTION NAMESPACE rc text now s = (o, s') →
  let c := canonical text in
  (valkey s' = valkey s ∨ valkey s' = delete (challenge_key NAMESPACE c) (valkey s)) ∧
  (memoryChallengeStore s' = memoryChallengeStore s ∨ memoryChallengeStore s' = delete c (memoryChallengeStore s)) ∧
  (o = Ok true → holdings c s' < holdings c s ∧
     ∃ x, (valkey s !! challenge_key NAMESPACE c = Some x ∨ memoryChallengeStore s !! c = Some x) ∧ now <= x).
Proof.
  intros H c. unfold consumeChallenge in H. fold (canonical text) in H. fold c in H. destruct (negb _).
  { unfold eff_ret in H. simplify_eq. split_and!; [by left|by left|done]. }
  destruct rc as [| |applied].
  - apply consume_memory_effect in H as (Ev & Em & Ho). split_and!; [by left|by right|]. intros Hok.
    destruct (Ho Hok) as (x & Hx & Hle). unfold holdings. rewrite Ev, Em, Hx, lookup_delete_eq. cbn. split; [lia|eauto].
  - unfold eff_bind, get, del_key, modify in H. cbn [valkey memoryChallengeStore] in H.
    destruct (valkey s !! challenge_key NAMESPACE c) as [x|] eqn:E; [destruct (now <? x) eqn:Ex|].
    + unfold eff_ret in H. simplify_eq. cbn [valkey memoryChallengeStore]. split_and!; [by right|by left|]. intros _.
      unfold holdings. cbn [valkey memoryChallengeStore]. rewrite E, lookup_delete_eq. cbn. b2p. split; [lia|]. exists x. split; [auto|lia].
    + apply consume_memory_effect in H as (Ev & Em & Ho). cbn [valkey memoryChallengeStore] in *. split_and!; [by right|by right|]. intros Hok.
      destruct (Ho Hok) as (y & Hy & Hle). unfold holdings. rewrite Ev, Em, Hy, !lookup_delete_eq, E. cbn. split; [lia|eauto].
    + apply consume_memory_effect in H as (Ev & Em & Ho). cbn [valkey memoryChallengeStore] in *. split_and!; [by right|by right|]. intros Hok.
      destruct (Ho Hok) as (y & Hy & Hle). unfold holdings. rewrite Ev, Em, Hy, !lookup_delete_eq, E. cbn. split; [lia|eauto].
  - unfold eff_bind, del_key, modify in H. destruct applied, IS_PRODUCTION; unfold eff_ret in H; simplify_eq; cbn [valkey memoryChallengeStore];
      try (split_and!; [by auto|by auto|done]);
      apply consume_memory_effect in H as (Ev & Em & Ho); cbn [valkey memoryChallengeStore] in *; (split_and!; [by auto|by right|]);
      intros Hok; destruct (Ho Hok) as (y & Hy & Hle); unfold holdings; rewrite Ev, Em, Hy, ?lookup_delete_eq;
      pose proof (present_range (valkey s !! challenge_key NAMESPACE c)); cbn [present]; (split; [lia|eauto]).
Qed.

Lemma present_deleted {K} `{Countable K} (m m' : gmap K Z) k i : m' = m ∨ m' = delete k m → present (m' !! i) <= present (m !! i).
Proof.
  intros [->| ->]; [done|]. destruct (decide (k = i)) as [->|Hne]; [|by rewrite lookup_delete_ne].
  rewrite lookup_delete_eq. apply present_range.
Qed.

Lemma present_kept {K} `{Countable K} (m m' : gmap K Z) i : (∀ x, m' !! i = Some x → ∃ y, m !! i = Some y) → present (m' !! i) <= present (m !! i).
Proof. intros Hk. destruct (m' !! i) as [x|] eqn:E; [|apply present_range]. by destruct (Hk x) as [y ->]. Qed.

Lemma step_holdings n e s : IS_PRODUCTION = true → holdings n (step e s).2 + redeems n e s <= holdings n s + draws n e.
Proof.
  intros Hp. destruct e as [now [rc random|rc text]]; unfold redeems, draws; cbn [snd step].
  - destruct (createChallenge _ _ _ _ _ _ _) as [o s'] eqn:E. cbn [snd]. apply create_effect in E as (Hv & Hm & Hx).
    unfold holdings. destruct (hex_encode random =? n)%string eqn:En; b2p.
    + subst n. pose proof (present_range (valkey s' !! challenge_key NAMESPACE (hex_encode random))).
      pose proof (present_range (memoryChallengeStore s' !! hex_encode random)). destruct (Hx Hp) as [->| ->];
      pose proof (present_range (valkey s !! challenge_key NAMESPACE (hex_encode random)));
      pose proof (present_range (memoryChallengeStore s !! hex_encode random)); lia.
    + assert (present (valkey s' !! challenge_key NAMESPACE n) <= present (valkey s !! challenge_key NAMESPACE n)).
      { destruct Hv as [->| ->]; [done|]. rewrite lookup_insert_ne; [done|]. intros E%challenge_key_inj. congruence. }
      assert (present (memoryChallengeStore s' !! n) <= present (memoryChallengeStore s !! n)); [|lia].
      apply present_kept. intros x Hl. apply Hm in Hl as [?|[? _]]; [eauto|congruence].
  - destruct (consumeChallenge _ _ _ _ _ _) as [o s'] eqn:E. cbn [fst snd]. apply consume_effect in E as (Hv & Hm & Ho).
    apply (present_deleted _ _ _ (challenge_key NAMESPACE n)) in Hv. apply (present_deleted _ _ _ n) in Hm.
    destruct o as [[]|]; cbn [andb]; [|unfold holdings; lia..].
    destruct (canonical text =? n)%string eqn:En; b2p; [|unfold holdings; lia]. subst n. destruct (Ho eq_refl). lia.
Qed.

Lemma redeemed_bound n es s : IS_PRODUCTION = true → redeemed n es s <= holdings n s + drawn n es.
Proof.
  intros Hp. revert s. induction es as [|e es IH]; intros s; cbn [redeemed drawn].
  - unfold holdings. pose proof (present_range (valkey s !! challenge_key NAMESPACE n)).
    pose proof (present_range (memoryChallengeStore s !! n)). lia.
  - specialize (IH (step e s).2). pose proof (step_holdings n e s Hp). lia.
Qed.

Lemma step_backed es e s : backed es s → backed (es ++ [e]) (step e s).2.
Proof.
  intros Hb. assert (∀ n x, drawn_at es n x → drawn_at (es ++ [e]) n x) as Hmono.
  { intros n x (t & rc & r & ? & ?). exists t, rc, r. set_solver. }
  intros n x. destruct e as [now [rc random|rc text]]; cbn [step].
  - destruct (createChallenge _ _ _ _ _ _ _) as [o s'] eqn:E. cbn [snd]. apply create_effect in E as (Hv & Hm & _).
    assert (drawn_at (es ++ [(now, Create rc random)]) (hex_encode random) (now + CHALLENGE_TTL)) as Hnew.
    { exists now, rc, random. split; [set_solver|done]. }
    intros [H|H].
    + destruct Hv as [Hv|Hv]; rewrite Hv in H; [by apply Hmono, Hb; left|].
      destruct (decide (hex_encode random = n)) as [<-|Hne]; [by rewrite lookup_insert_eq in H; simplify_eq|].
      rewrite lookup_insert_ne in H by (intros E%challenge_key_inj; congruence). by apply Hmono, Hb; left.
    + apply Hm in H as [H|[-> ->]]; [by apply Hmono, Hb; right|done].
  - destruct (consumeChallenge _ _ _ _ _ _) as [o s'] eqn:E. cbn [snd]. apply consume_effect in E as (Hv & Hm & _).
    intros H. apply Hmono, Hb. destruct H as [H|H]; [left|right].
    + destruct Hv as [Hv|Hv]; rewrite Hv in H; [done|]. by apply lookup_delete_Some in H as [_ H].
    + destruct Hm as [Hm|Hm]; rewrite Hm in H; [done|]. by apply lookup_delete_Some in H as [_ H].
Qed.

Lemma run_backed es pre s : backed pre s → backed (pre ++ es) (run es s).
Proof.
  revert pre s. induction es as [|e es IH]; intros pre s H; cbn [run]; [by rewrite app_nil_r|].
  rewrite (cons_middle e pre es), app_assoc. by apply IH, step_backed.
Qed.
End History.

Definition empty_store : store := mk_store ∅ ∅.

(** C14. A challenge is redeemed at most as often as it was drawn, once when the random
    bytes are fresh, and within 90 seconds.  In production, along every history of
    challenge requests and registrations, with Valkey absent, answering or failing
    (and the failed command applied or not) at each call, the number of times a nonce
    is redeemed is at most the number of times it was drawn; and whatever nonce a
    registration redeems was drawn at most [CHALLENGE_TTL] earlier. *)
Theorem challenge_redeemed_once NAMESPACE kp es n :
  redeemed true NAMESPACE kp n es empty_store <= drawn n es ∧
  (∀ rc text now, (consumeChallenge true NAMESPACE rc text now (run true NAMESPACE kp es empty_store)).1 = Ok true →
   ∃ t rc' random, (t, Create rc' random) ∈ es ∧ hex_encode random = canonical text ∧ now <= t + CHALLENGE_TTL).
Proof.
  split; [by apply (redeemed_bound true NAMESPACE kp n es empty_store)|]. intros rc text now H.
  destruct (consumeChallenge _ _ _ _ _ _) as [o s'] eqn:E. cbn in H. subst o.
  apply consume_effect in E as (_ & _ & Ho). destruct (Ho eq_refl) as (_ & x & Hx & Hle).
  assert (backed NAMESPACE [] empty_store) as Hb by (by intros m y [?|?]).
  destruct (run_backed true NAMESPACE kp es [] empty_store Hb (canonical text) x Hx) as (t & rc' & r & ? & ? & ->). by exists t, rc', r.
Qed.

(** *** The proof *)

Section Proofs.
Context {cr : Crypto} {laws : CryptoLaws cr} (hmac_sha256 : list Z → list Z → list Z) (sha256 : list Z → list Z).

Lemma take_hex k l : take_string (2 * k) (hex_encode l) = hex_encode (take k l).
Proof.
  revert l. induction k as [|k IH]; intros l; [by destruct (hex_encode l)|]. destruct l as [|b l]; [done|].
  replace (2 * S k)%nat with (S (S (2 * k))) by lia. cbn [hex_encode take_string take]. by rewrite IH.
Qed.

Lemma node_ids_agree pub : bytes pub → deriveNodeId (hex_encode pub) = GenerateNodeID pub.
Proof.
  intros H. unfold deriveNodeId, GenerateNodeID. rewrite (take_hex 8). by rewrite lower_hex by by apply bytes_take.
Qed.

Lemma proof_key_agree a b : proof_key a (public_of b) = proof_key b (public_of a).
Proof. unfold proof_key. by rewrite dh_agree. Qed.

(** A verified proof is the code of the nonce, the key and the role under the agreed key. *)
Lemma verified_proof kp pubHex nonceHex proofHex role : verifyProof hmac_sha256 kp pubHex nonceHex proofHex role = true →
  is_hex64 (trim pubHex) = true ∧ is_hex64 (trim nonceHex) = true ∧
  ∃ key, proof_key (rawPrivate kp) (Buffer_hex (trim pubHex)) = Some key ∧
    hmac_sha256 key (proofMessage nonceHex (Buffer_hex (trim pubHex)) role) = Buffer_hex (trim proofHex).
Proof.
  unfold verifyProof. destruct (negb _) eqn:E; [done|]. b2p. destruct (proof_key _ _) as [key|]; [|done]. intros Ek. b2p. eauto 6.
Qed.


(** A proof is good for one nonce and one role.  If the control plane accepts the same
    proof of a key for two pairs of nonce and role, they are the same pair, provided
    the code does not collide on the two messages. *)
Theorem proof_binds_nonce_and_role kp pubHex nonceHex nonceHex' proofHex role role' :
  (∀ key, hmac_sha256 key (proofMessage nonceHex (Buffer_hex (trim pubHex)) role) =
          hmac_sha256 key (proofMessage nonceHex' (Buffer_hex (trim pubHex)) role') →
          proofMessage nonceHex (Buffer_hex (trim pubHex)) role = proofMessage nonceHex' (Buffer_hex (trim pubHex)) role') →
  verifyProof hmac_sha256 kp pubHex nonceHex proofHex role = true →
  verifyProof hmac_sha256 kp pubHex nonceHex' proofHex role' = true →
  canonical nonceHex = canonical nonceHex' ∧ role = role'.
Proof.
  intros Hcol H1 H2. apply verified_proof in H1 as (_ & Hx1 & k1 & Hk1 & E1). apply verified_proof in H2 as (_ & Hx2 & k2 & Hk2 & E2).
  rewrite Hk1 in Hk2. injection Hk2 as <-. rewrite <- E2 in E1. apply Hcol in E1. unfold proofMessage in E1.
  apply hex64_inv in Hx1 as (L1 & N1 & _), Hx2 as (L2 & N2 & _). apply app_inj_1 in E1 as [En E1]; [|congruence].
  apply app_inv_head, utf8_inj in E1. unfold canonical. by rewrite <- L1, <- L2, En.
Qed.

(** The generated key is the key of every later start, once it was written. *)
Lemma control_plane_key_persists generated env' generated' written :
  bytes generated → length generated = 32%nat → is_hex64 (trim env') = false →
  (getControlPlaneKeypair "" "" generated).2 = Some written →
  (getControlPlaneKeypair env' written generated').1 = (getControlPlaneKeypair "" "" generated).1.
Proof.
  intros Hb El He. unfold getControlPlaneKeypair at 1 3. cbn [trim]. change (is_hex64 (trim "")) with false. cbn [fst snd]. intros [= <-].
  unfold getControlPlaneKeypair. rewrite He, trim_hex, hex64_encode by done. cbn [fst]. by rewrite Buffer_hex_encode.
Qed.
End Proofs.
End ChallengeFacts.

(** ** Samples *)
Module ChallengeSamples.
Import Hex HexFacts ControlPlaneKey ChallengeFacts.

Definition toy_hmac (k m : list Z) : list Z := replicate 32 (Toy.sum (k ++ m)).
Definition toy_sha256 (m : list Z) : list Z := replicate 32 (Toy.sum m).
Definition cp_private : list Z := replicate 32 7.
Definition node_private : list Z := replicate 32 9.
Definition random : list Z := replicate 32 171.
Definition plane : keypair := Eval vm_compute in keypair_of (cr := Toy.crypto) cp_private.

Lemma toy_hmac_bytes k m : length (toy_hmac k m) = 32%nat ∧ bytes (toy_hmac k m).
Proof.
  unfold toy_hmac. split; [apply length_replicate|]. apply Forall_replicate. unfold is_uint, Toy.sum. apply Z.mod_pos_bound. lia.
Qed.

(** The enrolment string carries the fingerprint of the control plane. *)
Definition enrolment : string := Eval vm_compute in
  "nnk1:nnk1_secret:" +:+ toUpperCase (fingerprint toy_sha256 plane).


Definition sample_proof : string := Eval vm_compute in
  match RegisterWithProof (cr := Toy.crypto) toy_hmac toy_sha256 "" node_private (public_of (Crypto := Toy.crypto) node_private) "RELAY" [] (JObj []) ""
    (mk_challenge (hex_encode random) (hex_encode (rawPublic plane)) 0) with inr r => Proof r | inl _ => "" end.
Definition sample_nonce : string := Eval vm_compute in hex_encode random.
Definition sample_public : string := Eval vm_compute in hex_encode node_private.

Lemma proof_binds_nonce_and_role_witness :
  canonical sample_nonce = canonical (toUpperCase sample_nonce) ∧ "RELAY" = "RELAY".
Proof.
  refine (proof_binds_nonce_and_role (cr := Toy.crypto) toy_hmac plane sample_public sample_nonce (toUpperCase sample_nonce)
    sample_proof "RELAY" "RELAY" _ _ _).
  - intros key _. vm_compute. reflexivity.
  - vm_compute. reflexivity.
  - vm_compute. reflexivity.
Defined.

(** Outside production a [SET] that reports an error after it was applied leaves the
    nonce in both stores, and it is redeemed twice. *)
Example unacknowledged_set_redeemed_twice :
  redeemed false "" plane sample_nonce
    [(0, Create (Fails true) random); (1, Consume Answers sample_nonce); (2, Consume Answers sample_nonce)] empty_store = 2.
Proof. vm_compute. reflexivity. Qed.
End ChallengeSamples.
