(* ===== verification/Noise.v ===== *)
(** * The handshake of a transport session

    [pkg/crypto/noise.go]: the two acts that give two nodes the keys of a session.  The
    ephemeral keys and the session identifiers drawn at random are arguments. *)

From coqutil Require Import Datatypes.RecordSettersUsingExistingGetters.
From S2P Require Import Prelude Bytes Replay Wire Primitives.
Import Bytes.

Module Noise.
Section Handshake.
Context `{Crypto}.

Definition text_bytes (s : string) : list Z := (λ c, Z.of_N (N_of_ascii c)) <$> String.list_ascii_of_string s.
Definition NoiseProtocolName : list Z := text_bytes "Noise_IKpsk2_25519_ChaChaPoly_BLAKE2s".
Definition PrologueString : list Z := text_bytes "SovereignMesh-v4".

Definition blake2sHash (data : list (list Z)) : list Z := fit KeySize (blake2s (concat data)).
Definition hmacBlake2s (key data : list Z) : list Z := fit KeySize (hmac_blake2s key data).

Definition hkdf2 (ck input : list Z) : list Z * list Z :=
  let tempKey := hmacBlake2s ck input in
  let out1 := hmacBlake2s tempKey [1] in
  let out2 := hmacBlake2s tempKey (out1 ++ [2]) in
  (out1, out2).
Definition hkdf3 (ck input : list Z) : list Z * list Z * list Z :=
  let tempKey := hmacBlake2s ck input in
  let out1 := hmacBlake2s tempKey [1] in
  let out2 := hmacBlake2s tempKey (out1 ++ [2]) in
  let out3 := hmacBlake2s tempKey (out2 ++ [3]) in
  (out1, out2, out3).

(** The little-endian counter behind four zero bytes. *)
Definition ConstructNonce (counter : Z) : list Z := replicate 4 0 ++ reverse (put_be 8 counter).

(** What [Wipe] leaves of a buffer. *)
Definition Wipe (b : list Z) : list Z := replicate (length b) 0.

Record TransportCipherState := mk_transport {
  SendKey : list Z; RecvKey : list Z; SendNonce : Z; RecvNonce : Z; LocalSessionID : Z; RemoteSessionID : Z; PeerStaticPub : list Z;
  CreatedAt : Z; AntiReplay : Replay.AntiReplayWindow
}.

Record InitiatorHandshakeState := mk_initiator {
  EphemeralPriv : list Z; is_EphemeralPub : list Z; InitiatorStatic : Keypair.t; ResponderStatic : list Z; PSK : list Z;
  is_SessionID : Z; CK : list Z; H_ : list Z; is_CreatedAt : Z
}.

Record HandshakeAct1Packet := mk_act1 { a1_SenderSessionID : Z; a1_EphemeralPub : list Z; EncryptedStatic : list Z; a1_EncryptedPayload : list Z }.
Record HandshakeAct2Packet := mk_act2 { a2_SenderSessionID : Z; a2_ReceiverSessionID : Z; a2_EphemeralPub : list Z; a2_EncryptedPayload : list Z }.

Inductive noise_error := InvalidSenderSession | DHFailed | ErrAuthFailed | MismatchedSession.

(** What a failed exchange answers. *)
Definition or_dh_failed {A} (o : option (list Z)) (k : list Z → noise_error + A) : noise_error + A :=
  match o with Some x => k x | None => inl DHFailed end.
Definition or_auth_failed {A} (o : option (list Z)) (k : list Z → noise_error + A) : noise_error + A :=
  match o with Some x => k x | None => inl ErrAuthFailed end.

Definition InitHandshakeAct1 (eph : Keypair.t) (sessionID : Z) (initiatorStatic : Keypair.t) (responderStaticPub psk payload0RTT : list Z) (now : Z)
    : noise_error + (HandshakeAct1Packet * InitiatorHandshakeState) :=
  let h0 := blake2sHash [NoiseProtocolName] in
  let ck0 := h0 in
  let h1 := blake2sHash [h0; PrologueString] in
  let h2 := blake2sHash [h1; responderStaticPub] in
  let h3 := blake2sHash [h2; Keypair.PublicKey eph] in
  or_dh_failed (DH (Keypair.PrivateKey eph) responderStaticPub) (λ dh1,
  let '(ck1, k1) := hkdf2 ck0 dh1 in
  let nonce0 := ConstructNonce 0 in
  let msgS := seal k1 nonce0 (Keypair.PublicKey initiatorStatic) h3 in
  let h4 := blake2sHash [h3; msgS] in
  or_dh_failed (DH (Keypair.PrivateKey initiatorStatic) responderStaticPub) (λ dh2,
  let '(ck2, _) := hkdf2 ck1 dh2 in
  let '(ck3, tempH, k3) := hkdf3 ck2 psk in
  let h5 := blake2sHash [h4; tempH] in
  let msgPayload := seal k3 nonce0 payload0RTT h5 in
  let h6 := blake2sHash [h5; msgPayload] in
  inr (mk_act1 sessionID (Keypair.PublicKey eph) (fit 48 msgS) msgPayload,
       mk_initiator (Keypair.PrivateKey eph) (Keypair.PublicKey eph) initiatorStatic responderStaticPub psk sessionID ck3 h6 now))).

Definition ProcessHandshakeAct1 (respEph : Keypair.t) (respSessionID : Z) (responderStatic : Keypair.t) (psk : list Z) (act1 : HandshakeAct1Packet)
    (payloadAct2 : list Z) (now : Z) : noise_error + (HandshakeAct2Packet * TransportCipherState * list Z) :=
  if a1_SenderSessionID act1 =? 0 then inl InvalidSenderSession else
  let h0 := blake2sHash [NoiseProtocolName] in
  let ck0 := h0 in
  let h1 := blake2sHash [h0; PrologueString] in
  let h2 := blake2sHash [h1; Keypair.PublicKey responderStatic] in
  let h3 := blake2sHash [h2; a1_EphemeralPub act1] in
  or_dh_failed (DH (Keypair.PrivateKey responderStatic) (a1_EphemeralPub act1)) (λ dh1,
  let '(ck1, k1) := hkdf2 ck0 dh1 in
  let nonce0 := ConstructNonce 0 in
  or_auth_failed (open_ k1 nonce0 (EncryptedStatic act1) h3) (λ peerStaticPubBytes,
  let peerStaticPub := fit KeySize peerStaticPubBytes in
  let h4 := blake2sHash [h3; EncryptedStatic act1] in
  or_dh_failed (DH (Keypair.PrivateKey responderStatic) peerStaticPub) (λ dh2,
  let '(ck2, _) := hkdf2 ck1 dh2 in
  let '(ck3, tempH, k3) := hkdf3 ck2 psk in
  let h5 := blake2sHash [h4; tempH] in
  or_auth_failed (open_ k3 nonce0 (a1_EncryptedPayload act1) h5) (λ payload0RTT,
  let h6 := blake2sHash [h5; a1_EncryptedPayload act1] in
  let h7 := blake2sHash [h6; Keypair.PublicKey respEph] in
  or_dh_failed (DH (Keypair.PrivateKey respEph) (a1_EphemeralPub act1)) (λ dh3,
  let '(ck4, _) := hkdf2 ck3 dh3 in
  or_dh_failed (DH (Keypair.PrivateKey respEph) peerStaticPub) (λ dh4,
  let '(ck5, k5) := hkdf2 ck4 dh4 in
  let msgPayload2 := seal k5 nonce0 payloadAct2 h7 in
  let '(kRecv, kSend) := hkdf2 ck5 [] in
  inr (mk_act2 respSessionID (a1_SenderSessionID act1) (Keypair.PublicKey respEph) msgPayload2,
       mk_transport kSend kRecv 0 0 respSessionID (a1_SenderSessionID act1) peerStaticPub now Replay.NewAntiReplayWindow,
       payload0RTT))))))).

Definition ProcessHandshakeAct2 (st : InitiatorHandshakeState) (act2 : HandshakeAct2Packet) (now : Z)
    : noise_error + (TransportCipherState * list Z * InitiatorHandshakeState) :=
  if negb (a2_ReceiverSessionID act2 =? is_SessionID st) then inl MismatchedSession else
  let h7 := blake2sHash [H_ st; a2_EphemeralPub act2] in
  or_dh_failed (DH (EphemeralPriv st) (a2_EphemeralPub act2)) (λ dh3,
  let '(ck4, _) := hkdf2 (CK st) dh3 in
  or_dh_failed (DH (Keypair.PrivateKey (InitiatorStatic st)) (a2_EphemeralPub act2)) (λ dh4,
  let '(ck5, k5) := hkdf2 ck4 dh4 in
  or_auth_failed (open_ k5 (ConstructNonce 0) (a2_EncryptedPayload act2) h7) (λ payloadAct2,
  let '(kSend, kRecv) := hkdf2 ck5 [] in
  inr (mk_transport kSend kRecv 0 0 (is_SessionID st) (a2_SenderSessionID act2) (ResponderStatic st) now Replay.NewAntiReplayWindow,
       payloadAct2, st <| EphemeralPriv := Wipe (EphemeralPriv st) |>)))).

End Handshake.
End Noise.

Module NoiseFacts.
Import Noise.

Section Facts.
Context `{CryptoLaws}.

(** A session that has not been used. *)
Definition opened (t : TransportCipherState) (sid now : Z) : Prop :=
  SendNonce t = 0 ∧ RecvNonce t = 0 ∧ LocalSessionID t = sid ∧ CreatedAt t = now ∧ AntiReplay t = Replay.NewAntiReplayWindow.

(** Two ends of one session. *)
Record mirrored (a b : TransportCipherState) : Prop := {
  mi_keys : SendKey a = RecvKey b; mi_keys' : RecvKey a = SendKey b;
  mi_ids : LocalSessionID a = RemoteSessionID b; mi_ids' : RemoteSessionID a = LocalSessionID b;
}.

Lemma sealed_static k n kp ad : paired kp → fit 48 (seal k n (Keypair.PublicKey kp) ad) = seal k n (Keypair.PublicKey kp) ad.
Proof. intros Hp. apply fit_exact. by rewrite seal_size, Hp, public_size. Qed.
Lemma paired_fit kp : paired kp → fit KeySize (Keypair.PublicKey kp) = Keypair.PublicKey kp.
Proof. intros Hp. apply fit_exact. rewrite Hp. apply public_size. Qed.

(** The two ends agree.  Whatever the static and ephemeral keys, the pre-shared key and
    the payloads are, the first act of an initiator is accepted by the responder it was
    meant for, unless a Diffie-Hellman output of the answer is invalid, with the
    payload and the static key of the initiator; the answer is accepted by the
    initiator, with the payload of the responder; and both ends hold one session: each
    sends with the key and the identifiers the other receives with, starting from
    counter 0 with an empty window.  The initiator's ephemeral key is erased. *)
Theorem handshake_agreement ephI sidI ini ephR sidR res psk p0 p2 t0 t1 t2 act1 st :
  paired ephI → paired ephR → paired ini → paired res → sidI ≠ 0 →
  is_Some (DH (Keypair.PrivateKey ephR) (Keypair.PublicKey ephI)) → is_Some (DH (Keypair.PrivateKey ephR) (Keypair.PublicKey ini)) →
  InitHandshakeAct1 ephI sidI ini (Keypair.PublicKey res) psk p0 t0 = inr (act1, st) →
  ∃ act2 tr ti st', ProcessHandshakeAct1 ephR sidR res psk act1 p2 t1 = inr (act2, tr, p0) ∧
    ProcessHandshakeAct2 st act2 t2 = inr (ti, p2, st') ∧ mirrored ti tr ∧
    PeerStaticPub tr = Keypair.PublicKey ini ∧ PeerStaticPub ti = Keypair.PublicKey res ∧
    opened ti sidI t2 ∧ opened tr sidR t1 ∧ Forall (eq 0) (EphemeralPriv st').
Proof.
  intros Pe Pf Pi Pr Hsid [dh3 E3] [dh4 E4] Hinit. unfold InitHandshakeAct1 in Hinit.
  destruct (DH (Keypair.PrivateKey ephI) (Keypair.PublicKey res)) as [dh1|] eqn:E1; [|done].
  destruct (DH (Keypair.PrivateKey ini) (Keypair.PublicKey res)) as [dh2|] eqn:E2; [|done]. cbn [or_dh_failed] in Hinit.
  rewrite (DH_agree ephI res) in E1 by done. rewrite (DH_agree ini res) in E2 by done.
  pose proof E3 as E3'. rewrite (DH_agree ephR ephI) in E3' by done. pose proof E4 as E4'. rewrite (DH_agree ephR ini) in E4' by done.
  cbn [hkdf2 hkdf3] in Hinit. rewrite sealed_static in Hinit by done. injection Hinit as <- <-.
  eexists _, _, _, _. split; [|split].
  - unfold ProcessHandshakeAct1. cbn [a1_SenderSessionID a1_EphemeralPub EncryptedStatic a1_EncryptedPayload].
    rewrite (proj2 (Z.eqb_neq _ _)) by done. rewrite E1. cbn [or_dh_failed hkdf2]. rewrite open_seal. cbn [or_auth_failed].
    rewrite paired_fit by done. rewrite E2. cbn [or_dh_failed hkdf2 hkdf3]. rewrite open_seal. cbn [or_auth_failed].
    rewrite E3. cbn [or_dh_failed hkdf2]. rewrite E4. cbn [or_dh_failed hkdf2]. reflexivity.
  - unfold ProcessHandshakeAct2. cbn [a2_ReceiverSessionID a2_EphemeralPub a2_EncryptedPayload a2_SenderSessionID is_SessionID EphemeralPriv InitiatorStatic CK H_ ResponderStatic].
    rewrite Z.eqb_refl. cbn [negb]. rewrite E3'. cbn [or_dh_failed hkdf2]. rewrite E4'. cbn [or_dh_failed hkdf2]. rewrite open_seal. reflexivity.
  - split_and!; try done. cbn. unfold Wipe. by apply Forall_replicate.
Qed.

(** Only what an initiator makes is accepted.  Where a responder accepts a first act,
    the packet is, byte for byte, the one [InitHandshakeAct1] makes for this responder
    and this pre-shared key from the ephemeral key it carries, the static key it is
    attributed to and the payload that was read: no other packet is taken for it. *)
Theorem accepted_act1_is_made ephI ini ephR sidR res psk act1 p2 t1 act2 tr p0 t0 :
  paired ephI → paired ini → paired res → a1_EphemeralPub act1 = Keypair.PublicKey ephI → length (EncryptedStatic act1) = 48%nat →
  ProcessHandshakeAct1 ephR sidR res psk act1 p2 t1 = inr (act2, tr, p0) → PeerStaticPub tr = Keypair.PublicKey ini →
  ∃ st, InitHandshakeAct1 ephI (a1_SenderSessionID act1) ini (Keypair.PublicKey res) psk p0 t0 = inr (act1, st) ∧
    a2_ReceiverSessionID act2 = is_SessionID st.
Proof.
  destruct act1 as [sid ep es pl]. cbn [a1_SenderSessionID a1_EphemeralPub EncryptedStatic a1_EncryptedPayload].
  intros Pe Pi Pr -> Hl Hac Hp. unfold ProcessHandshakeAct1 in Hac.
  cbn [a1_SenderSessionID a1_EphemeralPub EncryptedStatic a1_EncryptedPayload hkdf2 hkdf3] in Hac.
  destruct (sid =? 0); [done|]. destruct (DH (Keypair.PrivateKey res) (Keypair.PublicKey ephI)) as [dh1|] eqn:E1; [|done].
  cbn [or_dh_failed] in Hac. destruct (open_ _ _ es _) as [pk|] eqn:O1 in Hac; [|done]. cbn [or_auth_failed] in Hac.
  destruct (DH (Keypair.PrivateKey res) (fit KeySize pk)) as [dh2|] eqn:E2; [|done]. cbn [or_dh_failed] in Hac.
  destruct (open_ _ _ pl _) as [q|] eqn:O2 in Hac; [|done]. cbn [or_auth_failed] in Hac.
  destruct (DH _ _) as [dh3|] in Hac; [|done]. cbn [or_dh_failed] in Hac. destruct (DH _ _) as [dh4|] in Hac; [|done]. cbn [or_dh_failed] in Hac.
  injection Hac as <- <- <-. cbn [PeerStaticPub] in Hp.
  apply open_sealed in O1. apply open_sealed in O2.
  assert (fit KeySize pk = pk) as Ef.
  { apply fit_exact. rewrite O1, seal_size in Hl. unfold TagSize, KeySize in *. lia. }
  rewrite Ef in *. subst pk. rewrite (DH_agree res ephI) in E1 by done. rewrite (DH_agree res ini) in E2 by done.
  unfold InitHandshakeAct1. rewrite E1. cbn [or_dh_failed hkdf2]. rewrite E2. cbn [or_dh_failed hkdf2 hkdf3].
  rewrite sealed_static by done. rewrite <- O1, <- O2. eexists. split; reflexivity.
Qed.

End Facts.
End NoiseFacts.

Module NoiseSamples.
Import Noise NoiseFacts.

Definition alice : Keypair.t := Eval vm_compute in GenerateKeypair (H := Toy.crypto) (replicate 32 8).
Definition bob : Keypair.t := Eval vm_compute in GenerateKeypair (H := Toy.crypto) (replicate 32 16).
Definition eph_a : Keypair.t := Eval vm_compute in GenerateKeypair (H := Toy.crypto) (replicate 32 24).
Definition eph_b : Keypair.t := Eval vm_compute in GenerateKeypair (H := Toy.crypto) (replicate 32 32).
Definition eph_c : Keypair.t := Eval vm_compute in GenerateKeypair (H := Toy.crypto) (replicate 32 40).
Definition shared_psk : list Z := replicate 32 7.

Definition started : HandshakeAct1Packet * InitiatorHandshakeState := Eval vm_compute in
  match InitHandshakeAct1 (H := Toy.crypto) eph_a 11 alice (Keypair.PublicKey bob) shared_psk [104; 105] 1000 with
  | inr r => r
  | inl _ => (mk_act1 0 [] [] [], mk_initiator [] [] alice [] [] 0 [] [] 0)
  end.
Definition answered : HandshakeAct2Packet * TransportCipherState * list Z := Eval vm_compute in
  match ProcessHandshakeAct1 (H := Toy.crypto) eph_b 12 bob shared_psk started.1 [111; 107] 1001 with
  | inr r => r
  | inl _ => (mk_act2 0 0 [] [], mk_transport [] [] 0 0 0 0 [] 0 Replay.NewAntiReplayWindow, [])
  end.

Lemma handshake_agreement_witness :
  ∃ act2 tr ti st', ProcessHandshakeAct1 (H := Toy.crypto) eph_b 12 bob shared_psk started.1 [111; 107] 1001 = inr (act2, tr, [104; 105]) ∧
    ProcessHandshakeAct2 (H := Toy.crypto) started.2 act2 1002 = inr (ti, [111; 107], st') ∧ mirrored ti tr ∧
    PeerStaticPub tr = Keypair.PublicKey alice ∧ PeerStaticPub ti = Keypair.PublicKey bob ∧
    opened ti 11 1002 ∧ opened tr 12 1001 ∧ Forall (eq 0) (EphemeralPriv st').
Proof.
  apply (handshake_agreement (H := Toy.laws) eph_a 11 alice eph_b 12 bob shared_psk [104; 105] [111; 107] 1000 1001 1002 started.1 started.2);
    [vm_compute; reflexivity..|done|by eexists|by eexists|vm_compute; reflexivity].
Defined.

Lemma accepted_act1_is_made_witness :
  ∃ st, InitHandshakeAct1 (H := Toy.crypto) eph_a 11 alice (Keypair.PublicKey bob) shared_psk [104; 105] 1000 = inr (started.1, st) ∧
    a2_ReceiverSessionID answered.1.1 = is_SessionID st.
Proof.
  apply (accepted_act1_is_made (H := Toy.laws) eph_a alice eph_b 12 bob shared_psk started.1 [111; 107] 1001 answered.1.1 answered.1.2 [104; 105] 1000);
    vm_compute; reflexivity.
Defined.

(** A first act is not bound to a time or to a session of the responder: a copy of it is
    accepted again, with its payload. *)
Lemma act1_accepted_twice :
  ∃ a b tr tr', ProcessHandshakeAct1 (H := Toy.crypto) eph_b 12 bob shared_psk started.1 [] 1001 = inr (a, tr, [104; 105]) ∧
    ProcessHandshakeAct1 (H := Toy.crypto) eph_c 13 bob shared_psk started.1 [] 999999999 = inr (b, tr', [104; 105]).
Proof. eexists _, _, _, _. split; vm_compute; reflexivity. Qed.

End NoiseSamples.
