(* ===== verification/Ratchet.v ===== *)
(** * The sessions of a peer connection

    [pkg/crypto/ratchet.go].  The manager holds the session in use and the one before
    it.  [DecryptPacket] works under the read lock, so several of them may run at once
    between two other operations: it is given as its two halves, up to the first look
    at the anti-replay window and from there on, and [Receiving] interleaves them. *)

From coqutil Require Import Datatypes.RecordSettersUsingExistingGetters.
From S2P Require Import Prelude Bytes Replay Wire Primitives Noise.
Import Bytes Wire Noise.

Module Ratchet.

Definition RekeyPacketThreshold : Z := 1048576.
(** Durations are in nanoseconds. *)
Definition RekeyTimeThreshold : Z := 180 * 10 ^ 9.
Definition DualKeyGracePeriod : Z := 15 * 10 ^ 9.

Inductive ratchet_error := ErrSessionClosed | ErrReplayDetected | ErrInvalidCiphertext | BadFrame (e : wire_error).

Record SessionRatchetManager := mk {
  activeState : option TransportCipherState; previousState : option TransportCipherState; closed : bool; isInitiator : bool;
  staticKeypair : Keypair.t; peerStaticPub : list Z; psk : list Z
}.

Definition NewSessionRatchetManager (initialState : TransportCipherState) (isInitiator : bool) (staticKeypair : Keypair.t) (peerStaticPub psk : list Z)
    : SessionRatchetManager :=
  mk (Some initialState) None false isInitiator staticKeypair peerStaticPub psk.

Definition NeedsRekey (now : Z) (m : SessionRatchetManager) : bool :=
  match activeState m with
  | None => false
  | Some s => (RekeyPacketThreshold <=? SendNonce s) || (RekeyTimeThreshold <=? now - CreatedAt s)
  end.

Definition encodeUint32 (v : Z) : list Z := [uint 8 (Z.shiftr v 24); uint 8 (Z.shiftr v 16); uint 8 (Z.shiftr v 8); uint 8 v].
Definition encodeUint64 (v : Z) : list Z :=
  [uint 8 (Z.shiftr v 56); uint 8 (Z.shiftr v 48); uint 8 (Z.shiftr v 40); uint 8 (Z.shiftr v 32);
   uint 8 (Z.shiftr v 24); uint 8 (Z.shiftr v 16); uint 8 (Z.shiftr v 8); uint 8 v].
Definition header_ad (sender receiver seq : Z) : list Z := encodeUint32 sender ++ encodeUint32 receiver ++ encodeUint64 seq.

Section Operations.
Context `{Crypto}.

Definition EncryptPacket (msgType : Z) (plaintext : list Z) (m : SessionRatchetManager) : SessionRatchetManager * (ratchet_error + list Z) :=
  match activeState m with
  | Some s =>
      if closed m then (m, inl ErrSessionClosed) else
      let seq := SendNonce s in
      let m' := m <| activeState := Some (s <| SendNonce := uint 64 (seq + 1) |>) |> in
      let nonce := ConstructNonce seq in
      let ad := header_ad (LocalSessionID s) (RemoteSessionID s) seq in
      let sealed := seal (SendKey s) nonce plaintext ad in
      let tagOffset := (length sealed - Poly1305TagSize)%nat in
      let ciphertext := take tagOffset sealed in
      let tag := fit Poly1305TagSize (drop tagOffset sealed) in
      (m', inr (EncodeDirectFrame (mk_direct DirectFrameMagic CurrentWireVersion msgType (LocalSessionID s) (RemoteSessionID s) seq ciphertext tag)))
  | None => (m, inl ErrSessionClosed)
  end.

(** Which session a frame is for. *)
Inductive side := Active | Previous.
#[export] Instance side_eq_dec : EqDecision side.
Proof. solve_decision. Defined.
Definition side_state (sd : side) (m : SessionRatchetManager) : option TransportCipherState :=
  match sd with Active => activeState m | Previous => previousState m end.
Definition set_side (sd : side) (s : TransportCipherState) (m : SessionRatchetManager) : SessionRatchetManager :=
  match sd with Active => m <| activeState := Some s |> | Previous => m <| previousState := Some s |> end.

Definition targetState (now : Z) (frame : DirectFrame) (active : TransportCipherState) (m : SessionRatchetManager)
    : option (side * TransportCipherState) :=
  if ReceiverSessionID frame =? LocalSessionID active then Some (Active, active) else
  match previousState m with
  | Some p =>
      if (ReceiverSessionID frame =? LocalSessionID p) && (now - CreatedAt active <=? DualKeyGracePeriod) then Some (Previous, p) else None
  | None => None
  end.

(** Up to the first look at the window. *)
Definition decrypt_begin (now : Z) (rawFrame : list Z) (m : SessionRatchetManager) : ratchet_error + (side * DirectFrame) :=
  match DecodeDirectFrame rawFrame with
  | inl e => inl (BadFrame e)
  | inr frame =>
      match activeState m with
      | Some active =>
          if closed m then inl ErrSessionClosed else
          match targetState now frame active m with
          | None => inl ErrInvalidCiphertext
          | Some (sd, s) =>
              if negb (Replay.Check (AntiReplay s) (SequenceCounter frame)) then inl ErrReplayDetected else inr (sd, frame)
          end
      | None => inl ErrSessionClosed
      end
  end.

(** From there on. *)
Definition decrypt_finish (sd : side) (frame : DirectFrame) (m : SessionRatchetManager) : SessionRatchetManager * (ratchet_error + list Z * Z) :=
  match side_state sd m with
  | None => (m, inl ErrInvalidCiphertext)
  | Some s =>
      let sealed := Ciphertext frame ++ AuthTag frame in
      let ad := header_ad (SenderSessionID frame) (ReceiverSessionID frame) (SequenceCounter frame) in
      let nonce := ConstructNonce (SequenceCounter frame) in
      match open_ (RecvKey s) nonce sealed ad with
      | None => (m, inl ErrInvalidCiphertext)
      | Some plaintext =>
          let '(fresh, window) := Replay.CheckAndAdd (AntiReplay s) (SequenceCounter frame) in
          let m' := set_side sd (s <| AntiReplay := window |>) m in
          if fresh then (m', inr (plaintext, MsgType frame)) else (m', inl ErrReplayDetected)
      end
  end.

Definition DecryptPacket (now : Z) (rawFrame : list Z) (m : SessionRatchetManager) : SessionRatchetManager * (ratchet_error + list Z * Z) :=
  match decrypt_begin now rawFrame m with
  | inl e => (m, inl e)
  | inr (sd, frame) => decrypt_finish sd frame m
  end.

(** The session with its keys erased. *)
Definition wipe_keys (s : TransportCipherState) : TransportCipherState := s <| SendKey ::= Wipe |> <| RecvKey ::= Wipe |>.

(** The manager after it, and the sessions it let go of. *)
Definition RotateKeys (newState : TransportCipherState) (m : SessionRatchetManager) : SessionRatchetManager * list TransportCipherState :=
  (m <| previousState := activeState m |> <| activeState := Some newState |>,
   match previousState m with Some p => [wipe_keys p] | None => [] end).
Definition Close (m : SessionRatchetManager) : SessionRatchetManager * list TransportCipherState :=
  (m <| closed := true |> <| activeState := None |> <| previousState := None |>,
   match activeState m with Some s => [wipe_keys s] | None => [] end ++ match previousState m with Some p => [wipe_keys p] | None => [] end).

End Operations.

(** ** Concurrent receivers

    Readers hold the read lock from [decrypt_begin] to [decrypt_finish]; the writers
    [EncryptPacket], [RotateKeys] and [Close] wait until there is none. *)

Section Interleaving.
Context `{Crypto}.

Record connection := mk_connection {
  manager : SessionRatchetManager;
  readers : list (side * DirectFrame);
  (** the session and counter of every packet handed up, latest first *)
  delivered : list (Z * Z);
  (** the identifiers of the sessions there have been *)
  sessions : list Z
}.

Inductive event :=
  | Arrive (now : Z) (raw : list Z)
  | Complete (i : nat)
  | Send (msgType : Z) (plaintext : list Z)
  | Rotate (newState : TransportCipherState)
  | Shut.

Definition write (f : SessionRatchetManager → SessionRatchetManager) (c : connection) : option connection :=
  match readers c with [] => Some (c <| manager ::= f |>) | _ => None end.

Definition finish_read (sd : side) (frame : DirectFrame) (c : connection) : connection :=
  let '(m', r) := decrypt_finish sd frame (manager c) in
  c <| manager := m' |> <| delivered ::= match r with inr _ => cons (ReceiverSessionID frame, SequenceCounter frame) | inl _ => id end |>.

(** [None] where the event has to wait. *)
Definition happens (e : event) (c : connection) : option connection :=
  match e with
  | Arrive now raw =>
      Some match decrypt_begin now raw (manager c) with inr r => c <| readers ::= λ rs, rs ++ [r] |> | inl _ => c end
  | Complete i =>
      '(sd, frame) ← readers c !! i;
      Some (finish_read sd frame (c <| readers ::= λ rs, take i rs ++ drop (S i) rs |>))
  | Send msgType plaintext => write (λ m, (EncryptPacket msgType plaintext m).1) c
  | Rotate newState =>
      c' ← write (λ m, (RotateKeys newState m).1) c;
      Some (c' <| sessions ::= cons (LocalSessionID newState) |>)
  | Shut => write (λ m, (Close m).1) c
  end.

Fixpoint history (es : list event) (c : connection) : option connection :=
  match es with [] => Some c | e :: es => c' ← happens e c; history es c' end.

Definition connect (s : TransportCipherState) (initiator : bool) (kp : Keypair.t) (peer psk : list Z) : connection :=
  mk_connection (NewSessionRatchetManager s initiator kp peer psk) [] [] [LocalSessionID s].

End Interleaving.
End Ratchet.

Module RatchetFacts.
Import Ratchet ReplayFacts WireFacts NoiseFacts.

Section Facts.
Context {cr : Crypto} {laws : CryptoLaws cr}.

(** ** Every packet is handed up at most once *)

Definition taken (sid : Z) (l : list (Z * Z)) : list Z := snd <$> filter (λ x, x.1 = sid) l.

Lemma taken_same sid n l : taken sid ((sid, n) :: l) = n :: taken sid l.
Proof. unfold taken. by rewrite filter_cons_True. Qed.
Lemma taken_other sid sid' n l : sid ≠ sid' → taken sid ((sid', n) :: l) = taken sid l.
Proof. intros Hne. unfold taken. rewrite filter_cons_False; [done|]. cbn. congruence. Qed.
Lemma taken_none sid l : sid ∉ l.*1 → taken sid l = [].
Proof.
  intros Hn. unfold taken. induction l as [|[a n] l IH]; [done|]. rewrite filter_cons_False by (cbn in *; set_solver).
  apply IH. cbn in Hn. set_solver.
Qed.
Lemma elem_of_taken sid n l : n ∈ taken sid l ↔ (sid, n) ∈ l.
Proof.
  unfold taken. rewrite list_elem_of_fmap. setoid_rewrite list_elem_of_filter. split.
  - intros ([a b] & -> & <- & Hin). done.
  - intros Hin. by exists (sid, n).
Qed.

Record sound (c : connection) : Prop := {
  so_tracks : ∀ sd s, side_state sd (manager c) = Some s → tracks (AntiReplay s) (taken (LocalSessionID s) (delivered c));
  so_known : ∀ sd s, side_state sd (manager c) = Some s → LocalSessionID s ∈ sessions c;
  so_apart : ∀ a p, activeState (manager c) = Some a → previousState (manager c) = Some p → LocalSessionID a ≠ LocalSessionID p;
  so_once : NoDup (delivered c);
  so_from : ∀ x, x ∈ delivered c → x.1 ∈ sessions c;
  so_readers : ∀ sd f, (sd, f) ∈ readers c → 0 <= SequenceCounter f ∧ ∃ s, side_state sd (manager c) = Some s ∧ LocalSessionID s = ReceiverSessionID f;
}.

Definition event_ok (e : event) : Prop :=
  match e with Arrive _ raw => bytes raw | Rotate s => AntiReplay s = Replay.NewAntiReplayWindow | _ => True end.
Definition rotated (es : list event) : list Z := omap (λ e, match e with Rotate s => Some (LocalSessionID s) | _ => None end) es.

Lemma connect_sound s initiator kp peer key : AntiReplay s = Replay.NewAntiReplayWindow → sound (connect s initiator kp peer key).
Proof.
  intros Hw. split; cbn [connect manager delivered sessions readers NewSessionRatchetManager].
  - intros [|] s'; cbn; [|done]. intros [= <-]. rewrite Hw. apply fresh_tracks.
  - intros [|] s'; cbn; [|done]. intros [= <-]. set_solver.
  - done.
  - apply NoDup_nil_2.
  - set_solver.
  - set_solver.
Qed.

(** What a packet that begins is known to be for. *)
Lemma begin_target now raw m sd f :
  bytes raw → decrypt_begin now raw m = inr (sd, f) →
  DecodeDirectFrame raw = inr f ∧ 0 <= SequenceCounter f ∧ ∃ s, side_state sd m = Some s ∧ LocalSessionID s = ReceiverSessionID f ∧ closed m = false.
Proof.
  intros Hb Hd. unfold decrypt_begin in Hd. destruct (DecodeDirectFrame raw) as [|g] eqn:Ed; [done|].
  destruct (activeState m) as [a|] eqn:Ea; [|done]. destruct (closed m) eqn:Ec; [done|].
  unfold targetState in Hd. destruct (encode_decode_direct raw g Hb Ed) as [_ Hok]. destruct (Z.eqb_spec (ReceiverSessionID g) (LocalSessionID a)) as [E|E].
  - destruct (negb _) in Hd; [done|]. injection Hd as <- <-. split; [done|]. split; [apply (do_counter _ Hok)|]. by exists a.
  - destruct (previousState m) as [p|] eqn:Ep; [|done]. destruct (Z.eqb_spec (ReceiverSessionID g) (LocalSessionID p)) as [E'|]; [|done].
    destruct (now - _ <=? _); [|done]. cbn [andb] in Hd. destruct (negb _) in Hd; [done|]. injection Hd as <- <-. split; [done|].
    split; [apply (do_counter _ Hok)|]. by exists p.
Qed.

Lemma side_set_same sd s m : side_state sd (set_side sd s m) = Some s.
Proof. by destruct sd. Qed.
Lemma side_set_other sd sd' s m : sd ≠ sd' → side_state sd' (set_side sd s m) = side_state sd' m.
Proof. by destruct sd, sd'. Qed.

Lemma admits_new acc n : admits acc n = true → n ∉ acc.
Proof.
  unfold admits. intros [->%bool_decide_eq_true|[Hn _]%andb_true_iff]%orb_true_iff; [apply not_elem_of_nil|by apply bool_decide_eq_true in Hn].
Qed.

(** A session's window moves along with what was handed up of it. *)
Lemma window_moves c sd s n fresh w :
  sound c → side_state sd (manager c) = Some s → 0 <= n → Replay.CheckAndAdd (AntiReplay s) n = (fresh, w) →
  sound (c <| manager ::= set_side sd (s <| AntiReplay := w |>) |> <| delivered ::= if fresh then cons (LocalSessionID s, n) else id |>).
Proof.
  intros Hs Hsd Hn Ew. destruct (step_tracks _ _ n (so_tracks _ Hs sd s Hsd) Hn) as [E1 E2]. rewrite Ew in E1, E2. cbn [fst snd] in E1, E2.
  assert (∀ sd' s', side_state sd' (set_side sd (s <| AntiReplay := w |>) (manager c)) = Some s' →
    (sd' = sd ∧ s' = s <| AntiReplay := w |>) ∨ (sd' ≠ sd ∧ side_state sd' (manager c) = Some s' ∧ LocalSessionID s' ≠ LocalSessionID s)) as Hside.
  { intros sd' s' Es. destruct (decide (sd' = sd)) as [->|Hne].
    - rewrite side_set_same in Es. left. by injection Es as <-.
    - rewrite side_set_other in Es by done. right. split; [done|]. split; [done|].
      destruct sd, sd'; try done; intros He; eapply (so_apart _ Hs); by try exact Es; try exact Hsd. }
  split; cbn [manager delivered sessions readers].
  - intros sd' s' [[-> ->]|(Hne & Es & Hid)]%Hside; cbn [AntiReplay LocalSessionID].
    + unfold noted in E2. destruct fresh; rewrite <- E1 in E2; [|exact E2].
      change (tracks w (taken (LocalSessionID s) ((LocalSessionID s, n) :: delivered c))). by rewrite taken_same.
    + destruct fresh; [|by apply (so_tracks _ Hs sd')].
      change (tracks (AntiReplay s') (taken (LocalSessionID s') ((LocalSessionID s, n) :: delivered c))). rewrite taken_other by done.
      by apply (so_tracks _ Hs sd').
  - intros sd' s' [[-> ->]|(Hne & Es & Hid)]%Hside; [exact (so_known _ Hs sd s Hsd)|exact (so_known _ Hs sd' s' Es)].
  - intros a p Ea Ep. destruct (Hside Active a Ea) as [[<- ->]|(_ & Ea' & _)], (Hside Previous p Ep) as [[Hp ->]|(_ & Ep' & _)]; try done.
    + by apply (so_apart _ Hs s p).
    + subst sd. by apply (so_apart _ Hs a s).
    + by apply (so_apart _ Hs a p).
  - destruct fresh; [|by apply (so_once _ Hs)]. apply NoDup_cons_2; [|by apply (so_once _ Hs)].
    intros Hin%elem_of_taken. symmetry in E1. by apply admits_new in E1.
  - intros x Hx. destruct fresh; [|by apply (so_from _ Hs)]. apply elem_of_cons in Hx as [->|Hx]; [exact (so_known _ Hs sd s Hsd)|exact (so_from _ Hs x Hx)].
  - intros sd' f Hf. destruct (so_readers _ Hs sd' f Hf) as (Hc & s' & Es & Hid). split; [done|]. destruct (decide (sd' = sd)) as [->|Hne].
    + eexists. split; [apply side_set_same|]. change (LocalSessionID s = ReceiverSessionID f). congruence.
    + exists s'. split; [|done]. rewrite <- Es. by apply side_set_other.
Qed.

Lemma finish_read_sound c sd f s :
  sound c → side_state sd (manager c) = Some s → LocalSessionID s = ReceiverSessionID f → 0 <= SequenceCounter f → sound (finish_read sd f c).
Proof.
  intros Hs Hsd Hid Hn. unfold finish_read, decrypt_finish. rewrite Hsd. destruct (open_ _ _ _ _); [|by destruct c].
  destruct (Replay.CheckAndAdd _ _) as [fresh w] eqn:Ew. pose proof (window_moves c sd s _ fresh w Hs Hsd Hn Ew) as Hm. rewrite <- Hid.
  destruct fresh; exact Hm.
Qed.

Lemma encrypt_sides t p m sd s' :
  side_state sd (EncryptPacket t p m).1 = Some s' →
  ∃ s, side_state sd m = Some s ∧ AntiReplay s' = AntiReplay s ∧ LocalSessionID s' = LocalSessionID s.
Proof.
  unfold EncryptPacket. destruct (activeState m) as [s|] eqn:Ea; [|intros E; by exists s']. destruct (closed m); [intros E; by exists s'|].
  destruct sd; cbn; [|intros E; by exists s']. intros [= <-]. by exists s.
Qed.

Lemma rotate_sides s m sd s' :
  side_state sd (RotateKeys s m).1 = Some s' → (sd = Active ∧ s' = s) ∨ (sd = Previous ∧ activeState m = Some s').
Proof. destruct sd; cbn; [intros [= <-]; by left|intros E; by right]. Qed.

(** A writer that keeps the sessions it does not bring in. *)
Lemma write_sound f c c' :
  sound c → write f c = Some c' →
  (∀ sd s', side_state sd (f (manager c)) = Some s' →
     ∃ s, side_state sd (manager c) = Some s ∧ AntiReplay s' = AntiReplay s ∧ LocalSessionID s' = LocalSessionID s) → sound c'.
Proof.
  intros Hs Hw Hf. unfold write in Hw. destruct (readers c) as [|] eqn:Er; [|done]. injection Hw as <-.
  split; cbn [manager delivered sessions readers].
  - intros sd s' (s & Es & Ew & Ei)%Hf. rewrite Ew, Ei. exact (so_tracks _ Hs sd s Es).
  - intros sd s' (s & Es & Ew & Ei)%Hf. rewrite Ei. exact (so_known _ Hs sd s Es).
  - intros a p (a' & Ea & _ & ->)%(Hf Active) (p' & Ep & _ & ->)%(Hf Previous). exact (so_apart _ Hs a' p' Ea Ep).
  - exact (so_once _ Hs).
  - exact (so_from _ Hs).
  - intros sd g Hg. change ((sd, g) ∈ readers c) in Hg. rewrite Er in Hg. by apply elem_of_nil in Hg.
Qed.

Lemma rotate_sound s c c' :
  sound c → AntiReplay s = Replay.NewAntiReplayWindow → LocalSessionID s ∉ sessions c → happens (Rotate s) c = Some c' →
  sound c' ∧ sessions c' = LocalSessionID s :: sessions c.
Proof.
  intros Hs Hw Hnew Hh. cbn [happens] in Hh. unfold write in Hh. destruct (readers c) as [|] eqn:Er; [|done]. injection Hh as <-.
  split; [|done]. split; cbn [manager delivered sessions readers].
  - intros sd s' [[-> ->]|[-> Es]]%rotate_sides; [|exact (so_tracks _ Hs Active s' Es)]. rewrite Hw.
    change (tracks Replay.NewAntiReplayWindow (taken (LocalSessionID s) (delivered c))). rewrite taken_none; [apply fresh_tracks|].
    intros ([a n] & Ha & Hx)%list_elem_of_fmap. apply Hnew. rewrite Ha. exact (so_from _ Hs _ Hx).
  - intros sd s' [[-> ->]|[-> Es]]%rotate_sides; apply elem_of_cons; [by left|]. right. exact (so_known _ Hs Active s' Es).
  - intros a p. cbn. intros [= <-] Ep He. apply Hnew. rewrite He. exact (so_known _ Hs Active p Ep).
  - exact (so_once _ Hs).
  - intros x Hx. apply elem_of_cons. right. exact (so_from _ Hs x Hx).
  - intros sd g Hg. change ((sd, g) ∈ readers c) in Hg. rewrite Er in Hg. by apply elem_of_nil in Hg.
Qed.

Lemma arrive_sound now raw c c' : sound c → bytes raw → happens (Arrive now raw) c = Some c' → sound c' ∧ sessions c' = sessions c.
Proof.
  intros Hs Hb Hh. cbn [happens] in Hh. destruct (decrypt_begin now raw (manager c)) as [|[sd f]] eqn:Ed; injection Hh as <-; [done|].
  destruct (begin_target now raw _ sd f Hb Ed) as (_ & Hn & s & Es & Hid & _). split; [|done]. destruct Hs as [A B C D E F]. split; [exact A|exact B|exact C|exact D|exact E|].
  intros sd' g Hg. change ((sd', g) ∈ readers c ++ [(sd, f)]) in Hg. apply elem_of_app in Hg as [Hg|Hg%list_elem_of_singleton]; [by apply F|].
  injection Hg as -> ->. split; [done|]. by exists s.
Qed.

Lemma finish_sound i c c' : sound c → happens (Complete i) c = Some c' → sound c' ∧ sessions c' = sessions c.
Proof.
  intros Hs Hh. cbn [happens] in Hh. destruct (readers c !! i) as [[sd f]|] eqn:Ei; [|done]. cbn in Hh. injection Hh as <-.
  destruct (so_readers _ Hs sd f) as (Hn & s & Es & Hid); [by eapply list_elem_of_lookup_2|]. split.
  - apply finish_read_sound with s; [|exact Es|exact Hid|exact Hn]. destruct Hs as [A B C D E F]. split; [exact A|exact B|exact C|exact D|exact E|].
    intros sd' g Hg. apply F. change ((sd', g) ∈ take i (readers c) ++ drop (S i) (readers c)) in Hg.
    apply elem_of_app in Hg as [Hg|Hg]; [exact (elem_of_sublist _ _ _ Hg (sublist_take _ _))|exact (elem_of_sublist _ _ _ Hg (sublist_drop _ _))].
  - unfold finish_read. by destruct (decrypt_finish _ _ _).
Qed.

Lemma happens_sound e c c' :
  sound c → event_ok e → NoDup (rotated [e] ++ sessions c) → happens e c = Some c' → sound c' ∧ sessions c' = rotated [e] ++ sessions c.
Proof.
  intros Hs He Hn Hh. destruct e as [now raw|i|t p|s|]; cbn [rotated omap list_omap app] in *.
  - by apply (arrive_sound now raw).
  - by apply (finish_sound i).
  - split; [by apply (write_sound _ c c' Hs Hh), encrypt_sides|]. cbn [happens] in Hh. unfold write in Hh. destruct (readers c); [|done]. by injection Hh as <-.
  - apply NoDup_cons in Hn as [Hn _]. by apply rotate_sound.
  - split; [apply (write_sound _ c c' Hs Hh); by intros [|]|]. cbn [happens] in Hh. unfold write in Hh. destruct (readers c); [|done]. by injection Hh as <-.
Qed.

Lemma rotated_cons e es : rotated (e :: es) = rotated [e] ++ rotated es.
Proof. by destruct e. Qed.

Lemma history_sound es c c' :
  sound c → Forall event_ok es → NoDup (rotated es ++ sessions c) → history es c = Some c' → sound c'.
Proof.
  revert c. induction es as [|e es IH]; intros c Hs Hf Hn Hh; [by injection Hh as <-|]. apply Forall_cons in Hf as [He Hf]. cbn [history] in Hh.
  destruct (happens e c) as [c1|] eqn:E1; [|done]. rewrite rotated_cons in Hn.
  assert (NoDup (rotated es ++ rotated [e] ++ sessions c)) as Hn' by (by rewrite app_assoc, (Permutation_app_comm (rotated es))).
  destruct (happens_sound e c c1 Hs He) as [Hs1 E]; [by apply NoDup_app in Hn' as (_ & _ & ?)|done|]. eapply IH; [exact Hs1|done| |exact Hh]. by rewrite E.
Qed.

(** C21. No packet is handed up twice.  Over any interleaving of packets that arrive,
    packets whose decryption completes, packets sent, rotations and the end of the
    connection, whatever bytes arrive and however many receivers are at work at once,
    no counter of a session is delivered a second time: a copy that passed the first
    look at the window while the original was being opened is stopped by the second.
    The identifiers of the sessions are taken to be distinct, and a session to start
    with a new window, as the handshake makes it. *)
Theorem packets_delivered_once s initiator kp peer key es c :
  AntiReplay s = Replay.NewAntiReplayWindow → Forall event_ok es → NoDup (rotated es ++ [LocalSessionID s]) →
  history es (connect s initiator kp peer key) = Some c → NoDup (delivered c).
Proof. intros Hw Hf Hn Hh. eapply so_once, history_sound; [by apply connect_sound|exact Hf|exact Hn|exact Hh]. Qed.

(** ** What is sent is delivered *)

Fixpoint send_all (msgs : list (Z * list Z)) (m : SessionRatchetManager) : list (ratchet_error + list Z) :=
  match msgs with [] => [] | (t, p) :: msgs => let '(m', r) := EncryptPacket t p m in r :: send_all msgs m' end.
Fixpoint receive_all (now : Z) (raws : list (list Z)) (m : SessionRatchetManager) : list (ratchet_error + list Z * Z) :=
  match raws with [] => [] | raw :: raws => let '(m', r) := DecryptPacket now raw m in r :: receive_all now raws m' end.

(** What comes of the packets [order] numbers, where [acc] were accepted before. *)
Fixpoint outcomes (msgs : list (Z * list Z)) (acc : list Z) (order : list nat) : list (ratchet_error + list Z * Z) :=
  match order with
  | [] => []
  | i :: order =>
      let n := Z.of_nat i in
      (if admits acc n then let '(t, p) := default (0, []) (msgs !! i) in inr (p, t) else inl ErrReplayDetected) :: outcomes msgs (noted acc n) order
  end.

Definition message_ok (x : Z * list Z) : Prop := is_uint 8 x.1 ∧ bytes x.2.

(** The frame of a packet. *)
Definition frame_of (s : TransportCipherState) (n t : Z) (p : list Z) : DirectFrame :=
  let sealed := seal (SendKey s) (ConstructNonce n) p (header_ad (LocalSessionID s) (RemoteSessionID s) n) in
  mk_direct DirectFrameMagic CurrentWireVersion t (LocalSessionID s) (RemoteSessionID s) n (take (length p) sealed) (drop (length p) sealed).

Lemma encrypt_frame t p m s :
  activeState m = Some s → closed m = false →
  EncryptPacket t p m = (m <| activeState := Some (s <| SendNonce := uint 64 (SendNonce s + 1) |>) |>, inr (EncodeDirectFrame (frame_of s (SendNonce s) t p))).
Proof.
  intros Ea Ec. unfold EncryptPacket, frame_of. rewrite Ea, Ec. cbv zeta. rewrite seal_size. change Poly1305TagSize with TagSize. rewrite Nat.add_sub, fit_exact; [done|].
  rewrite length_drop, seal_size. lia.
Qed.

Lemma frame_of_ok s n t p :
  is_uint 32 (LocalSessionID s) → is_uint 32 (RemoteSessionID s) → is_uint 64 n → message_ok (t, p) → direct_ok (frame_of s n t p).
Proof.
  intros Hl Hr Hn [Ht Hp]. pose proof (seal_bytes (SendKey s) (ConstructNonce n) p (header_ad (LocalSessionID s) (RemoteSessionID s) n) Hp) as Hb.
  split; cbn [frame_of Version MsgType Magic SenderSessionID ReceiverSessionID SequenceCounter Ciphertext AuthTag]; try done.
  - by apply bytes_take.
  - by apply bytes_drop.
  - rewrite length_drop, seal_size. unfold TagSize, Poly1305TagSize. lia.
Qed.

Lemma decrypt_frame now a b m acc n t p :
  mirrored a b → activeState m = Some b → closed m = false → tracks (AntiReplay b) acc →
  is_uint 32 (LocalSessionID a) → is_uint 32 (RemoteSessionID a) → is_uint 64 n → message_ok (t, p) →
  ∃ m' b', DecryptPacket now (EncodeDirectFrame (frame_of a n t p)) m = (m', if admits acc n then inr (p, t) else inl ErrReplayDetected) ∧
    activeState m' = Some b' ∧ closed m' = false ∧ mirrored a b' ∧ tracks (AntiReplay b') (noted acc n).
Proof.
  intros [K1 K2 I1 I2] Ea Ec Ht Hl Hr Hn Hm. unfold DecryptPacket, decrypt_begin.
  rewrite decode_encode_direct by (try apply frame_of_ok; done). rewrite Ea, Ec. unfold targetState.
  cbn [frame_of ReceiverSessionID SequenceCounter]. rewrite I2, Z.eqb_refl, Check_agrees.
  destruct (step_tracks _ _ n Ht (proj1 Hn)) as [E1 E2]. destruct (Replay.CheckAndAdd (AntiReplay b) n) as [fresh w] eqn:Ew. cbn [fst snd] in E1, E2 |- *.
  rewrite <- E1. destruct fresh; cbn [negb].
  - unfold decrypt_finish. cbn [side_state]. rewrite Ea. cbn [frame_of Ciphertext AuthTag SenderSessionID ReceiverSessionID SequenceCounter MsgType].
    rewrite take_drop, K1, open_seal, Ew. eexists _, _. split; [reflexivity|]. cbn [set_side activeState]. split; [reflexivity|]. split; [exact Ec|].
    split; [|exact E2]. by split.
  - eexists _, _. split; [reflexivity|]. split; [exact Ea|]. split; [exact Ec|]. split; [by split|]. unfold noted. rewrite <- E1. exact Ht.
Qed.

Lemma send_all_frames msgs m s k :
  activeState m = Some s → closed m = false → SendNonce s = Z.of_nat k → Z.of_nat (k + length msgs) <= 2 ^ 64 →
  send_all msgs m = imap (λ i '(t, p), inr (EncodeDirectFrame (frame_of s (Z.of_nat (k + i)) t p))) msgs.
Proof.
  revert m s k. induction msgs as [|[t p] msgs IH]; intros m s k Ea Ec Ek Hk; [done|]. cbn [send_all imap length] in *.
  rewrite (encrypt_frame t p m s Ea Ec). rewrite Ek, Nat.add_0_r. f_equal. destruct msgs as [|x msgs]; [done|].
  rewrite (IH _ (s <| SendNonce := uint 64 (SendNonce s + 1) |>) (S k)); [|cbn; by rewrite Ek|exact Ec| |cbn [length] in *; lia].
  - apply imap_ext. intros i [t' p'] _. unfold compose. by rewrite Nat.add_succ_r.
  - change (uint 64 (SendNonce s + 1) = Z.of_nat (S k)). rewrite Ek, uint_small; [lia|]. unfold is_uint. cbn [length] in Hk. lia.
Qed.

Lemma receive_outcomes now a msgs : is_uint 32 (LocalSessionID a) → is_uint 32 (RemoteSessionID a) → Forall message_ok msgs → Z.of_nat (length msgs) <= 2 ^ 64 →
  ∀ order raws m b acc,
  mirrored a b → activeState m = Some b → closed m = false → tracks (AntiReplay b) acc →
  Forall2 (λ i raw, ∃ t p, msgs !! i = Some (t, p) ∧ raw = EncodeDirectFrame (frame_of a (Z.of_nat i) t p)) order raws →
  receive_all now raws m = outcomes msgs acc order.
Proof.
  intros Hl Hr Hm Hlen. induction order as [|i order IH]; intros raws m b acc Hmi Ea Ec Ht Ho; inversion Ho as [|? raw ? raws' Hi Ho']; subst; [done|].
  destruct Hi as (t & p & Hi & ->). cbn [receive_all outcomes].
  destruct (decrypt_frame now a b m acc (Z.of_nat i) t p) as (m' & b' & -> & Ea' & Ec' & Hmi' & Ht'); try done.
  - apply lookup_lt_Some in Hi. unfold is_uint. lia.
  - exact (Forall_lookup_1 _ _ _ _ Hm Hi).
  - rewrite Hi. cbn [default]. f_equal. by eapply IH.
Qed.

(** What one end of a session sends, in any order and with any copies, as the other
    end sees it. *)
Definition delivers (ma mb : SessionRatchetManager) : Prop :=
  ∀ msgs order raws now, Forall message_ok msgs → Z.of_nat (length msgs) <= 2 ^ 64 →
  Forall2 (λ i raw, send_all msgs ma !! i = Some (inr raw)) order raws →
  receive_all now raws mb = outcomes msgs [] order.

Lemma mirrored_delivers a b ma mb :
  mirrored a b → activeState ma = Some a → closed ma = false → activeState mb = Some b → closed mb = false → SendNonce a = 0 →
  AntiReplay b = Replay.NewAntiReplayWindow → is_uint 32 (LocalSessionID a) → is_uint 32 (RemoteSessionID a) → delivers ma mb.
Proof.
  intros Hmi Ea Ca Eb Cb Hn Hw Hl Hr msgs order raws now Hm Hlen Ho. eapply (receive_outcomes now a msgs); [done..|by rewrite Hw; apply fresh_tracks|].
  eapply Forall2_impl; [exact Ho|]. cbv beta. intros i raw Hi. rewrite (send_all_frames msgs ma a 0) in Hi by done.
  rewrite list_lookup_imap in Hi. destruct (msgs !! i) as [[t p]|]; [|done]. cbn in Hi. exists t, p. split; [done|]. by injection Hi as <-.
Qed.

(** C20. From the first act to the last packet.  Two nodes that run the handshake, whatever
    their keys and payloads are, hold a session over which everything either of them
    sends reaches the other: if the network loses, repeats and reorders packets in any
    way, each packet that arrives gives its message and its type where the 1024-packet
    window admits its counter, and is reported as a replay where it does not. *)
Theorem channel_delivers ephI sidI ini ephR sidR res key p0 p2 t0 t1 t2 act1 st :
  paired ephI → paired ephR → paired ini → paired res → sidI ≠ 0 → is_uint 32 sidI → is_uint 32 sidR →
  is_Some (DH (Keypair.PrivateKey ephR) (Keypair.PublicKey ephI)) → is_Some (DH (Keypair.PrivateKey ephR) (Keypair.PublicKey ini)) →
  InitHandshakeAct1 ephI sidI ini (Keypair.PublicKey res) key p0 t0 = inr (act1, st) →
  ∃ act2 tr ti st', ProcessHandshakeAct1 ephR sidR res key act1 p2 t1 = inr (act2, tr, p0) ∧ ProcessHandshakeAct2 st act2 t2 = inr (ti, p2, st') ∧
    PeerStaticPub tr = Keypair.PublicKey ini ∧ PeerStaticPub ti = Keypair.PublicKey res ∧ Forall (eq 0) (EphemeralPriv st') ∧
    let mi := NewSessionRatchetManager ti true ini (Keypair.PublicKey res) key in
    let mr := NewSessionRatchetManager tr false res (PeerStaticPub tr) key in
    delivers mi mr ∧ delivers mr mi.
Proof.
  intros Pe Pf Pi Pr Hz Hi Hr D3 D4 Hinit.
  destruct (handshake_agreement ephI sidI ini ephR sidR res key p0 p2 t0 t1 t2 act1 st) as (act2 & tr & ti & st' & E1 & E2 & Hm & Hp & Hq & Oi & Or & Hw); try done.
  exists act2, tr, ti, st'. split_and!; try done. destruct Oi as (N1 & _ & L1 & _ & W1), Or as (N2 & _ & L2 & _ & W2). cbv zeta. split.
  - eapply mirrored_delivers; [exact Hm|done..|by rewrite L1|by rewrite (mi_ids' _ _ Hm), L2].
  - assert (mirrored tr ti) as Hm' by (destruct Hm; by split). eapply mirrored_delivers; [exact Hm'|done..|by rewrite L2|by rewrite (mi_ids' _ _ Hm'), L1].
Qed.

(** ** What is accepted was sealed for it *)

(** Only what the peer's key makes is accepted.  A packet that is accepted goes to a
    session of the manager, and is byte for byte the frame that [EncryptPacket] makes of
    its plaintext at a peer holding the receiving key of that session, with this
    session as the remote one and the packet's counter as the next.  So no field of a
    packet can be changed without the key but the type of the message, which the seal
    does not cover. *)
Theorem accepted_packet_is_sealed now raw m m' p t :
  bytes raw → DecryptPacket now raw m = (m', inr (p, t)) →
  ∃ sd s f, side_state sd m = Some s ∧ DecodeDirectFrame raw = inr f ∧ MsgType f = t ∧
    ∀ peer w, activeState peer = Some w → closed peer = false → SendKey w = RecvKey s → RemoteSessionID w = LocalSessionID s →
      LocalSessionID w = SenderSessionID f → SendNonce w = SequenceCounter f → (EncryptPacket t p peer).2 = inr raw.
Proof.
  intros Hb Hd. unfold DecryptPacket in Hd. destruct (decrypt_begin now raw m) as [|[sd f]] eqn:Eb; [done|].
  destruct (begin_target now raw m sd f Hb Eb) as (Ed & Hn & s & Es & Hid & _). exists sd, s, f. split; [done|]. split; [done|].
  unfold decrypt_finish in Hd. rewrite Es in Hd. destruct (open_ _ _ _ _) as [q|] eqn:Eo in Hd; [|done].
  destruct (Replay.CheckAndAdd _ _) as [[|] w'] in Hd; [|done]. injection Hd as _ <- <-. split; [done|].
  intros peer w Ea Ec Hk Hr Hl Hs. rewrite (encrypt_frame _ _ peer w Ea Ec). cbn [snd]. f_equal.
  destruct (encode_decode_direct raw f Hb Ed) as [Er Hok]. rewrite <- Er. f_equal. apply open_sealed in Eo.
  unfold frame_of. rewrite Hk, Hr, Hl, Hs, Hid, <- Eo.
  assert (length (Ciphertext f) = length q) as Hlq.
  { apply (f_equal length) in Eo. rewrite length_app, seal_size, (do_tag_len _ Hok) in Eo. unfold Poly1305TagSize, TagSize in Eo. lia. }
  rewrite <- Hlq, take_app_length, drop_app_length. unfold DecodeDirectFrame in Ed. destruct (Nat.ltb _ _) in Ed; [done|].
  destruct (Z.eqb_spec (get_be (slice 0 4 raw)) DirectFrameMagic) as [E1|]; [|done]. destruct (Z.eqb_spec (at_ raw 4) CurrentWireVersion) as [E2|]; [|done].
  cbn [negb] in Ed. rewrite E1, E2 in Ed. injection Ed as <-. reflexivity.
Qed.

(** After [Close] nothing is sent or delivered, and no key is left: the sessions the
    manager let go of have their keys erased. *)
Theorem closed_manager_silent m :
  (let '(m', gone) := Close m in
   activeState m' = None ∧ previousState m' = None ∧
   Forall (λ s, Forall (eq 0) (SendKey s) ∧ Forall (eq 0) (RecvKey s)) gone ∧
   length gone = (length (option_list (activeState m)) + length (option_list (previousState m)))%nat) ∧
  ∀ news t p now raw, let m' := foldl (λ m s, (RotateKeys s m).1) (Close m).1 news in
    EncryptPacket t p m' = (m', inl ErrSessionClosed) ∧ ∃ e, DecryptPacket now raw m' = (m', inl e).
Proof.
  split.
  - cbn. split; [done|]. split; [done|]. split; [|by destruct (activeState m), (previousState m)].
    assert (∀ s, Forall (eq 0) (SendKey (wipe_keys s)) ∧ Forall (eq 0) (RecvKey (wipe_keys s))) as Hw by (intros s; split; by apply Forall_replicate).
    apply Forall_app. split; [destruct (activeState m)|destruct (previousState m)]; repeat constructor; apply Hw.
  - intros news t p now raw. cbv zeta. assert (closed (foldl (λ m s, (RotateKeys s m).1) (Close m).1 news) = true) as Hc.
    { generalize (Close m).1, (eq_refl : closed (Close m).1 = true). induction news as [|s news IH]; intros m0 H0; [exact H0|]. by apply IH. }
    generalize dependent (foldl (λ m s, (RotateKeys s m).1) (Close m).1 news). intros m' Hc. unfold EncryptPacket, DecryptPacket, decrypt_begin. rewrite Hc.
    split; [by destruct (activeState m')|]. destruct (DecodeDirectFrame raw); [by eexists|]. destruct (activeState m'); by eexists.
Qed.

End Facts.
End RatchetFacts.

Module RatchetSamples.
Import Ratchet RatchetFacts NoiseFacts NoiseSamples.

Definition responder_session : TransportCipherState := Eval vm_compute in answered.1.2.
Definition initiator_session : TransportCipherState := Eval vm_compute in
  match ProcessHandshakeAct2 (H := Toy.crypto) started.2 answered.1.1 1002 with inr (t, _, _) => t | inl _ => responder_session end.
Definition sender : SessionRatchetManager := Eval vm_compute in NewSessionRatchetManager initiator_session true alice (Keypair.PublicKey bob) shared_psk.
Definition receiver : SessionRatchetManager := Eval vm_compute in NewSessionRatchetManager responder_session false bob (Keypair.PublicKey alice) shared_psk.
Definition packet : list Z := Eval vm_compute in match (EncryptPacket (H := Toy.crypto) 3 [1; 2; 3] sender).2 with inr r => r | inl _ => [] end.

Lemma channel_delivers_witness :
  ∃ act2 tr ti st', ProcessHandshakeAct1 (H := Toy.crypto) eph_b 12 bob shared_psk started.1 [111; 107] 1001 = inr (act2, tr, [104; 105]) ∧
    ProcessHandshakeAct2 (H := Toy.crypto) started.2 act2 1002 = inr (ti, [111; 107], st') ∧
    PeerStaticPub tr = Keypair.PublicKey alice ∧ PeerStaticPub ti = Keypair.PublicKey bob ∧ Forall (eq 0) (EphemeralPriv st') ∧
    let mi := NewSessionRatchetManager ti true alice (Keypair.PublicKey bob) shared_psk in
    let mr := NewSessionRatchetManager tr false bob (PeerStaticPub tr) shared_psk in
    delivers (cr := Toy.crypto) mi mr ∧ delivers (cr := Toy.crypto) mr mi.
Proof.
  apply (channel_delivers (cr := Toy.crypto) (laws := Toy.laws) eph_a 11 alice eph_b 12 bob shared_psk [104; 105] [111; 107] 1000 1001 1002 started.1 started.2);
    [vm_compute; reflexivity..|done|by split|by split|by eexists|by eexists|vm_compute; reflexivity].
Defined.

(** Two copies of a packet are both looked up before either is opened. *)
Definition race : list event := [Arrive 2000 packet; Arrive 2000 packet; Complete 1; Complete 0; Send 1 [9]; Rotate (initiator_session <| LocalSessionID := 77 |>); Shut].

Lemma packets_delivered_once_witness :
  ∃ c, history (H := Toy.crypto) race (connect responder_session false bob (Keypair.PublicKey alice) shared_psk) = Some c ∧ delivered c = [(12, 0)] ∧ NoDup (delivered c).
Proof.
  eexists. split; [vm_compute; reflexivity|]. split; [vm_compute; reflexivity|].
  apply (packets_delivered_once (cr := Toy.crypto) (laws := Toy.laws) responder_session false bob (Keypair.PublicKey alice) shared_psk race).
  - reflexivity.
  - repeat constructor; unfold is_uint; lia.
  - apply (bool_decide_unpack _). vm_compute. exact I.
  - vm_compute. reflexivity.
Defined.

Lemma accepted_packet_is_sealed_witness :
  ∃ sd s f, side_state sd receiver = Some s ∧ DecodeDirectFrame packet = inr f ∧ MsgType f = 3 ∧
    ∀ peer w, activeState peer = Some w → closed peer = false → SendKey w = RecvKey s → RemoteSessionID w = LocalSessionID s →
      LocalSessionID w = SenderSessionID f → SendNonce w = SequenceCounter f → (EncryptPacket (H := Toy.crypto) 3 [1; 2; 3] peer).2 = inr packet.
Proof.
  apply (accepted_packet_is_sealed (cr := Toy.crypto) (laws := Toy.laws) 2000 packet receiver (DecryptPacket (H := Toy.crypto) 2000 packet receiver).1 [1; 2; 3] 3).
  - repeat constructor; unfold is_uint; lia.
  - vm_compute. reflexivity.
Defined.

(** The type of a message can be changed on the way. *)
Lemma type_not_authenticated :
  (DecryptPacket (H := Toy.crypto) 2000 packet receiver).2 = inr ([1; 2; 3], 3) ∧
  (DecryptPacket (H := Toy.crypto) 2000 (<[5%nat := 9]> packet) receiver).2 = inr ([1; 2; 3], 9).
Proof. split; vm_compute; reflexivity. Qed.

(** A session past its packet threshold still encrypts. *)
Lemma threshold_not_enforced :
  let m := sender <| activeState := Some (initiator_session <| SendNonce := 2 ^ 64 - 1 |>) |> in
  NeedsRekey 2000 m = true ∧ ∃ raw, (EncryptPacket (H := Toy.crypto) 3 [1] m).2 = inr raw ∧
    SendNonce <$> activeState (EncryptPacket (H := Toy.crypto) 3 [1] m).1 = Some 0.
Proof. split; [vm_compute; reflexivity|]. eexists. split; vm_compute; reflexivity. Qed.

End RatchetSamples.
