(* ===== verification/Onion.v ===== *)
(** * Onion circuits

    [pkg/routing/onion.go].  A circuit refers to its hops: the hops are in a store, and
    building a circuit writes the keys into the hops it was given, so a hop given twice
    is one hop.  The ephemeral keys, the nonces and the padding drawn at random are
    arguments; a target address is its bytes. *)

From coqutil Require Import Datatypes.RecordSettersUsingExistingGetters.
From S2P Require Import Prelude Bytes Wire Primitives Noise.
Import Bytes Wire.

Module Onion.

Definition maxFieldLen : Z := 0xFFFF.
Definition XNonceSize : nat := 24.
Definition layerHeaderSize : nat := KeySize + XNonceSize.
Definition CellCmdRelayData : Z := 3.

Inductive onion_error :=
  | ErrCircuitHopMismatch | HopDHFailed (i : nat) | ErrTargetAddrTooLong | ErrPayloadTooLarge | CellError (e : cell_error)
  | ErrLayerMalformed | PeelDHFailed | ErrPeelFailed.

Record OnionHop := mk_hop { HopIndex : Z; NodeID : string; PublicKey : list Z; SharedKey : list Z; EphemeralPub : list Z }.

(** The hops by address. *)
Abbreviation store := (list OnionHop).
Definition deref (st : store) (a : nat) : OnionHop := default (mk_hop 0 EmptyString [] [] []) (st !! a).

Record OnionCircuit := mk_circuit {
  circuit_id : Z; Hops : list nat; CreatedAt : Z; MinJitterMs : Z; MaxJitterMs : Z; ephemerals : list Keypair.t
}.

Section Circuit.
Context `{Crypto}.

Definition DeriveKey (secret salt info : list Z) : list Z := fit KeySize (hkdf_sha256 secret salt info).
Definition deriveHopKey (dh : list Z) (hopIndex : nat) : list Z :=
  DeriveKey dh [] (Noise.text_bytes "neronet-onion-v1|hop=" ++ [uint 8 (Z.of_nat hopIndex)]).

(** The loop over the hops, from the hop [i] on. *)
Fixpoint key_hops (i : nat) (hops : list nat) (ephs : list Keypair.t) (st : store) : store * option onion_error :=
  match hops, ephs with
  | a :: hops, ephKP :: ephs =>
      match DH (Keypair.PrivateKey ephKP) (PublicKey (deref st a)) with
      | None => (st, Some (HopDHFailed i))
      | Some dh =>
          let sharedKey := deriveHopKey dh i in
          key_hops (S i) hops ephs (alter (λ hop, hop <| SharedKey := sharedKey |> <| EphemeralPub := Keypair.PublicKey ephKP |>) a st)
      end
  | _, _ => (st, None)
  end.

Definition Build3HopCircuit (e0 e1 e2 : Keypair.t) (now circuitID : Z) (entry intermediate exit : option nat) (st : store)
    : store * (onion_error + OnionCircuit) :=
  match entry, intermediate, exit with
  | Some a0, Some a1, Some a2 =>
      match key_hops 0 [a0; a1; a2] [e0; e1; e2] st with
      | (st', Some e) => (st', inl e)
      | (st', None) => (st', inr (mk_circuit circuitID [a0; a1; a2] now 2 20 [e0; e1; e2]))
      end
  | _, _, _ => (st, inl ErrCircuitHopMismatch)
  end.

(** [fmt.Sprintf("onion-layer-%d", layerIndex)], for the layers there are *)
Definition layerAD (layerIndex : Z) : list Z := Noise.text_bytes "onion-layer-" ++ [48 + layerIndex].

Definition sealLayer (st : store) (c : OnionCircuit) (hopIndex : nat) (nonce plaintext : list Z) : list Z :=
  let hop := deref st (default 0%nat (Hops c !! hopIndex)) in
  let ciphertext := xseal (SharedKey hop) nonce plaintext (layerAD (Z.of_nat hopIndex + 1)) in
  EphemeralPub hop ++ nonce ++ ciphertext.

Definition hop_key (st : store) (c : OnionCircuit) (i : nat) : list Z := PublicKey (deref st (default 0%nat (Hops c !! i))).

Definition EncryptLayeredData (nonce1 nonce2 nonce3 : list Z) (pad : nat → list Z) (streamID : Z) (targetAddr payload : list Z)
    (c : OnionCircuit) (st : store) : onion_error + list Z :=
  if maxFieldLen <? Z.of_nat (length targetAddr) then inl ErrTargetAddrTooLong else
  if maxFieldLen <? Z.of_nat (length payload) then inl ErrPayloadTooLarge else
  let layer3Plain := [1] ++ put_be 2 (Z.of_nat (length targetAddr)) ++ targetAddr ++ put_be 2 (Z.of_nat (length payload)) ++ payload in
  let layer3Payload := sealLayer st c 2 nonce3 layer3Plain in
  let layer2Plain := [0] ++ hop_key st c 2 ++ layer3Payload in
  let layer2Payload := sealLayer st c 1 nonce2 layer2Plain in
  let layer1Plain := [0] ++ hop_key st c 1 ++ layer2Payload in
  let layer1Payload := sealLayer st c 0 nonce1 layer1Plain in
  match EncodeCell pad (mk_cell (circuit_id c) CellCmdRelayData streamID 0 layer1Payload) with
  | inr raw => inr raw
  | inl e => inl (CellError e)
  end.

Record PeelResult := mk_peel { IsExit : bool; NextHopPub : list Z; TargetAddr : list Z; InnerPayload : list Z }.

Definition parseExitLayer (plaintext : list Z) : onion_error + PeelResult :=
  if Nat.ltb (length plaintext) 3 then inl ErrLayerMalformed else
  let targetLen := Z.to_nat (get_be (slice 1 3 plaintext)) in
  let dataLenOffset := (3 + targetLen)%nat in
  if Nat.ltb (length plaintext) (dataLenOffset + 2) then inl ErrLayerMalformed else
  let targetAddr := slice 3 dataLenOffset plaintext in
  let dataLen := Z.to_nat (get_be (slice dataLenOffset (dataLenOffset + 2) plaintext)) in
  let dataOffset := (dataLenOffset + 2)%nat in
  if Nat.ltb (length plaintext) (dataOffset + dataLen) then inl ErrLayerMalformed else
  inr (mk_peel true (replicate KeySize 0) targetAddr (slice dataOffset (dataOffset + dataLen) plaintext)).

Definition parseIntermediateLayer (plaintext : list Z) : onion_error + PeelResult :=
  if Nat.ltb (length plaintext) (1 + KeySize + layerHeaderSize) then inl ErrLayerMalformed else
  inr (mk_peel false (slice 1 (1 + KeySize) plaintext) [] (drop (1 + KeySize) plaintext)).

Definition PeelLayer (hopPrivKey : list Z) (layerIndex : Z) (cellPayload : list Z) : onion_error + PeelResult :=
  if (layerIndex <? 1) || (3 <? layerIndex) then inl ErrLayerMalformed else
  if Nat.ltb (length cellPayload) layerHeaderSize then inl ErrLayerMalformed else
  let clientEphPub := slice 0 KeySize cellPayload in
  let nonce := slice KeySize layerHeaderSize cellPayload in
  let ciphertext := drop layerHeaderSize cellPayload in
  match DH hopPrivKey clientEphPub with
  | None => inl PeelDHFailed
  | Some dh =>
      let sharedKey := deriveHopKey dh (Z.to_nat (layerIndex - 1)) in
      match xopen sharedKey nonce ciphertext (layerAD layerIndex) with
      | None => inl ErrPeelFailed
      | Some plaintext =>
          if Nat.ltb (length plaintext) 1 then inl ErrLayerMalformed else
          if at_ plaintext 0 =? 1 then parseExitLayer plaintext else parseIntermediateLayer plaintext
      end
  end.

(** The delay, in milliseconds; [draw] is what [rand.Int] gives below the range, if it
    gives anything. *)
Definition ComputeJitterDelay (draw : Z → option Z) (c : OnionCircuit) : Z :=
  if MaxJitterMs c <=? MinJitterMs c then MinJitterMs c else
  match draw (MaxJitterMs c - MinJitterMs c) with
  | None => MaxJitterMs c
  | Some n => MinJitterMs c + n
  end.

Definition Wipe (c : OnionCircuit) (st : store) : OnionCircuit * store :=
  (c <| ephemerals ::= fmap (λ kp, Keypair.mk (Noise.Wipe (Keypair.PrivateKey kp)) (Keypair.PublicKey kp)) |>,
   foldl (λ st a, alter (λ hop, hop <| SharedKey ::= Noise.Wipe |>) a st) st (Hops c)).

End Circuit.
End Onion.

Module OnionFacts.
Import Onion WireFacts.

Section Facts.
Context {cr : Crypto} {laws : CryptoLaws cr}.

(** What building a circuit does to a hop. *)
Definition keyed (i : nat) (e : Keypair.t) (hop hop' : OnionHop) : Prop :=
  ∃ dh, DH (Keypair.PrivateKey e) (PublicKey hop) = Some dh ∧
    hop' = hop <| SharedKey := deriveHopKey dh i |> <| EphemeralPub := Keypair.PublicKey e |>.

Lemma deref_alter_same f a st : (a < length st)%nat → deref (alter f a st) a = f (deref st a).
Proof. intros Ha. unfold deref. rewrite list_lookup_alter. destruct (lookup_lt_is_Some_2 st a Ha) as [x Hx]. rewrite decide_True by done. by rewrite Hx. Qed.
Lemma deref_alter_other f a b st : a ≠ b → deref (alter f a st) b = deref st b.
Proof. intros Hab. unfold deref. by rewrite list_lookup_alter_ne by done. Qed.

Lemma key_hops_other i hops ephs st st' b : b ∉ hops → key_hops i hops ephs st = (st', None) → deref st' b = deref st b.
Proof.
  revert i ephs st. induction hops as [|a hops IH]; intros i ephs st Hb Hk; [by injection Hk as <-|]. apply not_elem_of_cons in Hb as [Hab Hb].
  destruct ephs as [|e ephs]; [by injection Hk as <-|]. cbn [key_hops] in Hk. destruct (DH _ _); [|done].
  rewrite (IH _ _ _ Hb Hk). by apply deref_alter_other.
Qed.

Lemma key_hops_keyed i hops ephs st st' :
  NoDup hops → Forall (λ a, (a < length st)%nat) hops → key_hops i hops ephs st = (st', None) →
  ∀ j a e, hops !! j = Some a → ephs !! j = Some e → keyed (i + j) e (deref st a) (deref st' a).
Proof.
  revert i ephs st. induction hops as [|b hops IH]; intros i ephs st Hn Hf Hk j a e Ha He; [done|].
  destruct ephs as [|e0 ephs]; [done|]. apply NoDup_cons in Hn as [Hb Hn]. apply Forall_cons in Hf as [Hlt Hf]. cbn [key_hops] in Hk.
  destruct (DH _ _) as [dh|] eqn:Ed; [|done]. destruct j as [|j].
  - injection Ha as <-. injection He as <-. exists dh. rewrite Nat.add_0_r. split; [done|]. rewrite (key_hops_other _ _ _ _ _ b Hb Hk).
    by rewrite deref_alter_same.
  - cbn in Ha, He. assert (b ≠ a) as Hab by (intros ->; by apply Hb; eapply list_elem_of_lookup_2).
    assert (Forall (λ a, (a < length (alter (λ hop, hop <| SharedKey := deriveHopKey dh i |> <| EphemeralPub := Keypair.PublicKey e0 |>) b st))%nat) hops) as Hf'
      by (by rewrite length_alter).
    specialize (IH (S i) ephs _ Hn Hf' Hk j a e Ha He). rewrite deref_alter_other in IH by done. by rewrite Nat.add_succ_r.
Qed.

Lemma parse_exit t p :
  Z.of_nat (length t) <= maxFieldLen → Z.of_nat (length p) <= maxFieldLen →
  parseExitLayer ([1] ++ put_be 2 (Z.of_nat (length t)) ++ t ++ put_be 2 (Z.of_nat (length p)) ++ p) = inr (mk_peel true (replicate KeySize 0) t p).
Proof.
  unfold maxFieldLen. intros Ht Hp. set (pl := [1] ++ _).
  assert (length pl = (5 + length t + length p)%nat) as Hl by (unfold pl; rewrite !length_app, !put_be_length; cbn [length]; lia).
  assert (slice 1 3 pl = put_be 2 (Z.of_nat (length t))) as E1 by (apply (slice_at [1] _ (t ++ put_be 2 (Z.of_nat (length p)) ++ p)); by rewrite ?put_be_length).
  assert (slice 3 (3 + length t) pl = t) as E2.
  { apply (slice_at ([1] ++ put_be 2 (Z.of_nat (length t))) _ (put_be 2 (Z.of_nat (length p)) ++ p)); [unfold pl; by rewrite <- !app_assoc| |done].
    by rewrite length_app, put_be_length. }
  assert (slice (3 + length t) (3 + length t + 2) pl = put_be 2 (Z.of_nat (length p))) as E3.
  { apply (slice_at ([1] ++ put_be 2 (Z.of_nat (length t)) ++ t) _ p); [unfold pl; by rewrite <- !app_assoc| |by rewrite put_be_length].
    rewrite !length_app, put_be_length. cbn [length]. lia. }
  assert (slice (3 + length t + 2) (3 + length t + 2 + length p) pl = p) as E4.
  { apply (slice_at ([1] ++ put_be 2 (Z.of_nat (length t)) ++ t ++ put_be 2 (Z.of_nat (length p))) _ []); [unfold pl; by rewrite <- !app_assoc, app_nil_r| |done].
    rewrite !length_app, !put_be_length. cbn [length]. lia. }
  unfold parseExitLayer. cbv zeta. rewrite E1, get_put, Nat2Z.id by (unfold is_uint; lia). rewrite E3, get_put, Nat2Z.id by (unfold is_uint; lia).
  rewrite Hl, E2, E4. rewrite !(proj2 (Nat.ltb_ge _ _)) by lia. done.
Qed.

Lemma parse_intermediate key inner :
  length key = KeySize → (layerHeaderSize <= length inner)%nat → parseIntermediateLayer ([0] ++ key ++ inner) = inr (mk_peel false key [] inner).
Proof.
  intros Hk Hi. unfold parseIntermediateLayer. rewrite !length_app, Hk. cbn [length]. rewrite (proj2 (Nat.ltb_ge _ _)) by lia. f_equal. f_equal.
  - apply (slice_at [0] key inner); [done|done|by rewrite Hk].
  - rewrite app_assoc. apply drop_app_length'. by rewrite length_app, Hk.
Qed.

(** A hop of a circuit, with the key pair of its node. *)
Record ready (st : store) (c : OnionCircuit) (i : nat) (e kp : Keypair.t) : Prop := {
  rd_eph : paired e; rd_kp : paired kp;
  rd_key : hop_key st c i = Keypair.PublicKey kp;
  rd_hop : keyed i e (deref st (default 0%nat (Hops c !! i))) (deref st (default 0%nat (Hops c !! i)));
}.

Lemma sealed_layer_length st c i e kp nonce plain :
  ready st c i e kp → length nonce = XNonceSize → length (sealLayer st c i nonce plain) = (layerHeaderSize + length plain + TagSize)%nat.
Proof.
  intros [Pe _ _ (dh & _ & Eh)] Hn. unfold sealLayer. rewrite !length_app, xseal_size, Hn, Eh. cbn [EphemeralPub]. 
  change (length (Keypair.PublicKey e) + (XNonceSize + (length plain + TagSize)) = layerHeaderSize + length plain + TagSize)%nat.
  rewrite Pe, public_size. unfold layerHeaderSize. lia.
Qed.

Lemma peel_sealed st c i e kp nonce plain :
  ready st c i e kp → length nonce = XNonceSize → (i < 3)%nat → (0 < length plain)%nat →
  PeelLayer (Keypair.PrivateKey kp) (Z.of_nat i + 1) (sealLayer st c i nonce plain) =
    (if at_ plain 0 =? 1 then parseExitLayer plain else parseIntermediateLayer plain) ∧
  take KeySize (sealLayer st c i nonce plain) = Keypair.PublicKey e.
Proof.
  intros Hr Hn Hi Hp. pose proof (sealed_layer_length st c i e kp nonce plain Hr Hn) as Hl.
  destruct Hr as [Pe Pk Ek (dh & Ed & Eh)]. unfold hop_key in Ek. rewrite Ek, DH_agree in Ed by done.
  assert (length (Keypair.PublicKey e) = KeySize) as Hpe by (rewrite Pe; apply public_size).
  set (hop := deref st (default 0%nat (Hops c !! i))) in *.
  assert (EphemeralPub hop = Keypair.PublicKey e) as E1 by (by rewrite Eh). assert (SharedKey hop = deriveHopKey dh i) as E2 by (by rewrite Eh).
  clear Eh. unfold PeelLayer. rewrite Hl. rewrite (proj2 (Z.ltb_ge _ _)) by lia. rewrite (proj2 (Z.ltb_ge _ _)) by lia. cbn [orb].
  rewrite (proj2 (Nat.ltb_ge _ _)) by lia. cbv zeta. unfold sealLayer. fold hop. rewrite E1, E2.
  assert (∀ x, slice 0 KeySize (Keypair.PublicKey e ++ x) = Keypair.PublicKey e) as S1 by (intros x; by apply (slice_at [] _ x)).
  assert (∀ x, slice KeySize layerHeaderSize (Keypair.PublicKey e ++ nonce ++ x) = nonce) as S2
    by (intros x; apply (slice_at (Keypair.PublicKey e) nonce x); [done|done|by rewrite Hn]).
  assert (∀ x, drop layerHeaderSize (Keypair.PublicKey e ++ nonce ++ x) = x) as S3
    by (intros x; rewrite app_assoc; apply drop_app_length'; by rewrite length_app, Hpe, Hn).
  rewrite S1, S2, S3, Ed. replace (Z.to_nat (Z.of_nat i + 1 - 1)) with i by lia. rewrite xopen_xseal, (proj2 (Nat.ltb_ge _ _)) by lia.
  split; [done|]. by apply take_app_length'.
Qed.

Section Circuit.
Context (e0 e1 e2 k0 k1 k2 : Keypair.t) (st st' : store) (c : OnionCircuit) (a0 a1 a2 : nat) (now cid : Z).
Context (Pe : Forall paired [e0; e1; e2]) (Pk : Forall paired [k0; k1; k2]).
Context (Hdist : NoDup [a0; a1; a2]) (Hin : Forall (λ a, (a < length st)%nat) [a0; a1; a2]).
Context (Hkeys : (λ a, PublicKey (deref st a)) <$> [a0; a1; a2] = Keypair.PublicKey <$> [k0; k1; k2]).
Context (Hbuild : Build3HopCircuit e0 e1 e2 now cid (Some a0) (Some a1) (Some a2) st = (st', inr c)).

Lemma circuit_ready : circuit_id c = cid ∧ ready st' c 0 e0 k0 ∧ ready st' c 1 e1 k1 ∧ ready st' c 2 e2 k2.
Proof using Pe Pk Hdist Hin Hkeys Hbuild.
  unfold Build3HopCircuit in Hbuild. destruct (key_hops 0 _ _ st) as [s [|]] eqn:Hk; [done|]. injection Hbuild as -> <-.
  pose proof (key_hops_keyed 0 _ _ st st' Hdist Hin Hk) as K. injection Hkeys as Ek0 Ek1 Ek2.
  rewrite !Forall_cons in Pe, Pk. destruct Pe as (Pe0 & Pe1 & Pe2 & _), Pk as (Pk0 & Pk1 & Pk2 & _).
  assert (∀ i e k a, paired e → paired k → [a0; a1; a2] !! i = Some a → [e0; e1; e2] !! i = Some e → PublicKey (deref st a) = Keypair.PublicKey k →
    ready st' (mk_circuit cid [a0; a1; a2] now 2 20 [e0; e1; e2]) i e k) as R.
  { intros i e k a P1 P2 Ha He Hk'. specialize (K i a e Ha He) as (dh & Ed & Eh). cbn [plus] in Eh.
    assert (PublicKey (deref st' a) = PublicKey (deref st a)) as Ep by (by rewrite Eh).
    assert (default 0%nat ([a0; a1; a2] !! i) = a) as Ea by (by rewrite Ha).
    split; [done|done|unfold hop_key; cbn [Hops]; by rewrite Ea, Ep|]. cbn [Hops]. rewrite Ea. exists dh. rewrite Ep. split; [done|]. by rewrite Eh. }
  split; [done|]. split; [by eapply R|]. split; by eapply R.
Qed.

Context (nonce1 nonce2 nonce3 : list Z) (Hnonces : Forall (λ n, length n = XNonceSize) [nonce1; nonce2; nonce3]).
Context (pad : nat → list Z) (Hpad : ∀ n, length (pad n) = n).

(** The layers of a cell. *)
Definition layer3 (target payload : list Z) : list Z :=
  sealLayer st' c 2 nonce3 ([1] ++ put_be 2 (Z.of_nat (length target)) ++ target ++ put_be 2 (Z.of_nat (length payload)) ++ payload).
Definition layer2 (target payload : list Z) : list Z := sealLayer st' c 1 nonce2 ([0] ++ hop_key st' c 2 ++ layer3 target payload).
Definition layer1 (target payload : list Z) : list Z := sealLayer st' c 0 nonce1 ([0] ++ hop_key st' c 1 ++ layer2 target payload).

Lemma hop_key_length i e k : ready st' c i e k → length (hop_key st' c i) = KeySize.
Proof using laws. intros [_ Pk' Ek _]. rewrite Ek, Pk'. apply public_size. Qed.

Lemma layer_lengths target payload :
  length (layer3 target payload) = (77 + length target + length payload)%nat ∧
  length (layer2 target payload) = (182 + length target + length payload)%nat ∧
  length (layer1 target payload) = (287 + length target + length payload)%nat.
Proof using laws Pe Pk Hdist Hin Hkeys Hbuild Hnonces.
  destruct circuit_ready as (_ & R0 & R1 & R2). rewrite !Forall_cons in Hnonces. destruct Hnonces as (N1 & N2 & N3 & _).
  assert (length (layer3 target payload) = (77 + length target + length payload)%nat) as L3.
  { unfold layer3. rewrite (sealed_layer_length st' c 2 e2 k2) by done. rewrite !length_app, !put_be_length. unfold layerHeaderSize, TagSize, KeySize, XNonceSize. cbn [length]. lia. }
  assert (length (layer2 target payload) = (182 + length target + length payload)%nat) as L2.
  { unfold layer2. rewrite (sealed_layer_length st' c 1 e1 k1) by done. rewrite !length_app, (hop_key_length 2 e2 k2), L3 by done. unfold layerHeaderSize, TagSize, KeySize, XNonceSize. cbn [length]. lia. }
  split; [done|]. split; [done|]. unfold layer1. rewrite (sealed_layer_length st' c 0 e0 k0) by done.
  rewrite !length_app, (hop_key_length 1 e1 k1), L2 by done. unfold layerHeaderSize, TagSize, KeySize, XNonceSize. cbn [length]. lia.
Qed.


(** What a cell can carry: a target and a payload of at most 1119 bytes together are
    always sealed, and any more are refused. *)
Theorem onion_capacity sid target payload :
  (∃ raw, EncryptLayeredData nonce1 nonce2 nonce3 pad sid target payload c st' = inr raw) ↔ Z.of_nat (length target + length payload) <= 1119.
Proof using laws Pe Pk Hdist Hin Hkeys Hbuild Hnonces Hpad.
  destruct (layer_lengths target payload) as (_ & _ & L1). unfold EncryptLayeredData. cbv zeta. fold (layer3 target payload). fold (layer2 target payload). fold (layer1 target payload).
  destruct (cell_fits pad (mk_cell (circuit_id c) CellCmdRelayData sid 0 (layer1 target payload))) as [F1 F2]. cbn [CellPayload] in F1, F2. rewrite L1 in F1, F2.
  unfold MaxCellPayloadSize, OnionCellFixedSize, CellHeaderSize in F1, F2. unfold maxFieldLen.
  destruct (Z.ltb_spec 0xFFFF (Z.of_nat (length target))); [split; [by intros [? ?]|lia]|].
  destruct (Z.ltb_spec 0xFFFF (Z.of_nat (length payload))); [split; [by intros [? ?]|lia]|]. split.
  - intros [raw Hr]. destruct (EncodeCell pad _) as [|r] in Hr, F1; [done|]. assert (∃ raw, @inr cell_error _ r = inr raw) as Hex by (by eexists). specialize (F1 Hex). lia.
  - intros Hle. destruct F2 as [r ->]; [lia|]. by eexists.
Qed.

End Circuit.

End Facts.
End OnionFacts.

Module OnionSamples.
Import Onion OnionFacts NoiseSamples.

Definition hop_of (i : Z) (kp : Keypair.t) : OnionHop := mk_hop i "node" (Keypair.PublicKey kp) (replicate 32 0) (replicate 32 0).
Definition carol : Keypair.t := Eval vm_compute in GenerateKeypair (H := Toy.crypto) (replicate 32 48).
Definition hops : store := Eval vm_compute in [hop_of 1 alice; hop_of 2 bob; hop_of 3 carol].
Definition nonce (k : Z) : list Z := replicate 24 k.

Definition built : store * (onion_error + OnionCircuit) := Eval vm_compute in
  Build3HopCircuit (H := Toy.crypto) eph_a eph_b eph_c 1000 9 (Some 0%nat) (Some 1%nat) (Some 2%nat) hops.
Definition circuit : OnionCircuit := Eval vm_compute in match built.2 with inr c => c | inl _ => mk_circuit 0 [] 0 0 0 [] end.
Definition target : list Z := Eval vm_compute in Noise.text_bytes "example.org:443".
Definition cell : list Z := Eval vm_compute in
  match EncryptLayeredData (H := Toy.crypto) (nonce 1) (nonce 2) (nonce 3) (λ n, replicate n 5) 7 target [1; 2; 3] circuit built.1 with inr r => r | inl _ => [] end.

Lemma sample_keys : Forall (paired (H := Toy.crypto)) [eph_a; eph_b; eph_c] ∧ Forall (paired (H := Toy.crypto)) [alice; bob; carol].
Proof. split; repeat constructor. Qed.
Lemma sample_store :
  NoDup [0; 1; 2]%nat ∧ Forall (λ a, (a < length hops)%nat) [0; 1; 2]%nat ∧
  (λ a, PublicKey (deref hops a)) <$> [0; 1; 2]%nat = Keypair.PublicKey <$> [alice; bob; carol] ∧
  Build3HopCircuit (H := Toy.crypto) eph_a eph_b eph_c 1000 9 (Some 0%nat) (Some 1%nat) (Some 2%nat) hops = (built.1, inr circuit).
Proof.
  split; [apply (bool_decide_unpack _); vm_compute; exact I|]. split; [repeat constructor|]. split; vm_compute; reflexivity.
Qed.
Lemma sample_nonces : Forall (λ n, length n = XNonceSize) [nonce 1; nonce 2; nonce 3].
Proof. repeat constructor. Qed.


Lemma onion_capacity_witness :
  (∃ raw, EncryptLayeredData (H := Toy.crypto) (nonce 1) (nonce 2) (nonce 3) (λ n, replicate n 5) 7 target [1; 2; 3] circuit built.1 = inr raw) ↔
  Z.of_nat (length target + length [1; 2; 3]) <= 1119.
Proof.
  destruct sample_keys as [Pe Pk], sample_store as (Hd & Hi & Hk & Hb).
  exact (onion_capacity (cr := Toy.crypto) (laws := Toy.laws) eph_a eph_b eph_c alice bob carol hops built.1 circuit 0 1 2 1000 9 Pe Pk Hd Hi Hk Hb
    (nonce 1) (nonce 2) (nonce 3) sample_nonces (λ n, replicate n 5) (λ n, length_replicate n 5) 7 target [1; 2; 3]).
Defined.

Definition looped : store * (onion_error + OnionCircuit) := Eval vm_compute in
  Build3HopCircuit (H := Toy.crypto) eph_a eph_b eph_c 1000 9 (Some 0%nat) (Some 1%nat) (Some 0%nat) hops.
Definition looped_circuit : OnionCircuit := Eval vm_compute in match looped.2 with inr c => c | inl _ => circuit end.
Definition looped_cell : list Z := Eval vm_compute in
  match EncryptLayeredData (H := Toy.crypto) (nonce 1) (nonce 2) (nonce 3) (λ n, replicate n 5) 7 target [1; 2; 3] looped_circuit looped.1 with
  | inr r => r | inl _ => [] end.

(** A circuit whose entry is also its exit is built, and its cells cannot be peeled. *)
Lemma repeated_hop_unpeelable :
  Build3HopCircuit (H := Toy.crypto) eph_a eph_b eph_c 1000 9 (Some 0%nat) (Some 1%nat) (Some 0%nat) hops = (looped.1, inr looped_circuit) ∧
  EncryptLayeredData (H := Toy.crypto) (nonce 1) (nonce 2) (nonce 3) (λ n, replicate n 5) 7 target [1; 2; 3] looped_circuit looped.1 = inr looped_cell ∧
  match DecodeCell looped_cell with
  | inr c => PeelLayer (H := Toy.crypto) (Keypair.PrivateKey alice) 1 (CellPayload c) = inl ErrPeelFailed
  | inl _ => False
  end.
Proof. split; [|split]; vm_compute; reflexivity. Qed.

End OnionSamples.
