(* ===== verification/Netfilter.v ===== *)
(** * The packet filter of the node

    [pkg/acl/netfilter.go] with [pkg/acl/types.go]: the compiled policy a node enforces
    and its connection tracking.  An address is a [net.IP], its four or sixteen bytes;
    a time is in nanoseconds.  [EvaluateOutbound4Tuple] reads the policy under one lock
    and records the flow under another: [decide_outbound] and [recordConntrack] are its
    two halves, and [Tracking] interleaves them with everything else. *)

From S2P Require Import Prelude Order Js Encoding Cidr Db Acl Bytes.
Import Bytes.

Module Netfilter.

(** ** Addresses of the standard library *)

Definition v4_prefix (ip : list Z) : bool := bool_decide (take 12 ip = replicate 10 0 ++ [255; 255]).
Definition To4 (ip : list Z) : option (list Z) :=
  if Nat.eqb (length ip) 4 then Some ip else
  if Nat.eqb (length ip) 16 && v4_prefix ip then Some (drop 12 ip) else None.

Definition Equal (ip x : list Z) : bool :=
  if Nat.eqb (length ip) (length x) then bool_decide (ip = x) else
  if Nat.eqb (length ip) 4 && Nat.eqb (length x) 16 then v4_prefix x && bool_decide (ip = drop 12 x) else
  if Nat.eqb (length ip) 16 && Nat.eqb (length x) 4 then v4_prefix ip && bool_decide (drop 12 ip = x) else false.

(** The text of an IPv6 address: groups in hexadecimal, the first longest run of two
    or more zero groups as two colons. *)
Definition hex_group (z : Z) : string :=
  (if 4096 <=? z then String (hex_digit (z / 4096)) "" else "") +:+ (if 256 <=? z then String (hex_digit (z / 256 mod 16)) "" else "") +:+
  (if 16 <=? z then String (hex_digit (z / 16 mod 16)) "" else "") +:+ String (hex_digit (z mod 16)) "".
Fixpoint groups (ip : list Z) : list Z :=
  match ip with a :: b :: ip => a * 256 + b :: groups ip | _ => [] end.
Fixpoint zeros (l : list Z) : nat := match l with 0 :: l => S (zeros l) | _ => 0 end.
Definition zero_run (g : list Z) : nat * nat :=
  foldl (λ '(s, n) i, let l := zeros (drop i g) in if Nat.leb 2 l && Nat.ltb n l then (i, l) else (s, n)) (0%nat, 0%nat) (seq 0 8).
Definition text6 (ip : list Z) : string :=
  let g := groups ip in
  let '(s, n) := zero_run g in
  if Nat.eqb n 0 then join ":" (hex_group <$> g)
  else join ":" (hex_group <$> take s g) +:+ "::" +:+ join ":" (hex_group <$> drop (s + n) g).

Definition ip_String (ip : list Z) : string :=
  match ip with
  | [] => "<nil>"
  | _ =>
      match To4 ip with
      | Some p4 => join "." (pretty <$> p4)
      | None => if Nat.eqb (length ip) 16 then text6 ip else "?" +:+ hex_encode ip
      end
  end.

(** ** The policy *)

Record CompiledFilterRule := mk_rule {
  AllowedPeerVIP : list Z; Protocol : string; PortRanges : list Entry.port_range; Action : string; IsDirectional : bool
}.
Record CompiledPeerPolicy := mk_policy {
  NodeID : string; OverlayIPv4 : list Z; InboundRules : list CompiledFilterRule; OutboundRules : list CompiledFilterRule; Epoch : Z
}.

Record ConntrackEntry := mk_entry {
  SourceVIP : string; SourcePort : Z; DestVIP : string; DestPort : Z; ce_Protocol : string; CreatedAt : Z; ExpiresAt : Z
}.

Record NetstackFilter := mk {
  policy : option CompiledPeerPolicy;
  conntrack : gmap string ConntrackEntry;
  conntrackTTL : Z
}.

Definition NewNetstackFilter : NetstackFilter := mk None ∅ (120 * 10 ^ 9).
Definition SetConntrackTTL (ttl : Z) (nf : NetstackFilter) : NetstackFilter := nf <| conntrackTTL := ttl |>.
Definition UpdatePolicy (p : option CompiledPeerPolicy) (nf : NetstackFilter) : NetstackFilter := nf <| policy := p |>.

Inductive filter_error :=
  | ErrNoPolicyLoaded | ErrOutboundBlockedDrop | ErrOutboundDefaultDeny | ErrInboundBlockedDrop | ErrInboundDefaultDeny.

(** The loops over the rules: the action of the first that matches. *)
Definition rule_matches (vip : list Z) (proto : string) (port : Z) (rule : CompiledFilterRule) : bool :=
  Equal (AllowedPeerVIP rule) vip && ((Protocol rule =? "ALL")%string || (Protocol rule =? proto)%string) &&
  existsb (PkgAcl.range_matches port) (PortRanges rule).
Fixpoint first_match (vip : list Z) (proto : string) (port : Z) (rules : list CompiledFilterRule) : option string :=
  match rules with
  | [] => None
  | rule :: rules => if rule_matches vip proto port rule then Some (Action rule) else first_match vip proto port rules
  end.

Definition flow_key (src : string) (srcPort : Z) (dst : string) (dstPort : Z) (proto : string) : string :=
  src +:+ ":" +:+ pretty srcPort +:+ "->" +:+ dst +:+ ":" +:+ pretty dstPort +:+ "/" +:+ proto.

Record flow := mk_flow { f_src : list Z; f_sport : Z; f_dst : list Z; f_dport : Z; f_proto : string; f_ttl : Z }.

Definition entry_of (now : Z) (f : flow) : ConntrackEntry :=
  mk_entry (ip_String (f_src f)) (f_sport f) (ip_String (f_dst f)) (f_dport f) (f_proto f) now (now + f_ttl f).

Definition recordConntrack (now : Z) (f : flow) (nf : NetstackFilter) : NetstackFilter :=
  let src := ip_String (f_src f) in
  let dst := ip_String (f_dst f) in
  let keyExact := flow_key dst (f_dport f) src (f_sport f) (f_proto f) in
  let nf1 := nf <| conntrack ::= <[keyExact := entry_of now f]> |> in
  if f_sport f =? 0 then
    let keyWildcard := flow_key dst 0 src (f_dport f) (f_proto f) in
    nf1 <| conntrack ::= <[keyWildcard := entry_of now f]> |>
  else nf1.

(** The decision, and the flow to be recorded. *)
Definition decide_outbound (srcVIP : list Z) (srcPort : Z) (destVIP : list Z) (destPort : Z) (proto : string) (nf : NetstackFilter)
    : filter_error + flow :=
  match policy nf with
  | None => inl ErrNoPolicyLoaded
  | Some p =>
      let effectiveSrcVIP := match srcVIP with [] => OverlayIPv4 p | _ => srcVIP end in
      match first_match destVIP proto destPort (OutboundRules p) with
      | Some a =>
          if (a =? "ACCEPT")%string then inr (mk_flow effectiveSrcVIP srcPort destVIP destPort proto (conntrackTTL nf))
          else inl ErrOutboundBlockedDrop
      | None => inl ErrOutboundDefaultDeny
      end
  end.

Definition EvaluateOutbound4Tuple (now : Z) (srcVIP : list Z) (srcPort : Z) (destVIP : list Z) (destPort : Z) (proto : string) (nf : NetstackFilter)
    : NetstackFilter * option filter_error :=
  match decide_outbound srcVIP srcPort destVIP destPort proto nf with
  | inr f => (recordConntrack now f nf, None)
  | inl e => (nf, Some e)
  end.
Definition EvaluateOutbound (now : Z) (destVIP : list Z) (proto : string) (port : Z) (nf : NetstackFilter) : NetstackFilter * option filter_error :=
  EvaluateOutbound4Tuple now [] 0 destVIP port proto nf.

Definition live (now : Z) (key : string) (nf : NetstackFilter) : bool :=
  match conntrack nf !! key with Some e => now <? ExpiresAt e | None => false end.

Definition checkConntrackLocked (now : Z) (src : list Z) (srcPort dstPort : Z) (proto : string) (nf : NetstackFilter) : bool :=
  match policy nf with
  | None => false
  | Some p =>
      match OverlayIPv4 p with
      | [] => false
      | _ =>
          let localVIP := ip_String (OverlayIPv4 p) in
          live now (flow_key (ip_String src) srcPort localVIP dstPort proto) nf ||
          live now (flow_key (ip_String src) srcPort localVIP 0 proto) nf ||
          live now (flow_key (ip_String src) 0 localVIP srcPort proto) nf
      end
  end.

Definition purgeExpiredLocked (now : Z) (nf : NetstackFilter) : NetstackFilter :=
  nf <| conntrack ::= filter (λ kv, now < ExpiresAt kv.2) |>.
Definition PurgeExpiredConntrack : Z → NetstackFilter → NetstackFilter := purgeExpiredLocked.
Definition ConntrackCount (now : Z) (nf : NetstackFilter) : NetstackFilter * nat :=
  let nf' := purgeExpiredLocked now nf in (nf', size (conntrack nf')).

Definition EvaluateInbound (now : Z) (srcVIP : list Z) (srcPort destPort : Z) (proto : string) (nf : NetstackFilter)
    : NetstackFilter * option filter_error :=
  let nf1 := purgeExpiredLocked now nf in
  if checkConntrackLocked now srcVIP srcPort destPort proto nf1 then (nf1, None) else
  match policy nf1 with
  | None => (nf1, Some ErrNoPolicyLoaded)
  | Some p =>
      match first_match srcVIP proto destPort (InboundRules p) with
      | Some a => if (a =? "ACCEPT")%string then (nf1, None) else (nf1, Some ErrInboundBlockedDrop)
      | None => (nf1, Some ErrInboundDefaultDeny)
      end
  end.

End Netfilter.

(** ** Interleaving

    Every method is atomic but [EvaluateOutbound4Tuple], which may be overtaken between
    its decision and its record.  The history keeps what was recorded, when, and the
    policies there have been. *)
Module Tracking.
Import Netfilter.

Record t := mk {
  nf : NetstackFilter;
  pending : list flow;
  log : list (Z * flow);
  installed : list CompiledPeerPolicy
}.

Inductive event :=
  | Install (p : option CompiledPeerPolicy)
  | SetTTL (ttl : Z)
  | Decide (srcVIP : list Z) (srcPort : Z) (destVIP : list Z) (destPort : Z) (proto : string)
  | Record_ (now : Z) (i : nat)
  | Inbound (now : Z) (srcVIP : list Z) (srcPort destPort : Z) (proto : string)
  | Purge (now : Z).

Definition step (e : event) (s : t) : t :=
  match e with
  | Install p => s <| nf ::= UpdatePolicy p |> <| installed ::= λ l, option_list p ++ l |>
  | SetTTL ttl => s <| nf ::= SetConntrackTTL ttl |>
  | Decide src sport dst dport proto =>
      match decide_outbound src sport dst dport proto (nf s) with inr f => s <| pending ::= cons f |> | inl _ => s end
  | Record_ now i =>
      match pending s !! i with
      | Some f => s <| nf ::= recordConntrack now f |> <| pending ::= λ l, take i l ++ drop (S i) l |> <| log ::= cons (now, f) |>
      | None => s
      end
  | Inbound now src sport dport proto => s <| nf ::= λ n, (EvaluateInbound now src sport dport proto n).1 |>
  | Purge now => s <| nf ::= PurgeExpiredConntrack now |>
  end.

Definition initial : t := mk NewNetstackFilter [] [] [].
Definition run (es : list event) : t := foldl (λ s e, step e s) initial es.

End Tracking.

Module NetfilterFacts.
Import Netfilter Tracking.

(** ** The texts of keys *)

Lemma pretty_go_digits x s : all_chars is_digit s = true → all_chars is_digit (pretty_N_go x s) = true.
Proof.
  revert s. induction (N.lt_wf_0 x) as [x _ IH]. intros s Hs. destruct (decide (x = 0)%N) as [->|Hx]; [by rewrite pretty_N_go_0|].
  rewrite pretty_N_go_step by lia. apply IH; [apply N.div_lt; lia|]. cbn [all_chars]. rewrite Hs, andb_true_r.
  unfold pretty_N_char. by repeat case_match.
Qed.

Lemma pretty_digits (z : Z) : 0 <= z → all_chars is_digit (pretty z) = true.
Proof.
  intros Hz. destruct z as [|p|p]; [done| |lia]. unfold pretty, pretty_Z, pretty, pretty_positive, pretty, pretty_N.
  case_decide; [done|]. by apply pretty_go_digits.
Qed.

Lemma all_chars_impl (p q : ascii → bool) s : (∀ c, p c = true → q c = true) → all_chars p s = true → all_chars q s = true.
Proof. intros H. induction s as [|c s IH]; [done|]. cbn. intros [H1 H2]%andb_true_iff. rewrite (H _ H1). by apply IH. Qed.

(** A text that a key can hold before its separators. *)
Definition key_char (c : ascii) : bool := negb (Ascii.eqb c "-") && negb (Ascii.eqb c "/").
Definition key_text (s : string) : Prop := all_chars key_char s = true.

Lemma key_text_without s : key_text s → includes_char "-" s = false ∧ includes_char "/" s = false.
Proof.
  intros H. unfold includes_char. split; apply negb_false_iff; revert H; apply all_chars_impl; intros c; unfold key_char; rewrite andb_true_iff.
  - by intros [? _].
  - by intros [_ ?].
Qed.

Lemma key_text_app s t : key_text s → key_text t → key_text (s +:+ t).
Proof. unfold key_text. intros H1 H2. by rewrite all_chars_app, H1, H2. Qed.

Lemma digits_key_text s : all_chars is_digit s = true → key_text s.
Proof.
  apply all_chars_impl. intros c. unfold is_digit, code, key_char. intros [H1 H2]%andb_true_iff.
  destruct (Ascii.eqb_spec c "-") as [->|]; [done|]. by destruct (Ascii.eqb_spec c "/") as [->|].
Qed.

Lemma hex_digit_key z : 0 <= z < 16 → key_char (hex_digit z) = true.
Proof. apply (upto_forall (λ z, key_char (hex_digit z) = true) 16). vm_compute. reflexivity. Qed.

Lemma hex_group_text z : is_uint 16 z → key_text (hex_group z).
Proof.
  unfold is_uint. intros Hz. assert (∀ b x, 0 <= x < 16 → key_text (if (b : bool) then String (hex_digit x) "" else "")) as H.
  { intros [] x Hx; [|done]. unfold key_text. cbn [all_chars]. by rewrite hex_digit_key. }
  unfold hex_group. pose proof (Z.mod_pos_bound z 16). pose proof (Z.mod_pos_bound (z / 16) 16). pose proof (Z.mod_pos_bound (z / 256) 16).
  assert (0 <= z / 4096 < 16) by (split; [apply Z.div_pos; lia|apply Z.div_lt_upper_bound; lia]).
  repeat apply key_text_app; try (apply H; lia). apply (H true). lia.
Qed.

Lemma groups_range ip : bytes ip → Forall (is_uint 16) (groups ip).
Proof.
  assert (∀ n ip, (length ip <= n)%nat → bytes ip → Forall (is_uint 16) (groups ip)) as G; [|intros; by eapply G].
  intros n. induction n as [|n IH]; intros [|a [|b l]] Hl Hb; try (by constructor); [cbn [length] in Hl; lia|].
  apply Forall_cons in Hb as [Ha [Hb Hr]%Forall_cons]. unfold is_uint in *. cbn [groups]. constructor; [lia|]. apply IH; [cbn [length] in Hl; lia|exact Hr].
Qed.

Lemma ip_key_text ip : bytes ip → key_text (ip_String ip).
Proof.
  intros Hb. unfold ip_String. destruct ip as [|x ip']; [done|]. set (ip := x :: ip') in *. clearbody ip.
  assert (∀ sep l, key_text sep → Forall (is_uint 16) l → key_text (join sep (hex_group <$> l))) as Hj.
  { intros sep l Hs Hl. apply all_chars_join; [done|]. apply Forall_fmap. eapply Forall_impl; [exact Hl|]. intros z. apply hex_group_text. }
  destruct (To4 ip) as [p4|] eqn:E4.
  - apply all_chars_join; [done|]. apply Forall_fmap. assert (bytes p4) as Hp.
    { unfold To4 in E4. destruct (Nat.eqb _ 4); [by injection E4 as <-|]. destruct (_ && _); [|done]. injection E4 as <-. by apply bytes_drop. }
    eapply Forall_impl; [exact Hp|]. intros z Hz. unfold is_uint in Hz. apply digits_key_text, pretty_digits. lia.
  - destruct (Nat.eqb _ 16).
    + unfold text6. pose proof (groups_range ip Hb) as Hg. destruct (zero_run _) as [s n]. destruct (Nat.eqb n 0); [by apply Hj|].
      repeat apply key_text_app; [apply Hj; [done|by apply Forall_take]|done|apply Hj; [done|by apply Forall_drop]].
    + apply (key_text_app "?"); [done|]. clear E4. induction Hb as [|b l Hb Hl IH]; [done|]. unfold key_text in *. cbn [hex_encode all_chars]. unfold is_uint in Hb.
      assert (0 <= b / 16 < 16) by (split; [apply Z.div_pos; lia|apply Z.div_lt_upper_bound; lia]). pose proof (Z.mod_pos_bound b 16).
      rewrite (hex_digit_key (b / 16)), (hex_digit_key (b mod 16)), IH by lia. done.
Qed.

(** Glued with a separator neither right part holds. *)
Lemma append_sep_inj_r sep s t s' t' :
  includes_char sep t = false → includes_char sep t' = false → s +:+ String sep t = s' +:+ String sep t' → s = s' ∧ t = t'.
Proof.
  intros H H'. revert s'. induction s as [|c s IH]; intros [|c' s'].
  - intros E. by injection E as ->.
  - intros E. injection E as <- ->. exfalso. revert H. rewrite includes_char_app. unfold includes_char at 2. cbn [all_chars].
    rewrite Ascii.eqb_refl. cbn [negb andb]. by rewrite orb_true_r.
  - intros E. injection E as -> <-. exfalso. revert H'. rewrite includes_char_app. unfold includes_char at 2. cbn [all_chars].
    rewrite Ascii.eqb_refl. cbn [negb andb]. by rewrite orb_true_r.
  - intros E. injection E as <- E. by destruct (IH _ E) as [-> ->].
Qed.

Lemma digits_no_colon (z : Z) : 0 <= z → includes_char ":" (pretty z) = false.
Proof.
  intros Hz. unfold includes_char. apply negb_false_iff. eapply all_chars_impl; [|apply (pretty_digits z Hz)].
  intros c Hc. destruct (Ascii.eqb_spec c ":") as [->|]; [done|done].
Qed.

Lemma flow_key_shape s p d q pr :
  flow_key s p d q pr = (s +:+ String ":" (pretty p)) +:+ String "-" (String ">" ((d +:+ String ":" (pretty q)) +:+ String "/" pr)).
Proof. unfold flow_key. rewrite !append_assoc. reflexivity. Qed.

Lemma endpoint_key_text t (z : Z) : key_text t → 0 <= z → key_text (t +:+ String ":" (pretty z)).
Proof. intros Ht Hz. apply key_text_app; [done|]. apply (key_text_app ":"); [done|]. by apply digits_key_text, pretty_digits. Qed.

(** A key determines the flow it stands for. *)
Lemma flow_key_inj s p d q pr s' p' d' q' pr' :
  key_text s → key_text s' → key_text d → key_text d' → 0 <= p → 0 <= p' → 0 <= q → 0 <= q' →
  flow_key s p d q pr = flow_key s' p' d' q' pr' → s = s' ∧ p = p' ∧ d = d' ∧ q = q' ∧ pr = pr'.
Proof.
  intros Hs Hs' Hd Hd' Hp Hp' Hq Hq' E. rewrite !flow_key_shape in E.
  apply append_sep_inj in E as [E1 E2]; [|by apply key_text_without, endpoint_key_text..]. injection E2 as E2.
  apply append_sep_inj in E2 as [E2 ->]; [|by apply key_text_without, endpoint_key_text..].
  apply append_sep_inj_r in E1 as [-> E1]; [|by apply digits_no_colon..]. apply append_sep_inj_r in E2 as [-> E2]; [|by apply digits_no_colon..].
  apply (inj pretty) in E1, E2. by subst.
Qed.

(** ** What connection tracking lets in *)

Definition flow_ok (f : flow) : Prop := bytes (f_src f) ∧ bytes (f_dst f) ∧ is_uint 16 (f_sport f) ∧ is_uint 16 (f_dport f).
Definition policy_ok (p : CompiledPeerPolicy) : Prop := bytes (OverlayIPv4 p).
Definition event_ok (e : event) : Prop :=
  match e with
  | Install (Some p) => policy_ok p
  | Decide src sport dst dport _ => bytes src ∧ bytes dst ∧ is_uint 16 sport ∧ is_uint 16 dport
  | _ => True
  end.

(** A flow that a policy of the node accepted. *)
Definition granted (ps : list CompiledPeerPolicy) (f : flow) : Prop :=
  flow_ok f ∧ ∃ p, p ∈ ps ∧ first_match (f_dst f) (f_proto f) (f_dport f) (OutboundRules p) = Some "ACCEPT".

Definition keys_of (f : flow) : list string :=
  flow_key (ip_String (f_dst f)) (f_dport f) (ip_String (f_src f)) (f_sport f) (f_proto f) ::
  (if f_sport f =? 0 then [flow_key (ip_String (f_dst f)) 0 (ip_String (f_src f)) (f_dport f) (f_proto f)] else []).

Record tracked (s : Tracking.t) : Prop := {
  tr_policy : ∀ p, policy (nf s) = Some p → p ∈ installed s ∧ policy_ok p;
  tr_pending : ∀ f, f ∈ pending s → granted (installed s) f;
  tr_log : ∀ at_ f, (at_, f) ∈ log s → granted (installed s) f;
  tr_entries : ∀ k e, conntrack (nf s) !! k = Some e → ∃ at_ f, (at_, f) ∈ log s ∧ e = entry_of at_ f ∧ k ∈ keys_of f;
}.

Lemma granted_more ps ps' f : (∀ p, p ∈ ps → p ∈ ps') → granted ps f → granted ps' f.
Proof. intros H (Ho & p & Hp & Hm). split; [done|]. exists p. split; [by apply H|done]. Qed.

Lemma decided_granted s src sport dst dport proto f :
  tracked s → bytes src ∧ bytes dst ∧ is_uint 16 sport ∧ is_uint 16 dport →
  decide_outbound src sport dst dport proto (nf s) = inr f → granted (installed s) f.
Proof.
  intros Ht (Hs & Hd & Hp & Hq) E. unfold decide_outbound in E. destruct (policy (nf s)) as [p|] eqn:Ep; [|done].
  destruct (first_match dst proto dport (OutboundRules p)) as [a|] eqn:Em; [|done]. destruct (String.eqb_spec a "ACCEPT") as [->|]; [|done].
  injection E as <-. destruct (tr_policy _ Ht p Ep) as [Hin Hok]. split; [|by exists p]. split_and!; [|done..]. by destruct src.
Qed.

Lemma record_lookup now f n k e :
  conntrack (recordConntrack now f n) !! k = Some e → (e = entry_of now f ∧ k ∈ keys_of f) ∨ conntrack n !! k = Some e.
Proof.
  unfold recordConntrack, keys_of. cbv zeta. set (k1 := flow_key _ (f_dport f) _ (f_sport f) _). set (k2 := flow_key _ 0 _ _ _).
  assert (∀ m : gmap string ConntrackEntry, <[k1 := entry_of now f]> m !! k = Some e → (e = entry_of now f ∧ k = k1) ∨ m !! k = Some e) as H1.
  { intros m. rewrite lookup_insert. case_decide as Ek; [|by right]. intros [= <-]. by left. }
  destruct (f_sport f =? 0).
  - change (<[k2 := entry_of now f]> (<[k1 := entry_of now f]> (conntrack n)) !! k = Some e → (e = entry_of now f ∧ k ∈ [k1; k2]) ∨ conntrack n !! k = Some e).
    rewrite lookup_insert. case_decide as Ek.
    + intros [= <-]. left. split; [done|]. set_solver.
    + intros [[-> ->]|H]%H1; [left; set_solver|by right].
  - change (<[k1 := entry_of now f]> (conntrack n) !! k = Some e → (e = entry_of now f ∧ k ∈ [k1]) ∨ conntrack n !! k = Some e). intros [[-> ->]|H]%H1; [left; set_solver|by right].
Qed.

Lemma purge_lookup now n k e : conntrack (purgeExpiredLocked now n) !! k = Some e → conntrack n !! k = Some e ∧ now < ExpiresAt e.
Proof. change (conntrack (purgeExpiredLocked now n)) with (filter (λ kv, now < ExpiresAt kv.2) (conntrack n)). by intros [? ?]%map_lookup_filter_Some. Qed.

Lemma purge_policy now n : policy (purgeExpiredLocked now n) = policy n.
Proof. done. Qed.

Lemma inbound_filter now src sport dport proto n : (EvaluateInbound now src sport dport proto n).1 = purgeExpiredLocked now n.
Proof. unfold EvaluateInbound. repeat case_match; done. Qed.

Lemma purge_tracked now s : tracked s → tracked (s <| nf ::= purgeExpiredLocked now |>).
Proof.
  intros [A B C D]. split; [exact A|exact B|exact C|]. intros k e He. apply purge_lookup in He as [He _]. exact (D k e He).
Qed.

Lemma event_tracked e s : tracked s → event_ok e → tracked (step e s).
Proof.
  intros Ht He. destruct e as [p|ttl|src sport dst dport proto|now i|now src sport dport proto|now]; cbn [step].
  - destruct Ht as [A B C D]. assert (∀ q, q ∈ installed s → q ∈ option_list p ++ installed s) as Hin by set_solver. split.
    + intros q Hq. change (p = Some q) in Hq. subst p. split; [set_solver|exact He].
    + intros f Hf. exact (granted_more _ _ f Hin (B f Hf)).
    + intros t f Hf. exact (granted_more _ _ f Hin (C t f Hf)).
    + exact D.
  - destruct Ht as [A B C D]. by split.
  - destruct (decide_outbound _ _ _ _ _ _) as [|f] eqn:Ed; [done|]. pose proof (decided_granted _ _ _ _ _ _ _ Ht He Ed) as Hg.
    destruct Ht as [A B C D]. split; [exact A| |exact C|exact D]. intros g Hg'. change (g ∈ f :: pending s) in Hg'.
    apply elem_of_cons in Hg' as [->|Hg']; [exact Hg|by apply B].
  - destruct (pending s !! i) as [f|] eqn:Ei; [|done]. destruct Ht as [A B C D]. pose proof (B f (list_elem_of_lookup_2 _ _ _ Ei)) as Hg. split.
    + intros q Hq. apply A. rewrite <- Hq. cbn. unfold recordConntrack. by destruct (f_sport f =? 0).
    + intros g Hg'. change (g ∈ take i (pending s) ++ drop (S i) (pending s)) in Hg'. apply B.
      apply elem_of_app in Hg' as [Hg'|Hg']; [exact (elem_of_sublist _ _ _ Hg' (sublist_take _ _))|exact (elem_of_sublist _ _ _ Hg' (sublist_drop _ _))].
    + intros t g Hg'. change ((t, g) ∈ (now, f) :: log s) in Hg'. apply elem_of_cons in Hg' as [[= -> ->]|Hg']; [exact Hg|by eapply C].
    + intros k e He'. apply record_lookup in He' as [[-> Hk]|He'].
      * exists now, f. split; [apply elem_of_cons; by left|done].
      * destruct (D k e He') as (t & g & Hg' & Hr). exists t, g. split; [apply elem_of_cons; by right|done].
  - apply (purge_tracked now) in Ht. destruct Ht as [A B C D]. split; [|exact B|exact C|].
    + intros q Hq. apply A. rewrite <- Hq. cbn. by rewrite inbound_filter.
    + intros k e He'. apply (D k e). rewrite <- He'. cbn. by rewrite inbound_filter.
  - by apply purge_tracked.
Qed.

Lemma run_tracked es : Forall event_ok es → tracked (run es).
Proof.
  unfold run. assert (tracked initial) as Hi by (split; [done|set_solver|set_solver|intros k e He; change ((∅ : gmap string ConntrackEntry) !! k = Some e) in He; by rewrite lookup_empty in He]).
  revert Hi. generalize initial. induction es as [|e es IH]; intros s Hs Hf; [done|]. apply Forall_cons in Hf as [He Hf]. cbn [foldl].
  apply IH; [by apply event_tracked|done].
Qed.

(** How the ports of an inbound packet may relate to those of a flow.  A flow that was
    recorded without a source port stands for more than its own answers. *)
Definition answers (f : flow) (srcPort dstPort : Z) : Prop :=
  (f_dport f = srcPort ∧ (f_sport f = dstPort ∨ f_sport f = 0)) ∨
  (f_sport f = 0 ∧ srcPort = 0 ∧ f_dport f = dstPort) ∨ (f_dport f = 0 ∧ f_sport f = srcPort).

Lemma key_answers f src p q local proto key :
  flow_ok f → bytes src → bytes local → 0 <= p → 0 <= q → key ∈ keys_of f →
  key ∈ [flow_key (ip_String src) p (ip_String local) q proto; flow_key (ip_String src) p (ip_String local) 0 proto;
         flow_key (ip_String src) 0 (ip_String local) p proto] →
  f_proto f = proto ∧ ip_String (f_dst f) = ip_String src ∧ ip_String (f_src f) = ip_String local ∧ answers f p q.
Proof.
  intros (Hs & Hd & Hsp & Hdp) Hb Hl Hp Hq Hk Hin. unfold is_uint in Hsp, Hdp. unfold answers.
  assert (∀ a b a' b', 0 <= a → 0 <= b → 0 <= a' → 0 <= b' →
    flow_key (ip_String (f_dst f)) a (ip_String (f_src f)) b (f_proto f) = flow_key (ip_String src) a' (ip_String local) b' proto →
    a = a' ∧ b = b' ∧ f_proto f = proto ∧ ip_String (f_dst f) = ip_String src ∧ ip_String (f_src f) = ip_String local) as Hinj.
  { intros a b a' b' Ha Hb0 Ha' Hb' E. apply flow_key_inj in E; [tauto|by apply ip_key_text..|done|done|done|done]. }
  unfold keys_of in Hk. rewrite !elem_of_cons, elem_of_nil in Hin. apply elem_of_cons in Hk as [->|Hk].
  - destruct Hin as [E|[E|[E|[]]]]; apply Hinj in E as (E1 & E2 & ? & ? & ?); try lia; split_and!; auto; lia.
  - destruct (Z.eqb_spec (f_sport f) 0) as [E0|]; [|by apply elem_of_nil in Hk]. apply list_elem_of_singleton in Hk as ->.
    destruct Hin as [E|[E|[E|[]]]]; apply Hinj in E as (E1 & E2 & ? & ? & ?); try lia; split_and!; auto; lia.
Qed.

Lemma live_entry now key n : live now key n = true → ∃ e, conntrack n !! key = Some e ∧ now < ExpiresAt e.
Proof. unfold live. destruct (conntrack n !! key) as [e|]; [|done]. intros H. exists e. split; [done|lia]. Qed.

(** C22. Nothing comes in unasked.  Whatever happened before, with policies replaced and
    flows recorded at any time, an inbound packet is let through only under a loaded
    policy, and then only where the first inbound rule that matches accepts it, or as
    the answer to a flow of this node: one to that address and with that protocol,
    recorded and not yet expired, whose ports the packet answers, and which a policy of
    the node had accepted. *)
Theorem inbound_needs_rule_or_flow es now src sport dport proto nf' :
  Forall event_ok es → bytes src → is_uint 16 sport → is_uint 16 dport →
  EvaluateInbound now src sport dport proto (nf (run es)) = (nf', None) →
  ∃ p, policy (nf (run es)) = Some p ∧
    (first_match src proto dport (InboundRules p) = Some "ACCEPT" ∨
     ∃ at_ f, (at_, f) ∈ log (run es) ∧ now < at_ + f_ttl f ∧ f_proto f = proto ∧ ip_String (f_dst f) = ip_String src ∧
       ip_String (f_src f) = ip_String (OverlayIPv4 p) ∧ answers f sport dport ∧ granted (installed (run es)) f).
Proof.
  intros Hes Hb Hp Hq E. pose proof (run_tracked es Hes) as [A _ C D]. unfold EvaluateInbound in E. rewrite purge_policy in E.
  destruct (checkConntrackLocked now src sport dport proto _) eqn:Ec.
  - unfold checkConntrackLocked in Ec. rewrite purge_policy in Ec. destruct (policy (nf (run es))) as [p|] eqn:Ep; [|done]. exists p. split; [done|]. right.
    destruct (A p eq_refl) as [_ Hpo]. destruct (OverlayIPv4 p) as [|x o] eqn:Eo; [done|]. rewrite <- Eo in Ec |- *.
    assert (∃ key e, conntrack (purgeExpiredLocked now (nf (run es))) !! key = Some e ∧ now < ExpiresAt e ∧
      key ∈ [flow_key (ip_String src) sport (ip_String (OverlayIPv4 p)) dport proto; flow_key (ip_String src) sport (ip_String (OverlayIPv4 p)) 0 proto;
             flow_key (ip_String src) 0 (ip_String (OverlayIPv4 p)) sport proto]) as (key & e & He & Hlt & Hkey).
    { apply orb_true_iff in Ec as [[Ec|Ec]%orb_true_iff|Ec]; apply live_entry in Ec as (e & He & Hlt); eexists _, e; (split; [exact He|split; [exact Hlt|]]); set_solver. }
    apply purge_lookup in He as [He _]. destruct (D key e He) as (t & f & Hf & -> & Hk). pose proof (C t f Hf) as Hg. exists t, f. split; [done|]. split; [exact Hlt|].
    destruct (key_answers f src sport dport (OverlayIPv4 p) proto key) as (? & ? & ? & ?); first [done|by destruct Hg|exact Hpo|by destruct Hp|by destruct Hq].
  - destruct (policy (nf (run es))) as [p|]; [|done]. exists p. split; [done|]. left.
    destruct (first_match src proto dport (InboundRules p)) as [a|]; [|done]. destruct (String.eqb_spec a "ACCEPT") as [Ha|Ha]; [by rewrite Ha|done].
Qed.

End NetfilterFacts.

Module NetfilterSamples.
Import Netfilter Tracking NetfilterFacts.

Definition local : list Z := [100; 64; 0; 1].
Definition peer : list Z := [100; 64; 0; 2].
Definition sample_policy : CompiledPeerPolicy :=
  mk_policy "n1" local [] [mk_rule peer "TCP" [Entry.mk_range 443 443] "ACCEPT" true] 7.

(** A flow is decided before a policy without rules is installed, and recorded after. *)
Definition sample_events : list event :=
  [Install (Some sample_policy); Decide local 40000 peer 443 "TCP"; Install (Some (mk_policy "n1" local [] [] 8)); Record_ 1000 0; Purge 2000].

Lemma sample_events_ok : Forall event_ok sample_events.
Proof. repeat constructor; unfold is_uint; lia. Qed.

Lemma inbound_needs_rule_or_flow_witness :
  ∃ p, policy (nf (run sample_events)) = Some p ∧
    (first_match peer "TCP" 40000 (InboundRules p) = Some "ACCEPT" ∨
     ∃ at_ f, (at_, f) ∈ log (run sample_events) ∧ 3000 < at_ + f_ttl f ∧ f_proto f = "TCP" ∧ ip_String (f_dst f) = ip_String peer ∧
       ip_String (f_src f) = ip_String (OverlayIPv4 p) ∧ answers f 443 40000 ∧ granted (installed (run sample_events)) f).
Proof.
  apply (inbound_needs_rule_or_flow sample_events 3000 peer 443 40000 "TCP" (EvaluateInbound 3000 peer 443 40000 "TCP" (nf (run sample_events))).1).
  - exact sample_events_ok.
  - repeat constructor; unfold is_uint; lia.
  - unfold is_uint. lia.
  - unfold is_uint. lia.
  - vm_compute. reflexivity.
Defined.

(** A flow recorded without its source port opens every local port to the peer. *)
Lemma portless_flow_opens_ports :
  let nf1 := UpdatePolicy (Some sample_policy) NewNetstackFilter in
  let nf2 := (EvaluateOutbound 1000 peer "TCP" 443 nf1).1 in
  (EvaluateInbound 2000 peer 443 22 "TCP" nf1).2 = Some ErrInboundDefaultDeny ∧ (EvaluateInbound 2000 peer 443 22 "TCP" nf2).2 = None.
Proof. split; vm_compute; reflexivity. Qed.

(** What a withdrawn rule let through stays let through until the flow expires. *)
Lemma flow_outlives_rule :
  let s := run sample_events in
  policy (nf s) = Some (mk_policy "n1" local [] [] 8) ∧ (EvaluateInbound 3000 peer 443 40000 "TCP" (nf s)).2 = None ∧
  (EvaluateInbound (3000 + 120 * 10 ^ 9) peer 443 40000 "TCP" (nf s)).2 = Some ErrInboundDefaultDeny.
Proof. split; [|split]; vm_compute; reflexivity. Qed.

End NetfilterSamples.
