(* ===== verification/Dataplane.v ===== *)
(** * The tunnel device of the node

    [pkg/dataplane/filter.go], [aclfilter.go] and [daita/daita.go]: what of an IP packet
    an access decision is made on, the device that passes every packet through the
    filter, and the padding and cover traffic against traffic analysis.  The device
    below and the random bytes of cover packets are arguments, as is the clock. *)

From coqutil Require Import Datatypes.RecordSettersUsingExistingGetters.
From S2P Require Import Prelude Order Js Cidr Db Acl Bytes Netfilter.
Import Bytes.

(** ** Packets *)
Module Packet.

Definition ProtoICMPv4 : Z := 1.
Definition ProtoTCP : Z := 6.
Definition ProtoUDP : Z := 17.
Definition ProtoICMPv6 : Z := 58.

Record t := mk { Version : Z; Protocol : Z; Src : list Z; Dst : list Z; SrcPort : Z; DstPort : Z; Fragment : bool }.

Definition ipv4MinHeaderLen : nat := 20.
Definition ipv6HeaderLen : nat := 40.

Definition transportPorts (proto : Z) (payload : list Z) : Z * Z :=
  if (proto =? ProtoTCP) || (proto =? ProtoUDP) then
    if Nat.ltb (length payload) 4 then (0, 0) else (get_be (slice 0 2 payload), get_be (slice 2 4 payload))
  else (0, 0).

(** The slices have four and sixteen bytes, so [netip.AddrFromSlice] takes them. *)
Definition parseIPv4 (b : list Z) : option t :=
  if Nat.ltb (length b) ipv4MinHeaderLen then None else
  let ihl := (Z.to_nat (Z.land (at_ b 0) 0x0f) * 4)%nat in
  if Nat.ltb ihl ipv4MinHeaderLen || Nat.ltb (length b) ihl then None else
  let totalLen := Z.to_nat (get_be (slice 2 4 b)) in
  if Nat.ltb totalLen ihl || Nat.ltb (length b) totalLen then None else
  let src := slice 12 16 b in
  let dst := slice 16 20 b in
  let fragOffset := Z.land (get_be (slice 6 8 b)) 0x1fff in
  let fragment := negb (fragOffset =? 0) in
  let protocol := at_ b 9 in
  let '(sp, dp) := if fragment then (0, 0) else transportPorts protocol (slice ihl totalLen b) in
  Some (mk 4 protocol src dst sp dp fragment).

Definition parseIPv6 (b : list Z) : option t :=
  if Nat.ltb (length b) ipv6HeaderLen then None else
  let payloadLen := Z.to_nat (get_be (slice 4 6 b)) in
  if Nat.ltb (length b) (ipv6HeaderLen + payloadLen) then None else
  let src := slice 8 24 b in
  let dst := slice 24 40 b in
  let protocol := at_ b 6 in
  let '(sp, dp) := transportPorts protocol (slice ipv6HeaderLen (ipv6HeaderLen + payloadLen) b) in
  Some (mk 6 protocol src dst sp dp false).

Definition ParsePacket (b : list Z) : option t :=
  if Nat.ltb (length b) 1 then None else
  let v := Z.shiftr (at_ b 0) 4 in
  if v =? 4 then parseIPv4 b else if v =? 6 then parseIPv6 b else None.

End Packet.

(** ** Padding and cover traffic *)
Module Daita.

Definition ProtocolExperimental : Z := 253.
Inductive mode := ModeOff | ModeBalanced | ModeParanoid.
Record Shaper := mk { mode_of : mode; mtu : nat; localVIP : list Z; peerVIP : list Z }.

Definition valid_mode (m : string) : option mode :=
  if (m =? "off")%string then Some ModeOff else if (m =? "balanced")%string then Some ModeBalanced else
  if (m =? "paranoid")%string then Some ModeParanoid else None.
Definition NewShaper (m : string) (mtu : Z) (localVIP peerVIP : list Z) : option Shaper :=
  mo ← valid_mode (if (m =? "")%string then "off" else m);
  Some (mk mo (if mtu <=? 0 then 1380%nat else Z.to_nat mtu) localVIP peerVIP).
Definition SetMode (m : string) (s : Shaper) : option Shaper := mo ← valid_mode m; Some (s <| mode_of := mo |>).

Definition targetLen (s : Shaper) (origLen : nat) : nat :=
  match mode_of s with
  | ModeParanoid =>
      let t := if Nat.ltb 1280 (mtu s) then 1280%nat else mtu s in
      if Nat.ltb t origLen then mtu s else t
  | ModeBalanced =>
      if Nat.leb origLen 256 then 256%nat else if Nat.leb origLen 512 then 512%nat else
      if Nat.leb origLen 1024 then 1024%nat else if Nat.leb origLen 1280 then 1280%nat else mtu s
  | ModeOff => 0%nat
  end.

Definition NormalizePacketSize (s : Shaper) (packet : list Z) : list Z :=
  match mode_of s, packet with
  | ModeOff, _ | _, [] => packet
  | _, _ =>
      let origLen := length packet in
      let t := targetLen s origLen in
      if Nat.leb t origLen then packet else packet ++ replicate (t - origLen) 0
  end.

(** [None] is an error. *)
Definition ParseRealLength (packet : list Z) : option nat :=
  if Nat.ltb (length packet) 20 then None else
  let version := Z.shiftr (at_ packet 0) 4 in
  if version =? 4 then
    let totalLen := Z.to_nat (get_be (slice 2 4 packet)) in
    if Nat.ltb (length packet) totalLen || Nat.ltb totalLen 20 then Some (length packet) else Some totalLen
  else if version =? 6 then
    if Nat.ltb (length packet) 40 then None else
    let totalLen := (Z.to_nat (get_be (slice 4 6 packet)) + 40)%nat in
    if Nat.ltb (length packet) totalLen then Some (length packet) else Some totalLen
  else Some (length packet).

Definition IsDummyPacket (packet : list Z) : bool :=
  if Nat.ltb (length packet) 20 then false else
  let version := Z.shiftr (at_ packet 0) 4 in
  if version =? 4 then at_ packet 9 =? ProtocolExperimental
  else if (version =? 6) && Nat.leb 40 (length packet) then at_ packet 6 =? ProtocolExperimental else false.

Fixpoint words_sum (hdr : list Z) : Z :=
  match hdr with a :: b :: hdr => get_be [a; b] + words_sum hdr | _ => 0 end.
(** The loop that adds the carries; two rounds are enough for a header. *)
Fixpoint fold_carries (fuel : nat) (sum : Z) : Z :=
  match fuel with
  | O => sum
  | S fuel => if 0 <? Z.shiftr sum 16 then fold_carries fuel (Z.land sum 0xffff + Z.shiftr sum 16) else sum
  end.
Definition ipChecksum (hdr : list Z) : Z := Z.lxor 0xffff (uint 16 (fold_carries 3 (words_sum hdr))).

Definition vip4_or (vip default_ : list Z) : list Z := if Nat.eqb (length vip) 4 then vip else default_.

(** The header with a given checksum; [noise] is what [rand.Read] puts behind it. *)
Definition dummy_header (s : Shaper) (size chk : Z) : list Z :=
  [0x45; 0] ++ put_be 2 size ++ put_be 2 0x4454 ++ [0x40; 0; 64; ProtocolExperimental] ++ put_be 2 chk ++
  vip4_or (localVIP s) [100; 64; 0; 1] ++ vip4_or (peerVIP s) [100; 64; 0; 2].
Definition BuildDummyPacket (noise : nat → list Z) (size : Z) (s : Shaper) : list Z :=
  let size := if size <? 20 then 256 else size in
  dummy_header s size (ipChecksum (dummy_header s size 0)) ++ noise (Z.to_nat size - 20)%nat.

End Daita.

(** ** The filter a device consults *)

(** [PacketFilter]: what it decides of a packet at a time, and its state after it. *)
Class PacketFilter (F : Type) := {
  Outbound : Z → Packet.t → F → F * bool;
  Inbound : Z → Packet.t → F → F * bool;
}.

(** [ACLFilter]: the compiled policy as such a filter. *)
Module ACLFilter.
Import Netfilter.

Definition toACLProtocol (proto : Z) : string :=
  if proto =? Packet.ProtoTCP then "TCP" else if proto =? Packet.ProtoUDP then "UDP" else
  if (proto =? Packet.ProtoICMPv4) || (proto =? Packet.ProtoICMPv6) then "ICMP" else "ALL".

Definition passed {E} (r : NetstackFilter * option E) : NetstackFilter * bool := (r.1, match r.2 with None => true | Some _ => false end).

#[export] Instance acl_filter : PacketFilter NetstackFilter := {|
  Outbound now p nf :=
    passed (EvaluateOutbound4Tuple now (Packet.Src p) (Packet.SrcPort p) (Packet.Dst p) (Packet.DstPort p) (toACLProtocol (Packet.Protocol p)) nf);
  Inbound now p nf :=
    passed (EvaluateInbound now (Packet.Src p) (Packet.SrcPort p) (Packet.DstPort p) (toACLProtocol (Packet.Protocol p)) nf)
|}.

End ACLFilter.

(** ** The device *)
Module Tun.
Import Daita.

Section Device.
Context {F : Type} `{PacketFilter F}.

Record filteredTUN := mk {
  filter : option F; daitaShaper : option Shaper;
  outboundDropped : Z; inboundDropped : Z; malformedDropped : Z; dummyDropped : Z; closed : bool
}.

Definition newFilteredTUN (f : option F) (s : option Shaper) : filteredTUN := mk f s 0 0 0 0 false.

Definition count (n : Z) : Z := uint 64 (n + 1).

(** [allow], called where there is a filter [f]. *)
Definition allow (now : Z) (raw : list Z) (outbound : bool) (f : F) (t : filteredTUN) : filteredTUN * bool :=
  if negb outbound && IsDummyPacket raw then (t <| dummyDropped ::= count |>, false) else
  match Packet.ParsePacket raw with
  | None => (t <| malformedDropped ::= count |>, false)
  | Some pkt =>
      let '(f', ok) := if outbound then Outbound now pkt f else Inbound now pkt f in
      let t1 := t <| filter := Some f' |> in
      if ok then (t1, true)
      else if outbound then (t1 <| outboundDropped ::= count |>, false) else (t1 <| inboundDropped ::= count |>, false)
  end.
Definition consult (now : Z) (raw : list Z) (outbound : bool) (t : filteredTUN) : filteredTUN * bool :=
  match filter t with Some f => allow now raw outbound f t | None => (t, true) end.

(** [copy(buf[offset:], data)] *)
Definition copy_at (offset : nat) (data buf : list Z) : list Z :=
  take offset buf ++ take (length buf - offset) data ++ drop (offset + length data) buf.

(** The buffers and sizes, the device, and the number kept. *)
Record reading := mk_reading { bufs : list (list Z); sizes : list nat; dev : filteredTUN; kept : nat }.

Definition buf (r : reading) (i : nat) : list Z := default [] (bufs r !! i).
Definition size_ (r : reading) (i : nat) : nat := default 0%nat (sizes r !! i).

Definition pad_in_place (offset i : nat) (r : reading) : reading :=
  match daitaShaper (dev r) with
  | None => r
  | Some s =>
      let padded := NormalizePacketSize s (slice offset (offset + size_ r i) (buf r i)) in
      if Nat.leb (length padded) (length (buf r i) - offset) then
        r <| bufs ::= <[i := copy_at offset padded (buf r i)]> |> <| sizes ::= <[i := length padded]> |>
      else r
  end.

Definition read_step (clock : nat → Z) (offset i : nat) (r : reading) : reading :=
  let raw := slice offset (offset + size_ r i) (buf r i) in
  let '(t', ok) := consult (clock i) raw true (dev r) in
  let r1 := r <| dev := t' |> in
  if negb ok then r1 else
  let r2 := pad_in_place offset i r1 in
  let raw2 := slice offset (offset + size_ r2 i) (buf r2 i) in
  let r3 := if Nat.eqb (kept r2) i then r2
            else r2 <| bufs ::= <[kept r2 := copy_at offset raw2 (buf r2 (kept r2))]> |> <| sizes ::= <[kept r2 := size_ r2 i]> |> in
  r3 <| kept ::= S |>.

(** [Read], where the device below filled the first [n] buffers. *)
Definition Read (clock : nat → Z) (offset n : nat) (bs : list (list Z)) (szs : list nat) (t : filteredTUN) : reading :=
  foldl (λ r i, read_step clock offset i r) (mk_reading bs szs t 0) (seq 0 n).

(** What of the caller's slice is handed on. *)
Record writing := mk_writing { wdev : filteredTUN; filtering : bool; allowed : list (list Z) }.

Definition startFiltering (all : list (list Z)) (i : nat) (w : writing) : writing :=
  if filtering w then w else w <| filtering := true |> <| allowed := take i all |>.

Definition write_step (clock : nat → Z) (offset : nat) (all : list (list Z)) (w : writing) (ib : nat * list Z) : writing :=
  let '(i, b) := ib in
  if Nat.ltb (length b) offset then startFiltering all i (w <| wdev ::= λ t, t <| malformedDropped ::= count |> |>) else
  let raw := drop offset b in
  if IsDummyPacket raw then startFiltering all i (w <| wdev ::= λ t, t <| dummyDropped ::= count |> |>) else
  let '(t', ok) := consult (clock i) raw false (wdev w) in
  let w1 := w <| wdev := t' |> in
  if negb ok then startFiltering all i w1 else
  if filtering w1 then w1 <| allowed ::= λ l, l ++ [b] |> else w1.

(** [None] is [os.ErrClosed]; otherwise what the device below is given, if anything. *)
Definition Write (clock : nat → Z) (offset : nat) (all : list (list Z)) (t : filteredTUN) : filteredTUN * option (option (list (list Z))) :=
  if closed t then (t, None) else
  match all with
  | [] => (t, Some (Some []))
  | _ =>
      let w := foldl (write_step clock offset all) (mk_writing t false all) (imap pair all) in
      (wdev w, Some (match allowed w with [] => None | l => Some l end))
  end.

Definition Close (t : filteredTUN) : filteredTUN := t <| closed := true |>.

End Device.
Arguments filteredTUN F : clear implicits.
Arguments reading F : clear implicits.
Arguments writing F : clear implicits.
End Tun.
