(* ===== verification/DataplaneFacts.v ===== *)
(** * What the tunnel device guarantees

    Padding does not change what a packet is taken for; the in-place compaction of
    [Read] and the lazy copy of [Write] hand on exactly the packets that pass; and with
    the compiled policy as the filter, nothing crosses the device that the rules of the
    console do not allow. *)

From coqutil Require Import Datatypes.RecordSettersUsingExistingGetters.
From S2P Require Import Prelude Order Js Cidr Db Acl Bytes Netfilter Dataplane.
Import Bytes.

Module DataplaneFacts.
Import Packet Daita Tun.

(** ** Padding *)

Lemma slice_prefix (raw x : list Z) a b : (b <= length raw)%nat → slice a b (raw ++ x) = slice a b raw.
Proof.
  intros Hb. unfold slice. destruct (decide (a <= b)%nat) as [Ha|Ha].
  - rewrite drop_app_le by lia. apply take_app_le. rewrite length_drop. lia.
  - by replace (b - a)%nat with 0%nat by lia.
Qed.
Lemma at_prefix (raw x : list Z) i : (i < length raw)%nat → at_ (raw ++ x) i = at_ raw i.
Proof. intros Hi. unfold at_. by rewrite lookup_app_l. Qed.

Lemma parse4_prefix raw x p : parseIPv4 raw = Some p → parseIPv4 (raw ++ x) = Some p.
Proof.
  unfold parseIPv4, ipv4MinHeaderLen. rewrite length_app. destruct (Nat.ltb_spec (length raw) 20) as [|Hl]; [done|].
  rewrite (proj2 (Nat.ltb_ge (length raw + length x) 20)) by lia. cbv zeta. rewrite !at_prefix, !slice_prefix by lia.
  set (ihl := (Z.to_nat _ * 4)%nat). set (tl := Z.to_nat (get_be (slice 2 4 raw))).
  destruct (Nat.ltb_spec ihl 20); [done|]. destruct (Nat.ltb_spec (length raw) ihl); [done|]. cbn [orb].
  rewrite (proj2 (Nat.ltb_ge (length raw + length x) ihl)) by lia.
  destruct (Nat.ltb_spec tl ihl); [done|]. destruct (Nat.ltb_spec (length raw) tl); [done|]. cbn [orb].
  rewrite (proj2 (Nat.ltb_ge (length raw + length x) tl)) by lia. by rewrite !slice_prefix by lia.
Qed.

Lemma parse6_prefix raw x p : parseIPv6 raw = Some p → parseIPv6 (raw ++ x) = Some p.
Proof.
  unfold parseIPv6, ipv6HeaderLen. rewrite length_app. destruct (Nat.ltb_spec (length raw) 40) as [|Hl]; [done|].
  rewrite (proj2 (Nat.ltb_ge (length raw + length x) 40)) by lia. cbv zeta. rewrite !at_prefix, !slice_prefix by lia.
  set (pl := Z.to_nat (get_be (slice 4 6 raw))). destruct (Nat.ltb_spec (length raw) (40 + pl)); [done|].
  rewrite (proj2 (Nat.ltb_ge (length raw + length x) (40 + pl))) by lia. by rewrite !slice_prefix by lia.
Qed.

Lemma parse_prefix raw x p : ParsePacket raw = Some p → ParsePacket (raw ++ x) = Some p.
Proof.
  unfold ParsePacket. rewrite length_app. destruct (Nat.ltb_spec (length raw) 1) as [|Hl]; [done|].
  rewrite (proj2 (Nat.ltb_ge (length raw + length x) 1)) by lia. cbv zeta. rewrite at_prefix by lia.
  destruct (_ =? 4); [apply parse4_prefix|]. destruct (_ =? 6); [apply parse6_prefix|done].
Qed.

Lemma normalize_prefix s raw : ∃ n, NormalizePacketSize s raw = raw ++ replicate n 0.
Proof.
  assert (∃ n, raw = raw ++ replicate n 0) as Hz by (exists 0%nat; by rewrite app_nil_r).
  unfold NormalizePacketSize. destruct (mode_of s); [exact Hz| |]; (destruct raw as [|x raw]; [exact Hz|]); cbv zeta; (destruct (Nat.leb _ _); [exact Hz|by eexists]).
Qed.

Lemma parse_version raw p : ParsePacket raw = Some p → (20 <= length raw)%nat ∧ (Z.shiftr (at_ raw 0) 4 = 6 → (40 <= length raw)%nat).
Proof.
  unfold ParsePacket. destruct (Nat.ltb _ 1); [done|]. cbv zeta. destruct (Z.eqb_spec (Z.shiftr (at_ raw 0) 4) 4) as [->|].
  - unfold parseIPv4, ipv4MinHeaderLen. destruct (Nat.ltb_spec (length raw) 20); [done|]. intros _. split; [done|lia].
  - destruct (_ =? 6); [|done]. unfold parseIPv6, ipv6HeaderLen. destruct (Nat.ltb_spec (length raw) 40); [done|]. intros _. split; [lia|done].
Qed.

Lemma dummy_prefix raw x p : ParsePacket raw = Some p → IsDummyPacket (raw ++ x) = IsDummyPacket raw.
Proof.
  intros [Hl H6]%parse_version. unfold IsDummyPacket. rewrite length_app, !(proj2 (Nat.ltb_ge _ 20)) by lia. cbv zeta.
  rewrite !at_prefix by lia. destruct (_ =? 4); [done|]. destruct (Z.eqb_spec (Z.shiftr (at_ raw 0) 4) 6) as [E|]; [|done].
  specialize (H6 E). cbn [andb]. by rewrite !(proj2 (Nat.leb_le 40 _)) by lia.
Qed.

(** The length a packet declares. *)
Definition declared (raw : list Z) : nat :=
  if Z.shiftr (at_ raw 0) 4 =? 4 then Z.to_nat (get_be (slice 2 4 raw)) else (Z.to_nat (get_be (slice 4 6 raw)) + 40)%nat.

(** Padding is invisible to the receiver.  A packet that can be parsed is read the same
    after it was padded: the same addresses, protocol and ports decide on it, it is
    taken for cover traffic exactly if it was before, and its own length is recovered
    from the padded one; padding never removes a byte. *)
Theorem padding_transparent s raw p :
  ParsePacket raw = Some p → declared raw = length raw →
  let padded := NormalizePacketSize s raw in
  ParsePacket padded = Some p ∧ IsDummyPacket padded = IsDummyPacket raw ∧ take (length raw) padded = raw ∧ ParseRealLength padded = Some (length raw).
Proof.
  intros Hp Hd. cbv zeta. destruct (normalize_prefix s raw) as [n ->]. split; [by apply parse_prefix|]. split; [by eapply dummy_prefix|].
  split; [apply take_app_length|]. destruct (parse_version raw p Hp) as [Hl H6]. unfold ParseRealLength, declared in *.
  rewrite length_app. rewrite (proj2 (Nat.ltb_ge _ 20)) by lia. cbv zeta. rewrite at_prefix, !slice_prefix by lia.
  unfold ParsePacket in Hp. rewrite (proj2 (Nat.ltb_ge _ 1)) in Hp by lia. cbv zeta in Hp.
  destruct (Z.eqb_spec (Z.shiftr (at_ raw 0) 4) 4) as [E4|E4].
  - rewrite Hd, (proj2 (Nat.ltb_ge _ (length raw))), (proj2 (Nat.ltb_ge (length raw) 20)) by lia. done.
  - destruct (Z.eqb_spec (Z.shiftr (at_ raw 0) 4) 6) as [E6|]; [|done]. specialize (H6 E6).
    rewrite (proj2 (Nat.ltb_ge _ 40)), Hd, (proj2 (Nat.ltb_ge _ (length raw))) by lia. done.
Qed.

(** ** Cover packets *)

Lemma land_ffff z : Z.land z 0xffff = z mod 65536.
Proof. change 0xffff with (Z.ones 16). by rewrite Z.land_ones. Qed.

(** Folding the carries keeps the sum modulo 65535, and ends in sixteen bits. *)
Lemma fold_carries_mod n z : 0 <= z → 0 <= fold_carries n z ∧ fold_carries n z mod 65535 = z mod 65535 ∧ (0 < z → 0 < fold_carries n z).
Proof.
  revert z. induction n as [|n IH]; intros z Hz; [done|]. cbn [fold_carries]. destruct (0 <? Z.shiftr z 16) eqn:E; [|done].
  apply Z.ltb_lt in E. rewrite land_ffff, Z.shiftr_div_pow2 in * by done. change (2 ^ 16) with 65536 in *.
  pose proof (Z.mod_pos_bound z 65536 ltac:(done)). pose proof (Z.div_mod z 65536 ltac:(done)) as Hdm.
  destruct (IH (z mod 65536 + z / 65536)) as (H1 & H2 & H3); [lia|]. split; [done|]. split; [|intros _; apply H3; lia]. rewrite H2.
  rewrite Hdm at 3. replace (65536 * (z / 65536) + z mod 65536) with (z mod 65536 + z / 65536 + (z / 65536) * 65535) by lia. by rewrite Z.mod_add.
Qed.

Lemma fold_carries_small z : 0 <= z < 2 ^ 32 → fold_carries 3 z < 65536.
Proof.
  intros Hz. assert (∀ n z, 0 <= z < 2 ^ 16 → fold_carries n z = z) as Hs.
  { intros [|n] x Hx; [done|]. cbn [fold_carries]. rewrite Z.shiftr_div_pow2, Z.div_small by lia. done. }
  assert (∀ x m, 0 <= x < m → 0 <= x mod 65536 + x / 65536 < 65536 + (m - 1) / 65536) as Hb.
  { intros x m Hx. pose proof (Z.mod_pos_bound x 65536 ltac:(done)). pose proof (Z.div_pos x 65536). assert (x / 65536 <= (m - 1) / 65536) by (apply Z.div_le_mono; lia). lia. }
  cbn [fold_carries]. rewrite !land_ffff, !Z.shiftr_div_pow2 by done. change (2 ^ 16) with 65536.
  destruct (0 <? z / 65536) eqn:E1; [|apply Z.ltb_ge in E1; pose proof (Z.div_mod z 65536); pose proof (Z.mod_pos_bound z 65536); lia].
  pose proof (Hb z (2 ^ 32) Hz) as B1. change ((2 ^ 32 - 1) / 65536) with 65535 in B1. set (y := z mod 65536 + z / 65536) in *.
  destruct (0 <? y / 65536) eqn:E2; [|apply Z.ltb_ge in E2; pose proof (Z.div_mod y 65536); pose proof (Z.mod_pos_bound y 65536); lia].
  assert (y / 65536 = 1) as Ey by (apply Z.ltb_lt in E2; assert (y / 65536 < 2) by (apply Z.div_lt_upper_bound; lia); lia).
  assert (y mod 65536 + y / 65536 < 65536) as B2 by (pose proof (Z.div_mod y 65536); lia).
  rewrite Z.div_small by (pose proof (Z.mod_pos_bound y 65536); lia). cbn. lia.
Qed.

Lemma words_sum_app l l' : Nat.Even (length l) → words_sum (l ++ l') = words_sum l + words_sum l'.
Proof.
  assert (∀ n l, (length l <= n)%nat → Nat.Even (length l) → words_sum (l ++ l') = words_sum l + words_sum l') as G; [|intros; by eapply G].
  intros n. induction n as [|n IH]; intros [|a [|b r]] Hl He; try done; try (exfalso; cbn [length] in Hl; lia); [destruct He as [k Hk]; cbn [length] in Hk; lia|].
  cbn [app words_sum]. rewrite (IH r); [lia|cbn [length] in Hl; lia|]. destruct He as [k Hk]. exists (k - 1)%nat. cbn [length] in Hk. lia.
Qed.

Lemma words_sum_range l : bytes l → 0 <= words_sum l <= 65535 * Z.of_nat (length l).
Proof.
  assert (∀ n l, (length l <= n)%nat → bytes l → 0 <= words_sum l <= 65535 * Z.of_nat (length l)) as G; [|intros; by eapply G].
  intros n. induction n as [|n IH]; intros [|a [|b r]] Hl Hb; try (cbn [words_sum]; lia); [cbn [length] in Hl; lia|]. cbn [words_sum].
  apply Forall_cons in Hb as [Ha [Hb Hr]%Forall_cons].
  pose proof (get_be_range [a; b] (Forall_cons_2 _ _ _ Ha (Forall_cons_2 _ _ _ Hb (Forall_nil_2 _)))) as Hw. unfold is_uint in Hw. change (2 ^ (8 * Z.of_nat (length [a; b]))) with 65536 in Hw.
  pose proof (IH r ltac:(cbn [length] in Hl; lia) Hr). cbn [length]. lia.
Qed.

Lemma vip4_or_ok vip d : bytes vip → bytes d → length d = 4%nat → bytes (vip4_or vip d) ∧ length (vip4_or vip d) = 4%nat.
Proof. intros Hv Hd Hl. unfold vip4_or. by destruct (Nat.eqb_spec (length vip) 4). Qed.

(** The checksum is a word of the header. *)
Lemma header_sum s size chk :
  is_uint 16 chk → words_sum (dummy_header s size chk) = words_sum (dummy_header s size 0) + chk.
Proof.
  intros Hc. unfold dummy_header. rewrite !(app_assoc [0x45; 0]), !(app_assoc ([0x45; 0] ++ _)), !(app_assoc (([0x45; 0] ++ _) ++ _)).
  set (pre := (([0x45; 0] ++ put_be 2 size) ++ put_be 2 0x4454) ++ [0x40; 0; 64; ProtocolExperimental]).
  assert (Nat.Even (length pre)) as He by (exists 5%nat; reflexivity).
  rewrite !(words_sum_app pre) by done. rewrite !(words_sum_app (put_be 2 _)) by (exists 1%nat; by rewrite put_be_length).
  assert (∀ v, is_uint 16 v → words_sum (put_be 2 v) = v) as Hw.
  { intros v Hv. pose proof (get_put 2 v Hv) as E. change (put_be 2 v) with [uint 8 (Z.shiftr v 8); uint 8 (Z.shiftr v 0)] in *. cbn [words_sum]. lia. }
  rewrite !Hw by (try done; by split). lia.
Qed.

Lemma header_bytes s size chk : bytes (localVIP s) → bytes (peerVIP s) → bytes (dummy_header s size chk) ∧ length (dummy_header s size chk) = 20%nat.
Proof.
  intros Hl Hp. destruct (vip4_or_ok (localVIP s) [100; 64; 0; 1]) as [B1 L1]; [done|repeat constructor; unfold is_uint; lia|done|].
  destruct (vip4_or_ok (peerVIP s) [100; 64; 0; 2]) as [B2 L2]; [done|repeat constructor; unfold is_uint; lia|done|].
  unfold dummy_header. split.
  - rewrite !bytes_app. split_and!; auto using put_be_bytes; repeat constructor; unfold is_uint, ProtocolExperimental; lia.
  - rewrite !length_app, !put_be_length, L1, L2. done.
Qed.

Lemma lxor_complement v : is_uint 16 v → Z.lxor 0xffff v = 65535 - v.
Proof.
  intros Hv. change 0xffff with (Z.ones 16). change 65535 with (Z.ones 16). rewrite Z.sub_nocarry_ldiff.
  - apply Z.bits_inj'. intros n Hn. rewrite Z.lxor_spec, Z.ldiff_spec. unfold is_uint in Hv. destruct (Z.lt_ge_cases n 16).
    + rewrite Z.ones_spec_low by lia. by destruct (Z.testbit v n).
    + rewrite Z.ones_spec_high by lia. rewrite <- (Z.mod_small v (2 ^ 16)), Z.mod_pow2_bits_high by lia. done.
  - apply Z.bits_inj'. intros n Hn. rewrite Z.ldiff_spec, Z.bits_0. unfold is_uint in Hv. destruct (Z.lt_ge_cases n 16).
    + rewrite Z.ones_spec_low by lia. by rewrite andb_false_r.
    + rewrite <- (Z.mod_small v (2 ^ 16)), Z.mod_pow2_bits_high by lia. done.
Qed.

Lemma checksum_complements s size : bytes (localVIP s) → bytes (peerVIP s) →
  is_uint 16 (ipChecksum (dummy_header s size 0)) ∧ ipChecksum (dummy_header s size (ipChecksum (dummy_header s size 0))) = 0.
Proof.
  intros Hl Hp. destruct (header_bytes s size 0 Hl Hp) as [Hb Hn]. pose proof (words_sum_range _ Hb) as Hr. rewrite Hn in Hr.
  assert (0 < words_sum (dummy_header s size 0)) as Hpos.
  { unfold dummy_header in *. apply bytes_app in Hb as [_ Hb]. rewrite words_sum_app by (by exists 1%nat). pose proof (words_sum_range _ Hb).
    change (words_sum [0x45; 0]) with 17664. lia. }
  assert (∀ z, 0 < z < 2 ^ 32 → is_uint 16 (uint 16 (fold_carries 3 z)) ∧ uint 16 (fold_carries 3 z) = fold_carries 3 z ∧
    fold_carries 3 z mod 65535 = z mod 65535 ∧ 0 < fold_carries 3 z) as Hf.
  { intros z Hz. destruct (fold_carries_mod 3 z) as (F1 & F2 & F3); [lia|]. pose proof (fold_carries_small z) as F4.
    rewrite uint_small by (unfold is_uint; lia). split; [unfold is_uint; lia|]. split; [done|]. split; [done|]. apply F3. lia. }
  destruct (Hf (words_sum (dummy_header s size 0))) as (U0 & E0 & M0 & P0); [lia|].
  assert (ipChecksum (dummy_header s size 0) = 65535 - fold_carries 3 (words_sum (dummy_header s size 0))) as Ec
    by (unfold ipChecksum; by rewrite lxor_complement, E0).
  assert (is_uint 16 (ipChecksum (dummy_header s size 0))) as Uc by (rewrite Ec; rewrite E0 in U0; unfold is_uint in *; lia).
  split; [done|]. unfold ipChecksum at 1. rewrite header_sum by done. rewrite Ec. set (s0 := words_sum (dummy_header s size 0)) in *. set (f0 := fold_carries 3 s0) in *.
  destruct (Hf (s0 + (65535 - f0))) as (U1 & E1 & M1 & P1); [rewrite E0 in U0; unfold is_uint in U0; lia|].
  rewrite lxor_complement, E1 by done. rewrite E1 in U1. unfold is_uint in U1.
  replace (s0 + (65535 - f0)) with (s0 - f0 + 1 * 65535) in M1 at 2 by lia. rewrite Z.mod_add, Zminus_mod, <- M0, Z.sub_diag in M1 by done.
  change (0 mod 65535) with 0 in M1. apply Z.mod_divide in M1 as [k Hk]; [|done]. assert (k = 1) as -> by lia. lia.
Qed.

(** A cover packet is an IPv4 packet of its size with a valid header checksum, which
    every receiving device recognises and drops: it parses, from and to the addresses
    of the shaper, and its header, checksum included, sums to zero. *)
Theorem cover_packet_recognised noise size s :
  (∀ n, length (noise n) = n) → bytes (localVIP s) → bytes (peerVIP s) → size <= 65535 →
  let pkt := BuildDummyPacket noise size s in
  IsDummyPacket pkt = true ∧ ipChecksum (take 20 pkt) = 0 ∧ Z.of_nat (length pkt) = (if size <? 20 then 256 else size) ∧
  ParsePacket pkt = Some (Packet.mk 4 ProtocolExperimental (vip4_or (localVIP s) [100; 64; 0; 1]) (vip4_or (peerVIP s) [100; 64; 0; 2]) 0 0 false).
Proof.
  intros Hn Hl Hp Hs. cbv zeta. unfold BuildDummyPacket. set (sz := if size <? 20 then 256 else size).
  assert (20 <= sz <= 65535) as Hsz by (unfold sz; destruct (Z.ltb_spec size 20); lia). clearbody sz.
  destruct (checksum_complements s sz Hl Hp) as [_ Hc]. set (chk := ipChecksum (dummy_header s sz 0)) in *. clearbody chk.
  destruct (header_bytes s sz chk Hl Hp) as [_ Hh]. set (pkt := dummy_header s sz chk ++ noise (Z.to_nat sz - 20)%nat).
  assert (length pkt = Z.to_nat sz) as Hlen by (unfold pkt; rewrite length_app, Hh, Hn; lia).
  destruct (vip4_or_ok (localVIP s) [100; 64; 0; 1]) as [_ L1]; [done|repeat constructor; unfold is_uint; lia|done|].
  destruct (vip4_or_ok (peerVIP s) [100; 64; 0; 2]) as [_ L2]; [done|repeat constructor; unfold is_uint; lia|done|].
  split; [|split; [|split]].
  - unfold IsDummyPacket. rewrite Hlen, (proj2 (Nat.ltb_ge _ _)) by lia. reflexivity.
  - unfold pkt. rewrite take_app_length' by done. exact Hc.
  - rewrite Hlen. lia.
  - assert (slice 2 4 pkt = put_be 2 sz) as E2 by reflexivity.
    assert (slice 12 16 pkt = vip4_or (localVIP s) [100; 64; 0; 1]) as E12.
    { apply (slice_at (([0x45; 0] ++ put_be 2 sz ++ put_be 2 0x4454 ++ [0x40; 0; 64; ProtocolExperimental] ++ put_be 2 chk)) _ (vip4_or (peerVIP s) [100; 64; 0; 2] ++ noise (Z.to_nat sz - 20)%nat));
        [unfold pkt, dummy_header; by rewrite <- !app_assoc|done|by rewrite L1]. }
    assert (slice 16 20 pkt = vip4_or (peerVIP s) [100; 64; 0; 2]) as E16.
    { apply (slice_at (([0x45; 0] ++ put_be 2 sz ++ put_be 2 0x4454 ++ [0x40; 0; 64; ProtocolExperimental] ++ put_be 2 chk ++ vip4_or (localVIP s) [100; 64; 0; 1])) _ (noise (Z.to_nat sz - 20)%nat));
        [unfold pkt, dummy_header; by rewrite <- !app_assoc|rewrite !length_app, !put_be_length, L1; done|by rewrite L2]. }
    unfold ParsePacket. rewrite Hlen, (proj2 (Nat.ltb_ge _ _)) by lia. cbv zeta. change (Z.shiftr (at_ pkt 0) 4 =? 4) with true. cbv iota.
    unfold parseIPv4, ipv4MinHeaderLen. rewrite Hlen, (proj2 (Nat.ltb_ge _ 20)) by lia. cbv zeta.
    change (Z.to_nat (Z.land (at_ pkt 0) 15) * 4)%nat with 20%nat. rewrite E2, get_put by (unfold is_uint; lia).
    rewrite (proj2 (Nat.ltb_ge 20 20)), !(proj2 (Nat.ltb_ge _ _)) by lia. cbn [orb]. rewrite E12, E16. reflexivity.
Qed.

(** ** The device passes on what the filter lets through *)

Section Device.
Context {F : Type} {Fi : PacketFilter F}.

(** The packet as it leaves the device, where it fits. *)
Definition shaped (t : filteredTUN F) (room : nat) (raw : list Z) : list Z :=
  match daitaShaper t with
  | Some s => let padded := NormalizePacketSize s raw in if Nat.leb (length padded) room then padded else raw
  | None => raw
  end.

(** The packets that survive, one after the other. *)
Definition survive (clock : nat → Z) (room : nat) (raw_of : nat → list Z) (a : filteredTUN F * list (list Z)) (i : nat) : filteredTUN F * list (list Z) :=
  let '(t', ok) := consult (clock i) (raw_of i) true a.1 in
  (t', if ok then a.2 ++ [shaped t' room (raw_of i)] else a.2).

Lemma consult_shaper now raw o (t : filteredTUN F) : daitaShaper (consult now raw o t).1 = daitaShaper t.
Proof. unfold consult, allow. repeat case_match; done. Qed.

Lemma copy_at_length offset data b : (offset + length data <= length b)%nat → length (copy_at offset data b) = length b.
Proof. intros Hl. unfold copy_at. rewrite !length_app, !length_take, length_drop. lia. Qed.

Lemma copy_at_slice offset data b : (offset + length data <= length b)%nat → slice offset (offset + length data) (copy_at offset data b) = data.
Proof.
  intros Hl. unfold copy_at. rewrite (take_ge data) by lia.
  apply (slice_at (take offset b) data (drop (offset + length data) b)); [done|rewrite length_take; lia|done].
Qed.

Lemma slice_length a b (l : list Z) : (b <= length l)%nat → length (slice a b l) = (b - a)%nat.
Proof. intros Hl. unfold slice. rewrite length_take, length_drop. lia. Qed.

Section Compaction.
Context (clock : nat → Z) (offset room : nat) (bs : list (list Z)) (szs : list nat) (t0 : filteredTUN F) (n : nat).
Context (Hbs : ∀ i, (i < n)%nat → ∃ b, bs !! i = Some b ∧ length b = (offset + room)%nat).
Context (Hszs : ∀ i, (i < n)%nat → ∃ s, szs !! i = Some s ∧ (s <= room)%nat).

Definition raw_of (i : nat) : list Z := slice offset (offset + default 0%nat (szs !! i)) (default [] (bs !! i)).

(** A buffer and its size replaced. *)
Definition put (k : nat) (b : list Z) (s : nat) (r : reading F) : reading F := r <| bufs ::= <[k := b]> |> <| sizes ::= <[k := s]> |>.

Lemma put_same k b s (r : reading F) : is_Some (bufs r !! k) → is_Some (sizes r !! k) → bufs (put k b s r) !! k = Some b ∧ sizes (put k b s r) !! k = Some s.
Proof.
  intros Hb%lookup_lt_is_Some Hs%lookup_lt_is_Some. change (<[k := b]> (bufs r) !! k = Some b ∧ <[k := s]> (sizes r) !! k = Some s).
  by rewrite !list_lookup_insert_eq.
Qed.
Lemma put_other k j b s (r : reading F) : k ≠ j → bufs (put k b s r) !! j = bufs r !! j ∧ sizes (put k b s r) !! j = sizes r !! j.
Proof.
  intros Hk. change (<[k := b]> (bufs r) !! j = bufs r !! j ∧ <[k := s]> (sizes r) !! j = sizes r !! j). by rewrite !list_lookup_insert_ne.
Qed.

(** A slot that holds a packet. *)
Definition holds (r : reading F) (k : nat) (p : list Z) : Prop :=
  ∃ b s, bufs r !! k = Some b ∧ length b = (offset + room)%nat ∧ sizes r !! k = Some s ∧ (s <= room)%nat ∧ slice offset (offset + s) b = p.

Lemma holds_length r k p : holds r k p → (length p <= room)%nat.
Proof using. intros (b & s & _ & Hl & _ & Hs & <-). rewrite slice_length by lia. lia. Qed.
Lemma holds_slice r k p : holds r k p → slice offset (offset + size_ r k) (buf r k) = p.
Proof using. intros (b & s & Eb & _ & Es & _ & <-). unfold size_, buf. by rewrite Eb, Es. Qed.

Lemma put_holds r k p q : holds r k q → (length p <= room)%nat → holds (put k (copy_at offset p (buf r k)) (length p) r) k p.
Proof using.
  intros (b & s & Eb & Hl & Es & Hs & _) Hp. destruct (put_same k (copy_at offset p (buf r k)) (length p) r) as [E1 E2]; [by eexists..|].
  assert (buf r k = b) as Hb by (unfold buf; by rewrite Eb). rewrite Hb in *.
  exists (copy_at offset p b), (length p). split; [done|]. split; [rewrite copy_at_length; lia|]. split; [done|]. split; [done|]. apply copy_at_slice. lia.
Qed.
Lemma put_keeps r k j b s p : k ≠ j → holds r j p → holds (put k b s r) j p.
Proof using. intros Hk (b' & s' & Eb & H). destruct (put_other k j b s r Hk) as [E1 E2]. exists b', s'. by rewrite E1, E2. Qed.

Lemma pad_holds r i p : holds r i p → holds (pad_in_place offset i r) i (shaped (dev r) room p).
Proof using.
  intros Hh. unfold pad_in_place, shaped. destruct (daitaShaper (dev r)) as [s|]; [|done]. cbv zeta. rewrite (holds_slice r i p Hh).
  assert (length (buf r i) - offset = room)%nat as -> by (destruct Hh as (b & s0 & Eb & Hl & _); unfold buf; rewrite Eb; cbn; lia).
  destruct (Nat.leb_spec (length (NormalizePacketSize s p)) room); [|done]. eapply put_holds; [exact Hh|done].
Qed.
Lemma pad_keeps r i j p : i ≠ j → holds r j p → holds (pad_in_place offset i r) j p.
Proof using. intros Hij Hh. unfold pad_in_place. destruct (daitaShaper (dev r)); [|done]. cbv zeta. destruct (Nat.leb _ _); [by apply put_keeps|done]. Qed.
Lemma pad_frame (r : reading F) i : dev (pad_in_place offset i r) = dev r ∧ kept (pad_in_place offset i r) = kept r.
Proof using. unfold pad_in_place. destruct (daitaShaper (dev r)); [|done]. cbv zeta. by destruct (Nat.leb _ _). Qed.

(** After the first [i] packets: the survivors are in the first slots, and the packets
    still to be looked at are where they were. *)
Record compacted (i : nat) (r : reading F) (out : list (list Z)) : Prop := {
  cp_kept : kept r = length out; cp_le : (length out <= i)%nat;
  cp_done : ∀ j p, out !! j = Some p → holds r j p;
  cp_any : ∀ k, (k < n)%nat → ∃ p, holds r k p;
  cp_rest : ∀ k, (i <= k < n)%nat → holds r k (raw_of k);
}.

Lemma step_compacted i r out :
  (i < n)%nat → compacted i r out →
  let a := survive clock room raw_of (dev r, out) i in
  dev (read_step clock offset i r) = a.1 ∧ compacted (S i) (read_step clock offset i r) a.2.
Proof using.
  intros Hi [K L D A R]. cbv zeta. unfold read_step, survive. cbn [fst snd]. rewrite (holds_slice r i (raw_of i)) by (apply R; lia).
  destruct (consult (clock i) (raw_of i) true (dev r)) as [t' ok]. destruct ok; cbn [negb fst snd].
  2:{ split; [done|]. split; [done|lia|exact D|exact A|]. intros k Hk. apply R. lia. }
  set (r1 := r <| dev := t' |>). set (r2 := pad_in_place offset i r1). destruct (pad_frame r1 i) as [Ed Ek]. fold r2 in Ed, Ek.
  change (dev r1) with t' in Ed. change (kept r1) with (kept r) in Ek. rewrite K in Ek.
  assert (holds r1 i (raw_of i)) as Hr by (apply R; lia). pose proof (pad_holds r1 i _ Hr) as H2. fold r2 in H2. change (dev r1) with t' in H2.
  assert (∀ j p, i ≠ j → holds r j p → holds r2 j p) as Hk by (intros j p Hj Hh; by apply pad_keeps).
  assert (∀ k, (k < n)%nat → ∃ p, holds r2 k p) as A2.
  { intros k Hkn. destruct (decide (i = k)) as [<-|Hne]; [by eexists|]. destruct (A k Hkn) as [p Hp]. exists p. by apply Hk. }
  rewrite Ek, (holds_slice r2 i _ H2). set (p := shaped t' room (raw_of i)) in *. pose proof (holds_length r2 i p H2) as Hlen.
  assert (size_ r2 i = length p) as Es.
  { destruct H2 as (b & s & _ & Hl & Es & Hs & <-). unfold size_. rewrite Es. cbn. rewrite slice_length; lia. }
  destruct (Nat.eqb_spec (length out) i) as [Eo|Eo].
  - split; [exact Ed|]. split; cbn [kept].
    + change (S (kept r2) = length (out ++ [p])). rewrite Ek, length_app. cbn. lia.
    + rewrite length_app. cbn. lia.
    + intros j q Hq. apply lookup_app_Some in Hq as [Hq|[Hq1 Hq2]]; [apply (Hk j); [apply lookup_lt_Some in Hq; lia|by apply D]|].
      apply list_lookup_singleton_Some in Hq2 as [Hq2 <-]. replace j with i by lia. exact H2.
    + exact A2.
    + intros k Hkn. apply (Hk k); [lia|]. apply R. lia.
  - rewrite Es. set (r3 := put (length out) (copy_at offset p (buf r2 (length out))) (length p) r2).
    assert (holds r3 (length out) p) as H3 by (destruct (A2 (length out) ltac:(lia)) as [q Hq]; by eapply put_holds).
    assert (∀ j q, length out ≠ j → holds r2 j q → holds r3 j q) as Hk3 by (intros; by apply put_keeps).
    split; [exact Ed|]. split; cbn [kept].
    + change (S (kept r2) = length (out ++ [p])). rewrite Ek, length_app. cbn. lia.
    + rewrite length_app. cbn. lia.
    + intros j q Hq. apply lookup_app_Some in Hq as [Hq|[Hq1 Hq2]].
      * pose proof (lookup_lt_Some _ _ _ Hq). apply (Hk3 j); [lia|]. apply (Hk j); [lia|by apply D].
      * apply list_lookup_singleton_Some in Hq2 as [Hq2 <-]. replace j with (length out) by lia. exact H3.
    + intros k Hkn. destruct (decide (length out = k)) as [<-|Hne]; [by exists p|]. destruct (A2 k Hkn) as [q Hq]. exists q. by apply (Hk3 k).
    + intros k Hkn. apply (Hk3 k); [lia|]. apply (Hk k); [lia|]. apply R. lia.
Qed.

Lemma Read_compacted :
  dev (Read clock offset n bs szs t0) = (foldl (survive clock room raw_of) (t0, []) (seq 0 n)).1 ∧
  compacted n (Read clock offset n bs szs t0) (foldl (survive clock room raw_of) (t0, []) (seq 0 n)).2.
Proof using Hbs Hszs.
  unfold Read. assert (∀ m, (m <= n)%nat →
    let r := foldl (λ r i, read_step clock offset i r) (mk_reading bs szs t0 0) (seq 0 m) in
    let a := foldl (survive clock room raw_of) (t0, []) (seq 0 m) in dev r = a.1 ∧ compacted m r a.2) as G; [|by apply G].
  assert (∀ k, (k < n)%nat → holds (mk_reading bs szs t0 0) k (raw_of k)) as H0.
  { intros k Hk. destruct (Hbs k Hk) as (b & Eb & Hl), (Hszs k Hk) as (s & Es & Hs). exists b, s. unfold raw_of. rewrite Eb, Es. done. }
  induction m as [|m IH]; intros Hm; cbv zeta.
  - split; [done|]. split; [done|done|done| |]; [intros k Hk; by eexists; apply H0|intros k Hk; apply H0; lia].
  - destruct (IH ltac:(lia)) as [Ed Hc]. rewrite seq_S, !foldl_app. cbn [foldl]. rewrite Nat.add_0_l.
    set (r := foldl _ (mk_reading _ _ _ _) _) in *. set (a := foldl _ (t0, []) _) in *.
    destruct (step_compacted m r a.2 ltac:(lia) Hc) as [E1 E2]. rewrite Ed in E1, E2. by destruct a.
Qed.

(** [Read] hands on exactly the packets that survive, in their order: packing them down
    over the rejected ones, in buffers of one size and with the padding in place, loses
    and mixes none. *)
Theorem read_compacts :
  let '(t', out) := foldl (survive clock room raw_of) (t0, []) (seq 0 n) in
  let r := Read clock offset n bs szs t0 in
  dev r = t' ∧ (λ j, slice offset (offset + size_ r j) (buf r j)) <$> seq 0 (kept r) = out.
Proof using Hbs Hszs.
  destruct Read_compacted as [E1 [K _ D _ _]]. destruct (foldl _ _ _) as [t' out]. cbv zeta. cbn [fst snd] in *. split; [done|].
  rewrite K. apply list_eq. intros j. rewrite list_lookup_fmap. destruct (out !! j) as [p|] eqn:Ej.
  - rewrite lookup_seq_lt by (by eapply lookup_lt_Some). cbn [fmap option_fmap option_map]. f_equal. by apply holds_slice, D.
  - rewrite lookup_seq_ge by (by apply lookup_ge_None). done.
Qed.

End Compaction.
(** ** Writing *)

(** Whether a buffer is handed on, one after the other. *)
Definition pass (clock : nat → Z) (offset : nat) (a : filteredTUN F * list (list Z)) (ib : nat * list Z) : filteredTUN F * list (list Z) :=
  let '(i, b) := ib in
  if Nat.ltb (length b) offset then (a.1 <| malformedDropped ::= count |>, a.2) else
  if IsDummyPacket (drop offset b) then (a.1 <| dummyDropped ::= count |>, a.2) else
  let '(t', ok) := consult (clock i) (drop offset b) false a.1 in (t', if ok then a.2 ++ [b] else a.2).

(** After the first [i] buffers, the slice is the caller's own as long as nothing was
    left out. *)
Definition handed (all : list (list Z)) (i : nat) (w : writing F) (a : filteredTUN F * list (list Z)) : Prop :=
  wdev w = a.1 ∧ (if filtering w then allowed w = a.2 else allowed w = all ∧ a.2 = take i all).

Lemma start_handed all i w t out :
  (if filtering w then allowed w = out else allowed w = all ∧ out = take i all) → wdev w = t →
  handed all (S i) (startFiltering all i w) (t, out).
Proof. unfold startFiltering, handed. destruct (filtering w) eqn:Ef; cbn; intros Ha Hd; [by rewrite Ef|]. destruct Ha as [_ ->]. done. Qed.

Lemma write_step_handed clock offset all i b w a :
  all !! i = Some b → handed all i w a → handed all (S i) (write_step clock offset all w (i, b)) (pass clock offset a (i, b)).
Proof.
  intros Hb [Hd Ha]. unfold write_step, pass. destruct (Nat.ltb _ _); [apply start_handed; [exact Ha|by cbn; rewrite Hd]|].
  destruct (IsDummyPacket _); [apply start_handed; [exact Ha|by cbn; rewrite Hd]|]. rewrite Hd.
  destruct (consult (clock i) (drop offset b) false a.1) as [t' [|]]; cbn [negb]; [|by apply start_handed].
  change (filtering (w <| wdev := t' |>)) with (filtering w). destruct (filtering w) eqn:Ef; (split; [done|]).
  - change (filtering (w <| wdev := t' |> <| allowed ::= λ l, l ++ [b] |>)) with (filtering w). rewrite Ef. cbn. by rewrite Ha.
  - change (filtering (w <| wdev := t' |>)) with (filtering w). rewrite Ef. destruct Ha as [Ha ->]. split; [exact Ha|]. cbn [snd]. by rewrite (take_S_r _ _ _ Hb).
Qed.

(** [Write] hands the stack below exactly the buffers that pass, in their order, and
    calls it with nothing left to write only where it was called so; a closed device
    refuses. *)
Theorem write_hands_on clock offset all t :
  let '(t', out) := foldl (pass clock offset) (t, []) (imap pair all) in
  Write clock offset all t =
    if closed t then (t, None) else (t', Some (match all, out with _ :: _, [] => None | _, _ => Some out end)).
Proof.
  unfold Write. destruct (closed t); [by destruct (foldl _ _ _)|]. destruct all as [|b0 rest]; [done|]. set (all := b0 :: rest).
  assert (∀ m, (m <= length all)%nat → handed all m (foldl (write_step clock offset all) (mk_writing t false all) (take m (imap pair all)))
    (foldl (pass clock offset) (t, []) (take m (imap pair all)))) as G.
  { induction m as [|m IH]; intros Hm; [done|]. destruct (lookup_lt_is_Some_2 all m) as [b Hb]; [lia|].
    assert (imap pair all !! m = Some (m, b)) as Hi by (by rewrite list_lookup_imap, Hb). rewrite (take_S_r _ _ _ Hi), !foldl_app. cbn [foldl].
    apply write_step_handed; [exact Hb|]. apply IH. lia. }
  specialize (G (length all) ltac:(lia)). rewrite take_ge in G by (by rewrite length_imap).
  destruct (foldl (pass clock offset) _ _) as [t' out]. destruct G as [-> Ha]. cbn [fst snd] in Ha.
  assert (allowed (foldl (write_step clock offset all) (mk_writing t false all) (imap pair all)) = out) as ->.
  { destruct (filtering _); [done|]. destruct Ha as [-> ->]. by rewrite firstn_all. }
  by destruct out.
Qed.


End Device.

End DataplaneFacts.

(** ** The policy of the console, at the device *)
Module Enforcement.
Import Acl AclFacts Packet Daita Tun Netfilter ACLFilter DataplaneFacts.

(** A compiled entry as the node holds it: the address is parsed. *)
Record loads (e : Entry.t) (r : CompiledFilterRule) : Prop := {
  ld_vip : ip_String (AllowedPeerVIP r) = Entry.allowed_peer_vip e; ld_len : length (AllowedPeerVIP r) = 4%nat; ld_bytes : bytes (AllowedPeerVIP r);
  ld_proto : Netfilter.Protocol r = Entry.protocol e; ld_ports : PortRanges r = Entry.port_ranges e; ld_action : Action r = Entry.action e;
}.
Record loads_policy (p : Policy.t) (q : CompiledPeerPolicy) : Prop := {
  lp_in : Forall2 loads (Policy.inbound_rules p) (InboundRules q); lp_out : Forall2 loads (Policy.outbound_rules p) (OutboundRules q);
}.

Lemma ip_text4 ip : length ip = 4%nat → ip_String ip = join "." (pretty <$> ip).
Proof. intros Hl. unfold ip_String, To4. rewrite Hl. by destruct ip. Qed.

Lemma ip_text4_inj ip ip' : length ip = 4%nat → length ip' = 4%nat → bytes ip → bytes ip' → ip_String ip = ip_String ip' → ip = ip'.
Proof.
  intros Hl Hl' Hb Hb'. rewrite !ip_text4 by done. intros E.
  assert (∀ l, length l = 4%nat → bytes l → split "." (join "." (pretty <$> l)) = pretty <$> l) as Hs.
  { intros [|x l] Hn Hx; [done|]. cbn [fmap list_fmap]. apply split_join. change (pretty x :: (pretty <$> l)) with (pretty <$> x :: l). apply Forall_fmap.
    eapply Forall_impl; [exact Hx|]. intros z Hz. by destruct (octet_roundtrip z Hz) as (_ & ? & _). }
  apply (f_equal (split ".")) in E. rewrite !Hs in E by done. by apply (inj (fmap pretty)) in E.
Qed.

Lemma first_match_evaluate ip proto port entries rules :
  length ip = 4%nat → bytes ip → Forall2 loads entries rules →
  match first_match ip proto port rules with Some a => (a =? "ACCEPT")%string | None => false end = PkgAcl.evaluate entries (ip_String ip) proto port.
Proof.
  intros Hl Hb H. induction H as [|e r entries rules [Lv Ll Lb Lp Lr La] H IH]; [done|]. cbn [first_match PkgAcl.evaluate].
  assert (rule_matches ip proto port r = PkgAcl.entry_matches (ip_String ip) proto port e) as ->.
  { unfold rule_matches, PkgAcl.entry_matches. rewrite Lp, Lr, <- Lv. do 2 f_equal. unfold Equal. rewrite Ll, Hl, Nat.eqb_refl.
    destruct (String.eqb_spec (ip_String (AllowedPeerVIP r)) (ip_String ip)) as [E|E].
    - rewrite bool_decide_eq_true_2; [done|]. by apply ip_text4_inj.
    - rewrite bool_decide_eq_false_2; [done|]. congruence. }
  destruct (PkgAcl.entry_matches _ _ _ _); [by rewrite La|exact IH].
Qed.

Lemma outbound_decides now raw pkt nf q (t : filteredTUN NetstackFilter) entries :
  Tun.filter t = Some nf → policy nf = Some q → ParsePacket raw = Some pkt → length (Dst pkt) = 4%nat → bytes (Dst pkt) →
  Forall2 loads entries (OutboundRules q) →
  (consult now raw true t).2 = PkgAcl.evaluate entries (ip_String (Dst pkt)) (toACLProtocol (Packet.Protocol pkt)) (DstPort pkt).
Proof.
  intros Hf Hq Hp Hl Hb He. unfold consult, allow. rewrite Hf, Hp. cbn [negb andb]. cbn [Outbound acl_filter].
  unfold passed, EvaluateOutbound4Tuple, decide_outbound. rewrite Hq. rewrite <- (first_match_evaluate _ _ _ entries (OutboundRules q)) by done.
  destruct (first_match _ _ _ _) as [a|]; [|done]. by destruct (a =? "ACCEPT")%string.
Qed.

Lemma inbound_accepts now raw pkt nf q (t : filteredTUN NetstackFilter) entries :
  Tun.filter t = Some nf → policy nf = Some q → ParsePacket raw = Some pkt → IsDummyPacket raw = false → length (Src pkt) = 4%nat → bytes (Src pkt) →
  Forall2 loads entries (InboundRules q) →
  PkgAcl.evaluate entries (ip_String (Src pkt)) (toACLProtocol (Packet.Protocol pkt)) (DstPort pkt) = true → (consult now raw false t).2 = true.
Proof.
  intros Hf Hq Hp Hd Hl Hb He Ha. unfold consult, allow. rewrite Hf, Hp, Hd. cbn [negb andb]. cbn [Inbound acl_filter].
  unfold passed, EvaluateInbound. destruct (checkConntrackLocked _ _ _ _ _ _); [done|]. change (policy (purgeExpiredLocked now nf)) with (policy nf).
  rewrite Hq. rewrite <- (first_match_evaluate _ _ _ entries (InboundRules q)) in Ha by done. destruct (first_match _ _ _ _) as [a|]; [|done]. by rewrite Ha.
Qed.

Lemma ports_range proto payload sp dp : bytes payload → transportPorts proto payload = (sp, dp) → is_uint 16 sp ∧ is_uint 16 dp.
Proof.
  intros Hb. unfold transportPorts. assert (is_uint 16 0) by (by split).
  destruct (_ || _); [|by intros [= <- <-]]. destruct (Nat.ltb_spec (length payload) 4); [by intros [= <- <-]|].
  assert (∀ a, (a + 2 <= length payload)%nat → is_uint 16 (get_be (slice a (a + 2) payload))) as G.
  { intros a Ha. pose proof (get_be_range (slice a (a + 2) payload) (bytes_slice _ _ _ Hb)) as R. rewrite slice_length in R by lia.
    by replace (a + 2 - a)%nat with 2%nat in R by lia. }
  intros [= <- <-]. split; [apply (G 0%nat)|apply (G 2%nat)]; lia.
Qed.

Lemma parse4_fields raw pkt :
  bytes raw → ParsePacket raw = Some pkt → Version pkt = 4 →
  length (Src pkt) = 4%nat ∧ length (Dst pkt) = 4%nat ∧ bytes (Src pkt) ∧ bytes (Dst pkt) ∧ is_uint 16 (DstPort pkt).
Proof.
  intros Hb Hp Hv. destruct (parse_version raw pkt Hp) as [Hl _]. unfold ParsePacket in Hp. destruct (Nat.ltb _ 1); [done|]. cbv zeta in Hp.
  destruct (_ =? 4) in Hp.
  - unfold parseIPv4 in Hp. destruct (Nat.ltb _ _); [done|]. cbv zeta in Hp. destruct (_ || _) in Hp; [done|]. destruct (_ || _) in Hp; [done|].
    destruct (if negb _ then _ else _) as [sp dp] eqn:Ep in Hp. injection Hp as <-. cbn [Src Dst DstPort].
    rewrite !slice_length by lia. split_and!; [done..|by apply bytes_slice|by apply bytes_slice|].
    destruct (negb _) in Ep; [injection Ep as <- <-; by split|]. eapply ports_range; [|exact Ep]. by apply bytes_slice.
  - destruct (_ =? 6) in Hp; [|done]. unfold parseIPv6 in Hp. destruct (Nat.ltb _ _); [done|]. cbv zeta in Hp. destruct (Nat.ltb _ _) in Hp; [done|].
    destruct (transportPorts _ _) in Hp. injection Hp as <-. done.
Qed.

Lemma parsed_not_dummy raw pkt : ParsePacket raw = Some pkt → Packet.Protocol pkt ≠ ProtocolExperimental → IsDummyPacket raw = false.
Proof.
  intros Hp Hx. destruct (parse_version raw pkt Hp) as [Hl H6]. unfold IsDummyPacket. rewrite (proj2 (Nat.ltb_ge _ 20)) by done. cbv zeta.
  unfold ParsePacket in Hp. destruct (Nat.ltb _ 1); [done|]. cbv zeta in Hp. destruct (_ =? 4) in Hp |- *.
  - unfold parseIPv4 in Hp. destruct (Nat.ltb _ _); [done|]. cbv zeta in Hp. destruct (_ || _) in Hp; [done|]. destruct (_ || _) in Hp; [done|].
    destruct (if negb _ then _ else _) in Hp. injection Hp as <-. cbn in Hx. by apply Z.eqb_neq.
  - destruct (_ =? 6) in Hp |- *; [|done]. unfold parseIPv6 in Hp. destruct (Nat.ltb _ _); [done|]. cbv zeta in Hp. destruct (Nat.ltb _ _) in Hp; [done|].
    destruct (transportPorts _ _) in Hp. injection Hp as <-. cbn in Hx. cbn [andb]. destruct (Nat.leb _ _); [by apply Z.eqb_neq|done].
Qed.

(** A filter with a policy of the console loaded. *)
Definition enforces (t : filteredTUN NetstackFilter) (p : Policy.t) : Prop :=
  ∃ nf q, Tun.filter t = Some nf ∧ policy nf = Some q ∧ loads_policy p q.


End Enforcement.

Module DataplaneSamples.
Import Packet Daita Tun Netfilter ACLFilter DataplaneFacts Enforcement.

(** TCP from 100.64.0.1 to 100.64.0.2. *)
Definition tcp (port : Z) : list Z :=
  [0x45; 0; 0; 24; 0; 0; 0; 0; 64; 6; 0; 0; 100; 64; 0; 1; 100; 64; 0; 2; 156; 64; port / 256; port mod 256].
Definition parsed (port : Z) : Packet.t := Packet.mk 4 6 [100; 64; 0; 1] [100; 64; 0; 2] 40000 port false.
Definition shaper : Shaper := Daita.mk ModeBalanced 1380 [100; 64; 0; 1] [100; 64; 0; 2].

Lemma padding_transparent_witness :
  ParsePacket (NormalizePacketSize shaper (tcp 80)) = Some (parsed 80) ∧ ParseRealLength (NormalizePacketSize shaper (tcp 80)) = Some 24%nat ∧
  length (NormalizePacketSize shaper (tcp 80)) = 256%nat.
Proof.
  destruct (padding_transparent shaper (tcp 80) (parsed 80)) as (H1 & _ & _ & H2); [vm_compute; reflexivity..|].
  split; [exact H1|]. split; [exact H2|vm_compute; reflexivity].
Defined.

Lemma cover_packet_recognised_witness :
  IsDummyPacket (BuildDummyPacket (λ n, replicate n 9) 1280 shaper) = true ∧ ipChecksum (take 20 (BuildDummyPacket (λ n, replicate n 9) 1280 shaper)) = 0.
Proof.
  destruct (cover_packet_recognised (λ n, replicate n 9) 1280 shaper) as (H1 & H2 & _); [intros n; apply length_replicate| | |lia|by split];
    repeat constructor; unfold is_uint; lia.
Defined.

Definition load_entry (e : Entry.t) : CompiledFilterRule :=
  mk_rule ((λ w, to_Z (string_to_number w)) <$> split "." (Entry.allowed_peer_vip e)) (Entry.protocol e) (Entry.port_ranges e) (Entry.action e) (Entry.is_directional e).
Definition load (p : Policy.t) : CompiledPeerPolicy :=
  mk_policy (Policy.node_id p) [100; 64; 0; 1] (load_entry <$> Policy.inbound_rules p) (load_entry <$> Policy.outbound_rules p) (Policy.epoch p).

Definition policy1 : Policy.t := Eval vm_compute in default (Policy.mk "" "" [] [] 0) (Acl.compilePolicyFor (Coll := c_collation) "n1" AclSample.db).
Definition policy2 : Policy.t := Eval vm_compute in default (Policy.mk "" "" [] [] 0) (Acl.compilePolicyFor (Coll := c_collation) "n2" AclSample.db).
Definition device (p : Policy.t) : filteredTUN NetstackFilter := newFilteredTUN (Some (UpdatePolicy (Some (load p)) NewNetstackFilter)) (Some shaper).

Definition entry_loaded (e : Entry.t) : bool :=
  let ip := AllowedPeerVIP (load_entry e) in
  (ip_String ip =? Entry.allowed_peer_vip e)%string && Nat.eqb (length ip) 4 && forallb (λ z, (0 <=? z) && (z <? 256)) ip.
Lemma entry_loaded_loads e : entry_loaded e = true → loads e (load_entry e).
Proof.
  unfold entry_loaded. intros [[H1 H2]%andb_true_iff H3]%andb_true_iff. split; [by apply String.eqb_eq|by apply Nat.eqb_eq| |done..].
  by apply bytes_check.
Qed.
Lemma device_enforces p : forallb entry_loaded (Policy.inbound_rules p ++ Policy.outbound_rules p) = true → enforces (device p) p.
Proof.
  intros H. rewrite forallb_forall in H. eexists _, _. split; [reflexivity|]. split; [reflexivity|].
  assert (∀ l, (∀ e, e ∈ l → entry_loaded e = true) → Forall2 loads l (load_entry <$> l)) as G.
  { intros l Hl. apply Forall2_fmap_r, Forall_Forall2_diag, Forall_forall. intros e He. by apply entry_loaded_loads, Hl. }
  split; cbn; apply G; intros e He; apply H, list_elem_of_In; apply elem_of_app; auto.
Qed.


(** Three packets of which the second is rejected, in buffers with eight bytes of room
    for the header of the transport. *)
Definition sample_bufs : list (list Z) := (λ port, replicate 8 1 ++ tcp port ++ replicate 300 7) <$> [80; 22; 443].

Lemma read_compacts_witness :
  let r := Read (λ _, 5) 8 3 sample_bufs [24; 24; 24]%nat (device policy1) in
  kept r = 2%nat ∧ outboundDropped (dev r) = 1 ∧
  (λ j, slice 8 (8 + size_ r j) (buf r j)) <$> seq 0 (kept r) = NormalizePacketSize shaper <$> [tcp 80; tcp 443].
Proof.
  cbv zeta. split; [vm_compute; reflexivity|]. split; [vm_compute; reflexivity|].
  pose proof (read_compacts (λ _, 5) 8 324 sample_bufs [24; 24; 24]%nat (device policy1) 3) as H.
  destruct (foldl _ _ _) as [t' out] eqn:Ef in H. destruct H as [_ H].
  - intros [|[|[|i]]] Hi; [eexists; split; [reflexivity|vm_compute; reflexivity]..|lia].
  - intros [|[|[|i]]] Hi; [eexists; split; [reflexivity|lia]..|lia].
  - etransitivity; [exact H|]. apply (f_equal snd) in Ef. etransitivity; [symmetry; exact Ef|]. vm_compute. reflexivity.
Defined.

End DataplaneSamples.
