(* ===== verification/Telemetry.v ===== *)
(** * Native telemetry

    The cumulative device counters a node reports with its heartbeats, from the device
    to the database:

    - [Sampler] is [cmd/sovereign-node/telemetry.go]: one reading of the WireGuard
      device turned into totals and a counter epoch;
    - [Client] is the part of [pkg/control/client.go] that numbers the observations and
      measures the round trip;
    - [NativeTelemetry] is [console/backend/services/NativeTelemetry.js], which keeps one
      observation per node and refuses whatever goes backwards.

    [Control] is the store of the node control API: the tables of [Db] with the ones only
    that API uses. *)

From S2P Require Import Prelude Js Encoding Json Db Acl Totp Bytes Netfilter.

(** ** The store of the control API *)

Module NativeRow.
Record t := mk {
  node_id : string; session_id : string; organization_id : string; user_id : string;
  sequence : option Z; counter_epoch : option Z; source : option string;
  traffic_available : option bool; rx_bytes : option Z; tx_bytes : option Z;
  memory_runtime_sys_bytes : option Z; payload_hash : option string; received_at : option Z;
}.
End NativeRow.

(** Columns of [nodes] only the control API reads and writes. *)
Module Columns.
Record t := mk {
  ip_class : string; country_code : string; city : string; asn : num;
  latitude : option num; longitude : option num; location_declared : bool;
  risk_score : Z; created_at : Z;
}.
Definition plain : t := mk "UNKNOWN" "US" "" (of_Z 0) None None false 0 0.
End Columns.

Module Control.
Record t := mk {
  db : Db.t;
  native : list NativeRow.t;
  (** the further columns of a row of [nodes], by its id *)
  columns : gmap string Columns.t;
  (** the counter of overlay addresses, which no rollback resets *)
  overlay_vip_seq : Z;
}.

(** A statement over the shared tables. *)
Definition on_db {A} (m : eff Db.t A) : eff t A :=
  λ s, let '(o, d) := m (db s) in (o, s <| db := d |>).
End Control.

(** ** The control plane *)

Module NativeTelemetry.
Import Control.

Definition MAX_UINT64 : Z := 18446744073709551615.
Definition FRESHNESS_SECONDS : Z := 60.

(** [/^(0|[1-9][0-9]{0,19})$/] *)
Definition canonical_decimal (s : string) : bool :=
  match s with
  | EmptyString => false
  | String c rest =>
      if Ascii.eqb c "0" then (rest =? "")%string
      else is_digit c && all_chars is_digit rest && (len rest <=? 19)
  end.

(** [BigInt] of such a text. *)
Definition BigInt (s : string) : Z := (take_digits s 0 0).1.1.

Definition refused {A} (status : Z) (message : string) : outcome A := Throw (Some status) message.

Definition uint64 (value : jsval) (field : string) (positive : bool) : outcome string :=
  match value with
  | JStr s =>
      if negb (canonical_decimal s) then refused 400 (field +:+ " must be a canonical unsigned decimal string")
      else if (MAX_UINT64 <? BigInt s) || (positive && (BigInt s =? 0)) then refused 400 (field +:+ " is out of range")
      else Ok s
  | _ => refused 400 (field +:+ " must be a canonical unsigned decimal string")
  end.

Definition is_lower_hex (c : ascii) : bool := is_digit c || ((97 <=? code c) && (code c <=? 102)).

(** Eight, four, four, four and twelve hexadecimal digits. *)
Definition is_uuid (s : string) : bool :=
  let parts := split "-" s in
  bool_decide (len <$> parts = [8; 4; 4; 4; 12]) && forallb (all_chars is_lower_hex) parts.

Record snapshot := mk_snapshot {
  session_id : string; sequence : string; counter_epoch : string; traffic_available : bool;
  rx_bytes : option string; tx_bytes : option string; memory_runtime_sys_bytes : string;
}.

Definition bind_outcome {A B} (o : outcome A) (k : A → outcome B) : outcome B :=
  match o with Ok a => k a | Throw st m => Throw st m end.

Definition counter_of (available : bool) (body : jsval) (name : string) : outcome (option string) :=
  if available then bind_outcome (uint64 (field name body) name false) (λ s, Ok (Some s)) else Ok None.

Definition normalize (body : jsval) : outcome snapshot :=
  let bad := refused 400 "Invalid native telemetry version, source or session" in
  match field "version" body, field "source" body, field "traffic_available" body, field "session_id" body with
  | JNum version, JStr source, JBool available, JStr session =>
      if negb (num_eqb version (of_Z 1) && (source =? "wireguard-device")%string && is_uuid session) then bad else
      bind_outcome (uint64 (field "sequence" body) "sequence" true) (λ sequence,
      bind_outcome (uint64 (field "counter_epoch" body) "counter_epoch" true) (λ epoch,
      bind_outcome (counter_of available body "rx_bytes") (λ rx,
      bind_outcome (counter_of available body "tx_bytes") (λ tx,
      bind_outcome (uint64 (field "memory_runtime_sys_bytes" body) "memory_runtime_sys_bytes" false) (λ memory,
      if negb available && negb (is_undef (field "rx_bytes" body) && is_undef (field "tx_bytes" body))
      then refused 400 "Unavailable traffic counters must be omitted"
      else Ok (mk_snapshot session sequence epoch available rx tx memory))))))
  | _, _, _, _ => bad
  end.

Definition text_or_null (o : option string) : jsval := match o with Some s => JStr s | None => JNull end.

Definition snapshot_value (s : snapshot) : jsval :=
  JObj [("version", JNum (of_Z 1)); ("session_id", JStr (session_id s)); ("sequence", JStr (sequence s));
        ("counter_epoch", JStr (counter_epoch s)); ("source", JStr "wireguard-device");
        ("traffic_available", JBool (traffic_available s)); ("rx_bytes", text_or_null (rx_bytes s));
        ("tx_bytes", text_or_null (tx_bytes s)); ("memory_runtime_sys_bytes", JStr (memory_runtime_sys_bytes s))].

(** The row of a new session, and the insertion that replaces the node's row. *)
Definition session_row (uuid : string) (n : Node.t) : NativeRow.t :=
  NativeRow.mk (Node.id n) uuid (Acl.org_of n) (Node.user_id n) None None None None None None None None None.

Definition upsert_session (row : NativeRow.t) (l : list NativeRow.t) : list NativeRow.t :=
  let mine r := (NativeRow.node_id r =? NativeRow.node_id row)%string in
  if existsb mine l then update_where mine (λ _, row) l else l ++ [row].

(** [uuid] is the random session drawn. *)
Definition startSession (uuid nodeId : string) : eff Control.t string :=
  s <-! get ;
  (match select1 (λ n, (Node.id n =? nodeId)%string) (Db.nodes (db s)) with
   | None => eff_ret tt
   | Some n => modify (λ s, s <| native ::= upsert_session (session_row uuid n) |>)
   end) ;!
  eff_ret uuid.

(** The row of the identity query: the node with its owner and organisation. *)
Definition identity (d : Db.t) (nodeId : string) : option (Node.t * User.t * Org.t) :=
  n ← select1 (λ n, (Node.id n =? nodeId)%string) (Db.nodes d);
  u ← select1 (λ u, (User.id u =? Node.user_id n)%string) (Db.users d);
  o ← select1 (λ o, (Org.id o =? Acl.org_of n)%string) (Db.organizations d);
  Some (n, u, o).

Definition SESSION_CHANGED : string := "Native telemetry session changed; register again".

(** Whether the observation may replace the prior one: [Ok true] for a repetition. *)
Definition ordered (snapshot : snapshot) (hash : string) (prior : NativeRow.t) : outcome bool :=
  match NativeRow.sequence prior with
  | None => Ok false
  | Some seen =>
      let order := BigInt (sequence snapshot) - seen in
      if (order =? 0) && bool_decide (NativeRow.payload_hash prior = Some hash) then Ok true
      else if order <=? 0 then refused 409 "Telemetry sequence already consumed"
      else
        let epochOrder := BigInt (counter_epoch snapshot) - default 0 (NativeRow.counter_epoch prior) in
        if epochOrder <? 0 then refused 409 "Counter epoch is older than the current observation"
        else if (epochOrder =? 0) && default false (NativeRow.traffic_available prior) && traffic_available snapshot &&
                ((BigInt (default "" (rx_bytes snapshot)) <? default 0 (NativeRow.rx_bytes prior)) ||
                 (BigInt (default "" (tx_bytes snapshot)) <? default 0 (NativeRow.tx_bytes prior)))
        then refused 409 "Counter decreased without a new epoch"
        else Ok false
  end.

Definition observed (snapshot : snapshot) (hash : string) (now : Z) (r : NativeRow.t) : NativeRow.t :=
  NativeRow.mk (NativeRow.node_id r) (NativeRow.session_id r) (NativeRow.organization_id r) (NativeRow.user_id r)
    (Some (BigInt (sequence snapshot))) (Some (BigInt (counter_epoch snapshot))) (Some "wireguard-device")
    (Some (traffic_available snapshot)) (BigInt <$> rx_bytes snapshot) (BigInt <$> tx_bytes snapshot)
    (Some (BigInt (memory_runtime_sys_bytes snapshot))) (Some hash) (Some now).

Definition from_outcome {S A} (o : outcome A) : eff S A :=
  match o with Ok a => eff_ret a | Throw st m => throw st m end.

(** The answer is [duplicate]. *)
Definition record (sha256 : string → string) (nodeId : string) (credentialId : option string) (body : jsval) (now : Z) :
    eff Control.t bool :=
  match credentialId with
  | None => throw (Some 401) "Native telemetry requires an authenticated node credential"
  | Some credId =>
      if (credId =? "")%string then throw (Some 401) "Native telemetry requires an authenticated node credential" else
      snapshot <-! from_outcome (normalize body) ;
      let hash := sha256 (default "" (JSON_stringify (snapshot_value snapshot))) in
      atomically (
        s <-! get ;
        match identity (db s) nodeId with
        | None => throw (Some 404) "Unknown telemetry node"
        | Some (n, u, o) =>
            if Node.is_quarantined n || negb (User.status u =? "active")%string ||
               match Org.destroyed_at o with Some _ => true | None => false end
            then throw (Some 403) "Telemetry owner or node is not active" else
            if negb (existsb (λ c, (Credential.id c =? credId)%string && (Credential.node_id c =? nodeId)%string &&
                                   match Credential.revoked_at c with None => true | Some _ => false end &&
                                   (now <? Credential.expires_at c)) (Db.node_credentials (db s)))
            then throw (Some 401) "Node credential no longer valid" else
            match select1 (λ r, (NativeRow.node_id r =? nodeId)%string) (native s) with
            | None => throw (Some 409) SESSION_CHANGED
            | Some prior =>
                if negb ((NativeRow.session_id prior =? session_id snapshot)%string &&
                         (NativeRow.user_id prior =? Node.user_id n)%string &&
                         (NativeRow.organization_id prior =? Acl.org_of n)%string)
                then throw (Some 409) SESSION_CHANGED else
                duplicate <-! from_outcome (ordered snapshot hash prior) ;
                if duplicate : bool then eff_ret true else
                modify (λ s, s <| native ::= update_where (λ r, (NativeRow.node_id r =? nodeId)%string)
                                              (observed snapshot hash now) |>) ;!
                eff_ret false
            end
        end)
  end.

(** *** Reading *)

Record reading := mk_reading {
  r_node_id : string; version : option Z; status : string; generation : option string; row : option NativeRow.t;
}.

(** The observation of the node while it belonged to its present owner. *)
Definition observation (s : Control.t) (n : Node.t) : option NativeRow.t :=
  select1 (λ t, (NativeRow.node_id t =? Node.id n)%string && (NativeRow.organization_id t =? Acl.org_of n)%string &&
                (NativeRow.user_id t =? Node.user_id n)%string) (native s).

Definition status_at (now : Z) (received_at : option Z) : string :=
  match received_at with
  | None => "unknown"
  | Some t => if (0 <=? now - t) && (now - t <=? FRESHNESS_SECONDS * 1000) then "fresh" else "stale"
  end.

Definition reading_of (now : Z) (s : Control.t) (n : Node.t) : reading :=
  let t := observation s n in
  let received := t ≫= NativeRow.received_at in
  mk_reading (Node.id n) ((λ _, 1) <$> received) (status_at now received)
    (t ≫= λ t, _ ← received; Some (NativeRow.session_id t +:+ ":" +:+ default "null" (pretty <$> NativeRow.counter_epoch t)))
    t.

Definition readWhere {Coll : Collation} (visible : Node.t → bool) (now : Z) (s : Control.t) : list reading :=
  reading_of now s <$> Order.js_sort (λ a b, collate (Node.id a) (Node.id b)) (where_ visible (Db.nodes (db s))).

(** The nodes of rows authorised earlier, while the ownership is the one authorised. *)
Definition readForNodes {Coll : Collation} (authorizedRows : list Node.t) (now : Z) (s : Control.t) : list reading :=
  match authorizedRows with
  | [] => []
  | _ => readWhere (λ n, existsb (λ a, (Node.id a =? Node.id n)%string && (Acl.org_of a =? Acl.org_of n)%string &&
                                       (Node.user_id a =? Node.user_id n)%string) authorizedRows) now s
  end.
End NativeTelemetry.

(** ** Who sees which nodes: [services/FleetVisibility.js] *)

Module FleetVisibility.

Definition ORG_READERS : list string := ["owner"; "admin"; "network_admin"; "auditor"].

Record scope := mk_scope { organizationId : option string; userId : option string }.

Definition user_org (u : User.t) : string := coalesce (User.organization_id u) "org-default".

Definition resolveMetricsScope (user : string) (selectedOrganization : option string) (d : Db.t) : outcome scope :=
  match select1 (λ u, (User.id u =? user)%string) (Db.users d) with
  | None => Throw (Some 403) "Active statistics account required"
  | Some actor =>
      if negb (User.status actor =? "active")%string then Throw (Some 403) "Active statistics account required"
      else if (User.role actor =? "super-admin")%string
      then Ok (mk_scope (s ← selectedOrganization; if (s =? "")%string then None else Some s) None)
      else
        let membership := select1 (λ m, (Membership.user_id m =? User.id actor)%string &&
                                        (Membership.organization_id m =? user_org actor)%string) (Db.memberships d) in
        let reader := match membership with
                      | Some m => bool_decide (Membership.role m ∈ ORG_READERS) | None => false end in
        Ok (mk_scope (Some (user_org actor)) (if reader then None else Some (User.id actor)))
  end.

Definition hidden (d : Db.t) (n : Node.t) : bool :=
  match select1 (λ c, (Compartment.id c =? Acl.EFFECTIVE_COMPARTMENT n)%string) (Db.compartments d) with
  | Some c => Compartment.is_hidden c
  | None => false
  end.

Definition nodeVisibility (accessTier : string) (sc : scope) (d : Db.t) (n : Node.t) : bool :=
  ((accessTier =? "root")%string || negb (hidden d n)) &&
  match organizationId sc with Some o => (Acl.org_of n =? o)%string | None => true end &&
  match userId sc with Some u => (Node.user_id n =? u)%string | None => true end.

Definition read {Coll : Collation} (accessTier : string) (sc : scope) (now : Z) (s : Control.t) :
    list NativeTelemetry.reading :=
  NativeTelemetry.readWhere (nodeVisibility accessTier sc (Control.db s)) now s.
End FleetVisibility.

(** ** The node *)

Module Sampler.

Definition MaxUint64 : Z := 2 ^ 64 - 1.

(** The part of [dataplane.PeerStatus] the sampler reads. *)
Record PeerStatus := mk_peer { PublicKey : string; RxBytes : Z; TxBytes : Z }.

Record telemetrySampler := mk_sampler {
  epoch : Z; deviceEpoch : Z; previous : gmap string PeerStatus; available : bool; initialized : bool;
}.

Definition newTelemetrySampler : telemetrySampler := mk_sampler 1 0 ∅ false false.

(** A snapshot before the client numbers it; counters only while available. *)
Record measured := mk_measured { CounterEpoch : Z; Traffic : option (Z * Z); MemorySys : Z }.

(** The loop over the peers: totals, the map of them, and whether a counter started
    again; [None] when a total leaves 64 bits. *)
Fixpoint sum_peers (s : telemetrySampler) (peers : list PeerStatus) (rx tx : Z) (next : gmap string PeerStatus)
    (reset : bool) : option (Z * Z * gmap string PeerStatus * bool) :=
  match peers with
  | [] => Some (rx, tx, next, reset)
  | peer :: rest =>
      if (MaxUint64 - rx <? RxBytes peer) || (MaxUint64 - tx <? TxBytes peer) then None else
      let restarted := initialized s &&
        match previous s !! PublicKey peer with
        | None => true
        | Some p => (RxBytes peer <? RxBytes p) || (TxBytes peer <? TxBytes p)
        end in
      sum_peers s rest (rx + RxBytes peer) (tx + TxBytes peer) (<[PublicKey peer := peer]> next) (reset || restarted)
  end.

(** [read] is what the device answered: its peers and its epoch, or an error. *)
Definition snapshot (read : option (list PeerStatus * Z)) (sys : Z) (s : telemetrySampler) :
    option measured * telemetrySampler :=
  let isAvailable := match read with Some _ => true | None => false end in
  let peers := match read with Some (ps, _) => ps | None => [] end in
  let device := match read with Some (_, e) => e | None => 0 end in
  let reset0 := initialized s && (negb (Bool.eqb (available s) isAvailable) ||
                                  (isAvailable && negb (deviceEpoch s =? device))) in
  match sum_peers s peers 0 0 ∅ reset0 with
  | None => (None, s)
  | Some (rx, tx, next, reset1) =>
      let reset := reset1 || (isAvailable && initialized s && negb (Nat.eqb (size next) (size (previous s)))) in
      if reset && (epoch s =? MaxUint64) then (None, s) else
      let epoch' := if reset then epoch s + 1 else epoch s in
      (Some (mk_measured epoch' (if isAvailable then Some (rx, tx) else None) sys),
       mk_sampler epoch' device next isAvailable true)
  end.
End Sampler.

(** ** The client *)

Module Client.
Import Sampler.

Definition Millisecond : Z := 10 ^ 6.

Record t := mk { lastRTT : Z; telemetrySession : string; telemetrySeq : Z }.

Definition recordRTT (d : Z) (c : t) : t := c <| lastRTT := d |>.

(** Durations are nanoseconds in 64 signed bits, and their division truncates. *)
Definition int64 (z : Z) : Z := (z + 2 ^ 63) mod 2 ^ 64 - 2 ^ 63.
Definition lastRTTMillis (c : t) : Z :=
  let d := lastRTT c in
  if d <=? 0 then 0 else
  let ms := Z.quot (int64 (d + Millisecond - 1)) Millisecond in
  if 60000 <? ms then 60000 else Bytes.uint 32 ms.

(** The observation and the number it is sent under. *)
Record observation := mk_observation { SessionID : string; Sequence : Z; Measured : measured }.

(** [sampled] is the answer of the source: a measurement or an error.  The result is
    what the heartbeat carries, if anything. *)
Definition nativeTelemetry (sampled : option measured) (c : t) : option observation * t :=
  if (telemetrySession c =? "")%string then (None, c) else
  match sampled with
  | None => (None, c)
  | Some m =>
      if telemetrySeq c =? MaxUint64 then (None, c) else
      let c' := c <| telemetrySeq ::= Z.succ |> in
      (Some (mk_observation (telemetrySession c') (telemetrySeq c') m), c')
  end.

(** What a completed registration leaves. *)
Definition registered (TelemetrySession : string) (c : t) : t :=
  c <| telemetrySession := TelemetrySession |> <| telemetrySeq := 0 |>.

(** The JSON of the observation, [fmt.Sprint] of the numbers and empty counters omitted. *)
Definition observation_body (o : observation) : jsval :=
  JObj ([("version", JNum (of_Z 1)); ("session_id", JStr (SessionID o)); ("sequence", JStr (pretty (Sequence o)));
         ("counter_epoch", JStr (pretty (CounterEpoch (Measured o)))); ("source", JStr "wireguard-device");
         ("traffic_available", JBool (bool_decide (is_Some (Traffic (Measured o)))))] ++
        (match Traffic (Measured o) with
         | Some (rx, tx) => [("rx_bytes", JStr (pretty rx)); ("tx_bytes", JStr (pretty tx))]
         | None => [] end) ++
        [("memory_runtime_sys_bytes", JStr (pretty (MemorySys (Measured o))))]).
End Client.
