(* ===== verification/TelemetryFacts.v ===== *)
(** * Theorems on native telemetry

    [TelemetryFacts]: what the control plane stores never goes backwards.
    [Reporting]: the node's sampler and client and the control plane, composed: whatever
    the device reports and whichever beats are lost or repeated, no observation of a
    registered node is refused. *)

From S2P Require Import Prelude Order Js Encoding Json Db Acl Totp Bytes Netfilter Telemetry.

Module TelemetryFacts.
Import Control NativeTelemetry.

(** *** Decimal texts *)

Lemma digit_char_value (d : N) : (d < 10)%N → is_digit (pretty_N_char d) = true ∧ code (pretty_N_char d) - 48 = Z.of_N d.
Proof.
  intros H. assert (d ∈ [0; 1; 2; 3; 4; 5; 6; 7; 8; 9]%N) as Hd.
  { rewrite !list_elem_of_In. cbn. lia. }
  repeat (apply elem_of_cons in Hd as [->|Hd]; [vm_compute; split; reflexivity|]). by apply elem_of_nil in Hd.
Qed.

Lemma take_digits_go x s k : ∃ k', take_digits (pretty_N_go x s) 0 k = take_digits s (Z.of_N x) k'.
Proof.
  revert s k. induction (N.lt_wf_0 x) as [x _ IH]. intros s k.
  destruct (decide (x = 0)%N) as [->|Hx]; [rewrite pretty_N_go_0; eauto|].
  rewrite pretty_N_go_step by lia. destruct (IH (x `div` 10)%N) with (s := String (pretty_N_char (x `mod` 10)) s) (k := k) as [k' ->].
  { apply N.div_lt; lia. }
  destruct (digit_char_value (x `mod` 10)) as [Hd Hv]; [apply N.mod_lt; lia|]. cbn [take_digits]. rewrite Hd, Hv. eexists. f_equal.
  pose proof (N.div_mod x 10 ltac:(lia)). lia.
Qed.

Lemma pretty_go_lead x s : (0 < x)%N → ∃ c r, pretty_N_go x s = String c r ∧ Ascii.eqb c "0" = false.
Proof.
  revert s. induction (N.lt_wf_0 x) as [x _ IH]. intros s Hx. rewrite pretty_N_go_step by lia.
  destruct (decide (x `div` 10 = 0)%N) as [E|E].
  - rewrite E, pretty_N_go_0. eexists _, _. split; [done|]. apply N.div_small_iff in E; [|lia]. rewrite N.mod_small by done.
    destruct (Ascii.eqb _ _) eqn:Ec; [|done]. apply Ascii.eqb_eq in Ec. destruct (digit_char_value x E) as [_ Hv].
    rewrite Ec in Hv. vm_compute (code "0" - 48) in Hv. lia.
  - apply IH; [apply N.div_lt; lia|by apply N.neq_0_lt_0].
Qed.

Lemma decimal_text z : 0 <= z <= MAX_UINT64 → canonical_decimal (pretty z) = true ∧ BigInt (pretty z) = z.
Proof.
  intros Hz. destruct z as [|p|p]; [done| |lia].
  assert (len (pretty (Z.pos p)) <= 20) as Hl. { apply TotpFacts.len_pretty; [lia|]. unfold MAX_UINT64 in Hz. lia. }
  pose proof (NetfilterFacts.pretty_digits (Z.pos p) ltac:(lia)) as Hd.
  assert (pretty (Z.pos p) = pretty_N_go (N.pos p) "") as E.
  { unfold pretty, pretty_Z, pretty, pretty_positive, pretty, pretty_N. by case_decide. }
  rewrite E in *. split.
  - destruct (pretty_go_lead (N.pos p) "") as (c & r & Ep & Hc); [lia|]. rewrite Ep in *. cbn [canonical_decimal all_chars] in *.
    rewrite Hc. b2p. unfold len in *. cbn [String.length] in Hl. repeat match goal with H : _ = true |- _ => rewrite H end. cbn [andb]. lia.
  - unfold BigInt. destruct (take_digits_go (N.pos p) "" 0) as [k' ->]. done.
Qed.

Lemma BigInt_pretty z : 0 <= z <= MAX_UINT64 → BigInt (pretty z) = z.
Proof. apply decimal_text. Qed.

Lemma uint64_pretty z name positive : (if positive : bool then 1 else 0) <= z <= MAX_UINT64 → uint64 (JStr (pretty z)) name positive = Ok (pretty z).
Proof.
  intros Hz. destruct (decimal_text z) as [Hc Hv]; [destruct positive; lia|]. unfold uint64. rewrite Hc, Hv. cbn [negb].
  rewrite (proj2 (Z.ltb_ge _ _)) by lia. cbn [orb]. destruct positive; [|done]. cbn [andb]. by rewrite (proj2 (Z.eqb_neq _ _)) by lia.
Qed.

(** *** What is stored does not go backwards *)

(** One row after another of the same session. *)
Definition advances (r r' : NativeRow.t) : Prop :=
  NativeRow.node_id r' = NativeRow.node_id r ∧ NativeRow.session_id r' = NativeRow.session_id r ∧
  ∀ n, NativeRow.sequence r = Some n → ∃ n', NativeRow.sequence r' = Some n' ∧ n <= n' ∧
    (n = n' → r' = r) ∧ default 0 (NativeRow.counter_epoch r) <= default 0 (NativeRow.counter_epoch r').

Lemma advances_refl r : advances r r.
Proof. split_and!; [done..|]. intros n Hn. exists n. split_and!; [done|lia|done|lia]. Qed.

Lemma advances_trans r1 r2 r3 : advances r1 r2 → advances r2 r3 → advances r1 r3.
Proof.
  intros (I1 & S1 & H1) (I2 & S2 & H2). split_and!; [congruence..|]. intros n Hn. destruct (H1 n Hn) as (n2 & E2 & L2 & Q2 & C2).
  destruct (H2 n2 E2) as (n3 & E3 & L3 & Q3 & C3). exists n3. split_and!; [done|lia| |lia]. intros ->.
  assert (n2 = n3) as -> by lia. rewrite Q3 by done. by apply Q2.
Qed.

(** An accepted observation is new, and its counters continue the ones before it. *)
Definition continues (sn : snapshot) (r : NativeRow.t) : Prop := ∀ n, NativeRow.sequence r = Some n →
  n < BigInt (sequence sn) ∧ default 0 (NativeRow.counter_epoch r) <= BigInt (counter_epoch sn) ∧
  (NativeRow.counter_epoch r = Some (BigInt (counter_epoch sn)) → NativeRow.traffic_available r = Some true → traffic_available sn = true →
   default 0 (NativeRow.rx_bytes r) <= BigInt (default "" (rx_bytes sn)) ∧ default 0 (NativeRow.tx_bytes r) <= BigInt (default "" (tx_bytes sn))).

Lemma ordered_false sn h r : ordered sn h r = Ok false → continues sn r.
Proof.
  unfold ordered. intros H n Hn. rewrite Hn in H. destruct (_ && bool_decide _) eqn:E1; [done|].
  destruct (_ <=? 0) eqn:E2; [done|]. destruct (_ <? 0) eqn:E3; [done|]. destruct (_ && _ && _ && _) eqn:E4; [done|].
  clear E1 H. b2p. split_and!; [lia|lia|]. intros Ec Et Ea. rewrite Ec, Et, Ea in E4. cbn [default] in E4.
  rewrite Z.sub_diag in E4. change (0 =? 0) with true in E4. change (default false (Some true)) with true in E4. cbn [andb] in E4. b2p.
  destruct E4 as [E4|E4]; [done|]. b2p. lia.
Qed.

Lemma observed_advances sn h now r : continues sn r → advances r (observed sn h now r).
Proof.
  intros Hc. split_and!; [done..|]. intros n Hn. destruct (Hc n Hn) as (Hlt & He & _). eexists. split; [done|]. cbn. split_and!; [lia|lia|lia].
Qed.

(** The rows a call leaves: each one where it was, or moved forward. *)
Definition rows_advance (s s' : Control.t) : Prop := db s' = db s ∧ Forall2 advances (native s) (native s').

Lemma record_cases sha256 nodeId cred body now s o s' : NoDup (NativeRow.node_id <$> native s) →
  record sha256 nodeId cred body now s = (o, s') →
  match o with
  | Ok false => ∃ sn prior, normalize body = Ok sn ∧ prior ∈ native s ∧ NativeRow.node_id prior = nodeId ∧
      NativeRow.session_id prior = session_id sn ∧ continues sn prior ∧
      s' = s <| native ::= update_where (λ r, (NativeRow.node_id r =? nodeId)%string)
                             (observed sn (sha256 (default "" (JSON_stringify (snapshot_value sn)))) now) |>
  | _ => s' = s
  end.
Proof.
  intros Hn H. unfold record in H. destruct cred as [credId|]; [|by unfold throw in H; simplify_eq].
  destruct (credId =? "")%string; [by unfold throw in H; simplify_eq|]. unfold from_outcome in H at 1.
  destruct (normalize body) as [sn|st m] eqn:En; [|by unfold eff_bind, throw in H; simplify_eq]. unfold eff_bind at 1, eff_ret at 1 in H. cbv beta iota zeta in H.
  unfold atomically in H. unfold eff_bind at 1, get at 1 in H. cbv beta iota in H.
  destruct (identity (db s) nodeId) as [[[n u] og]|]; [|by unfold throw in H; simplify_eq].
  destruct (_ || _ || _); [by unfold throw in H; simplify_eq|]. destruct (negb (existsb _ _)); [by unfold throw in H; simplify_eq|].
  destruct (select1 _ (native s)) as [prior|] eqn:Ep; [|by unfold throw in H; simplify_eq].
  destruct (negb _) eqn:Es; [by unfold throw in H; simplify_eq|].
  destruct (ordered _ _ prior) as [[]|st m] eqn:Eo; unfold from_outcome, eff_bind, eff_ret, throw, modify in H; simplify_eq; [done| |done].
  apply select1_elem in Ep as [Ei Hin]. b2p. exists sn, prior. split_and!; try done. by eapply ordered_false.
Qed.

Lemma update_advances p f l : (∀ r, r ∈ l → p r = true → advances r (f r)) → Forall2 advances l (update_where p f l).
Proof.
  induction l as [|r l IH]; intros H; [constructor|]. unfold update_where. cbn. constructor; [|apply IH; set_solver].
  destruct (p r) eqn:E; [apply H; [left|done]|apply advances_refl].
Qed.

Lemma record_advances sha256 nodeId cred body now s : NoDup (NativeRow.node_id <$> native s) →
  rows_advance s (record sha256 nodeId cred body now s).2.
Proof.
  intros Hn. destruct (record _ _ _ _ _ _) as [o s'] eqn:E. apply record_cases in E; [|done]. cbn [snd].
  assert (rows_advance s s) as Hr by (split; [done|]; apply Forall_Forall2_diag, Forall_true; intros; apply advances_refl).
  destruct o as [[]|st m]; subst; try done. destruct E as (sn & prior & _ & Hin & Hid & _ & Hc & ->).
  split; [done|]. apply (update_advances _ _ (native s)). intros r Hr' Ei. b2p.
  apply observed_advances. assert (r = prior) as ->; [|done]. apply (NoDup_fmap_inj NativeRow.node_id (native s)); congruence.
Qed.

(** *** Histories *)

Inductive call :=
  | Observe (nodeId : string) (cred : option string) (body : jsval) (now : Z)
  | Restart (uuid nodeId : string).

Definition call_on (sha256 : string → string) (c : call) (s : Control.t) : Control.t :=
  match c with
  | Observe nodeId cred body now => (record sha256 nodeId cred body now s).2
  | Restart uuid nodeId => (startSession uuid nodeId s).2
  end.

Definition restarts (id : string) (c : call) : bool :=
  match c with Restart _ nodeId => (nodeId =? id)%string | Observe _ _ _ _ => false end.

Lemma startSession_run uuid nodeId s : startSession uuid nodeId s =
  (Ok uuid, match select1 (λ n, (Node.id n =? nodeId)%string) (Db.nodes (db s)) with
            | None => s | Some n => s <| native ::= upsert_session (session_row uuid n) |> end).
Proof. unfold startSession, eff_bind, get, eff_ret, modify. by destruct (select1 _ _). Qed.

Lemma restart_rows uuid nodeId s :
  native (startSession uuid nodeId s).2 = native s ∨
  ∃ row, NativeRow.node_id row = nodeId ∧ native (startSession uuid nodeId s).2 = upsert_session row (native s).
Proof.
  rewrite startSession_run. destruct (select1 _ _) as [n|] eqn:E; [right|by left]. apply select1_elem in E as [E _]. b2p.
  exists (session_row uuid n). by split.
Qed.

Lemma existsb_node id l : existsb (λ r, (NativeRow.node_id r =? id)%string) l = true ↔ id ∈ NativeRow.node_id <$> l.
Proof.
  rewrite existsb_exists, list_elem_of_fmap. split.
  - intros (r & Hr & E). b2p. apply list_elem_of_In in Hr. by exists r.
  - intros (r & -> & Hr). exists r. split; [by apply list_elem_of_In|apply String.eqb_refl].
Qed.

Lemma call_nodup sha256 c s : NoDup (NativeRow.node_id <$> native s) → NoDup (NativeRow.node_id <$> native (call_on sha256 c s)).
Proof.
  intros Hn. destruct c as [nodeId cred body now|uuid nodeId]; cbn [call_on].
  - destruct (record_advances sha256 nodeId cred body now s Hn) as [_ Hf].
    replace (NativeRow.node_id <$> native (record sha256 nodeId cred body now s).2) with (NativeRow.node_id <$> native s); [done|].
    clear Hn. induction Hf as [|r r' l l' (Hid & _) _ IH]; [done|]. cbn. by rewrite Hid, IH.
  - destruct (restart_rows uuid nodeId s) as [->|(row & Hid & ->)]; [done|]. unfold upsert_session. rewrite Hid.
    destruct (existsb _ _) eqn:E.
    + replace (NativeRow.node_id <$> update_where _ _ (native s)) with (NativeRow.node_id <$> native s); [done|].
      unfold update_where. rewrite <- list_fmap_compose. apply list_fmap_ext. intros i r _. cbn.
      destruct (NativeRow.node_id r =? nodeId)%string eqn:Ei; b2p; congruence.
    + rewrite fmap_app. apply NoDup_app. split_and!; [done| |apply NoDup_singleton]. intros x Hx Hx'. cbn in Hx'.
      apply list_elem_of_singleton in Hx' as ->. rewrite Hid in Hx. apply existsb_node in Hx. congruence.
Qed.

Lemma call_advances sha256 id c s r : NoDup (NativeRow.node_id <$> native s) → r ∈ native s → NativeRow.node_id r = id → restarts id c = false →
  ∃ r', r' ∈ native (call_on sha256 c s) ∧ advances r r'.
Proof.
  intros Hn Hr Hid Hc. destruct c as [nodeId cred body now|uuid nodeId]; cbn [call_on restarts] in *.
  - destruct (record_advances sha256 nodeId cred body now s Hn) as [_ Hf].
    apply list_elem_of_lookup in Hr as [i Hi]. destruct (Forall2_lookup_l _ _ _ i r Hf Hi) as (r' & Hr' & Ha). exists r'. split; [by eapply list_elem_of_lookup_2|done].
  - exists r. split; [|apply advances_refl]. b2p. destruct (restart_rows uuid nodeId s) as [->|(row & Hrow & ->)]; [done|]. unfold upsert_session. rewrite Hrow.
    destruct (existsb _ _); [|set_solver]. apply elem_of_update. exists r. split; [done|].
    destruct (NativeRow.node_id r =? nodeId)%string eqn:Ei; b2p; congruence.
Qed.

(** Observations never go backwards.  Along every history of observations by any nodes
    with any bodies, and of registrations of other nodes, the row of a node keeps its
    session, its sequence number and its counter epoch only grow, and as long as the
    number is the same the row is the same. *)
Theorem telemetry_monotone sha256 id es s r :
  NoDup (NativeRow.node_id <$> native s) → r ∈ native s → NativeRow.node_id r = id →
  forallb (λ c, negb (restarts id c)) es = true →
  ∃ r', r' ∈ native (foldl (λ s c, call_on sha256 c s) s es) ∧ advances r r'.
Proof.
  revert s r. induction es as [|c es IH]; intros s r Hn Hr Hid He; [exists r; split; [done|apply advances_refl]|].
  cbn [forallb] in He. b2p. destruct (call_advances sha256 id c s r) as (r1 & Hr1 & Ha); [done..|].
  destruct (IH (call_on sha256 c s) r1) as (r2 & Hr2 & Ha2); [by apply call_nodup|done|by destruct Ha as [-> _]|done|].
  exists r2. split; [done|]. by eapply advances_trans.
Qed.
End TelemetryFacts.

(** ** The sampler *)

Module SamplerFacts.
Import Sampler.

(** A later measurement of the same node: the epoch does not go back, and within an
    epoch neither do the totals. *)
Definition later (m m' : measured) : Prop :=
  CounterEpoch m <= CounterEpoch m' ∧
  (CounterEpoch m = CounterEpoch m' →
   match Traffic m, Traffic m' with
   | Some (rx, tx), Some (rx', tx') => rx <= rx' ∧ tx <= tx'
   | None, None => True
   | _, _ => False
   end).

Lemma later_refl m : later m m.
Proof. split; [lia|]. intros _. destruct (Traffic m) as [[]|]; [lia|done]. Qed.

Lemma later_trans m1 m2 m3 : later m1 m2 → later m2 m3 → later m1 m3.
Proof.
  intros [L1 H1] [L2 H2]. split; [lia|]. intros E. assert (CounterEpoch m1 = CounterEpoch m2) as E1 by lia.
  assert (CounterEpoch m2 = CounterEpoch m3) as E2 by lia. specialize (H1 E1). specialize (H2 E2).
  destruct (Traffic m1) as [[]|], (Traffic m2) as [[]|], (Traffic m3) as [[]|]; try done. lia.
Qed.

Definition total (f : PeerStatus → Z) (l : list PeerStatus) : Z := foldr (λ p acc, f p + acc) 0 l.

Lemma total_perm f l l' : l ≡ₚ l' → total f l = total f l'.
Proof. unfold total. induction 1; cbn; lia. Qed.

Lemma total_nonneg f l : Forall (λ p, 0 <= f p) l → 0 <= total f l.
Proof. unfold total. induction 1; cbn; lia. Qed.

Definition index (ps : list PeerStatus) (m : gmap string PeerStatus) : gmap string PeerStatus :=
  foldl (λ m p, <[PublicKey p := p]> m) m ps.

Lemma index_other ps m k : k ∉ PublicKey <$> ps → index ps m !! k = m !! k.
Proof.
  revert m. induction ps as [|p ps IH]; intros m Hk; [done|]. cbn in *. unfold index in IH. rewrite IH by set_solver.
  apply lookup_insert_ne. set_solver.
Qed.

Lemma index_lookup ps m p : NoDup (PublicKey <$> ps) → p ∈ ps → index ps m !! PublicKey p = Some p.
Proof.
  revert m. induction ps as [|q ps IH]; intros m Hn Hp; [set_solver|]. cbn in *. apply NoDup_cons in Hn as [Hq Hn].
  apply elem_of_cons in Hp as [->|Hp]; [|by apply IH].
  fold (index ps (<[PublicKey q := q]> m)). rewrite index_other by done. apply lookup_insert_eq.
Qed.

Lemma index_size ps m : NoDup (PublicKey <$> ps) → (∀ p, p ∈ ps → m !! PublicKey p = None) → size (index ps m) = (size m + length ps)%nat.
Proof.
  revert m. induction ps as [|q ps IH]; intros m Hn Hm; [cbn; lia|]. cbn in *. apply NoDup_cons in Hn as [Hq Hn].
  unfold index in IH. rewrite IH; [|done|].
  - rewrite map_size_insert_None by (apply Hm; left). lia.
  - intros p Hp. rewrite lookup_insert_ne; [apply Hm; by right|]. intros E. apply Hq. rewrite E. by apply list_elem_of_fmap_2.
Qed.

(** What the loop over the peers computes. *)
Lemma sum_peers_spec s ps rx tx next reset rx' tx' next' reset' :
  sum_peers s ps rx tx next reset = Some (rx', tx', next', reset') →
  rx' = rx + total RxBytes ps ∧ tx' = tx + total TxBytes ps ∧ next' = index ps next ∧
  (rx <= MaxUint64 → rx' <= MaxUint64) ∧ (tx <= MaxUint64 → tx' <= MaxUint64) ∧
  (reset' = false → reset = false ∧ (initialized s = true → ∀ p, p ∈ ps →
     ∃ q, previous s !! PublicKey p = Some q ∧ RxBytes q <= RxBytes p ∧ TxBytes q <= TxBytes p)).
Proof.
  revert rx tx next reset. induction ps as [|p ps IH]; intros rx tx next reset; cbn [sum_peers].
  { intros [= <- <- <- <-]. cbn. split_and!; [lia|lia|done|done|done|]. intros ->. split; [done|]. intros _ p Hp. by apply elem_of_nil in Hp. }
  destruct (_ || _) eqn:Eo; [done|]. intros H. apply IH in H as (-> & -> & -> & Hb1 & Hb2 & Hr). b2p.
  change (total RxBytes (p :: ps)) with (RxBytes p + total RxBytes ps). change (total TxBytes (p :: ps)) with (TxBytes p + total TxBytes ps).
  split_and!; [lia|lia|done|intros; apply Hb1; lia|intros; apply Hb2; lia|]. intros Hf. apply Hr in Hf as [Hf Hps]. apply orb_false_iff in Hf as [Hf Hc].
  split; [done|]. intros Hi q Hq. apply elem_of_cons in Hq as [->|Hq]; [|by apply Hps].
  rewrite Hi in Hc. cbn [andb] in Hc.
  destruct (previous s !! PublicKey p) as [q|]; [|done]. b2p. exists q. split; [done|]. lia.
Qed.

(** The sampler after a measurement [m]: it remembers the peers that made it. *)
Definition reflects (s : telemetrySampler) (m : measured) : Prop :=
  initialized s = true ∧ epoch s = CounterEpoch m ∧
  match Traffic m with
  | Some (rx, tx) => available s = true ∧ ∃ ps, NoDup (PublicKey <$> ps) ∧ previous s = index ps ∅ ∧
                       rx = total RxBytes ps ∧ tx = total TxBytes ps
  | None => available s = false
  end.

(** A reading of the device: distinct peers with 64-bit counters. *)
Definition device_reading (read : option (list PeerStatus * Z)) : Prop :=
  match read with
  | Some (ps, _) => NoDup (PublicKey <$> ps) ∧ Forall (λ p, 0 <= RxBytes p ∧ 0 <= TxBytes p) ps
  | None => True
  end.

(** The same peers, none of whose counters went back. *)
Lemma same_peers_total (f : PeerStatus → Z) ps ps' : NoDup (PublicKey <$> ps) → NoDup (PublicKey <$> ps') →
  length ps' = length ps →
  (∀ p, p ∈ ps' → ∃ q, index ps ∅ !! PublicKey p = Some q ∧ f q <= f p) → total f ps <= total f ps'.
Proof.
  intros Hn Hn' El Hall. set (old p := default p (index ps ∅ !! PublicKey p)).
  assert (∀ p, p ∈ ps' → old p ∈ ps ∧ PublicKey (old p) = PublicKey p ∧ f (old p) <= f p) as Hold.
  { intros p Hp. destruct (Hall p Hp) as (q & Eq & Hle). unfold old. rewrite Eq. cbn.
    destruct (decide (PublicKey p ∈ PublicKey <$> ps)) as [Hk|Hk].
    - apply list_elem_of_fmap in Hk as (q' & Ek & Hq'). rewrite Ek, (index_lookup _ _ _ Hn Hq') in Eq. injection Eq as <-. done.
    - by rewrite index_other in Eq. }
  assert (old <$> ps' ≡ₚ ps) as Hp.
  { apply submseteq_length_Permutation; [|rewrite length_fmap; lia]. apply NoDup_submseteq.
    - apply (NoDup_fmap_1 PublicKey). rewrite <- list_fmap_compose.
      replace ((PublicKey ∘ old) <$> ps') with (PublicKey <$> ps'); [done|]. apply list_fmap_ext. intros i p Hi.
      apply list_elem_of_lookup_2 in Hi. cbn. by destruct (Hold p Hi) as (_ & -> & _).
    - intros q Hq. apply list_elem_of_fmap in Hq as (p & -> & Hp). by apply Hold. }
  rewrite <- (total_perm f _ _ Hp). clear -Hold. unfold total. induction ps' as [|p ps' IH]; [done|]. cbn.
  destruct (Hold p) as (_ & _ & Hle); [left|]. assert (total f (old <$> ps') <= total f ps'); [|unfold total in *; lia].
  apply IH. intros q Hq. apply Hold. by right.
Qed.

Definition uint64_range (z : Z) : Prop := 0 <= z <= MaxUint64.

Definition measured_ok (m : measured) : Prop :=
  1 <= CounterEpoch m <= MaxUint64 ∧
  match Traffic m with Some (rx, tx) => uint64_range rx ∧ uint64_range tx | None => True end.

Lemma snapshot_error read sys s s' : snapshot read sys s = (None, s') → s' = s.
Proof. unfold snapshot. destruct (sum_peers _ _ _ _ _ _) as [[[[rx tx] next] r]|]; [|congruence]. destruct (_ && _); congruence. Qed.

(** A measurement is in range, and later than the one the sampler remembers. *)
Lemma snapshot_later read sys s m s' : device_reading read → 1 <= epoch s <= MaxUint64 → snapshot read sys s = (Some m, s') →
  reflects s' m ∧ measured_ok m ∧ MemorySys m = sys ∧ ∀ m0, reflects s m0 → later m0 m.
Proof.
  intros Hd He. unfold snapshot.
  destruct (sum_peers _ _ _ _ _ _) as [[[[rx tx] next] r1]|] eqn:Es; [|done].
  apply sum_peers_spec in Es as (-> & -> & -> & Hb1 & Hb2 & Hr1). unfold MaxUint64 in Hb1, Hb2.
  set (ps := match read with Some (ps, _) => ps | None => [] end) in *. set (av := match read with Some _ => true | None => false end) in *.
  set (reset := r1 || _). destruct (reset && _) eqn:Ee; [done|]. intros [= <- <-]. cbn [CounterEpoch Traffic MemorySys].
  assert (NoDup (PublicKey <$> ps) ∧ Forall (λ p, 0 <= RxBytes p ∧ 0 <= TxBytes p) ps) as [Hn Hp].
  { subst ps. destruct read as [[l e]|]; [done|]. split; constructor. }
  assert (0 <= total RxBytes ps) by (apply total_nonneg; eapply Forall_impl; [exact Hp|]; tauto).
  assert (0 <= total TxBytes ps) by (apply total_nonneg; eapply Forall_impl; [exact Hp|]; tauto).
  assert (1 <= (if reset then epoch s + 1 else epoch s) <= MaxUint64) as Hep.
  { destruct reset; [|done]. cbn [andb] in Ee. b2p. unfold MaxUint64 in *. lia. }
  split; [|split]; [| |split; [done|]].
  - split; [done|]. split; [done|]. cbn [Traffic]. destruct av eqn:Ea; [|done]. split; [done|]. exists ps. by rewrite !Z.add_0_l.
  - split; [exact Hep|]. cbn [Traffic]. destruct av; [|done]. unfold uint64_range, MaxUint64 in *. lia.
  - intros m0 (Hi & He0 & Ht). cbn [CounterEpoch]. split; [rewrite <- He0; cbn [CounterEpoch]; destruct reset; lia|].
    cbn [CounterEpoch Traffic]. rewrite <- He0. intros E. destruct reset eqn:Er; [lia|]. unfold reset in Er. apply orb_false_iff in Er as [Er1 Er2].
    apply Hr1 in Er1 as [Er0 Hold]. rewrite Hi in Er0, Er2. cbn [andb] in Er0. apply orb_false_iff in Er0 as [Eav _]. apply negb_false_iff, Bool.eqb_prop in Eav.
    destruct (Traffic m0) as [[rx0 tx0]|]; [|by rewrite Ht in Eav; rewrite <- Eav].
    destruct Ht as (Ha & ps0 & Hn0 & Hprev & -> & ->). rewrite Ha in Eav. rewrite <- Eav in Er2 |- *. cbn [andb] in Er2.
    apply negb_false_iff, Nat.eqb_eq in Er2. rewrite Hprev, !index_size in Er2 by (done || intros; apply lookup_empty).
    rewrite map_size_empty in Er2. specialize (Hold Hi). rewrite Hprev in Hold.
    split; apply same_peers_total; try done; intros p Hp'; destruct (Hold p Hp') as (q & ? & ? & ?); eauto.
Qed.
End SamplerFacts.

(** ** From the device to the database *)

Module Reporting.
Import Control NativeTelemetry TelemetryFacts Sampler SamplerFacts Client.

Record world := mk_world { sampler : telemetrySampler; client : Client.t; server : Control.t }.

(** A registration, answered with a new session; or a beat: what the device reports, and
    the instants at which copies of the heartbeat reach the control plane (none when it
    is lost). *)
Inductive event :=
  | Register (uuid : string)
  | Beat (read : option (list PeerStatus * Z)) (sys : Z) (arrivals : list Z).

Section Run.
Context (sha256 : string → string) (nodeId credId : string).

Fixpoint deliver (body : jsval) (arrivals : list Z) (s : Control.t) : list (outcome bool) * Control.t :=
  match arrivals with
  | [] => ([], s)
  | now :: rest =>
      let '(o, s1) := record sha256 nodeId (Some credId) body now s in
      let '(os, s2) := deliver body rest s1 in (o :: os, s2)
  end.

(** The answers of the control plane to one event. *)
Definition happens (e : event) (w : world) : list (outcome bool) * world :=
  match e with
  | Register uuid => ([], mk_world (sampler w) (registered uuid (client w)) (startSession uuid nodeId (server w)).2)
  | Beat read sys arrivals =>
      if (telemetrySession (client w) =? "")%string then ([], w) else
      let '(m, sm) := snapshot read sys (sampler w) in
      let '(o, cl) := nativeTelemetry m (client w) in
      match o with
      | None => ([], mk_world sm cl (server w))
      | Some ob => let '(os, sv) := deliver (observation_body ob) arrivals (server w) in (os, mk_world sm cl sv)
      end
  end.

Fixpoint answers (es : list event) (w : world) : list (list (outcome bool)) :=
  match es with [] => [] | e :: rest => (happens e w).1 :: answers rest (happens e w).2 end.

(** The node is enrolled, its owner and organisation active, its credential live until
    [expiry]. *)
Definition enrolled (d : Db.t) (n : Node.t) (expiry : Z) : Prop :=
  Node.id n = nodeId ∧ select1 (λ n, (Node.id n =? nodeId)%string) (Db.nodes d) = Some n ∧ credId ≠ "" ∧ Node.is_quarantined n = false ∧
  (∃ u o, identity d nodeId = Some (n, u, o) ∧ User.status u = "active" ∧ Org.destroyed_at o = None) ∧
  ∃ c, c ∈ Db.node_credentials d ∧ Credential.id c = credId ∧ Credential.node_id c = nodeId ∧
    Credential.revoked_at c = None ∧ Credential.expires_at c = expiry.

Definition sound_event (expiry : Z) (e : event) : Prop :=
  match e with
  | Register uuid => is_uuid uuid = true
  | Beat read sys arrivals => device_reading read ∧ uint64_range sys ∧ Forall (λ now, now < expiry) arrivals
  end.

(** *** The wire *)

Definition snapshot_of (ob : observation) : NativeTelemetry.snapshot :=
  mk_snapshot (SessionID ob) (pretty (Sequence ob)) (pretty (CounterEpoch (Measured ob)))
    (bool_decide (is_Some (Traffic (Measured ob))))
    (pretty ∘ fst <$> Traffic (Measured ob)) (pretty ∘ snd <$> Traffic (Measured ob)) (pretty (MemorySys (Measured ob))).

Definition observation_ok (ob : observation) : Prop :=
  is_uuid (SessionID ob) = true ∧ 1 <= Sequence ob <= MaxUint64 ∧ measured_ok (Measured ob) ∧ uint64_range (MemorySys (Measured ob)).

Lemma observation_fields ob : let b := observation_body ob in let tr := Traffic (Measured ob) in
  field "version" b = JNum (of_Z 1) ∧ field "source" b = JStr "wireguard-device" ∧
  field "traffic_available" b = JBool (bool_decide (is_Some tr)) ∧ field "session_id" b = JStr (SessionID ob) ∧
  field "sequence" b = JStr (pretty (Sequence ob)) ∧ field "counter_epoch" b = JStr (pretty (CounterEpoch (Measured ob))) ∧
  field "rx_bytes" b = (match tr with Some (rx, _) => JStr (pretty rx) | None => JUndef end) ∧
  field "tx_bytes" b = (match tr with Some (_, tx) => JStr (pretty tx) | None => JUndef end) ∧
  field "memory_runtime_sys_bytes" b = JStr (pretty (MemorySys (Measured ob))).
Proof. destruct ob as [session seq [ep [[rx tx]|] sys]]; repeat split. Qed.

(** The control plane reads what the client wrote. *)
Lemma normalize_observation ob : observation_ok ob → normalize (observation_body ob) = Ok (snapshot_of ob).
Proof.
  intros (Hu & Hs & [He Ht] & Hm). unfold uint64_range in *. change MaxUint64 with MAX_UINT64 in *.
  destruct (observation_fields ob) as (F1 & F2 & F3 & F4 & F5 & F6 & F7 & F8 & F9).
  unfold normalize. rewrite F1, F2, F3, F4, F5, F6, F9, Hu. change (num_eqb (of_Z 1) (of_Z 1) && ("wireguard-device" =? "wireguard-device")%string && true) with true.
  cbn [negb]. rewrite !uint64_pretty by lia. unfold counter_of. rewrite F7, F8. unfold snapshot_of.
  destruct (Traffic (Measured ob)) as [[rx tx]|]; cbn [bind_outcome bool_decide decide]; [|done].
  rewrite bool_decide_eq_true_2 by eauto. cbn [bind_outcome]. rewrite !uint64_pretty by lia. done.
Qed.

(** *** The control plane's row *)

Definition hash_of (ob : observation) : string := sha256 (default "" (JSON_stringify (snapshot_value (snapshot_of ob)))).

(** The row holds the observation. *)
Definition holds_observation (r : NativeRow.t) (ob : observation) : Prop :=
  NativeRow.sequence r = Some (Sequence ob) ∧ NativeRow.counter_epoch r = Some (CounterEpoch (Measured ob)) ∧
  NativeRow.traffic_available r = Some (bool_decide (is_Some (Traffic (Measured ob)))) ∧
  NativeRow.rx_bytes r = fst <$> Traffic (Measured ob) ∧ NativeRow.tx_bytes r = snd <$> Traffic (Measured ob) ∧
  NativeRow.payload_hash r = Some (hash_of ob).

Lemma observed_holds ob now r : observation_ok ob → holds_observation (observed (snapshot_of ob) (hash_of ob) now r) ob.
Proof.
  intros (_ & Hs & [He Ht] & _). unfold holds_observation, observed, snapshot_of, uint64_range in *. change MaxUint64 with MAX_UINT64 in *. cbn.
  rewrite !BigInt_pretty by lia. split_and!; try done; destruct (Traffic (Measured ob)) as [[rx tx]|]; try done; cbn;
    by rewrite BigInt_pretty by lia.
Qed.

Lemma ordered_repeated ob r : observation_ok ob → holds_observation r ob → ordered (snapshot_of ob) (hash_of ob) r = Ok true.
Proof.
  intros (_ & Hs & _) (Es & _ & _ & _ & _ & Eh). unfold ordered. rewrite Es, Eh. change MaxUint64 with MAX_UINT64 in Hs. cbn [sequence snapshot_of].
  rewrite BigInt_pretty by lia. rewrite Z.sub_diag, bool_decide_eq_true_2 by done. done.
Qed.

Lemma ordered_fresh ob r : NativeRow.sequence r = None → ordered (snapshot_of ob) (hash_of ob) r = Ok false.
Proof. intros E. unfold ordered. by rewrite E. Qed.

Lemma ordered_later ob ob' r : observation_ok ob' → holds_observation r ob → Sequence ob < Sequence ob' → later (Measured ob) (Measured ob') →
  ordered (snapshot_of ob') (hash_of ob') r = Ok false.
Proof.
  intros (_ & Hs & [He Ht] & _) (Es & Ee & Ea & Er & Et & _) Hlt [Hle Hsame]. unfold ordered. rewrite Es, Ee, Ea, Er, Et.
  unfold uint64_range in *. change MaxUint64 with MAX_UINT64 in *. cbn [sequence counter_epoch traffic_available rx_bytes tx_bytes snapshot_of].
  rewrite !BigInt_pretty by lia. rewrite (proj2 (Z.eqb_neq _ 0)) by lia. rewrite (proj2 (Z.leb_gt _ 0)) by lia. cbn [andb default].
  rewrite (proj2 (Z.ltb_ge _ 0)) by (cbn; lia). destruct (_ =? 0) eqn:E0; [|done]. cbn [andb]. b2p. specialize (Hsame ltac:(cbn in E0; lia)).
  destruct (Traffic (Measured ob)) as [[rx tx]|], (Traffic (Measured ob')) as [[rx' tx']|]; try done.
  cbn. rewrite !BigInt_pretty by lia. rewrite !(proj2 (Z.ltb_ge _ _)) by (cbn; lia). done.
Qed.

Definition mine (r : NativeRow.t) : bool := (NativeRow.node_id r =? nodeId)%string.

Lemma select1_mine_update f l r : (∀ r, NativeRow.node_id (f r) = NativeRow.node_id r) → select1 mine l = Some r → select1 mine (update_where mine f l) = Some (f r).
Proof.
  intros Hf. unfold select1, update_where. induction l as [|x l IH]; [done|]. cbn [fmap list_fmap]. rewrite !where_cons.
  destruct (mine x) eqn:E; [|by rewrite E]. assert (mine (f x) = true) as -> by (unfold mine in *; by rewrite Hf). by intros [= ->].
Qed.

(** The row of this session, of the node's present owner. *)
Definition session_row_of (n : Node.t) (session : string) (s : Control.t) (r : NativeRow.t) : Prop :=
  select1 mine (native s) = Some r ∧ NativeRow.session_id r = session ∧
  NativeRow.user_id r = Node.user_id n ∧ NativeRow.organization_id r = Acl.org_of n.

Lemma record_run n expiry ob now s r dup : enrolled (db s) n expiry → now < expiry → observation_ok ob →
  session_row_of n (SessionID ob) s r → ordered (snapshot_of ob) (hash_of ob) r = Ok dup →
  record sha256 nodeId (Some credId) (observation_body ob) now s =
    (Ok dup, if dup : bool then s else s <| native ::= update_where mine (observed (snapshot_of ob) (hash_of ob) now) |>).
Proof.
  intros (Hid & _ & Hc0 & Hq & (u & o & Hi & Hu & Ho) & (c & Hc & <- & Hcn & Hrev & <-)) Hnow Hok (Hr & Hse & Hus & Hor) Hord.
  unfold record. rewrite (proj2 (String.eqb_neq _ _)) by done. rewrite (normalize_observation _ Hok). unfold from_outcome at 1, eff_bind at 1, eff_ret at 1. cbv beta iota zeta.
  unfold atomically, eff_bind at 1, get at 1. cbv beta iota. rewrite Hi, Hq, Hu, Ho. change (negb ("active" =? "active")%string) with false. cbn [orb].
  match goal with |- context [existsb ?p ?l] => assert (existsb p l = true) as -> end.
  { apply existsb_exists. exists c. split; [by apply list_elem_of_In|]. rewrite Hcn, Hrev, !String.eqb_refl. cbn [andb]. lia. }
  cbn [negb]. change (λ r, (NativeRow.node_id r =? nodeId)%string) with mine. rewrite Hr, Hse, Hus, Hor. cbn [session_id snapshot_of]. rewrite !String.eqb_refl.
  cbn [andb negb]. fold (hash_of ob). rewrite Hord. destruct dup; reflexivity.
Qed.

(** *** Every beat *)

(** Not refused: taken once, its copies recognised. *)
Definition taken (os : list (outcome bool)) : Prop := os = [] ∨ ∃ k, os = Ok false :: replicate k (Ok true).

Section Node.
Context (n : Node.t) (expiry : Z).

Lemma deliver_repeated ob arrivals s r : enrolled (db s) n expiry → Forall (λ now, now < expiry) arrivals → observation_ok ob →
  session_row_of n (SessionID ob) s r → holds_observation r ob →
  deliver (observation_body ob) arrivals s = (replicate (length arrivals) (Ok true), s).
Proof.
  intros He Ha Hok Hr Hh. induction Ha as [|now rest Hnow _ IH]; [done|]. cbn [deliver].
  rewrite (record_run n expiry ob now s r true) by (done || by apply ordered_repeated). by rewrite IH.
Qed.

Lemma deliver_taken ob arrivals s r : enrolled (db s) n expiry → Forall (λ now, now < expiry) arrivals → observation_ok ob →
  session_row_of n (SessionID ob) s r → ordered (snapshot_of ob) (hash_of ob) r = Ok false →
  let '(os, s') := deliver (observation_body ob) arrivals s in
  taken os ∧ db s' = db s ∧ ∃ r', session_row_of n (SessionID ob) s' r' ∧ (r' = r ∨ holds_observation r' ob).
Proof.
  intros He Ha Hok Hr Hord. destruct Ha as [|now rest Hnow Ha]; cbn [deliver].
  { split; [by left|]. split; [done|]. exists r. auto. }
  rewrite (record_run n expiry ob now s r false) by done. set (s1 := s <| native ::= _ |>). set (r1 := observed (snapshot_of ob) (hash_of ob) now r).
  assert (session_row_of n (SessionID ob) s1 r1) as Hr1.
  { destruct Hr as (H1 & H2 & H3 & H4). split_and!; [|done..]. by apply (select1_mine_update (observed (snapshot_of ob) (hash_of ob) now)). }
  assert (holds_observation r1 ob) as Hh by (by apply observed_holds).
  rewrite (deliver_repeated ob rest s1 r1) by done. split; [right; eauto|]. split; [done|]. eauto.
Qed.

Record in_step (w : world) : Prop := {
  st_enrolled : enrolled (db (server w)) n expiry;
  st_epoch : 1 <= epoch (sampler w) <= MaxUint64;
  st_seq : 0 <= telemetrySeq (client w) <= MaxUint64;
  st_session : telemetrySession (client w) ≠ "" → is_uuid (telemetrySession (client w)) = true ∧
    ∃ r, session_row_of n (telemetrySession (client w)) (server w) r ∧
      (NativeRow.sequence r = None ∨ ∃ ob m, holds_observation r ob ∧ Sequence ob <= telemetrySeq (client w) ∧
         reflects (sampler w) m ∧ later (Measured ob) m);
}.

Lemma upsert_selects row l : NativeRow.node_id row = nodeId → select1 mine (upsert_session row l) = Some row.
Proof.
  intros E. unfold upsert_session. rewrite E. change (λ r, (NativeRow.node_id r =? nodeId)%string) with mine.
  assert (mine row = true) as Hm by (unfold mine; rewrite E; apply String.eqb_refl).
  unfold select1, update_where. induction l as [|x l IH]; cbn [existsb fmap list_fmap app]; [by rewrite where_cons, Hm|].
  destruct (mine x) eqn:Ex; cbn [orb].
  - by rewrite where_cons, Hm.
  - destruct (existsb mine l); cbn [fmap list_fmap app]; rewrite ?Ex, where_cons, Ex; exact IH.
Qed.

Lemma register_in_step uuid w : in_step w → is_uuid uuid = true → in_step (happens (Register uuid) w).2.
Proof.
  intros [He Hep Hseq _] Hu. pose proof He as (Hid & Hsel & _). cbn [happens snd]. rewrite startSession_run, Hsel. cbn [snd].
  split; [done|done|change (0 <= 0 <= MaxUint64); unfold MaxUint64; lia|]. intros _. split; [done|]. exists (session_row uuid n). split; [|by left].
  split; [by apply (upsert_selects (session_row uuid n) (native (server w)))|done].
Qed.

(** A beat is taken, and the three parts stay in step. *)
Lemma beat_in_step read sys arrivals w : in_step w → sound_event expiry (Beat read sys arrivals) →
  taken (happens (Beat read sys arrivals) w).1 ∧ in_step (happens (Beat read sys arrivals) w).2.
Proof.
  intros Hw (Hd & Hsys & Ha). pose proof Hw as [He Hep Hseq Hses]. cbn [happens]. destruct (telemetrySession (client w) =? "")%string eqn:Et.
  { split; [by left|done]. }
  b2p. destruct (Hses Et) as (Hu & r & Hr & Hrow). destruct (snapshot read sys (sampler w)) as [m sm] eqn:Es. unfold nativeTelemetry. rewrite (proj2 (String.eqb_neq _ _)) by done.
  destruct m as [m|]; [|apply snapshot_error in Es as ->; split; [by left|by destruct w]].
  destruct (snapshot_later read sys (sampler w) m sm Hd Hep Es) as (Hrefl & Hm & Hms & Hlater).
  assert (1 <= epoch sm <= MaxUint64) as Hep' by (destruct Hrefl as (_ & -> & _); apply Hm).
  destruct (telemetrySeq (client w) =? MaxUint64) eqn:Emax; b2p.
  { split; [by left|]. split; try done. intros _. split; [done|]. exists r. split; [done|]. destruct Hrow as [?|(ob & m0 & ? & ? & ? & ?)]; [by left|right].
    exists ob, m. split_and!; try done. by eapply later_trans; [|apply Hlater]. }
  set (cl := (client w) <| telemetrySeq ::= Z.succ |>). set (ob := mk_observation _ _ m).
  assert (telemetrySeq cl = Z.succ (telemetrySeq (client w))) as Ecl by done. assert (Sequence ob = Z.succ (telemetrySeq (client w))) as Eob by done.
  assert (observation_ok ob) as Hok by (split; [done|]; split; [lia|]; split; [done|]; by cbn [ob Measured]; rewrite Hms).
  assert (ordered (snapshot_of ob) (hash_of ob) r = Ok false) as Hord.
  { destruct Hrow as [E|(ob0 & m0 & Hh & Hs0 & Hr0 & Hl0)]; [by apply ordered_fresh|]. apply (ordered_later ob0); [done|done|lia|].
    by eapply later_trans; [|apply Hlater]. }
  pose proof (deliver_taken ob arrivals (server w) r He Ha Hok Hr Hord) as Hdel. destruct (deliver _ _ _) as [os sv]. destruct Hdel as (Htk & Hdb & r' & Hr' & Hcase).
  cbn [fst snd]. split; [done|]. split; cbn [server client sampler]; [by rewrite Hdb|done|lia|]. intros _. split; [done|]. exists r'. split; [done|].
  destruct Hcase as [->|Hh]; [|right; exists ob, m; split_and!; [done|lia|done|apply later_refl]].
  destruct Hrow as [?|(ob0 & m0 & ? & ? & ? & ?)]; [by left|right]. exists ob0, m. split_and!; [done|lia|done|by eapply later_trans; [|apply Hlater]].
Qed.

Lemma answers_taken es w : in_step w → Forall (sound_event expiry) es → Forall taken (answers es w).
Proof.
  intros Hw He. revert w Hw. induction He as [|e es He _ IH]; intros w Hw; cbn [answers]; [constructor|].
  assert (taken (happens e w).1 ∧ in_step (happens e w).2) as [Ht Hw']; [|constructor; [done|by apply IH]].
  destruct e as [uuid|read sys arrivals]; [|by apply beat_in_step]. split; [by left|by apply register_in_step].
Qed.
End Node.

End Run.

(** The round trip reported is the one measured, rounded up to a millisecond and capped
    at a minute: 0 only when nothing was measured. *)
Lemma rtt_rounded_up c : 0 < lastRTT c <= 2 ^ 63 - Millisecond →
  let ms := lastRTTMillis c in
  1 <= ms <= 60000 ∧ (ms - 1) * Millisecond < lastRTT c ∧ (ms < 60000 → lastRTT c <= ms * Millisecond).
Proof.
  intros Hd. unfold lastRTTMillis, int64, Millisecond in *. rewrite (proj2 (Z.leb_gt _ _)) by lia.
  rewrite (Z.mod_small (_ + _)) by lia. rewrite Z.quot_div_nonneg by lia. set (ms := (_ - 2 ^ 63) / _).
  assert ((ms - 1) * 10 ^ 6 < lastRTT c <= ms * 10 ^ 6) by (unfold ms; dlia). cbv zeta. destruct (60000 <? ms) eqn:E; b2p; [lia|].
  unfold Bytes.uint. rewrite Z.mod_small by lia. lia.
Qed.
End Reporting.

(** ** Samples *)
Module TelemetrySamples.
Import Control NativeTelemetry TelemetryFacts Sampler SamplerFacts Client Reporting.

Definition node : Node.t := Eval vm_compute in AclSample.node "n1" "100.64.0.1" (Some "org-a") None.
Definition db0 : Db.t := Eval vm_compute in
  Db.empty <| Db.nodes := [node] |> <| Db.users := [User.mk (Node.user_id node) "ann" "admin" "active" (Some "org-a")] |>
    <| Db.organizations := [Org.plain "org-a" "a" "accept"] |>
    <| Db.node_credentials := [Credential.mk "nc_1" "n1" "h" 1000 None None] |>.
Definition s0 : Control.t := Control.mk db0 [] ∅ 1.
Definition uuid : string := "00000000-0000-4000-8000-00000000000a".

(** A peer seen, then restarted; the device gone for a beat; a lost heartbeat; one
    delivered twice. *)
Definition beats : list event :=
  [Register uuid; Beat (Some ([mk_peer "k" 5 7], 0)) 9 [10; 11]; Beat (Some ([mk_peer "k" 6 7], 0)) 9 [];
   Beat (Some ([mk_peer "k" 1 1], 0)) 9 [30]; Beat None 9 [40]; Beat (Some ([mk_peer "k" 2 1; mk_peer "m" 0 0], 0)) 9 [50]].

Lemma sample_enrolled : enrolled "n1" "nc_1" (db s0) node 1000.
Proof.
  split_and!; [done|reflexivity|done|reflexivity| |].
  - eexists _, _. split; [vm_compute; reflexivity|]. split; reflexivity.
  - exists (Credential.mk "nc_1" "n1" "h" 1000 None None). split; [left|]. split_and!; reflexivity.
Qed.

Lemma sample_answers : answers (λ x, x) "n1" "nc_1" beats (mk_world newTelemetrySampler (Client.mk 0 "" 0) s0) =
  [[]; [Ok false; Ok true]; []; [Ok false]; [Ok false]; [Ok false]].
Proof. vm_compute. reflexivity. Qed.

Ltac each := repeat (apply Forall_cons; split; [cbn; lia|]); apply Forall_nil_2.
Lemma sample_sound : Forall (sound_event 1000) beats.
Proof.
  unfold beats. repeat (apply Forall_cons; split); try apply Forall_nil_2; [vm_compute; reflexivity|..];
    (split; [|split; [unfold uint64_range, MaxUint64; lia|each]]); try exact I;
    (split; [apply (bool_decide_unpack _); vm_compute; exact I|each]).
Qed.


Definition snap (seq : string) : jsval := JObj [("version", JNum (of_Z 1)); ("session_id", JStr uuid); ("sequence", JStr seq);
  ("counter_epoch", JStr "1"); ("source", JStr "wireguard-device"); ("traffic_available", JBool false);
  ("memory_runtime_sys_bytes", JStr "9")].
Definition s1 : Control.t := Eval vm_compute in
  (record (λ x, x) "n1" (Some "nc_1") (snap "4") 20 (startSession uuid "n1" s0).2).2.
Definition r1 : NativeRow.t := Eval vm_compute in default (session_row uuid node) (head (native s1)).

Lemma telemetry_monotone_witness : ∃ r', r' ∈ native (foldl (λ s c, call_on (λ x, x) c s) s1
    [Observe "n1" (Some "nc_1") (snap "3") 30; Observe "n1" (Some "nc_1") (snap "8") 40; Restart uuid "n2"]) ∧ advances r1 r'.
Proof.
  apply (telemetry_monotone (λ x, x) "n1"); [vm_compute; apply NoDup_singleton|vm_compute; left|reflexivity|vm_compute; reflexivity].
Defined.

(** An observation without counters forgets them: after it, smaller counters are
    accepted in the same epoch. *)
Definition counted (seq rx : string) : jsval := JObj [("version", JNum (of_Z 1)); ("session_id", JStr uuid); ("sequence", JStr seq);
  ("counter_epoch", JStr "1"); ("source", JStr "wireguard-device"); ("traffic_available", JBool true);
  ("rx_bytes", JStr rx); ("tx_bytes", JStr rx); ("memory_runtime_sys_bytes", JStr "9")].
Definition observe (b : jsval) (s : Control.t) : outcome bool * Control.t := record (λ x, x) "n1" (Some "nc_1") b 20 s.
Example unavailable_forgets_counters : let s := (observe (counted "5" "100") s1).2 in
  (observe (counted "6" "1") s).1 = Throw (Some 409) "Counter decreased without a new epoch" ∧
  (observe (counted "7" "1") (observe (snap "6") s).2).1 = Ok false.
Proof. vm_compute. split; reflexivity. Qed.
End TelemetrySamples.
