(* ===== verification/Bridge.v ===== *)
(** * The node control API: [console/backend/routes/goBridge.js]

    The handlers a node talks to: challenge, registration, heartbeat, discovery, and the
    three synchronisations.  They compose the services modelled elsewhere: [Challenge],
    [Enrol], [Revocation], [Vip], [Endpoints], [Acl], [Routes], [Netmap], [Heartbeat] and
    [Telemetry].

    A request body has passed the JSON schema of its endpoint (Ajv, third-party code);
    nothing here relies on that.  Random draws, the clock and the environment are
    arguments.  [float4] is PostgreSQL's conversion of a number to a REAL column. *)

From S2P Require Import Prelude Order Js Encoding Json Db Vip Acl Routes Revocation Endpoints Permit Netmap Enrol Heartbeat.
From S2P Require Import Bytes Primitives Challenge Telemetry.

Module Bridge.
Import Control.

(** ** Numbers *)

(** [a - b] on finite numbers. *)
Definition num_sub (a b : num) : num :=
  match a, b with
  | Fin m e, Fin m' e' =>
      let k := Z.min e e' in
      let z := Z.shiftl m (e - k) - Z.shiftl m' (e' - k) in
      let r := round_ratio (Z.abs z * 2 ^ Z.max 0 k) (2 ^ Z.max 0 (- k)) in
      if z =? 0 then Fin 0 0 else if z <? 0 then num_neg r else r
  | _, _ => NaN
  end.
Definition num_abs (a : num) : num := if num_ltb a (of_Z 0) then num_neg a else a.

Definition MAX_SAFE_INTEGER : num := of_Z (2 ^ 53 - 1).

Definition clampNumber (value : jsval) (min max fallback : num) : num :=
  let n := js_Number value in
  if negb (isFinite n) then fallback else
  let low := if num_ltb n min then min else n in
  if num_ltb max low then max else low.

(** [String(v || d)] *)
Definition string_or (v : jsval) (d : string) : string := js_String (js_or v (JStr d)).
(** [String(v || '').trim()] *)
Definition trimmed (v : jsval) : string := trim (string_or v "").

(** ** What a registration declares *)

Definition COORDINATE_TOLERANCE : num := round_ratio 1 1000.

Definition absent (v : jsval) : bool := match v with JUndef | JNull => true | _ => false end.

Definition parseDeclaredCoordinates (capability : jsval) : string + option (num * num) :=
  let lat := field "latitude" capability in
  let lon := field "longitude" capability in
  if absent lat && absent lon then inr None
  else if absent lat || absent lon then inl "latitude and longitude must be declared together"
  else match lat, lon with
       | JNum la, JNum lo =>
           if negb (isFinite la && isFinite lo) then inl "latitude and longitude must be numbers"
           else if num_ltb la (of_Z (-90)) || num_ltb (of_Z 90) la || num_ltb lo (of_Z (-180)) || num_ltb (of_Z 180) lo
           then inl "latitude must be within [-90, 90] and longitude within [-180, 180]"
           else inr (Some (la, lo))
       | _, _ => inl "latitude and longitude must be numbers"
       end.

Record declaration := mk_declaration {
  d_role : string; d_ipClass : string; d_countryCode : string; d_declared : option (num * num);
}.

Record mismatch := mk_mismatch { m_changed : list string; m_stored : jsval; m_requested : jsval }.

(** The columns of an enrolled node against what it asks for. *)
Definition describeMismatch (role : string) (stored : Columns.t) (requested : declaration) : option mismatch :=
  let base := (if (role =? d_role requested)%string then [] else ["role"]) ++
              (if (Columns.ip_class stored =? d_ipClass requested)%string then [] else ["ip_class"]) ++
              (if (Columns.country_code stored =? d_countryCode requested)%string then [] else ["country_code"]) in
  let moved := match d_declared requested, Columns.latitude stored, Columns.longitude stored with
               | Some (la, lo), Some sla, Some slo =>
                   num_ltb COORDINATE_TOLERANCE (num_abs (num_sub sla la)) ||
                   num_ltb COORDINATE_TOLERANCE (num_abs (num_sub slo lo))
               | _, _, _ => false
               end in
  let changed := base ++ (if moved then ["latitude"; "longitude"] else []) in
  let place la lo := if moved then [("latitude", JNum (default NaN la)); ("longitude", JNum (default NaN lo))] else [] in
  match changed with
  | [] => None
  | _ => Some (mk_mismatch changed
      (JObj ([("role", JStr role); ("ip_class", JStr (Columns.ip_class stored)); ("country_code", JStr (Columns.country_code stored))]
             ++ place (Columns.latitude stored) (Columns.longitude stored)))
      (JObj ([("role", JStr (d_role requested)); ("ip_class", JStr (d_ipClass requested)); ("country_code", JStr (d_countryCode requested))]
             ++ place (fst <$> d_declared requested) (snd <$> d_declared requested))))
  end.

(** ** The store of the handlers *)

Record audit_event := mk_audit { eventType : string; targetId : string; message : string; metadata : option mismatch }.

Record state := mk_state {
  control : Control.t;
  challenges : ControlPlaneKey.store;
  buffer : Heartbeat.valkey;
  audit : list audit_event;
}.

(** A response: the document, or an error status with its message. *)
Inductive response (A : Type) := Answer (a : A) | Refuse (status : Z) (error : string).
Arguments Answer {A} a.
Arguments Refuse {A} status error.

(** [err.status || 500] *)
Definition status_or_500 (st : option Z) : Z := match st with Some n => if n =? 0 then 500 else n | None => 500 end.

(** [EnrollmentService.transaction]: a rollback keeps only what the address counter drew. *)
Definition transaction {A} (m : eff Control.t A) : eff Control.t A :=
  λ s, match m s with
       | (Ok a, s') => (Ok a, s')
       | (Throw st msg, s') => (Throw st msg, s <| overlay_vip_seq := overlay_vip_seq s' |>)
       end.

(** [allocateNextVip(client)] on the counter and the rows. *)
Definition allocate : eff Control.t Vip.vip :=
  λ s, let '(o, a) := Vip.allocateNextVip (Vip.mk_allocator (overlay_vip_seq s) (Db.nodes (db s))) in
       (o, s <| overlay_vip_seq := Vip.overlay_vip_seq a |>).

Definition denied {A} (status : Z) (message : string) : eff Control.t A := throw (Some status) message.

(** ** Registration *)

Definition ROLES : list string := ["CLIENT_ORIGIN"; "EXIT_BRIDGE"; "HYBRID"; "RELAY"].
Definition IP_CLASSES : list string := ["RESIDENTIAL"; "MOBILE_5G"; "DATACENTER"; "UNKNOWN"].

Definition REVOKED_KEY : string := "this key has been revoked".

Record registered := mk_registered {
  assigned_node_id : string; overlay_ipv4 : string; overlay_ipv6 : string; lease_expiry_utc : Z;
  policy_epoch : Z; route_epoch : Z; credential : string; credential_expires_at : Z; telemetry_session : string;
}.

(** The random draws of one registration. *)
Record draws := mk_draws { rnd : string; rnd_id : string; uuid : string }.

(** The row an INSERT proposes, the columns not named at their defaults. *)
Definition proposed_row (nodeId ownerId name role publicKeyHex v4 v6 : string) (endpoints : jsval) (org : string) : Node.t :=
  Node.mk nodeId ownerId name publicKeyHex v4 v6 role endpoints true false None None (of_Z 0) 0 0
    (of_Z 0) (of_Z 0) (of_Z 100) (JObj []) None (Some org) None "wireguard" JNull "off" None.

(** The length limits and CHECKs of the table, which hold of the proposed row whether it
    is inserted or not. *)
Definition row_checked (n : Node.t) (c : Columns.t) : bool :=
  (len (Node.id n) <=? 64) && (len (Node.user_id n) <=? 64) && (len (Node.name n) <=? 128) && (len (Node.public_key n) <=? 128) &&
  bool_decide (Node.role n ∈ ROLES) && bool_decide (Columns.ip_class c ∈ IP_CLASSES) &&
  (len (Columns.country_code c) <=? 2) && (len (Columns.city c) <=? 128) &&
  negb (includes_char "000" (Columns.country_code c)) && negb (includes_char "000" (Columns.city c)) &&
  match pg_int (Columns.asn c) with Some _ => true | None => false end.

(** The UNIQUE columns and foreign keys of an inserted row. *)
Definition row_insertable (d : Db.t) (n : Node.t) : bool :=
  negb (existsb (λ x, (Node.public_key x =? Node.public_key n)%string || (Node.overlay_ipv4 x =? Node.overlay_ipv4 n)%string ||
                      (Node.overlay_ipv6 x =? Node.overlay_ipv6 n)%string) (Db.nodes d)) &&
  existsb (λ u, (User.id u =? Node.user_id n)%string) (Db.users d) &&
  match Node.organization_id n with
  | Some o => existsb (λ x, (Org.id x =? o)%string) (Db.organizations d) | None => true end.

(** INSERT INTO nodes ... ON CONFLICT (id) DO UPDATE SET is_healthy = TRUE. *)
Definition upsert_node (n : Node.t) (c : Columns.t) : eff Control.t unit :=
  s <-! get ;
  if negb (row_checked n c) then db_error
  else if existsb (λ x, (Node.id x =? Node.id n)%string) (Db.nodes (db s))
  then on_db (modify (λ d, d <| Db.nodes ::= update_where (λ x, (Node.id x =? Node.id n)%string)
                                              (λ x, x <| Node.is_healthy := true |>) |>))
  else if row_insertable (db s) n
  then modify (λ s, s <| db ::= (λ d, d <| Db.nodes ::= λ l, l ++ [n] |>) |> <| columns ::= insert (Node.id n) c |>)
  else db_error.

Section Handlers.
Context {Coll : Collation} {Loc : Locale} {cr : Crypto} (cfg : Endpoints.config)
  (hmac_sha256 : list Z → list Z → list Z) (sha256 : string → string) (float4 : num → num).

Record environment := mk_environment {
  IS_PRODUCTION : bool; NAMESPACE : string;
  (** [SOVEREIGN_REGISTRATION_TOKEN] and [SOVEREIGN_GO_BRIDGE_OWNER_ID], empty when unset *)
  registration_token : string; bridge_owner : string;
  plane : ControlPlaneKey.keypair;
}.
Context (env : environment).

Definition columns_of (s : Control.t) (id : string) : Columns.t := default Columns.plain (columns s !! id).

(** [created] orders the accounts; the rows are kept in that order. *)
Definition resolveOwnerId : eff Control.t string :=
  s <-! get ;
  match (if (bridge_owner env =? "")%string then None
         else select1 (λ u, (User.id u =? bridge_owner env)%string) (Db.users (db s))) with
  | Some u => eff_ret (User.id u)
  | None =>
      match select1 (λ u, (User.role u =? "super-admin")%string) (Db.users (db s)) with
      | Some u => eff_ret (User.id u)
      | None => denied 503 "no super-admin account exists to own enrolled nodes"
      end
  end.

(** The owner a registration is for, and the organisation its pre-auth key names. *)
Definition authority (req : NodeAuth.request) (preauthKey role : string) (existing : option Node.t) (now : Z) :
    eff Control.t (string * option string) :=
  if negb (preauthKey =? "")%string then
    r <-! on_db (PreAuth.validateAndConsumePreAuthKey sha256 (JStr preauthKey) (Some role) (Node.user_id <$> existing) now) ;
    match r with
    | PreAuth.PakDenied st e => denied (if st =? 0 then 401 else st) e
    | PreAuth.PakOk key =>
        let ownerId := PreAuthKey.owner_id key in
        match existing with
        | Some n =>
            if negb (Node.user_id n =? "")%string && negb (Node.user_id n =? ownerId)%string
            then denied 403 "pre-auth key owner does not match existing node owner"
            else eff_ret (ownerId, PreAuth.some_text (PreAuthKey.organization_id key))
        | None => eff_ret (ownerId, PreAuth.some_text (PreAuthKey.organization_id key))
        end
    end
  else match existing with
       | Some n =>
           if (Node.user_id n =? "")%string then (o <-! resolveOwnerId ; eff_ret (o, None))
           else eff_ret (Node.user_id n, None)
       | None =>
           match NodeAuth.checkEnrolmentToken (registration_token env) (IS_PRODUCTION env) req with
           | NodeAuth.AuthDenied st e => denied st e
           | _ => o <-! resolveOwnerId ; eff_ret (o, None)
           end
       end.

(** The organisation the node is enrolled in. *)
Definition organization (preauthKey ownerId : string) (keyOrg : option string) (existing : option Node.t) : eff Control.t string :=
  match existing with
  | Some n =>
      let enrolled := Enrollment.text_or (Node.organization_id n) "org-default" in
      match keyOrg with
      | Some o =>
          if negb (preauthKey =? "")%string && negb (o =? enrolled)%string
          then denied 403 "pre-auth key organization does not match existing node organization"
          else eff_ret enrolled
      | None => eff_ret enrolled
      end
  | None =>
      match keyOrg with
      | Some o => eff_ret o
      | None =>
          s <-! get ;
          let own := if (ownerId =? "")%string then None
                     else u ← select1 (λ u, (User.id u =? ownerId)%string) (Db.users (db s)); User.organization_id u in
          eff_ret (Enrollment.text_or own "org-default")
      end
  end.

(** The position, written while the row has none. *)
Definition declare_position (nodeId city : string) (p : option (num * num)) : eff Control.t unit :=
  match p with
  | None => eff_ret tt
  | Some (la, lo) =>
      modify (λ s,
        let c := columns_of s nodeId in
        match Columns.latitude c, Columns.longitude c with
        | None, None =>
            s <| columns ::= insert nodeId
              (c <| Columns.latitude := Some (float4 la) |> <| Columns.longitude := Some (float4 lo) |>
                 <| Columns.city := (if (Columns.city c =? "")%string then city else Columns.city c) |>
                 <| Columns.location_declared := true |>) |>
        | _, _ => s
        end)
  end.

(** Whether the peers must fetch again, and the version moved accordingly. *)
Definition announce (existing : option Node.t) (endpointsChanged versionAdvanced : bool) : eff Control.t unit :=
  match existing with
  | None => on_db (Acl.bumpEpoch "acl") ;! eff_ret tt
  | Some n =>
      if versionAdvanced then eff_ret tt else
      let revived := negb (Node.is_healthy n) && negb (Node.is_quarantined n) in
      if endpointsChanged || revived then (on_db Acl.bumpNetmap ;! eff_ret tt) else eff_ret tt
  end.

(** [String(capability.country_code || 'US').slice(0, 2).toUpperCase()] and the like. *)
Definition declared_country (capability : jsval) : string := toUpperCase (take_string 2 (string_or (field "country_code" capability) "US")).
Definition declared_city (capability : jsval) : string := take_string 128 (trimmed (field "city" capability)).
Definition declared_asn (capability : jsval) : num :=
  match field "asn" capability with JNum n => if isFinite n then n else of_Z 0 | _ => of_Z 0 end.

(** The rest of the transaction once the row is there: endpoints, position, versions,
    the credential and the session. *)
Definition settle (body : jsval) (nodeId city : string) (existing : option Node.t) (declared : option (num * num)) (vip : Vip.vip)
    (dr : draws) (now : Z) : eff Control.t registered :=
  moved <-!
    (match existing, Endpoints.endpoints (Endpoints.validateEndpoints (field "endpoints" body)) with
     | Some _, _ :: _ =>
         recorded <-! on_db (Endpoints.recordEndpoints cfg nodeId (field "endpoints" body) now) ;
         eff_ret (Endpoints.changed recorded, Endpoints.bumped recorded)
     | _, _ => eff_ret (false, false) end) ;
  let '(endpointsChanged, versionAdvanced) := moved in
  declare_position nodeId city declared ;!
  announce existing endpointsChanged versionAdvanced ;!
  cred <-! on_db (Credentials.mintCredential sha256 (rnd dr) (rnd_id dr) now nodeId 24) ;
  session <-! NativeTelemetry.startSession (uuid dr) nodeId ;
  s <-! get ;
  eff_ret (mk_registered nodeId (Vip.overlayIpv4 vip) (Vip.overlayIpv6 vip) (now / 1000 + 86400)
             (Acl.getEpoch "acl" (db s)) (Acl.getEpoch "routes" (db s))
             (Credentials.credential cred) (Credentials.expiresAt cred) session).

(** The transaction of a registration whose proof was accepted; the mismatch is recorded
    after the commit. *)
Definition enrol (req : NodeAuth.request) (publicKeyHex role preauthKey : string) (dr : draws) (now : Z) :
    eff Control.t (registered * option mismatch) :=
  let body := NodeAuth.body req in
  let nodeId := ControlPlaneKey.deriveNodeId publicKeyHex in
  s0 <-! get ;
  let existing := select1 (λ n, (Node.id n =? nodeId)%string) (Db.nodes (db s0)) in
  if Revocation.isRevoked publicKeyHex now (db s0) then denied 403 REVOKED_KEY else
  granted <-! authority req preauthKey role existing now ;
  let '(ownerId, keyOrg) := granted in
  let capability := js_or (field "capability" body) (JObj []) in
  let countryCode := declared_country capability in
  let ipClass := string_or (field "ip_class" capability) "UNKNOWN" in
  let city := declared_city capability in
  match parseDeclaredCoordinates capability with
  | inl e => denied 400 e
  | inr declared =>
      vip <-! (match existing with
               | Some n => eff_ret (Vip.mk_vip (Node.overlay_ipv4 n) (Node.overlay_ipv6 n))
               | None => allocate end) ;
      let mm := n ← existing; describeMismatch (Node.role n) (columns_of s0 nodeId) (mk_declaration role ipClass countryCode declared) in
      org <-! organization preauthKey ownerId keyOrg existing ;
      s1 <-! get ;
      NativeTelemetry.from_outcome (Enrollment.authorizeOwner ownerId org false (db s1)) ;!
      upsert_node (proposed_row nodeId ownerId ("Go-Node-" +:+ take_string 8 publicKeyHex) role publicKeyHex
                     (Vip.overlayIpv4 vip) (Vip.overlayIpv6 vip)
                     (Endpoints.storedShape (Endpoints.endpoints (Endpoints.validateEndpoints (field "endpoints" body)))) org)
                  (Columns.mk ipClass countryCode city (declared_asn capability) None None false 0 now) ;!
      resp <-! settle body nodeId city existing declared vip dr now ;
      eff_ret (resp, mm)
  end.

(** [normalizeRegisterBody]: anything but an array of endpoints is an empty one. *)
Definition normalizeRegisterBody (req : NodeAuth.request) : NodeAuth.request :=
  match NodeAuth.body req with
  | JObj fs =>
      match field "endpoints" (JObj fs) with
      | JUndef | JArr _ => req
      | _ => NodeAuth.mk_request (NodeAuth.authorization req) (JObj (set_member "endpoints" (JArr []) fs)) (NodeAuth.params req) (NodeAuth.query req)
      end
  | _ => req
  end.

Definition run_control {A} (m : eff Control.t A) (s : state) : outcome A * state :=
  let '(o, c) := m (control s) in (o, s <| control := c |>).

Definition refusal_event (nodeId : string) : audit_event :=
  mk_audit "node.revoked_key_register_refused" nodeId ("Registration refused for " +:+ nodeId +:+ ": its key is revoked") None.
Definition mismatch_event (nodeId : string) (m : mismatch) : audit_event :=
  mk_audit "node.reregister_mismatch" nodeId ("Re-registration of " +:+ nodeId +:+ " asked for " +:+ join ", " (m_changed m) +:+
    " different from the stored value; the stored values were kept") (Some m).

(** POST /v4/control/challenge *)
Definition challenge (rc : ControlPlaneKey.reach) (random : list Z) (now : Z) (s : state) : response ControlPlaneKey.challenge * state :=
  match ControlPlaneKey.createChallenge (IS_PRODUCTION env) (NAMESPACE env) (plane env) rc random now (challenges s) with
  | (Ok c, st) => (Answer c, s <| challenges := st |>)
  | (Throw status e, st) => (Refuse (status_or_500 status) e, s <| challenges := st |>)
  end.

(** POST /v4/control/register *)
Definition register (req0 : NodeAuth.request) (rc : ControlPlaneKey.reach) (dr : draws) (now : Z) (s : state) :
    response registered * state :=
  let req := normalizeRegisterBody req0 in
  let body := NodeAuth.body req in
  let publicKeyHex := trimmed (field "public_key_hex" body) in
  if negb (Hex.is_hex64 publicKeyHex) then (Refuse 400 "public_key_hex must be 64 hex characters", s) else
  let nodeId := ControlPlaneKey.deriveNodeId publicKeyHex in
  let requestedRole := string_or (field "role" body) "CLIENT_ORIGIN" in
  let nonce := trimmed (field "nonce" body) in
  let proof := trimmed (field "proof" body) in
  let preauthKey := trimmed (field "preauth_key" body) in
  if (nonce =? "")%string || (proof =? "")%string
  then (Refuse 401 "proof of possession required: request a nonce from /v4/control/challenge", s) else
  let '(consumed, st) := ControlPlaneKey.consumeChallenge (IS_PRODUCTION env) (NAMESPACE env) rc nonce now (challenges s) in
  let s1 := s <| challenges := st |> in
  match consumed with
  | Ok true =>
      if negb (ControlPlaneKey.verifyProof hmac_sha256 (plane env) publicKeyHex nonce proof requestedRole)
      then (Refuse 401 "invalid proof of possession", s1) else
      match run_control (transaction (enrol req publicKeyHex requestedRole preauthKey dr now)) s1 with
      | (Ok (resp, mm), s2) =>
          (Answer resp, match mm with Some m => s2 <| audit ::= λ l, l ++ [mismatch_event nodeId m] |> | None => s2 end)
      | (Throw status e, s2) =>
          (Refuse (status_or_500 status) e,
           if (e =? REVOKED_KEY)%string then s2 <| audit ::= λ l, l ++ [refusal_event nodeId] |> else s2)
      end
  | Ok false => (Refuse 401 "invalid or expired challenge nonce", s1)
  | Throw status e => (Refuse (status_or_500 status) e, s1)
  end.

(** ** Heartbeat *)

Record acknowledged := mk_acknowledged {
  revoked_keys : list string; is_quarantined : bool; quarantine_reason : string;
  hb_policy_epoch : Z; hb_route_epoch : Z; netmap_version : Z; new_credential : option Credentials.minted;
}.

(** The gauges of a beat, clamped. *)
Definition beat_metrics (body : jsval) (posture : option jsval) : Heartbeat.metrics :=
  let clamp k max fallback := clampNumber (field k body) (of_Z 0) max fallback in
  Heartbeat.mk_metrics (clamp "tx_bytes_sec" MAX_SAFE_INTEGER (of_Z 0)) (clamp "rx_bytes_sec" MAX_SAFE_INTEGER (of_Z 0))
    (Some (clamp "cpu_usage_pct" (of_Z 100) (of_Z 0))) (Some (clamp "memory_usage_mb" MAX_SAFE_INTEGER (of_Z 0)))
    (Some (clamp "battery_level_pct" (of_Z 100) (of_Z 100))) (Some (clamp "rtt_ms" (of_Z 60000) (of_Z 0))) posture.

(** The UPDATE used while Valkey is unavailable: a BIGINT sum, refused out of range. *)
Definition write_through (nodeId : string) (m : Heartbeat.metrics) (now : Z) : eff Control.t unit :=
  s <-! get ;
  let row n := n <| Node.tx_bytes ::= Z.add (to_Z (Heartbeat.txBytes m)) |> <| Node.rx_bytes ::= Z.add (to_Z (Heartbeat.rxBytes m)) |>
                 <| Node.cpu_usage_pct := float4 (default (of_Z 0) (Heartbeat.cpuPct m)) |>
                 <| Node.memory_usage_pct := float4 (default (of_Z 0) (Heartbeat.memMb m)) |>
                 <| Node.battery_pct := float4 (default (of_Z 0) (Heartbeat.batteryPct m)) |>
                 <| Node.latency_ms := float4 (default (of_Z 0) (Heartbeat.rttMs m)) |>
                 <| Node.posture_checks ::= (λ p, default p (Heartbeat.posture m)) |>
                 <| Node.is_healthy := true |> <| Node.last_heartbeat := Some now |> in
  let mine n := (Node.id n =? nodeId)%string in
  let fits n := negb (mine n) || Heartbeat.int64 (Node.tx_bytes (row n)) && Heartbeat.int64 (Node.rx_bytes (row n)) in
  if isInteger (Heartbeat.txBytes m) && isInteger (Heartbeat.rxBytes m) && forallb fits (Db.nodes (db s))
  then on_db (modify (λ d, d <| Db.nodes ::= update_where mine row |>))
  else db_error.

(** What the handler does after the node is authenticated and known. *)
Definition beat (new_Date : Posture.date_reader) (receivedAt : string) (cacheUp : bool) (body : jsval) (nodeId : string)
    (credentialId : option string) (known : Node.t) (dr : draws) (now : Z) (s : state) : outcome acknowledged * state :=
  match (if truthy (field "telemetry" body)
         then run_control (NativeTelemetry.record sha256 nodeId credentialId (field "telemetry" body) now) s
         else (Ok false, s)) with
  | (Throw st e, s1) => (Throw st e, s1)
  | (Ok _, s1) =>
      let m := beat_metrics body (Posture.buildPostureDocument new_Date (field "posture" body) receivedAt) in
      let s2 := if cacheUp then s1 <| buffer ::= Heartbeat.record nodeId m now |> else s1 in
      run_control
        ((if cacheUp then eff_ret tt else write_through nodeId m now) ;!
         on_db (Endpoints.recordEndpoints cfg nodeId (field "endpoints" body) now) ;!
         rotated <-! (match credentialId with
                      | Some c => if (c =? "")%string then eff_ret None
                                  else on_db (Credentials.checkAndRotateCredential sha256 (rnd dr) (rnd_id dr) now c nodeId 12)
                      | None => eff_ret None end) ;
         s3 <-! get ;
         let d := db s3 in
         eff_ret (mk_acknowledged (Revocation.activeRevocations now d) (Node.is_quarantined known)
                    (default "" (Node.quarantine_reason known)) (Acl.getEpoch "acl" d) (Acl.getEpoch "routes" d)
                    (Acl.getEpoch "netmap" d) rotated)) s2
  end.

(** The node a request speaks for, or the refusal. *)
Definition authenticated {A} (allowFleetToken : bool) (req : NodeAuth.request) (now : Z) (s : state)
    (k : option (string * string) → state → response A * state) : response A * state :=
  match run_control (on_db (NodeAuth.checkNodeAuth sha256 (registration_token env) (IS_PRODUCTION env) allowFleetToken req now)) s with
  | (Ok (NodeAuth.AuthDenied st e), s1) => (Refuse st e, s1)
  | (Ok (NodeAuth.AuthNode id cred), s1) => k (Some (id, cred)) s1
  | (Ok NodeAuth.AuthLegacy, s1) => k None s1
  | (Throw st e, s1) => (Refuse (status_or_500 st) e, s1)
  end.

Definition respond {A} (r : outcome A * state) : response A * state :=
  match r with (Ok a, s) => (Answer a, s) | (Throw st e, s) => (Refuse (status_or_500 st) e, s) end.

(** POST /v4/control/heartbeat *)
Definition heartbeat (new_Date : Posture.date_reader) (receivedAt : string) (cacheUp : bool) (req0 : NodeAuth.request) (dr : draws)
    (now : Z) (s : state) : response acknowledged * state :=
  let req := normalizeRegisterBody req0 in
  authenticated false req now s (λ node s1,
    let nodeId := trimmed (field "node_id" (NodeAuth.body req)) in
    if (nodeId =? "")%string then (Refuse 400 "node_id is required", s1) else
    match select1 (λ n, (Node.id n =? nodeId)%string) (Db.nodes (db (control s1))) with
    | None => (Refuse 404 ("unknown node_id " +:+ nodeId), s1)
    | Some known => respond (beat new_Date receivedAt cacheUp (NodeAuth.body req) nodeId (snd <$> node) known dr now s1)
    end).

(** ** Synchronisation *)

(** [Number(v) || 0] *)
Definition held (v : jsval) : num := num_or (js_Number v) (of_Z 0).

Definition needs_node {A} (req : NodeAuth.request) (now : Z) (s : state) (k : string → state → response A * state) : response A * state :=
  authenticated false req now s (λ _ s1,
    let nodeId := trimmed (field "node_id" (NodeAuth.body req)) in
    if (nodeId =? "")%string then (Refuse 400 "node_id is required", s1) else k nodeId s1).

(** POST /v4/control/sync-acls: the epoch, and the policy when it moved. *)
Definition sync_acls (req : NodeAuth.request) (now : Z) (s : state) : response (Z * option Policy.t) * state :=
  needs_node req now s (λ nodeId s1,
    let d := db (control s1) in
    let epoch := Acl.getEpoch "acl" d in
    if num_eqb (held (field "policy_epoch" (NodeAuth.body req))) (of_Z epoch) then (Answer (epoch, None), s1) else
    match Acl.compilePolicyFor nodeId d with
    | None => (Refuse 404 ("unknown node_id " +:+ nodeId), s1)
    | Some policy => (Answer (Policy.epoch policy, Some policy), s1)
    end).

(** POST /v4/control/sync-routes *)
Definition sync_routes (req : NodeAuth.request) (now : Z) (s : state) : response (Z * list Routes.delivered) * state :=
  needs_node req now s (λ nodeId s1,
    let d := db (control s1) in
    let epoch := Acl.getEpoch "routes" d in
    if num_eqb (held (field "route_epoch" (NodeAuth.body req))) (of_Z epoch) then (Answer (epoch, []), s1)
    else if negb (existsb (λ n, (Node.id n =? nodeId)%string) (Db.nodes d)) then (Refuse 404 ("unknown node_id " +:+ nodeId), s1)
    else match Routes.routesFor nodeId d with
         | Ok rs => (Answer (epoch, rs), s1)
         | Throw _ e => (Refuse 500 e, s1)
         end).

(** POST /v4/control/netmap: the document and the second it was built, or only the
    version while it is the one held. *)
Definition netmap (req : NodeAuth.request) (now : Z) (s : state) : response (Z * option (Netmap.netmap * Z)) * state :=
  needs_node req now s (λ nodeId s1,
    let d := db (control s1) in
    let version := Acl.getEpoch "netmap" d in
    if num_eqb (held (field "version" (NodeAuth.body req))) (of_Z version) then (Answer (version, None), s1) else
    match Netmap.buildNetmap cfg nodeId now d with
    | Ok None => (Refuse 404 ("unknown node_id " +:+ nodeId), s1)
    | Ok (Some nm) => (Answer (Netmap.version nm, Some (nm, now / 1000)), s1)
    | Throw _ e => (Refuse 500 e, s1)
    end).

(** ** Discovery *)

Record criteria := mk_criteria {
  explicitHostId : string; targetCountry : string; targetAsn : num; ipClass : string; limit : num;
}.

Definition criteria_of (body : jsval) : criteria :=
  mk_criteria (trimmed (field "explicit_host_id" body)) (toUpperCase (take_string 2 (string_or (field "target_country" body) "")))
    (held (field "target_asn" body)) (toUpperCase (string_or (field "ip_class" body) ""))
    (clampNumber (field "limit" body) (of_Z 1) (of_Z 100) (of_Z 20)).

Definition ROUTABLE : list string := ["EXIT_BRIDGE"; "RELAY"; "HYBRID"].

(** The WHERE clause; [among] are the peers of the node that asks. *)
Definition discoverable (s : Control.t) (among : option (list string)) (c : criteria) (n : Node.t) : bool :=
  let cols := columns_of s (Node.id n) in
  bool_decide (Node.role n ∈ ROUTABLE) && Node.is_healthy n && negb (Node.is_quarantined n) &&
  match among with Some ids => bool_decide (Node.id n ∈ ids) | None => true end &&
  ((explicitHostId c =? "")%string || (Node.id n =? explicitHostId c)%string) &&
  ((targetCountry c =? "")%string || (Columns.country_code cols =? targetCountry c)%string) &&
  (negb (num_truthy (targetAsn c)) || num_eqb (Columns.asn cols) (targetAsn c)) &&
  ((ipClass c =? "")%string || (Columns.ip_class cols =? ipClass c)%string).

Definition num_cmp (a b : num) : Z := if num_ltb a b then -1 else if num_ltb b a then 1 else 0.

(** ORDER BY (last_heartbeat IS NULL), latency_ms, risk_score, created_at. *)
Definition discovery_order (s : Control.t) (a b : Node.t) : Z :=
  let never n := match Node.last_heartbeat n with Some _ => 0 | None => 1 end in
  let c := never a - never b in
  if negb (c =? 0) then c else
  let c := num_cmp (Node.latency_ms a) (Node.latency_ms b) in
  if negb (c =? 0) then c else
  let c := Columns.risk_score (columns_of s (Node.id a)) - Columns.risk_score (columns_of s (Node.id b)) in
  if negb (c =? 0) then c else Columns.created_at (columns_of s (Node.id a)) - Columns.created_at (columns_of s (Node.id b)).

Definition parseEndpoints (value : jsval) : list jsval :=
  match value with
  | JArr l => l
  | JStr t => match JSON_parse t with Some (JArr l) => l | _ => [] end
  | _ => []
  end.

(** A bridge found; its score is [1 - index / rows], kept as the two integers. *)
Record found := mk_found {
  f_node_id : string; f_public_key_hex : string; f_overlay_ipv4 : string; f_endpoints : list jsval;
  f_country_code : string; f_city : string; f_asn : num; f_ip_class : string; f_index : nat; f_rows : nat;
}.

Definition found_of (s : Control.t) (rows : nat) (index : nat) (nk : Node.t * string) : found :=
  let '(n, key) := nk in
  let c := columns_of s (Node.id n) in
  mk_found (Node.id n) key (Node.overlay_ipv4 n) (parseEndpoints (Node.endpoints n))
    (Enrollment.text_or (Some (Columns.country_code c)) "US") (Columns.city c) (num_or (Columns.asn c) (of_Z 0))
    (Enrollment.text_or (Some (Columns.ip_class c)) "RESIDENTIAL") index rows.

Definition find_bridges (among : option (list string)) (c : criteria) (s : Control.t) : outcome (list found) :=
  match pg_int (limit c), (if num_truthy (targetAsn c) then pg_int (targetAsn c) else Some 0) with
  | Some lim, Some _ =>
      let rows := take (Z.to_nat lim) (Order.js_sort (discovery_order s) (where_ (discoverable s among c) (Db.nodes (db s)))) in
      Ok (imap (found_of s (length rows)) (omap (λ n, (λ k, (n, k)) <$> Vip.normalisePublicKeyHex (Node.public_key n)) rows))
  | _, _ => Throw None "database error"
  end.

(** POST /v4/control/discover *)
Definition discover (req : NodeAuth.request) (now : Z) (s : state) : response (list found) * state :=
  authenticated true req now s (λ node s1,
    let c := criteria_of (NodeAuth.body req) in
    let answer among := match find_bridges among c (control s1) with
                        | Ok l => (Answer l, s1)
                        | Throw _ e => (Refuse 500 e, s1) end in
    match node with
    | None => answer None
    | Some (id, _) =>
        match Netmap.buildNetmap cfg id now (db (control s1)) with
        | Ok None => (Refuse 401 "invalid node credential", s1)
        | Ok (Some nm) => answer (Some (Netmap.p_node_id <$> Netmap.peers nm))
        | Throw _ e => (Refuse 500 e, s1)
        end
    end).
End Handlers.
End Bridge.
