(* ===== verification/BridgeFacts.v ===== *)
(** * Theorems on the node control API

    [Fleet]: what a registration may change of the fleet.  [BridgeFacts]: who is
    registered, and what discovery shows.  [BridgeSamples]: witnesses and examples. *)

From S2P Require Import Prelude Order Js Encoding Json Db Vip Acl Routes Revocation Endpoints Permit Netmap Enrol Heartbeat.
From S2P Require Import Bytes Primitives Challenge Telemetry TelemetryFacts Bridge.

Module Fleet.
Import Control Bridge.

(** What an enrolled node keeps: everything but its health and its endpoints. *)
Definition same_node (n n' : Node.t) : Prop :=
  n' = n <| Node.is_healthy := Node.is_healthy n' |> <| Node.endpoints := Node.endpoints n' |>
         <| Node.endpoints_bumped_at := Node.endpoints_bumped_at n' |>.

Lemma same_node_refl n : same_node n n.
Proof. by destruct n. Qed.
Lemma same_node_trans a b c : same_node a b → same_node b c → same_node a c.
Proof. unfold same_node. destruct a, b, c. cbn. intros H1 H2. injection H1; injection H2; intros; subst. reflexivity. Qed.

Lemma same_node_id n n' : same_node n n' → Node.id n' = Node.id n ∧ Node.public_key n' = Node.public_key n ∧
  Node.overlay_ipv4 n' = Node.overlay_ipv4 n ∧ Node.overlay_ipv6 n' = Node.overlay_ipv6 n.
Proof. intros ->. by destruct n. Qed.

(** What the declared columns of an enrolled node keep: a position is only ever added. *)
Definition same_columns (c c' : Columns.t) : Prop :=
  Columns.ip_class c' = Columns.ip_class c ∧ Columns.country_code c' = Columns.country_code c ∧ Columns.asn c' = Columns.asn c ∧
  Columns.risk_score c' = Columns.risk_score c ∧ Columns.created_at c' = Columns.created_at c ∧
  (is_Some (Columns.latitude c) ∨ is_Some (Columns.longitude c) → c' = c).

Lemma same_columns_refl c : same_columns c c.
Proof. by repeat split. Qed.
Lemma same_columns_trans a b c : same_columns a b → same_columns b c → same_columns a c.
Proof.
  intros (? & ? & ? & ? & ? & K1) (? & ? & ? & ? & ? & K2). split_and!; [congruence..|]. intros K. rewrite (K1 K) in *. by apply K2.
Qed.

(** One statement of the registration of [id]. *)
Inductive fleet_step (id : string) (s s' : Control.t) : Prop :=
  | step_same : Db.nodes (db s') = Db.nodes (db s) → columns s' = columns s → fleet_step id s s'
  | step_update f : (∀ n, same_node n (f n)) →
      Db.nodes (db s') = update_where (λ n, (Node.id n =? id)%string) f (Db.nodes (db s)) → columns s' = columns s → fleet_step id s s'
  | step_position c : Db.nodes (db s') = Db.nodes (db s) → same_columns (columns_of s id) c → columns s' = <[id := c]> (columns s) → fleet_step id s s'
  | step_insert n c : Node.id n = id → (∀ x, x ∈ Db.nodes (db s) → Node.id x ≠ id ∧ Node.public_key x ≠ Node.public_key n ∧
        Node.overlay_ipv4 x ≠ Node.overlay_ipv4 n ∧ Node.overlay_ipv6 x ≠ Node.overlay_ipv6 n) →
      Db.nodes (db s') = Db.nodes (db s) ++ [n] → columns s' = <[id := c]> (columns s) → fleet_step id s s'.

Definition distinct (l : list Node.t) : Prop :=
  NoDup (Node.id <$> l) ∧ NoDup (Node.public_key <$> l) ∧ NoDup (Node.overlay_ipv4 <$> l) ∧ NoDup (Node.overlay_ipv6 <$> l).

Lemma step_node id s s' n : fleet_step id s s' → n ∈ Db.nodes (db s) →
  ∃ n', n' ∈ Db.nodes (db s') ∧ same_node n n' ∧ (Node.id n ≠ id → n' = n) ∧ same_columns (columns_of s (Node.id n)) (columns_of s' (Node.id n)).
Proof.
  intros Hs Hn. unfold columns_of. destruct Hs as [E Ec|f Hf E Ec|c E Hc Ec|m c Hm Hfresh E Ec]; rewrite E, Ec.
  - exists n. split_and!; [done|apply same_node_refl|done|apply same_columns_refl].
  - exists (if (Node.id n =? id)%string then f n else n). split_and!; [apply elem_of_update; eauto|..|apply same_columns_refl];
      destruct (Node.id n =? id)%string eqn:Ei; b2p; auto using same_node_refl. done.
  - exists n. split_and!; [done|apply same_node_refl|done|]. destruct (decide (id = Node.id n)) as [<-|Hne].
    + rewrite lookup_insert_eq. exact Hc.
    + rewrite lookup_insert_ne by done. apply same_columns_refl.
  - exists n. split_and!; [set_solver|apply same_node_refl|done|]. rewrite lookup_insert_ne; [apply same_columns_refl|].
    destruct (Hfresh n Hn) as [Hne _]. congruence.
Qed.

Lemma steps_node id s s' n : rtc (fleet_step id) s s' → n ∈ Db.nodes (db s) →
  ∃ n', n' ∈ Db.nodes (db s') ∧ same_node n n' ∧ (Node.id n ≠ id → n' = n) ∧ same_columns (columns_of s (Node.id n)) (columns_of s' (Node.id n)).
Proof.
  intros Hr. revert n. induction Hr as [s|s s1 s2 H1 _ IH]; intros n Hn.
  - exists n. split_and!; [done|apply same_node_refl|done|apply same_columns_refl].
  - destruct (step_node id s s1 n H1 Hn) as (n1 & Hn1 & Hs1 & He1 & Hc1). pose proof (same_node_id _ _ Hs1) as (Hid & _).
    destruct (IH n1 Hn1) as (n2 & Hn2 & Hs2 & He2 & Hc2). rewrite Hid in *. exists n2. split_and!; [done|by eapply same_node_trans| |by eapply same_columns_trans].
    intros Hne. rewrite He2, He1; done.
Qed.

Lemma step_distinct id s s' : fleet_step id s s' → distinct (Db.nodes (db s)) → distinct (Db.nodes (db s')).
Proof.
  intros Hs (H1 & H2 & H3 & H4). destruct Hs as [E Ec|f Hf E Ec|c E Hc Ec|m c Hm Hfresh E Ec]; rewrite E; try done.
  - unfold distinct. rewrite !update_where_fmap; [done|..]; intros n; by destruct (same_node_id _ _ (Hf n)) as (? & ? & ? & ?).
  - unfold distinct. rewrite !fmap_app. cbn. assert (∀ g : Node.t → string, NoDup (g <$> Db.nodes (db s)) → (∀ x, x ∈ Db.nodes (db s) → g x ≠ g m) →
      NoDup ((g <$> Db.nodes (db s)) ++ [g m])) as Happ.
    { intros g Hg Hne. apply NoDup_app. split_and!; [done| |apply NoDup_singleton]. intros y Hy Hy'. apply list_elem_of_singleton in Hy' as ->.
      apply list_elem_of_fmap in Hy as (x & E' & Hx). by apply (Hne x Hx). }
    split_and!; apply Happ; try done; intros x Hx; destruct (Hfresh x Hx) as (? & ? & ? & ?); congruence.
Qed.

Lemma steps_distinct id s s' : rtc (fleet_step id) s s' → distinct (Db.nodes (db s)) → distinct (Db.nodes (db s')).
Proof. induction 1; eauto using step_distinct. Qed.

(** *** The statements of a registration *)

Section Statements.
Context {Coll : Collation} {Loc : Locale} {cr : Crypto} (cfg : Endpoints.config)
  (hmac_sha256 : list Z → list Z → list Z) (sha256 : string → string) (float4 : num → num) (env : environment).

Lemma within_run {A} (R : relation Control.t) (m : eff Control.t A) s o s' : within R m → m s = (o, s') → rtc R s s'.
Proof. intros H E. specialize (H s). by rewrite E in H. Qed.

Lemma within_read {A} id (k : Control.t → eff Control.t A) : (∀ s, within (fleet_step id) (k s)) → within (fleet_step id) (eff_bind get k).
Proof. intros H. apply within_bind; [by apply within_reads|done]. Qed.

Lemma within_same {A} id (m : eff Control.t A) : (∀ s, Db.nodes (db (m s).2) = Db.nodes (db s) ∧ columns (m s).2 = columns s) → within (fleet_step id) m.
Proof. intros H s. apply rtc_once. destruct (H s). by apply step_same. Qed.

Definition keeps_nodes {A} (m : eff Db.t A) : Prop := ∀ d, Db.nodes (m d).2 = Db.nodes d.

Lemma within_on_db {A} id (m : eff Db.t A) : keeps_nodes m → within (fleet_step id) (on_db m).
Proof. intros H. apply within_same. intros s. unfold on_db. specialize (H (db s)). by destruct (m (db s)). Qed.

Lemma consume_keeps secret role owner now : keeps_nodes (PreAuth.validateAndConsumePreAuthKey sha256 secret role owner now).
Proof. intros d. unfold PreAuth.validateAndConsumePreAuthKey, eff_bind, get, eff_ret, modify. by repeat case_match. Qed.

Lemma bumpEpoch_keeps name : keeps_nodes (Acl.bumpEpoch name).
Proof. intros d. unfold Acl.bumpEpoch, eff_bind, get, eff_ret, modify. by destruct (name =? "netmap")%string. Qed.

Lemma mint_keeps r ri now id ttl : keeps_nodes (Credentials.mintCredential sha256 r ri now id ttl).
Proof. intros d. unfold Credentials.mintCredential, eff_bind, get, eff_ret, modify, throw, db_error, throw. by repeat case_match. Qed.

Lemma startSession_within id u nid : within (fleet_step id) (NativeTelemetry.startSession u nid).
Proof. apply within_same. intros s. rewrite TelemetryFacts.startSession_run. by destruct (select1 _ _). Qed.

Lemma allocate_within id : within (fleet_step id) allocate.
Proof. apply within_same. intros s. unfold allocate. by destruct (Vip.allocateNextVip _). Qed.

Lemma resolveOwner_within id : within (fleet_step id) (resolveOwnerId env).
Proof. apply within_read. intros s. repeat case_match; apply within_reads; by intros ?. Qed.

Lemma authority_within id req pk role ex now : within (fleet_step id) (authority sha256 env req pk role ex now).
Proof.
  unfold authority. destruct (negb _).
  - apply within_bind; [apply within_on_db, consume_keeps|]. intros r. repeat case_match; apply within_reads; by intros ?.
  - repeat case_match; try (apply within_reads; by intros ?);
      (apply within_bind; [apply resolveOwner_within|intros ?; apply within_ret]).
Qed.

Lemma organization_within id pk ow ko ex : within (fleet_step id) (organization pk ow ko ex).
Proof. unfold organization. repeat case_match; apply within_reads; by intros ?. Qed.

Lemma announce_within id ex a b : within (fleet_step id) (announce ex a b).
Proof.
  unfold announce. repeat case_match; try apply within_ret;
    (apply within_bind; [apply within_on_db, bumpEpoch_keeps|intros ?; apply within_ret]).
Qed.

Lemma position_within id city p : within (fleet_step id) (declare_position float4 id city p).
Proof.
  unfold declare_position. destruct p as [[la lo]|]; [|apply within_ret]. intros s. apply rtc_once. unfold modify. cbn [snd].
  destruct (Columns.latitude (columns_of s id)) eqn:El; [by apply step_same|].
  destruct (Columns.longitude (columns_of s id)) eqn:Eo; [by apply step_same|].
  eapply step_position; [done| |reflexivity]. split_and!; try done. rewrite El, Eo. intros [[? ?]|[? ?]]; done.
Qed.

Lemma endpoints_within id reported now : within (fleet_step id) (on_db (Endpoints.recordEndpoints cfg id reported now)).
Proof.
  intros s. unfold on_db, Endpoints.recordEndpoints, eff_bind, get. destruct (select1 _ _) as [row|]; [|apply rtc_once; by apply step_same].
  destruct (_ =? _)%string; [apply rtc_once; by apply step_same|]. set (b := match Node.endpoints_bumped_at row with Some _ => _ | None => _ end).
  unfold modify. cbv beta iota zeta. apply rtc_once.
  apply (step_update _ _ _ (Endpoints.store_endpoints (Endpoints.endpoints (Endpoints.validateEndpoints reported)) b now)).
  - intros n. unfold Endpoints.store_endpoints. by destruct b, n.
  - destruct b; [|done]. unfold Acl.bumpNetmap, Acl.bumpEpoch, eff_bind, modify, get, eff_ret. done.
  - by destruct b.
Qed.

Lemma upsert_within n c : within (fleet_step (Node.id n)) (upsert_node n c).
Proof.
  apply within_get. intros s. destruct (negb _); [apply rtc_refl|]. destruct (existsb _ (Db.nodes (db s))) eqn:Ee.
  { apply rtc_once. apply (step_update _ _ _ (λ x, x <| Node.is_healthy := true |>)); [|done|done]. intros x. by destruct x. }
  destruct (row_insertable (db s) n) eqn:Ei; [|apply rtc_refl]. apply rtc_once. apply (step_insert _ _ _ n c); [done| |done|done].
  intros x Hx. unfold row_insertable in Ei. apply andb_true_iff in Ei as [[Ei _]%andb_true_iff _]. apply negb_true_iff in Ei.
  apply list_elem_of_In in Hx. rewrite <- !not_true_iff_false, existsb_exists in Ee, Ei.
  split_and!; intros E; [apply Ee|apply Ei..]; exists x; (split; [done|]); rewrite E, String.eqb_refl, ?orb_true_r; done.
Qed.

Lemma settle_within body id city ex declared vip dr now : within (fleet_step id) (settle cfg sha256 float4 body id city ex declared vip dr now).
Proof.
  apply within_bind; [|intros [ec va]].
  { destruct ex; [|apply within_ret]. case_match; [apply within_ret|].
    apply within_bind; [apply endpoints_within|intros ?; apply within_ret]. }
  apply within_bind; [apply position_within|]. intros _. apply within_bind; [apply announce_within|]. intros _.
  apply within_bind; [apply within_on_db, mint_keeps|]. intros cred. apply within_bind; [apply startSession_within|]. intros ses.
  apply within_read. intros s2. apply within_ret.
Qed.

(** Every statement of a registration is one of these steps. *)
Lemma enrol_within req key role pk dr now : within (fleet_step (ControlPlaneKey.deriveNodeId key)) (enrol cfg sha256 float4 env req key role pk dr now).
Proof.
  apply within_read. intros s0. destruct (Revocation.isRevoked _ _ _); [apply within_throw|].
  apply within_bind; [apply authority_within|]. intros [ow ko]. cbv beta iota zeta. destruct (parseDeclaredCoordinates _) as [e|declared]; [apply within_throw|].
  apply within_bind; [destruct (select1 _ _); [apply within_ret|apply allocate_within]|]. intros vip.
  apply within_bind; [apply organization_within|]. intros org. apply within_read. intros s1.
  apply within_bind; [apply within_reads; unfold NativeTelemetry.from_outcome; by destruct (Enrollment.authorizeOwner _ _ _ _)|]. intros _.
  apply within_bind; [apply (upsert_within (proposed_row _ _ _ _ _ _ _ _ _))|]. intros _.
  apply within_bind; [apply settle_within|]. intros resp. apply within_ret.
Qed.

Lemma transaction_within {A} id (m : eff Control.t A) : within (fleet_step id) m → within (fleet_step id) (transaction m).
Proof.
  intros H s. specialize (H s). unfold transaction. destruct (m s) as [[a|st e] s']; [done|]. apply rtc_once. by apply step_same.
Qed.
End Statements.
End Fleet.

Module BridgeFacts.
Import Control Bridge Fleet.

Section Handlers.
Context {Coll : Collation} {Loc : Locale} {cr : Crypto} (cfg : Endpoints.config)
  (hmac_sha256 : list Z → list Z → list Z) (sha256 : string → string) (float4 : num → num) (env : environment).

Notation register := (register cfg hmac_sha256 sha256 float4 env).
Notation enrol := (enrol cfg sha256 float4 env).

(** The members of a registration, as the handler reads them. *)
Definition member (k : string) (req : NodeAuth.request) : string := trimmed (field k (NodeAuth.body (normalizeRegisterBody req))).
Definition key_of : NodeAuth.request → string := member "public_key_hex".
Definition role_of (req : NodeAuth.request) : string := string_or (field "role" (NodeAuth.body (normalizeRegisterBody req))) "CLIENT_ORIGIN".
Definition id_of (req : NodeAuth.request) : string := ControlPlaneKey.deriveNodeId (key_of req).

(** The checks before the transaction, and the transaction. *)
Lemma register_cases req rc dr now s r s' : register req rc dr now s = (r, s') →
  (control s' = control s ∧ buffer s' = buffer s ∧ audit s' = audit s ∧ ∃ st e, r = Refuse st e) ∨
  ((ControlPlaneKey.consumeChallenge (IS_PRODUCTION env) (NAMESPACE env) rc (member "nonce" req) now (challenges s)).1 = Ok true ∧
   ControlPlaneKey.verifyProof hmac_sha256 (plane env) (key_of req) (member "nonce" req) (member "proof" req) (role_of req) = true ∧
   Hex.is_hex64 (key_of req) = true ∧ buffer s' = buffer s ∧
   ∃ o, transaction (enrol (normalizeRegisterBody req) (key_of req) (role_of req) (member "preauth_key" req) dr now) (control s) = (o, control s') ∧
   match o with
   | Ok (resp, mm) => r = Answer resp ∧ audit s' = audit s ++ (mismatch_event (id_of req) <$> option_list mm)
   | Throw st e => r = Refuse (status_or_500 st) e ∧ audit s' = audit s ++ (if (e =? REVOKED_KEY)%string then [refusal_event (id_of req)] else [])
   end).
Proof.
  assert (∀ st e s1, (Refuse st e : response registered, s1) = (r, s') → control s1 = control s → buffer s1 = buffer s → audit s1 = audit s →
    control s' = control s ∧ buffer s' = buffer s ∧ audit s' = audit s ∧ ∃ st e, r = Refuse st e) as Hleft by (intros st e s1 [= <- <-]; eauto 6).
  unfold Bridge.register. cbv zeta. fold (member "public_key_hex" req). fold (key_of req). fold (role_of req). fold (member "nonce" req). fold (member "proof" req). fold (member "preauth_key" req).
  destruct (negb (Hex.is_hex64 _)) eqn:Eh; [intros H; left; by eapply Hleft|].
  match goal with |- (if ?b then _ else _) = _ → _ => destruct b end; [intros H; left; by eapply Hleft|].
  destruct (ControlPlaneKey.consumeChallenge _ _ _ _ _ _) as [[[]|st e] st'] eqn:Ec; [|intros H; left; by eapply Hleft..].
  destruct (negb (ControlPlaneKey.verifyProof _ _ _ _ _ _)) eqn:Ev; [intros H; left; by eapply Hleft|]. apply negb_false_iff in Ev, Eh.
  unfold run_control. change (control (s <| challenges := st' |>)) with (control s).
  destruct (transaction _ (control s)) as [o c'] eqn:Et. intros H. right. cbn [fst]. split_and!; [done..| |].
  - destruct o as [[resp [m|]]|stt e]; [..|destruct (e =? REVOKED_KEY)%string]; by simplify_eq.
  - exists o. destruct o as [[resp [m|]]|stt e]; [..|destruct (e =? REVOKED_KEY)%string]; simplify_eq; split; try done; split; try done; cbn; by rewrite ?app_nil_r.
Qed.

Lemma register_steps req rc dr now s : rtc (fleet_step (id_of req)) (control s) (control (register req rc dr now s).2).
Proof.
  destruct (register req rc dr now s) as [r s'] eqn:E. cbn [snd]. apply register_cases in E as [(-> & _)|(_ & _ & _ & _ & o & Et & _)]; [apply rtc_refl|].
  pose proof (transaction_within (id_of req) _ (enrol_within cfg sha256 float4 env (normalizeRegisterBody req) (key_of req) (role_of req) (member "preauth_key" req) dr now) (control s)) as H.
  by rewrite Et in H.
Qed.

(** C16. Registering does not rewrite the fleet.  Whatever a registration carries and however
    it ends, every enrolled node keeps its identity, owner, organisation, compartment,
    role, key, addresses and quarantine, its declared class, country and number, and its
    position once it has one; only the node named may become healthy or move its
    endpoints, and every other row is the same.  Identifiers, keys and addresses stay
    distinct. *)
Theorem registration_keeps_fleet req rc dr now s :
  let s' := (register req rc dr now s).2 in
  (∀ n, n ∈ Db.nodes (db (control s)) → ∃ n', n' ∈ Db.nodes (db (control s')) ∧ same_node n n' ∧ (Node.id n ≠ id_of req → n' = n) ∧
     same_columns (columns_of (control s) (Node.id n)) (columns_of (control s') (Node.id n))) ∧
  (distinct (Db.nodes (db (control s))) → distinct (Db.nodes (db (control s')))).
Proof.
  split; [intros n; apply steps_node, register_steps|]. apply (steps_distinct (id_of req)), register_steps.
Qed.

(** A refused registration writes nothing but the trace of a revoked key. *)
Theorem registration_refused_clean req rc dr now s st e s' :
  register req rc dr now s = (Refuse st e, s') →
  db (control s') = db (control s) ∧ native (control s') = native (control s) ∧ columns (control s') = columns (control s) ∧
  buffer s' = buffer s ∧ (audit s' = audit s ∨ e = REVOKED_KEY ∧ audit s' = audit s ++ [refusal_event (id_of req)]).
Proof.
  intros H. apply register_cases in H as [(-> & -> & -> & _)|(_ & _ & _ & -> & o & Et & Ho)]; [by split_and!; auto|].
  destruct o as [[resp mm]|stt e']; [by destruct Ho|]. destruct Ho as [[= _ <-] Ha].
  unfold transaction in Et. destruct (enrol _ _ _ _ _ _ _) as [[a|] c']; [done|].
  injection Et as _ _ <-. split_and!; [done..|]. rewrite Ha.
  destruct (e =? REVOKED_KEY)%string eqn:Ee; b2p; [by right|left; apply app_nil_r].
Qed.

(** *** Who is registered *)

Definition accounts (d : Db.t) := (Db.users d, Db.organizations d, Db.memberships d).
(** Nothing a registration decides on. *)
Definition untouched (s s' : Control.t) : Prop := Db.nodes (db s') = Db.nodes (db s) ∧ accounts (db s') = accounts (db s).

Lemma allocate_untouched s : untouched s (allocate s).2.
Proof. unfold allocate. by destruct (Vip.allocateNextVip _). Qed.

Lemma authorizeOwner_accounts ow org b d d' : accounts d = accounts d' → Enrollment.authorizeOwner ow org b d = Enrollment.authorizeOwner ow org b d'.
Proof. unfold accounts. intros [= E1 E2 E3]. unfold Enrollment.authorizeOwner, Enrollment.membership_of. by rewrite E1, E2, E3. Qed.

Lemma resolveOwner_reads : reads (resolveOwnerId env).
Proof. intros s. unfold resolveOwnerId, eff_bind, get. by repeat case_match. Qed.

Lemma organization_reads pk ow ko ex : reads (organization pk ow ko ex).
Proof. intros s. unfold organization, eff_bind, get. by repeat case_match. Qed.

(** What vouches for a registration: a pre-auth key that admits it, the row it comes back
    to, or the enrolment token. *)
Definition vouched (req : NodeAuth.request) (pk role : string) (existing : option Node.t) (owner : string) (now : Z) (d : Db.t) : Prop :=
  if (pk =? "")%string then
    match existing with
    | Some n => Node.user_id n = owner ∨ Node.user_id n = ""
    | None => NodeAuth.checkEnrolmentToken (registration_token env) (IS_PRODUCTION env) req = NodeAuth.AuthLegacy
    end
  else ∃ key, key ∈ Db.preauth_keys d ∧ PreAuthKey.key_hash key = PreAuth.hashSecret sha256 pk ∧
         PreAuthFacts.admits key (Some role) (Node.user_id <$> existing) now ∧ PreAuthKey.owner_id key = owner.

Lemma authority_ok req pk role ex now s ow ko s' : authority sha256 env req pk role ex now s = (Ok (ow, ko), s') →
  vouched req pk role ex ow now (db s) ∧ untouched s s'.
Proof.
  unfold authority, vouched. destruct (pk =? "")%string eqn:Ep; cbn [negb].
  - destruct ex as [n|].
    + destruct (Node.user_id n =? "")%string eqn:Eu; b2p; intros H.
      * apply eff_bind_ok in H as (o & s1 & H1 & H). apply (reads_run _ _ _ _ resolveOwner_reads) in H1 as ->.
        unfold eff_ret in H. simplify_eq. split; [by right|done].
      * unfold eff_ret in H. simplify_eq. split; [by left|done].
    + intros H. assert (NodeAuth.checkEnrolmentToken (registration_token env) (IS_PRODUCTION env) req = NodeAuth.AuthLegacy) as Et.
      { unfold NodeAuth.checkEnrolmentToken in *. by repeat case_match. }
      rewrite Et in H. apply eff_bind_ok in H as (o & s1 & Ho & H). apply (reads_run _ _ _ _ resolveOwner_reads) in Ho as ->.
      unfold eff_ret in H. by simplify_eq.
  - intros H. apply eff_bind_ok in H as (r & s1 & H1 & H). unfold on_db in H1. destruct (PreAuth.validateAndConsumePreAuthKey _ _ _ _ _ _) as [o d1] eqn:Ec.
    injection H1 as -> <-. destruct r as [st e|key]; [by unfold denied, throw in H|]. apply PreAuthFacts.consume_ok in Ec as (t & [= <-] & _ & Hs & Ha & ->).
    apply select1_elem in Hs as [Hh Hin]. b2p. assert (ow = PreAuthKey.owner_id key ∧ s' = s <| db := (db s) <| Db.preauth_keys ::= PreAuth.increment (PreAuthKey.id key) |> |>) as [-> ->].
    { destruct ex as [n|]; [destruct (_ && _)|]; unfold denied, throw, eff_ret in H; by simplify_eq. }
    split; [by exists key|done].
Qed.

Lemma node_upserted n c s u s' : upsert_node n c s = (Ok u, s') →
  (∃ x, x ∈ Db.nodes (db s) ∧ Node.id x = Node.id n) ∨ n ∈ Db.nodes (db s').
Proof.
  unfold upsert_node, eff_bind, get. destruct (negb _); [done|]. destruct (existsb _ _) eqn:E.
  - intros _. left. apply existsb_exists in E as (x & Hx & Ei). b2p. apply list_elem_of_In in Hx. eauto.
  - destruct (row_insertable _ _); [|done]. intros [= _ <-]. right. change (n ∈ Db.nodes (db s) ++ [n]). set_solver.
Qed.

(** The last credential stored is the one issued, and no other has its digest. *)
Definition issued (id cred rid : string) (now : Z) (d : Db.t) : Prop := ∃ l,
  Db.node_credentials d = l ++ [Credential.mk ("nc_" +:+ rid) id (Credentials.hashToken sha256 cred) (now + 24 * Credentials.HOUR) None None] ∧
  ∀ c, c ∈ l → Credential.token_hash c ≠ Credentials.hashToken sha256 cred.

Lemma settle_ok body id city ex declared vip dr now s resp s' : settle cfg sha256 float4 body id city ex declared vip dr now s = (Ok resp, s') →
  assigned_node_id resp = id ∧ overlay_ipv4 resp = Vip.overlayIpv4 vip ∧ overlay_ipv6 resp = Vip.overlayIpv6 vip ∧
  credential resp = Credentials.TOKEN_PREFIX +:+ rnd dr ∧ issued id (credential resp) (rnd_id dr) now (db s').
Proof.
  unfold settle, issued. intros H. apply eff_bind_ok in H as ([ec va] & s1 & _ & H). apply eff_bind_ok in H as (? & s2 & _ & H).
  apply eff_bind_ok in H as (? & s3 & _ & H). apply eff_bind_ok in H as (cred & s4 & Hm & H). apply eff_bind_ok in H as (ses & s5 & Hs & H).
  unfold eff_bind, get, eff_ret in H. injection H as <- <-. unfold on_db in Hm.
  destruct (Credentials.mintCredential _ _ _ _ _ _ _) as [o d4] eqn:Em. injection Hm as -> <-. apply mint_ok in Em as (-> & -> & Hf).
  rewrite TelemetryFacts.startSession_run in Hs. injection Hs as _ <-. split_and!; [done..|].
  exists (Db.node_credentials (db s3)). split; [by destruct (select1 _ _)|]. intros c Hc. by apply Hf.
Qed.

(** The stages of a registration that succeeds. *)
Lemma enrol_inv req key role pk dr now s r s' : enrol req key role pk dr now s = (Ok r, s') →
  let id := ControlPlaneKey.deriveNodeId key in
  let existing := select1 (λ n, (Node.id n =? id)%string) (Db.nodes (db s)) in
  Revocation.isRevoked key now (db s) = false ∧
  ∃ ow ko s1 declared vip s2 org a row c s5 city,
    authority sha256 env req pk role existing now s = (Ok (ow, ko), s1) ∧
    match existing with Some n => eff_ret (Vip.mk_vip (Node.overlay_ipv4 n) (Node.overlay_ipv6 n)) | None => allocate end s1 = (Ok vip, s2) ∧
    Enrollment.authorizeOwner ow org false (db s2) = Ok a ∧ upsert_node row c s2 = (Ok tt, s5) ∧
    Node.id row = id ∧ Node.overlay_ipv4 row = Vip.overlayIpv4 vip ∧ Node.overlay_ipv6 row = Vip.overlayIpv6 vip ∧
    settle cfg sha256 float4 (NodeAuth.body req) id city existing declared vip dr now s5 = (Ok r.1, s').
Proof.
  intros H. unfold Bridge.enrol in H. apply eff_bind_ok in H as (s0 & s00 & Hg & H). injection Hg as <- <-.
  destruct (Revocation.isRevoked key now (db s)); [by unfold denied, throw in H|]. split; [done|].
  apply eff_bind_ok in H as ([ow ko] & s1 & Hau & H). destruct (parseDeclaredCoordinates _) as [e|declared]; [by unfold denied, throw in H|].
  apply eff_bind_ok in H as (vip & s2 & Hvip & H). apply eff_bind_ok in H as (org & s3 & Ho & H). apply (reads_run _ _ _ _ (organization_reads _ _ _ _)) in Ho as ->.
  apply eff_bind_ok in H as (s20 & s21 & Hg & H). injection Hg as <- <-. apply eff_bind_ok in H as (a & s4 & Hown & H).
  unfold NativeTelemetry.from_outcome in Hown. destruct (Enrollment.authorizeOwner ow org false (db s2)) as [a'|] eqn:Eau; [|done]. injection Hown as -> <-.
  apply eff_bind_ok in H as ([] & s5 & Hup & H). apply eff_bind_ok in H as (rs & s6 & Hset & H). injection H as <- <-.
  eexists ow, ko, s1, declared, vip, s2, org, a, _, _, s5, _. split; [exact Hau|]. split; [exact Hvip|]. split; [exact Eau|]. split; [exact Hup|].
  split; [reflexivity|]. split; [reflexivity|]. split; [reflexivity|exact Hset].
Qed.

(** The addresses answered are those of the stored row. *)
Lemma enrol_row id ex vip row c s s1 s2 s5 s' :
  ex = select1 (λ n, (Node.id n =? id)%string) (Db.nodes (db s)) → Db.nodes (db s1) = Db.nodes (db s) →
  match ex with Some n => eff_ret (Vip.mk_vip (Node.overlay_ipv4 n) (Node.overlay_ipv6 n)) | None => allocate end s1 = (Ok vip, s2) →
  upsert_node row c s2 = (Ok tt, s5) → rtc (fleet_step id) s5 s' →
  Node.id row = id → Node.overlay_ipv4 row = Vip.overlayIpv4 vip → Node.overlay_ipv6 row = Vip.overlayIpv6 vip →
  untouched s1 s2 ∧ ∃ n, n ∈ Db.nodes (db s') ∧ Node.id n = id ∧ Node.overlay_ipv4 n = Vip.overlayIpv4 vip ∧ Node.overlay_ipv6 n = Vip.overlayIpv6 vip.
Proof.
  intros Eex Hn1 Hvip Hup Hw2 Hi H4 H6. pose proof (within_run _ _ _ _ _ (upsert_within _ _) Hup) as Hw1. rewrite Hi in Hw1. apply node_upserted in Hup.
  destruct ex as [n|].
  - unfold eff_ret in Hvip. injection Hvip as <- <-. split; [done|]. symmetry in Eex. apply select1_elem in Eex as [Hid Hin]. b2p.
    destruct (steps_node id s1 s' n) as (n' & Hn' & Hs' & _); [etrans; [exact Hw1|exact Hw2]|congruence|].
    exists n'. apply same_node_id in Hs' as (-> & _ & -> & ->). done.
  - pose proof (allocate_untouched s1) as Hu. rewrite Hvip in Hu. cbn [snd] in Hu.
    split; [done|]. destruct Hup as [(x & Hx & Hid)|Hin].
    + exfalso. destruct Hu as [Hn2 _]. rewrite Hn2, Hn1 in Hx. symmetry in Eex. rewrite select1_none in Eex. specialize (Eex x Hx). b2p. congruence.
    + destruct (steps_node id s5 s' _ Hw2 Hin) as (n' & Hn' & Hs' & _). exists n'. apply same_node_id in Hs' as (-> & _ & -> & ->). done.
Qed.

Lemma enrol_ok req key role pk dr now s r s' : enrol req key role pk dr now s = (Ok r, s') →
  let id := ControlPlaneKey.deriveNodeId key in
  let existing := select1 (λ n, (Node.id n =? id)%string) (Db.nodes (db s)) in
  Revocation.isRevoked key now (db s) = false ∧ assigned_node_id r.1 = id ∧
  credential r.1 = Credentials.TOKEN_PREFIX +:+ rnd dr ∧ issued id (credential r.1) (rnd_id dr) now (db s') ∧
  (∃ ow org a, vouched req pk role existing ow now (db s) ∧ Enrollment.authorizeOwner ow org false (db s) = Ok a) ∧
  ∃ n, n ∈ Db.nodes (db s') ∧ Node.id n = id ∧ Node.overlay_ipv4 n = overlay_ipv4 r.1 ∧ Node.overlay_ipv6 n = overlay_ipv6 r.1.
Proof.
  intros H id ex. apply enrol_inv in H as (Hr & ow & ko & s1 & declared & vip & s2 & org & a & row & c & s5 & city & Hau & Hvip & Eau & Hup & Hi & H4 & H6 & Hset).
  apply authority_ok in Hau as [Hv [Hn1 Ha1]]. pose proof (within_run _ _ _ _ _ (settle_within cfg sha256 float4 _ _ _ _ _ _ _ _) Hset) as Hw2.
  apply settle_ok in Hset as (E1 & E2 & E3 & E4 & Hiss). rewrite E2, E3.
  destruct (enrol_row id ex vip row c s s1 s2 s5 s') as [[_ Ha2] Hrow]; try done.
  split; [done|]. split; [done|]. split; [done|]. split; [done|]. split; [|done]. exists ow, org, a. split; [done|].
  rewrite <- Eau. apply authorizeOwner_accounts. congruence.
Qed.


(** *** Coming back *)

Lemma trim_ends c s t : is_space c = false → no_space t = true → t ≠ "" → trim (String c s +:+ t) = String c s +:+ t.
Proof.
  intros Hc Ht Hne. unfold trim. assert (trim_start (String c s +:+ t) = String c s +:+ t) as -> by (rewrite append_cons; cbn; by rewrite Hc).
  rewrite js_rev_app. assert (trim_start (js_rev t +:+ js_rev (String c s)) = js_rev t +:+ js_rev (String c s)) as ->.
  { rewrite <- (js_rev_involutive t) in Hne. unfold no_space in Ht. rewrite <- all_chars_rev in Ht.
    destruct (js_rev t) as [|d r]; [done|]. rewrite append_cons. cbn in *. by destruct (is_space d). }
  rewrite <- js_rev_app. apply js_rev_involutive.
Qed.

Lemma startsWith_app p s : startsWith p (p +:+ s) = true.
Proof. unfold startsWith. induction p as [|c p IH]; [by destruct s|]. rewrite append_cons. cbn. by destruct (ascii_dec c c). Qed.

Lemma hex_lower_plain c : Vip.is_hex c = true → is_space (lower_char c) = false.
Proof. destruct c as [[] [] [] [] [] [] [] []]; vm_compute; intros E; solve [discriminate E|reflexivity]. Qed.

Lemma derived_plain key : Hex.is_hex64 key = true → no_space (ControlPlaneKey.deriveNodeId key) = true.
Proof.
  intros [_ H]%andb_true_iff. unfold ControlPlaneKey.deriveNodeId, no_space. rewrite all_chars_app. cbn [andb all_chars]. generalize 16%nat. intros k.
  assert (∀ k, all_chars (λ c, negb (is_space c)) (toLowerCase (take_string k key)) = true) as ->; [|done].
  unfold toLowerCase. clear k. induction key as [|c key IH]; intros [|k]; [done..|]. cbn in *. b2p. rewrite hex_lower_plain by done. by apply IH.
Qed.

(** The request of a node that presents a credential and names itself. *)
Definition presents (cred id : string) : NodeAuth.request :=
  NodeAuth.mk_request (Some ("Bearer " +:+ cred)) (JObj [("node_id", JStr id)]) JUndef (JObj []).

Lemma presents_bearer cred id : no_space cred = true → cred ≠ "" → NodeAuth.bearerOf (presents cred id) = cred.
Proof.
  intros Hs Hne. unfold NodeAuth.bearerOf, NodeAuth.header_bearer, presents. cbn [NodeAuth.authorization NodeAuth.body].
  change ("Bearer " +:+ cred) with (String "B" "earer " +:+ cred). rewrite trim_ends by done.
  rewrite VipFacts.lower_app. change (toLowerCase (String "B" "earer ")) with "bearer ". rewrite startsWith_app.
  change (drop_string 7 (String "B" "earer " +:+ cred)) with cred. rewrite trim_no_space by done.
  unfold NodeAuth.or_member. apply String.eqb_neq in Hne. rewrite Hne. cbn [andb]. by rewrite Hne.
Qed.

Lemma where_last {A} (p : A → bool) l x : p x = true → (∀ y, y ∈ l → p y = false) → where_ p (l ++ [x]) = [x].
Proof.
  intros Hx Hl. rewrite where_app, where_cons, Hx, where_nil. replace (where_ p l) with (@nil A); [done|]. symmetry.
  induction l as [|y l IH]; [done|]. rewrite where_cons, Hl by left. apply IH. intros z Hz. apply Hl. by right.
Qed.

(** The credential a registration answers is the node's.  For a day, and unless the node
    is quarantined, a request that presents it and names the identifier assigned is
    authenticated as that node, whatever tokens are configured. *)
Theorem registered_credential_authenticates req rc dr now s resp s' n t allow :
  register req rc dr now s = (Answer resp, s') →
  distinct (Db.nodes (db (control s))) → no_space (rnd dr) = true →
  n ∈ Db.nodes (db (control s')) → Node.id n = assigned_node_id resp → Node.is_quarantined n = false →
  t <= now + 24 * Credentials.HOUR →
  (NodeAuth.checkNodeAuth sha256 (registration_token env) (IS_PRODUCTION env) allow (presents (credential resp) (assigned_node_id resp)) t (db (control s'))).1 =
    Ok (NodeAuth.AuthNode (assigned_node_id resp) ("nc_" +:+ rnd_id dr)).
Proof.
  intros H Hd Hrnd Hn Hid Hq Ht. pose proof (register_steps req rc dr now s) as Hsteps. rewrite H in Hsteps. cbn [snd] in Hsteps.
  apply (steps_distinct _ _ _ Hsteps) in Hd as (Hu & _).
  apply register_cases in H as [(_ & _ & _ & st & e & ?)|(_ & _ & Hx & _ & o & Et & Ho)]; [done|].
  destruct o as [[resp' mm]|st e]; [|by destruct Ho]. destruct Ho as [[= <-] _]. unfold transaction in Et.
  destruct (enrol _ _ _ _ _ _ _) as [[a|] c'] eqn:Ee; [|done]. injection Et as -> ->. apply enrol_ok in Ee as (_ & Hi & Hc & (l & Hl & Hfresh) & _). cbn [fst] in *.
  assert (no_space (credential resp) = true) as Hns by (rewrite Hc; unfold no_space in *; by rewrite all_chars_app, Hrnd).
  assert (credential resp ≠ "") as Hcne by (rewrite Hc; by destruct (rnd dr)).
  assert (Node.id n = id_of req) as Hid' by (rewrite Hid; exact Hi). unfold NodeAuth.checkNodeAuth. rewrite presents_bearer by done.
  assert (startsWith "nnt1_" (credential resp) = true) as -> by (rewrite Hc; apply (startsWith_app "nnt1_")).
  unfold eff_bind. rewrite (validate_complete sha256 (credential resp) t _ (Credential.mk ("nc_" +:+ rnd_id dr) (id_of req)
    (Credentials.hashToken sha256 (credential resp)) (now + 24 * Credentials.HOUR) None None) n); try done.
  - cbn [Credential.node_id Credential.id]. unfold presents, NodeAuth.declared_in, NodeAuth.or_text. cbn [NodeAuth.body NodeAuth.query].
    rewrite Hi. fold (id_of req).
    change (field "node_id" (JObj [("node_id", JStr (id_of req))])) with (JStr (id_of req)). cbn [truthy js_String].
    rewrite (trim_no_space (id_of req)) by (by apply derived_plain). change (id_of req =? "")%string with false. cbn [negb andb].
    rewrite String.eqb_refl. reflexivity.
  - rewrite Hl. rewrite (trim_no_space _ Hns). apply where_last; [apply String.eqb_refl|]. intros c Hc'. apply String.eqb_neq. by apply Hfresh.
Qed.

(** *** Discovery *)

(** The caller of a request that passed: the node of a live credential, or nobody. *)
Definition caller (allow : bool) (req : NodeAuth.request) (now : Z) (d : Db.t) (node : option (string * string)) : Prop :=
  match node with
  | Some (id, _) => NodeAuthFacts.live_credential sha256 (NodeAuth.bearerOf req) id now d
  | None => IS_PRODUCTION env = false ∧ registration_token env = "" ∨
            allow = true ∧ registration_token env ≠ "" ∧ NodeAuth.bearerOf req = registration_token env
  end.

(** Authenticating writes only the time a credential was used. *)
Lemma checkNodeAuth_frame token prod allow req now d : ∃ l, (NodeAuth.checkNodeAuth sha256 token prod allow req now d).2 = d <| Db.node_credentials := l |>.
Proof.
  assert (∃ l, d = d <| Db.node_credentials := l |>) as Hid by (exists (Db.node_credentials d); by destruct d).
  unfold NodeAuth.checkNodeAuth. destruct (startsWith _ _).
  - unfold eff_bind. destruct (Credentials.validateCredential sha256 (JStr (NodeAuth.bearerOf req)) now d) as [o d1] eqn:E.
    assert (∃ l, d1 = d <| Db.node_credentials := l |>) as Hl.
    { unfold Credentials.validateCredential, eff_bind, get, eff_ret, modify in E. repeat case_match; simplify_eq; try done. by eexists. }
    destruct o as [[]|]; try done. by destruct (_ && _).
  - repeat case_match; done.
Qed.

Lemma authenticated_cases {A} allow req now s (k : option (string * string) → state → response A * state) a s' :
  authenticated sha256 env allow req now s k = (Answer a, s') →
  ∃ node s1 l, caller allow req now (db (control s)) node ∧ db (control s1) = (db (control s)) <| Db.node_credentials := l |> ∧
    columns (control s1) = columns (control s) ∧ k node s1 = (Answer a, s').
Proof.
  unfold authenticated, run_control, on_db. destruct (checkNodeAuth_frame (registration_token env) (IS_PRODUCTION env) allow req now (db (control s))) as [l Hl].
  destruct (NodeAuth.checkNodeAuth _ _ _ _ _ _ _) as [o d1] eqn:E. cbn [snd] in Hl. subst d1.
  destruct o as [r|st e]; [|done]. apply NodeAuthFacts.checkNodeAuth_sound in E. destruct r as [st e|id cid|]; [done|..]; intros H.
  - exists (Some (id, cid)). eexists _, l. split; [apply E|]. split; [|split; [|exact H]]; done.
  - exists None. eexists _, l. split; [exact E|]. split; [|split; [|exact H]]; done.
Qed.

Lemma find_bridges_elem among c s l f : find_bridges among c s = Ok l → f ∈ l →
  ∃ n k, n ∈ Db.nodes (db s) ∧ discoverable s among c n = true ∧ Vip.normalisePublicKeyHex (Node.public_key n) = Some k ∧
    f_node_id f = Node.id n ∧ f_public_key_hex f = k ∧ f_overlay_ipv4 f = Node.overlay_ipv4 n.
Proof.
  unfold find_bridges. destruct (pg_int (limit c)) as [lim|]; [|done]. destruct (if num_truthy _ then _ else _); [|done]. intros [= <-] Hf.
  apply list_elem_of_lookup in Hf as [i Hi]. rewrite list_lookup_imap in Hi. apply fmap_Some in Hi as ([n k] & Hn & ->).
  apply list_elem_of_lookup_2, list_elem_of_omap in Hn as (n' & Hn' & Hk). apply fmap_Some in Hk as (k' & Hk & [= -> ->]).
  apply elem_of_take in Hn' as (j & Hj & _). apply list_elem_of_lookup_2 in Hj. rewrite elem_of_js_sort, elem_of_where in Hj. destruct Hj.
  exists n', k'. by split_and!.
Qed.

End Handlers.
End BridgeFacts.

(** ** Witnesses *)

Module BridgeSamples.
Import Control Bridge Fleet BridgeFacts.

Definition env : environment := mk_environment false "" "" "" ChallengeSamples.plane.
Definition digest (s : string) : string := s.
Definition float4 (n : num) : num := n.

Notation handle_register := (register (Loc := Endpoints.c_locale) (cr := Toy.crypto) Endpoints.sample_config ChallengeSamples.toy_hmac digest float4 env).
Notation handle_discover := (discover (Coll := c_collation) (Loc := Endpoints.c_locale) Endpoints.sample_config digest env).

(** An account and an organisation, no node, and a version of everything. *)
Definition start : state :=
  mk_state (Control.mk (Db.empty <| Db.users := [User.mk "root" "root" "super-admin" "active" None] |>
                                 <| Db.organizations := [Org.plain "org-default" "default" "open"] |>
                                 <| Db.mesh_epochs := <["acl" := 1]> (<["routes" := 1]> (<["netmap" := 1]> ∅)) |>) [] ∅ 0)
    (ControlPlaneKey.mk_store ∅ ∅) (Heartbeat.mk_valkey ∅ ∅) [].

(** A node asks for a challenge and registers with it. *)
Definition request_of (private random : list Z) (role : string) : NodeAuth.request :=
  NodeAuth.mk_request None
    (match ControlPlaneKey.RegisterWithProof (cr := Toy.crypto) ChallengeSamples.toy_hmac ChallengeSamples.toy_sha256 "" private
       (public_of (Crypto := Toy.crypto) private) role [] (JObj [])  ""
       (ControlPlaneKey.mk_challenge (hex_encode random) (hex_encode (ControlPlaneKey.rawPublic ChallengeSamples.plane)) 0) with
     | inr r => ControlPlaneKey.register_body r | inl _ => JNull end) (JObj []) (JObj []).

Definition challenged (random : list Z) (s : state) : state := (challenge env ControlPlaneKey.Answers random 0 s).2.
Definition enrolling (private random : list Z) (role : string) (dr : draws) (s : state) : response registered * state :=
  handle_register (request_of private random role) ControlPlaneKey.Answers dr 1000 (challenged random s).

Definition relay_key : list Z := replicate 32 9.
Definition relay_request : NodeAuth.request := Eval vm_compute in request_of relay_key (replicate 32 1) "RELAY".
Definition relay_draws : draws := mk_draws "one" "1" "11111111-1111-4111-8111-111111111111".
Definition before : state := Eval vm_compute in challenged (replicate 32 1) start.
Definition result : response registered * state := Eval vm_compute in handle_register relay_request ControlPlaneKey.Answers relay_draws 1000 before.
Definition answered (r : response registered * state) : registered :=
  match r.1 with Answer a => a | Refuse _ _ => mk_registered "" "" "" 0 0 0 "" 0 "" end.
Definition relay : registered := Eval vm_compute in answered result.
Definition after : state := Eval vm_compute in result.2.

Lemma relay_registered : handle_register relay_request ControlPlaneKey.Answers relay_draws 1000 before = (Answer relay, after).
Proof. vm_compute. reflexivity. Defined.


Definition relay_row : Node.t := Eval vm_compute in hd (proposed_row "" "" "" "" "" "" "" JNull "") (Db.nodes (db (control after))).

Lemma registered_credential_authenticates_witness :
  (NodeAuth.checkNodeAuth digest "" false false (presents "nnt1_one" "pk_0909090909090909") 2000 (db (control after))).1 =
    Ok (NodeAuth.AuthNode "pk_0909090909090909" "nc_1").
Proof.
  refine (registered_credential_authenticates (Loc := Endpoints.c_locale) (cr := Toy.crypto) Endpoints.sample_config ChallengeSamples.toy_hmac digest float4 env
    relay_request ControlPlaneKey.Answers relay_draws 1000 before relay after relay_row 2000 false relay_registered _ _ _ _ _ _).
  - split_and!; apply NoDup_nil_2.
  - reflexivity.
  - left.
  - reflexivity.
  - reflexivity.
  - vm_compute. discriminate.
Defined.

(** Asked again with the nonce that was used. *)
Lemma replay_refused : handle_register relay_request ControlPlaneKey.Answers relay_draws 1000 after = (Refuse 401 "invalid or expired challenge nonce", after).
Proof. vm_compute. reflexivity. Defined.

Lemma registration_refused_clean_witness : audit after = audit after ∨
  "invalid or expired challenge nonce" = REVOKED_KEY ∧ audit after = audit after ++ [refusal_event "pk_0909090909090909"].
Proof.
  destruct (registration_refused_clean (Loc := Endpoints.c_locale) (cr := Toy.crypto) Endpoints.sample_config ChallengeSamples.toy_hmac digest float4 env
    relay_request ControlPlaneKey.Answers relay_draws 1000 after 401 "invalid or expired challenge nonce" after replay_refused) as (_ & _ & _ & _ & H).
  exact H.
Defined.

(** A second node, which asks for relays. *)
Definition both : state := Eval vm_compute in
  (enrolling (replicate 32 5) (replicate 32 2) "CLIENT_ORIGIN" (mk_draws "two" "2" "21111111-1111-4111-8111-111111111111") after).2.
Definition asks : NodeAuth.request := presents "nnt1_two" "pk_0505050505050505".
Definition shown : list found := Eval vm_compute in match (handle_discover asks 2000 both).1 with Answer l => l | Refuse _ _ => [] end.
Definition seen : state := Eval vm_compute in (handle_discover asks 2000 both).2.
Definition bridge : found := Eval vm_compute in hd (mk_found "" "" "" [] "" "" NaN "" 0 0) shown.

Lemma relays_shown : handle_discover asks 2000 both = (Answer shown, seen).
Proof. vm_compute. reflexivity. Defined.


(** A node whose key is revoked. *)
Definition revoked : state := Eval vm_compute in
  after <| control ::= λ c, c <| db ::= λ d, (Revocation.revokeNodeKeys 24 ["pk_0909090909090909"] "stolen" None false 2000 d).2 |> |>.

(** Another key with the same first eight bytes. *)
Definition variant_key : list Z := replicate 8 9 ++ replicate 24 10.

(** The revoked key is refused, and another key with the same first eight bytes is
    registered as the node it was revoked for, with a credential of that node. *)
Example prefix_reenrols_revoked_node :
  (enrolling relay_key (replicate 32 3) "RELAY" relay_draws revoked).1 = Refuse 403 REVOKED_KEY ∧
  let '(r, s) := enrolling variant_key (replicate 32 3) "RELAY" (mk_draws "three" "3" "31111111-1111-4111-8111-111111111111") revoked in
  assigned_node_id (answered (r, s)) = "pk_0909090909090909" ∧
  (NodeAuth.checkNodeAuth digest "" false false (presents (credential (answered (r, s))) "pk_0909090909090909") 3000 (db (control s))).1 =
    Ok (NodeAuth.AuthNode "pk_0909090909090909" "nc_3") ∧
  Node.public_key <$> Db.nodes (db (control s)) = [hex_encode relay_key].
Proof. vm_compute. split; [reflexivity|]. split; [reflexivity|]. split; reflexivity. Qed.
End BridgeSamples.
