(* ===== verification/Device.v ===== *)
(** * The WireGuard device of the node

    [pkg/dataplane/dataplane.go] (the peers of the device) and
    [pkg/crypto/pskepoch/pskepoch.go] (rotating pre-shared keys), with what they use of
    [net] and [net/netip].  wireguard-go is third-party code: [WireGuard] is its
    configuration protocol, with the documented effect of a request as laws.

    A request is a list of the lines [SetPeers] writes, as what they say; the order in
    which Go ranges over a map is a parameter.  The mutex of [SetPeers] makes every
    operation on the device one step. *)

From S2P Require Import Prelude Js Encoding Db Vip Acl Bytes Primitives Challenge Onion Netfilter.
Import Bytes.

(** ** Addresses of the standard library *)

Module GoNet.

(** [parseIPv4Fields]: the octet read so far, its digits, and the octets before it. *)
Fixpoint ipv4_fields (s : string) (val : Z) (digLen : nat) (fields : list Z) : option (list Z) :=
  match s with
  | EmptyString => if Nat.eqb (length fields) 3 then Some (fields ++ [val]) else None
  | String c s' =>
      if is_digit c then
        if Nat.eqb digLen 1 && (val =? 0) then None else
        let val' := val * 10 + (code c - 48) in
        if 255 <? val' then None else ipv4_fields s' val' (S digLen) fields
      else if code c =? 46 then
        if Nat.eqb digLen 0 || (s' =? "")%string || Nat.eqb (length fields) 3 then None
        else ipv4_fields s' 0 0 (fields ++ [val])
      else None
  end.
Definition parseIPv4 (s : string) : option (list Z) := ipv4_fields s 0 0 [].

(** The digits a group starts with, their value and what follows. *)
Fixpoint hex_field (s : string) (off : nat) (acc : Z) : nat * Z * string :=
  match s with
  | EmptyString => (off, acc, s)
  | String c s' => match hex_value c with Some v => hex_field s' (S off) (acc * 16 + v) | None => (off, acc, s) end
  end.

(** The loop over the groups: those read, where the ellipsis stands, and what is left. *)
Fixpoint ipv6_groups (n : nat) (s : string) (gs : list Z) (ellipsis : option nat) : option (list Z * option nat * string) :=
  match n with
  | O => Some (gs, ellipsis, s)
  | S n' =>
      let '(off, acc, rest) := hex_field s 0 0 in
      if Nat.eqb off 0 || Nat.ltb 4 off then None else
      match rest with
      | EmptyString => Some (gs ++ [acc], ellipsis, "")
      | String c more =>
          if code c =? 46 then
            if match ellipsis with None => negb (Nat.eqb (length gs) 6) | Some _ => false end || Nat.ltb 6 (length gs) then None else
            match parseIPv4 s with
            | Some [a; b; c; d] => Some (gs ++ [a * 256 + b; c * 256 + d], ellipsis, "")
            | _ => None
            end
          else if negb (code c =? 58) then None
          else match more with
               | EmptyString => None
               | String c' more' =>
                   let gs' := gs ++ [acc] in
                   if code c' =? 58 then
                     match ellipsis with
                     | Some _ => None
                     | None => if (more' =? "")%string then Some (gs', Some (length gs'), "")
                               else ipv6_groups n' more' gs' (Some (length gs'))
                     end
                   else ipv6_groups n' more gs' ellipsis
               end
      end
  end.

Definition group_bytes (g : Z) : list Z := [g / 256; g mod 256].

(** [parseIPv6] without a zone: sixteen bytes. *)
Definition parseIPv6 (s : string) : option (list Z) :=
  let leading := startsWith "::" s in
  let s1 := if leading then drop_string 2 s else s in
  if leading && (s1 =? "")%string then Some (replicate 16 0) else
  match ipv6_groups 8 s1 [] (if leading then Some 0%nat else None) with
  | Some (gs, ellipsis, EmptyString) =>
      match ellipsis with
      | None => if Nat.eqb (length gs) 8 then Some (gs ≫= group_bytes) else None
      | Some e => if Nat.ltb (length gs) 8
                  then Some ((take e gs ++ replicate (8 - length gs) 0 ++ drop e gs) ≫= group_bytes) else None
      end
  | _ => None
  end.

(** [ParseAddr]: the first of the three characters decides.  An address with a zone is
    refused by every caller here. *)
Fixpoint first_of (s : string) : option ascii :=
  match s with
  | EmptyString => None
  | String c s' => if (code c =? 46) || (code c =? 58) || (code c =? 37) then Some c else first_of s'
  end.
Definition ParseAddr (s : string) : option (list Z) :=
  if includes_char "%" s then None else
  match first_of s with
  | Some c => if code c =? 46 then parseIPv4 s else parseIPv6 s
  | None => None
  end.

(** The text before the last occurrence of a character, and after it. *)
Fixpoint cut_last (c : ascii) (s : string) : option (string * string) :=
  match s with
  | EmptyString => None
  | String x s' =>
      match cut_last c s' with
      | Some (a, b) => Some (String x a, b)
      | None => if code x =? code c then Some ("", s') else None
      end
  end.

Record Prefix := mk_prefix { Addr : list Z; Bits : Z }.

(** The digits of a prefix length, without sign or leading zeros. *)
Definition prefix_length (s : string) : option Z :=
  match s with
  | EmptyString => None
  | String c r =>
      if all_chars is_digit s && ((r =? "")%string || negb (code c =? 48)) then Some (take_digits s 0 0).1.1 else None
  end.

Definition ParsePrefix (s : string) : option Prefix :=
  '(a, b) ← cut_last "/" s;
  ip ← ParseAddr a;
  bits ← prefix_length b;
  if bits <=? 8 * Z.of_nat (length ip) then Some (mk_prefix ip bits) else None.

(** The text before the first occurrence of a character, and after it. *)
Fixpoint cut_first (c : ascii) (s : string) : option (string * string) :=
  match s with
  | EmptyString => None
  | String x s' =>
      if code x =? code c then Some ("", s') else '(a, b) ← cut_first c s'; Some (String x a, b)
  end.

Definition SplitHostPort (hostport : string) : option (string * string) :=
  '(before, port) ← cut_last ":" hostport;
  match hostport with
  | String "[" inside =>
      '(host, rest) ← cut_first "]" inside;
      if (before =? "[" +:+ host +:+ "]")%string && negb (includes_char "[" inside) && negb (includes_char "]" rest)
      then Some (host, port) else None
  | _ =>
      if includes_char ":" before || includes_char "[" hostport || includes_char "]" hostport then None else Some (before, port)
  end.
End GoNet.

(** ** The engine *)

(** A line of a configuration request. *)
Inductive directive :=
  | public_key (key : string)
  | remove
  | replace_allowed_ips
  | allowed_ip (p : GoNet.Prefix)
  | endpoint (e : string)
  | preshared_key (key : string)
  | persistent_keepalive_interval (n : Z).

#[export] Instance prefix_eq_dec : EqDecision GoNet.Prefix.
Proof. solve_decision. Defined.

Module Engine.
Record peer := mk_peer { allowed : list GoNet.Prefix; address : string; psk : string; keepalive : Z }.
Definition fresh : peer := mk_peer [] "" "" 0.

Definition without (p : GoNet.Prefix) (x : peer) : peer := x <| allowed ::= base.filter (λ q, q ≠ p) |>.

(** The effect of one line on the peers; the cursor is the peer that is configured,
    none after its removal.  A prefix belongs to the last peer it was given to. *)
Definition line (l : directive) (st : option string * gmap string peer) : option string * gmap string peer :=
  let '(cursor, ps) := st in
  let on f := match cursor with Some k => alter f k ps | None => ps end in
  match l with
  | public_key k => (Some k, match ps !! k with Some _ => ps | None => <[k := fresh]> ps end)
  | remove => (None, match cursor with Some k => delete k ps | None => ps end)
  | replace_allowed_ips => (cursor, on (λ x, x <| allowed := [] |>))
  | allowed_ip p =>
      (cursor, match cursor with
               | Some k => alter (λ x, x <| allowed ::= λ l, l ++ [p] |>) k (without p <$> ps)
               | None => ps end)
  | endpoint e => (cursor, on (λ x, x <| address := e |>))
  | preshared_key s => (cursor, on (λ x, x <| psk := s |>))
  | persistent_keepalive_interval n => (cursor, on (λ x, x <| keepalive := n |>))
  end.

Definition run (ls : list directive) (st : option string * gmap string peer) : option string * gmap string peer :=
  foldl (λ st l, line l st) st ls.
Definition request (ls : list directive) (ps : gmap string peer) : gmap string peer := (run ls (None, ps)).2.
End Engine.

(** wireguard-go: its state, the peers in it, and [IpcSet] with whether it succeeded. *)
Class WireGuard := {
  wg_state : Type;
  peers_of : wg_state → gmap string Engine.peer;
  IpcSet : list directive → wg_state → bool * wg_state;
}.

(** A request is applied line by line; one that fails may have been applied in part. *)
Class WireGuardLaws (wg : WireGuard) : Prop := {
  ipc_applied : ∀ ls w w', IpcSet ls w = (true, w') → peers_of w' = Engine.request ls (peers_of w);
  ipc_failed : ∀ ls w w', IpcSet ls w = (false, w') → ∃ k, peers_of w' = Engine.request (take k ls) (peers_of w);
}.

(** ** The device *)

Module Device.

Record Peer := mk_peer {
  PublicKey : string; Endpoint : string; AllowedIPs : list GoNet.Prefix; PersistentKeepalive : Z; PresharedKey : string;
}.

Definition MaxUint64 : Z := 2 ^ 64 - 1.

Definition decodeKey (s : string) : option (list Z) :=
  raw ← Hex.DecodeString (trim s); if Nat.eqb (length raw) 32 then Some raw else None.
Definition is_key (s : string) : bool := match decodeKey s with Some _ => true | None => false end.

Definition validate (p : Peer) : bool :=
  is_key (PublicKey p) && ((PresharedKey p =? "")%string || is_key (PresharedKey p)) &&
  negb (Nat.eqb (length (AllowedIPs p)) 0) &&
  ((Endpoint p =? "")%string || match GoNet.SplitHostPort (Endpoint p) with Some _ => true | None => false end).

(** [strings.ToLower(strings.TrimSpace(key))] *)
Definition key_of (p : Peer) : string := toLowerCase (trim (PublicKey p)).

Inductive error := ErrClosed | InvalidPeer | DuplicateKey | EpochExhausted | IpcError.

Section WithEngine.
Context {wg : WireGuard} (range : gset string → list string).

Record t := mk { closed : bool; peerKeys : gset string; counterEpoch : Z; engine : wg_state }.

(** The device of [New], whose engine has no peer. *)
Definition New (w : wg_state) : t := mk false ∅ 1 w.

(** The loop that validates: the keys seen, or the first error. *)
Fixpoint check_peers (peers : list Peer) (seen : gset string) : error + gset string :=
  match peers with
  | [] => inr seen
  | p :: rest =>
      if negb (validate p) then inl InvalidPeer
      else if bool_decide (key_of p ∈ seen) then inl DuplicateKey
      else check_peers rest ({[key_of p]} ∪ seen)
  end.

Definition removal (key : string) : list directive := [public_key key; remove].
Definition setting (p : Peer) : list directive :=
  [public_key (key_of p); replace_allowed_ips] ++ (allowed_ip <$> AllowedIPs p) ++
  (if (Endpoint p =? "")%string then [] else [endpoint (Endpoint p)]) ++
  (if (PresharedKey p =? "")%string then [] else [preshared_key (toLowerCase (trim (PresharedKey p)))]) ++
  [persistent_keepalive_interval (PersistentKeepalive p)].

(** The request: the peers that are gone, then the peers given. *)
Definition peers_request (known seen : gset string) (peers : list Peer) : list directive :=
  (range (known ∖ seen) ≫= removal) ++ (peers ≫= setting).

Definition SetPeers (peers : list Peer) (d : t) : option error * t :=
  if closed d then (Some ErrClosed, d) else
  match check_peers peers ∅ with
  | inl e => (Some e, d)
  | inr seen =>
      let changed := negb (bool_decide (seen = peerKeys d)) in
      if changed && (counterEpoch d =? MaxUint64) then (Some EpochExhausted, d) else
      let d1 := d <| counterEpoch := (if changed then counterEpoch d + 1 else counterEpoch d) |> in
      let '(ok, w) := IpcSet (peers_request (peerKeys d) seen peers) (engine d1) in
      if ok then (None, d1 <| engine := w |> <| peerKeys := seen |>)
      else (Some IpcError, d1 <| engine := w |>)
  end.

Definition UpdatePeerPSK (peerPubHex pskHex : string) (d : t) : option error * t :=
  if closed d then (Some ErrClosed, d) else
  let pubKey := toLowerCase (trim peerPubHex) in
  if negb (is_key pubKey) then (Some InvalidPeer, d) else
  let psk := toLowerCase (trim pskHex) in
  if negb (psk =? "")%string && negb (is_key psk) then (Some InvalidPeer, d) else
  let '(ok, w) := IpcSet [public_key pubKey; preshared_key psk] (engine d) in
  (if ok then None else Some IpcError, d <| engine := w |>).

Definition Close (d : t) : t := d <| closed := true |>.

(** The peers packets are routed to: those with an allowed prefix. *)
Definition routed (d : t) (key : string) (p : GoNet.Prefix) : Prop :=
  ∃ x, peers_of (engine d) !! key = Some x ∧ p ∈ Engine.allowed x.
End WithEngine.
Arguments t : clear implicits.
Arguments t {wg}.
End Device.

(** ** Rotating pre-shared keys *)

Module PskEpoch.
Section WithEngine.
Context {cr : Crypto} {wg : WireGuard} (range : gset string → list string).

Definition PSKDomainSeparator : string := "neronet-rosenpass-pq-psk-v1".
Definition DefaultRotationInterval : Z := 120 * 10 ^ 9.

Definition DeriveEpochPSK (localPriv peerPub : list Z) (epoch : Z) : option (list Z) :=
  dh ← DH localPriv peerPub;
  Some (Onion.DeriveKey dh (put_be 8 epoch) (Hex.utf8 PSKDomainSeparator)).

Record Manager := mk_manager { localPriv : list Z; interval : Z; peers : gset string; lastEpoch : Z }.

Definition NewManager (priv : list Z) (every : Z) : Manager :=
  mk_manager priv (if every <=? 0 then DefaultRotationInterval else every) ∅ 0.

Definition CurrentEpoch (t : Z) (m : Manager) : Z := uint 64 (Z.quot t (interval m)).

(** One key of the loop of [rotateLocked]; an error is logged. *)
Definition install (m : Manager) (epoch : Z) (d : Device.t) (pubHex : string) : Device.t :=
  match (peerPub ← Hex.DecodeString pubHex; DeriveEpochPSK (localPriv m) peerPub epoch) with
  | Some psk => (Device.UpdatePeerPSK pubHex (hex_encode psk) d).2
  | None => d
  end.

Definition rotateLocked (t : Z) (md : Manager * Device.t) : Manager * Device.t :=
  let '(m, d) := md in
  let epoch := CurrentEpoch t m in
  (m <| lastEpoch := epoch |>, foldl (install m epoch) d (range (peers m))).

Definition SetPeers (peerPubHexes : list string) (t : Z) (md : Manager * Device.t) : Manager * Device.t :=
  let '(m, d) := md in
  let keys := base.filter (λ k, Device.is_key k = true) ((λ raw, toLowerCase (trim raw)) <$> peerPubHexes) in
  rotateLocked t (m <| peers := list_to_set keys |>, d).

(** One poll of [loop]. *)
Definition poll (t : Z) (md : Manager * Device.t) : Manager * Device.t :=
  if CurrentEpoch t md.1 =? lastEpoch md.1 then md else rotateLocked t md.
End WithEngine.
End PskEpoch.

(** ** The text of a key *)

Module KeyText.

Lemma lower_space c : is_space (lower_char c) = is_space c.
Proof. destruct c as [[] [] [] [] [] [] [] []]; vm_compute; reflexivity. Qed.
Lemma lower_lower_char c : lower_char (lower_char c) = lower_char c.
Proof. destruct c as [[] [] [] [] [] [] [] []]; vm_compute; reflexivity. Qed.

Lemma lower_lower s : toLowerCase (toLowerCase s) = toLowerCase s.
Proof. unfold toLowerCase. induction s as [|c s IH]; [done|]. cbn. by rewrite IH, lower_lower_char. Qed.

Lemma trim_start_lower s : trim_start (toLowerCase s) = toLowerCase (trim_start s).
Proof. unfold toLowerCase. induction s as [|c s IH]; [done|]. cbn. rewrite lower_space. by destruct (is_space c). Qed.

Lemma js_rev_lower s : js_rev (toLowerCase s) = toLowerCase (js_rev s).
Proof.
  induction s as [|c s IH]; [done|]. change (String c s) with (String c "" +:+ s). rewrite VipFacts.lower_app, !js_rev_app, IH, VipFacts.lower_app. done.
Qed.

Lemma trim_lower s : trim (toLowerCase s) = toLowerCase (trim s).
Proof. unfold trim. by rewrite trim_start_lower, js_rev_lower, trim_start_lower, js_rev_lower. Qed.

Lemma trim_start_split s : ∃ w, s = w +:+ trim_start s ∧ trim_start (trim_start s) = trim_start s.
Proof.
  induction s as [|c s (w & E & Ht)]; [by exists ""|]. cbn. destruct (is_space c) eqn:Ec; [|exists ""; split; [done|]; cbn; by rewrite Ec].
  exists (String c w). split; [by rewrite append_cons, <- E|done].
Qed.

Lemma trim_trim s : trim (trim s) = trim s.
Proof.
  unfold trim. destruct (trim_start_split s) as (_ & _ & Hu). set (u := trim_start s) in *. destruct (trim_start_split (js_rev u)) as (w & Ew & Hv). set (v := trim_start (js_rev u)) in *.
  assert (trim_start (js_rev v) = js_rev v) as ->.
  { apply (f_equal js_rev) in Ew. rewrite js_rev_involutive, js_rev_app in Ew. destruct (js_rev v) as [|c r]; [done|].
    rewrite Ew in Hu. rewrite append_cons in Hu. cbn in Hu |- *. destruct (is_space c); [|done].
    exfalso. apply (f_equal String.length) in Hu. cbn in Hu. assert (∀ t, (String.length (trim_start t) <= String.length t)%nat) as Hlen by (clear; induction t as [|x t IH]; cbn; [lia|destruct (is_space x); cbn; lia]).
    specialize (Hlen (r +:+ js_rev w)). lia. }
  by rewrite js_rev_involutive, Hv.
Qed.

Lemma key_text s : toLowerCase (trim (toLowerCase (trim s))) = toLowerCase (trim s).
Proof. by rewrite trim_lower, trim_trim, lower_lower. Qed.
End KeyText.

(** ** What a request does *)

Module DeviceFacts.
Import Engine Device.

Definition route (ps : gmap string peer) (k : string) (q : GoNet.Prefix) : Prop := ∃ x, ps !! k = Some x ∧ q ∈ allowed x.

Lemma run_app ls ls' st : run (ls ++ ls') st = run ls' (run ls st).
Proof. apply foldl_app. Qed.

Lemma route_alter f k ps j q : (∀ x, allowed (f x) = allowed x) → route (alter f k ps) j q ↔ route ps j q.
Proof.
  intros Hf. unfold route. rewrite lookup_alter. case_decide as E; [subst j|done]. destruct (ps !! k) as [x|]; cbn; [|done].
  split; intros (y & [= <-] & Hy); eexists; (split; [done|]); by rewrite ?Hf in *.
Qed.

Lemma route_given p k ps j q : is_Some (ps !! k) →
  route (alter (λ x, x <| allowed ::= λ l, l ++ [p] |>) k (without p <$> ps)) j q ↔ (j = k ∧ q = p) ∨ (route ps j q ∧ q ≠ p).
Proof.
  intros [y Hy]. unfold route. rewrite lookup_alter, !lookup_fmap. case_decide as E.
  - subst j. rewrite Hy. cbn. split.
    + intros (x & [= <-] & Hx). change (q ∈ base.filter (λ q, q ≠ p) (allowed y) ++ [p]) in Hx. rewrite elem_of_app, list_elem_of_filter, list_elem_of_singleton in Hx. naive_solver.
    + intros H. eexists. split; [done|]. change (q ∈ base.filter (λ q, q ≠ p) (allowed y) ++ [p]). rewrite elem_of_app, list_elem_of_filter, list_elem_of_singleton.
      destruct (decide (q = p)); [by right|left]. destruct H as [[_ ?]|[(x & [= <-] & ?) ?]]; done.
  - split.
    + intros (x & Hx & Hq). apply fmap_Some in Hx as (z & Ez & ->). change (q ∈ base.filter (λ q, q ≠ p) (allowed z)) in Hq.
      apply list_elem_of_filter in Hq as [? ?]. right. eauto.
    + intros [[-> _]|[(x & -> & Hx) Hq]]; [done|]. cbn. eexists. split; [done|]. change (q ∈ base.filter (λ q, q ≠ p) (allowed x)). by apply list_elem_of_filter.
Qed.

(** The prefixes of a peer. *)
Lemma run_given l k ps : is_Some (ps !! k) → ∃ ps', run (allowed_ip <$> l) (Some k, ps) = (Some k, ps') ∧ dom ps' = dom ps ∧
  ∀ j q, route ps' j q ↔ if decide (q ∈ l) then j = k else route ps j q.
Proof.
  revert ps. induction l as [|p l IH]; intros ps Hk; [exists ps; by split_and!|]. cbn [fmap list_fmap run foldl line].
  set (ps1 := alter _ k (without p <$> ps)). assert (dom ps1 = dom ps) as Hd by (subst ps1; by rewrite dom_alter_L, dom_fmap_L).
  assert (is_Some (ps1 !! k)) as Hk1 by (apply elem_of_dom; rewrite Hd; by apply elem_of_dom).
  destruct (IH ps1 Hk1) as (ps' & Hr & Hd' & H). exists ps'. split; [exact Hr|]. split; [congruence|]. intros j q. rewrite H.
  pose proof (route_given p k ps j q Hk) as G. fold ps1 in G. repeat case_decide; try set_solver; rewrite ?G; naive_solver.
Qed.

(** Lines that leave the prefixes alone. *)
Definition plain (k : string) (x : directive) : Prop :=
  ∃ f, (∀ y, allowed (f y) = allowed y) ∧ ∀ ps, line x (Some k, ps) = (Some k, alter f k ps).

Lemma run_plain k l ps : Forall (plain k) l → ∃ ps', run l (Some k, ps) = (Some k, ps') ∧ dom ps' = dom ps ∧ ∀ j q, route ps' j q ↔ route ps j q.
Proof.
  intros H. revert ps. induction H as [|x l (f & Hf & Hx) _ IH]; intros ps; [by exists ps|]. cbn [run foldl]. rewrite Hx.
  destruct (IH (alter f k ps)) as (ps' & Hr & Hd & Hq). exists ps'. split; [exact Hr|]. split; [by rewrite Hd, dom_alter_L|].
  intros j q. rewrite Hq. by apply route_alter.
Qed.

(** The peer is there, with no prefix. *)
Lemma run_select k ps c : ∃ ps', run [public_key k; replace_allowed_ips] (c, ps) = (Some k, ps') ∧ dom ps' = {[k]} ∪ dom ps ∧
  ∀ j q, route ps' j q ↔ route ps j q ∧ j ≠ k.
Proof.
  cbn [run foldl line]. set (ps1 := match ps !! k with Some _ => ps | None => _ end). eexists. split; [done|]. split.
  - rewrite dom_alter_L. subst ps1. destruct (ps !! k) eqn:E; [|by rewrite dom_insert_L]. apply elem_of_dom_2 in E. set_solver.
  - intros j q. subst ps1. unfold route. rewrite lookup_alter. case_decide as E.
    + subst j. split; [|naive_solver]. intros (x & Hx & Hq). apply fmap_Some in Hx as (y & _ & ->). cbn in Hq. by apply elem_of_nil in Hq.
    + destruct (ps !! k) eqn:Ek; [naive_solver|]. rewrite lookup_insert_ne by done. naive_solver.
Qed.

Lemma run_setting p ps c : ∃ ps', run (setting p) (c, ps) = (Some (key_of p), ps') ∧ dom ps' = {[key_of p]} ∪ dom ps ∧
  ∀ j q, route ps' j q ↔ if decide (q ∈ AllowedIPs p) then j = key_of p else route ps j q ∧ j ≠ key_of p.
Proof.
  unfold setting. rewrite run_app, run_app. destruct (run_select (key_of p) ps c) as (ps2 & -> & Hd2 & Hr2).
  destruct (run_given (AllowedIPs p) (key_of p) ps2) as (ps3 & -> & Hd3 & Hr3); [apply elem_of_dom; set_solver|].
  match goal with |- context [run ?l (Some _, ps3)] => destruct (run_plain (key_of p) l ps3) as (ps4 & -> & Hd4 & Hr4) end.
  { rewrite !Forall_app. split_and!; [destruct (_ =? _)%string; [done|]..|]; apply Forall_singleton; (eexists; split; [|intros ?; reflexivity]); done. }
  exists ps4. split; [done|]. split; [congruence|]. intros j q. rewrite Hr4, Hr3. case_decide; [done|apply Hr2].
Qed.

Lemma run_removal k ps c : ∃ c' ps', run (removal k) (c, ps) = (c', ps') ∧ dom ps' = dom ps ∖ {[k]} ∧ ∀ j q, route ps' j q ↔ route ps j q ∧ j ≠ k.
Proof.
  cbn [removal run foldl line]. eexists _, _. split; [done|]. split.
  - rewrite dom_delete_L. destruct (ps !! k); [done|]. rewrite dom_insert_L. set_solver.
  - intros j q. unfold route. rewrite lookup_delete. case_decide as E; [naive_solver|].
    destruct (ps !! k); [naive_solver|]. rewrite lookup_insert_ne by done. naive_solver.
Qed.

Lemma run_removals ks ps c : ∃ c' ps', run (ks ≫= removal) (c, ps) = (c', ps') ∧ dom ps' = dom ps ∖ list_to_set ks ∧
  ∀ j q, route ps' j q ↔ route ps j q ∧ j ∉ ks.
Proof.
  revert ps c. induction ks as [|k ks IH]; intros ps c; [exists c, ps; split_and!; [done|set_solver|set_solver]|].
  rewrite bind_cons, run_app. destruct (run_removal k ps c) as (c1 & ps1 & -> & Hd1 & Hr1). destruct (IH ps1 c1) as (c2 & ps2 & -> & Hd2 & Hr2).
  exists c2, ps2. split; [done|]. split; [rewrite Hd2, Hd1; set_solver|]. intros j q. rewrite Hr2, Hr1. set_solver.
Qed.

(** Whom a prefix is given to: the last peer that lists it. *)
Fixpoint given (peers : list Peer) (k : string) (q : GoNet.Prefix) (before : Prop) : Prop :=
  match peers with
  | [] => before
  | p :: rest => given rest k q (if decide (q ∈ AllowedIPs p) then k = key_of p else before ∧ k ≠ key_of p)
  end.

Lemma given_iff peers k q P P' : (P ↔ P') → given peers k q P ↔ given peers k q P'.
Proof. revert P P'. induction peers as [|p peers IH]; intros P P' H; [done|]. cbn. apply IH. case_decide; [done|]. by rewrite H. Qed.

Lemma run_settings peers ps c : ∃ c' ps', run (peers ≫= setting) (c, ps) = (c', ps') ∧ dom ps' = list_to_set (key_of <$> peers) ∪ dom ps ∧
  ∀ j q, route ps' j q ↔ given peers j q (route ps j q).
Proof.
  revert ps c. induction peers as [|p peers IH]; intros ps c; [exists c, ps; split_and!; [done|set_solver|done]|].
  rewrite bind_cons, run_app. destruct (run_setting p ps c) as (ps1 & -> & Hd1 & Hr1). destruct (IH ps1 (Some (key_of p))) as (c2 & ps2 & -> & Hd2 & Hr2).
  exists c2, ps2. split; [done|]. split; [rewrite Hd2, Hd1; set_solver|]. intros j q. rewrite Hr2. cbn [given]. apply given_iff, Hr1.
Qed.

(** Only the peers given have prefixes, and only theirs, unless a peer was there before. *)
Lemma given_sound peers k q P : given peers k q P → P ∧ k ∉ key_of <$> peers ∨ ∃ p, p ∈ peers ∧ key_of p = k ∧ q ∈ AllowedIPs p.
Proof.
  revert P. induction peers as [|p peers IH]; intros P H; [left; split; [done|apply not_elem_of_nil]|]. cbn in H. apply IH in H as [[H Hn]|(p' & Hp & E & Hq)].
  - case_decide; [subst k; right; exists p; split_and!; [left|done|done]|left; set_solver].
  - right. exists p'. split_and!; [by right|done|done].
Qed.

Lemma given_complete peers k q P p : p ∈ peers → key_of p = k → q ∈ AllowedIPs p →
  (∀ p', p' ∈ peers → q ∈ AllowedIPs p' → key_of p' = k) → NoDup (key_of <$> peers) → given peers k q P.
Proof.
  assert (∀ l (Q : Prop), Q → (∀ p', p' ∈ l → q ∉ AllowedIPs p' ∧ key_of p' ≠ k) → given l k q Q) as Hkeep.
  { induction l as [|x l IH]; intros Q HQ Hl; [done|]. cbn. apply IH; [|intros; apply Hl; by right]. destruct (Hl x) as [Hx Hk]; [left|]. rewrite decide_False by done. done. }
  revert P. induction peers as [|x peers IH]; intros P Hp Hk Hq Hu Hnd; [by apply elem_of_nil in Hp|]. cbn. apply NoDup_cons in Hnd as [Hx Hnd].
  apply elem_of_cons in Hp as [<-|Hp].
  - rewrite decide_True by done. apply Hkeep; [done|]. intros p' Hp'.
    assert (key_of p' ≠ k) as Hne by (intros E; apply Hx; rewrite Hk, <- E; by apply list_elem_of_fmap_2). split; [|done]. intros Hq'. apply Hne, Hu; [by right|done].
  - apply IH; try done. intros p' Hp'. apply Hu. by right.
Qed.

Lemma check_peers_spec peers seen : match check_peers peers seen with
  | inr s => Forall (λ p, validate p = true) peers ∧ NoDup (key_of <$> peers) ∧ (∀ p, p ∈ peers → key_of p ∉ seen) ∧ s = list_to_set (key_of <$> peers) ∪ seen
  | inl _ => ¬ (Forall (λ p, validate p = true) peers ∧ NoDup (key_of <$> peers) ∧ ∀ p, p ∈ peers → key_of p ∉ seen)
  end.
Proof.
  revert seen. induction peers as [|p peers IH]; intros seen; cbn [check_peers]; [split_and!; [constructor|constructor|set_solver|set_solver]|].
  destruct (validate p) eqn:Ev; cbn [negb]; [|intros (H & _); apply Forall_cons in H as [H _]; congruence].
  case_bool_decide as Hs; [intros (_ & _ & H); apply (H p); [left|done]|].
  specialize (IH ({[key_of p]} ∪ seen)). destruct (check_peers peers _).
  - intros (H1 & H2 & H3). apply IH. apply Forall_cons in H1 as [_ H1]. apply NoDup_cons in H2 as [Hn H2]. split_and!; [done|done|].
    intros x Hx. pose proof (list_elem_of_fmap_2 key_of peers x Hx) as Hk. assert (key_of x ∉ seen) by (apply H3; by right). set_solver.
  - destruct IH as (H1 & H2 & H3 & ->). split_and!; [by constructor| | |set_solver].
    + apply NoDup_cons. split; [|done]. intros (x & E & Hx)%list_elem_of_fmap. apply (H3 x Hx). set_solver.
    + intros x [->|Hx]%elem_of_cons; [done|]. specialize (H3 x Hx). set_solver.
Qed.

Section Keys.
Context {wg : WireGuard} {laws : WireGuardLaws wg}.

(** A pre-shared key changes no route, even when the peer is not there. *)
Lemma UpdatePeerPSK_routes key psk d : let d' := (UpdatePeerPSK key psk d).2 in
  closed d' = closed d ∧ peerKeys d' = peerKeys d ∧ ∀ k q, routed d' k q ↔ routed d k q.
Proof.
  unfold UpdatePeerPSK. destruct (closed d) eqn:Ec; [by cbn; rewrite Ec|]. destruct (negb (is_key _)); [by cbn; rewrite Ec|]. destruct (_ && _); [by cbn; rewrite Ec|].
  set (ls := [public_key _; preshared_key _]). assert (∀ n ps k q, route (request (take n ls) ps) k q ↔ route ps k q) as H.
  { intros n ps k q. subst ls. assert (∀ key, route (match ps !! key with Some _ => ps | None => <[key := fresh]> ps end) k q ↔ route ps k q) as Hf.
    { intros j. destruct (ps !! j) eqn:E; [done|]. unfold route. rewrite lookup_insert. case_decide; [subst j|done]. rewrite E.
      split; [intros (x & [= <-] & Hx); by apply elem_of_nil in Hx|naive_solver]. }
    destruct n as [|[|n]]; [done|apply Hf|]. rewrite take_ge by (cbn; lia). unfold request. cbn [run foldl line snd]. etrans; [by apply route_alter|apply Hf]. }
  destruct (IpcSet ls (engine d)) as [[] w] eqn:E; (split; [exact Ec|]; split; [done|]); intros k q; change (route (peers_of w) k q ↔ route (peers_of (engine d)) k q).
  - apply ipc_applied in E. rewrite E, <- (take_ge ls 2) by done. apply H.
  - apply ipc_failed in E as [n ->]. apply H.
Qed.
End Keys.

Section Operations.
Context {wg : WireGuard} {laws : WireGuardLaws wg} (range : gset string → list string).
Hypothesis range_all : ∀ s k, k ∈ range s ↔ k ∈ s.
Abbreviation SetPeers := (Device.SetPeers range).

(** Packets are only routed to peers of the last set that was applied. *)
Definition tracked (d : Device.t) : Prop := ∀ k q, routed d k q → k ∈ peerKeys d.

Lemma SetPeers_ok peers d d' : SetPeers peers d = (None, d') → tracked d →
  closed d' = closed d ∧ peerKeys d' = list_to_set (key_of <$> peers) ∧ tracked d' ∧
  (∀ k q, routed d' k q → ∃ p, p ∈ peers ∧ key_of p = k ∧ q ∈ AllowedIPs p) ∧
  (∀ p q, p ∈ peers → q ∈ AllowedIPs p → (∀ p', p' ∈ peers → q ∈ AllowedIPs p' → key_of p' = key_of p) → routed d' (key_of p) q) ∧
  Forall (λ p, validate p = true) peers ∧ NoDup (key_of <$> peers).
Proof.
  unfold Device.SetPeers. destruct (closed d) eqn:Ec; [done|]. pose proof (check_peers_spec peers ∅) as Hc. destruct (check_peers peers ∅) as [e|seen]; [done|].
  destruct Hc as (Hv & Hnd & _ & ->). destruct (_ && _); [done|]. set (ls := peers_request _ _ _ _).
  destruct (IpcSet ls _) as [[] w] eqn:Ei; [|done]. intros [= <-] Ht. apply ipc_applied in Ei. subst ls. unfold request, peers_request in Ei. rewrite run_app in Ei.
  match type of Ei with context [run (range ?x ≫= removal) (None, ?ps)] => destruct (run_removals (range x) ps None) as (c1 & ps1 & E1 & _ & Hr1); rewrite E1 in Ei end.
  destruct (run_settings peers ps1 c1) as (c2 & ps2 & E2 & _ & Hr2). rewrite E2 in Ei. cbn [snd] in Ei.
  assert (∀ k q, (∃ x, peers_of w !! k = Some x ∧ q ∈ allowed x) → ∃ p, p ∈ peers ∧ key_of p = k ∧ q ∈ AllowedIPs p) as Hs.
  { intros k q H. rewrite Ei in H. apply Hr2, given_sound in H as [[H Hn]|H]; [exfalso|done]. apply Hr1 in H as [H Hk]. apply Hk, range_all.
    apply elem_of_difference. split; [by apply (Ht k q)|]. rewrite union_empty_r_L, elem_of_list_to_set. done. }
  split_and!; try done; cbn.
  - by rewrite union_empty_r_L.
  - intros k q (p & Hp & <- & _)%Hs. change (key_of p ∈ list_to_set (key_of <$> peers) ∪ (∅ : gset string)). rewrite union_empty_r_L, elem_of_list_to_set. by apply list_elem_of_fmap_2.
  - intros p q Hp Hq Hu. change (route (peers_of w) (key_of p) q). rewrite Ei. apply Hr2. by apply (given_complete peers _ q _ p).
Qed.

Lemma SetPeers_refused peers d e d' : SetPeers peers d = (Some e, d') → e ≠ IpcError → d' = d.
Proof.
  unfold Device.SetPeers. destruct (closed d); [by intros [= _ <-]|]. destruct (check_peers peers ∅); [by intros [= _ <-]|].
  destruct (_ && _); [by intros [= _ <-]|]. destruct (IpcSet _ _) as [[] w]; [done|]. by intros [= <- _].
Qed.

End Operations.
End DeviceFacts.

(** ** Pre-shared keys *)

Module PskFacts.
Import Engine Device PskEpoch.

Definition psk_of {wg : WireGuard} (d : Device.t) (k : string) : option string := psk <$> peers_of (engine d) !! k.

(** The keys of a manager are written as the device writes them. *)
Definition plain_keys (m : PskEpoch.Manager) : Prop := ∀ k, k ∈ PskEpoch.peers m → toLowerCase (trim k) = k.

Lemma request_psk k s ps j : psk <$> request [public_key k; preshared_key s] ps !! j = if decide (j = k) then Some s else psk <$> ps !! j.
Proof.
  unfold request. cbn [run foldl line snd]. rewrite lookup_alter. case_decide as E; [subst j|].
  - rewrite decide_True by done. destruct (ps !! k) as [x|] eqn:Ek; [by rewrite Ek|by rewrite lookup_insert, decide_True].
  - rewrite decide_False by done. destruct (ps !! k); [done|]. by rewrite lookup_insert_ne.
Qed.

Section Keys.
Context {cr : Crypto} {wg : WireGuard} {laws : WireGuardLaws wg} (range : gset string → list string).
Hypothesis range_all : ∀ s k, k ∈ range s ↔ k ∈ s.
Hypothesis hkdf_bytes : ∀ s salt info, bytes (hkdf_sha256 s salt info).
Hypothesis ipc_taken : ∀ ls w, (IpcSet ls w).1 = true.

Lemma derived_key s salt info : let k := Onion.DeriveKey s salt info in bytes k ∧ is_key (hex_encode k) = true ∧ toLowerCase (trim (hex_encode k)) = hex_encode k.
Proof.
  cbv zeta. set (k := Onion.DeriveKey s salt info). assert (bytes k ∧ length k = 32%nat) as [Hb Hl].
  { subst k. unfold Onion.DeriveKey. split; [|apply fit_length]. unfold fit. apply Forall_take, bytes_app. split; [done|]. apply Forall_replicate. unfold is_uint. lia. }
  destruct (HexFacts.hex_encode_plain k Hb) as (Hs & _ & Hlow & _). split; [done|]. unfold is_key, decodeKey.
  rewrite trim_no_space, HexFacts.DecodeString_encode by done. cbn [mbind option_bind]. by rewrite Hl, Hlow.
Qed.

Lemma UpdatePeerPSK_psk key s d : closed d = false → toLowerCase (trim key) = key → is_key key = true → is_key s = true → toLowerCase (trim s) = s →
  let d' := (UpdatePeerPSK key s d).2 in closed d' = false ∧ ∀ j, psk_of d' j = if decide (j = key) then Some s else psk_of d j.
Proof.
  intros Hc Hk Hik Hs Es. unfold UpdatePeerPSK. rewrite Hc, Hk, Hik, Es, Hs, andb_false_r. cbn [negb].
  destruct (IpcSet _ (engine d)) as [ok w] eqn:Ei. pose proof (ipc_taken [public_key key; preshared_key s] (engine d)) as Ht. rewrite Ei in Ht. cbn in Ht. subst ok.
  cbn [snd]. split; [done|]. intros j. unfold psk_of. change (engine (d <| engine := w |>)) with w. rewrite (ipc_applied _ _ _ Ei). apply request_psk.
Qed.

Lemma install_others m epoch d j : closed d = false → toLowerCase (trim j) = j →
  let d' := install m epoch d j in closed d' = false ∧ ∀ k, k ≠ j → psk_of d' k = psk_of d k.
Proof.
  intros Hc Hj. unfold install. destruct (_ ≫= _) as [p|] eqn:E; [|done]. apply bind_Some in E as (pub & _ & E). apply bind_Some in E as (dh & _ & [= <-]).
  destruct (derived_key dh (put_be 8 epoch) (Hex.utf8 PSKDomainSeparator)) as (_ & Hs & Es). destruct (is_key j) eqn:Ej.
  - destruct (UpdatePeerPSK_psk j _ d Hc Hj Ej Hs Es) as [H1 H2]. split; [done|]. intros k Hk. by rewrite H2, decide_False.
  - unfold UpdatePeerPSK. by rewrite Hc, Hj, Ej.
Qed.

Lemma install_own m epoch d pub dh : closed d = false → bytes pub → length pub = 32%nat → DH (localPriv m) pub = Some dh →
  psk_of (install m epoch d (hex_encode pub)) (hex_encode pub) = Some (hex_encode (Onion.DeriveKey dh (put_be 8 epoch) (Hex.utf8 PSKDomainSeparator))).
Proof.
  intros Hc Hb Hl Hdh. unfold install. rewrite HexFacts.DecodeString_encode by done. cbn [mbind option_bind]. unfold DeriveEpochPSK. rewrite Hdh. cbn [mbind option_bind].
  destruct (derived_key dh (put_be 8 epoch) (Hex.utf8 PSKDomainSeparator)) as (_ & Hs & Es). destruct (HexFacts.hex_encode_plain pub Hb) as (Hsp & _ & Hlow & _).
  assert (is_key (hex_encode pub) = true) as Hkey.
  { unfold is_key, decodeKey. rewrite trim_no_space, HexFacts.DecodeString_encode by done. cbn [mbind option_bind]. by rewrite Hl. }
  destruct (UpdatePeerPSK_psk (hex_encode pub) _ d Hc ltac:(by rewrite trim_no_space) Hkey Hs Es) as [_ H]. by rewrite H, decide_True.
Qed.

Lemma rotate_psk m d t pub dh : closed d = false → plain_keys m → bytes pub → length pub = 32%nat → hex_encode pub ∈ PskEpoch.peers m → DH (localPriv m) pub = Some dh →
  psk_of (rotateLocked range t (m, d)).2 (hex_encode pub) = Some (hex_encode (Onion.DeriveKey dh (put_be 8 (CurrentEpoch t m)) (Hex.utf8 PSKDomainSeparator))).
Proof.
  intros Hc Hpl Hb Hl Hin Hdh. cbn [rotateLocked snd]. set (v := Some _). apply range_all in Hin.
  assert (∀ k, k ∈ range (PskEpoch.peers m) → toLowerCase (trim k) = k) as Hks by (intros k Hk; by apply Hpl, range_all).
  revert Hin Hks. generalize (range (PskEpoch.peers m)) as l. intros l Hin Hks.
  enough (∀ d, closed d = false → hex_encode pub ∈ l ∨ psk_of d (hex_encode pub) = v → psk_of (foldl (install m (CurrentEpoch t m)) d l) (hex_encode pub) = v) as G by (apply G; auto).
  clear d Hc Hin. induction l as [|j l IH]; intros d Hc Hor; [destruct Hor as [H|H]; [by apply elem_of_nil in H|done]|].
  cbn [foldl]. destruct (install_others m (CurrentEpoch t m) d j Hc) as [Hc' Ho]; [apply Hks; left|].
  apply IH; [intros k Hk; apply Hks; by right|done|]. destruct (decide (hex_encode pub = j)) as [<-|Hne]; [right; by apply install_own|].
  rewrite Ho by done. destruct Hor as [[E|?]%elem_of_cons|?]; [done|by left|by right].
Qed.


(** The keys a manager is given are written that way. *)
Lemma SetPeers_plain keys t m d : plain_keys (PskEpoch.SetPeers range keys t (m, d)).1.
Proof.
  intros k. set (l := base.filter (λ k, Device.is_key k = true) ((λ raw, toLowerCase (trim raw)) <$> keys)).
  change (k ∈ (list_to_set l : gset string) → toLowerCase (trim k) = k). subst l. rewrite elem_of_list_to_set, list_elem_of_filter. intros [_ (raw & -> & _)%list_elem_of_fmap]. apply KeyText.key_text.
Qed.
End Keys.
End PskFacts.
