(* ===== verification/Manager.v ===== *)
(** * The netmap on the node

    [cmd/sovereign-node/netmap.go]: how a node holds the document of the control plane,
    applies it to its device and its filter, removes revoked peers at once, and removes
    every peer when the control plane stays away.  The client that fetches is a function
    from the version held to its answer; reading and writing the stored document are
    values.  A time is in nanoseconds since 1970.  Relay addresses, addresses of the
    interfaces and log lines are left out.

    Three goroutines share the manager: the heartbeat loop, the staleness watch and the
    rotation of pre-shared keys.  Every operation is first a function; [Threads] has the
    parts of it between two locks as steps, interleaved in any way. *)

From S2P Require Import Prelude Js Encoding Db Acl Bytes Primitives Challenge Onion Netfilter Device.
Import Bytes.

Module Manager.
Import Netfilter.

Definition Second : Z := 10 ^ 9.
(** [time.Time{}] *)
Definition zero_time : Z := -62135596800 * Second.
Definition int64 (z : Z) : Z := (z + 2 ^ 63) mod 2 ^ 64 - 2 ^ 63.
(** [now.Sub(t)], which saturates. *)
Definition Sub (now t : Z) : Z := Z.max (- 2 ^ 63) (Z.min (2 ^ 63 - 1) (now - t)).
Definition Unix (sec : Z) : Z := sec * Second.

Record NetmapPeer := mk_peer {
  NodeID : string; PublicKeyHex : string; AllowedIPs : list string; Endpoints : list string; KeepaliveSeconds : Z;
}.
Record NetmapResponse := mk_response {
  Version : Z; Unchanged : bool; Peers : list NetmapPeer; ACL : option CompiledPeerPolicy; RevokedKeys : list string;
  GeneratedAtUnix : Z; MaxStalenessSeconds : Z;
}.
Record persistedNetmap := mk_persisted { FetchedAtUnix : Z; Netmap : option NetmapResponse }.

Record netmapManager := mk_manager {
  version : Z; peers : list NetmapPeer; confirmedAt : Z; maxStaleness : Z; failClosed : bool; revoked : gmap string Z;
}.
Definition newNetmapManager : netmapManager := mk_manager 0 [] zero_time 0 false ∅.

Definition normaliseKey (key : string) : string := toLowerCase (trim key).

(** ** Conversion *)

(** The loop over the candidates: the first that is not empty, or nothing when one is
    malformed. *)
Fixpoint first_endpoint (candidates : list string) (found : string) : option string :=
  match candidates with
  | [] => Some found
  | c :: rest =>
      let candidate := trim c in
      if (candidate =? "")%string then first_endpoint rest found else
      match GoNet.SplitHostPort candidate with
      | None => None
      | Some _ => first_endpoint rest (if (found =? "")%string then candidate else found)
      end
  end.

Definition convert (p : NetmapPeer) : option Device.Peer :=
  allowed ← mapM (λ raw, GoNet.ParsePrefix (trim raw)) (AllowedIPs p);
  e ← first_endpoint (Endpoints p) "";
  Some (Device.mk_peer (normaliseKey (PublicKeyHex p)) e allowed (KeepaliveSeconds p) "").

(** The peers dropped are only logged. *)
Fixpoint netmapPeers (ps : list NetmapPeer) (revoked : gmap string Z) : option (list Device.Peer) :=
  match ps with
  | [] => Some []
  | p :: rest =>
      if bool_decide (is_Some (revoked !! normaliseKey (PublicKeyHex p))) then netmapPeers rest revoked
      else q ← convert p; qs ← netmapPeers rest revoked; Some (q :: qs)
  end.

Definition documentTime (netmap : NetmapResponse) (fetchedAt : Z) : Z :=
  if 0 <? GeneratedAtUnix netmap then Unix (GeneratedAtUnix netmap) else fetchedAt.
Definition latest (a b : Z) : Z := if b <? a then a else b.

(** ** Parts of the operations, each under the lock *)

(** The revocations that stand once a document is applied: those it lists, and those
    learned at a later version. *)
Definition withdrawn (netmap : NetmapResponse) (k : string) (learnedAt : Z) : bool :=
  (learnedAt <=? Version netmap) && negb (bool_decide (k ∈ normaliseKey <$> RevokedKeys netmap)).
Definition note (at_ : Z) (m : gmap string Z) (k : string) : gmap string Z :=
  if (k =? "")%string then m else
  match m !! k with Some learnedAt => if learnedAt <? at_ then <[k := at_]> m else m | None => <[k := at_]> m end.
Definition revoked_after (netmap : NetmapResponse) (m : gmap string Z) : gmap string Z :=
  foldl (note (Version netmap)) (base.filter (λ kv, withdrawn netmap kv.1 kv.2 = false) m) (normaliseKey <$> RevokedKeys netmap).

Definition commit (netmap : NetmapResponse) (fetchedAt : Z) (revoked' : gmap string Z) (m : netmapManager) : netmapManager :=
  mk_manager (Version netmap) (Peers netmap) (latest (documentTime netmap fetchedAt) (confirmedAt m))
    (MaxStalenessSeconds netmap) false revoked'.

Definition Confirm (now : Z) (m : netmapManager) : netmapManager :=
  if confirmedAt m <? now then m <| confirmedAt := now |> else m.

(** The keys not known before. *)
Definition newly (keys : list string) (m : netmapManager) : bool :=
  existsb (λ k, negb (k =? "")%string && bool_decide (revoked m !! k = None)) (normaliseKey <$> keys).
Definition learn (keys : list string) (atVersion : Z) (m : netmapManager) : netmapManager :=
  m <| revoked := foldl (note atVersion) (revoked m) (normaliseKey <$> keys) |>.

Definition stalenessLocked (m : netmapManager) : Z := if maxStaleness m <=? 0 then 0 else int64 (maxStaleness m * Second).
Definition is_stale (now : Z) (m : netmapManager) : bool :=
  negb ((version m =? 0) || failClosed m || (confirmedAt m =? zero_time) || (stalenessLocked m <=? 0)) &&
  (stalenessLocked m <=? Sub now (confirmedAt m)).

(** ** The node *)

Section WithEngine.
Context {cr : Crypto} {wg : WireGuard} (range : gset string → list string).

Record node := mk_node {
  man : netmapManager; dev : Device.t; netfilter : NetstackFilter; psk : PskEpoch.Manager; disk : option persistedNetmap;
}.

Inductive error := NilDocument | BadPeer | DeviceError (e : Device.error) | FetchFailed | Unreadable.

(** [m.dev.SetPeers] *)
Definition set_peers (ps : list Device.Peer) (n : node) : option Device.error * node :=
  let '(e, d) := Device.SetPeers range ps (dev n) in (e, n <| dev := d |>).

(** [psk.SetPeers] with the keys of the document. *)
Definition set_psk_peers (netmap : NetmapResponse) (now : Z) (n : node) : node :=
  let '(p, d) := PskEpoch.SetPeers range (PublicKeyHex <$> Peers netmap) now (psk n, dev n) in n <| psk := p |> <| dev := d |>.

(** [written]: whether the document could be stored. *)
Definition persist (netmap : NetmapResponse) (fetchedAt : Z) (written : bool) (n : node) : node :=
  if written then n <| disk := Some (mk_persisted (fetchedAt / Second) (Some netmap)) |> else n.

Definition Apply (netmap : option NetmapResponse) (fetchedAt now : Z) (written : bool) (n : node) : option error * node :=
  match netmap with
  | None => (Some NilDocument, n)
  | Some doc =>
      let revoked' := revoked_after doc (revoked (man n)) in
      match netmapPeers (Peers doc) revoked' with
      | None => (Some BadPeer, n)
      | Some ps =>
          let '(e, n1) := set_peers ps n in
          match e with
          | Some e => (Some (DeviceError e), n1)
          | None =>
              let n2 := n1 <| netfilter ::= UpdatePolicy (ACL doc) |> <| man ::= commit doc fetchedAt revoked' |> in
              (None, persist doc fetchedAt written (set_psk_peers doc now n2))
          end
      end
  end.

Definition ApplyRevocations (keys : list string) (atVersion : Z) (n : node) : node :=
  let n1 := n <| man ::= learn keys atVersion |> in
  if negb (newly keys (man n)) then n1 else
  match netmapPeers (peers (man n1)) (revoked (man n1)) with
  | None => n1
  | Some ps => (set_peers ps n1).2
  end.

Definition EnforceStaleness (now : Z) (n : node) : bool * node :=
  if negb (is_stale now (man n)) then (false, n) else
  let '(e, n1) := set_peers [] (n <| man ::= λ m, m <| failClosed := true |> |>) in
  (match e with None => true | Some _ => false end, n1).

(** [serve] answers a request that names the version held, or fails. *)
Definition fetchAt (serve : Z → option NetmapResponse) (held now : Z) (written : bool) (n : node) : option error * node :=
  match serve held with
  | None => (Some FetchFailed, n)
  | Some doc => if Unchanged doc then (None, n) else Apply (Some doc) now now written n
  end.
Definition Fetch (serve : Z → option NetmapResponse) (now : Z) (written : bool) (n : node) : option error * node :=
  fetchAt serve (version (man n)) now written n.

Definition onHeartbeat (keys : list string) (netmapVersion : Z) (serve : Z → option NetmapResponse) (now : Z) (written : bool) (n : node) : node :=
  let n1 := match keys with [] => n | _ => ApplyRevocations keys netmapVersion n end in
  let n2 := n1 <| man ::= Confirm now |> in
  let recovering := failClosed (man n2) in
  if recovering || (version (man n2) <? netmapVersion)
  then (fetchAt serve (if recovering then 0 else version (man n2)) now written n2).2
  else n2.

(** The stored document, read as a file that is absent, unreadable or a document. *)
Inductive file := Absent | Garbled | Stored (p : persistedNetmap).
Definition readPersistedNetmap (f : file) : error + option (Z * NetmapResponse) :=
  match f with
  | Absent => inr None
  | Garbled => inl Unreadable
  | Stored p => match Netmap p with Some doc => inr (Some (FetchedAtUnix p, doc)) | None => inl Unreadable end
  end.

Definition LoadPersisted (f : file) (now : Z) (written : bool) (n : node) : (error + bool) * node :=
  match readPersistedNetmap f with
  | inl e => (inl e, n)
  | inr None => (inr false, n)
  | inr (Some (fetched, doc)) =>
      let fetchedAt := Unix fetched in
      let bound := int64 (MaxStalenessSeconds doc * Second) in
      if (0 <? bound) && (bound <=? Sub now (documentTime doc fetchedAt)) then (inr false, n) else
      match Apply (Some doc) fetchedAt now written n with
      | (Some e, n1) => (inl e, n1)
      | (None, n1) => (inr true, n1)
      end
  end.

(** A node that starts: no peer, no policy, nothing applied. *)
Definition started (priv : list Z) (w : wg_state) (stored : option persistedNetmap) : node :=
  mk_node newNetmapManager (Device.New w) NewNetstackFilter (PskEpoch.NewManager priv PskEpoch.DefaultRotationInterval) stored.
End WithEngine.
End Manager.

(** ** Interleavings *)

Module Threads.
Import Manager.
Section WithEngine.
Context {cr : Crypto} {wg : WireGuard} (range : gset string → list string).

(** Where the heartbeat loop stands. *)
Inductive pc :=
  | Idle
  | Revoking (ps : list Device.Peer) (v : Z)
  | Confirming (v : Z)
  | Asking (v : Z)
  | Comparing (v : Z) (recovering : bool)
  | Waiting (held : Z)
  | Installing (doc : NetmapResponse) (revoked' : gmap string Z) (ps : list Device.Peer)
  | Enforcing (doc : NetmapResponse) (revoked' : gmap string Z)
  | Committing (doc : NetmapResponse) (revoked' : gmap string Z)
  | Keying (doc : NetmapResponse).

(** [closing]: the watch is about to remove the peers.  [failed]: a request to the
    device has failed. *)
Record world := mk_world { self : node; heart : pc; closing : bool; failed : bool }.

Inductive event :=
  | Beat (keys : list string) (v : Z) | Revoke | Confirmed (now : Z) | Ask | Compare | Answer (o : option NetmapResponse)
  | Load (doc : NetmapResponse) | Install | Enforce | Commit (fetchedAt : Z) | Key (now fetchedAt : Z) (written : bool)
  | Check (now : Z) | Close | Poll (now : Z).

Definition device_failed (e : option Device.error) : bool :=
  match e with Some Device.ErrClosed | Some Device.EpochExhausted | Some Device.IpcError => true | _ => false end.

(** The part of [Apply] before the device is touched. *)
Definition prepare (doc : NetmapResponse) (w : world) : world :=
  let revoked' := revoked_after doc (revoked (man (self w))) in
  w <| heart := match netmapPeers (Peers doc) revoked' with Some ps => Installing doc revoked' ps | None => Idle end |>.

(** [ApplyRevocations] up to the device. *)
Definition beat (keys : list string) (v : Z) (w : world) : world :=
  match keys with
  | [] => w <| heart := Confirming v |>
  | _ =>
      let n1 := (self w) <| man ::= learn keys v |> in
      w <| self := n1 |> <| heart := match newly keys (man (self w)), netmapPeers (peers (man n1)) (revoked (man n1)) with
                                     | true, Some ps => Revoking ps v | _, _ => Confirming v end |>
  end.

Definition exec (e : event) (w : world) : option world :=
  match e, heart w with
  | Beat keys v, Idle => Some (beat keys v w)
  | Revoke, Revoking ps v =>
      let '(e, n) := set_peers range ps (self w) in
      Some (w <| self := n |> <| heart := Confirming v |> <| failed ::= orb (device_failed e) |>)
  | Confirmed now, Confirming v => Some (w <| self ::= (λ n, n <| man ::= Confirm now |>) |> <| heart := Asking v |>)
  | Ask, Asking v => Some (w <| heart := Comparing v (failClosed (man (self w))) |>)
  | Compare, Comparing v recovering =>
      Some (w <| heart := (if recovering || (version (man (self w)) <? v) then Waiting (if recovering then 0 else version (man (self w))) else Idle) |>)
  | Answer o, Waiting _ =>
      Some (match o with Some doc => if Unchanged doc then w <| heart := Idle |> else prepare doc w | None => w <| heart := Idle |> end)
  | Load doc, Idle => Some (prepare doc w)
  | Install, Installing doc revoked' ps =>
      let '(e, n) := set_peers range ps (self w) in
      Some (w <| self := n |> <| heart := match e with None => Enforcing doc revoked' | Some _ => Idle end |> <| failed ::= orb (device_failed e) |>)
  | Enforce, Enforcing doc revoked' =>
      Some (w <| self ::= (λ n, n <| netfilter ::= Netfilter.UpdatePolicy (ACL doc) |>) |> <| heart := Committing doc revoked' |>)
  | Commit fetchedAt, Committing doc revoked' =>
      Some (w <| self ::= (λ n, n <| man ::= commit doc fetchedAt revoked' |>) |> <| heart := Keying doc |>)
  | Key now fetchedAt written, Keying doc =>
      Some (w <| self ::= (λ n, persist doc fetchedAt written (set_psk_peers range doc now n)) |> <| heart := Idle |>)
  | Check now, _ =>
      if closing w then None else
      Some (if is_stale now (man (self w)) then w <| self ::= (λ n, n <| man ::= (λ m, m <| failClosed := true |>) |>) |> <| closing := true |> else w)
  | Close, _ =>
      if negb (closing w) then None else
      let '(e, n) := set_peers range [] (self w) in
      Some (w <| self := n |> <| closing := false |> <| failed ::= orb (device_failed e) |>)
  | Poll now, _ =>
      let n := self w in
      let '(p, d) := PskEpoch.poll range now (psk n, dev n) in
      Some (w <| self := (n <| psk := p |> <| dev := d |>) |>)
  | _, _ => None
  end.

Fixpoint runs (es : list event) (w : world) : option world :=
  match es with [] => Some w | e :: es => w' ← exec e w; runs es w' end.

Definition begin (n : node) : world := mk_world n Idle false false.
End WithEngine.
Arguments world : clear implicits.
Arguments world {wg}.
End Threads.
