(* ===== verification/ManagerFacts.v ===== *)
(** * Theorems on the netmap of the node

    [ManagerFacts]: a revoked peer stays out, a stale document is dropped, and a document
    is applied whole or not at all. *)

From S2P Require Import Prelude Js Encoding Db Vip Acl Bytes Primitives Challenge Onion Netfilter Device Manager.
Import Bytes.

Module ManagerFacts.
Import Manager Threads Device DeviceFacts.

(** ** Conversion *)

Lemma convert_key p q : convert p = Some q → key_of q = normaliseKey (PublicKeyHex p) ∧ Device.PublicKey q = normaliseKey (PublicKeyHex p).
Proof.
  unfold convert. intros H. apply bind_Some in H as (al & _ & H). apply bind_Some in H as (e & _ & [= <-]). split; [|done].
  unfold key_of, normaliseKey. cbn. by apply KeyText.key_text.
Qed.

Lemma netmapPeers_elem nps rv ps q : netmapPeers nps rv = Some ps → q ∈ ps → rv !! key_of q = None ∧ ∃ p, p ∈ nps ∧ convert p = Some q.
Proof.
  revert ps. induction nps as [|p nps IH]; intros ps; cbn [netmapPeers]; [intros [= <-] ?%elem_of_nil; done|].
  case_bool_decide as Hr; [intros H Hq; destruct (IH ps H Hq) as (? & x & ? & ?); split; [done|]; exists x; split; [by right|done]|].
  intros H. apply bind_Some in H as (q0 & Hq0 & H). apply bind_Some in H as (qs & Hqs & [= <-]). intros [->|Hq]%elem_of_cons.
  - destruct (convert_key _ _ Hq0) as [-> _]. split; [by apply eq_None_not_Some|]. exists p. split; [left|done].
  - destruct (IH qs Hqs Hq) as (? & x & ? & ?). split; [done|]. exists x. split; [by right|done].
Qed.

Lemma netmapPeers_more nps rv rv' ps : netmapPeers nps rv = Some ps → dom rv ⊆ dom rv' → ∃ ps', netmapPeers nps rv' = Some ps' ∧ ps' `sublist_of` ps.
Proof.
  intros H Hd. revert ps H. induction nps as [|p nps IH]; intros ps; cbn [netmapPeers]; [intros [= <-]; by exists []|].
  set (k := normaliseKey _). case_bool_decide as Hr.
  - intros H. destruct (IH ps H) as (ps' & E & Hs). exists ps'. rewrite bool_decide_eq_true_2; [done|]. apply elem_of_dom. apply elem_of_dom in Hr. set_solver.
  - intros H. apply bind_Some in H as (q & Hq & H). apply bind_Some in H as (qs & Hqs & [= <-]). destruct (IH qs Hqs) as (ps' & E & Hs).
    case_bool_decide; [exists ps'; split; [done|by apply sublist_cons]|]. exists (q :: ps'). rewrite Hq, E. split; [done|by apply sublist_skip].
Qed.

Definition accepted (ps : list Device.Peer) : Prop := Forall (λ p, validate p = true) ps ∧ NoDup (key_of <$> ps).

Lemma accepted_sublist ps ps' : ps' `sublist_of` ps → accepted ps → accepted ps'.
Proof.
  intros Hs [Hv Hn]. split; [|eapply sublist_NoDup; [exact Hn|by apply fmap_sublist]].
  rewrite Forall_forall in Hv |- *. intros p Hp. apply Hv. by eapply elem_of_sublist.
Qed.

(** The peers of a document, without the revoked ones, are a set the device takes. *)
Definition good (nps : list NetmapPeer) (rv : gmap string Z) : Prop := ∃ ps, netmapPeers nps rv = Some ps ∧ accepted ps.

Lemma good_more nps rv rv' : good nps rv → dom rv ⊆ dom rv' → good nps rv'.
Proof. intros (ps & E & Ha) Hd. destruct (netmapPeers_more _ _ _ _ E Hd) as (ps' & E' & Hs). exists ps'. split; [done|by eapply accepted_sublist]. Qed.

(** ** What is known to be revoked *)

Lemma note_spec v m k j : note v m k !! j = if decide (j = k ∧ k ≠ "") then Some (Z.max v (default v (m !! k))) else m !! j.
Proof.
  unfold note. destruct (k =? "")%string eqn:E; b2p; [rewrite decide_False; [done|naive_solver]|].
  destruct (m !! k) as [l|] eqn:Em; cbn.
  - destruct (l <? v) eqn:El; b2p.
    + rewrite lookup_insert. repeat case_decide; try naive_solver. f_equal. lia.
    + case_decide as Hd; [|done]. destruct Hd as [-> _]. rewrite Em. f_equal. lia.
  - rewrite lookup_insert. repeat case_decide; try naive_solver. f_equal. lia.
Qed.

Lemma notes_keep v ks m j l : m !! j = Some l → ∃ l', foldl (note v) m ks !! j = Some l' ∧ l <= l'.
Proof.
  revert m l. induction ks as [|k ks IH]; intros m l H; [exists l; split; [done|lia]|]. cbn.
  assert (∃ l1, note v m k !! j = Some l1 ∧ l <= l1) as (l1 & E1 & Hl).
  { rewrite note_spec. case_decide as Hd; [|exists l; split; [done|lia]]. destruct Hd as [-> _]. rewrite H. eexists. split; [done|]. cbn. lia. }
  destruct (IH _ _ E1) as (l2 & E2 & ?). exists l2. split; [done|lia].
Qed.

Lemma notes_dom v ks m : dom m ⊆ dom (foldl (note v) m ks).
Proof. intros j Hj. apply elem_of_dom in Hj as [l Hl]. destruct (notes_keep v ks m j l Hl) as (l' & E & _). by apply elem_of_dom. Qed.

Lemma notes_new v ks m k : k ∈ ks → k ≠ "" → ∃ l, foldl (note v) m ks !! k = Some l ∧ v <= l.
Proof.
  revert m. induction ks as [|j ks IH]; intros m Hk Hne; [by apply elem_of_nil in Hk|]. apply elem_of_cons in Hk as [<-|Hk]; [|by apply IH].
  cbn. assert (∃ l, note v m k !! k = Some l ∧ v <= l) as (l & E & Hl) by (rewrite note_spec, decide_True by done; eexists; split; [done|lia]).
  destruct (notes_keep v ks _ _ _ E) as (l' & E' & ?). exists l'. split; [done|lia].
Qed.

(** A revocation stands unless the document withdraws it. *)
Lemma revoked_after_keeps doc m k l : m !! k = Some l → withdrawn doc k l = false → ∃ l', revoked_after doc m !! k = Some l' ∧ l <= l'.
Proof.
  intros H Hw. unfold revoked_after. apply notes_keep. by apply map_lookup_filter_Some.
Qed.

Lemma notes_known v ks m : (∀ k, k ∈ ks → k = "" ∨ k ∈ dom m) → dom (foldl (note v) m ks) = dom m.
Proof.
  revert m. induction ks as [|k ks IH]; intros m H; [done|]. cbn. assert (dom (note v m k) = dom m) as E.
  { apply set_eq. intros j. rewrite !elem_of_dom, note_spec. case_decide as Hd; [|done]. destruct Hd as [-> Hne].
    destruct (H k) as [|Hk]; [left|done|]. apply elem_of_dom in Hk. by destruct Hk as [? ->]. }
  rewrite <- E. apply IH. intros j Hj. rewrite E. apply H. by right.
Qed.

Lemma learn_known keys v m : newly keys m = false → dom (revoked (learn keys v m)) = dom (revoked m).
Proof.
  unfold newly. rewrite <- not_true_iff_false, existsb_exists. intros En. apply notes_known. intros k Hk. destruct (decide (k = "")) as [|Hne]; [by left|right].
  apply elem_of_dom. destruct (revoked m !! k) eqn:Em; [done|]. exfalso. apply En. exists k. split; [by apply list_elem_of_In|].
  rewrite bool_decide_eq_true_2 by done. apply andb_true_iff. split; [|done]. by apply negb_true_iff, String.eqb_neq.
Qed.

Section Node.
Context {cr : Crypto} {wg : WireGuard} {laws : WireGuardLaws wg} (range : gset string → list string).
Hypothesis range_all : ∀ s k, k ∈ range s ↔ k ∈ s.

(** ** Pre-shared keys change no route *)

Definition same_device (d d' : Device.t) : Prop := closed d' = closed d ∧ peerKeys d' = peerKeys d ∧ ∀ k q, routed d' k q ↔ routed d k q.

Lemma same_device_refl d : same_device d d.
Proof. by split_and!. Qed.
Lemma same_device_trans a b c : same_device a b → same_device b c → same_device a c.
Proof. intros (E1 & E2 & E3) (F1 & F2 & F3). split_and!; [congruence|congruence|]. intros k q. by rewrite F3. Qed.

Lemma rotate_same t m d : same_device d (PskEpoch.rotateLocked range t (m, d)).2.
Proof.
  cbn. generalize (range (PskEpoch.peers m)). intros l. revert d. induction l as [|k l IH]; intros d; [apply same_device_refl|]. cbn.
  eapply same_device_trans; [|apply IH]. unfold PskEpoch.install. destruct (_ ≫= _); [apply UpdatePeerPSK_routes|apply same_device_refl].
Qed.
Lemma poll_same t m d : same_device d (PskEpoch.poll range t (m, d)).2.
Proof. unfold PskEpoch.poll. destruct (_ =? _); [apply same_device_refl|apply rotate_same]. Qed.

Lemma keyed_same doc now fetchedAt written n : let n' := persist doc fetchedAt written (set_psk_peers range doc now n) in
  same_device (dev n) (dev n') ∧ man n' = man n.
Proof.
  cbv zeta. assert (∀ n1 : node, dev (persist doc fetchedAt written n1) = dev n1 ∧ man (persist doc fetchedAt written n1) = man n1) as Hp by (intros; by destruct written).
  destruct (Hp (set_psk_peers range doc now n)) as [-> ->]. unfold set_psk_peers.
  pose proof (rotate_same now ((psk n) <| PskEpoch.peers := list_to_set (base.filter (λ k, is_key k = true) ((λ raw, toLowerCase (trim raw)) <$> (PublicKeyHex <$> Peers doc))) |>) (dev n)) as Hr.
  unfold PskEpoch.SetPeers. by destruct (PskEpoch.rotateLocked range now _) as [q d].
Qed.

Lemma keyed_filter doc now fetchedAt written n : netfilter (persist doc fetchedAt written (set_psk_peers range doc now n)) = netfilter n.
Proof.
  assert (∀ n1 : node, netfilter (persist doc fetchedAt written n1) = netfilter n1) as -> by (intros; by destruct written).
  unfold set_psk_peers. by destruct (PskEpoch.SetPeers range _ _ _).
Qed.

Lemma same_tracked d d' : same_device d d' → tracked d → tracked d'.
Proof. intros (_ & E & Hr) Ht k q H. rewrite E. apply (Ht k q). by apply Hr. Qed.

(** ** The peers of the device *)

Abbreviation set_peers := (Manager.set_peers range).

Lemma set_peers_ok ps n n' : set_peers ps n = (None, n') → tracked (dev n) →
  n' = n <| dev := dev n' |> ∧ tracked (dev n') ∧ peerKeys (dev n') = list_to_set (key_of <$> ps) ∧ accepted ps.
Proof.
  unfold Manager.set_peers. destruct (Device.SetPeers range ps (dev n)) as [e d] eqn:E. intros [= -> <-] Ht.
  destruct (SetPeers_ok range range_all ps (dev n) d E Ht) as (_ & Hk & Ht' & _ & _ & Hv & Hn). by split_and!.
Qed.

Lemma set_peers_err ps e n n' : set_peers ps n = (Some e, n') → device_failed (Some e) = false → n' = n ∧ ¬ accepted ps.
Proof.
  unfold Manager.set_peers. destruct (Device.SetPeers range ps (dev n)) as [e' d] eqn:E. intros [= -> <-] Hf.
  assert (d = dev n) as -> by (eapply SetPeers_refused; [exact E|by intros ->]). split; [by destruct n|]. intros Ha. unfold Device.SetPeers in E.
  destruct (closed (dev n)); [by injection E as <-|]. pose proof (check_peers_spec ps ∅) as Hc. destruct (check_peers ps ∅); [apply Hc; destruct Ha; split_and!; [done|done|set_solver]|].
  destruct (_ && _); [by injection E as <-|]. destruct (IpcSet _ _) as [[] w]; [done|]. by injection E as <-.
Qed.

(** ** The invariant of the interleavings *)

Definition clean (d : Device.t) (rv : gmap string Z) : Prop := ∀ k, is_Some (rv !! k) → k ∉ peerKeys d.

Definition at_pc (n : node) (p : pc) : Prop :=
  match p with
  | Revoking ps _ => netmapPeers (peers (man n)) (revoked (man n)) = Some ps
  | Installing doc rv ps => clean (dev n) (revoked (man n)) ∧ netmapPeers (Peers doc) rv = Some ps
  | Enforcing doc rv | Committing doc rv => clean (dev n) rv ∧ good (Peers doc) rv
  | _ => clean (dev n) (revoked (man n))
  end.

Definition inv (w : world) : Prop :=
  failed w = false → tracked (dev (self w)) ∧ good (peers (man (self w))) (revoked (man (self w))) ∧ at_pc (self w) (heart w).

(** The device of the new set has none of the keys left out. *)
Lemma installed_clean nps rv ps n n' : netmapPeers nps rv = Some ps → set_peers ps n = (None, n') → tracked (dev n) → clean (dev n') rv.
Proof.
  intros Hp Hs Ht k [l Hl] Hk. apply set_peers_ok in Hs as (_ & _ & E & _); [|done]. rewrite E, elem_of_list_to_set in Hk.
  apply list_elem_of_fmap in Hk as (q & -> & Hq). destruct (netmapPeers_elem _ _ _ _ Hp Hq) as [Hn _]. congruence.
Qed.

Lemma emptied_clean n n' rv : set_peers [] n = (None, n') → tracked (dev n) → clean (dev n') rv.
Proof. intros Hs Ht k _ Hk. apply set_peers_ok in Hs as (_ & _ & E & _); [|done]. rewrite E in Hk. set_solver. Qed.

(** A part of the node the invariant does not look at, or a device with the same routes. *)
Lemma at_pc_same n n' p : same_device (dev n) (dev n') → peers (man n') = peers (man n) → revoked (man n') = revoked (man n) → at_pc n p → at_pc n' p.
Proof.
  intros (_ & E & _) Ep Er. assert (∀ rv, clean (dev n) rv → clean (dev n') rv) as Hc by (intros rv H k; rewrite E; apply H).
  destruct p; cbn; rewrite ?Ep, ?Er; naive_solver.
Qed.

Lemma inv_same w n' p cl : same_device (dev (self w)) (dev n') → peers (man n') = peers (man (self w)) → revoked (man n') = revoked (man (self w)) →
  (at_pc (self w) (heart w) → at_pc (self w) p) → inv w → inv (mk_world n' p cl (failed w)).
Proof.
  intros Hs Ep Er Hp Hi Hf. destruct (Hi Hf) as (Ht & Hg & Ha). cbn. rewrite Ep, Er. split; [by eapply same_tracked|]. split; [done|].
  apply (at_pc_same (self w)); [done..|]. by apply Hp.
Qed.

Lemma beat_inv keys v w : heart w = Idle → inv w → inv (beat keys v w).
Proof.
  intros Hh Hi Hf. assert (failed w = false) as Hf' by (unfold beat in Hf; by destruct keys). destruct (Hi Hf') as (Ht & Hg & Ha). rewrite Hh in Ha.
  unfold beat. destruct keys as [|k0 ks]; [by split_and!|]. set (keys := k0 :: ks). cbn [self heart].
  set (m1 := learn keys v (man (self w))). change (man ((self w) <| man ::= learn keys v |>)) with m1.
  assert (good (peers m1) (revoked m1)) as Hg1 by (eapply good_more; [exact Hg|apply notes_dom]).
  split; [exact Ht|]. split; [exact Hg1|]. destruct (newly keys (man (self w))) eqn:En.
  - destruct Hg1 as (ps & E & _). change (netmapPeers (peers m1) (revoked m1)) with (netmapPeers (peers (man (self w))) (revoked m1)) in *. rewrite E. exact E.
  - pose proof (learn_known keys v (man (self w)) En) as Hd. fold m1 in Hd.
    assert (clean (dev (self w)) (revoked m1)) as Hc by (intros k [l Hl]; apply Ha, elem_of_dom; rewrite <- Hd; apply elem_of_dom; eauto). exact Hc.
Qed.

Lemma prepare_inv doc w : (at_pc (self w) (heart w) → clean (dev (self w)) (revoked (man (self w)))) → inv w → inv (prepare doc w).
Proof.
  intros Hc Hi. unfold prepare. destruct (netmapPeers _ _) as [ps|] eqn:E; apply (inv_same w); try done; try apply same_device_refl.
  intros Ha. split; [by apply Hc|exact E].
Qed.

(** A step of the device: it succeeds, it is refused without effect, or it has failed. *)
Lemma device_inv ps e n' p cl w : set_peers ps (self w) = (e, n') → inv w →
  (tracked (dev (self w)) → at_pc (self w) (heart w) → e = None → good (peers (man n')) (revoked (man n')) → at_pc n' p) →
  (e ≠ None → good (peers (man (self w))) (revoked (man (self w))) → at_pc (self w) (heart w) → ¬ accepted ps → at_pc (self w) p) →
  inv (mk_world n' p cl (device_failed e || failed w)).
Proof.
  intros Hs Hi Hok Herr Hf. cbn in Hf |- *. apply orb_false_iff in Hf as [Hd Hf]. destruct (Hi Hf) as (Ht & Hg & Ha). destruct e as [e|].
  - apply set_peers_err in Hs as [-> Hna]; [|done]. split; [done|]. split; [done|]. by apply Herr.
  - pose proof Hs as Hs'. apply set_peers_ok in Hs' as (En & Ht' & _); [|done].
    assert (man n' = man (self w)) as Em by (by rewrite En). rewrite Em in *. split; [done|]. split; [done|]. by apply Hok.
Qed.

Lemma revoke_inv ps v n er n' cl fl : set_peers ps n = (er, n') → inv (mk_world n (Revoking ps v) cl fl) →
  inv (mk_world n' (Confirming v) cl (device_failed er || fl)).
Proof.
  intros Es Hi. apply (device_inv ps er n' (Confirming v) cl (mk_world n (Revoking ps v) cl fl)); [done|done|..]; cbn.
  - intros Ht Ha -> _. pose proof Es as Es'. apply set_peers_ok in Es' as (En & _); [|done].
    assert (man n' = man n) as Em by (by rewrite En). rewrite Em. by eapply installed_clean.
  - intros _ (ps' & E & Hac) Ha Hna. rewrite Ha in E. by injection E as ->.
Qed.

Lemma install_inv doc rv ps n er n' cl fl : set_peers ps n = (er, n') → inv (mk_world n (Installing doc rv ps) cl fl) →
  inv (mk_world n' (match er with None => Enforcing doc rv | Some _ => Idle end) cl (device_failed er || fl)).
Proof.
  intros Es Hi. eapply (device_inv ps er n' _ cl (mk_world n (Installing doc rv ps) cl fl)); [done|done|..]; cbn.
  - intros Ht [_ Ha] -> _. split; [by eapply installed_clean|]. exists ps. split; [done|]. by apply set_peers_ok in Es as (_ & _ & _ & ?).
  - intros He _ [Hc _] _. by destruct er.
Qed.

Lemma close_inv n p er n' fl : set_peers [] n = (er, n') → inv (mk_world n p true fl) → inv (mk_world n' p false (device_failed er || fl)).
Proof.
  intros Es Hi. apply (device_inv [] er n' p false (mk_world n p true fl)); [done|done|..]; cbn.
  - intros Ht Ha -> Hg. assert (∀ rv, clean (dev n') rv) as Hc by (intros rv; by eapply emptied_clean). pose proof Es as Es'. apply set_peers_ok in Es' as (En & _); [|done].
    assert (man n' = man n) as Em by (by rewrite En). destruct p; cbn in *; rewrite ?Em in *; try apply Hc; naive_solver.
  - intros _ _ _ Hna. exfalso. apply Hna. split; constructor.
Qed.

Lemma exec_inv e w w' : exec range e w = Some w' → inv w → inv w'.
Proof.
  intros He Hi. destruct w as [n p cl fl]. assert (∀ n' p' cl', same_device (dev n) (dev n') → peers (man n') = peers (man n) → revoked (man n') = revoked (man n) →
    (at_pc n p → at_pc n p') → inv (mk_world n' p' cl' fl)) as Hsame by (intros; by apply (inv_same (mk_world n p cl fl))).
  pose proof (same_device_refl (dev n)) as Hrefl.
  destruct e; cbn [exec heart self closing failed] in He. 1-11: destruct p; try done.
  - injection He as <-. by apply beat_inv.
  - destruct (set_peers ps n) as [er n'] eqn:Es. injection He as <-. by apply (revoke_inv ps v n er n' cl fl).
  - injection He as <-. apply Hsame; try done; cbn; unfold Confirm; by destruct (_ <? _).
  - injection He as <-. by apply Hsame.
  - injection He as <-. apply Hsame; try done. by destruct (_ || _).
  - injection He as <-. destruct o as [doc|]; [|by apply Hsame]. destruct (Unchanged doc); [by apply Hsame|by apply prepare_inv].
  - injection He as <-. by apply prepare_inv.
  - destruct (set_peers ps n) as [er n'] eqn:Es. injection He as <-. by apply (install_inv doc revoked' ps n er n' cl fl).
  - injection He as <-. by apply Hsame.
  - injection He as <-. intros Hf. destruct (Hi Hf) as (Ht & _ & Hc & Hg). by split_and!.
  - injection He as <-. destruct (keyed_same doc now fetchedAt written n) as (Hd & Hm).
    apply (Hsame (persist doc fetchedAt written (set_psk_peers range doc now n)) Idle cl); [exact Hd|by rewrite Hm|by rewrite Hm|done].
  - destruct cl; [done|]. injection He as <-. destruct (is_stale _ _); [by apply Hsame|done].
  - destruct cl; [|done]. cbn [negb] in He. destruct (set_peers [] n) as [er n'] eqn:Es. injection He as <-. by apply (close_inv n p er n' fl).
  - pose proof (poll_same now (psk n) (dev n)) as Hr. destruct (PskEpoch.poll range now (psk n, dev n)) as [q d]. injection He as <-. by apply Hsame.
Qed.

Lemma runs_inv es w w' : runs range es w = Some w' → inv w → inv w'.
Proof.
  revert w. induction es as [|e es IH]; intros w H Hi; [by injection H as <-|]. cbn in H. apply bind_Some in H as (w1 & H1 & H). apply (IH w1); [done|]. by eapply exec_inv.
Qed.

Lemma runs_app es es' w w' : runs range (es ++ es') w = Some w' ↔ ∃ w1, runs range es w = Some w1 ∧ runs range es' w1 = Some w'.
Proof.
  revert w. induction es as [|e es IH]; intros w; cbn; [naive_solver|]. destruct (exec range e w) as [w1|]; cbn; [apply IH|naive_solver].
Qed.

(** ** A revoked peer stays out *)

(** The documents received. *)
Definition received (doc : NetmapResponse) (es : list event) : Prop := Answer (Some doc) ∈ es ∨ Load doc ∈ es.
(** Between two operations on the peers. *)
Definition settled (p : pc) : Prop := match p with Revoking _ _ | Enforcing _ _ | Committing _ _ => False | _ => True end.

(** What the loop holds about a key revoked at a version, while nothing withdraws it. *)
Definition remembers (k : string) (v : Z) (w : world) : Prop :=
  (∃ l, revoked (man (self w)) !! k = Some l ∧ v <= l) ∧
  match heart w with Installing _ rv _ | Enforcing _ rv | Committing _ rv => ∃ l, rv !! k = Some l ∧ v <= l | _ => True end.

Lemma set_peers_man ps n e n' : set_peers ps n = (e, n') → man n' = man n.
Proof. unfold Manager.set_peers. destruct (Device.SetPeers _ _ _). by intros [= _ <-]. Qed.

Lemma prepare_remembers k v doc w : (v <= Version doc → k ∈ normaliseKey <$> RevokedKeys doc) →
  (∃ l, revoked (man (self w)) !! k = Some l ∧ v <= l) → remembers k v (prepare doc w).
Proof.
  intros Hd (l & Hl & Hv). unfold prepare. split; [by exists l|]. cbn. destruct (netmapPeers _ _); [|done].
  destruct (revoked_after_keeps doc (revoked (man (self w))) k l Hl) as (l' & E & ?); [|exists l'; split; [done|lia]].
  unfold withdrawn. destruct (l <=? Version doc) eqn:E; [|done]. b2p. rewrite bool_decide_eq_true_2; [done|]. apply Hd. lia.
Qed.

Lemma beat_remembers k v keys v0 w : keys ≠ [] → (∃ l, foldl (note v0) (revoked (man (self w))) (normaliseKey <$> keys) !! k = Some l ∧ v <= l) → remembers k v (beat keys v0 w).
Proof.
  intros Hk Hl. destruct keys as [|k0 ks]; [done|]. split; [exact Hl|]. unfold beat. cbn [heart].
  destruct (newly (k0 :: ks) (man (self w))); [|done]. match goal with |- context [netmapPeers ?a ?b] => destruct (netmapPeers a b) end; done.
Qed.

Lemma exec_remembers k v e w w' : exec range e w = Some w' →
  (∀ doc, received doc [e] → v <= Version doc → k ∈ normaliseKey <$> RevokedKeys doc) → remembers k v w → remembers k v w'.
Proof.
  intros He Hd [Hm Hh]. destruct w as [n p cl fl]. cbn [self heart] in *.
  assert (∀ n' p' cl' fl', man n' = man n → match p' with Installing _ rv _ | Enforcing _ rv | Committing _ rv => ∃ l, rv !! k = Some l ∧ v <= l | _ => True end →
    remembers k v (mk_world n' p' cl' fl')) as Hto by (intros n' p' cl' fl' E Hp; split; [cbn; by rewrite E|done]).
  destruct e; cbn [exec heart self closing failed] in He. 1-11: destruct p; try done.
  - injection He as <-. destruct keys as [|k0 ks]; [by split|]. destruct Hm as (l & Hl & Hv). apply beat_remembers; [done|].
    destruct (notes_keep v0 (normaliseKey <$> (k0 :: ks)) _ _ _ Hl) as (l' & E & ?). exists l'. split; [exact E|lia].
  - destruct (set_peers ps n) as [er n'] eqn:Es. injection He as <-. apply (Hto n' (Confirming _)); [by eapply set_peers_man|done].
  - injection He as <-. split; [|done]. cbn. unfold Confirm. by destruct (_ <? _).
  - injection He as <-. by apply (Hto n).
  - injection He as <-. apply (Hto n); [done|]. by destruct (_ || _).
  - injection He as <-. destruct o as [doc|]; [|by apply (Hto n)]. destruct (Unchanged doc); [by apply (Hto n)|]. apply prepare_remembers; [|done]. apply Hd. left. left.
  - injection He as <-. apply prepare_remembers; [|done]. apply Hd. right. left.
  - destruct (set_peers ps n) as [er n'] eqn:Es. injection He as <-. apply (Hto n'); [by eapply set_peers_man|by destruct er].
  - injection He as <-. by apply (Hto _ (Committing doc revoked')).
  - injection He as <-. by split.
  - injection He as <-. destruct (keyed_same doc now fetchedAt written n) as (_ & E). by apply (Hto _ Idle).
  - destruct cl; [done|]. injection He as <-. by destruct (is_stale _ _).
  - destruct cl; [|done]. cbn [negb] in He. destruct (set_peers [] n) as [er n'] eqn:Es. injection He as <-. apply (Hto n'); [by eapply set_peers_man|done].
  - destruct (PskEpoch.poll range now (psk n, dev n)) as [q d]. injection He as <-. by split.
Qed.

Lemma runs_remembers k v es w w' : runs range es w = Some w' →
  (∀ doc, received doc es → v <= Version doc → k ∈ normaliseKey <$> RevokedKeys doc) → remembers k v w → remembers k v w'.
Proof.
  revert w. induction es as [|e es IH]; intros w H Hd Hr; [by injection H as <-|]. cbn in H. apply bind_Some in H as (w1 & H1 & H). unfold received in *.
  apply (IH w1); [done|set_solver|]. eapply exec_remembers; [exact H1|unfold received; set_solver|done].
Qed.

Lemma begin_inv priv w0 stored : peers_of w0 = ∅ → inv (begin (started priv w0 stored)).
Proof.
  intros H0 _. split; [|split; [exists []; split; [done|split; constructor]|by intros ? [??]]]. intros j p (x & Hx & _). cbn in Hx. rewrite H0 in Hx. done.
Qed.


Lemma exec_failed e w w' : exec range e w = Some w' → failed w' = false → failed w = false.
Proof.
  destruct w as [n p cl fl]. intros He Hf. cbn [failed]. destruct e; cbn [exec heart self closing failed] in He. 1-11: destruct p; try done.
  all: try match type of He with context [set_peers ?a ?b] => destruct (set_peers a b) as [er n'] end.
  - injection He as <-. unfold beat in Hf. by destruct keys.
  - injection He as <-. by apply orb_false_iff in Hf as [_ ?].
  - by injection He as <-.
  - by injection He as <-.
  - by injection He as <-.
  - injection He as <-. destruct o as [doc|]; [by destruct (Unchanged doc)|done].
  - by injection He as <-.
  - injection He as <-. by apply orb_false_iff in Hf as [_ ?].
  - by injection He as <-.
  - by injection He as <-.
  - by injection He as <-.
  - destruct cl; [done|]. injection He as <-. by destruct (is_stale _ _).
  - destruct cl; [|done]. injection He as <-. by apply orb_false_iff in Hf as [_ ?].
  - destruct (PskEpoch.poll range now (psk n, dev n)) as [q d]. by injection He as <-.
Qed.

Lemma runs_failed es w w' : runs range es w = Some w' → failed w' = false → failed w = false.
Proof.
  revert w. induction es as [|e es IH]; intros w H Hf; [by injection H as <-|]. cbn in H. apply bind_Some in H as (w1 & H1 & H). apply (exec_failed _ _ _ H1). by apply IH.
Qed.

(** ** Fail-static, then fail-closed *)

(** What runs while no heartbeat comes back. *)
Definition quiet (e : event) : bool := match e with Check _ | Threads.Close | Poll _ => true | _ => false end.

Definition unrouted (d : Device.t) : Prop := ∀ k q, ¬ routed d k q.

Lemma emptied_unrouted n n' : set_peers [] n = (None, n') → tracked (dev n) → unrouted (dev n').
Proof.
  intros Hs Ht k q Hq. apply set_peers_ok in Hs as (_ & Ht' & E & _); [|done]. apply Ht' in Hq. rewrite E in Hq. set_solver.
Qed.

(** Not yet stale, about to close, or closed. *)
Definition phase (m0 : netmapManager) (d0 : Device.t) (w : world) : Prop :=
  (closing w = false ∧ man (self w) = m0 ∧ ∀ k q, routed (dev (self w)) k q ↔ routed d0 k q) ∨
  failClosed (man (self w)) = true ∧ (closing w = true ∨ unrouted (dev (self w))).

Lemma stale_open now m : is_stale now m = true → failClosed m = false.
Proof. unfold is_stale. intros H. b2p. done. Qed.

Lemma quiet_phase m0 d0 e w w' : exec range e w = Some w' → quiet e = true → inv w → failed w' = false → phase m0 d0 w →
  phase m0 d0 w' ∧ (∀ t, e = Check t → is_stale t m0 = true → failClosed (man (self w')) = true) ∧
  (failClosed m0 = false → failClosed (man (self w)) = true → failClosed (man (self w')) = true).
Proof.
  intros He Hq Hi Hf Hp. destruct w as [n p cl fl]. destruct e; try done; cbn [exec heart self closing failed] in He.
  - destruct cl; [done|]. injection He as <-. destruct (is_stale now (man n)) eqn:Es; [split; [right; split; [done|by left]|done]|].
    split; [done|]. split; [|done]. intros t [= ->] Ht. destruct Hp as [(_ & E & _)|[? _]]; [cbn in E; congruence|done].
  - destruct cl; [|done]. cbn [negb] in He. destruct (set_peers [] n) as [er n'] eqn:Es. injection He as <-. cbn in Hf. apply orb_false_iff in Hf as [Hd Hf].
    destruct (Hi Hf) as (Ht & _). destruct er as [er|]; [apply set_peers_err in Es as [_ Hna]; [|done]; destruct Hna; split; constructor|].
    pose proof (emptied_unrouted n n' Es Ht) as Hu. apply set_peers_man in Es. destruct Hp as [(? & _)|[Hc _]]; [done|]. cbn in Hc.
    split; [right; split; [|by right]|split; [done|intros _ _]]; change (failClosed (man n') = true); by rewrite Es.
  - pose proof (poll_same now (psk n) (dev n)) as (_ & _ & Hr). destruct (PskEpoch.poll range now (psk n, dev n)) as [q d]. injection He as <-.
    split; [|done]. destruct Hp as [(? & ? & Hd)|[Hc Ho]]; [left; split_and!; [done|done|]; intros k x; etrans; [apply Hr|apply Hd]|].
    right. split; [done|]. destruct Ho as [Ho|Ho]; [by left|right]. intros k x Hx. by apply (Ho k x), Hr.
Qed.

Lemma quiet_runs m0 d0 es w w' : runs range es w = Some w' → forallb quiet es = true → inv w → failed w' = false → phase m0 d0 w →
  phase m0 d0 w' ∧ (failClosed m0 = false → failClosed (man (self w)) = true ∨ (∃ t, Check t ∈ es ∧ is_stale t m0 = true) → failClosed (man (self w')) = true).
Proof.
  revert w. induction es as [|e es IH]; intros w H Hq Hi Hf Hp; [injection H as <-; split; [done|]; intros _ [?|(t & ?%elem_of_nil & _)]; done|].
  cbn in H, Hq. apply bind_Some in H as (w1 & H1 & H). b2p. assert (failed w1 = false) as Hf1 by (eapply runs_failed; [exact H|done]).
  destruct (quiet_phase m0 d0 e w w1) as (Hp1 & Ht & Hk); [done..|]. destruct (IH w1) as [Hp2 Hc]; [done|done|by eapply exec_inv|done|done|].
  split; [done|]. intros Hm [Hw|(t & [<-|Hin]%elem_of_cons & Hs)]; apply Hc; try done; [left; by apply Hk|left; by apply (Ht t)|right; by exists t].
Qed.

Lemma never_stale es w w' : runs range es w = Some w' → forallb quiet es = true → closing w = false →
  (∀ t, Check t ∈ es → is_stale t (man (self w)) = false) → ∀ k q, routed (dev (self w')) k q ↔ routed (dev (self w)) k q.
Proof.
  revert w. induction es as [|e es IH]; intros w H Hq Hc Hs; [by injection H as <-|]. cbn in H, Hq. apply bind_Some in H as (w1 & H1 & H). b2p.
  assert (closing w1 = false ∧ man (self w1) = man (self w) ∧ ∀ k q, routed (dev (self w1)) k q ↔ routed (dev (self w)) k q) as (Hc1 & Hm & Hr).
  { clear IH H. destruct w as [n p cl fl]. cbn in Hc. subst cl. destruct e; try done; cbn [exec heart self closing failed] in H1.
    - injection H1 as <-. assert (is_stale now (man n) = false) as -> by (apply (Hs now); left). by split_and!.
    - pose proof (poll_same now (psk n) (dev n)) as (_ & _ & Hr). destruct (PskEpoch.poll range now (psk n, dev n)) as [q d]. injection H1 as <-. by split_and!. }
  intros k q. rewrite <- (Hr k q). apply IH; try done. intros t Ht. rewrite Hm. apply Hs. by right.
Qed.


(** ** Whole or not at all *)

(** The ways [Apply] can end. *)
Lemma Apply_cases netmap fetchedAt now written n e n' :
  Apply range netmap fetchedAt now written n = (e, n') → tracked (dev n) →
  match e with
  | Some er => er ≠ DeviceError IpcError → n' = n
  | None => ∃ doc ps, netmap = Some doc ∧ netmapPeers (Peers doc) (revoked_after doc (revoked (man n))) = Some ps ∧
      Netfilter.policy (netfilter n') = ACL doc ∧ man n' = commit doc fetchedAt (revoked_after doc (revoked (man n))) (man n) ∧
      peerKeys (dev n') = list_to_set (key_of <$> ps) ∧
      (∀ k q, routed (dev n') k q → ∃ p, p ∈ ps ∧ key_of p = k ∧ q ∈ Device.AllowedIPs p) ∧
      (∀ p q, p ∈ ps → q ∈ Device.AllowedIPs p → (∀ p', p' ∈ ps → q ∈ Device.AllowedIPs p' → p' = p) → routed (dev n') (key_of p) q)
  end.
Proof.
  unfold Apply. destruct netmap as [doc|]; [|by intros [= <- <-]]. destruct (netmapPeers _ _) as [ps|] eqn:Ep; [|by intros [= <- <-]].
  unfold Manager.set_peers. destruct (Device.SetPeers range ps (dev n)) as [er d] eqn:Es. destruct er as [er|].
  - intros [= <- <-] _ He. assert (d = dev n) as -> by (eapply SetPeers_refused; [exact Es|congruence]). by destruct n.
  - intros [= <- <-] Ht. destruct (SetPeers_ok range range_all ps (dev n) d Es Ht) as (_ & Hk & _ & Hs & Hc & _).
    match goal with |- context [persist doc fetchedAt written (set_psk_peers range doc now ?x)] => set (n2 := x);
      destruct (keyed_same doc now fetchedAt written n2) as ((_ & Ek & Hr) & Em); pose proof (keyed_filter doc now fetchedAt written n2) as Ef end.
    exists doc, ps. rewrite Em, Ek, Ef. split_and!; try done.
    + intros k q Hq. apply Hr in Hq. by apply Hs.
    + intros p q Hp Hq Hu. apply Hr. apply Hc; [done..|]. intros p' Hp' Hq'. by rewrite (Hu p').
Qed.

(** C30. A document is applied whole or not at all.  A document that is not applied leaves the
    node as it was: its peers, its policy, what it holds and what it has stored; only a
    request that failed inside the engine is excluded.  One that is applied gives the
    device exactly the peers of the document that are not revoked, with no prefix but
    theirs, and the filter its policy. *)
Theorem document_applied_whole netmap fetchedAt now written n e n' :
  Apply range netmap fetchedAt now written n = (e, n') → tracked (dev n) →
  match e with
  | Some er => er ≠ DeviceError IpcError → n' = n
  | None => ∃ doc ps, netmap = Some doc ∧ netmapPeers (Peers doc) (revoked_after doc (revoked (man n))) = Some ps ∧
      Netfilter.policy (netfilter n') = ACL doc ∧ man n' = commit doc fetchedAt (revoked_after doc (revoked (man n))) (man n) ∧
      peerKeys (dev n') = list_to_set (key_of <$> ps) ∧
      (∀ k q, routed (dev n') k q → ∃ p, p ∈ ps ∧ key_of p = k ∧ q ∈ Device.AllowedIPs p) ∧
      (∀ p q, p ∈ ps → q ∈ Device.AllowedIPs p → (∀ p', p' ∈ ps → q ∈ Device.AllowedIPs p' → p' = p) → routed (dev n') (key_of p) q)
  end.
Proof. apply Apply_cases. Qed.

(** ** The operations as runs *)

(** A run that the heartbeat loop makes alone, and where it ends. *)
Definition alone (es : list event) (n : node) (p : pc) (cl fl : bool) (n' : node) : Prop :=
  ∃ fl', runs range es (mk_world n p cl fl) = Some (mk_world n' Idle cl fl').

Lemma alone_step e es n p cl fl n1 p1 fl1 n' :
  exec range e (mk_world n p cl fl) = Some (mk_world n1 p1 cl fl1) → alone es n1 p1 cl fl1 n' → alone (e :: es) n p cl fl n'.
Proof. intros H [fl' Hr]. exists fl'. cbn. by rewrite H. Qed.

Lemma apply_alone doc fetchedAt now written n cl fl : ∃ es, alone es n
  (match netmapPeers (Peers doc) (revoked_after doc (revoked (man n))) with
   | Some ps => Installing doc (revoked_after doc (revoked (man n))) ps | None => Idle end) cl fl (Apply range (Some doc) fetchedAt now written n).2.
Proof.
  unfold Apply. destruct (netmapPeers _ _) as [ps|]; [|exists []; by exists fl]. destruct (Manager.set_peers range ps n) as [e n1] eqn:Es. destruct e as [e|].
  - exists [Install]. eapply alone_step; [cbn; by rewrite Es|]. by eexists.
  - exists [Install; Enforce; Commit fetchedAt; Key now fetchedAt written]. eapply alone_step; [cbn; by rewrite Es|].
    eapply alone_step; [reflexivity|]. eapply alone_step; [reflexivity|]. eapply alone_step; [reflexivity|]. by eexists.
Qed.

Lemma fetch_alone serve held now written n cl fl : ∃ es, alone es n (Waiting held) cl fl (fetchAt range serve held now written n).2.
Proof.
  unfold fetchAt. destruct (serve held) as [doc|] eqn:E.
  - destruct (Unchanged doc) eqn:Eu.
    + exists [Answer (Some doc)]. eapply alone_step; [cbn; by rewrite Eu|]. by eexists.
    + destruct (apply_alone doc now now written n cl fl) as [es H]. exists (Answer (Some doc) :: es). eapply alone_step; [cbn; by rewrite Eu|exact H].
  - exists [Answer None]. eapply alone_step; [reflexivity|]. by eexists.
Qed.

Lemma confirm_alone v serve now written n cl fl : ∃ es, alone es n (Confirming v) cl fl
  (let n2 := n <| man ::= Confirm now |> in
   if failClosed (man n2) || (version (man n2) <? v)
   then (fetchAt range serve (if failClosed (man n2) then 0 else version (man n2)) now written n2).2 else n2).
Proof.
  set (n2 := n <| man ::= Confirm now |>). cbv zeta.
  enough (∃ es, alone es n2 (if failClosed (man n2) || (version (man n2) <? v) then Waiting (if failClosed (man n2) then 0 else version (man n2)) else Idle) cl fl
    (if failClosed (man n2) || (version (man n2) <? v) then (fetchAt range serve (if failClosed (man n2) then 0 else version (man n2)) now written n2).2 else n2)) as [es H].
  { exists (Confirmed now :: Ask :: Compare :: es). do 3 (eapply alone_step; [reflexivity|]). exact H. }
  destruct (_ || _); [apply fetch_alone|]. exists []. by exists fl.
Qed.

Lemma revoke_alone keys v n cl fl : keys ≠ [] → ∃ es fl', runs range es (mk_world n Idle cl fl) = Some (mk_world (ApplyRevocations range keys v n) (Confirming v) cl fl').
Proof.
  intros Hk. destruct keys as [|k keys]; [done|]. unfold ApplyRevocations. set (ks := k :: keys). set (n1 := n <| man ::= learn ks v |>).
  assert (exec range (Beat ks v) (mk_world n Idle cl fl) = Some (mk_world n1 (match newly ks (man n), netmapPeers (peers (man n1)) (revoked (man n1)) with
    | true, Some ps => Revoking ps v | _, _ => Confirming v end) cl fl)) as E by reflexivity.
  destruct (newly ks (man n)); cbn [negb]; [|exists [Beat ks v], fl; cbn [runs]; by rewrite E].
  destruct (netmapPeers _ _) as [ps|]; [|exists [Beat ks v], fl; cbn [runs]; by rewrite E].
  destruct (Manager.set_peers range ps n1) as [e n2] eqn:Es. exists [Beat ks v; Revoke], (device_failed e || fl). cbn [runs]. rewrite E. cbn. by rewrite Es.
Qed.

(** The sequential readings of [onHeartbeat] and of a staleness check are runs: one
    goroutine at a time is one of the interleavings. *)
Theorem operations_are_runs keys v serve now written n fl :
  (∃ es, alone es n Idle false fl (onHeartbeat range keys v serve now written n)) ∧
  (∃ es, alone es n Idle false fl (EnforceStaleness range now n).2).
Proof.
  split.
  - unfold onHeartbeat. destruct keys as [|k keys].
    + destruct (confirm_alone v serve now written n false fl) as [es H]. exists (Beat [] v :: es). eapply alone_step; [reflexivity|exact H].
    + destruct (revoke_alone (k :: keys) v n false fl ltac:(done)) as (es1 & fl1 & H1).
      destruct (confirm_alone v serve now written (ApplyRevocations range (k :: keys) v n) false fl1) as (es2 & fl2 & H2).
      exists (es1 ++ es2), fl2. apply runs_app. by eexists.
  - unfold EnforceStaleness. destruct (is_stale now (man n)) eqn:Es; cbn [negb].
    + destruct (Manager.set_peers range [] (n <| man ::= λ m, m <| failClosed := true |> |>)) as [e n1] eqn:Ep.
      exists [Check now; Threads.Close], (device_failed e || fl). cbn. rewrite Es. cbn. by rewrite Ep.
    + exists [Check now]. eapply alone_step; [cbn; by rewrite Es|]. by eexists.
Qed.
End Node.
End ManagerFacts.
