(* ===== verification/Delivery.v ===== *)
(** * The document from the control plane to the node

    Where [Netmap] (the control plane builds the document) meets [Manager] (the node
    applies it): every text the one writes is one the other reads, so a document is never
    refused for its form, and what a node routes is what the stored rows allow. *)

From S2P Require Import Prelude Order Js Encoding Json Cidr Db Vip Acl Routes Revocation Endpoints Permit Netmap.
From S2P Require Import Bytes Primitives Challenge Onion Netfilter Device Manager ManagerFacts.

(** ** What the node reads of what the control plane writes *)

Module Texts.
Import GoNet Vip.

Lemma code_same c x : (code x =? code c) = Ascii.eqb x c.
Proof.
  destruct (Ascii.eqb x c) eqn:E; [apply Ascii.eqb_eq in E as ->; apply Z.eqb_refl|].
  apply Z.eqb_neq. intros H. apply Ascii.eqb_neq in E. apply E. unfold code in H.
  rewrite <- (ascii_N_embedding x), <- (ascii_N_embedding c). f_equal. lia.
Qed.

Lemma includes_char_cons c x s : includes_char c (String x s) = Ascii.eqb x c || includes_char c s.
Proof. unfold includes_char. cbn. by rewrite negb_andb, negb_involutive. Qed.

Lemma cut_last_none c s : includes_char c s = false → cut_last c s = None.
Proof.
  induction s as [|x s IH]; [done|]. rewrite includes_char_cons. intros [Hx Hs]%orb_false_iff. cbn. by rewrite IH, code_same, Hx.
Qed.
Lemma cut_last_app c s t : includes_char c t = false → cut_last c (s +:+ String c t) = Some (s, t).
Proof.
  intros Ht. induction s as [|x s IH]; [rewrite append_nil_l; cbn [cut_last]; by rewrite cut_last_none, Z.eqb_refl|].
  rewrite append_cons. cbn [cut_last]. by rewrite IH.
Qed.
Lemma cut_first_app c s t : includes_char c s = false → cut_first c (s +:+ String c t) = Some (s, t).
Proof.
  induction s as [|x s IH]; [rewrite append_nil_l; cbn [cut_first]; by rewrite Z.eqb_refl|]. rewrite includes_char_cons. intros [Hx Hs]%orb_false_iff. rewrite append_cons. cbn [cut_first].
  by rewrite code_same, Hx, IH.
Qed.

(** *** IPv4 *)

(** The digits of an octet, as [ipv4_fields] reads them. *)
Fixpoint scan (s : string) (val : Z) (digLen : nat) : option (Z * nat) :=
  match s with
  | EmptyString => Some (val, digLen)
  | String c s' =>
      if negb (is_digit c) || (Nat.eqb digLen 1 && (val =? 0)) || (255 <? val * 10 + (code c - 48)) then None
      else scan s' (val * 10 + (code c - 48)) (S digLen)
  end.

Lemma scan_fields s t v n v' n' fs : scan s v n = Some (v', n') → ipv4_fields (s +:+ t) v n fs = ipv4_fields t v' n' fs.
Proof.
  revert v n. induction s as [|c s IH]; intros v n; [by intros [= -> ->]|]. rewrite append_cons. cbn [scan ipv4_fields].
  destruct (is_digit c); [|done]. destruct (_ && _); [done|]. cbn [negb orb]. destruct (255 <? _); [done|]. apply IH.
Qed.

Definition octet_scans (a : Z) : bool := match scan (pretty a) 0 0 with Some (v, S _) => v =? a | _ => false end.
Lemma octet_scan a : octet a → ∃ n, scan (pretty a) 0 0 = Some (a, S n).
Proof.
  intros H. assert (octet_scans a = true) as E by (apply (upto_forall (λ a, octet_scans a = true) 256); [by vm_compute|exact H]).
  unfold octet_scans in E. destruct (scan _ _ _) as [[v [|n]]|]; [done| |done]. b2p. subst v. by exists n.
Qed.

Lemma octet_field a t fs : octet a → t ≠ "" → (length fs < 3)%nat → ipv4_fields (pretty a +:+ String "." t) 0 0 fs = ipv4_fields t 0 0 (fs ++ [a]).
Proof.
  intros Ha Ht Hl. destruct (octet_scan a Ha) as [n Hn]. rewrite (scan_fields _ _ _ _ _ _ _ Hn). cbn [ipv4_fields].
  change (is_digit ".") with false. change (code "." =? 46) with true. cbv iota. cbn [Nat.eqb orb].
  apply String.eqb_neq in Ht. rewrite Ht. cbn [orb]. destruct (Nat.eqb_spec (length fs) 3); [lia|done].
Qed.

Lemma octet_nonempty a t : octet a → pretty a +:+ t ≠ "".
Proof. intros H E. destruct (octet_scan a H) as [n Hn]. by destruct (pretty a). Qed.

Lemma dotted_text a b c d : dotted a b c d = pretty a +:+ String "." (pretty b +:+ String "." (pretty c +:+ String "." (pretty d))).
Proof. done. Qed.

Lemma go_parseIPv4_dotted a b c d : Forall octet [a; b; c; d] → GoNet.parseIPv4 (dotted a b c d) = Some [a; b; c; d].
Proof.
  rewrite !Forall_cons. intros (Ha & Hb & Hc & Hd & _). unfold GoNet.parseIPv4. rewrite dotted_text, <- (append_nil_r (pretty d)).
  rewrite !octet_field by (try done; try (cbn; lia); apply octet_nonempty; done).
  destruct (octet_scan d Hd) as [n Hn]. rewrite (scan_fields _ _ _ _ _ _ _ Hn). done.
Qed.

(** A dotted address has digits and dots only. *)
Definition dotted_char (c : ascii) : bool := is_digit c || (code c =? 46).

Lemma dotted_chars a b c d : Forall octet [a; b; c; d] → all_chars dotted_char (dotted a b c d) = true.
Proof.
  intros H. apply all_chars_join; [done|]. apply Forall_fmap. eapply Forall_impl; [exact H|]. intros z Hz. unfold octet in Hz.
  eapply NetfilterFacts.all_chars_impl; [|apply NetfilterFacts.pretty_digits; lia]. intros x Hx. unfold dotted_char. by rewrite Hx.
Qed.

Lemma lacks (p : ascii → bool) c s : p c = false → all_chars p s = true → includes_char c s = false.
Proof.
  intros Hp H. unfold includes_char. apply negb_false_iff. eapply NetfilterFacts.all_chars_impl; [|exact H].
  intros x Hx. apply negb_true_iff, Ascii.eqb_neq. intros ->. congruence.
Qed.

Lemma first_of_dotted a b c d : octet a → first_of (dotted a b c d) = Some "."%char.
Proof.
  intros Ha. rewrite dotted_text. unfold octet in Ha. pose proof (NetfilterFacts.pretty_digits a ltac:(lia)) as H.
  induction (pretty a) as [|x s IH]; [done|]. cbn in H. apply andb_true_iff in H as [Hx Hs]. rewrite append_cons. cbn [first_of].
  assert (((code x =? 46) || (code x =? 58) || (code x =? 37)) = false) as -> by (unfold is_digit in Hx; lia). by apply IH.
Qed.

Lemma ParseAddr_dotted a b c d : Forall octet [a; b; c; d] → ParseAddr (dotted a b c d) = Some [a; b; c; d].
Proof.
  intros H. unfold ParseAddr. rewrite (lacks dotted_char), first_of_dotted by (done || by apply dotted_chars || by inversion H).
  by apply go_parseIPv4_dotted.
Qed.

Definition length_reads (n : Z) : bool := match prefix_length (pretty n) with Some v => v =? n | None => false end.
Lemma prefix_length_pretty n : 0 <= n <= 128 → prefix_length (pretty n) = Some n.
Proof.
  intros H. assert (length_reads n = true) as E by (apply (upto_forall (λ n, length_reads n = true) 129); [by vm_compute|lia]).
  unfold length_reads in E. destruct (prefix_length _); [|done]. by b2p; subst.
Qed.

(** A network of the route table. *)
Lemma ParsePrefix_dotted a b c d bits : Forall octet [a; b; c; d] → 0 <= bits <= 32 →
  ParsePrefix (trim (dotted a b c d +:+ "/" +:+ pretty bits)) = Some (mk_prefix [a; b; c; d] bits).
Proof.
  intros H Hb. rewrite trim_no_space.
  - unfold ParsePrefix. rewrite append_cons, append_nil_l, cut_last_app; cbn [mbind option_bind].
    + rewrite ParseAddr_dotted, prefix_length_pretty by (done || lia). cbn [mbind option_bind length].
      destruct (Z.leb_spec bits (8 * Z.of_nat 4)); [done|cbn in *; lia].
    + eapply lacks; [|apply NetfilterFacts.pretty_digits; lia]. done.
  - unfold no_space. rewrite !all_chars_app. fold (no_space (dotted a b c d)). rewrite dotted_no_space by done.
    cbn. apply (bits_text bits Hb).
Qed.

(** The network of a route, as the document writes it. *)
Lemma go_net_prefix cidr net : cidrToGoIPNet cidr = Some net → ∃ q, ParsePrefix (trim (goIPNetToCidr net)) = Some q ∧ length (Addr q) = 4%nat.
Proof.
  intros H. destruct (route_network_roundtrip _ _ H) as (a & b & c & d & bits & a1 & b1 & c1 & d1 & Ep & Eg & _).
  destruct (parseCidrParts_spec _ _ _ Ep) as (x & y & z & u & E & Ho & Hb). injection E as <- <- <- <-.
  destruct (masked_value bits a b c d Ho Hb) as (a2 & b2 & c2 & d2 & Em & Ho' & _). exists (mk_prefix [a2; b2; c2; d2] bits). split; [|done].
  rewrite <- (ParsePrefix_dotted a2 b2 c2 d2 bits Ho' Hb). f_equal. f_equal.
  unfold cidrToGoIPNet in H. rewrite Ep in H. apply Some_inj in H as <-. unfold goIPNetToCidr. cbn [IP Mask].
  rewrite b64_roundtrip by by apply mask_bytes_octets. rewrite scan_mask_bytes by done. fold (masked bits a b c d). by rewrite Em.
Qed.

(** *** IPv6 *)

Lemma hex_field_text s off acc v : radix_digits 16 s acc = Some v → hex_field s off acc = ((off + String.length s)%nat, v, "").
Proof.
  revert off acc. induction s as [|c s IH]; intros off acc; cbn; [intros [= ->]; by rewrite Nat.add_0_r|].
  destruct (hex_value c) as [d|]; [|done]. destruct (d <? 16); [|done]. intros H. rewrite (IH _ _ H). by rewrite Nat.add_succ_r.
Qed.

Lemma to_hex_length k fuel n : 0 <= n < 16 ^ Z.of_nat (S k) → (k < fuel)%nat → (1 <= String.length (to_hex fuel n) <= S k)%nat.
Proof.
  revert fuel n. induction k as [|k IH]; intros [|fuel] n Hn Hf; try lia; cbn [to_hex].
  - destruct (Z.ltb_spec n 16); [cbn; lia|lia].
  - destruct (Z.ltb_spec n 16); [cbn; lia|]. rewrite string_length_app. cbn [String.length].
    rewrite Nat2Z.inj_succ, Z.pow_succ_r in Hn by lia. specialize (IH fuel (n / 16)). cbn. dlia.
Qed.

(** The address the pool gives to an offset that fits its last group. *)
Definition overlay6 (o : Z) : list Z := [253; 122; 17; 92; 161; 224; 0; 0; 0; 0; 0; 0; 0; 0; o / 256; o mod 256].

Lemma pool_groups t : t ≠ "" → ipv6_groups 8 ("fd7a:115c:a1e0::" +:+ t) [] None = ipv6_groups 5 t [64890; 4444; 41440] (Some 3%nat).
Proof. intros H. destruct t; [done|reflexivity]. Qed.

Lemma parseIPv6_overlay o t : radix_digits 16 t 0 = Some o → (1 <= String.length t <= 4)%nat → parseIPv6 ("fd7a:115c:a1e0::" +:+ t) = Some (overlay6 o).
Proof.
  intros Hv Hl. assert (t ≠ "") as Hne by (intros ->; cbn in Hl; lia).
  unfold parseIPv6. change (startsWith "::" _) with false. cbv iota. cbn [andb]. rewrite pool_groups by done. cbn [ipv6_groups].
  rewrite (hex_field_text _ 0 0 o) by done. cbn [Nat.add].
  assert ((Nat.eqb (String.length t) 0 || Nat.ltb 4 (String.length t)) = false) as -> by (apply orb_false_iff; split; [apply Nat.eqb_neq|apply Nat.ltb_ge]; lia).
  done.
Qed.

Definition hextet_char (c : ascii) : bool := is_hex c || (code c =? 58).

Lemma to_hex_chars fuel n : 0 <= n → all_chars is_hex (to_hex fuel n) = true.
Proof.
  revert n. induction fuel as [|f IH]; intros n Hn; [done|]. cbn [to_hex]. destruct (Z.ltb_spec n 16).
  - cbn. by rewrite (proj1 (hex_char_props n ltac:(lia))).
  - rewrite all_chars_app, IH by dlia. cbn. by rewrite (proj1 (hex_char_props (n mod 16) ltac:(dlia))).
Qed.

Lemma ParsePrefix_overlay6 o : 0 <= o < 65536 →
  ParsePrefix (trim (overlayIpv6 (vip_of o) +:+ "/128")) = Some (mk_prefix (overlay6 o) 128).
Proof.
  intros Ho. unfold vip_of, toString16. cbn [overlayIpv6]. rewrite VipFacts.to_hex_lower by lia.
  pose proof (VipFacts.to_hex_value 14 o ltac:(lia)) as Hv. pose proof (to_hex_length 3 14 o ltac:(lia) ltac:(lia)) as Hl.
  pose proof (to_hex_chars 14 o ltac:(lia)) as Hc. revert Hv Hl Hc. generalize (to_hex 14 o) as t. intros t Hv Hl Hc.
  set (a := "fd7a:115c:a1e0::" +:+ t). assert (all_chars hextet_char a = true) as Ht.
  { subst a. rewrite all_chars_app. cbn. eapply NetfilterFacts.all_chars_impl; [|exact Hc]. intros c E. unfold hextet_char. by rewrite E. }
  rewrite trim_no_space.
  - unfold ParsePrefix. change "/128" with (String "/" "128"). rewrite cut_last_app by done. cbn [mbind option_bind].
    unfold ParseAddr. rewrite (lacks hextet_char) by done. change (first_of a) with (Some ":"%char). change (code ":" =? 46) with false. cbv iota.
    subst a. by rewrite (parseIPv6_overlay o).
  - unfold no_space. rewrite all_chars_app, andb_true_r. eapply NetfilterFacts.all_chars_impl; [|exact Ht].
    intros c. by destruct c as [[] [] [] [] [] [] [] []].
Qed.

(** *** Endpoints *)

Lemma port_text p : 0 <= p → no_space (pretty p) = true ∧ includes_char ":" (pretty p) = false ∧ includes_char "[" (pretty p) = false ∧ includes_char "]" (pretty p) = false.
Proof.
  intros H. pose proof (NetfilterFacts.pretty_digits p H) as Hd. split; [|split_and!; by apply (lacks is_digit)].
  eapply NetfilterFacts.all_chars_impl; [|exact Hd]. intros c. destruct c as [[] [] [] [] [] [] [] []]; done.
Qed.

Lemma split_dotted_port a b c d p : Forall octet [a; b; c; d] → 0 <= p →
  SplitHostPort (dotted a b c d +:+ ":" +:+ pretty p) = Some (dotted a b c d, pretty p).
Proof.
  intros H Hp. destruct (port_text p Hp) as (_ & H1 & H2 & H3). pose proof (dotted_chars _ _ _ _ H) as Hd.
  unfold SplitHostPort. rewrite append_cons, append_nil_l, cut_last_app by done. cbn [mbind option_bind].
  rewrite !includes_char_app, !includes_char_cons, H2, H3, !(lacks dotted_char) by done. cbn [orb Ascii.eqb].
  destruct (dotted a b c d) as [|x s] eqn:E; [done|]. rewrite append_cons. cbn in Hd. apply andb_true_iff in Hd as [Hx _]. destruct x as [[] [] [] [] [] [] [] []]; done.
Qed.

Lemma split_bracketed_port addr p : all_chars Endpoints.is_v6_char addr = true → 0 <= p →
  SplitHostPort ("[" +:+ addr +:+ "]:" +:+ pretty p) = Some (addr, pretty p).
Proof.
  intros H Hp. destruct (port_text p Hp) as (_ & H1 & H2 & H3).
  assert ("[" +:+ addr +:+ "]:" +:+ pretty p = ("[" +:+ addr +:+ "]") +:+ String ":" (pretty p)) as E by (by rewrite !append_assoc).
  unfold SplitHostPort. rewrite E, cut_last_app by done. cbn [mbind option_bind]. rewrite <- E, append_cons, append_nil_l. change ("]:" +:+ pretty p) with (String "]" (String ":" (pretty p))).
  rewrite cut_first_app by (by apply (lacks Endpoints.is_v6_char)). cbn [mbind option_bind].
  rewrite append_cons, append_nil_l, String.eqb_refl, !includes_char_app, !includes_char_cons, H2, H3, (lacks Endpoints.is_v6_char "[") by done. done.
Qed.

Lemma rendered_splits e : endpoint_ok e → no_space (Endpoints.rendered e) = true ∧ Endpoints.rendered e ≠ "" ∧ is_Some (SplitHostPort (Endpoints.rendered e)).
Proof.
  intros [[raw Hr] Hp _ -> _]. destruct (port_text (Endpoints.port e) ltac:(lia)) as (Hs & _). unfold Endpoints.renderEndpoint.
  destruct (classify_good _ _ _ Hr) as [(-> & a & b & c & d & Ho & -> & _)|(-> & Hv & _)]; cbn [Z.eqb Pos.eqb].
  - split_and!; [|by destruct (dotted a b c d)|rewrite split_dotted_port by (done || lia); by eexists].
    unfold no_space in *. rewrite !all_chars_app, Hs. fold (no_space (dotted a b c d)). by rewrite dotted_no_space.
  - split_and!; [|done|rewrite split_bracketed_port by (done || lia); by eexists].
    destruct (EndpointFacts.v6_no_space _ Hv) as [Hn _]. unfold no_space in *. by rewrite !all_chars_app, Hs, Hn.
Qed.

(** *** Keys *)

Lemma b64_value_range c z : b64_value c = Some z → 0 <= z < 64.
Proof. unfold b64_value. repeat case_match; intros; simplify_eq; unfold is_upper, is_lower, is_digit in *; b2p; lia. Qed.

Lemma b64_group_bytes l : Forall (λ z, 0 <= z < 64) l → Bytes.bytes (b64_group l).
Proof.
  revert l. fix IH 1. intros [|a [|b [|c [|d l]]]] H; [constructor|constructor| | |];
    repeat (apply Forall_cons in H as [? H]); cbn [b64_group]; repeat (constructor; [unfold Bytes.is_uint; dlia|]); [constructor..|by apply IH].
Qed.

Lemma b64_decode_bytes s : Bytes.bytes (b64_decode s).
Proof.
  apply b64_group_bytes, Forall_forall. intros z (c & _ & Hc)%list_elem_of_omap. by apply b64_value_range in Hc.
Qed.

(** A key the control plane sends is the text of 32 bytes, which the device accepts as it
    stands. *)
Lemma normalised_key value k : normalisePublicKeyHex value = Some k → ∃ raw, Bytes.bytes raw ∧ length raw = 32%nat ∧ k = hex_encode raw.
Proof.
  unfold normalisePublicKeyHex. destruct (_ && _) eqn:E.
  - intros [= <-]. destruct (HexFacts.hex64_inv _ E) as (<- & Hl & Hb). by eexists.
  - clear E. destruct (_ && _); [|done]. destruct (Z.eqb_spec (Z.of_nat (length (b64_decode (trim value)))) 32) as [E|]; [|done].
    intros [= <-]. exists (b64_decode (trim value)). split_and!; [apply b64_decode_bytes|lia|done].
Qed.

Lemma encoded_key raw : Bytes.bytes raw → length raw = 32%nat → let k := hex_encode raw in
  toLowerCase k = k ∧ trim k = k ∧ Device.is_key k = true ∧ Manager.normaliseKey k = k.
Proof.
  intros Hb Hl. destruct (HexFacts.hex_encode_plain raw Hb) as (Hs & _ & Hlow & _). cbv zeta. unfold Manager.normaliseKey, Device.is_key, Device.decodeKey.
  rewrite trim_no_space by done. rewrite HexFacts.DecodeString_encode by done. cbn [mbind option_bind]. by rewrite Hl, Hlow.
Qed.
End Texts.

(** ** A document is applied, and means what the rows say *)

Module Served.
Import Netmap NetmapFacts Subnets Texts.

(** The members of the document that the node reads; the rest of a peer is for the
    display. *)
Definition carried (p : Netmap.peer) : Manager.NetmapPeer :=
  Manager.mk_peer (p_node_id p) (p_public_key_hex p) (p_allowed_ips p) (p_endpoints p) (p_keepalive_seconds p).

(** [load]: how the policy is decoded. *)
Definition carry (load : Policy.t → Netfilter.CompiledPeerPolicy) (nm : netmap) (generatedAt : Z) : Manager.NetmapResponse :=
  Manager.mk_response (version nm) false (carried <$> peers nm) (load <$> acl nm) (revoked_keys nm) generatedAt (max_staleness_seconds nm).

(** Every node has an address of the first 65536 of the pool, and no two rows hold the
    same key in different spellings. *)
Definition pooled (n : Node.t) (o : Z) : Prop :=
  0 <= o < 65536 ∧ Node.overlay_ipv4 n = Vip.overlayIpv4 (Vip.vip_of o) ∧ Node.overlay_ipv6 n = Vip.overlayIpv6 (Vip.vip_of o).
Definition allocated (d : Db.t) : Prop := ∀ n, n ∈ Db.nodes d → ∃ o, pooled n o.
Definition keys_apart (d : Db.t) : Prop := ∀ a b k, a ∈ Db.nodes d → b ∈ Db.nodes d →
  Vip.normalisePublicKeyHex (Node.public_key a) = Some k → Vip.normalisePublicKeyHex (Node.public_key b) = Some k → a = b.

(** The prefixes of a node's own addresses. *)
Definition prefix4 (o : Z) : GoNet.Prefix := GoNet.mk_prefix [100; Vip.vip_o2 o; Vip.vip_o3 o; Vip.vip_o4 o] 32.
Definition prefix6 (o : Z) : GoNet.Prefix := GoNet.mk_prefix (overlay6 o) 128.

(** The prefix of a route. *)
Definition subnet (r : Routes.delivered) (q : GoNet.Prefix) : Prop := GoNet.ParsePrefix (trim (goIPNetToCidr (Routes.d_network_cidr r))) = Some q.

Lemma own_read n o : pooled n o → mapM (λ raw, GoNet.ParsePrefix (trim raw)) (own_addresses n) = Some [prefix4 o; prefix6 o].
Proof.
  intros (Ho & E4 & E6). unfold own_addresses. rewrite E4, E6. pose proof (VipFacts.vip_octets o) as Hv.
  assert (Forall octet [100; Vip.vip_o2 o; Vip.vip_o3 o; Vip.vip_o4 o]) as Hoct by (apply Hv; unfold VipFacts.in_pool; lia). clear Hv.
  assert ((Vip.overlayIpv4 (Vip.vip_of o) =? "")%string = false) as -> by (apply String.eqb_neq; cbn [Vip.overlayIpv4 Vip.vip_of]; apply (octet_nonempty 100); unfold octet; lia).
  change ((Vip.overlayIpv6 (Vip.vip_of o) =? "")%string) with false. cbn [app mapM].
  rewrite ParsePrefix_overlay6 by done. cbn [Vip.overlayIpv4 Vip.vip_of].
  pose proof (ParsePrefix_dotted _ _ _ _ 32 Hoct ltac:(lia)) as H. change ("/" +:+ pretty 32) with "/32" in H. by rewrite H.
Qed.

(** A network of a delivered route is one the node reads, of an IPv4 address. *)
Lemma subnet_read {Coll : Collation} nodeId d rs r : Routes.routesFor nodeId d = Ok rs → r ∈ rs → ∃ q, subnet r q ∧ length (GoNet.Addr q) = 4%nat.
Proof.
  intros Hr Hin. destruct (proj2 (routesFor_delivers d nodeId) rs r Hr Hin) as (row & _ & _ & _ & Hc & _). by eapply go_net_prefix.
Qed.

Lemma first_endpoint_ok l found : Forall endpoint_ok l → ∃ e, Manager.first_endpoint (Endpoints.rendered <$> l) found = Some e ∧
  (e = found ∨ e ∈ Endpoints.rendered <$> l).
Proof.
  intros H. revert found. induction H as [|x l Hx _ IH]; intros found; [exists found; split; [done|by left]|]. cbn [fmap list_fmap Manager.first_endpoint].
  destruct (rendered_splits x Hx) as (Hs & Hne & [hp Hhp]). rewrite trim_no_space by done. apply String.eqb_neq in Hne. rewrite Hne, Hhp.
  destruct (IH (if (found =? "")%string then Endpoints.rendered x else found)) as (e & He & Hin). exists e. split; [done|].
  destruct Hin as [->|Hin]; [|right; by right]. destruct (found =? "")%string; [right; left|by left].
Qed.

Lemma udp_endpoints_ok {Loc : Locale} n : ∃ l, udp_endpoints n = Endpoints.rendered <$> l ∧ Forall endpoint_ok l.
Proof.
  unfold udp_endpoints. eexists. split; [reflexivity|]. destruct (kept_facts (parseJsonColumn (Node.endpoints n) (JArr []))) as [H _].
  rewrite Forall_forall in *. intros e [_ He]%elem_of_where. by apply H.
Qed.

Lemma mapM_each {A B} (f : A → option B) l : (∀ x, x ∈ l → is_Some (f x)) → ∃ ys, mapM f l = Some ys.
Proof.
  induction l as [|x l IH]; intros H; [by exists []|]. destruct (H x) as [y Hy]; [left|]. destruct IH as [ys Hys]; [intros; apply H; by right|].
  exists (y :: ys). cbn. by rewrite Hy, Hys.
Qed.

Lemma mapM_elem {A B} (f : A → option B) l ys y : mapM f l = Some ys → y ∈ ys ↔ ∃ x, x ∈ l ∧ f x = Some y.
Proof.
  revert ys. induction l as [|x l IH]; intros ys; cbn [mapM].
  - intros [= <-]. split; [by intros ?%elem_of_nil|intros (? & ?%elem_of_nil & _); done].
  - intros H. apply bind_Some in H as (z & Hz & H). apply bind_Some in H as (zs & Hzs & [= <-]). rewrite elem_of_cons, (IH _ Hzs). split.
    + intros [->|(w & Hw & E)]; [exists x; split; [left|done]|exists w; split; [by right|done]].
    + intros (w & [->|Hw]%elem_of_cons & E); [left; congruence|right; eauto].
Qed.

(** A document whose peers convert is one the device accepts. *)
Lemma netmapPeers_all nps rv : (∀ p, p ∈ nps → ∃ q, Manager.convert p = Some q ∧ Device.validate q = true) →
  NoDup ((λ p, Manager.normaliseKey (Manager.PublicKeyHex p)) <$> nps) →
  ∃ ps, Manager.netmapPeers nps rv = Some ps ∧ ManagerFacts.accepted ps ∧
    ∀ p q, p ∈ nps → Manager.convert p = Some q → rv !! Device.key_of q = None → q ∈ ps.
Proof.
  induction nps as [|p nps IH]; intros Hall Hnd; cbn [Manager.netmapPeers].
  - exists []. split; [done|]. split; [split; constructor|]. by intros p q ?%elem_of_nil.
  - cbn [fmap list_fmap] in Hnd. apply NoDup_cons in Hnd as [Hp Hnd]. destruct (Hall p) as (q & Hq & Hv); [left|].
    destruct IH as (ps & Hps & [Hacc Hkeys] & Hcov); [intros; apply Hall; by right|done|]. destruct (ManagerFacts.convert_key _ _ Hq) as [Ek _].
    case_bool_decide as Hrv.
    + exists ps. split_and!; [done|by split|]. intros p' q' [->|Hp']%elem_of_cons Hc Hn; [|by eapply Hcov]. rewrite Hq in Hc. injection Hc as <-.
      rewrite Ek in Hn. destruct Hrv as [? Hrv]. congruence.
    + rewrite Hq. cbn. rewrite Hps. cbn. exists (q :: ps). split; [done|]. split; [split|].
      * by constructor.
      * cbn. apply NoDup_cons. split; [|done]. intros (q' & E & Hq')%list_elem_of_fmap. apply Hp.
        destruct (ManagerFacts.netmapPeers_elem _ _ _ _ Hps Hq') as (_ & p' & Hp' & Hc). destruct (ManagerFacts.convert_key _ _ Hc) as [Ek' _].
        apply list_elem_of_fmap. exists p'. split; [congruence|done].
      * intros p' q' [->|Hp']%elem_of_cons Hc Hn; [assert (q' = q) as -> by congruence; left|right]. by eapply Hcov.
Qed.

(** *** The peers of a document *)

Lemma build_peers_ids {Loc : Locale} cfg dom permitted revoked rs rows claimed :
  p_node_id <$> build_peers cfg dom permitted revoked rs rows claimed `sublist_of` Node.id <$> rows.
Proof.
  revert claimed. induction rows as [|n rows IH]; intros claimed; cbn [build_peers fmap list_fmap]; [done|].
  destruct (peer_key permitted revoked n) as [k|]; [|by apply sublist_cons]. cbn [fmap list_fmap]. by apply sublist_skip.
Qed.

Section Document.
Context {Coll : Collation} {Loc : Locale} (cfg : Endpoints.config) (nodeId : string) (now : Z) (d : Db.t) (nm : netmap).
Hypothesis Hu : unique_keys d.
Hypothesis Hb : buildNetmap cfg nodeId now d = Ok (Some nm).

Lemma peers_ids : NoDup (p_node_id <$> peers nm).
Proof.
  destruct (buildNetmap_inv _ _ _ _ _ Hb) as (me & pol & rs & _ & _ & _ & _ & _ & _ & ->).
  eapply sublist_NoDup; [|apply build_peers_ids]. unfold candidates. destruct (Node.is_quarantined me); [constructor|].
  eapply NoDup_Permutation_proper; [apply fmap_Permutation, js_sort_perm|]. apply where_NoDup, Hu.
Qed.

Lemma peer_row p : p ∈ peers nm → ∃ n k c, n ∈ Db.nodes d ∧ Node.id n = p_node_id p ∧ Vip.normalisePublicKeyHex (Node.public_key n) = Some k ∧
  p_public_key_hex p = toLowerCase k ∧ p_endpoints p = udp_endpoints n ∧ p_allowed_ips p ≡ₚ own_addresses n ++ c ∧
  ∀ cidr, cidr ∈ c → ∃ r, r ∈ routes nm ∧ cidr = goIPNetToCidr (Routes.d_network_cidr r) ∧ gateway r = Some (Node.id n).
Proof.
  intros Hp. destruct (netmap_subnets_claimed_once _ _ _ _ _ Hb) as (claims & Hf & _).
  apply list_elem_of_lookup in Hp as Hi. destruct Hi as [i Hi]. destruct (Forall2_lookup_l _ _ _ _ _ Hf Hi) as (c & _ & (m & Hm & Hid & Hips & Hc)).
  destruct (buildNetmap_inv _ _ _ _ _ Hb) as (me & pol & rs & _ & _ & _ & _ & _ & _ & Hpeers). rewrite Hpeers in Hp.
  apply build_peers_elem in Hp as (n & k & subnets & Hn & Hk & ->). apply elem_of_candidates in Hn as (_ & Hn & _).
  apply peer_key_some in Hk as (_ & Hk & _). assert (m = n) as -> by (apply (NoDup_fmap_inj Node.id (Db.nodes d)); [apply Hu|done|done|done]).
  exists n, k, c. by split_and!.
Qed.

(** The prefixes of a peer: those of its addresses, and of the routes it is the gateway of. *)
Definition reaches (n : Node.t) (o : Z) (q : GoNet.Prefix) : Prop :=
  q = prefix4 o ∨ q = prefix6 o ∨ ∃ r, r ∈ routes nm ∧ subnet r q ∧ gateway r = Some (Node.id n).

Lemma prefixes_read n o c ips : pooled n o → ips ≡ₚ own_addresses n ++ c →
  (∀ cidr, cidr ∈ c → ∃ r, r ∈ routes nm ∧ cidr = goIPNetToCidr (Routes.d_network_cidr r) ∧ gateway r = Some (Node.id n)) →
  ∃ qs, mapM (λ raw, GoNet.ParsePrefix (trim raw)) ips = Some qs ∧ prefix4 o ∈ qs ∧ prefix6 o ∈ qs ∧ ∀ q, q ∈ qs → reaches n o q.
Proof.
  intros Ho Hips Hc. pose proof (λ q, mapM_elem _ _ _ q (own_read n o Ho)) as Hown. set (f := λ raw, GoNet.ParsePrefix (trim raw)) in *.
  assert (∀ x, x ∈ ips ↔ x ∈ own_addresses n ∨ x ∈ c) as Hin by (intros x; by rewrite Hips, elem_of_app).
  destruct (buildNetmap_inv _ _ _ _ _ Hb) as (_ & _ & rs & _ & _ & _ & _ & Hrs & Er & _).
  destruct (mapM_each f ips) as [qs Hqs].
  { intros x [Hx|Hx]%Hin.
    - apply list_elem_of_lookup in Hx as [i Hi]. pose proof (own_read n o Ho) as H. apply mapM_Some in H. destruct (Forall2_lookup_l _ _ _ _ _ H Hi) as (y & _ & Hy). by exists y.
    - destruct (Hc x Hx) as (r & Hr & -> & _). rewrite Er in Hr. destruct (subnet_read _ _ _ _ Hrs Hr) as (q & Hq & _). by exists q. }
  exists qs. split; [done|]. pose proof (λ q, mapM_elem _ _ _ q Hqs) as He.
  split; [apply He; destruct (proj1 (Hown (prefix4 o))) as (x & Hx & E); [left|]; exists x; rewrite Hin; auto|].
  split; [apply He; destruct (proj1 (Hown (prefix6 o))) as (x & Hx & E); [right; left|]; exists x; rewrite Hin; auto|].
  intros q (x & [Hx|Hx]%Hin & E)%He.
  - assert (q ∈ [prefix4 o; prefix6 o]) as [->|[->|?%elem_of_nil]%elem_of_cons]%elem_of_cons by (apply Hown; eauto); [by left|right; by left|done].
  - destruct (Hc x Hx) as (r & Hr & -> & Hg). right. right. by exists r.
Qed.

Hypothesis Ha : allocated d.

Lemma peer_converts p : p ∈ peers nm → ∃ n o q, n ∈ Db.nodes d ∧ Node.id n = p_node_id p ∧ pooled n o ∧
  Manager.convert (carried p) = Some q ∧ Device.validate q = true ∧ Device.key_of q = p_public_key_hex p ∧
  prefix4 o ∈ Device.AllowedIPs q ∧ prefix6 o ∈ Device.AllowedIPs q ∧ ∀ x, x ∈ Device.AllowedIPs q → reaches n o x.
Proof.
  intros Hp. destruct (peer_row p Hp) as (n & k & c & Hn & Hid & Hk & Ek & Ee & Hips & Hc). destruct (Ha n Hn) as [o Ho].
  destruct (prefixes_read n o c _ Ho Hips Hc) as (qs & Hqs & H4 & H6 & Hr). destruct (udp_endpoints_ok n) as (l & El & Hl).
  destruct (first_endpoint_ok l "" Hl) as (e & He & Hein). destruct (normalised_key _ _ Hk) as (raw & Hbytes & Hlen & ->).
  destruct (encoded_key raw Hbytes Hlen) as (Klow & Ktrim & Kkey & Knorm). rewrite Klow in Ek.
  exists n, o, (Device.mk_peer (hex_encode raw) e qs (p_keepalive_seconds p) ""). split_and!; try done.
  - unfold Manager.convert. cbn [carried Manager.AllowedIPs Manager.Endpoints Manager.PublicKeyHex Manager.KeepaliveSeconds].
    rewrite Hqs. cbn [mbind option_bind]. rewrite Ee, El, He. cbn [mbind option_bind]. by rewrite Ek, Knorm.
  - unfold Device.validate. cbn [Device.PublicKey Device.PresharedKey Device.AllowedIPs Device.Endpoint]. rewrite Kkey.
    destruct qs; [by apply elem_of_nil in H4|]. cbn [length Nat.eqb negb orb andb String.eqb]. destruct Hein as [->|Hein]; [done|].
    apply list_elem_of_fmap in Hein as (x & -> & Hx). rewrite Forall_forall in Hl. destruct (rendered_splits x (Hl x Hx)) as (_ & _ & [? ->]). apply orb_true_r.
  - unfold Device.key_of. cbn [Device.PublicKey]. by rewrite Ktrim, Klow.
Qed.

Hypothesis Hk : keys_apart d.

Lemma peers_keys p p' : p ∈ peers nm → p' ∈ peers nm → p_public_key_hex p = p_public_key_hex p' → p = p'.
Proof.
  intros Hp Hp' E. apply (NoDup_fmap_inj p_node_id (peers nm)); [apply peers_ids|done|done|].
  destruct (peer_row p Hp) as (n & k & _ & Hn & <- & Ek & Ep & _). destruct (peer_row p' Hp') as (n' & k' & _ & Hn' & <- & Ek' & Ep' & _).
  destruct (normalised_key _ _ Ek) as (raw & Hr1 & Hr2 & ->). destruct (normalised_key _ _ Ek') as (raw' & Hr1' & Hr2' & ->).
  destruct (encoded_key raw Hr1 Hr2) as (L & _). destruct (encoded_key raw' Hr1' Hr2') as (L' & _). f_equal.
  apply (Hk n n' (hex_encode raw)); try done. rewrite Ek'. congruence.
Qed.

Lemma carried_key p : p ∈ peers nm → Manager.normaliseKey (Manager.PublicKeyHex (carried p)) = p_public_key_hex p.
Proof. intros Hp. destruct (peer_converts p Hp) as (_ & _ & q & _ & _ & _ & Hc & _ & <- & _). symmetry. by apply ManagerFacts.convert_key. Qed.

Lemma carried_accepted rv : ∃ ps, Manager.netmapPeers (carried <$> peers nm) rv = Some ps ∧ ManagerFacts.accepted ps ∧
  ∀ p q, p ∈ peers nm → Manager.convert (carried p) = Some q → rv !! p_public_key_hex p = None → q ∈ ps.
Proof.
  destruct (netmapPeers_all (carried <$> peers nm) rv) as (ps & Hps & Hacc & Hcov).
  - intros x (p & -> & Hp)%list_elem_of_fmap. destruct (peer_converts p Hp) as (_ & _ & q & _ & _ & _ & Hc & Hv & _). by exists q.
  - rewrite <- list_fmap_compose. apply NoDup_fmap_2_strong; [|apply (NoDup_fmap_1 p_node_id), peers_ids].
    intros p p' Hp Hp' E. unfold compose in E. rewrite !carried_key in E by done. by apply peers_keys.
  - exists ps. split_and!; [done|done|]. intros p q Hp Hc Hn. apply (Hcov (carried p)); [by apply list_elem_of_fmap_2|done|].
    destruct (ManagerFacts.convert_key _ _ Hc) as [-> _]. by rewrite carried_key.
Qed.

(** No other peer has the addresses of a node. *)
Lemma prefix_own p p' q q' n o x : p ∈ peers nm → p' ∈ peers nm → n ∈ Db.nodes d → Node.id n = p_node_id p → pooled n o →
  Manager.convert (carried p) = Some q → Manager.convert (carried p') = Some q' →
  x = prefix6 o ∨ x = prefix4 o ∧ (∀ r, r ∈ routes nm → ¬ subnet r x) → x ∈ Device.AllowedIPs q' → q' = q.
Proof.
  intros Hp Hp' Hn Hid (Ho & E4 & _) Hc Hc' Hx Hin. destruct (peer_converts p' Hp') as (n' & o' & y & Hn' & Hid' & (Ho' & E4' & _) & Hy & _ & _ & _ & _ & Hr).
  rewrite Hc' in Hy. injection Hy as <-. enough (p = p') as -> by congruence. apply (NoDup_fmap_inj p_node_id (peers nm)); [apply peers_ids|done|done|].
  rewrite <- Hid, <- Hid'. f_equal. apply (NoDup_fmap_inj Node.overlay_ipv4 (Db.nodes d)); [apply Hu|done|done|]. rewrite E4, E4'.
  destruct (Hr _ Hin) as [->|[->|(r & Hr' & Hs & _)]].
  - destruct Hx as [[=]|[E _]]. unfold prefix4 in E. injection E as E2 E3 E5. cbn. congruence.
  - destruct Hx as [E|[[=] _]]. unfold prefix6, overlay6 in E. injection E. intros. do 2 f_equal. dlia.
  - destruct Hx as [->|[_ Hno]]; [|by destruct (Hno r Hr')]. destruct (buildNetmap_inv _ _ _ _ _ Hb) as (_ & _ & rs & _ & _ & _ & _ & Hrs & Er & _). rewrite Er in Hr'.
    destruct (subnet_read _ _ _ _ Hrs Hr') as (y & Hy & Hl). unfold subnet in *. rewrite Hy in Hs. injection Hs as ->. discriminate Hl.
Qed.
End Document.

Section Node.
Context {Coll : Collation} {Loc : Locale} {cr : Crypto} {wg : WireGuard} {laws : WireGuardLaws wg} (range : gset string → list string).
Hypothesis range_all : ∀ s k, k ∈ range s ↔ k ∈ s.
Context (load : Policy.t → Netfilter.CompiledPeerPolicy) (cfg : Endpoints.config).

(** Whom a node may exchange packets with, by the rows: itself not quarantined, the other
    healthy and not quarantined, of its organisation, in its compartment or one joined to
    it, with an address its policy permits and a key that is not revoked. *)
Definition may_reach (d : Db.t) (now : Z) (pol : Policy.t) (nodeId key : string) (m : Node.t) : Prop :=
  ∃ me, me ∈ Db.nodes d ∧ Node.id me = nodeId ∧ Node.is_quarantined me = false ∧ m ∈ Db.nodes d ∧ Node.id m ≠ nodeId ∧
    Node.is_healthy m = true ∧ Node.is_quarantined m = false ∧ Acl.is_peer d (Acl.scope_row d me) m = true ∧
    Node.overlay_ipv4 m ∈ Permit.permittedPeerVIPs (Some pol) ∧ Vip.normalisePublicKeyHex (Node.public_key m) = Some key ∧
    key ∉ toLowerCase <$> Revocation.activeRevocations now d.

Section Served.
Context (nodeId : string) (now : Z) (d : Db.t) (nm : netmap) (generatedAt : Z).
Hypothesis Hu : unique_keys d.
Hypothesis Ha : allocated d.
Hypothesis Hk : keys_apart d.
Hypothesis Hb : buildNetmap cfg nodeId now d = Ok (Some nm).
Let doc := carry load nm generatedAt.

Lemma served_not_refused fetchedAt t written n er n' : Manager.Apply range (Some doc) fetchedAt t written n = (Some er, n') →
  ∃ de, er = Manager.DeviceError de ∧ Threads.device_failed (Some de) = true.
Proof.
  unfold Manager.Apply. destruct (carried_accepted cfg nodeId now d nm Hu Hb Ha Hk (Manager.revoked_after doc (Manager.revoked (Manager.man n)))) as (ps & Hps & Hacc & _).
  change (Manager.Peers doc) with (carried <$> peers nm). rewrite Hps. destruct (Manager.set_peers range ps n) as [[de|] n1] eqn:Es; [|done].
  intros [= <- <-]. exists de. split; [done|]. apply not_false_iff_true. intros Hf. by apply (ManagerFacts.set_peers_err range range_all) in Es as [_ []].
Qed.

Lemma served_row p : p ∈ peers nm → ∃ pol m o q, acl nm = Some pol ∧ Acl.compilePolicyFor nodeId d = Some pol ∧
  may_reach d now pol nodeId (p_public_key_hex p) m ∧ pooled m o ∧ Manager.convert (carried p) = Some q ∧
  Device.key_of q = p_public_key_hex p ∧ ∀ x, x ∈ Device.AllowedIPs q → reaches nm m o x.
Proof.
  intros Hp. destruct (netmap_peer cfg nodeId now d nm p Hu Hb Hp) as (me & m & pol & k & Hme & Hid & Hqme & Hm & Hpid & Hne & Hh & Hq & Hpeer & Hacl & Hperm & Hkey & Ek & Hrev).
  destruct (buildNetmap_inv _ _ _ _ _ Hb) as (_ & pol' & _ & _ & _ & Hpol & Hacl' & _). assert (pol' = pol) as -> by congruence.
  destruct (peer_converts cfg nodeId now d nm Hu Hb Ha p Hp) as (m' & o & q & Hm' & Hpid' & Ho & Hc & _ & Hkq & _ & _ & Hr).
  assert (m' = m) as -> by (apply (NoDup_fmap_inj Node.id (Db.nodes d)); [apply Hu|done|done|congruence]).
  exists pol, m, o, q. split_and!; try done. exists me. destruct (normalised_key _ _ Hkey) as (raw & Hr1 & Hr2 & ->).
  destruct (encoded_key raw Hr1 Hr2) as (L & _). rewrite L in *. rewrite Ek. by split_and!.
Qed.
End Served.

End Node.
End Served.
