(* ===== verification/NodeSamples.v ===== *)
(** * A node with two peers

    An instance of the engine, in which a request fails where a schedule says so; the
    witnesses of the theorems on the node; and runs that show what the code does when
    goroutines meet, requests fail or rows are unusual. *)

From S2P Require Import Prelude Order Js Encoding Json Cidr Db Vip Acl Routes Revocation Endpoints Permit Netmap.
From S2P Require Import Bytes Primitives Challenge Onion Netfilter Device Manager ManagerFacts Delivery.

Module Lab.
(** The peers, and how the next requests end: after how many lines they fail. *)
Definition state : Type := gmap string Engine.peer * list (option nat).
Definition ipc_set (ls : list directive) (w : state) : bool * state :=
  match w.2 with
  | Some k :: rest => (false, (Engine.request (take k ls) w.1, rest))
  | None :: rest => (true, (Engine.request ls w.1, rest))
  | [] => (true, (Engine.request ls w.1, []))
  end.
#[export] Instance engine : WireGuard := {| wg_state := state; peers_of := fst; IpcSet := ipc_set |}.
#[export] Instance engine_laws : WireGuardLaws engine.
Proof.
  split; cbn; intros ls [ps [|[k|] rest]] w'; cbn; try done; intros [= <-]; try done. by exists k.
Qed.

(** An engine that never fails. *)
Definition sound : WireGuard := {| wg_state := gmap string Engine.peer; peers_of := id; IpcSet ls ps := (true, Engine.request ls ps) |}.
Lemma sound_laws : WireGuardLaws sound.
Proof. split; cbn; intros ls w w'; [by intros [= <-]|done]. Qed.

Definition range (s : gset string) : list string := elements s.
Lemma range_all s k : k ∈ range s ↔ k ∈ s.
Proof. apply elem_of_elements. Qed.
End Lab.

Module NodeSamples.
Import Manager Threads Lab.

#[export] Existing Instance Toy.crypto.

Definition key (b : Z) : string := hex_encode (replicate 32 b).
Definition peer (name : string) (b : Z) : NetmapPeer :=
  Manager.mk_peer name (key b) ["100.64.0." +:+ pretty b +:+ "/32"; "fd7a:115c:a1e0::" +:+ pretty b +:+ "/128"] ["203.0.113." +:+ pretty b +:+ ":51820"] 25.
Definition prefix (b : Z) : GoNet.Prefix := GoNet.mk_prefix [100; 64; 0; b] 32.

(** A document of two peers, good for a minute. *)
Definition doc (v : Z) (revoked : list string) : NetmapResponse := mk_response v false [peer "n2" 2; peer "n3" 3] None revoked 1000 60.
Definition at_ (s : Z) : Z := s * Second.

Definition power_on (schedule : list (option nat)) : @wg_state engine := (∅, schedule).
Definition fresh_node (schedule : list (option nat)) : node := started (replicate 32 1) (power_on schedule) None.
Definition applied : list event := [Load (doc 1 []); Install; Enforce; Commit (at_ 1000); Key (at_ 1000) (at_ 1000) true].

Abbreviation start schedule := (begin (fresh_node schedule)).
Definition after (schedule : list (option nat)) (es : list event) : world := default (start schedule) (runs range es (start schedule)).

Definition ran (schedule : list (option nat)) (es : list event) : bool := match runs range es (start schedule) with Some _ => true | None => false end.
Lemma ran_after schedule es : ran schedule es = true → runs range es (start schedule) = Some (after schedule es).
Proof. unfold ran, after. by destruct (runs range es (start schedule)). Qed.

Definition keys_of (w : world) : list string := (map_to_list (peers_of (Device.engine (dev (self w))))).*1.
(** The prefixes a peer is routed, by computation. *)
Definition routes_of (w : world) (k : string) : list GoNet.Prefix := default [] (Engine.allowed <$> peers_of (Device.engine (dev (self w))) !! k).
Lemma routes_routed w k q : q ∈ routes_of w k → Device.routed (dev (self w)) k q.
Proof.
  unfold routes_of, Device.routed. destruct (_ !! k) as [x|]; cbn; [|by intros ?%elem_of_nil]. intros H. by exists x.
Qed.

(** ** Witnesses *)

Definition revoking : list event := applied ++ Beat [key 2] 1 :: [Revoke; Confirmed (at_ 1010); Poll (at_ 2000)].
Lemma revoking_runs : runs range revoking (start []) = Some (after [] revoking).
Proof. apply ran_after. vm_compute. reflexivity. Defined.


(** The check at 1061 s finds the document of 1000 s past its minute. *)
Definition unreachable : list event := [Poll (at_ 1030); Check (at_ 1061); Close; Check (at_ 1100)].
Lemma unreachable_runs : ran [] applied = true ∧ runs range unreachable (after [] applied) = Some (after [] (applied ++ unreachable)).
Proof.
  assert (ran [] (applied ++ unreachable) = true) as H by (vm_compute; reflexivity). split; [vm_compute; reflexivity|].
  apply ran_after, (proj1 (ManagerFacts.runs_app range range_all applied unreachable _ _)) in H as (w1 & H1 & H2).
  unfold after at 1. rewrite H1. exact H2.
Defined.


Lemma document_applied_whole_witness : ∃ n', Apply range (Some (doc 1 [key 3])) (at_ 1000) (at_ 1000) true (fresh_node []) = (None, n') ∧
  Device.peerKeys (dev n') = {[key 2]} ∧ ∀ k q, Device.routed (dev n') k q → k = key 2.
Proof.
  destruct (Apply range (Some (doc 1 [key 3])) (at_ 1000) (at_ 1000) true (fresh_node [])) as [e n'] eqn:E.
  pose proof (ManagerFacts.document_applied_whole range range_all _ _ _ _ _ _ _ E) as H.
  assert (e = None) as -> by (change e with (e, n').1; rewrite <- E; vm_compute; reflexivity).
  destruct H as (d & ps & [= <-] & Hps & _ & _ & Hk & Hr & _).
  { intros k q (x & Hx & _). discriminate Hx. }
  assert (Device.key_of <$> ps = [key 2]) as Hkeys.
  { transitivity (Device.key_of <$> default [] (Some ps)); [reflexivity|]. rewrite <- Hps. vm_compute. reflexivity. }
  exists n'. split; [reflexivity|]. split; [rewrite Hk, Hkeys; apply (union_empty_r_L (C := gset string))|].
  intros k q (p & Hp & <- & _)%Hr. apply list_elem_of_singleton. rewrite <- Hkeys. by apply list_elem_of_fmap_2.
Defined.

(** Two nodes rotate in the same epoch. *)
Definition rotator (mine other : Z) : PskEpoch.Manager := PskEpoch.mk_manager (replicate 32 mine) (120 * Second) {[key other]} 0.
Lemma rotator_plain mine other : 0 <= other < 16 → PskFacts.plain_keys (rotator mine other).
Proof.
  intros Ho k Hk. cbn in Hk. apply elem_of_singleton in Hk as ->.
  apply (upto_forall (λ o, toLowerCase (trim (key o)) = key o) 16); [vm_compute; reflexivity|exact Ho].
Qed.


(** ** From the rows to the routes *)

Definition row (id org : string) (o : Z) : Node.t :=
  (NetmapSample.node id (Vip.overlayIpv4 (Vip.vip_of o)) org o) <| Node.overlay_ipv6 := Vip.overlayIpv6 (Vip.vip_of o) |>.
Definition fleet : Db.t := NetmapSample.db <| Db.nodes := [row "n2" "org-a" 2; row "n1" "org-a" 1; row "n3" "org-b" 3] |>.
Definition served : Netmap.netmap := Eval vm_compute in NetmapSample.netmap_of (NetmapSample.build "n1" 0 fleet).
Lemma served_built : NetmapSample.build "n1" 0 fleet = Ok (Some served).
Proof. vm_compute. reflexivity. Defined.
Lemma fleet_unique : unique_keys fleet.
Proof. split; apply (bool_decide_unpack _); vm_compute; exact I. Defined.
Lemma fleet_allocated : Served.allocated fleet.
Proof.
  intros n Hn. cbn in Hn. apply elem_of_cons in Hn as [->|Hn]; [exists 2; repeat split; lia|].
  apply elem_of_cons in Hn as [->|Hn]; [exists 1; repeat split; lia|]. apply elem_of_cons in Hn as [->|Hn]; [exists 3; repeat split; lia|by apply elem_of_nil in Hn].
Qed.
Lemma fleet_apart : Served.keys_apart fleet.
Proof.
  assert (forallb (λ a, forallb (λ b, bool_decide (Node.id a = Node.id b) ||
    negb (bool_decide (Vip.normalisePublicKeyHex (Node.public_key a) = Vip.normalisePublicKeyHex (Node.public_key b)))) (Db.nodes fleet)) (Db.nodes fleet) = true) as H by (vm_compute; reflexivity).
  intros a b k Ha Hb Ka Kb. rewrite forallb_forall in H. specialize (H a (proj1 (list_elem_of_In _ _) Ha)). rewrite forallb_forall in H.
  specialize (H b (proj1 (list_elem_of_In _ _) Hb)). rewrite Ka, Kb in H. rewrite (bool_decide_eq_true_2 (Some k = Some k)) in H by done.
  rewrite orb_false_r in H. apply bool_decide_eq_true in H. by apply (NoDup_fmap_inj Node.id (Db.nodes fleet)); [apply fleet_unique|..].
Qed.

Definition no_policy (p : Policy.t) : Netfilter.CompiledPeerPolicy := Netfilter.mk_policy (Policy.node_id p) [] [] [] (Policy.epoch p).


(** ** What the code does in unusual runs *)

(** The watch decides to close just before a heartbeat recovers: the document is applied
    in between, then the peers are removed, and the node counts as open, at the current
    version, without a peer.  Heartbeats of that version do not fetch again. *)
Definition meeting : list event :=
  applied ++ [Check (at_ 1061); Beat [] 1; Confirmed (at_ 1062); Ask; Compare; Answer (Some (doc 1 [])); Install; Enforce; Commit (at_ 1062); Key (at_ 1062) (at_ 1062) true; Close].
Lemma recovery_overtaken : let w := after [] meeting in
  ran [] meeting = true ∧ keys_of w = [] ∧ failClosed (man (self w)) = false ∧ version (man (self w)) = 1 ∧
  let w' := after [] (meeting ++ [Beat [] 1; Confirmed (at_ 1080); Ask; Compare; Check (at_ 1090)]) in
  heart w' = Idle ∧ keys_of w' = [] ∧ failClosed (man (self w')) = false.
Proof. vm_compute. repeat split; reflexivity. Qed.

(** A revocation that arrives after the node has closed brings the other peers of the old
    document back; when the fetch then fails, no check removes them. *)
Definition reopened : list event :=
  applied ++ [Check (at_ 1061); Close; Beat [key 3] 1; Revoke; Confirmed (at_ 1062); Ask; Compare; Answer None; Check (at_ 5000); Check (at_ 90000)].
Lemma revocation_reopens : let w := after [] reopened in
  ran [] reopened = true ∧ prefix 2 ∈ routes_of w (key 2) ∧ failClosed (man (self w)) = true ∧ closing w = false.
Proof. split; [vm_compute; reflexivity|]. split; [apply (bool_decide_unpack _); vm_compute; exact I|]. split; vm_compute; reflexivity. Qed.

(** A revocation whose request fails is not tried again: the key is known by then. *)
Definition unheard : list event := applied ++ [Beat [key 2] 1; Revoke; Confirmed (at_ 1010); Ask; Compare; Beat [key 2] 1; Confirmed (at_ 1020); Ask; Compare].
Lemma failed_revocation_kept : let w := after [None; None; None; Some 0%nat] unheard in
  ran [None; None; None; Some 0%nat] unheard = true ∧ heart w = Idle ∧ prefix 2 ∈ routes_of w (key 2).
Proof. split; [vm_compute; reflexivity|]. split; [vm_compute; reflexivity|]. apply (bool_decide_unpack _). vm_compute. exact I. Qed.

(** Nor is a removal for staleness. *)
Lemma failed_close_kept : let es := applied ++ [Check (at_ 1061); Close; Check (at_ 2000); Check (at_ 9000)] in
  let w := after [None; None; None; Some 0%nat] es in
  ran [None; None; None; Some 0%nat] es = true ∧ closing w = false ∧ prefix 2 ∈ routes_of w (key 2).
Proof. split; [vm_compute; reflexivity|]. split; [vm_compute; reflexivity|]. apply (bool_decide_unpack _). vm_compute. exact I. Qed.

(** A request that fails part-way leaves peers the device does not know it has, and a
    later request that removes every peer does not remove them. *)
Lemma partial_request_leaves_peer : let es := [Load (doc 1 []); Install; Load (mk_response 2 false [] None [] 1000 60); Install; Enforce; Commit (at_ 1000)] in
  let w := after [Some 4%nat] es in
  ran [Some 4%nat] es = true ∧ Device.peerKeys (dev (self w)) = ∅ ∧ prefix 2 ∈ routes_of w (key 2).
Proof. split; [vm_compute; reflexivity|]. split; [vm_compute; reflexivity|]. apply (bool_decide_unpack _). vm_compute. exact I. Qed.

(** What a heartbeat revoked is not stored: a node that restarts on its document routes to
    the peer again. *)
Lemma restart_forgets_revocation :
  let n := onHeartbeat range [key 2] 1 (λ _, None) (at_ 1010) true (self (after [] applied)) in
  let stored := match disk n with Some p => Stored p | None => Absent end in
  let n' := (LoadPersisted range stored (at_ 1020) true (fresh_node [])).2 in
  routes_of (begin n) (key 2) = [] ∧ prefix 2 ∈ routes_of (begin n') (key 2).
Proof. split; [vm_compute; reflexivity|]. apply (bool_decide_unpack _). vm_compute. exact I. Qed.

(** The rotation of pre-shared keys puts a removed peer back into the engine, without a
    prefix: it holds the keys of the document, revoked or not. *)
Lemma rotation_recreates_peer : let w := after [] (applied ++ [Beat [key 2] 1; Revoke]) in let w' := after [] (applied ++ [Beat [key 2] 1; Revoke; Poll (at_ 2000)]) in
  bool_decide (key 2 ∈ keys_of w) = false ∧ bool_decide (key 2 ∈ keys_of w') = true ∧ routes_of w' (key 2) = [].
Proof. vm_compute. repeat split; reflexivity. Qed.

(** Past the first 65536 addresses of the pool the last group of the IPv6 address has
    five digits: the node refuses the whole document. *)
Lemma wide_address_refused : let p := Manager.mk_peer "n9" (key 9) [Vip.overlayIpv6 (Vip.vip_of 65537) +:+ "/128"] [] 25 in
  Vip.usable (Vip.vipFromOffset 65537) = true ∧ Vip.overlayIpv6 (Vip.vip_of 65537) = "fd7a:115c:a1e0::10001" ∧ convert p = None ∧
  (Apply range (Some (mk_response 1 false [peer "n2" 2; p] None [] 1000 60)) (at_ 1000) (at_ 1000) true (fresh_node [])).1 = Some BadPeer.
Proof. vm_compute. repeat split; reflexivity. Qed.

(** The same key stored in hexadecimal and in base64 passes the unique index; the device
    refuses the document that names both. *)
Definition twice : Db.t := fleet <| Db.nodes ::= λ l, (row "n4" "org-a" 4) <| Node.public_key := b64_encode (replicate 32 2) |> :: l |>.
Lemma key_in_two_spellings :
  unique_keys twice ∧
  (Apply range (Some (Served.carry no_policy (NetmapSample.netmap_of (NetmapSample.build "n1" 0 twice)) 1000)) (at_ 1000) (at_ 1000) true (fresh_node [])).1 =
  Some (DeviceError Device.DuplicateKey).
Proof. split; [split; apply (bool_decide_unpack _); vm_compute; exact I|vm_compute; reflexivity]. Qed.

(** An endpoint that is no address is accepted by the control plane and passes the checks
    of the node. *)
Lemma endpoint_not_an_address :
  Endpoints.classifyAddress (JStr "::::") = Endpoints.Good 6 "::::" ∧ GoNet.ParseAddr "::::" = None ∧
  Endpoints.renderEndpoint 6 "::::" 51820 = "[::::]:51820" ∧ first_endpoint ["[::::]:51820"] "" = Some "[::::]:51820".
Proof. vm_compute. repeat split; reflexivity. Qed.
End NodeSamples.
