(* ===== verification/NodeApi.v ===== *)
(** * The console's node API: [console/backend/routes/nodes.js] and [configs.js]

    Creating, changing, quarantining and revoking nodes, over the services of
    [Revocation], [Enrol], [Vip], [Acl] and the module switch of [Orgs].  A handler runs
    after [authenticateToken] and [resolveUserOrg]; what it answers is the row, without
    the rendering of [formatNode], and events sent to open consoles are left out.  A
    statement that fails leaves what was written before it, except in the transaction of
    a creation.

    [real] is PostgreSQL's conversion of a number to a REAL column, which refuses what
    does not fit.  The random draws of a creation are arguments. *)

From S2P Require Import Prelude Order Js Encoding Json Db Vip Acl Revocation Enrol Access Vault Governance Orgs.
From S2P Require Import Challenge Telemetry Bridge.

(** The columns of a node that only this API writes. *)
Module Switches.
Record t := mk { onion_routing_enabled : bool; onion_hops : Z; kill_switch_enabled : bool }.
Definition plain : t := mk false 0 false.
End Switches.

Module NodeApi.
Import Bridge.

(** What an audit event is about; its text is left out. *)
Record event := mk_event { eventType : string; actorUserId : string; targetId : string }.

Record state := mk_state {
  control : Control.t; switches : gmap string Switches.t; modules : Modules.t; audit : list event;
}.

Inductive reply := Done (status : Z) (row : option Node.t) | Error (status : Z) (message : string).

Definition on_control {A} (m : eff Control.t A) : eff state A :=
  λ s, let '(o, c) := m (control s) in (o, s <| control := c |>).
Definition on_nodes {A} (m : eff Db.t A) : eff state A := on_control (Control.on_db m).

Definition row_of (s : state) (id : string) : option Node.t := select1 (λ n, (Node.id n =? id)%string) (Db.nodes (Control.db (control s))).
Definition update_row (id : string) (f : Node.t → Node.t) : eff state unit :=
  on_nodes (modify (λ d, d <| Db.nodes ::= update_where (λ n, (Node.id n =? id)%string) f |>)).
Definition switches_of (s : state) (id : string) : Switches.t := default Switches.plain (switches s !! id).
Definition log (eventType : string) (user : Principal.t) (targetId : string) : eff state unit :=
  modify (λ s, s <| audit ::= λ l, l ++ [mk_event eventType (Principal.id user) targetId] |>).

(** ** Access *)

(** [None]: the caller may. *)
Definition verifyNodeAccess (node : option Node.t) (user : Principal.t) (isMutating : bool) : option (Z * string) :=
  match node with
  | None => Some (404, "Node not found")
  | Some n =>
      if (Principal.role user =? "super-admin")%string then None else
      let userOrgId := or_text (Principal.organization_id user) "org-default" in
      let nodeOrgId := or_text (Node.organization_id n) "org-default" in
      if negb (nodeOrgId =? userOrgId)%string then Some (404, "Node not found") else
      let orgRole := or_text (Principal.org_role user) (or_text (Some (Principal.role user)) "member") in
      if isMutating && is_read_only orgRole then Some (403, "Forbidden: read-only role cannot mutate node")
      else if bool_decide (orgRole ∈ ["owner"; "admin"; "network_admin"]) then None
      else if negb isMutating && is_read_only orgRole then None
      else if (Node.user_id n =? Principal.id user)%string then None
      else Some (404, "Node not found")
  end.

(** A handler on the node that a request addresses. *)
Definition addressed (id : string) (user : Principal.t) (isMutating : bool) (k : Node.t → eff state reply) : eff state reply :=
  s <-! get ;
  match verifyNodeAccess (row_of s id) user isMutating, row_of s id with
  | None, Some n => k n
  | Some (st, e), _ => eff_ret (Error st e)
  | None, None => eff_ret (Error 404 "Node not found")
  end.

(** ** Conversions *)

(** [parseFloat(v)]: the longest prefix that is a decimal literal. *)
Definition float_char (c : ascii) : bool :=
  is_digit c || bool_decide (code c ∈ [43; 45; 46; 69; 101]).
Definition is_literal (p : string) : bool :=
  (all_chars float_char p || bool_decide (p ∈ ["Infinity"; "+Infinity"; "-Infinity"])) && negb (p =? "")%string && negb (isNaN (string_to_number p)).
Fixpoint float_prefix (n : nat) (t : string) : num :=
  let p := take_string n t in
  if is_literal p then string_to_number p else match n with O => NaN | S n' => float_prefix n' t end.
Definition parseFloat (v : jsval) : num := let t := trim_start (js_String v) in float_prefix (String.length t) t.

(** A value bound to an INTEGER column: a number, or the digits of one. *)
Definition int_param (v : jsval) : num :=
  match v with
  | JNum n => n
  | JStr s => let t := trim s in
      if negb (t =? "")%string && all_chars (λ c, is_digit c || (code c =? 45)) t then string_to_number t else NaN
  | _ => NaN
  end.

(** A string of [l], when the value is one. *)
Definition one_of (l : list string) (v : jsval) : option string :=
  match v with JStr s => if bool_decide (s ∈ l) then Some s else None | _ => None end.

(** [a || b || ...] *)
Definition first_truthy (vs : list jsval) (d : jsval) : jsval := foldr js_or d vs.

Definition VALID_ROLES : list string := ["CLIENT_ORIGIN"; "EXIT_BRIDGE"; "HYBRID"; "RELAY"].
Definition VALID_IP_CLASSES : list string := ["RESIDENTIAL"; "MOBILE_5G"; "DATACENTER"; "UNKNOWN"].

Section Handlers.
Context (RETENTION_HOURS : Z) (real : num → option num).

Definition real_param (n : num) : eff state num := match real n with Some r => eff_ret r | None => db_error end.

(** ** Creation *)

(** [EnrollmentService.transaction] *)
Definition transaction {A} (m : eff state A) : eff state A :=
  λ s, match m s with
       | (Ok a, s') => (Ok a, s')
       | (Throw st msg, s') =>
           (Throw st msg, s <| control ::= (λ c, c <| Control.overlay_vip_seq := Control.overlay_vip_seq (control s') |>) |>)
       end.

(** The onion columns of a creation. *)
Definition created_onion (body : jsval) : bool * num :=
  let hops := js_Number (field "onion_hops" body) in
  let some := num_ltb (of_Z 0) hops in
  let enabled := match field "onion_routing_enabled" body with JUndef => some | v => truthy v end in
  (enabled, if enabled then if some then hops else of_Z 3 else of_Z 0).

(** [latitude !== undefined ? parseFloat(latitude) : ...] *)
Definition created_coordinate (v : jsval) (country : jsval) (us other : num) : num :=
  match v with JUndef => match country with JStr "US" => us | _ => other end | _ => parseFloat v end.

(** INSERT INTO nodes *)
Definition insert_node (n : Node.t) (c : Columns.t) (w : Switches.t) : eff state unit :=
  s <-! get ;
  let d := Control.db (control s) in
  if row_checked n c && negb (existsb (λ x, (Node.id x =? Node.id n)%string) (Db.nodes d)) && row_insertable d n
  then modify (λ s, s <| control ::= (λ k, k <| Control.db ::= (λ d, d <| Db.nodes ::= λ l, l ++ [n] |>) |> <| Control.columns ::= insert (Node.id n) c |>) |>
                      <| switches ::= insert (Node.id n) w |>)
  else db_error.

(** The transaction: the row for the caller, in the organisation of the session. *)
Definition create_tx (user : Principal.t) (orgAtIssue : option string) (body publicKey : jsval) (name nodeId : string) (now : Z) : eff state Node.t :=
  s <-! get ;
  actor <-! NativeTelemetry.from_outcome (Enrollment.authorizeConsole (Principal.id user) orgAtIssue (Control.db (control s))) ;
  let orgId := Enrollment.a_organization_id actor in
  pk <-! or_db_error (pg_text text_limit publicKey) ;
  if existsb (λ n, (Node.public_key n =? pk)%string) (Db.nodes (Control.db (control s))) then throw (Some 409) "Public key already registered" else
  vip <-! on_control allocate ;
  let country := js_or (field "country_code" body) (JStr "US") in
  let '(onion, hops) := created_onion body in
  lat <-! real_param (created_coordinate (field "latitude" body) country (round_ratio 389072 10000) (round_ratio 501109 10000)) ;
  lon <-! real_param (created_coordinate (field "longitude" body) country (num_neg (round_ratio 770369 10000)) (round_ratio 86821 10000)) ;
  country_code <-! or_db_error (pg_text 2 country) ;
  city <-! or_db_error (pg_text 128 (js_or (field "city" body) (JStr ""))) ;
  onion_hops <-! or_db_error (pg_int hops) ;
  let endpoints := match field "endpoints" body with JArr l => JArr l | _ => JArr [] end in
  let metadata := js_or (field "metadata" body) (JObj []) in
  let declared := match field "location_source" metadata with JStr "declared" => true | _ => false end in
  let row := (proposed_row nodeId (User.id (Enrollment.a_user actor)) name (default "CLIENT_ORIGIN" (one_of VALID_ROLES (field "role" body))) pk
                (Vip.overlayIpv4 vip) (Vip.overlayIpv6 vip) endpoints orgId) <| Node.latency_ms := of_Z 15 |> in
  insert_node row
    (Columns.mk (default "UNKNOWN" (one_of VALID_IP_CLASSES (field "ip_class" body))) country_code city
       (int_param (js_or (field "asn" body) (JNum (of_Z 0)))) (Some lat) (Some lon) declared 0 now)
    (Switches.mk onion onion_hops (truthy (field "kill_switch_enabled" body))) ;!
  on_nodes Acl.bumpNetmap ;!
  eff_ret row.

(** POST / ; [random] names the node, [generated] is the key made when none is given. *)
Definition create_node (user : Principal.t) (orgAtIssue : option string) (body : jsval) (random generated : string) (now : Z) : eff state reply :=
  match field "name" body with
  | JStr name =>
      if (trim name =? "")%string then eff_ret (Error 400 "Missing node name") else
      let nodeId := "svrn-node-" +:+ random in
      row <-! transaction (create_tx user orgAtIssue body (js_or (field "public_key" body) (JStr generated)) (trim name) nodeId now) ;
      log "NODE_CREATE" user nodeId ;!
      eff_ret (Done 201 (Some row))
  | v => if truthy v then throw None "name.trim is not a function" else eff_ret (Error 400 "Missing node name")
  end.

(** The onion columns of [POST /generate] of [routes/configs.js]. *)
Definition generated_onion (body : jsval) : bool * num :=
  let hops := js_Number (field "onion_hops" body) in
  let some := negb (is_undef (field "onion_hops" body)) && num_ltb (of_Z 0) hops in
  let enabled := truthy (field "onion_routing_enabled" body) || some in
  (enabled, if enabled then if some then hops else of_Z 3 else of_Z 0).

(** Its transaction; the key and the identifier made from it are drawn. *)
Definition generate_tx (user : Principal.t) (orgAtIssue : option string) (body : jsval) (name nodeId publicKey : string) (now : Z) : eff state Node.t :=
  s <-! get ;
  actor <-! NativeTelemetry.from_outcome (Enrollment.authorizeConsole (Principal.id user) orgAtIssue (Control.db (control s))) ;
  vip <-! on_control allocate ;
  let country := js_or (field "country_code" body) (JStr "US") in
  let '(onion, hops) := generated_onion body in
  lat <-! real_param (created_coordinate JUndef country (round_ratio 389072 10000) (round_ratio 501109 10000)) ;
  lon <-! real_param (created_coordinate JUndef country (num_neg (round_ratio 770369 10000)) (round_ratio 86821 10000)) ;
  country_code <-! or_db_error (pg_text 2 country) ;
  onion_hops <-! or_db_error (pg_int hops) ;
  let row := (proposed_row nodeId (User.id (Enrollment.a_user actor)) name (default "CLIENT_ORIGIN" (one_of VALID_ROLES (field "role" body))) publicKey
                (Vip.overlayIpv4 vip) (Vip.overlayIpv6 vip) (JArr []) (Enrollment.a_organization_id actor)) <| Node.latency_ms := of_Z 10 |> in
  insert_node row (Columns.mk "RESIDENTIAL" country_code "" (of_Z 0) (Some lat) (Some lon) false 0 now)
    (Switches.mk onion onion_hops (truthy (field "kill_switch_enabled" body))) ;!
  on_nodes Acl.bumpNetmap ;!
  eff_ret row.

(** POST /generate ; the rendering of the configuration is left out. *)
Definition generate (user : Principal.t) (orgAtIssue : option string) (body : jsval) (nodeId publicKey : string) (now : Z) : eff state reply :=
  match field "name" body with
  | JStr name =>
      if (trim name =? "")%string then eff_ret (Error 400 "Missing node name for config generation") else
      row <-! transaction (generate_tx user orgAtIssue body (trim name) nodeId publicKey now) ;
      log "CONFIG_GENERATE" user nodeId ;!
      eff_ret (Done 200 (Some row))
  | v => if truthy v then throw None "name.trim is not a function" else eff_ret (Error 400 "Missing node name for config generation")
  end.

(** ** Changes *)

(** The members of the body that set a column, with what they set; [None] is refused by
    the database. *)
Definition set_if (b : bool) (f : option (Node.t * Switches.t → Node.t * Switches.t)) : option (list (Node.t * Switches.t → Node.t * Switches.t)) :=
  if b then (λ g, [g]) <$> f else Some [].
Definition on_row (f : Node.t → Node.t) (x : Node.t * Switches.t) : Node.t * Switches.t := (f x.1, x.2).
Definition on_switches (f : Switches.t → Switches.t) (x : Node.t * Switches.t) : Node.t * Switches.t := (x.1, f x.2).

Definition set_onion (enabled : bool) (hops : Z) : Switches.t → Switches.t :=
  λ w, w <| Switches.onion_routing_enabled := enabled |> <| Switches.onion_hops := hops |>.

Definition updated_onion (body : jsval) : option (list (Node.t * Switches.t → Node.t * Switches.t)) :=
  match field "onion_routing_enabled" body, field "onion_hops" body with
  | JUndef, JUndef => Some []
  | JUndef, v => let hops := js_Number v in z ← pg_int hops; Some [on_switches (set_onion (num_ltb (of_Z 0) hops) z)]
  | v, _ => let on := truthy v in Some [on_switches (set_onion on (if on then 3 else 0))]
  end.

(** [is_quarantined = TRUE, is_healthy = FALSE] and its opposite *)
Definition updated_status (body : jsval) : option bool :=
  match field "status" body with JStr "quarantined" => Some true | JStr "active" => Some false | _ => None end.
Definition set_status (quarantined : bool) : Node.t → Node.t :=
  λ n, n <| Node.is_quarantined := quarantined |> <| Node.is_healthy := negb quarantined |>.

(** All the assignments of one UPDATE; PostgreSQL refuses two to the same column. *)
Definition assignments (body : jsval) : option (list (Node.t * Switches.t → Node.t * Switches.t)) :=
  let healthy := negb (is_undef (field "is_healthy" body)) in
  name ← set_if (truthy (field "name" body)) (t ← pg_text 128 (field "name" body); Some (on_row (λ n, n <| Node.name := t |>)));
  latency ← set_if (negb (is_undef (field "latency_ms" body))) (r ← real (js_Number (field "latency_ms" body)); Some (on_row (λ n, n <| Node.latency_ms := r |>)));
  health ← set_if healthy (Some (on_row (λ n, n <| Node.is_healthy := truthy (field "is_healthy" body) |>)));
  role ← set_if (truthy (field "role" body)) (t ← one_of VALID_ROLES (field "role" body); Some (on_row (λ n, n <| Node.role := t |>)));
  kill ← set_if (negb (is_undef (field "kill_switch_enabled" body))) (Some (on_switches (λ w, w <| Switches.kill_switch_enabled := truthy (field "kill_switch_enabled" body) |>)));
  onion ← updated_onion body;
  status ← (match updated_status body with
            | Some q => if healthy then None else Some [on_row (set_status q)]
            | None => Some [] end);
  Some (name ++ latency ++ health ++ role ++ kill ++ onion ++ status).

Definition apply_all (fs : list (Node.t * Switches.t → Node.t * Switches.t)) (x : Node.t * Switches.t) : Node.t * Switches.t := foldl (λ x f, f x) x fs.

Definition write_row (id : string) (fs : list (Node.t * Switches.t → Node.t * Switches.t)) : eff state unit :=
  modify (λ s, s <| control ::= (λ c, c <| Control.db ::= (λ d, d <| Db.nodes ::= update_where (λ n, (Node.id n =? id)%string)
                                                                      (λ n, (apply_all fs (n, switches_of s id)).1) |>) |>) |>
                 <| switches ::= (λ w, match row_of s id with Some n => <[id := (apply_all fs (n, switches_of s id)).2]> w | None => w end) |>).

(** [!req.body || Object.keys(req.body).length === 0] *)
Definition empty_body (body : jsval) : bool :=
  match body with JObj [] | JArr [] => true | v => negb (truthy v) end.

(** The UPDATE, and the bump when a peer may see it. *)
Definition write_update (id : string) (body : jsval) : eff state reply :=
  fs <-! or_db_error (assignments body) ;
  (match fs with [] => eff_ret tt | _ => write_row id fs end) ;!
  s <-! get ;
  (if negb (is_undef (field "status" body)) || negb (is_undef (field "is_healthy" body)) then (on_nodes Acl.bumpNetmap ;! eff_ret tt) else eff_ret tt) ;!
  eff_ret (Done 200 (row_of s id)).

(** PUT /:id *)
Definition update_node (user : Principal.t) (id : string) (body : jsval) : eff state reply :=
  if empty_body body then eff_ret (Error 400 "Missing update body") else
  addressed id user true (λ _, write_update id body).

(** ** Revocation *)

(** [RevocationEngine.revokeNodeKeys], then the row, then its credentials. *)
Definition remove_node (user : Principal.t) (id reason : string) (now : Z) : eff state unit :=
  on_nodes (Revocation.revokeNodeKeys RETENTION_HOURS [id] reason (Some (Principal.id user)) false now) ;!
  modify (λ s, s <| control ::= (λ c, c <| Control.db ::= delete_nodes (λ n, (Node.id n =? id)%string) |>
                                          <| Control.native ::= delete_where (λ r, (NativeRow.node_id r =? id)%string) |>
                                          <| Control.columns ::= delete id |>) |>
                 <| switches ::= delete id |>) ;!
  on_nodes (Credentials.revokeNodeCredentials id now) ;!
  on_nodes Acl.bumpNetmap ;!
  log "NODE_REVOKE" user id.

(** DELETE /:id *)
Definition delete_node (user : Principal.t) (id : string) (now : Z) : eff state reply :=
  addressed id user true (λ _, remove_node user id "node_revoked" now ;! eff_ret (Done 200 None)).

(** POST /:id/revoke ; the reason is a text or a number. *)
Definition revoke_node (user : Principal.t) (id : string) (body : jsval) (now : Z) : eff state reply :=
  addressed id user true (λ _,
    remove_node user id (js_String (js_or (field "reason" body) (JStr "node_revoked"))) now ;! eff_ret (Done 200 None)).

(** ** Quarantine *)

(** [reason], or the default; [undefined?.reason] is undefined. *)
Definition quarantine_reason (body : jsval) : jsval :=
  first_truthy [field "reason" body; field "reason" (field "params" body)] (JStr "Manual security quarantine").

Definition isolate (user : Principal.t) (id : string) (reason : jsval) (now : Z) : eff state unit :=
  update_row id (λ n, n <| Node.is_quarantined := true |> <| Node.is_healthy := false |> <| Node.quarantine_reason := Some (js_String reason) |>) ;!
  on_nodes (Credentials.revokeNodeCredentials id now) ;!
  on_nodes (Revocation.revokeNodeKeys RETENTION_HOURS [id] ("quarantine: " +:+ js_String reason) (Some (Principal.id user)) false now) ;!
  on_nodes Acl.bumpNetmap ;!
  log "NODE_QUARANTINE" user id.

Definition release_row : Node.t → Node.t :=
  λ n, n <| Node.is_quarantined := false |> <| Node.is_healthy := true |> <| Node.quarantine_reason := None |>.

(** POST /:id/quarantine *)
Definition quarantine_node (user : Principal.t) (id : string) (body : jsval) (now : Z) : eff state reply :=
  addressed id user true (λ n, isolate user (Node.id n) (quarantine_reason body) now ;! eff_ret (Done 200 None)).

(** POST /:id/unquarantine *)
Definition unquarantine_node (user : Principal.t) (id : string) : eff state reply :=
  addressed id user true (λ n,
    update_row (Node.id n) release_row ;!
    on_nodes Acl.bumpNetmap ;!
    log "NODE_LIFT_QUARANTINE" user (Node.id n) ;!
    eff_ret (Done 200 None)).

(** ** Actions *)

(** A member of the body, or of its [params]. *)
Definition param (k : string) (body : jsval) : jsval := field k (field "params" body).

(** The branches of [newVal]. *)
Definition requested_onion (current : bool) (body : jsval) : bool :=
  match param "enabled" body, field "enabled" body, param "onion_hops" body, field "onion_hops" body with
  | JUndef, JUndef, JUndef, JUndef => negb current
  | JUndef, JUndef, JUndef, v => num_ltb (of_Z 0) (js_Number v)
  | JUndef, JUndef, v, _ => num_ltb (of_Z 0) (js_Number v)
  | JUndef, v, _, _ => truthy v
  | v, _, _, _ => truthy v
  end.

Definition set_exit (user : Principal.t) (n : Node.t) : eff state reply :=
  update_row (Node.id n) (λ n, n <| Node.role := "EXIT_BRIDGE" |>) ;!
  log "NODE_SET_EXIT" user (Node.id n) ;! eff_ret (Done 200 None).

Definition toggle_onion (user : Principal.t) (n : Node.t) (body : jsval) : eff state reply :=
  s <-! get ;
  let newVal := requested_onion (Switches.onion_routing_enabled (switches_of s (Node.id n))) body in
  if newVal && negb (Modules.isModuleEnabledForOrg (or_text (Node.organization_id n) "org-default") "onion" (modules s) (Control.db (control s)))
  then eff_ret (Error 403 "onion routing is disabled for this organization") else
  write_row (Node.id n) [on_switches (set_onion newVal (if newVal then 3 else 0))] ;!
  log "NODE_ONION_TOGGLE" user (Node.id n) ;!
  s' <-! get ; eff_ret (Done 200 (row_of s' (Node.id n))).

Definition lift_quarantine (user : Principal.t) (n : Node.t) : eff state reply :=
  update_row (Node.id n) release_row ;!
  on_nodes (Revocation.liftQuarantineRevocation (Node.id n)) ;!
  on_nodes Acl.bumpNetmap ;!
  log "NODE_LIFT_QUARANTINE" user (Node.id n) ;! eff_ret (Done 200 None).

(** A column that every peer sees: written, announced, logged and answered. *)
Definition set_visible (user : Principal.t) (n : Node.t) (event : string) (f : Node.t → Node.t) : eff state reply :=
  update_row (Node.id n) f ;!
  on_nodes Acl.bumpNetmap ;!
  log event user (Node.id n) ;!
  s <-! get ; eff_ret (Done 200 (row_of s (Node.id n))).

Definition set_transport (user : Principal.t) (n : Node.t) (body : jsval) : eff state reply :=
  match one_of ["wireguard"; "amneziawg"] (js_or (field "transport" body) (param "transport" body)) with
  | None => eff_ret (Error 400 "Invalid transport. Allowed: wireguard, amneziawg")
  | Some t =>
      let stealth := first_truthy [field "stealth_config" body; param "stealth_config" body] JNull in
      set_visible user n "NODE_SET_TRANSPORT" (λ n, n <| Node.transport := t |> <| Node.stealth_config := stealth |>)
  end.

Definition set_daita (user : Principal.t) (n : Node.t) (body : jsval) : eff state reply :=
  match one_of ["off"; "balanced"; "paranoid"]
          (first_truthy [field "daita_mode" body; field "mode" body; param "daita_mode" body] (param "mode" body)) with
  | None => eff_ret (Error 400 "Invalid daita_mode. Allowed: off, balanced, paranoid")
  | Some m => set_visible user n "NODE_SET_DAITA" (λ n, n <| Node.daita_mode := m |>)
  end.

(** The column has 255 characters. *)
Definition set_dns_name (user : Principal.t) (n : Node.t) (body : jsval) : eff state reply :=
  match js_or (field "dns_name" body) (param "dns_name" body) with
  | JStr d =>
      if (d =? "")%string then eff_ret (Error 400 "dns_name string is required") else
      name <-! or_db_error (pg_text 255 (JStr (trim (toLowerCase d)))) ;
      set_visible user n "NODE_SET_DNS_NAME" (λ n, n <| Node.dns_name := Some name |>)
  | _ => eff_ret (Error 400 "dns_name string is required")
  end.

(** [action === a] *)
Definition asks (body : jsval) (a : string) : bool := match field "action" body with JStr s => (s =? a)%string | _ => false end.

Definition perform (user : Principal.t) (n : Node.t) (body : jsval) (now : Z) : eff state reply :=
  if asks body "ping" then (log "NODE_PING" user (Node.id n) ;! eff_ret (Done 200 None))
  else if asks body "set_exit" then set_exit user n
  else if asks body "toggle_onion" || asks body "set_onion" then toggle_onion user n body
  else if asks body "quarantine" then (isolate user (Node.id n) (quarantine_reason body) now ;! eff_ret (Done 200 None))
  else if asks body "lift_quarantine" then lift_quarantine user n
  else if asks body "set_transport" then set_transport user n body
  else if asks body "set_daita" then set_daita user n body
  else if asks body "set_dns_name" then set_dns_name user n body
  else eff_ret (Error 400 ("Unsupported action '" +:+ js_String (field "action" body) +:+ "'")).

(** POST /:id/action *)
Definition node_action (user : Principal.t) (id : string) (body : jsval) (now : Z) : eff state reply :=
  if negb (truthy (field "action" body)) then eff_ret (Error 400 "Missing action parameter") else
  addressed id user (negb (asks body "ping")) (λ n, perform user n body now).

(** ** Reading *)

Definition tier_of (user : Principal.t) : string := or_text (Principal.compartment_access user) (or_text (Principal.access_tier user) "standard").

(** GET /:id *)
Definition get_node (user : Principal.t) (orgId : option string) (id : string) : eff state reply :=
  s <-! get ;
  let d := Control.db (control s) in
  scope <-! NativeTelemetry.from_outcome (FleetVisibility.resolveMetricsScope (Principal.id user) orgId d) ;
  match select1 (λ n, (Node.id n =? id)%string && FleetVisibility.nodeVisibility (tier_of user) scope d n) (Db.nodes d) with
  | Some n => eff_ret (Done 200 (Some n))
  | None => eff_ret (Error 404 "Node not found")
  end.

(** [readPageParams] of [utils/pagination.js] *)
Definition DEFAULT_LIMIT : Z := 100.
Definition MAX_LIMIT : Z := 500.
Definition readPageParams (limit offset : jsval) : Z * Z :=
  (match parseInt (js_String limit) with Some l => Z.min (Z.max l 1) MAX_LIMIT | None => DEFAULT_LIMIT end,
   match parseInt (js_String offset) with Some o => if 0 <? o then o else 0 | None => 0 end).

Record page := mk_page { items : list Node.t; total : Z; limit : Z; offset : Z; has_more : bool }.
Definition pageEnvelope (items : list Node.t) (total limit offset : Z) : page :=
  mk_page items total limit offset (offset + Z.of_nat (length items) <? total).

(** ORDER BY n.created_at ASC, n.id ASC *)
Definition node_order {Coll : Collation} (s : state) (a b : Node.t) : Z :=
  let at_ n := Columns.created_at (default Columns.plain (Control.columns (control s) !! Node.id n)) in
  if at_ a =? at_ b then collate (Node.id a) (Node.id b) else at_ a - at_ b.

(** GET / *)
Definition list_nodes {Coll : Collation} (user : Principal.t) (orgId : option string) (limitParam offsetParam : jsval) : eff state page :=
  let '(lim, off) := readPageParams limitParam offsetParam in
  s <-! get ;
  let d := Control.db (control s) in
  scope <-! NativeTelemetry.from_outcome (FleetVisibility.resolveMetricsScope (Principal.id user) orgId d) ;
  let visible := js_sort (node_order s) (where_ (FleetVisibility.nodeVisibility (tier_of user) scope d) (Db.nodes d)) in
  eff_ret (pageEnvelope (take (Z.to_nat lim) (drop (Z.to_nat off) visible)) (Z.of_nat (length visible)) lim off).

(** ** The router *)

Inductive request :=
  | Create (body : jsval) (random generated : string)
  | Generate (body : jsval) (nodeId publicKey : string)
  | Update (id : string) (body : jsval)
  | Delete (id : string)
  | Revoke (id : string) (body : jsval)
  | Quarantine (id : string) (body : jsval)
  | Unquarantine (id : string)
  | Action (id : string) (body : jsval).

Definition handle (user : Principal.t) (orgAtIssue : option string) (r : request) (now : Z) : eff state reply :=
  match r with
  | Create body random generated => create_node user orgAtIssue body random generated now
  | Generate body nodeId publicKey => generate user orgAtIssue body nodeId publicKey now
  | Update id body => update_node user id body
  | Delete id => delete_node user id now
  | Revoke id body => revoke_node user id body now
  | Quarantine id body => quarantine_node user id body now
  | Unquarantine id => unquarantine_node user id
  | Action id body => node_action user id body now
  end.

(** An authenticated request: [resolveUserOrg], the handler, and the error handler. *)
Definition serve (user : Principal.t) (orgAtIssue : option string) (r : request) (now : Z) (s : state) : reply * state :=
  match Rbac.resolveUserOrg (Some user) (Control.db (control s)) with
  | None => (Error 401 "Authentication required", s)
  | Some u =>
      match handle u orgAtIssue r now s with
      | (Ok a, s') => (a, s')
      | (Throw st e, s') => (Error (status_or_500 st) e, s')
      end
  end.
End Handlers.
End NodeApi.
