(* ===== verification/NodeApiFacts.v ===== *)
(** * Theorems on the console's node API

    [Touched]: what a request may change of the fleet.  [NodeApiFacts]: who may change a
    node, and what a quarantine and its lifting do.  [NodeApiSamples]: witnesses and
    examples. *)

From S2P Require Import Prelude Order Js Encoding Json Db Vip Acl Routes Revocation Endpoints Permit Netmap Enrol Access.
From S2P Require Import Vault Governance Orgs Primitives Challenge Telemetry Bridge BridgeFacts NodeApi.

Module Touched.
Import NodeApi.

(** What no request changes of a row. *)
Definition identity (n : Node.t) : string * string * string * string * string * option string * option string :=
  (Node.id n, Node.user_id n, Node.public_key n, Node.overlay_ipv4 n, Node.overlay_ipv6 n, Node.organization_id n, Node.compartment_id n).

Definition other (id : string) (n : Node.t) : bool := negb (Node.id n =? id)%string.

(** The tables apart from nodes, credentials, revocations and versions. *)
Definition rest (d : Db.t) : Db.t :=
  d <| Db.nodes := [] |> <| Db.node_credentials := [] |> <| Db.revoked_keys := [] |> <| Db.mesh_epochs := ∅ |>.

(** Only the node [id] and its credentials changed: no row was added, and it kept its
    identity. *)
Record db_touches (id : string) (d d' : Db.t) : Prop := {
  dt_other : where_ (other id) (Db.nodes d') = where_ (other id) (Db.nodes d);
  dt_identity : identity <$> Db.nodes d' `sublist_of` identity <$> Db.nodes d;
  dt_credentials : where_ (λ c, negb (Credential.node_id c =? id)%string) (Db.node_credentials d') =
                   where_ (λ c, negb (Credential.node_id c =? id)%string) (Db.node_credentials d);
  dt_rest : rest d' = rest d;
}.

#[export] Instance db_touches_preorder id : PreOrder (db_touches id).
Proof.
  split; [by split|]. intros a b c [A1 A2 A3 A4] [B1 B2 B3 B4]. split; [congruence|by etrans|congruence|congruence].
Qed.

Lemma db_touches_same id d d' : Db.nodes d' = Db.nodes d → Db.node_credentials d' = Db.node_credentials d → rest d' = rest d → db_touches id d d'.
Proof. intros E1 E2 E3. split; rewrite ?E1, ?E2; done. Qed.

Lemma update_touches id f d : (∀ n, identity (f n) = identity n) →
  db_touches id d (d <| Db.nodes ::= update_where (λ n, (Node.id n =? id)%string) f |>).
Proof.
  intros Hf. split; cbn; try done.
  - apply where_update_none. unfold other. intros x _ Hx. rewrite Hx. pose proof (Hf x) as E. injection E as E. rewrite E, Hx. done.
  - rewrite update_where_fmap by done. done.
Qed.

Lemma within_preorder {S A} (R : relation S) `{!PreOrder R} (m : eff S A) s : within R m → R s (m s).2.
Proof. intros H. generalize (H s). induction 1; [done|by etrans]. Qed.

Lemma bump_touches id name d : db_touches id d (Acl.bump name d).
Proof. by apply db_touches_same. Qed.
#[export] Hint Resolve bump_touches : ctl.

Lemma bumpEpoch_within id name : within (db_touches id) (Acl.bumpEpoch name).
Proof.
  unfold Acl.bumpEpoch. apply within_bind; [apply within_modify; auto with ctl|intros _]. apply within_bind; [|intros _].
  - destruct (_ =? _)%string; [apply within_ret|apply within_modify; auto with ctl].
  - apply within_reads. done.
Qed.

Lemma credentials_touches id now d : db_touches id d (d <| Db.node_credentials ::= Credentials.revoke_rows id now |>).
Proof.
  split; try done. cbn. apply where_update_none. intros c _ Hc. apply andb_true_iff in Hc as [Hc _]. cbn. by rewrite Hc.
Qed.

Lemma revokeNodeCredentials_within id now : within (db_touches id) (Credentials.revokeNodeCredentials id now).
Proof.
  intros d. apply rtc_once. unfold Credentials.revokeNodeCredentials. destruct (_ =? _)%string; [done|]. apply credentials_touches.
Qed.

Lemma revoke_rows_loop_within RET id rows reason actor now : within (db_touches id) (Revocation.revoke_rows_loop RET rows reason actor now).
Proof.
  intros d. destruct (Revocation.revoke_rows_loop _ _ _ _ _ d) as [o d'] eqn:E. apply RevocationFacts.revoke_rows_loop_run in E as (l & -> & _).
  apply rtc_once. by apply db_touches_same.
Qed.
#[export] Hint Resolve bumpEpoch_within revokeNodeCredentials_within revoke_rows_loop_within : ctl.

Lemma revokeNodeKeys_within RET id reason actor now : within (db_touches id) (Revocation.revokeNodeKeys RET [id] reason actor false now).
Proof.
  unfold Revocation.revokeNodeKeys. rewrite where_cons, where_nil. destruct (negb _); [|apply within_ret].
  apply within_get. intros d. cbn [Revocation.revoke_credentials].
  match goal with |- rtc _ _ (?m d).2 => cut (within (db_touches id) m); [intros H; apply H|] end.
  apply within_bind; [|intros _]; [apply within_bind; auto with ctl|].
  apply within_bind; [auto with ctl|intros [|]]; auto 8 with ctl.
Qed.

Lemma lift_within id node : within (db_touches id) (Revocation.liftQuarantineRevocation node).
Proof.
  intros d. destruct (Revocation.liftQuarantineRevocation node d) as [o d'] eqn:E. unfold Revocation.liftQuarantineRevocation in E.
  apply rtc_once. cbn in E. unfold eff_bind, get in E. destruct (where_ _ _); [by injection E as _ <-|].
  unfold modify in E. rewrite AclFacts.bumpEpoch_run in E. injection E as _ <-. by apply db_touches_same.
Qed.
#[export] Hint Resolve revokeNodeKeys_within lift_within : ctl.

Lemma delete_touches id d : db_touches id d (delete_nodes (λ n, (Node.id n =? id)%string) d).
Proof.
  split; try done; cbn.
  - apply where_delete_none. unfold other. intros x _ ->. done.
  - unfold delete_where. apply (fmap_sublist identity), sublist_filter.
  - apply where_delete_none. intros c _ Hc. apply bool_decide_eq_true in Hc. apply list_elem_of_fmap in Hc as (n & -> & Hn).
    apply elem_of_where in Hn as [-> _]. done.
Qed.

(** ** The state of the console *)

Definition db (s : state) : Db.t := Control.db (control s).

Record touches (id : string) (s s' : state) : Prop := {
  t_db : db_touches id (db s) (db s');
  t_columns : ∀ j, j ≠ id → Control.columns (control s') !! j = Control.columns (control s) !! j;
  t_switches : ∀ j, j ≠ id → switches s' !! j = switches s !! j;
  t_native : where_ (λ r, negb (NativeRow.node_id r =? id)%string) (Control.native (control s')) =
             where_ (λ r, negb (NativeRow.node_id r =? id)%string) (Control.native (control s));
  t_seq : Control.overlay_vip_seq (control s') = Control.overlay_vip_seq (control s);
  t_modules : modules s' = modules s;
}.

#[export] Instance touches_preorder id : PreOrder (touches id).
Proof.
  split; [by split|]. intros a b c [A1 A2 A3 A4 A5 A6] [B1 B2 B3 B4 B5 B6].
  split; [by etrans|intros j Hj; by rewrite B2, A2|intros j Hj; by rewrite B3, A3|congruence..].
Qed.

Lemma on_nodes_within {A} id (m : eff Db.t A) : within (db_touches id) m → within (touches id) (on_nodes m).
Proof.
  intros H s. apply rtc_once. pose proof (within_preorder _ _ (db s) H) as Hd. unfold on_nodes, on_control, Control.on_db, db in *.
  destruct (m _) as [o d]. by split.
Qed.
#[export] Hint Resolve on_nodes_within : ctl.

Lemma update_row_within id f : (∀ n, identity (f n) = identity n) → within (touches id) (update_row id f).
Proof. intros Hf. apply on_nodes_within, within_modify. intros d. by apply update_touches. Qed.

Lemma log_within id t u j : within (touches id) (log t u j).
Proof. apply within_modify. by split. Qed.

Definition keeps_identity (f : Node.t * Switches.t → Node.t * Switches.t) : Prop := ∀ x, identity (f x).1 = identity x.1.

Lemma apply_all_identity fs x : Forall keeps_identity fs → identity (apply_all fs x).1 = identity x.1.
Proof. intros H. revert x. induction H as [|f fs Hf _ IH]; intros x; [done|]. cbn. etrans; [apply IH|apply Hf]. Qed.

Lemma write_row_within id fs : Forall keeps_identity fs → within (touches id) (write_row id fs).
Proof.
  intros H. apply within_modify. intros s. split; try done.
  - apply update_touches. intros n. by rewrite apply_all_identity.
  - intros j Hj. cbn. destruct (row_of s id); [by rewrite lookup_insert_ne|done].
Qed.
#[export] Hint Resolve update_row_within log_within write_row_within : ctl.

Lemma set_if_identity b f fs : set_if b f = Some fs → (∀ g, f = Some g → keeps_identity g) → Forall keeps_identity fs.
Proof.
  unfold set_if. destruct b; [|by intros [= <-]]. destruct f as [g|]; [|done]. intros [= <-] H. constructor; [by apply H|constructor].
Qed.

Lemma updated_onion_identity body fs : updated_onion body = Some fs → Forall keeps_identity fs.
Proof.
  unfold updated_onion. intros H.
  assert (∀ on z, Forall keeps_identity [on_switches (set_onion on z)]) as Hon by (intros; by constructor).
  destruct (field "onion_routing_enabled" body); try (injection H as <-; by auto).
  destruct (field "onion_hops" body); try (injection H as <-; by auto);
    apply bind_Some in H as (z & _ & H); injection H as <-; by auto.
Qed.

(** No member of a body changes what a row is. *)
Lemma assignments_identity real body fs : assignments real body = Some fs → Forall keeps_identity fs.
Proof.
  unfold assignments. intros H. repeat (apply bind_Some in H as (? & ? & H)). injection H as <-.
  repeat match goal with
  | H : set_if _ _ = Some _ |- _ => apply set_if_identity in H; [|solve [intros g Hg; simplify_option_eq; by intros [[] ?]]]
  end.
  repeat (apply Forall_app_2; [by first [assumption|eapply updated_onion_identity]|]).
  repeat case_match; simplify_eq; repeat constructor; by intros [[] ?].
Qed.

Section Handlers.
Context (RETENTION_HOURS : Z) (real : num → option num).

Lemma remove_node_within u id reason now : within (touches id) (remove_node RETENTION_HOURS u id reason now).
Proof.
  unfold remove_node, Acl.bumpNetmap. apply within_bind; [auto with ctl|intros _]. apply within_bind; [|by auto 8 with ctl].
  apply within_modify. intros s. split; try done; cbn.
  - apply delete_touches.
  - intros j Hj. by rewrite lookup_delete_ne.
  - intros j Hj. by rewrite lookup_delete_ne.
  - apply where_delete_none. intros r _ ->. done.
Qed.

Lemma isolate_within u id reason now : within (touches id) (isolate RETENTION_HOURS u id reason now).
Proof. unfold isolate, Acl.bumpNetmap. auto 12 with ctl. Qed.

Lemma bump_all_within id : within (touches id) (on_nodes Acl.bumpNetmap).
Proof. unfold Acl.bumpNetmap. auto with ctl. Qed.
#[local] Hint Resolve remove_node_within isolate_within bump_all_within : ctl.

Lemma visible_within u n e f : (∀ n, identity (f n) = identity n) → within (touches (Node.id n)) (set_visible u n e f).
Proof.
  intros Hf. unfold set_visible. do 3 (apply within_bind; [by auto with ctl|intros _]). by apply within_reads.
Qed.

Lemma toggle_within u n body : within (touches (Node.id n)) (toggle_onion u n body).
Proof.
  unfold toggle_onion. apply within_get. intros s. cbv zeta. destruct (_ && _); [done|].
  match goal with |- rtc _ _ (?m s).2 => cut (within (touches (Node.id n)) m); [intros H; apply H|] end.
  apply within_bind; [apply write_row_within; by repeat constructor|intros _]. apply within_bind; [by auto with ctl|intros _]. by apply within_reads.
Qed.

Lemma or_db_error_within {S A B} (R : relation S) (o : option A) (k : A → eff S B) :
  (∀ a, o = Some a → within R (k a)) → within R (eff_bind (or_db_error o) k).
Proof. intros H s. destruct o as [a|]; [by apply (H a)|done]. Qed.

Lemma perform_within u n body now : within (touches (Node.id n)) (perform RETENTION_HOURS u n body now).
Proof.
  unfold perform. repeat case_match; auto using toggle_within with ctl.
  - unfold set_exit. auto 8 with ctl.
  - unfold lift_quarantine. auto 12 with ctl.
  - unfold set_transport. case_match; [|apply within_ret]. by apply visible_within.
  - unfold set_daita. case_match; [|apply within_ret]. by apply visible_within.
  - unfold set_dns_name. case_match; auto with ctl. case_match; auto with ctl.
    apply or_db_error_within. intros. by apply visible_within.
Qed.

Lemma write_update_within id body : within (touches id) (write_update real id body).
Proof.
  apply or_db_error_within. intros fs E%assignments_identity. apply within_bind; [destruct fs; auto with ctl|intros _].
  intros s1. unfold eff_bind at 1, get at 1. cbv beta iota. destruct (_ || _); [|done].
  apply (within_bind (touches id) _ (λ _, eff_ret _)); auto with ctl.
Qed.
#[local] Hint Resolve perform_within write_update_within : ctl.

(** The two outcomes of the check that opens a handler. *)
Lemma addressed_run id u b k s :
  ((∃ e, (addressed id u b k s) = (Ok (Error e.1 e.2), s)) ∧ verifyNodeAccess (row_of s id) u b ≠ None) ∨
  ∃ n, row_of s id = Some n ∧ verifyNodeAccess (Some n) u b = None ∧ addressed id u b k s = k n s.
Proof.
  unfold addressed, eff_bind, get. destruct (row_of s id) as [n|] eqn:E; [|left; split; [by eexists (_, _)|done]].
  destruct (verifyNodeAccess (Some n) u b) as [[st e]|] eqn:Ev; [left; split; [by exists (st, e)|done]|eauto].
Qed.

Lemma row_of_id s id n : row_of s id = Some n → Node.id n = id ∧ n ∈ Db.nodes (db s).
Proof.
  unfold row_of, select1. intros H. apply head_Some_elem_of in H. apply elem_of_where in H as [H ?]. b2p. done.
Qed.

(** ** Creation *)

(** The only change of a creation to the fleet: a row of its own for the caller, whom the
    organisation of the session lets enrol. *)
Record creates (u : Principal.t) (orgAtIssue : option string) (id : string) (s s' : state) (n : Node.t) : Prop := {
  c_nodes : Db.nodes (db s') = Db.nodes (db s) ++ [n];
  c_columns : ∃ c, Control.columns (control s') = <[id := c]> (Control.columns (control s));
  c_switches : ∃ w, switches s' = <[id := w]> (switches s);
  c_rest : rest (db s') = rest (db s) ∧ Control.native (control s') = Control.native (control s) ∧ modules s' = modules s;
  c_credentials : Db.node_credentials (db s') = Db.node_credentials (db s);
  c_owner : Node.id n = id ∧ Node.user_id n = Principal.id u ∧ Node.organization_id n = Some (Enrollment.text_or orgAtIssue "org-default");
  c_fresh : ∀ x, x ∈ Db.nodes (db s) → Node.id x ≠ id ∧ Node.public_key x ≠ Node.public_key n ∧
              Node.overlay_ipv4 x ≠ Node.overlay_ipv4 n ∧ Node.overlay_ipv6 x ≠ Node.overlay_ipv6 n;
  c_authorized : ∃ a, Enrollment.authorizeConsole (Principal.id u) orgAtIssue (db s) = Ok a;
}.

Lemma authorized_owner id org d a : Enrollment.authorizeConsole id org d = Ok a →
  User.id (Enrollment.a_user a) = id ∧ Enrollment.a_organization_id a = Enrollment.text_or org "org-default".
Proof.
  unfold Enrollment.authorizeConsole, Enrollment.authorizeOwner, Enrollment.denied. intros H. repeat case_match; simplify_eq; cbn; (split; [|done]).
  all: match goal with E : select1 _ (Db.users _) = Some _ |- _ => apply head_Some_elem_of, elem_of_where in E as [E _]; by b2p end.
Qed.

Lemma from_outcome_ok {S A} (o : outcome A) (s : S) a s' : NativeTelemetry.from_outcome o s = (Ok a, s') → o = Ok a ∧ s' = s.
Proof. destruct o; by intros [= <- <-]. Qed.

Lemma real_param_ok x (s : state) r s' : real_param real x s = (Ok r, s') → s' = s.
Proof. unfold real_param. destruct (real x); by intros [= _ <-]. Qed.

(** Only the counter of addresses moves before the row is written. *)
Lemma allocate_ok (s : state) v s' : on_control Bridge.allocate s = (Ok v, s') →
  s' = s <| control ::= (λ c, c <| Control.overlay_vip_seq := Control.overlay_vip_seq (control s') |>) |>.
Proof. unfold on_control, Bridge.allocate. destruct (Vip.allocateNextVip _) as [o a]. intros [= -> <-]. done. Qed.

Lemma insert_node_ok n c w s x s' : insert_node n c w s = (Ok x, s') →
  s' = s <| control ::= (λ k, k <| Control.db ::= (λ d, d <| Db.nodes ::= λ l, l ++ [n] |>) |> <| Control.columns ::= insert (Node.id n) c |>) |>
         <| switches ::= insert (Node.id n) w |> ∧
  ∀ x, x ∈ Db.nodes (db s) → Node.id x ≠ Node.id n ∧ Node.public_key x ≠ Node.public_key n ∧
    Node.overlay_ipv4 x ≠ Node.overlay_ipv4 n ∧ Node.overlay_ipv6 x ≠ Node.overlay_ipv6 n.
Proof.
  unfold insert_node, eff_bind, get. cbv beta zeta iota. branch E; [|done]. intros [= _ <-]. split; [done|]. intros y Hy.
  unfold Bridge.row_insertable in E. rewrite !andb_true_iff, !negb_true_iff in E. destruct E as ((_ & E1) & (E2 & _) & _).
  assert (∀ p : Node.t → bool, existsb p (Db.nodes (db s)) = false → p y = false) as Hp.
  { intros p He. apply not_true_iff_false. intros Hy'. apply not_true_iff_false in He. apply He, existsb_exists. exists y. by rewrite <- list_elem_of_In. }
  apply Hp in E1, E2. b2p. tauto.
Qed.

(** What both creations do once the caller is authorised and an address is drawn. *)
Lemma inserted_creates u org id s s1 a n c w x s2 y s' : Enrollment.authorizeConsole (Principal.id u) org (db s) = Ok a →
  s1 = s <| control ::= (λ c, c <| Control.overlay_vip_seq := Control.overlay_vip_seq (control s1) |>) |> →
  Node.id n = id → Node.user_id n = User.id (Enrollment.a_user a) → Node.organization_id n = Some (Enrollment.a_organization_id a) →
  insert_node n c w s1 = (Ok x, s2) → on_nodes Acl.bumpNetmap s2 = (Ok y, s') → creates u org id s s' n.
Proof.
  intros Ha E1 Hid Hu Ho [E2 Hfresh]%insert_node_ok E3. destruct (authorized_owner _ _ _ _ Ha) as [Hid' Horg].
  assert (db s1 = db s ∧ switches s1 = switches s ∧ modules s1 = modules s ∧ Control.columns (control s1) = Control.columns (control s) ∧
    Control.native (control s1) = Control.native (control s)) as (Ed & Es & Em & Ec & En) by (by rewrite E1).
  unfold on_nodes, on_control, Control.on_db, Acl.bumpNetmap in E3. rewrite AclFacts.bumpEpoch_run in E3. injection E3 as _ <-.
  rewrite E2. rewrite Ed, Hid in Hfresh. unfold db in *.
  split; cbn; rewrite ?Ed, ?Es, ?Ec, ?En, ?Em, ?Hid, ?Hu, ?Ho, ?Hid', ?Horg; eauto.
Qed.

Lemma create_tx_ok u org body pk name id now s n s' : create_tx real u org body pk name id now s = (Ok n, s') → creates u org id s s' n.
Proof.
  unfold create_tx. intros H. apply eff_bind_ok in H as (s0 & ? & E & H). injection E as <- <-.
  apply eff_bind_ok in H as (a & ? & Ha & H). apply from_outcome_ok in Ha as [Ha ->]. cbv zeta in H.
  apply eff_bind_ok in H as (key & ? & E & H). apply or_db_error_ok in E as [_ ->]. branch_in H; [done|].
  apply eff_bind_ok in H as (v & s1 & E1 & H). apply allocate_ok in E1. destruct (created_onion body) as [onion hops].
  do 2 (apply eff_bind_ok in H as (? & ? & E2 & H); apply real_param_ok in E2 as ->).
  do 3 (apply eff_bind_ok in H as (? & ? & E2 & H); apply or_db_error_ok in E2 as [_ ->]).
  apply eff_bind_ok in H as (? & s2 & E2 & H). apply eff_bind_ok in H as (? & s3 & E3 & H). injection H as <- <-.
  by eapply (inserted_creates u org id s s1 a).
Qed.

Lemma generate_tx_ok u org body name id pk now s n s' : generate_tx real u org body name id pk now s = (Ok n, s') → creates u org id s s' n.
Proof.
  unfold generate_tx. intros H. apply eff_bind_ok in H as (s0 & ? & E & H). injection E as <- <-.
  apply eff_bind_ok in H as (a & ? & Ha & H). apply from_outcome_ok in Ha as [Ha ->]. cbv zeta in H.
  apply eff_bind_ok in H as (v & s1 & E1 & H). apply allocate_ok in E1. destruct (generated_onion body) as [onion hops].
  do 2 (apply eff_bind_ok in H as (? & ? & E2 & H); apply real_param_ok in E2 as ->).
  do 2 (apply eff_bind_ok in H as (? & ? & E2 & H); apply or_db_error_ok in E2 as [_ ->]).
  apply eff_bind_ok in H as (? & s2 & E2 & H). apply eff_bind_ok in H as (? & s3 & E3 & H). injection H as <- <-.
  by eapply (inserted_creates u org id s s1 a).
Qed.

(** Nothing but the counter of addresses moved. *)
Definition only_counter (s s' : state) : Prop :=
  s' = s <| control ::= (λ c, c <| Control.overlay_vip_seq := Control.overlay_vip_seq (control s') |>) |>.

Lemma only_counter_refl s : only_counter s s.
Proof. unfold only_counter. by destruct s as [[]]. Qed.

(** A creation around its transaction. *)
Lemma transaction_run {A} (m : eff state A) u org id t status (reply_of : A → option Node.t) s o s' :
  (∀ n s1, m s = (Ok n, s1) → ∃ row, creates u org id s s1 row) →
  eff_bind (transaction m) (λ row, log t u id ;! eff_ret (Done status (reply_of row))) s = (o, s') →
  only_counter s s' ∨ ∃ n, creates u org id s s' n.
Proof.
  unfold eff_bind at 1, transaction. intros Hm H. destruct (m s) as [[a|st e] s1] eqn:E; [right|left; by injection H as _ <-].
  destruct (Hm _ _ eq_refl) as [row Hc]. injection H as _ <-. exists row. destruct Hc. by split.
Qed.

Lemma create_node_run u org body random generated now s o s' : create_node real u org body random generated now s = (o, s') →
  only_counter s s' ∨ ∃ n, creates u org ("svrn-node-" +:+ random) s s' n.
Proof.
  unfold create_node. intros H. destruct (field "name" body) as [| |b|x|name|l|l];
    try (by (left; branch_in H; injection H as _ <-; apply only_counter_refl)).
  branch_in H; [left; injection H as _ <-; apply only_counter_refl|].
  eapply (transaction_run _ _ _ _ _ _ Some); [|exact H]. intros n s1 Ht. exists n. by eapply create_tx_ok.
Qed.

Lemma generate_run u org body id pk now s o s' : generate real u org body id pk now s = (o, s') →
  only_counter s s' ∨ ∃ n, creates u org id s s' n.
Proof.
  unfold generate. intros H. destruct (field "name" body) as [| |b|x|name|l|l];
    try (by (left; branch_in H; injection H as _ <-; apply only_counter_refl)).
  branch_in H; [left; injection H as _ <-; apply only_counter_refl|].
  eapply (transaction_run _ _ _ _ _ _ Some); [|exact H]. intros n s1 Ht. exists n. by eapply generate_tx_ok.
Qed.

(** ** Every request *)

(** Who may change a node. *)
Definition may_change (u : Principal.t) (n : Node.t) : Prop :=
  let orgRole := or_text (Principal.org_role u) (or_text (Some (Principal.role u)) "member") in
  Principal.role u = "super-admin" ∨
  or_text (Node.organization_id n) "org-default" = or_text (Principal.organization_id u) "org-default" ∧ is_read_only orgRole = false ∧
    (orgRole ∈ ["owner"; "admin"; "network_admin"] ∨ Node.user_id n = Principal.id u).

Lemma verify_may n u : verifyNodeAccess (Some n) u true = None → may_change u n.
Proof.
  unfold verifyNodeAccess, may_change. intros H. cbn [andb negb] in H.
  destruct (_ =? "super-admin")%string eqn:E1; [left; by b2p|]. destruct (negb _) eqn:E2; [done|]. destruct (is_read_only _) eqn:E3; [done|].
  right. b2p. split_and!; [done..|]. destruct (bool_decide _) eqn:E4; [left; by apply bool_decide_eq_true in E4|].
  destruct (_ =? _)%string eqn:E5; [right; by b2p|done].
Qed.

(** The node a request addresses. *)
Definition target (r : request) : option string :=
  match r with
  | Create _ _ _ | Generate _ _ _ => None
  | Update id _ | Delete id | Revoke id _ | Quarantine id _ | Unquarantine id | Action id _ => Some id
  end.

Lemma addressed_confined id u b k s o s' : addressed id u b k s = (o, s') → (∀ n, Node.id n = id → within (touches id) (k n)) →
  touches id s s' ∧ (s' = s ∨ ∃ n, row_of s id = Some n ∧ verifyNodeAccess (Some n) u b = None ∧ k n s = (o, s')).
Proof.
  intros H Hk. destruct (addressed_run id u b k s) as [((e & E) & _)|(n & Hn & Hv & E)]; rewrite E in H.
  - injection H as _ <-. split; [reflexivity|by left].
  - split; [|eauto]. pose proof (within_preorder (touches id) (k n) s) as Hw. rewrite H in Hw. apply Hw, Hk, (row_of_id _ _ _ Hn).
Qed.

Lemma handle_confined u org r now s o s' id : target r = Some id → handle RETENTION_HOURS real u org r now s = (o, s') →
  touches id s s' ∧ (control s' = control s ∧ switches s' = switches s ∨ ∃ n, row_of s id = Some n ∧ may_change u n).
Proof.
  intros Ht H.
  assert (∀ b k, addressed id u b k s = (o, s') → (∀ n, Node.id n = id → within (touches id) (k n)) →
    (∀ n, b = false → k n s = (o, s') → control s' = control s ∧ switches s' = switches s) →
    touches id s s' ∧ (control s' = control s ∧ switches s' = switches s ∨ ∃ n, row_of s id = Some n ∧ may_change u n)) as Hgo.
  { intros b k Ha Hk Hb. destruct (addressed_confined _ _ _ _ _ _ _ Ha Hk) as [Hto [->|(n & Hn & Hv & E)]]; [auto|].
    split; [done|]. destruct b; [right; eauto using verify_may|left; by eapply Hb]. }
  destruct r; cbn in Ht; simplify_eq; cbn [handle] in H.
  - unfold update_node in H. branch_in H; [injection H as _ <-; split; [reflexivity|by left]|]. eapply Hgo; [exact H|intros n _; cbv beta; auto with ctl|done].
  - eapply Hgo; [exact H|intros n _; cbv beta; auto with ctl|done].
  - eapply Hgo; [exact H|intros n _; cbv beta; auto with ctl|done].
  - eapply Hgo; [exact H|intros n <-; cbv beta; auto with ctl|done].
  - eapply Hgo; [exact H|intros n <-; cbv beta; auto 12 with ctl|done].
  - unfold node_action in H. branch_in H; [injection H as _ <-; split; [reflexivity|by left]|]. eapply Hgo; [exact H|intros n <-; cbv beta; auto with ctl|].
    intros n Hp%negb_false_iff. unfold perform. rewrite Hp. intros E'. injection E' as _ <-. done.
Qed.

Lemma touches_distinct id s s' : touches id s s' → Fleet.distinct (Db.nodes (db s)) → Fleet.distinct (Db.nodes (db s')).
Proof.
  intros [[_ Hs _ _] _ _ _ _ _] Hd.
  assert (∀ (g : _ → string) (h : Node.t → string), (∀ n, g (identity n) = h n) → NoDup (h <$> Db.nodes (db s)) → NoDup (h <$> Db.nodes (db s'))) as Hgo.
  { intros g h Hg Hn. refine (sublist_NoDup _ _ Hn _). apply (fmap_sublist g) in Hs. rewrite <- !list_fmap_compose in Hs.
    assert (∀ l, h <$> l = (g ∘ identity) <$> l) as E by (intros l; apply list_fmap_ext; intros; by rewrite <- Hg).
    rewrite !E. exact Hs. }
  unfold Fleet.distinct, identity in *. destruct Hd as (H1 & H2 & H3 & H4). split_and!.
  - apply (Hgo (λ '(i, _, _, _, _, _, _), i)); done.
  - apply (Hgo (λ '(_, _, i, _, _, _, _), i)); done.
  - apply (Hgo (λ '(_, _, _, i, _, _, _), i)); done.
  - apply (Hgo (λ '(_, _, _, _, i, _, _), i)); done.
Qed.

Lemma creates_distinct u org id s s' n : creates u org id s s' n → Fleet.distinct (Db.nodes (db s)) → Fleet.distinct (Db.nodes (db s')).
Proof.
  intros [En (c & Ec) _ _ _ (Hid & _) Hf _]. apply (Fleet.step_distinct id). by apply (Fleet.step_insert id _ _ n c).
Qed.

(** What a request did to the fleet. *)
Definition confined (u : Principal.t) (orgAtIssue : option string) (r : request) (s s' : state) : Prop :=
  control s' = control s ∧ switches s' = switches s ∨
  match r with
  | Create _ random _ => (∃ n, creates u orgAtIssue ("svrn-node-" +:+ random) s s' n) ∨ only_counter s s'
  | Generate _ id _ => (∃ n, creates u orgAtIssue id s s' n) ∨ only_counter s s'
  | Update id _ | Delete id | Revoke id _ | Quarantine id _ | Unquarantine id | Action id _ =>
      touches id s s' ∧ ∃ n, row_of s id = Some n ∧ may_change u n
  end.

Lemma handle_run u org r now s o s' : handle RETENTION_HOURS real u org r now s = (o, s') →
  confined u org r s s' ∧ (Fleet.distinct (Db.nodes (db s)) → Fleet.distinct (Db.nodes (db s'))).
Proof.
  intros H. destruct (target r) as [id|] eqn:Ht.
  - destruct (handle_confined _ _ _ _ _ _ _ _ Ht H) as [Hto Hor]. split; [|by apply (touches_distinct id)].
    unfold confined. destruct Hor as [|Hor]; [by left|right]. destruct r; simplify_eq/=; auto.
  - assert (∃ id, (only_counter s s' ∨ ∃ n, creates u org id s s' n) ∧ ((∃ n, creates u org id s s' n) ∨ only_counter s s' → confined u org r s s'))
      as (id & Hor & Hc).
    { destruct r as [body random generated|body id pk| | | | | |]; try done; cbn [handle] in H; unfold confined;
        [apply create_node_run in H|apply generate_run in H]; eexists; (split; [exact H|by right]). }
    split; [apply Hc; tauto|]. destruct Hor as [E|(n & Hn)]; [rewrite E; done|by eapply creates_distinct].
Qed.

End Handlers.
End Touched.

Module NodeApiFacts.
Import NodeApi Touched.

Section Theorems.
Context (RETENTION_HOURS : Z) (real : num → option num).


(** ** Quarantine *)

(** The netmap version, which nodes poll. *)
Definition version (d : Db.t) : Z := Acl.getEpoch "netmap" d.
Definition versioned (d : Db.t) : Prop := is_Some (Db.mesh_epochs d !! "netmap").

Lemma select1_update {A} (p : A → bool) f l x : (∀ y, p (f y) = p y) → select1 p l = Some x → select1 p (update_where p f l) = Some (f x).
Proof.
  intros Hf. unfold select1, update_where. induction l as [|y l IH]; [done|]. rewrite fmap_cons, !where_cons.
  destruct (p y) eqn:E; [rewrite Hf, E; by intros [= ->]|by rewrite E].
Qed.

Lemma loop_answers rows reason actor now d : len reason <= 64 → ∃ ks d', Revocation.revoke_rows_loop RETENTION_HOURS rows reason actor now d = (Ok ks, d').
Proof.
  intros Hl. apply Z.leb_le in Hl. revert d. induction rows as [|n rows IH]; intros d; cbn [Revocation.revoke_rows_loop]; [by eauto|].
  destruct (Vip.normalisePublicKeyHex _) as [k|]; [|apply IH]. rewrite Hl. unfold eff_bind, modify.
  match goal with |- context [Revocation.revoke_rows_loop _ rows reason actor now ?d1] => destruct (IH d1) as (ks & d' & ->) end. by eauto.
Qed.

(** A revocation whose reason fits its column is answered, and the version never goes back. *)
Lemma revoke_answers id reason actor now d : len reason <= 64 → ∃ ks d',
  Revocation.revokeNodeKeys RETENTION_HOURS [id] reason actor false now d = (Ok ks, d') ∧ (versioned d → versioned d' ∧ version d <= version d').
Proof.
  intros Hl. rewrite revokeNodeKeys_body. cbv zeta. destruct (where_ _ [id]) as [|i l]; [exists [], d; split; [done|split; [done|lia]]|].
  assert (∃ ks d', revoke_body RETENTION_HOURS (i :: l) reason actor now d = (Ok ks, d')) as (ks & d1 & Eb).
  { unfold revoke_body, eff_bind, get. destruct (RevocationFacts.revoke_credentials_run (i :: l) now d) as (lc & -> & _). by apply loop_answers. }
  destruct (revoke_body_run RETENTION_HOURS (i :: l) (i :: l) reason actor now d _ d1 (λ _ H _, H) Eb) as [He _]. rewrite Eb.
  unfold versioned, version. destruct ks as [|k ks]; do 2 eexists; (split; [reflexivity|]); intros Hv.
  - unfold Acl.getEpoch. rewrite He. done.
  - split; [apply AclFacts.bump_some, AclFacts.bump_some; by rewrite He|].
    rewrite AclFacts.getEpoch_bump_same by (apply AclFacts.bump_some; by rewrite He).
    rewrite AclFacts.getEpoch_bump_other by done. unfold Acl.getEpoch. rewrite He. lia.
Qed.

Definition quarantined (reason : string) (n : Node.t) : Node.t :=
  n <| Node.is_quarantined := true |> <| Node.is_healthy := false |> <| Node.quarantine_reason := Some reason |>.

Lemma on_nodes_run {A} (m : eff Db.t A) s o d : m (db s) = (o, d) → on_nodes m s = (o, s <| control ::= (λ c, c <| Control.db := d |>) |>).
Proof. unfold on_nodes, on_control, Control.on_db, db. by intros ->. Qed.

Lemma bind_run {S A B} (m : eff S A) (k : A → eff S B) s a s1 : m s = (Ok a, s1) → eff_bind m k s = k a s1.
Proof. unfold eff_bind. by intros ->. Qed.

Lemma version_bump d : versioned d → version (Acl.bump "netmap" d) = version d + 1.
Proof. apply AclFacts.getEpoch_bump_same. Qed.

Lemma isolate_answers u id reason now s : id ≠ "" → len ("quarantine: " +:+ js_String reason) <= 64 → ∃ s',
  isolate RETENTION_HOURS u id reason now s = (Ok tt, s') ∧
  Db.nodes (db s') = update_where (λ n, (Node.id n =? id)%string) (quarantined (js_String reason)) (Db.nodes (db s)) ∧
  RevocationFacts.credentials_revoked id (Db.node_credentials (db s')) ∧
  (∀ n key, n ∈ Db.nodes (db s) → Node.id n = id → Vip.normalisePublicKeyHex (Node.public_key n) = Some key →
     RevocationFacts.on_list key (now + RETENTION_HOURS * Credentials.HOUR) (Db.revoked_keys (db s'))) ∧
  (versioned (db s) → version (db s) < version (db s')).
Proof.
  intros Hid Hl. set (d1 := (db s) <| Db.nodes ::= update_where (λ n, (Node.id n =? id)%string) (quarantined (js_String reason)) |>).
  set (d2 := d1 <| Db.node_credentials ::= Credentials.revoke_rows id now |>).
  destruct (revoke_answers id _ (Some (Principal.id u)) now d2 Hl) as (ks & d3 & Er & Hv).
  destruct (revokeNodeKeys_run _ _ _ _ _ _ _ _ _ Er) as [[Hn _ Hc Hk] _].
  eexists. split; [|split_and!].
  - unfold isolate, update_row. erewrite bind_run by (apply on_nodes_run; reflexivity).
    erewrite bind_run by (apply on_nodes_run; unfold Credentials.revokeNodeCredentials; apply String.eqb_neq in Hid; rewrite Hid; reflexivity).
    erewrite bind_run by (apply on_nodes_run; exact Er).
    erewrite bind_run by (apply on_nodes_run; apply AclFacts.bumpEpoch_run). reflexivity.
  - exact Hn.
  - apply (Hc id); [left|done].
  - intros n key Hin <- Hkey. assert (quarantined (js_String reason) n ∈ Db.nodes d2) as Hin'.
    { apply elem_of_update. exists n. by rewrite String.eqb_refl. }
    by apply (Hk ks _ key eq_refl Hin'); [left|..].
  - intros Hs. destruct (Hv Hs) as [Hs3 Hle]. change (version d2) with (version (db s)) in Hle.
    apply (Z.le_lt_trans _ (version d3)); [done|]. change (version d3 < version (Acl.bump "netmap" d3)). rewrite version_bump by done. lia.
Qed.

(** A credential or a netmap of a store where the node is quarantined. *)
Lemma quarantined_refused sha256 raw t d id nid role uid cid e d' :
  RevocationFacts.credentials_revoked id (Db.node_credentials d) →
  Credentials.validateCredential sha256 raw t d = (Ok (Credentials.Granted nid role uid cid e), d') → nid ≠ id.
Proof.
  intros Hc Hg ->. apply validate_granted in Hg as (text & c & n & _ & Hr & Hv & _ & _ & _ & E & _).
  apply credential_rows_elem in Hr as (Hcin & _). by apply (Hc c Hcin).
Qed.

Lemma quarantined_unlisted {Coll : Collation} {Loc : Locale} cfg viewer t d nm p id :
  (∀ n, n ∈ Db.nodes d → Node.id n = id → Node.is_quarantined n = true) →
  Netmap.buildNetmap cfg viewer t d = Ok (Some nm) → p ∈ Netmap.peers nm → viewer ≠ id ∧ Netmap.p_node_id p ≠ id.
Proof.
  intros Hq Hb Hp. destruct (NetmapFacts.buildNetmap_inv _ _ _ _ _ Hb) as (me & pol & rs & Hme & Hid & _ & _ & _ & _ & Hpeers).
  rewrite Hpeers in Hp. apply NetmapFacts.build_peers_elem in Hp as (n & k & subnets & Hn & _ & ->).
  apply NetmapFacts.elem_of_candidates in Hn as (Hqme & Hn & _ & Hqn & _).
  split; intros E; [specialize (Hq me Hme)|specialize (Hq n Hn)]; cbn in *; rewrite Hq in * by congruence; done.
Qed.


Lemma lift_answers id d : ∃ ks d', Revocation.liftQuarantineRevocation id d = (Ok ks, d') ∧ Db.nodes d' = Db.nodes d ∧
  Db.node_credentials d' = Db.node_credentials d ∧ (versioned d → versioned d' ∧ version d <= version d').
Proof.
  unfold Revocation.liftQuarantineRevocation, eff_bind, get, modify. destruct (where_ _ _) as [|r rows].
  - exists [], d. split_and!; [done..|]. split; [done|lia].
  - rewrite AclFacts.bumpEpoch_run. do 2 eexists. split_and!; [reflexivity|done|done|]. intros Hs. cbn [String.eqb].
    set (d1 := d <| Db.revoked_keys ::= _ |>). assert (versioned d1) as H1 by done.
    change (versioned (Acl.bump "netmap" (Acl.bump "acl" d1)) ∧ version d1 <= version (Acl.bump "netmap" (Acl.bump "acl" d1))).
    split; [by do 2 apply AclFacts.bump_some|]. rewrite version_bump by (by apply AclFacts.bump_some).
    unfold version. rewrite AclFacts.getEpoch_bump_other by done. lia.
Qed.

(** C29. Lifting a quarantine by the action ends it.  For a caller who may change the node the
    action is answered 200: the row is healthy and carries no flag; the entries that
    quarantines of this node put on the revocation list are gone and no other is, so that
    a key with no other entry is not revoked at any time; its credentials stay as they
    were; and the netmap version has advanced. *)
Theorem lift_restores user org id body now s u n :
  Rbac.resolveUserOrg (Some user) (db s) = Some u → row_of s id = Some n → verifyNodeAccess (Some n) u true = None →
  field "action" body = JStr "lift_quarantine" →
  ∃ s', serve RETENTION_HOURS real user org (Action id body) now s = (Done 200 None, s') ∧
    row_of s' id = Some (release_row n) ∧
    Db.revoked_keys (db s') = delete_where (Revocation.quarantine_entry id) (Db.revoked_keys (db s)) ∧
    (∀ key t, Vip.normalisePublicKeyHex (Node.public_key n) = Some key →
       (∀ r, r ∈ Db.revoked_keys (db s) → Revoked.public_key_hex r = key → Revocation.quarantine_entry id r = true) →
       Revocation.isRevoked (Node.public_key n) t (db s') = false) ∧
    Db.node_credentials (db s') = Db.node_credentials (db s) ∧
    (versioned (db s) → version (db s) < version (db s')).
Proof.
  intros Hu Hn Hv Ha. destruct (row_of_id _ _ _ Hn) as [En Hin].
  set (d1 := (db s) <| Db.nodes ::= update_where (λ n, (Node.id n =? id)%string) release_row |>).
  destruct (lift_answers id d1) as (ks & d2 & El & Hnodes & Hc & Hver). pose proof (lift_run _ _ _ _ El) as Hr.
  change (Db.revoked_keys d1) with (Db.revoked_keys (db s)) in Hr. eexists. split_and!.
  - unfold serve. fold (db s). rewrite Hu. cbn [handle]. unfold node_action, asks. rewrite Ha.
    change (negb (truthy (JStr "lift_quarantine"))) with false. change (negb ("lift_quarantine" =? "ping")%string) with true. cbv iota.
    unfold addressed. erewrite bind_run by reflexivity. rewrite Hn, Hv.
    unfold perform, asks. rewrite Ha. cbn [String.eqb Ascii.eqb Bool.eqb orb]. unfold lift_quarantine, update_row. rewrite En.
    erewrite bind_run by (apply on_nodes_run; reflexivity). erewrite bind_run by (apply on_nodes_run; exact El).
    erewrite bind_run by (apply on_nodes_run; apply AclFacts.bumpEpoch_run). reflexivity.
  - transitivity (select1 (λ n, (Node.id n =? id)%string) (Db.nodes d2)); [reflexivity|]. rewrite Hnodes. by apply select1_update.
  - exact Hr.
  - intros key t Hkey Hall. unfold Revocation.isRevoked. rewrite Hkey. apply not_true_iff_false. intros (r & Hin' & Ht)%existsb_exists.
    apply list_elem_of_In in Hin'. change (r ∈ Db.revoked_keys d2) in Hin'. rewrite Hr in Hin'. apply elem_of_delete in Hin' as [Hin' Hq].
    b2p. by rewrite Hall in Hq.
  - exact Hc.
  - intros Hs. destruct (Hver Hs) as [H2 Hle]. apply (Z.le_lt_trans _ (version d2)); [exact Hle|].
    change (version d2 < version (Acl.bump "netmap" d2)). rewrite version_bump by done. lia.
Qed.
End Theorems.
End NodeApiFacts.

(** ** A small console *)
Module NodeApiSamples.
Import NodeApi Touched NodeApiFacts.

Definition real (x : num) : option num := Some x.
Definition member : Principal.t := Principal.mk "usr-1" "ada" "user" (Some "org-a") (Some "member") None None.
Definition auditor : Principal.t := Principal.mk "usr-2" "bob" "user" (Some "org-a") (Some "auditor") None None.
Definition start : state := mk_state (Control.mk sample_db [] ∅ 0) ∅ (Modules.mk [] []) [].
Definition run (user : Principal.t) (r : request) (now : Z) (s : state) : reply * state := serve 24 real user None r now s.

Definition row_n1 : Node.t := (AclSample.node "n1" "100.64.0.1" (Some "org-a") None) <| Node.public_key := sample_key |>.
Definition why : jsval := JObj [("reason", JStr "lost")].
Definition isolated : state := Eval vm_compute in (run member (Quarantine "n1" why) 10 start).2.
Definition key_refused (t : Z) (s : state) : bool := Revocation.isRevoked sample_key t (db s).
Definition flagged (s : state) : option bool := Node.is_quarantined <$> row_of s "n1".
Definition granted (t : Z) (s : state) : bool :=
  match (Credentials.validateCredential (λ x, x) (JStr "nnt1_ab") t (db s)).1 with Ok (Credentials.Granted _ _ _ _ _) => true | _ => false end.

Lemma resolved s : Rbac.resolveUserOrg (Some member) (db s) = Some member.
Proof. reflexivity. Qed.
Lemma isolated_run : serve 24 real member None (Quarantine "n1" why) 10 start = (Done 200 None, isolated).
Proof. vm_compute. reflexivity. Qed.



Definition lifting : jsval := JObj [("action", JStr "lift_quarantine")].

Definition lifted : state := Eval vm_compute in (run member (Action "n1" lifting) 20 isolated).2.
Lemma lifted_run : serve 24 real member None (Action "n1" lifting) 20 isolated = (Done 200 None, lifted).
Proof. vm_compute. reflexivity. Qed.

Lemma lift_restores_witness : flagged lifted = Some false ∧ key_refused 1000 lifted = false.
Proof.
  destruct (lift_restores 24 real member None "n1" lifting 20 isolated member (quarantined "lost" row_n1) (resolved isolated))
    as (s' & E & Hr & _ & Hk & _); [vm_compute; reflexivity|vm_compute; reflexivity|reflexivity|].
  rewrite lifted_run in E. injection E as <-. split; [unfold flagged; rewrite Hr; reflexivity|].
  apply (Hk sample_key 1000); [vm_compute; reflexivity|].
  assert (forallb (Revocation.quarantine_entry "n1") (Db.revoked_keys (db isolated)) = true) as Hall by (vm_compute; reflexivity).
  intros r Hin _. rewrite forallb_forall in Hall. apply Hall. by apply list_elem_of_In.
Defined.

(** Lifting by its own endpoint clears the flag and leaves the key on the list. *)
Lemma unquarantine_keeps_key : let s := (run member (Unquarantine "n1") 20 isolated).2 in
  flagged s = Some false ∧ key_refused 1000 s = true.
Proof. split; vm_compute; reflexivity. Qed.

(** A status written by PUT flags the node and leaves its credential and its key valid. *)
Lemma status_quarantine_keeps_key :
  let s := (run member (Update "n1" (JObj [("status", JStr "quarantined")])) 20 start).2 in
  flagged s = Some true ∧ key_refused 1000 s = false ∧ granted 30 (run member (Update "n1" (JObj [("status", JStr "active")])) 25 s).2 = true.
Proof. split_and!; vm_compute; reflexivity. Qed.

(** A reason over 52 characters: the node is flagged, the key is not revoked, and the
    caller is answered 500. *)
Definition long_reason : jsval := JObj [("reason", JStr "a reason that a careful operator wrote out in full here")].
Lemma long_reason_keeps_key : let r := run member (Quarantine "n1" long_reason) 10 start in
  (match r.1 with Error 500 _ => true | _ => false end) = true ∧ flagged r.2 = Some true ∧ key_refused 1000 r.2 = false ∧
  version (db r.2) = version (db start).
Proof. split_and!; vm_compute; reflexivity. Qed.

(** Onion routing for an organisation without the module: the action refuses it and the
    update writes it. *)
Lemma update_skips_module :
  (match (run member (Action "n1" (JObj [("action", JStr "set_onion"); ("enabled", JBool true)])) 10 start).1 with Error 403 _ => true | _ => false end) = true ∧
  Switches.onion_routing_enabled (switches_of (run member (Update "n1" (JObj [("onion_routing_enabled", JBool true)])) 10 start).2 "n1") = true.
Proof. split; vm_compute; reflexivity. Qed.

(** The owner of a node, a plain member, ends the quarantine an administrator set. *)
Definition admin : Principal.t := Principal.mk "usr-3" "eve" "user" (Some "org-a") (Some "admin") None None.
Lemma member_ends_quarantine : let s := (run admin (Quarantine "n1" why) 10 start).2 in
  flagged s = Some true ∧ flagged (run member (Action "n1" lifting) 20 s).2 = Some false.
Proof. split; vm_compute; reflexivity. Qed.

(** A reader changes nothing. *)
Lemma auditor_refused : (run auditor (Quarantine "n1" why) 10 start).1 = Error 403 "Forbidden: read-only role cannot mutate node".
Proof. vm_compute. reflexivity. Qed.
End NodeApiSamples.
